(* ===== verification/_CoqProject ===== *)
-Q . S2P
Prelude.v
SampleCodec.v
Journal.v
JournalOrder.v
GoText.v
Utf8.v
Framing.v
Handoff.v
HandoffStream.v
HandoffTransfer.v
HandoffProofs.v
HandoffCorrect.v
OutboundQueue.v
AttachGate.v
VTBoundary.v
TargetState.v
Dispatch.v
SnapshotCache.v
DaemonServer.v
EventPlane.v
NodeOperations.v
NodeInvariant.v
NodeRecovery.v
NodeHistory.v
MetricsHistory.v
Bootstrap.v
Locks.v
Forwarding.v
ForwardingInvariant.v
ForwardingPolicy.v
ForwardingCorrect.v
ForwardingRestart.v
ForwardingRoutes.v
ActivityText.v
ActivityJournal.v
ActivityDurable.v
OperationOutput.v
CommandWords.v
RuntimeCommands.v
RuntimeRender.v
NodeRecord.v
MetadataCache.v
NodeInput.v
NodeStore.v
NodeStoreSafe.v
NodeStoreLookup.v
SandboxRuntime.v
NodeLifecycle.v
NodeLifecycleLogic.v
NodeLifecycleInvariant.v
NodeLifecycleLive.v
NodeLifecycleMake.v
NodeLifecycleOps.v
NodeLifecycleSafe.v
NodeLifecycleOutcome.v
RendererLink.v
RendererLinkCorrect.v
RendererCheckpoint.v
RendererRecovery.v
RendererSupervisor.v
RendererSupervisorSafe.v
RendererSupervisorBudget.v
RendererSupervisorOutput.v
RendererSupervisorWorkers.v
RendererSupervisorLive.v
RendererGraphics.v
