(* ===== verification/Prelude.v ===== *)
(** * A verification development for codelima

    codelima runs coding agents in Lima virtual machines ("nodes").  A daemon owns
    the nodes' lifecycle operations, the terminals and the port forwarding; clients
    (the terminal user interface and the command line) talk to it over a socket;
    everything durable lives in a metadata home of plain files.  This library
    models the parts whose correctness is a matter of state, order, bounds and
    failure.  Definitions are translated from the Go sources under src/ and keep
    their names; a definition is usually one function of the source, one critical
    section of a mutex, or the code between two of them.  Concurrency is a step
    relation or a step function that interleaves these sections; failures and
    crashes are arguments that decide the fate of every durable step, and an
    atomic write can fail before its rename or after it ([writeOutcome]).

    Shared ground.
    - [Prelude]: integers of a fixed width ([u64], [i64]), times, errors and
      results, byte slices, generic lemmas, tactics and hints.
    - [GoText]: the functions of Go's strings and unicode/utf8 that are used.
    - [Utf8]: the encoding of scalar values, against which [GoText] is checked.
    - [Framing], [SampleCodec]: the length prefix of JSON frames; a concrete
      encoder that instantiates the coders taken as arguments in witnesses.

    Terminals and renderers.
    - [Journal] (renderer_journal.go, renderer_journal_output.go,
      renderer_checkpoint.go): the bounded journal of a terminal's output.  It
      keeps the longest suffix that fits, and reading it in pieces yields the
      whole.
    - [JournalOrder] (renderer_journal_order.go): the worker's reorder buffer
      applies a permuted stream in order, or reports a gap.
    - [RendererLink], [RendererLinkCorrect] (renderer_supervisor.go,
      renderer_worker_protocol.go): the link to a worker process, its writer,
      reader and failure as steps; requests have exactly their execution budget,
      no call hangs, output stays in order.
    - [RendererCheckpoint], [RendererRecovery] (renderer_checkpoint.go,
      renderer_checkpoint_handoff.go, renderer_checkpoint_quota.go): checkpoints
      and the recovery bundle of a live update; the journal arrives intact.
    - [RendererSupervisor] (renderer_supervisor.go,
      renderer_checkpoint_supervisor.go): one step per critical section of the
      supervisor's goroutines; what a link answers is part of the event.  On it,
      for every interleaving: [RendererSupervisorSafe] (who may publish),
      [RendererSupervisorOutput] (a renderer knows the output that was delivered,
      and which output it may lack), [RendererSupervisorBudget] (charged restarts),
      [RendererSupervisorWorkers] (no worker process is forgotten),
      [RendererSupervisorLive] (degraded is left after the cooldown).  The world
      records what each worker was initialised with, so that "replayed" is a
      statement about what the worker was given.  The steps
      are summed up by relations on the few fields a theorem is about ([move],
      [bmove], [kmove], [tadvance], [dkeeps]), whose preservation lemmas know
      nothing of the operations.
    - [RendererGraphics] (renderer_graphics.go, terminal_graphics_isolated.go,
      tui_terminal_graphics.go): the images of a scene and their fetch in pieces.
    - [AttachGate] (terminal_attach_gate.go): every renderer reply is delivered
      once, held, or handed to the attached terminal.
    - [VTBoundary] (internal/terminalstate/vt_boundary.go): the tracker is at
      ground exactly between complete sequences of a grammar.
    - [TargetState] (terminal/target.go, terminal/targetstate.go,
      tui_session_order.go): tabs of a target and their order.

    The daemon's server.
    - [OutboundQueue] (daemon/outbound_queue.go): the bounded two-priority mailbox
      of a connection refines two bounded queues.
    - [Dispatch] (daemon/dispatch.go): delivery classes; input of a terminal
      stays in order, a newer resize replaces an older one.
    - [SnapshotCache] (daemon/server.go): shared encodings are those of the
      snapshot asked for.
    - [DaemonServer], [EventPlane] (daemon/server.go, clipboard_owner.go,
      connection_failure.go, protocol.go, tui_daemon_connection.go): admission,
      the input lease, events and their revisions; a subscription is a goroutine
      that captures its snapshot in steps, and a client that synchronises misses
      no event after its cut, the lease has one holder, and which event
      losses remain possible.
    - [Handoff], [HandoffStream], [HandoffTransfer], [HandoffProofs],
      [HandoffCorrect] (daemon/handoff_transport.go, daemon_host.go): the transfer
      of a live update, over a stream the kernel cuts anywhere; every descriptor
      has one owner or is closed.

    Nodes.
    - [NodeRecord] (types.go, runtime_commands.go, store.go): the stored form of
      a node and its reading.
    - [MetadataCache] (store.go): the parse cache cannot be seen.
    - [NodeStore], [NodeStoreSafe], [NodeStoreLookup] (store.go): saving, looking
      up, listing, quarantining and repairing nodes when any durable step fails or
      is the last.
    - [NodeInput] (fsutil.go, runtime.go): slugs and published ports.
    - [SandboxRuntime] (lima.go, runtime.go): the client of limactl over the world
      of the metadata home and the instances, with the fates of every step.
    - [NodeLifecycle] (service.go, node_restart.go, bootstrap_steps.go, config.go):
      creating, starting, stopping, cloning, deleting, cleaning up and repairing.
      [NodeLifecycleLogic] has the rules, [NodeLifecycleInvariant],
      [NodeLifecycleLive], [NodeLifecycleMake] and [NodeLifecycleOps] the
      invariant and what each operation may change; [NodeLifecycleSafe] shows that
      no instance is orphaned or touched by an operation on another node,
      [NodeLifecycleOutcome] what a start and a stop achieve.
    - [Bootstrap] (bootstrap_steps.go, service.go): recorded steps; a resumed start
      neither repeats nor skips a step that succeeded.
    - [NodeOperations], [NodeInvariant], [NodeRecovery], [NodeHistory]
      (node_operations.go, node_operation_phases.go, node_batch.go,
      tui_operations.go): admission, phases, batches, receipts, restarts and pages
      of the daemon's lifecycle operations.
    - [OperationOutput] (node_operation_output.go): the bounded tail of a
      command's output.
    - [CommandWords], [RuntimeCommands], [RuntimeRender] (runtime.go,
      runtime_commands.go, command_list.go, lima.go, shell_launcher.go): quoting,
      templates and the command lines that reach limactl.
    - [Locks] (locks.go): ordered lock files over polled flock.

    Ports, metrics, activity.
    - [Forwarding], [ForwardingInvariant], [ForwardingPolicy], [ForwardingCorrect],
      [ForwardingRestart], [ForwardingRoutes] (dynamic_forwarding.go,
      forwarding_policy.go): routes, the owner of a bare port, durable
      preferences.
    - [MetricsHistory] (metrics_history.go, metrics_cpu_trend.go): sample rings.
    - [ActivityText], [ActivityJournal], [ActivityDurable] (activity_journal.go,
      activity_action.go, node_log_source.go): the message journal and what
      survives crashes.

    Conventions.  JSON, YAML, UUIDs, sizes of encodings and the kernel's control
    messages are arguments, and what the code relies on of them is a class or a
    named hypothesis ([JSONCoder], [SocketRights], [NodeYAML]); witnesses
    instantiate them with the concrete functions of [SampleCodec] or of a Sample
    module.  The order in which Go visits a map is an argument or does not matter
    to the statement.  Times are integers of nanoseconds.

    Fuel.  The loops that are not structural carry fuel that the model computes
    from the state: the bytes left to write or read in [Handoff] and
    [HandoffTransfer], the events left in [Journal] and [JournalOrder], the entries
    left in [NodeHistory] and [SnapshotCache], the bytes of the text in [GoText],
    [ActivityText], [CommandWords] and [OperationOutput].  Each round consumes at least one unit of that measure, and
    the theorems that the loops return ([handoff_transfer], [any_order_delivers],
    [read_all_complete], [pages_cover_history]) have no fuel in their statements.

    Not modelled.  The terminal emulator (internal/ghostty, cgo), drawing and
    input of the terminal user interface (tui_*.go apart from the parts above),
    the renderer worker's server around the emulator, the command line parser,
    Lima's template rewriting and observer, host credentials, TLS-free proxying of
    forwarded connections, logging and release tooling: they are input and output,
    presentation, or the use of libraries that are not part of the sources.
    PROJECT.json lists every part with the reason. *)

From stdpp Require Export base tactics option list list_numbers sorting numbers.
From stdpp Require Export gmap strings fin_maps.
From Stdlib Require Export ZArith Lia.

#[global] Set Default Goal Selector "!".

(** ** Scopes *)

Declare Scope go_scope.
Delimit Scope go_scope with go.

(** ** Integers of a fixed width *)

Abbreviation two64 := 18446744073709551616%Z.
Abbreviation two63 := 9223372036854775808%Z.

(** [uint64] arithmetic wraps around. *)
Definition u64 (z : Z) : Z := (z mod two64)%Z.

(** [int] and [int64] arithmetic wraps around. *)
Definition i64 (z : Z) : Z := ((z + two63) mod two64 - two63)%Z.

(** The [int64] saturation that [time.Time.Sub] applies. *)
Definition clamp63 (z : Z) : Z := Z.max (- two63)%Z (Z.min (two63 - 1)%Z z).

Lemma u64_small z : (0 <= z < two64)%Z -> u64 z = z.
Proof. intros H. unfold u64. by apply Z.mod_small. Qed.

Lemma u64_range z : (0 <= u64 z < two64)%Z.
Proof. unfold u64. apply Z.mod_pos_bound. lia. Qed.

Lemma i64_small z : (- two63 <= z < two63)%Z -> i64 z = z.
Proof. intros H. unfold i64. rewrite Z.mod_small; lia. Qed.

Lemma clamp63_small z : (- two63 <= z < two63)%Z -> clamp63 z = z.
Proof. unfold clamp63. lia. Qed.

(** ** Go's [time.Time] and [time.Duration]

    A [time.Time] is its distance in nanoseconds from the zero instant, so the
    zero value of the type is [0] and [IsZero] is a test for [0]. *)

Abbreviation time := Z (only parsing).
Abbreviation duration := Z (only parsing).

Definition time_zero : time := 0%Z.
Definition time_is_zero (t : time) : bool := (t =? 0)%Z.
Definition time_sub (a b : time) : duration := clamp63 (a - b)%Z.
Definition millisecond : duration := 1000000%Z.
Definition second : duration := 1000000000%Z.
Definition minute : duration := (60 * second)%Z.
Definition hour : duration := (60 * minute)%Z.

(** ** Errors

    [errors.New], [fmt.Errorf] with the format and its integer arguments, and
    the categorised errors of errors.go, which are also the daemon's RPC
    errors. *)

Inductive go_error :=
| ENew (message : string)
| EFormat (format : string) (args : list Z)
| EApp (category message : string) (code : Z).

#[export] Instance go_error_eq_dec : EqDecision go_error.
Proof. solve_decision. Defined.

(** [Error()]. *)
Definition errorText (e : go_error) : string :=
  match e with ENew m => m | EFormat m _ => m | EApp _ m _ => m end.

Inductive result (A : Type) :=
| Ok (a : A)
| Err (e : go_error).
Arguments Ok {A} a.
Arguments Err {A} e.

#[export] Instance result_ret : MRet result := fun A a => Ok a.
#[export] Instance result_bind : MBind result :=
  fun A B f r => match r with Ok a => f a | Err e => Err e end.
#[export] Instance result_fmap : FMap result :=
  fun A B f r => match r with Ok a => Ok (f a) | Err e => Err e end.

Definition is_ok {A} (r : result A) : bool :=
  match r with Ok _ => true | Err _ => false end.

(** [WriteFile] of internal/atomicfile: the file is there, or it is not, or it is
    there although the call failed, because the directory could not be flushed
    after the rename. *)
Inductive writeOutcome :=
| Written
| NotWritten (e : go_error)
| Unsynced (e : go_error).

(** The categories and exit codes of errors.go. *)
Definition invalidArgument (message : string) : go_error := EApp "InvalidArgument" message 2.
Definition notFound (message : string) : go_error := EApp "NotFound" message 4.
Definition preconditionFailed (message : string) : go_error := EApp "PreconditionFailed" message 5.
Definition metadataCorruption (message : string) : go_error := EApp "MetadataCorruption" message 7.

(** ** Byte slices and lengths *)

Abbreviation bytes := (list Z) (only parsing).

Definition zlen {A} (l : list A) : Z := Z.of_nat (length l).

Lemma zlen_nil {A} : zlen (@nil A) = 0%Z.
Proof. reflexivity. Qed.

Lemma zlen_cons {A} (x : A) l : zlen (x :: l) = (1 + zlen l)%Z.
Proof. unfold zlen. simpl length. lia. Qed.

Lemma zlen_app {A} (l k : list A) : zlen (l ++ k) = (zlen l + zlen k)%Z.
Proof. unfold zlen. rewrite length_app. lia. Qed.

Lemma zlen_nonneg {A} (l : list A) : (0 <= zlen l)%Z.
Proof. unfold zlen. lia. Qed.

Lemma zlen_map {A B} (f : A -> B) l : zlen (map f l) = zlen l.
Proof. unfold zlen. by rewrite length_map. Qed.

Lemma zlen_zero_inv {A} (l : list A) : zlen l = 0%Z -> l = [].
Proof. destruct l; [done|]. rewrite zlen_cons. pose proof (zlen_nonneg l). lia. Qed.

(** ** Strings *)

(** [strings.CutPrefix]. *)
Fixpoint cut_prefix (s prefix : string) {struct prefix} : option string :=
  match prefix, s with
  | EmptyString, _ => Some s
  | String c prefix, String d s => if Ascii.eqb c d then cut_prefix s prefix else None
  | String _ _, EmptyString => None
  end.

Lemma cut_prefix_app p s : cut_prefix (p +:+ s) p = Some s.
Proof. induction p as [|c p IH]; simpl; [done|]. by rewrite Ascii.eqb_refl. Qed.

Lemma cut_prefix_some s p r : cut_prefix s p = Some r -> s = p +:+ r.
Proof.
  revert s. induction p as [|c p IH]; intros s; simpl; [by intros [= ->]|].
  destruct s as [|d s]; [done|]. destruct (Ascii.eqb c d) eqn:E; [|done].
  apply Ascii.eqb_eq in E as ->. intros H. simpl. by rewrite (IH s H).
Qed.

(** ** Sums over slices and maps *)

Lemma filter_ext_elem {A} (P Q : A -> Prop) `{!forall x, Decision (P x)}
    `{!forall x, Decision (Q x)} (l : list A) :
  (forall x, x ∈ l -> P x <-> Q x) -> filter P l = filter Q l.
Proof.
  induction l as [|x l IH]; intros Hpq; [done|].
  assert (IH' : filter P l = filter Q l) by (apply IH; intros y Hy; apply Hpq; by right).
  pose proof (Hpq x ltac:(left)) as Hx. destruct (decide (P x)) as [HP|HP].
  - rewrite !filter_cons_True by tauto. by rewrite IH'.
  - rewrite !filter_cons_False by tauto. done.
Qed.

Lemma seqZ_snoc m n : (0 <= n)%Z -> seqZ m (n + 1) = seqZ m n ++ [(m + n)%Z].
Proof.
  intros Hn. by rewrite seqZ_app by lia.
Qed.

Lemma List_filter_decide {A} (P : A -> Prop) `{!forall x, Decision (P x)} (l : list A) :
  List.filter (fun x => bool_decide (P x)) l = filter P l.
Proof.
  induction l as [|x l IH]; [done|]. simpl. destruct (decide (P x)) as [HP|HP].
  - by rewrite bool_decide_eq_true_2, filter_cons_True, IH.
  - by rewrite bool_decide_eq_false_2, filter_cons_False.
Qed.

(** Sums of a measure over a slice. *)
Fixpoint zsum {A} (f : A -> Z) (l : list A) : Z :=
  match l with [] => 0%Z | x :: r => (f x + zsum f r)%Z end.

Lemma zsum_app {A} (f : A -> Z) l k : zsum f (l ++ k) = (zsum f l + zsum f k)%Z.
Proof. induction l as [|x l IH]; simpl; lia. Qed.

Lemma zsum_nonneg {A} (f : A -> Z) l :
  (forall x, x ∈ l -> 0 <= f x)%Z -> (0 <= zsum f l)%Z.
Proof.
  induction l as [|x l IH]; simpl; intros H; [lia|].
  pose proof (H x ltac:(left)). assert (0 <= zsum f l)%Z; [|lia].
  apply IH. intros y Hy. apply H. by right.
Qed.

Lemma zsum_permutation {A} (f : A -> Z) l k : l ≡ₚ k -> zsum f l = zsum f k.
Proof. induction 1; simpl; lia. Qed.

(** The sum of a measure over the values of a map. *)
Section map_zsum.
Context {K A : Type} `{Countable K} (f : A -> Z).
Implicit Types m : gmap K A.

Definition map_zsum (m : gmap K A) : Z := zsum f (map_to_list m).*2.

Lemma map_zsum_empty : map_zsum ∅ = 0%Z.
Proof. unfold map_zsum. by rewrite map_to_list_empty. Qed.

Lemma map_zsum_insert m i x :
  m !! i = None -> map_zsum (<[i:=x]> m) = (f x + map_zsum m)%Z.
Proof.
  intros Hi. unfold map_zsum.
  by rewrite (zsum_permutation _ _ ((i, x) :: map_to_list m).*2)
    by (by rewrite map_to_list_insert).
Qed.

Lemma map_zsum_delete m i x :
  m !! i = Some x -> map_zsum m = (f x + map_zsum (delete i m))%Z.
Proof.
  intros Hi. rewrite <- (insert_delete_id m i x Hi) at 1.
  by rewrite map_zsum_insert by apply lookup_delete_eq.
Qed.

Lemma map_zsum_nonneg m : (forall x, 0 <= f x)%Z -> (0 <= map_zsum m)%Z.
Proof. intros Hf. apply zsum_nonneg. auto. Qed.

Lemma map_zsum_filter (P : K * A -> Prop) `{!forall x, Decision (P x)} m :
  map_zsum m = (map_zsum (filter P m) + map_zsum (filter (fun v => ~ P v) m))%Z.
Proof.
  induction m as [|i x m Hi IH] using map_ind.
  { by rewrite !map_filter_empty, map_zsum_empty. }
  rewrite map_zsum_insert by done.
  rewrite (map_filter_insert P), (map_filter_insert (fun v => ~ P v)), (delete_id m i) by done.
  repeat case_decide; try done; rewrite map_zsum_insert;
    try (rewrite map_lookup_filter_None; by left); lia.
Qed.

Lemma map_zsum_mono m1 m2 :
  (forall x, 0 <= f x)%Z -> m1 ⊆ m2 -> (map_zsum m1 <= map_zsum m2)%Z.
Proof.
  intros Hf. revert m2. induction m1 as [|i x m1 Hi IH] using map_ind; intros m2 Hsub.
  - rewrite map_zsum_empty. by apply map_zsum_nonneg.
  - pose proof (lookup_weaken _ _ i x (lookup_insert_eq _ _ _) Hsub) as Hx.
    rewrite map_zsum_insert, (map_zsum_delete m2 i x) by done.
    assert (map_zsum m1 <= map_zsum (delete i m2))%Z; [|lia].
    apply IH. rewrite <- (delete_insert_id m1 i x) by done. by apply delete_mono.
Qed.
End map_zsum.

(** ** Automation *)

Create HintDb go discriminated.
Create Rewrite HintDb go.
#[export] Hint Rewrite @zlen_nil @zlen_cons @zlen_app @zlen_map : go.
#[export] Hint Resolve zlen_nonneg u64_range : go.

(** Turn the boolean tests of the model into propositions. *)
Ltac bool_to_prop :=
  repeat match goal with
  | H : (_ && _)%bool = true |- _ => apply andb_prop in H; destruct H
  | H : (_ || _)%bool = false |- _ => apply orb_false_elim in H; destruct H
  | H : negb _ = true |- _ => apply negb_true_iff in H
  | H : negb _ = false |- _ => apply negb_false_iff in H
  | H : (_ <=? _)%Z = true |- _ => apply Z.leb_le in H
  | H : (_ <=? _)%Z = false |- _ => apply Z.leb_gt in H
  | H : (_ <? _)%Z = true |- _ => apply Z.ltb_lt in H
  | H : (_ <? _)%Z = false |- _ => apply Z.ltb_ge in H
  | H : (_ =? _)%Z = true |- _ => apply Z.eqb_eq in H
  | H : (_ =? _)%Z = false |- _ => apply Z.eqb_neq in H
  | H : (_ =? _)%string = true |- _ => apply String.eqb_eq in H
  | H : (_ =? _)%string = false |- _ => apply String.eqb_neq in H
  | H : bool_decide _ = true |- _ => apply bool_decide_eq_true in H
  | H : bool_decide _ = false |- _ => apply bool_decide_eq_false in H
  end.

(** Lengths are non-negative: add the facts for every length in sight. *)
Ltac zlen_pos :=
  repeat match goal with
  | |- context [zlen ?l] =>
      lazymatch goal with
      | _ : (0 <= zlen l)%Z |- _ => fail
      | _ => pose proof (zlen_nonneg l)
      end
  | H : context [zlen ?l] |- _ =>
      lazymatch goal with
      | _ : (0 <= zlen l)%Z |- _ => fail
      | _ => pose proof (zlen_nonneg l)
      end
  end.

Ltac zlia := autorewrite with go in *; zlen_pos; lia.
