(* ===== verification/SampleCodec.v ===== *)
(** * A sample encoding

    A concrete encoder with its decoder for any countable type, as texts of
    zeros and ones between a brace and an optional newline.  The witnesses
    instantiate the encodings the models take as arguments with it. *)

From S2P Require Import Prelude.
Local Open Scope Z_scope.

Fixpoint digits (p : positive) : bytes :=
  match p with xH => [] | xO p => 48 :: digits p | xI p => 49 :: digits p end.

Fixpoint number (l : bytes) : positive :=
  match l with
  | [] => xH
  | d :: l => if d =? 48 then xO (number l) else if d =? 49 then xI (number l) else xH
  end.

Lemma number_digits p k : number (digits p ++ match k with true => [10] | false => [] end) = p.
Proof. induction p; simpl; [congruence..|]. by destruct k. Qed.

Section Codec.
Context {A B : Type} `{Countable B} (to : A -> B) (from : B -> A) (inverse : forall x, from (to x) = x).

Definition put (x : A) : bytes := 123 :: digits (encode (to x)).
Definition get (data : bytes) : option A :=
  match data with 123 :: data => from <$> decode (number data) | _ => None end.

Lemma get_put x : get (put x) = Some x.
Proof.
  unfold get, put. pose proof (number_digits (encode (to x)) false) as E. rewrite app_nil_r in E.
  rewrite E, decode_encode. simpl. by rewrite inverse.
Qed.

Lemma get_put_newline x : get (put x ++ [10]) = Some x.
Proof.
  unfold get, put. rewrite <- app_comm_cons. rewrite (number_digits (encode (to x)) true), decode_encode. simpl.
  by rewrite inverse.
Qed.

Lemma put_nonempty x : put x <> [].
Proof. done. Qed.
End Codec.

(** ** A flat encoding

    The encoder above doubles its output with every nested pair.  This one is
    linear: a value is the list of its integers, each list preceded by its
    length, so that it can be read back from the front of any longer list. *)

Class Flat (A : Type) := {
  flatten : A -> bytes;
  parse : bytes -> option (A * bytes);
  parse_flatten : forall x k, parse (flatten x ++ k) = Some (x, k);
}.

#[export, refine] Instance flat_Z : Flat Z := {
  flatten z := [z];
  parse l := match l with z :: k => Some (z, k) | [] => None end;
  parse_flatten := _;
}.
Proof. done. Defined.

#[export, refine] Instance flat_bool : Flat bool := {
  flatten b := [if b : bool then 1 else 0];
  parse l := match l with z :: k => Some (z =? 1, k) | [] => None end;
  parse_flatten := _;
}.
Proof. by intros []. Defined.

#[export, refine] Instance flat_prod {A B} `{Flat A, Flat B} : Flat (A * B) := {
  flatten p := flatten p.1 ++ flatten p.2;
  parse l := '(a, l) ← parse l; '(b, l) ← parse l; Some ((a, b), l);
  parse_flatten := _;
}.
Proof. intros [a b] k. simpl. rewrite <- app_assoc, parse_flatten. simpl. by rewrite parse_flatten. Defined.

#[export, refine] Instance flat_option {A} `{Flat A} : Flat (option A) := {
  flatten o := match o with Some a => 1 :: flatten a | None => [0] end;
  parse l :=
    match l with
    | z :: l => if z =? 0 then Some (None, l) else '(a, l) ← parse l; Some (Some a, l)
    | [] => None
    end;
  parse_flatten := _;
}.
Proof. intros [a|] k; [|done]. simpl. by rewrite parse_flatten. Defined.

Fixpoint parse_n {A} `{Flat A} (n : nat) (l : bytes) : option (list A * bytes) :=
  match n with
  | O => Some ([], l)
  | S n => '(a, l) ← parse l; '(r, l) ← parse_n n l; Some (a :: r, l)
  end.

#[export, refine] Instance flat_list {A} `{Flat A} : Flat (list A) := {
  flatten l := zlen l :: concat (map flatten l);
  parse l := match l with z :: l => parse_n (Z.to_nat z) l | [] => None end;
  parse_flatten := _;
}.
Proof.
  intros x k. simpl. unfold zlen. rewrite Nat2Z.id. induction x as [|a x IH]; [done|].
  simpl. rewrite <- app_assoc, parse_flatten. simpl. by rewrite IH.
Defined.

(** A type that embeds into an encoded one. *)
Definition flat_inj {A B} `{Flat B} (to : A -> B) (from : B -> A)
    (inverse : forall x, from (to x) = x) : Flat A.
Proof.
  refine {|
    flatten x := flatten (to x);
    parse l := '(b, l) ← parse l; Some (from b, l);
  |}.
  intros x k. simpl. rewrite parse_flatten. simpl. by rewrite inverse.
Defined.

#[export] Instance flat_string : Flat string :=
  flat_inj (fun s => map (fun c => Z.of_nat (Ascii.nat_of_ascii c)) (String.list_ascii_of_string s))
    (fun l => String.string_of_list_ascii (map (fun z => Ascii.ascii_of_nat (Z.to_nat z)) l))
    ltac:(intros s; cbv beta; rewrite map_map;
          rewrite (map_ext _ (fun c => c)) by (intros c; by rewrite Nat2Z.id, Ascii.ascii_nat_embedding);
          by rewrite map_id, String.string_of_list_ascii_of_string).

(** A whole message, after an opening byte. *)
Definition message {A} `{Flat A} (x : A) : bytes := 123 :: flatten x.

Definition read_message {A} `{Flat A} (data : bytes) : option A :=
  match data with
  | 123 :: data => match parse data with Some (x, []) => Some x | _ => None end
  | _ => None
  end.

Lemma read_message_inverse {A} `{Flat A} (x : A) : read_message (message x) = Some x.
Proof.
  unfold read_message, message. pose proof (parse_flatten x []) as E. rewrite app_nil_r in E.
  by rewrite E.
Qed.
