(* ===== verification/Journal.v ===== *)
(** * The renderer journal

    [internal/codelima/renderer_journal.go], [renderer_journal_output.go] and
    the tail selection of [renderer_checkpoint.go].  The journal retains the
    newest PTY output and resizes of one terminal, bounded in bytes, so that a
    replacement renderer can rebuild the screen and an attached terminal can
    read the output it has not shown yet. *)

From S2P Require Import Prelude.
Local Open Scope Z_scope.

(** ** Data *)

Definition defaultRendererJournalBytes : Z := 1048576.

Definition rendererResizeEventBytes : Z := 64.

Record rendererJournalEvent := JEvent {
  ev_ID : Z;
  ev_FirstID : Z;
  ev_Type : string;
  ev_Data : bytes;
  ev_Cols : Z;
  ev_Rows : Z;
  ev_CellWidth : Z;
  ev_CellHeight : Z;
}.

Record rendererJournalSnapshot := JSnapshot {
  js_CellWidth : Z;
  js_CellHeight : Z;
  js_Events : list rendererJournalEvent;
  js_Partial : bool;
  js_Bytes : Z;
  js_Cols : Z;
  js_Rows : Z;
  js_LastID : Z;
}.

Record rendererJournalStats := JStats {
  jt_CellWidth : Z;
  jt_CellHeight : Z;
  jt_Events : Z;
  jt_Bytes : Z;
  jt_Partial : bool;
  jt_Cols : Z;
  jt_Rows : Z;
  jt_LastID : Z;
}.

(** The mutex of the Go struct serialises the operations, so an operation is
    one step on this state. *)
Record rendererJournal := RJournal {
  j_maxBytes : Z;
  j_nextID : Z;
  j_events : list rendererJournalEvent;
  j_bytes : Z;
  j_partial : bool;
  j_cols : Z;
  j_rows : Z;
  j_cellWidth : Z;
  j_cellHeight : Z;
}.

(** ** Operations *)

Definition rendererJournalEventBytes (event : rendererJournalEvent) : Z :=
  if String.eqb (ev_Type event) "resize" then rendererResizeEventBytes
  else zlen (ev_Data event).

Definition newRendererJournal (maxBytes : Z) : rendererJournal :=
  let maxBytes := if maxBytes <=? 0 then defaultRendererJournalBytes else maxBytes in
  RJournal maxBytes 0 [] 0 false 0 0 0 0.

(** [for j.bytes > j.maxBytes && len(j.events) > 0], dropping the oldest event. *)
Fixpoint trimEvents (maxBytes bytes : Z) (partial : bool)
    (events : list rendererJournalEvent) : list rendererJournalEvent * Z * bool :=
  match events with
  | removed :: rest =>
      if maxBytes <? bytes
      then trimEvents maxBytes (bytes - rendererJournalEventBytes removed) true rest
      else (events, bytes, partial)
  | [] => ([], bytes, partial)
  end.

Definition trimLocked (j : rendererJournal) : rendererJournal :=
  let '(events, bytes, partial) :=
    trimEvents (j_maxBytes j) (j_bytes j) (j_partial j) (j_events j) in
  RJournal (j_maxBytes j) (j_nextID j) events bytes partial
    (j_cols j) (j_rows j) (j_cellWidth j) (j_cellHeight j).

Definition AppendOutput (j : rendererJournal) (data : bytes)
    : rendererJournalEvent * rendererJournal :=
  let nextID := u64 (j_nextID j + 1) in
  let event := JEvent nextID 0 "output" data 0 0 0 0 in
  (event,
   trimLocked (RJournal (j_maxBytes j) nextID (j_events j ++ [event])
     (j_bytes j + rendererJournalEventBytes event) (j_partial j)
     (j_cols j) (j_rows j) (j_cellWidth j) (j_cellHeight j))).

(** The first event a resize stands for: zero in [FirstID] means [ID]. *)
Definition ev_first (event : rendererJournalEvent) : Z :=
  if ev_FirstID event =? 0 then ev_ID event else ev_FirstID event.

Definition AppendResizePixels (j : rendererJournal) (cols rows cellWidth cellHeight : Z)
    : rendererJournalEvent * rendererJournal :=
  let '(cw, ch) :=
    if (0 <? cellWidth) && (0 <? cellHeight) then (cellWidth, cellHeight)
    else (j_cellWidth j, j_cellHeight j) in
  let nextID := u64 (j_nextID j + 1) in
  let event := JEvent nextID 0 "resize" [] cols rows cw ch in
  let '(event, events, bytes) :=
    match last (j_events j) with
    | Some prev =>
        if String.eqb (ev_Type prev) "resize"
        then
          let event := JEvent nextID (ev_first prev) "resize" [] cols rows cw ch in
          (event, removelast (j_events j) ++ [event],
           j_bytes j - rendererJournalEventBytes prev)
        else (event, j_events j ++ [event], j_bytes j)
    | None => (event, j_events j ++ [event], j_bytes j)
    end in
  (event,
   trimLocked (RJournal (j_maxBytes j) nextID events
     (bytes + rendererJournalEventBytes event) (j_partial j) cols rows cw ch)).

Definition AppendResize (j : rendererJournal) (cols rows : Z)
    : rendererJournalEvent * rendererJournal :=
  AppendResizePixels j cols rows 0 0.

Definition Snapshot (j : rendererJournal) : rendererJournalSnapshot :=
  JSnapshot (j_cellWidth j) (j_cellHeight j) (j_events j) (j_partial j) (j_bytes j)
    (j_cols j) (j_rows j) (j_nextID j).

Definition Stats (j : rendererJournal) : rendererJournalStats :=
  JStats (j_cellWidth j) (j_cellHeight j) (zlen (j_events j)) (j_bytes j) (j_partial j)
    (j_cols j) (j_rows j) (j_nextID j).

Definition Reset (j : rendererJournal) : rendererJournal :=
  match j_events j with
  | [] => j
  | _ => RJournal (j_maxBytes j) (j_nextID j) [] 0 true
           (j_cols j) (j_rows j) (j_cellWidth j) (j_cellHeight j)
  end.

Definition err_cursor := ENew "invalid terminal output cursor or limit".
Definition err_retention := ENew "terminal output retention exceeded; detach and attach again".
Definition err_chunk := ENew "terminal output chunk exceeds read limit".

(** The loop of [readOutputAfter]; [data] and [through] are its accumulators. *)
Fixpoint readOutputLoop (after limit : Z) (data : bytes) (through : Z)
    (events : list rendererJournalEvent) : result (bytes * Z) :=
  match events with
  | [] => Ok (data, through)
  | event :: rest =>
      if ev_ID event <=? after then readOutputLoop after limit data through rest
      else if u64 (through + 1) <? ev_first event then Err err_retention
      else if String.eqb (ev_Type event) "output" then
        if limit - zlen data <? zlen (ev_Data event) then
          match data with
          | [] => Err err_chunk
          | _ => Ok (data, through)
          end
        else readOutputLoop after limit (data ++ ev_Data event) (ev_ID event) rest
      else readOutputLoop after limit data (ev_ID event) rest
  end.

Definition readOutputAfter (j : rendererJournal) (after limit : Z) : result (bytes * Z) :=
  if (j_nextID j <? after) || (limit <=? 0) then Err err_cursor
  else
    '(data, through) ← readOutputLoop after limit [] after (j_events j);
    if (through =? after) && negb (after =? j_nextID j) then Err err_retention
    else Ok (data, through).

(** The loop of [tailAfter]: the result's events and bytes so far, the next
    identity expected, and whether the loop ran to its end. *)
Fixpoint tailLoop (applied expected : Z) (acc : list rendererJournalEvent) (bytes : Z)
    (events : list rendererJournalEvent) : list rendererJournalEvent * Z * Z * bool :=
  match events with
  | [] => (acc, bytes, expected, true)
  | event :: rest =>
      if ev_ID event <=? applied then tailLoop applied expected acc bytes rest
      else if (expected <? ev_first event) || (ev_ID event <? expected)
      then (acc, bytes, expected, false)
      else tailLoop applied (u64 (ev_ID event + 1)) (acc ++ [event])
             (bytes + rendererJournalEventBytes event) rest
  end.

Definition tailAfter (j : rendererJournalSnapshot) (applied : Z)
    : rendererJournalSnapshot * bool :=
  let with_events evs b :=
    JSnapshot (js_CellWidth j) (js_CellHeight j) evs false b
      (js_Cols j) (js_Rows j) (js_LastID j) in
  if js_LastID j <? applied then (with_events [] 0, false)
  else
    let '(evs, b, expected, complete) :=
      tailLoop applied (u64 (applied + 1)) [] 0 (js_Events j) in
    (with_events evs b, complete && (expected =? u64 (js_LastID j + 1))).

Definition journalTailAfter (j : rendererJournal) (applied : Z)
    : rendererJournalSnapshot * bool := tailAfter (Snapshot j) applied.

(** ** Specification

    What the journal is for: the terminal's whole output, of which it retains
    a suffix.  [covers lo evs hi] says the events account for every identity
    of [(lo, hi]], each exactly once and in order. *)

Fixpoint covers (lo : Z) (evs : list rendererJournalEvent) (hi : Z) : Prop :=
  match evs with
  | [] => lo = hi
  | e :: rest => ev_first e = lo + 1 /\ lo < ev_ID e /\ covers (ev_ID e) rest hi
  end.

Definition ev_wf (e : rendererJournalEvent) : Prop :=
  (ev_Type e = "output" /\ ev_FirstID e = 0)%string \/ ev_Type e = "resize"%string.

Definition output_of (e : rendererJournalEvent) : bytes :=
  if String.eqb (ev_Type e) "output" then ev_Data e else [].

Definition outputs (evs : list rendererJournalEvent) : bytes := concat (map output_of evs).

(** The retained events whose identity lies in [(after, through]]. *)
Definition between (after through : Z) (evs : list rendererJournalEvent)
    : list rendererJournalEvent :=
  filter (fun e => after < ev_ID e /\ ev_ID e <= through) evs.

(** Operations and the history they produce. *)
Inductive journal_op :=
| OpOutput (data : bytes)
| OpResize (cols rows cellWidth cellHeight : Z)
| OpReset.

Definition journal_step (j : rendererJournal) (op : journal_op) : rendererJournal :=
  match op with
  | OpOutput data => snd (AppendOutput j data)
  | OpResize c r cw ch => snd (AppendResizePixels j c r cw ch)
  | OpReset => Reset j
  end.

Definition op_output (op : journal_op) : bytes :=
  match op with OpOutput data => data | _ => [] end.

Definition journal_run (maxBytes : Z) (ops : list journal_op) : rendererJournal :=
  foldl journal_step (newRendererJournal maxBytes) ops.

Definition journal_history (ops : list journal_op) : bytes := concat (map op_output ops).

Record journal_inv (j : rendererJournal) : Prop := {
  ji_max : 0 < j_maxBytes j;
  ji_wf : Forall ev_wf (j_events j);
  ji_sum : j_bytes j = zsum rendererJournalEventBytes (j_events j);
  ji_bound : j_bytes j <= j_maxBytes j;
  ji_cover : exists lo, 0 <= lo /\ covers lo (j_events j) (j_nextID j) /\
               (j_partial j = false -> lo = 0);
}.

(** A client that reads chunks until it has caught up. *)
Fixpoint read_all (fuel : nat) (j : rendererJournal) (after limit : Z) : result bytes :=
  match fuel with
  | O => Err (ENew "out of fuel")
  | S n =>
      if after =? j_nextID j then Ok []
      else
        '(data, through) ← readOutputAfter j after limit;
        more ← read_all n j through limit;
        Ok (data ++ more)
  end.

(** ** Lemmas *)

Lemma cost_nonneg e : 0 <= rendererJournalEventBytes e.
Proof. unfold rendererJournalEventBytes, rendererResizeEventBytes. case_match; zlia. Qed.

Lemma outputs_app l k : outputs (l ++ k) = outputs l ++ outputs k.
Proof. unfold outputs. by rewrite map_app, concat_app. Qed.

Lemma covers_le lo evs hi : covers lo evs hi -> lo <= hi.
Proof.
  revert lo. induction evs as [|e evs IH]; simpl; intros lo H; [lia|].
  destruct H as (_ & H1 & H2). apply IH in H2. lia.
Qed.

Lemma covers_app lo l k hi :
  covers lo (l ++ k) hi <-> exists mid, covers lo l mid /\ covers mid k hi.
Proof.
  revert lo. induction l as [|x l IH]; simpl; intros lo.
  - split; [eauto|]. by intros (mid & -> & H).
  - rewrite IH. split.
    + intros (Hf & Hl & mid & H1 & H2). eauto 6.
    + intros (mid & (Hf & Hl & H1) & H2). eauto 6.
Qed.

Lemma covers_bounds lo evs hi :
  covers lo evs hi -> Forall (fun e => lo < ev_ID e <= hi /\ lo < ev_first e) evs.
Proof.
  revert lo. induction evs as [|e evs IH]; simpl; intros lo H; constructor.
  - destruct H as (Hf & Hl & H). apply covers_le in H. lia.
  - destruct H as (Hf & Hl & H). eapply Forall_impl; [by apply IH|]. simpl. lia.
Qed.

(** Trimming removes a prefix: the shortest that brings the size under the
    bound. *)
Lemma trimEvents_spec m b p evs evs' b' p' :
  trimEvents m b p evs = (evs', b', p') ->
  exists dropped, evs = dropped ++ evs' /\
    b' = b - zsum rendererJournalEventBytes dropped /\
    p' = (p || negb (bool_decide (dropped = [])))%bool /\
    (evs' <> [] -> b' <= m) /\
    (forall d e, dropped = d ++ [e] -> m < b - zsum rendererJournalEventBytes d).
Proof.
  revert b p. induction evs as [|e evs IH]; intros b p; simpl.
  - intros [= <- <- <-]. exists []. simpl. repeat split; [lia|by destruct p|done|].
    intros d e H. by destruct d.
  - case_match eqn:E; bool_to_prop.
    + intros H. apply IH in H as (dr & -> & -> & -> & Hb & Hmin).
      exists (e :: dr). simpl. repeat split; [lia| |done|].
      * by rewrite orb_true_r.
      * intros d x Hd. destruct d as [|y d]; simpl in *; [lia|].
        injection Hd as -> Hd. apply Hmin in Hd. lia.
    + intros [= <- <- <-]. exists []. simpl. repeat split; [lia|by destruct p|lia|].
      intros d x H. by destruct d.
Qed.

Lemma trim_inv_pre j :
  0 < j_maxBytes j -> Forall ev_wf (j_events j) ->
  j_bytes j = zsum rendererJournalEventBytes (j_events j) ->
  (exists lo, 0 <= lo /\ covers lo (j_events j) (j_nextID j) /\ (j_partial j = false -> lo = 0)) ->
  journal_inv (trimLocked j).
Proof.
  intros Hmax Hwf Hsum (lo & Hlo & Hcov & Hp). unfold trimLocked.
  destruct (trimEvents _ _ _ _) as [[evs b] p] eqn:E.
  apply trimEvents_spec in E as (dr & Hev & -> & -> & Hb & _).
  rewrite Hev in *. rewrite zsum_app in Hsum.
  constructor; simpl; [done| |lia| |].
  - by apply Forall_app in Hwf as [_ ?].
  - destruct evs; [simpl in *; lia|]. by apply Hb.
  - apply covers_app in Hcov as (mid & Hc & Hcov).
    pose proof (covers_le _ _ _ Hc). exists mid. repeat split; [lia|done|].
    intros [Hp' Hd]%orb_false_elim. bool_to_prop. subst dr. simpl in Hc. subst mid. auto.
Qed.

Lemma new_inv m : journal_inv (newRendererJournal m).
Proof.
  unfold newRendererJournal. split; simpl.
  - case_match; bool_to_prop; unfold defaultRendererJournalBytes; lia.
  - constructor.
  - done.
  - case_match; bool_to_prop; unfold defaultRendererJournalBytes; lia.
  - exists 0. done.
Qed.

Lemma append_output_inv j data :
  journal_inv j -> j_nextID j < two64 - 1 -> journal_inv (snd (AppendOutput j data)).
Proof.
  intros [Hmax Hwf Hsum Hb (lo & Hlo & Hcov & Hp)] Hn.
  pose proof (covers_le _ _ _ Hcov). unfold AppendOutput. rewrite u64_small by lia.
  apply trim_inv_pre; simpl; [done| | |].
  - apply Forall_app. split; [done|]. constructor; [by left|constructor].
  - rewrite zsum_app. simpl. lia.
  - exists lo. repeat split; [done| |done].
    apply covers_app. exists (j_nextID j). split; [done|]. simpl. unfold ev_first. simpl. lia.
Qed.

Lemma append_resize_inv j c r cw ch :
  journal_inv j -> j_nextID j < two64 - 1 -> journal_inv (snd (AppendResizePixels j c r cw ch)).
Proof.
  intros [Hmax Hwf Hsum Hb (lo & Hlo & Hcov & Hp)] Hn.
  pose proof (covers_le _ _ _ Hcov). unfold AppendResizePixels.
  destruct (if _ && _ then _ else _) as [cw' ch'].
  rewrite u64_small by lia.
  destruct (last (j_events j)) as [prev|] eqn:El.
  - apply last_Some in El as [l' Hl']. rewrite Hl' in *.
    apply Forall_app in Hwf as [Hwf Hwf1].
    destruct (String.eqb (ev_Type prev) "resize") eqn:Et; bool_to_prop.
    + rewrite removelast_last. apply covers_app in Hcov as (mid & Hc & Hf & Hm & Hhi).
      simpl in Hhi. pose proof (covers_le _ _ _ Hc). rewrite zsum_app in Hsum. simpl in Hsum.
      apply trim_inv_pre; simpl; [done| | |].
      * apply Forall_app. split; [done|]. constructor; [by right|constructor].
      * rewrite zsum_app. simpl. lia.
      * exists lo. repeat split; [done| |done]. apply covers_app. exists mid.
        split; [done|]. simpl. unfold ev_first at 1. simpl.
        case_match; bool_to_prop; lia.
    + apply trim_inv_pre; simpl; [done| | |].
      * apply Forall_app. split; [by apply Forall_app|]. constructor; [by right|constructor].
      * rewrite !zsum_app in *. simpl in *. lia.
      * exists lo. repeat split; [done| |done]. apply covers_app. exists (j_nextID j).
        split; [done|]. simpl. unfold ev_first. simpl. lia.
  - apply last_None in El. rewrite El in *.
    apply trim_inv_pre; simpl; [done| | |].
    + constructor; [by right|constructor].
    + simpl in *. lia.
    + exists lo. split; [done|]. split; [|done]. simpl in *. subst.
      unfold ev_first. simpl. lia.
Qed.

Lemma reset_inv j : journal_inv j -> journal_inv (Reset j).
Proof.
  intros Hj. destruct (Hj) as [Hmax Hwf Hsum Hb (lo & Hlo & Hcov & Hp)].
  unfold Reset. destruct (j_events j) eqn:E; [done|].
  apply covers_le in Hcov. constructor; simpl; [done|constructor|done|lia|].
  exists (j_nextID j). repeat split; [lia|done].
Qed.

Lemma step_nextID j op :
  0 <= j_nextID j < two64 - 1 ->
  j_nextID j <= j_nextID (journal_step j op) <= j_nextID j + 1.
Proof.
  intros Hn. assert (forall x, j_nextID (trimLocked x) = j_nextID x) as Ht.
  { intros x. unfold trimLocked. by destruct (trimEvents _ _ _ _) as [[??]?]. }
  destruct op; simpl.
  - rewrite Ht. simpl. rewrite u64_small; lia.
  - unfold AppendResizePixels.
    repeat case_match; simplify_eq; simpl; rewrite Ht; simpl; rewrite u64_small; lia.
  - unfold Reset. case_match; simpl; lia.
Qed.

Lemma inv_nextID j : journal_inv j -> 0 <= j_nextID j.
Proof. intros [_ _ _ _ (lo & ? & H & _)]. apply covers_le in H. lia. Qed.

Lemma step_inv j op :
  journal_inv j -> j_nextID j < two64 - 1 -> journal_inv (journal_step j op).
Proof.
  intros Hj Hn. destruct op; unfold journal_step;
    [by apply append_output_inv|by apply append_resize_inv|by apply reset_inv].
Qed.

#[export] Hint Resolve new_inv step_inv inv_nextID cost_nonneg : go.

(** Without appeals to the byte bound: the retained output is a suffix of the
    history, and all of it while [partial] is unset. *)
Definition retains (j : rendererJournal) (history : bytes) : Prop :=
  outputs (j_events j) `suffix_of` history /\
  (j_partial j = false -> outputs (j_events j) = history).

Lemma trim_retains j history : retains j history -> retains (trimLocked j) history.
Proof.
  intros [Hs Hp]. unfold retains, trimLocked.
  destruct (trimEvents _ _ _ _) as [[evs b] p] eqn:E. simpl.
  apply trimEvents_spec in E as (dr & Hev & _ & -> & _ & _).
  rewrite Hev, outputs_app in *. split.
  - etrans; [|exact Hs]. by exists (outputs dr).
  - intros [H1 H2]%orb_false_elim. bool_to_prop. subst dr. auto.
Qed.

Lemma step_retains j op history :
  retains j history -> retains (journal_step j op) (history ++ op_output op).
Proof.
  intros [Hs Hp]. destruct op as [data|c r cw ch|]; simpl; rewrite ?app_nil_r.
  - apply trim_retains. unfold retains. simpl. rewrite outputs_app.
    assert (outputs [JEvent (u64 (j_nextID j + 1)) 0 "output" data 0 0 0 0] = data) as ->.
    { unfold outputs. simpl. by rewrite app_nil_r. }
    split; [by apply suffix_app|]. intros H. by rewrite Hp.
  - unfold AppendResizePixels. destruct (if _ && _ then _ else _) as [cw' ch'].
    assert (forall e, ev_Type e = "resize"%string -> outputs [e] = []) as Hr.
    { intros e He. unfold outputs, output_of. simpl. by rewrite He. }
    destruct (last (j_events j)) as [prev|] eqn:El.
    + destruct (String.eqb (ev_Type prev) "resize") eqn:Et; bool_to_prop;
        apply trim_retains; unfold retains; simpl; rewrite outputs_app, Hr, app_nil_r by done;
        [|done].
      apply last_Some in El as [l' Hl']. rewrite Hl' in *. rewrite removelast_last.
      by rewrite outputs_app, Hr, app_nil_r in Hs, Hp.
    + apply trim_retains. unfold retains. simpl. by rewrite outputs_app, Hr, app_nil_r.
  - unfold retains, Reset. destruct (j_events j) eqn:E; [by rewrite <- E in *|].
    simpl. split; [apply suffix_nil|done].
Qed.

Lemma run_inv_aux ops j :
  journal_inv j -> j_nextID j + zlen ops < two64 - 1 ->
  journal_inv (foldl journal_step j ops) /\
  j_nextID (foldl journal_step j ops) <= j_nextID j + zlen ops.
Proof.
  revert j. induction ops as [|op ops IH]; intros j Hj Hn; simpl.
  - rewrite zlen_nil. split; [done|lia].
  - rewrite zlen_cons in *. zlen_pos. pose proof (inv_nextID j Hj).
    pose proof (step_nextID j op ltac:(lia)).
    destruct (IH (journal_step j op)); [by apply step_inv; [|lia]|lia|].
    split; [done|lia].
Qed.

Lemma run_retains_aux ops j history :
  retains j history ->
  retains (foldl journal_step j ops) (history ++ journal_history ops).
Proof.
  revert j history. induction ops as [|op ops IH]; intros j h Hr; simpl.
  - unfold journal_history. simpl. by rewrite app_nil_r.
  - unfold journal_history. simpl. rewrite app_assoc. apply IH. by apply step_retains.
Qed.

Lemma between_weaken c a a' t evs hi :
  covers c evs hi -> a <= c -> a' <= c -> between a t evs = between a' t evs.
Proof.
  intros Hc Ha Ha'. apply covers_bounds in Hc. unfold between.
  induction Hc as [|e evs [He _] Hc IH]; [done|].
  rewrite !filter_cons, IH. by repeat case_decide; try lia.
Qed.

Lemma between_empty a evs : between a a evs = [].
Proof.
  unfold between. induction evs as [|e evs IH]; [done|].
  rewrite filter_cons, IH. case_decide; [lia|done].
Qed.

Lemma between_cons_in a t e evs hi :
  covers (ev_ID e) evs hi -> a < ev_ID e -> ev_ID e <= t ->
  between a t (e :: evs) = e :: between (ev_ID e) t evs.
Proof.
  intros Hc Ha Ht. unfold between. rewrite filter_cons. case_decide; [|lia].
  f_equal. by apply (between_weaken (ev_ID e) _ _ _ _ hi); [|lia..].
Qed.

Lemma between_cons_out a t e evs : ev_ID e <= a -> between a t (e :: evs) = between a t evs.
Proof. intros H. unfold between. rewrite filter_cons. case_decide; [lia|done]. Qed.

Lemma between_split a t h evs lo hi :
  covers lo evs hi -> a <= t -> t <= h -> between a h evs = between a t evs ++ between t h evs.
Proof.
  revert lo. induction evs as [|e evs IH]; intros lo Hc Ha Ht; [done|].
  destruct Hc as (Hf & Hl & Hc). destruct (decide (ev_ID e <= t)) as [Hle|Hgt].
  - rewrite (between_cons_out t h) by done. unfold between in *.
    rewrite (filter_cons _ e), (filter_cons _ e).
    repeat case_decide; try lia; simpl; by erewrite IH by done.
  - assert (between a t (e :: evs) = []) as ->.
    { apply (covers_bounds (ev_ID e)) in Hc. unfold between.
      rewrite filter_cons. case_decide; [lia|]. clear - Hc Hgt.
      induction Hc as [|x l Hx Hc IH]; [done|]. rewrite filter_cons. case_decide; [lia|done]. }
    simpl. destruct (decide (ev_ID e <= h)).
    + by rewrite !(between_cons_in _ _ _ _ hi) by (done || lia).
    + unfold between. rewrite !filter_cons. repeat case_decide; try lia.
      apply (between_weaken (ev_ID e) _ _ _ _ hi); [done|lia|lia].
Qed.

Lemma between_elem a t evs x : x ∈ between a t evs <-> (a < ev_ID x <= t) /\ x ∈ evs.
Proof. unfold between. by rewrite list_elem_of_filter. Qed.

Lemma outputs_cons e evs : outputs (e :: evs) = output_of e ++ outputs evs.
Proof. reflexivity. Qed.

Lemma readLoop_spec after limit evs : forall c hi data through,
  covers c evs hi -> hi < two64 - 1 -> 0 <= after -> after <= through -> c <= through ->
  (c = through \/ (through = after /\ data = [])) -> zlen data <= limit ->
  (data <> [] -> after < through) ->
  match readOutputLoop after limit data through evs with
  | Ok (data', through') =>
      data' = data ++ outputs (between through through' evs) /\
      through <= through' <= Z.max through hi /\ zlen data' <= limit /\
      (through' = Z.max through hi \/ after < through') /\
      (through' = through \/ exists x, x ∈ evs /\ ev_ID x = through')
  | Err e => e = err_chunk /\ exists x, x ∈ evs /\ limit < zlen (output_of x)
  end.
Proof.
  induction evs as [|e evs IH]; intros c hi data through Hc Hhi Ha Hat Hct Hor Hlim Hne; simpl.
  - simpl in Hc. subst c. rewrite between_empty, app_nil_r. repeat split; try lia; by left.
  - destruct Hc as (Hf & Hl & Hc). pose proof (covers_le _ _ _ Hc).
    destruct (ev_ID e <=? after) eqn:E1; bool_to_prop.
    + assert (through = after /\ data = []) as [-> ->] by (destruct Hor; [lia|done]).
      specialize (IH (ev_ID e) hi [] after Hc Hhi Ha ltac:(lia) E1 ltac:(by right) Hlim ltac:(done)).
      destruct (readOutputLoop _ _ _ _ _) as [[d t]|err].
      * rewrite between_cons_out by done. destruct IH as (? & ? & ? & ? & Hid).
        split; [done|]. split; [done|]. split; [done|]. split; [done|].
        destruct Hid as [->|(x & ? & ?)]; [by left|]. right. exists x. by split; [right|].
      * destruct IH as (-> & x & Hx & Hy). split; [done|]. exists x. by split; [right|].
    + rewrite u64_small by lia. destruct (through + 1 <? ev_first e) eqn:E2; bool_to_prop; [lia|].
      assert (forall d, zlen d <= limit -> d = data ++ output_of e -> (d <> [] -> after < ev_ID e) ->
        match readOutputLoop after limit d (ev_ID e) evs with
        | Ok (data', through') =>
            data' = data ++ outputs (between through through' (e :: evs)) /\
            through <= through' <= Z.max through hi /\ zlen data' <= limit /\
            (through' = Z.max through hi \/ after < through') /\
            (through' = through \/ exists x, x ∈ e :: evs /\ ev_ID x = through')
        | Err e0 => e0 = err_chunk /\ exists x, x ∈ e :: evs /\ limit < zlen (output_of x)
        end) as Hgo.
      { intros d Hd -> Hdn.
        assert (through < ev_ID e) by (destruct Hor as [?|[-> _]]; lia).
        specialize (IH (ev_ID e) hi (data ++ output_of e) (ev_ID e) Hc Hhi Ha ltac:(lia)
          ltac:(lia) ltac:(by left) Hd Hdn).
        destruct (readOutputLoop _ _ _ _ _) as [[d' t']|err].
        - destruct IH as (-> & ? & ? & ? & Hid).
          rewrite (between_cons_in _ _ _ _ hi) by (done || lia).
          rewrite outputs_cons, app_assoc. split; [done|]. split; [lia|]. split; [done|]. split; [lia|]. right.
          destruct Hid as [->|(x & ? & ?)]; [exists e|exists x]; split; try done; by constructor.
        - destruct IH as (-> & x & ? & ?). split; [done|]. exists x. by split; [right|]. }
      unfold output_of in Hgo at 1.
      destruct (String.eqb (ev_Type e) "output") eqn:E3.
      * destruct (limit - zlen data <? zlen (ev_Data e)) eqn:E4; bool_to_prop.
        -- destruct data as [|b data].
           ++ split; [done|]. exists e. split; [left|]. unfold output_of. rewrite E3.
              rewrite zlen_nil in E4. simpl. lia.
           ++ rewrite between_empty. unfold outputs. simpl. rewrite app_nil_r.
              specialize (Hne ltac:(done)). repeat split; try done; try lia; by left.
        -- apply Hgo; [rewrite zlen_app; lia|done|]. intros; lia.
      * apply Hgo; [done|by rewrite app_nil_r|]. intros; lia.
Qed.

Lemma tailLoop_spec applied evs : forall c hi acc b,
  covers c evs hi -> hi < two64 - 1 -> 0 <= applied ->
  (c <= applied -> forall expected, expected = u64 (applied + 1) -> applied <= hi ->
    tailLoop applied expected acc b evs =
      (acc ++ between applied hi evs,
       b + zsum rendererJournalEventBytes (between applied hi evs), hi + 1, true)) /\
  (applied < c -> 
    tailLoop applied (c + 1) acc b evs =
      (acc ++ between applied hi evs,
       b + zsum rendererJournalEventBytes (between applied hi evs), hi + 1, true)).
Proof.
  induction evs as [|e evs IH]; intros c hi acc b Hc Hhi Ha; simpl.
  - simpl in Hc. subst c. unfold between. simpl. rewrite app_nil_r, Z.add_0_r.
    split; [|done]. intros Hle x -> ?. rewrite u64_small by lia. by replace applied with hi by lia.
  - destruct Hc as (Hf & Hl & Hc). pose proof (covers_le _ _ _ Hc).
    assert (forall expected, applied < ev_ID e -> ev_first e <= expected -> expected <= ev_ID e ->
      (if ev_ID e <=? applied then tailLoop applied expected acc b evs
       else if (expected <? ev_first e) || (ev_ID e <? expected) then (acc, b, expected, false)
       else tailLoop applied (u64 (ev_ID e + 1)) (acc ++ [e]) (b + rendererJournalEventBytes e) evs)
      = (acc ++ between applied hi (e :: evs),
         b + zsum rendererJournalEventBytes (between applied hi (e :: evs)), hi + 1, true)) as Hgo.
    { intros x Hx H1 H2. rewrite (between_cons_in _ _ _ _ hi) by (done || lia).
      destruct (ev_ID e <=? applied) eqn:E1; bool_to_prop; [lia|].
      destruct (x <? ev_first e) eqn:E2; bool_to_prop; [lia|].
      destruct (ev_ID e <? x) eqn:E3; bool_to_prop; [lia|]. simpl.
      rewrite u64_small by lia.
      destruct (IH (ev_ID e) hi (acc ++ [e]) (b + rendererJournalEventBytes e) Hc Hhi Ha) as [_ ->];
        [|lia].
      rewrite <- app_assoc. simpl. rewrite Z.add_assoc.
      by rewrite (between_weaken (ev_ID e) applied (ev_ID e) hi evs hi) by (done || lia). }
    split.
    + intros Hca x -> Hah. destruct (decide (ev_ID e <= applied)) as [Hle|Hgt].
      * rewrite (proj2 (Z.leb_le _ _) Hle), between_cons_out by done.
        by apply (IH (ev_ID e) hi acc b Hc Hhi Ha).
      * rewrite u64_small by lia. apply Hgo; lia.
    + intros Hac. apply Hgo; lia.
Qed.

Lemma readOutputAfter_spec j lo after limit :
  covers lo (j_events j) (j_nextID j) -> j_nextID j < two64 - 1 -> 0 <= after ->
  match readOutputAfter j after limit with
  | Ok (data, through) =>
      lo <= after /\ after <= through <= j_nextID j /\
      data = outputs (between after through (j_events j)) /\ zlen data <= limit /\
      (after < j_nextID j -> exists x, x ∈ j_events j /\ after < ev_ID x /\ ev_ID x = through)
  | Err e =>
      (e = err_cursor /\ (j_nextID j < after \/ limit <= 0)) \/
      (e = err_retention /\ after < lo) \/
      (e = err_chunk /\ exists x, x ∈ j_events j /\ limit < zlen (output_of x))
  end.
Proof.
  intros Hc Hn Ha. unfold readOutputAfter.
  destruct (j_nextID j <? after) eqn:E1; bool_to_prop; simpl; [left; split; [done|lia]|].
  destruct (limit <=? 0) eqn:E2; bool_to_prop; simpl; [left; split; [done|lia]|].
  pose proof (covers_le _ _ _ Hc).
  destruct (decide (lo <= after)) as [Hlo|Hlo].
  - pose proof (readLoop_spec after limit (j_events j) lo (j_nextID j) [] after Hc Hn Ha
      ltac:(lia) Hlo ltac:(by right) ltac:(rewrite zlen_nil; lia) ltac:(done)) as Hs.
    destruct (readOutputLoop _ _ _ _ _) as [[d t]|err]; simpl; [|by right; right].
    destruct Hs as (-> & ? & ? & ? & Hid). simpl.
    destruct (t =? after) eqn:E3; destruct (after =? j_nextID j) eqn:E4; bool_to_prop; simpl;
      repeat split; try done; try lia.
    intros _. destruct Hid as [->|(x & ? & ?)]; [done|]. exists x. repeat split; [done|lia|done].
  - destruct (j_events j) as [|e evs]; simpl.
    + simpl in Hc. rewrite Z.eqb_refl. destruct (after =? j_nextID j) eqn:E4; bool_to_prop; [lia|].
      simpl. right. left. split; [done|lia].
    + destruct Hc as (Hf & Hl & Hc). pose proof (covers_le _ _ _ Hc).
      destruct (ev_ID e <=? after) eqn:E3; bool_to_prop; [lia|].
      rewrite u64_small by lia.
      destruct (after + 1 <? ev_first e) eqn:E4; bool_to_prop; [|lia].
      simpl. right. left. split; [done|lia].
Qed.

(** ** Theorems *)

(** After any sequence of appends, resizes and resets shorter than the
    64-bit identity space, the journal's byte count is the cost of what it
    retains and is within its bound, and the retained events account for every
    identity after some point [lo] up to the newest one, in order and without
    a gap, where [lo] is zero as long as the journal does not report partial
    recovery. *)
Theorem journal_run_invariant maxBytes ops :
  zlen ops < two64 - 1 -> journal_inv (journal_run maxBytes ops).
Proof. intros H. apply run_inv_aux; [apply new_inv|done]. Qed.

Lemma journal_run_invariant_witness :
  journal_inv (journal_run 70 [OpOutput [1; 2]; OpResize 80 24 0 0; OpResize 90 24 8 16; OpOutput [3]]).
Proof. apply (journal_run_invariant 70). vm_compute. reflexivity. Defined.

(** Whatever the operations, the output the journal still holds is a
    suffix of the terminal's whole output, and it is the whole output until
    the journal reports partial recovery: trimming, coalescing and resetting
    never lose, reorder or duplicate bytes silently. *)
Theorem journal_retains_suffix maxBytes ops :
  retains (journal_run maxBytes ops) (journal_history ops).
Proof.
  apply (run_retains_aux ops _ []). split; [by apply suffix_nil|done].
Qed.

(** C28: a read after a cursor the retained events reach back to returns
    exactly the output of the events it moves the cursor over, at most [limit]
    bytes of it, and makes progress unless it had caught up; the only other
    outcome is the error for one output larger than the limit.  A cursor that
    precedes the retained events is reported as lost retention, and a cursor
    from the future or an empty limit as invalid. *)
Theorem readOutputAfter_correct j lo after limit :
  covers lo (j_events j) (j_nextID j) -> j_nextID j < two64 - 1 -> 0 <= after ->
  match readOutputAfter j after limit with
  | Ok (data, through) =>
      lo <= after /\ after <= through <= j_nextID j /\
      data = outputs (between after through (j_events j)) /\ zlen data <= limit /\
      (after < j_nextID j -> exists x, x ∈ j_events j /\ after < ev_ID x /\ ev_ID x = through)
  | Err e =>
      (e = err_cursor /\ (j_nextID j < after \/ limit <= 0)) \/
      (e = err_retention /\ after < lo) \/
      (e = err_chunk /\ exists x, x ∈ j_events j /\ limit < zlen (output_of x))
  end.
Proof. apply readOutputAfter_spec. Qed.

Definition journal_example : rendererJournal :=
  journal_run 69 [OpOutput [1; 2; 3]; OpResize 80 24 0 0; OpOutput [4; 5]; OpOutput [6]].

Lemma readOutputAfter_correct_witness :
  readOutputAfter journal_example 1 10 = Ok ([4; 5; 6], 4) /\
  match readOutputAfter journal_example 1 10 with
  | Ok (data, through) =>
      1 <= 1 /\ 1 <= through <= j_nextID journal_example /\
      data = outputs (between 1 through (j_events journal_example)) /\ zlen data <= 10 /\
      (1 < j_nextID journal_example ->
         exists x, x ∈ j_events journal_example /\ 1 < ev_ID x /\ ev_ID x = through)
  | Err e =>
      (e = err_cursor /\ (j_nextID journal_example < 1 \/ 10 <= 0)) \/
      (e = err_retention /\ 1 < 1) \/
      (e = err_chunk /\ exists x, x ∈ j_events journal_example /\ 10 < zlen (output_of x))
  end.
Proof.
  split; [vm_compute; reflexivity|].
  apply (readOutputAfter_correct journal_example 1 1 10);
    [vm_compute; repeat split|vm_compute; reflexivity|lia].
Defined.

(** C40: a client that keeps reading from a cursor the journal still covers
    catches up after at most one read per retained event, and has then
    received every byte of output after its cursor exactly once, in order. *)
Theorem read_all_complete fuel j lo after limit :
  covers lo (j_events j) (j_nextID j) -> j_nextID j < two64 - 1 -> 0 <= after ->
  lo <= after <= j_nextID j -> 0 < limit ->
  Forall (fun e => zlen (output_of e) <= limit) (j_events j) ->
  (length (between after (j_nextID j) (j_events j)) < fuel)%nat ->
  read_all fuel j after limit = Ok (outputs (between after (j_nextID j) (j_events j))).
Proof.
  intros Hc Hn. revert after. induction fuel as [|n IH]; intros after Ha Hlo Hlim Hall Hfuel; [lia|].
  simpl. destruct (after =? j_nextID j) eqn:E; bool_to_prop.
  { subst. by rewrite between_empty. }
  pose proof (readOutputAfter_spec j lo after limit Hc Hn Ha) as Hr.
  destruct (readOutputAfter j after limit) as [[d t]|err]; simpl.
  - destruct Hr as (_ & Ht & -> & _ & Hp). destruct (Hp ltac:(lia)) as (x & Hx & ? & ?).
    pose proof (between_split after t (j_nextID j) _ lo _ Hc ltac:(lia) ltac:(lia)) as Hsp.
    rewrite Hsp, length_app in Hfuel. rewrite Hsp.
    assert (x ∈ between after t (j_events j)) as Hin by (apply between_elem; split; [lia|done]).
    destruct (between after t (j_events j)) as [|y l] eqn:Eb; [by apply not_elem_of_nil in Hin|].
    simpl in Hfuel. rewrite IH by (done || lia). simpl. by rewrite <- outputs_app.
  - exfalso. destruct Hr as [[_ ?]|[[_ ?]|(_ & x & Hx & ?)]]; [lia|lia|].
    rewrite Forall_forall in Hall. apply Hall in Hx. lia.
Qed.

Lemma read_all_complete_witness :
  read_all 4 journal_example 1 2 = Ok [4; 5; 6] /\
  read_all 4 journal_example 1 2 =
    Ok (outputs (between 1 (j_nextID journal_example) (j_events journal_example))).
Proof.
  split; [vm_compute; reflexivity|].
  apply (read_all_complete 4 journal_example 1 1 2);
    [vm_compute; repeat split|vm_compute; reflexivity|lia|vm_compute; split; discriminate|lia
    |repeat constructor; vm_compute; discriminate|vm_compute; lia].
Defined.

(** the events after a checkpoint's watermark can be replayed on top of it
    exactly when the journal still covers everything newer than the watermark;
    the tail is then the retained events beyond it, with their cost, and
    never one that silently omits output. *)
Theorem tailAfter_complete_iff j lo applied :
  covers lo (j_events j) (j_nextID j) -> j_nextID j < two64 - 1 -> 0 <= applied ->
  (snd (journalTailAfter j applied) = true <-> lo <= applied <= j_nextID j) /\
  (lo <= applied <= j_nextID j ->
     js_Events (fst (journalTailAfter j applied)) = between applied (j_nextID j) (j_events j) /\
     js_Bytes (fst (journalTailAfter j applied)) =
       zsum rendererJournalEventBytes (between applied (j_nextID j) (j_events j))).
Proof.
  intros Hc Hn Ha. pose proof (covers_le _ _ _ Hc).
  unfold journalTailAfter, tailAfter. simpl.
  destruct (j_nextID j <? applied) eqn:E; bool_to_prop; simpl.
  { split; [split; [done|lia]|lia]. }
  destruct (decide (lo <= applied)) as [Hlo|Hlo].
  - destruct (tailLoop_spec applied (j_events j) lo (j_nextID j) [] 0 Hc Hn Ha) as [Ht _].
    rewrite Ht by (done || lia). simpl. rewrite (u64_small (j_nextID j + 1)) by lia.
    rewrite Z.eqb_refl. split; [split; [done|done]|done].
  - split; [|lia]. split; [|lia]. intros Hs. exfalso.
    destruct (j_events j) as [|e evs]; simpl in *.
    + rewrite !u64_small in Hs by lia. bool_to_prop. lia.
    + destruct Hc as (Hf & Hl & Hc). rewrite u64_small in Hs by lia.
      destruct (ev_ID e <=? applied) eqn:E1; bool_to_prop; [lia|].
      destruct (applied + 1 <? ev_first e) eqn:E2; bool_to_prop; [done|lia].
Qed.

Lemma tailAfter_complete_iff_witness :
  covers 1 (j_events journal_example) (j_nextID journal_example) /\
  (snd (journalTailAfter journal_example 2) = true <->
     1 <= 2 <= j_nextID journal_example) /\
  (1 <= 2 <= j_nextID journal_example ->
     js_Events (fst (journalTailAfter journal_example 2)) =
       between 2 (j_nextID journal_example) (j_events journal_example) /\
     js_Bytes (fst (journalTailAfter journal_example 2)) =
       zsum rendererJournalEventBytes
         (between 2 (j_nextID journal_example) (j_events journal_example))).
Proof.
  split; [vm_compute; repeat split|].
  apply (tailAfter_complete_iff journal_example 1 2);
    [vm_compute; repeat split|vm_compute; reflexivity|lia].
Defined.
