(* ===== verification/JournalOrder.v ===== *)
(** * The worker's reorder buffer

    [internal/codelima/renderer_journal_order.go].  Journal events reach the
    renderer worker in an arbitrary order; this bounded buffer applies them in
    journal order.  The [apply] callback is the trace of applied events that
    [push] returns. *)

From S2P Require Import Prelude Journal.
Local Open Scope Z_scope.

(** ** Data *)

Definition rendererJournalMaxPendingEvents : nat := 256.

Definition rendererInputEventBit : Z := two63.

Record rendererJournalOrder := JOrder {
  q_applied : Z;
  q_pending : gmap Z rendererJournalEvent;
  q_bytes : Z;
  q_gapSince : time;
}.

Definition emptyOrder (applied : Z) : rendererJournalOrder := JOrder applied ∅ 0 time_zero.

Definition zeroEvent : rendererJournalEvent := JEvent 0 0 "" [] 0 0 0 0.

(** ** Operations *)

Definition rendererValidGeometry (cols rows : Z) : bool :=
  (0 <? cols) && (0 <? rows) && (cols <=? 65535) && (rows <=? 65535) &&
  (cols <=? Z.quot (Z.shiftl 1 20) rows).

Definition rendererValidPixels (width height : Z) : bool :=
  ((width =? 0) && (height =? 0)) ||
  ((0 <? width) && (0 <? height) && (width <=? 4096) && (height <=? 4096)).

Definition hasGap (q : rendererJournalOrder) : bool := negb (size (q_pending q) =? 0)%nat.

(** One step of the scan for the pending event to apply next. *)
Definition pickNext (applied : Z) (next candidate : rendererJournalEvent) : rendererJournalEvent :=
  if (ev_first candidate <=? u64 (applied + 1)) && (applied <? ev_ID candidate) &&
     ((ev_ID next =? 0) || (ev_ID candidate <? ev_ID next))
  then candidate else next.

Definition nextPending (applied : Z) (pending : gmap Z rendererJournalEvent)
    : rendererJournalEvent :=
  foldl (pickNext applied) zeroEvent (map_to_list pending).*2.

Definition pendingCost (m : gmap Z rendererJournalEvent) : Z :=
  map_zsum rendererJournalEventBytes m.

(** The drain loop.  Every round removes at least the event it applies, so
    the number of pending events bounds the rounds. *)
Fixpoint drain (fuel : nat) (q : rendererJournalOrder)
    : rendererJournalOrder * list rendererJournalEvent :=
  match fuel with
  | O => (q, [])
  | S fuel =>
      let next := nextPending (q_applied q) (q_pending q) in
      if ev_ID next =? 0 then (q, [])
      else
        let covered := filter (fun v : Z * rendererJournalEvent => v.1 <= ev_ID next) (q_pending q) in
        let '(q', trace) :=
          drain fuel (JOrder (ev_ID next)
            (filter (fun v : Z * rendererJournalEvent => ~ v.1 <= ev_ID next) (q_pending q))
            (q_bytes q - pendingCost covered) (q_gapSince q)) in
        (q', next :: trace)
  end.

Definition push (now : time) (event : rendererJournalEvent) (q : rendererJournalOrder)
    : result (list rendererJournalEvent) * rendererJournalOrder :=
  if (ev_ID event =? 0) || (rendererInputEventBit <=? ev_ID event) ||
     (negb (String.eqb (ev_Type event) "output") && negb (String.eqb (ev_Type event) "resize"))
  then (Err (ENew "invalid journal event identity or type"), q)
  else
  let first := ev_first event in
  if (ev_ID event <? first) ||
     (negb (String.eqb (ev_Type event) "resize") && negb (first =? ev_ID event))
  then (Err (ENew "invalid journal event span"), q)
  else if ev_ID event <=? q_applied q then (Ok [], q)
  else if String.eqb (ev_Type event) "resize" &&
          (negb (rendererValidGeometry (ev_Cols event) (ev_Rows event)) ||
           negb (rendererValidPixels (ev_CellWidth event) (ev_CellHeight event)))
  then (Err (ENew "invalid journal resize geometry"), q)
  else if negb (hasGap q) && (first <=? u64 (q_applied q + 1))
  then (Ok [event], JOrder (ev_ID event) (q_pending q) (q_bytes q) (q_gapSince q))
  else
  match q_pending q !! ev_ID event with
  | Some _ => (Ok [], q)
  | None =>
      let cost := rendererJournalEventBytes event in
      if (rendererJournalMaxPendingEvents <=? size (q_pending q))%nat ||
         (defaultRendererJournalBytes - q_bytes q <? cost)
      then (Err (ENew "renderer journal gap buffer is full"), q)
      else
        let pending := <[ev_ID event := event]> (q_pending q) in
        let '(q', trace) :=
          drain (S (size pending))
            (JOrder (q_applied q) pending (q_bytes q + cost) (q_gapSince q)) in
        let gapSince :=
          if hasGap q' && time_is_zero (q_gapSince q') then now
          else if negb (hasGap q') then time_zero
          else q_gapSince q' in
        (Ok trace, JOrder (q_applied q') (q_pending q') (q_bytes q') gapSince)
  end.

Definition gapError (q : rendererJournalOrder) (now : time) (timeout : duration)
    : option go_error :=
  if hasGap q && negb (time_is_zero (q_gapSince q)) &&
     (timeout <=? time_sub now (q_gapSince q))
  then Some (EFormat "renderer journal event %d did not arrive within %s"
               [u64 (q_applied q + 1); timeout])
  else None.

(** ** Specification *)

(** Pushing a whole arrival sequence: the results and the combined trace. *)
Fixpoint pushAll (now : time) (arrivals : list rendererJournalEvent) (q : rendererJournalOrder)
    : list (result unit) * list rendererJournalEvent * rendererJournalOrder :=
  match arrivals with
  | [] => ([], [], q)
  | e :: rest =>
      let '(r, q') := push now e q in
      let '(rs, trace, q'') := pushAll now rest q' in
      match r with
      | Ok t => (Ok tt :: rs, t ++ trace, q'')
      | Err err => (Err err :: rs, trace, q'')
      end
  end.

(** Applied events advance the watermark without leaving a hole below it. *)
Fixpoint advances (lo : Z) (evs : list rendererJournalEvent) (hi : Z) : Prop :=
  match evs with
  | [] => lo = hi
  | e :: rest => ev_first e <= lo + 1 /\ lo < ev_ID e /\ advances (ev_ID e) rest hi
  end.

Record order_inv (q : rendererJournalOrder) : Prop := {
  oi_applied : 0 <= q_applied q < two63;
  oi_keys : map_Forall (fun id e => ev_ID e = id /\ q_applied q < id < two63) (q_pending q);
  oi_blocked : map_Forall (fun _ e => q_applied q + 1 < ev_first e) (q_pending q);
  oi_cost : q_bytes q = pendingCost (q_pending q);
  oi_size : (size (q_pending q) <= rendererJournalMaxPendingEvents)%nat;
  oi_bytes : q_bytes q <= defaultRendererJournalBytes;
  oi_gap : q_gapSince q = time_zero <-> q_pending q = ∅;
}.

(** An event the worker accepts. *)
Definition event_valid (e : rendererJournalEvent) : Prop :=
  0 < ev_ID e < two63 /\
  (ev_Type e = "output"%string /\ ev_first e = ev_ID e \/
   ev_Type e = "resize"%string /\ ev_first e <= ev_ID e /\
   rendererValidGeometry (ev_Cols e) (ev_Rows e) = true /\
   rendererValidPixels (ev_CellWidth e) (ev_CellHeight e) = true).

(** ** Lemmas *)

Definition applicable (applied : Z) (e : rendererJournalEvent) : Prop :=
  ev_first e <= applied + 1 /\ applied < ev_ID e.

Lemma pickNext_spec applied acc c :
  0 <= applied < two63 ->
  pickNext applied acc c =
    if decide (applicable applied c /\ (ev_ID acc = 0 \/ ev_ID c < ev_ID acc)) then c else acc.
Proof.
  intros Ha. unfold pickNext, applicable. rewrite u64_small by lia.
  destruct (Z.leb_spec (ev_first c) (applied + 1)), (Z.ltb_spec applied (ev_ID c)),
    (Z.eqb_spec (ev_ID acc) 0), (Z.ltb_spec (ev_ID c) (ev_ID acc));
    simpl; case_decide; try done; lia.
Qed.

(** The scan finds the applicable event with the least identity. *)
Lemma scan_spec applied l acc :
  0 <= applied < two63 ->
  ev_ID acc = 0 \/ applicable applied acc ->
  let r := foldl (pickNext applied) acc l in
  (ev_ID r = 0 -> ev_ID acc = 0 /\ forall c, c ∈ l -> ~ applicable applied c) /\
  (ev_ID r <> 0 -> (r = acc \/ r ∈ l) /\ applicable applied r /\
     (forall c, c ∈ l -> applicable applied c -> ev_ID r <= ev_ID c) /\
     (ev_ID acc <> 0 -> ev_ID r <= ev_ID acc)).
Proof.
  intros Ha. revert acc. induction l as [|c l IH]; intros acc Hacc; simpl.
  - split; intros Hr.
    + split; [done|]. intros c Hc. by apply not_elem_of_nil in Hc.
    + split; [by left|]. split; [by destruct Hacc|]. split; [|lia].
      intros c Hc. by apply not_elem_of_nil in Hc.
  - rewrite pickNext_spec by done. case_decide as Hd.
    + destruct Hd as [Hc Hlt]. destruct (IH c ltac:(by right)) as [IH1 IH2].
      destruct Hc as [Hc1 Hc2]. split; intros Hr.
      * apply IH1 in Hr as [Hz _]. lia.
      * destruct (IH2 Hr) as (Hin & Happ & Hmin & Hle). specialize (Hle ltac:(lia)).
        split; [right; destruct Hin as [->|]; by constructor|]. split; [done|].
        split; [|lia]. intros x Hx Hax. apply elem_of_cons in Hx as [->|Hx]; [lia|auto].
    + destruct (IH acc Hacc) as [IH1 IH2]. split; intros Hr.
      * destruct (IH1 Hr) as [Hz Hn]. split; [done|].
        intros x Hx Hax. apply elem_of_cons in Hx as [Heq|Hx]; [|by eapply Hn].
        subst c. apply Hd. auto.
      * destruct (IH2 Hr) as (Hin & Happ & Hmin & Hle).
        split; [destruct Hin; [by left|right; by constructor]|]. split; [done|].
        split; [|done]. intros x Hx Hax. apply elem_of_cons in Hx as [Heq|Hx]; [|auto].
        subst c. destruct (decide (ev_ID acc = 0)); [exfalso; apply Hd; auto|].
        specialize (Hle ltac:(done)).
        destruct (decide (ev_ID x < ev_ID acc)); [exfalso; apply Hd; auto|lia].
Qed.

Definition keyed (q : rendererJournalOrder) : Prop :=
  0 <= q_applied q < two63 /\
  map_Forall (fun id e => ev_ID e = id /\ q_applied q < id < two63) (q_pending q).

Lemma nextPending_none q :
  keyed q -> ev_ID (nextPending (q_applied q) (q_pending q)) = 0 ->
  map_Forall (fun _ e => q_applied q + 1 < ev_first e) (q_pending q).
Proof.
  intros [Ha Hk] Hz id e He.
  pose proof (scan_spec (q_applied q) (map_to_list (q_pending q)).*2 zeroEvent Ha ltac:(by left)) as [Hs _].
  destruct (Hs Hz) as [_ Hn].
  assert (e ∈ (map_to_list (q_pending q)).*2) as Hin.
  { apply list_elem_of_fmap. exists (id, e). split; [done|]. by apply elem_of_map_to_list. }
  apply Hn in Hin. destruct (Hk id e He) as [<- ?]. unfold applicable in Hin. lia.
Qed.

Lemma nextPending_some q :
  keyed q -> let next := nextPending (q_applied q) (q_pending q) in ev_ID next <> 0 ->
  q_pending q !! ev_ID next = Some next /\ applicable (q_applied q) next /\
  forall id e, q_pending q !! id = Some e -> applicable (q_applied q) e -> ev_ID next <= id.
Proof.
  intros [Ha Hk] next Hz. unfold next in *.
  pose proof (scan_spec (q_applied q) (map_to_list (q_pending q)).*2 zeroEvent Ha ltac:(by left)) as [_ Hs].
  destruct (Hs Hz) as ([Hin|Hin] & Happ & Hmin & _).
  { unfold nextPending in Hz. rewrite Hin in Hz. done. }
  apply list_elem_of_fmap in Hin as ([id e] & He & Hin). simpl in He.
  apply elem_of_map_to_list in Hin. destruct (Hk id e Hin) as [Hid _].
  unfold nextPending. rewrite He in *. rewrite Hid. split; [done|]. split; [done|].
  intros id' e' He' Happ'. destruct (Hk id' e' He') as [Hid' _].
  rewrite <- Hid, <- Hid'. apply Hmin; [|done].
  apply list_elem_of_fmap. exists (id', e'). split; [done|]. by apply elem_of_map_to_list.
Qed.

(** Draining with enough fuel leaves no applicable event behind. *)
Lemma drain_spec fuel q q' trace :
  keyed q -> q_bytes q = pendingCost (q_pending q) -> (size (q_pending q) < fuel)%nat ->
  drain fuel q = (q', trace) ->
  keyed q' /\ q_bytes q' = pendingCost (q_pending q') /\
  map_Forall (fun _ e => q_applied q' + 1 < ev_first e) (q_pending q') /\
  q_pending q' ⊆ q_pending q /\ q_gapSince q' = q_gapSince q /\
  advances (q_applied q) trace (q_applied q') /\
  Forall (fun e => q_pending q !! ev_ID e = Some e) trace.
Proof.
  revert q q' trace. induction fuel as [|fuel IH]; intros q q' trace Hk Hb Hf; simpl; [lia|].
  destruct (ev_ID _ =? 0) eqn:E; bool_to_prop.
  { intros [= <- <-]. split; [done|]. split; [done|].
    split; [by apply nextPending_none|]. split; [done|]. split; [done|]. split; [done|].
    constructor. }
  destruct (nextPending_some q Hk E) as (Hin & [Hap1 Hap2] & _).
  set (next := nextPending _ _) in *.
  destruct Hk as [Ha Hk]. destruct (Hk _ _ Hin) as [_ Hnext].
  destruct (drain _ _) as [q1 t1] eqn:Ed. intros [= <- <-].
  apply IH in Ed as (Hk1 & Hb1 & Hbl & Hsub & Hg & Had & Hall); simpl.
  - split; [done|]. split; [done|]. split; [done|].
    split; [etrans; [done|apply map_filter_subseteq]|]. split; [done|]. split; [done|].
    constructor; [done|]. eapply Forall_impl; [done|]. simpl.
    intros e He. by apply map_lookup_filter_Some in He as [? _].
  - split; simpl; [lia|]. intros id e He. apply map_lookup_filter_Some in He as [He ?].
    destruct (Hk _ _ He). split; [done|]. simpl in *. lia.
  - simpl. unfold pendingCost in *. rewrite Hb.
    rewrite (map_zsum_filter _ (fun v : Z * rendererJournalEvent => v.1 <= ev_ID next)). lia.
  - simpl. assert (size (filter (fun v : Z * rendererJournalEvent => ~ (v.1 <= ev_ID next)%Z) (q_pending q)) < size (q_pending q))%nat; [|lia].
    apply map_subset_size. split; [apply map_filter_subseteq|]. intros Hs.
    pose proof (lookup_weaken _ _ _ _ Hin Hs) as Hx.
    apply map_lookup_filter_Some in Hx as [_ Hx]. simpl in Hx. lia.
Qed.

(** The outcome of an accepted push that goes through the gap buffer. *)
Lemma hasGap_false q : hasGap q = false <-> q_pending q = ∅.
Proof.
  unfold hasGap. rewrite negb_false_iff, Nat.eqb_eq. apply map_size_empty_iff.
Qed.

Lemma pushed_spec now e q r q' :
  order_inv q -> now <> time_zero -> push now e q = (r, q') ->
  order_inv q' /\
  match r with
  | Ok trace => advances (q_applied q) trace (q_applied q') /\
      Forall (fun x => x = e \/ q_pending q !! ev_ID x = Some x) trace
  | Err _ => q' = q
  end.
Proof.
  intros Hinv Hnow. destruct (Hinv) as [Ha Hk Hbl Hc Hs Hb Hg]. unfold push.
  destruct (_ || _) eqn:E1; [by intros [= <- <-]|].
  destruct (_ || _) eqn:E2 in |- *; [by intros [= <- <-]|].
  destruct (ev_ID e <=? q_applied q) eqn:E3; [intros [= <- <-]; by (split; [done|]; split; [done|]; apply Forall_nil)|].
  destruct (_ && _) eqn:E4 in |- *; [by intros [= <- <-]|].
  bool_to_prop. unfold rendererInputEventBit in *.
  destruct (negb (hasGap q) && _) eqn:E5.
  { intros [= <- <-]. apply andb_prop in E5 as [Hgap Hfirst]. bool_to_prop.
    rewrite u64_small in Hfirst by lia. apply hasGap_false in Hgap. split.
    - constructor; simpl; rewrite ?Hgap in *; try done; lia.
    - simpl. split; [|constructor; [by left|constructor]].
      split; [lia|]. split; [lia|done]. }
  destruct (q_pending q !! ev_ID e) as [old|] eqn:E6.
  { intros [= <- <-]. by (split; [done|]; split; [done|]; apply Forall_nil). }
  destruct (_ || _) eqn:E7 in |- *; [by intros [= <- <-]|].
  destruct (drain _ _) as [q1 trace] eqn:Ed. intros [= <- <-].
  apply orb_false_elim in E7 as [E7 E8]. apply Nat.leb_gt in E7. bool_to_prop.
  apply drain_spec in Ed as ([Ha1 Hk1] & Hb1 & Hbl1 & Hsub & Hg1 & Had & Hall); simpl in *.
  - split.
    + constructor; simpl; try done.
      * etrans; [by apply map_subseteq_size|]. rewrite map_size_insert_None by done. lia.
      * rewrite Hb1. etrans; [apply map_zsum_mono; [apply cost_nonneg|done]|].
        unfold pendingCost in *. rewrite map_zsum_insert by done. lia.
      * destruct (hasGap q1) eqn:Eh; simpl.
        -- assert (q_pending q1 <> ∅) as Hne by (by intros ?%hasGap_false; congruence).
           unfold time_is_zero, time_zero in *.
           case_match; bool_to_prop; split; intros; try done; lia.
        -- apply hasGap_false in Eh. by split.
    + split; [done|]. eapply Forall_impl; [done|]. simpl.
      intros x Hx. apply lookup_insert_Some in Hx as [[_ ->]|[_ ?]]; auto.
  - split; simpl; [done|]. intros id x. intros [[<- <-]|[_ Hx]]%lookup_insert_Some; [|by apply Hk].
    split; [done|lia].
  - simpl. unfold pendingCost in *. rewrite map_zsum_insert by done. lia.
  - simpl. lia.
Qed.

Lemma advances_app lo t1 mid t2 hi :
  advances lo t1 mid -> advances mid t2 hi -> advances lo (t1 ++ t2) hi.
Proof.
  revert lo. induction t1 as [|e t1 IH]; simpl; intros lo H1 H2; [by subst|].
  destruct H1 as (? & ? & ?). eauto.
Qed.

Lemma emptyOrder_inv applied : 0 <= applied < two63 -> order_inv (emptyOrder applied).
Proof.
  intros Ha. constructor; simpl; try done.
  rewrite map_size_empty. lia.
Qed.

Lemma pushAll_spec now arrivals q rs trace q' :
  order_inv q -> now <> time_zero -> pushAll now arrivals q = (rs, trace, q') ->
  order_inv q' /\ advances (q_applied q) trace (q_applied q').
Proof.
  intros Hinv Hnow. revert q rs trace q' Hinv.
  induction arrivals as [|e arr IH]; intros q rs trace q' Hinv; simpl.
  - by intros [= <- <- <-].
  - destruct (push now e q) as [r q1] eqn:Ep.
    destruct (pushAll now arr q1) as [[rs2 t2] q2] eqn:Ea.
    apply pushed_spec in Ep as [Hinv1 Hr]; [|done..].
    apply IH in Ea as [Hinv2 Had]; [|done].
    destruct r as [t|err]; intros [= <- <- <-].
    + split; [done|]. destruct Hr. by eapply advances_app.
    + subst. done.
Qed.

(** *** Delivery in any order *)

(** Progress of a delivery of [evs], whose watermark ends at [hi]: [trace] has
    been applied, [rest] has not, and the part of [rest] that arrived is
    pending. *)
Definition delivered (evs : list rendererJournalEvent) (hi : Z) (arrived : gset Z)
    (q : rendererJournalOrder) (trace rest : list rendererJournalEvent) : Prop :=
  evs = trace ++ rest /\ covers (q_applied q) rest hi /\
  (forall id e, q_pending q !! id = Some e <-> e ∈ rest /\ ev_ID e = id /\ id ∈ arrived) /\
  (forall e, e ∈ trace -> ev_ID e ∈ arrived).

Definition head_missing (arrived : gset Z) (rest : list rendererJournalEvent) : Prop :=
  forall e r, rest = e :: r -> ev_ID e ∉ arrived.

Lemma covers_elem lo evs hi e :
  covers lo evs hi -> e ∈ evs -> lo < ev_ID e <= hi /\ lo < ev_first e.
Proof. intros Hc He. apply covers_bounds in Hc. rewrite Forall_forall in Hc. by apply Hc. Qed.

(** In a gap-free sequence only the first event can follow the watermark. *)
Lemma covers_head lo e rest hi x :
  covers lo (e :: rest) hi -> x ∈ e :: rest -> ev_first x <= lo + 1 -> x = e.
Proof.
  intros (Hf & Hl & Hc) Hx Hle. apply elem_of_cons in Hx as [?|Hx]; [done|].
  apply (covers_elem _ _ _ _ Hc) in Hx. lia.
Qed.

Lemma covers_inj lo evs hi x y :
  covers lo evs hi -> x ∈ evs -> y ∈ evs -> ev_ID x = ev_ID y -> x = y.
Proof.
  revert lo. induction evs as [|e evs IH]; intros lo Hc Hx Hy Heq; [by apply not_elem_of_nil in Hx|].
  destruct Hc as (_ & Hl & Hc).
  apply elem_of_cons in Hx as [->|Hx]; apply elem_of_cons in Hy as [->|Hy]; [done| | |eauto].
  - apply (covers_elem _ _ _ _ Hc) in Hy. lia.
  - apply (covers_elem _ _ _ _ Hc) in Hx. lia.
Qed.

Lemma drain_delivers fuel evs hi arrived q q' trace rest t :
  keyed q -> delivered evs hi arrived q trace rest -> hi < two63 ->
  (size (q_pending q) < fuel)%nat -> drain fuel q = (q', t) ->
  exists rest', delivered evs hi arrived q' (trace ++ t) rest' /\ head_missing arrived rest'.
Proof.
  revert q q' trace rest t. induction fuel as [|fuel IH]; intros q q' trace rest t Hk Hd Hhi Hf;
    simpl; [lia|].
  destruct Hd as (Hev & Hc & Hp & Ht).
  destruct (ev_ID _ =? 0) eqn:E; bool_to_prop.
  { intros [= <- <-]. rewrite app_nil_r. exists rest. split; [done|].
    intros e r -> Hin. pose proof (nextPending_none q Hk E) as Hbl.
    assert (q_pending q !! ev_ID e = Some e) as He by (apply Hp; split; [left|done]).
    apply Hbl in He. simpl in *. lia. }
  destruct (nextPending_some q Hk E) as (Hin & [Hap1 Hap2] & _).
  set (next := nextPending _ _) in *.
  pose proof (proj1 (Hp _ _) Hin) as (Hrest & _ & Harr).
  destruct rest as [|e rest]; [by apply not_elem_of_nil in Hrest|].
  pose proof (covers_head _ _ _ _ _ Hc Hrest Hap1) as Hnext.
  destruct Hc as (Hf1 & Hl1 & Hc). rewrite <- Hnext in *.
  destruct Hk as [Ha Hk]. destruct (Hk _ _ Hin) as [_ Hbd].
  destruct (drain _ _) as [q1 t1] eqn:Ed. intros [= <- <-].
  apply (IH _ _ (trace ++ [next]) rest) in Ed as (rest' & Hd' & Hh); [| | |done|]; simpl.
  - exists rest'. rewrite <- app_assoc in Hd'. done.
  - split; simpl; [lia|]. intros id x Hx. apply map_lookup_filter_Some in Hx as [Hx Hgt].
    destruct (Hk _ _ Hx). split; [done|]. simpl in Hgt. lia.
  - split; [by rewrite <- app_assoc|]. split; [done|]. split; simpl.
    + intros id x. rewrite map_lookup_filter_Some, Hp, elem_of_cons. simpl. split.
      * intros (([->|Hx] & <- & Ha') & Hgt); [lia|done].
      * intros (Hx & <- & Ha'). split; [by split; [right|]|].
        apply (covers_elem _ _ _ _ Hc) in Hx. lia.
    + intros x [Hx|Hx]%elem_of_app; [by apply Ht|]. by apply list_elem_of_singleton in Hx as ->.
  - assert (size (filter (fun v : Z * rendererJournalEvent => ~ (v.1 <= ev_ID next)%Z) (q_pending q))
        < size (q_pending q))%nat; [|lia].
    apply map_subset_size. split; [apply map_filter_subseteq|]. intros Hs.
    pose proof (lookup_weaken _ _ _ _ Hin Hs) as Hx.
    apply map_lookup_filter_Some in Hx as [_ Hx]. simpl in Hx. lia.
Qed.

(** The pending events are bounded by the events to deliver. *)
Lemma indexed_bound lo evs hi (m : gmap Z rendererJournalEvent) :
  covers lo evs hi -> (forall id e, m !! id = Some e -> e ∈ evs /\ ev_ID e = id) ->
  (size m <= length evs)%nat /\ pendingCost m <= zsum rendererJournalEventBytes evs.
Proof.
  revert lo m. induction evs as [|e evs IH]; intros lo m Hc Hm.
  - assert (m = ∅) as ->.
    { apply map_empty. intros id. destruct (m !! id) as [x|] eqn:E; [|done].
      apply Hm in E as [E _]. by apply not_elem_of_nil in E. }
    split; [by rewrite map_size_empty|]. unfold pendingCost. by rewrite map_zsum_empty.
  - destruct Hc as (_ & _ & Hc).
    destruct (IH (ev_ID e) (delete (ev_ID e) m) Hc) as [IH1 IH2].
    { intros id x [Hne Hx]%lookup_delete_Some. apply Hm in Hx as [Hin <-].
      apply elem_of_cons in Hin as [->|?]; done. }
    destruct (m !! ev_ID e) as [x|] eqn:E.
    + pose proof (Hm _ _ E) as [Hin Hid].
      assert (x = e) as ->.
      { apply elem_of_cons in Hin as [?|Hin]; [done|].
        apply (covers_elem _ _ _ _ Hc) in Hin. lia. }
      rewrite map_size_delete_Some in IH1 by eauto. simpl. unfold pendingCost in *.
      rewrite (map_zsum_delete _ m (ev_ID e) e) by done. split; [lia|lia].
    + rewrite delete_id in * by done. simpl. pose proof (cost_nonneg e). lia.
Qed.

Lemma covers_mid lo l k hi : covers lo (l ++ k) hi -> exists mid, covers mid k hi.
Proof. rewrite covers_app. intros (mid & _ & H). eauto. Qed.

(** A valid event beyond the watermark passes the checks of [push]. *)
Lemma push_valid now e q :
  event_valid e -> q_applied q < ev_ID e ->
  push now e q =
    if negb (hasGap q) && (ev_first e <=? u64 (q_applied q + 1))
    then (Ok [e], JOrder (ev_ID e) (q_pending q) (q_bytes q) (q_gapSince q))
    else
    match q_pending q !! ev_ID e with
    | Some _ => (Ok [], q)
    | None =>
        if (rendererJournalMaxPendingEvents <=? size (q_pending q))%nat ||
           (defaultRendererJournalBytes - q_bytes q <? rendererJournalEventBytes e)
        then (Err (ENew "renderer journal gap buffer is full"), q)
        else
          let '(q', trace) :=
            drain (S (size (<[ev_ID e := e]> (q_pending q))))
              (JOrder (q_applied q) (<[ev_ID e := e]> (q_pending q))
                 (q_bytes q + rendererJournalEventBytes e) (q_gapSince q)) in
          let gapSince :=
            if hasGap q' && time_is_zero (q_gapSince q') then now
            else if negb (hasGap q') then time_zero
            else q_gapSince q' in
          (Ok trace, JOrder (q_applied q') (q_pending q') (q_bytes q') gapSince)
    end.
Proof.
  intros [Hid Hv] Hap. unfold push, rendererInputEventBit.
  rewrite (proj2 (Z.eqb_neq (ev_ID e) 0)), (proj2 (Z.leb_gt two63 (ev_ID e))),
    (proj2 (Z.leb_gt (ev_ID e) (q_applied q))) by lia.
  destruct Hv as [[-> Hf]|(-> & Hf & Hg & Hp)].
  - simpl. rewrite Hf, Z.eqb_refl, Z.ltb_irrefl. done.
  - simpl. rewrite (proj2 (Z.ltb_ge (ev_ID e) (ev_first e))), Hg, Hp by lia. done.
Qed.

Lemma push_delivers now evs hi lo arrived q trace rest e :
  order_inv q -> now <> time_zero -> covers lo evs hi -> hi < two63 ->
  (length evs <= rendererJournalMaxPendingEvents)%nat ->
  zsum rendererJournalEventBytes evs <= defaultRendererJournalBytes ->
  delivered evs hi arrived q trace rest -> head_missing arrived rest ->
  e ∈ evs -> event_valid e -> ev_ID e ∉ arrived ->
  exists q' t rest', push now e q = (Ok t, q') /\ order_inv q' /\
    delivered evs hi ({[ev_ID e]} ∪ arrived) q' (trace ++ t) rest' /\
    head_missing ({[ev_ID e]} ∪ arrived) rest'.
Proof.
  intros Hinv Hnow Hev Hhi Hlen Hsum Hd Hh He Hv Hna.
  destruct (Hd) as (-> & Hc & Hp & Ht).
  assert (e ∈ rest) as Hrest.
  { apply elem_of_app in He as [He|]; [|done]. by apply Ht in He. }
  pose proof (covers_elem _ _ _ _ Hc Hrest) as [Hb _].
  destruct (push now e q) as [r q'] eqn:Epush.
  pose proof (pushed_spec _ _ _ _ _ Hinv Hnow Epush) as [Hinv' _].
  rewrite push_valid in Epush by (done || lia).
  pose proof (oi_applied _ Hinv) as Ha.
  destruct (negb (hasGap q) && _) eqn:E5.
  - apply andb_prop in E5 as [Hgap Hfirst]. bool_to_prop. apply hasGap_false in Hgap.
    rewrite u64_small in Hfirst by lia.
    destruct rest as [|x rest]; [by apply not_elem_of_nil in Hrest|].
    pose proof (covers_head _ _ _ _ _ Hc Hrest Hfirst) as <-.
    destruct Hc as (Hf1 & Hl1 & Hc). injection Epush as <- <-.
    assert (forall y, y ∈ rest -> ev_ID y ∉ arrived) as Hnone.
    { intros y Hy Hin. assert (q_pending q !! ev_ID y = Some y) as Hl.
      { apply Hp. split; [by right|done]. }
      by rewrite Hgap in Hl. }
    assert (forall y, y ∈ rest -> ev_ID y ∉ {[ev_ID e]} ∪ arrived) as Hnone'.
    { intros y Hy. pose proof (covers_elem _ _ _ _ Hc Hy). pose proof (Hnone y Hy).
      rewrite elem_of_union, elem_of_singleton. intros [?|?]; [lia|done]. }
    eexists _, _, rest. split; [done|]. split; [done|]. split.
    + split; [by rewrite <- app_assoc|]. split; [done|]. split; simpl.
      * intros id y. rewrite Hgap, lookup_empty. split; [done|].
        intros (Hy & <- & Hin). by apply Hnone' in Hy.
      * intros y [Hy|Hy]%elem_of_app; [by apply elem_of_union_r, Ht|].
        apply list_elem_of_singleton in Hy as ->. set_solver.
    + intros y l ->. apply Hnone'. by left.
  - destruct (q_pending q !! ev_ID e) as [old|] eqn:E6; [by apply Hp in E6 as (_ & _ & ?)|].
    destruct (covers_mid _ _ _ _ Hev) as [mid Hmid].
    destruct (indexed_bound _ _ hi (<[ev_ID e := e]> (q_pending q)) Hc) as [Hs1 Hs2].
    { intros id x [[<- <-]|[_ Hx]]%lookup_insert_Some; [done|].
      apply Hp in Hx as (? & ? & ?). done. }
    rewrite length_app in Hlen. rewrite zsum_app in Hsum.
    pose proof (zsum_nonneg rendererJournalEventBytes trace ltac:(auto using cost_nonneg)).
    rewrite map_size_insert_None in Hs1 by done. unfold pendingCost in Hs2.
    rewrite map_zsum_insert in Hs2 by done. pose proof (oi_cost _ Hinv) as Hcost.
    unfold pendingCost in Hcost.
    rewrite (proj2 (Nat.leb_gt _ _)), (proj2 (Z.ltb_ge _ _)) in Epush by lia.
    change (false || false) with false in Epush. cbv iota in Epush.
    destruct (drain _ _) as [q1 t] eqn:Ed. injection Epush as <- <-.
    apply (drain_delivers _ (trace ++ rest) hi ({[ev_ID e]} ∪ arrived) _ _ trace rest) in Ed
      as (rest' & (Hd1 & Hd2 & Hd3 & Hd4) & Hh'); [| | |done|]; simpl.
    + eexists _, _, rest'. split; [done|]. split; [done|]. done.
    + split; simpl; [done|]. intros id x [[<- <-]|[_ Hx]]%lookup_insert_Some;
        [split; [done|lia]|]. by apply (oi_keys _ Hinv).
    + split; [done|]. split; [done|]. split; simpl.
      * intros id x. rewrite lookup_insert_Some, Hp. split.
        -- intros [[<- <-]|(Hne & Hx & <- & Hin)]; (split; [done|]; split; [done|]; set_solver).
        -- intros (Hx & <- & [Hin|Hin]%elem_of_union).
           ++ left. apply elem_of_singleton in Hin. split; [done|].
              eapply covers_inj; eauto.
           ++ right. split; [congruence|done].
      * intros x Hx. apply elem_of_union_r. auto.
    + rewrite map_size_insert_None by done. lia.
Qed.

Lemma pushAll_delivers now evs hi lo arrivals : forall arrived q trace rest,
  order_inv q -> now <> time_zero -> covers lo evs hi -> hi < two63 ->
  (length evs <= rendererJournalMaxPendingEvents)%nat ->
  zsum rendererJournalEventBytes evs <= defaultRendererJournalBytes ->
  Forall event_valid evs ->
  delivered evs hi arrived q trace rest -> head_missing arrived rest ->
  (forall e, e ∈ arrivals -> e ∈ evs /\ ev_ID e ∉ arrived) -> NoDup (map ev_ID arrivals) ->
  exists q' t rest',
    pushAll now arrivals q = (map (fun _ => Ok tt) arrivals, t, q') /\ order_inv q' /\
    delivered evs hi (list_to_set (map ev_ID arrivals) ∪ arrived) q' (trace ++ t) rest' /\
    head_missing (list_to_set (map ev_ID arrivals) ∪ arrived) rest'.
Proof.
  induction arrivals as [|e arr IH]; intros arrived q trace rest Hinv Hnow Hc Hhi Hlen Hsum Hv
    Hd Hh Harr Hnd; simpl.
  - exists q, [], rest. rewrite app_nil_r, union_empty_l_L. done.
  - destruct (Harr e ltac:(left)) as [He Hna].
    rewrite Forall_forall in Hv. apply NoDup_cons in Hnd as [Hnotin Hnd].
    destruct (push_delivers now evs hi lo arrived q trace rest e)
      as (q1 & t1 & rest1 & -> & Hinv1 & Hd1 & Hh1); auto.
    destruct (IH ({[ev_ID e]} ∪ arrived) q1 (trace ++ t1) rest1)
      as (q2 & t2 & rest2 & -> & Hinv2 & Hd2 & Hh2); auto.
    + by rewrite Forall_forall.
    + intros x Hx. destruct (Harr x ltac:(by right)) as [? Hxa]. split; [done|].
      intros [Hs|?]%elem_of_union; [|done]. apply elem_of_singleton in Hs. apply Hnotin.
      rewrite <- Hs. by apply list_elem_of_fmap_2.
    + assert (list_to_set (map ev_ID arr) ∪ ({[ev_ID e]} ∪ arrived) =
              {[ev_ID e]} ∪ list_to_set (map ev_ID arr) ∪ arrived) as Heq by set_solver.
      rewrite Heq in *. rewrite <- app_assoc in Hd2. eauto 10.
Qed.

Lemma covers_NoDup lo evs hi : covers lo evs hi -> NoDup (map ev_ID evs).
Proof.
  revert lo. induction evs as [|e evs IH]; intros lo Hc; simpl; [constructor|].
  destruct Hc as (_ & _ & Hc). constructor; [|eauto].
  intros (x & Hx & Hin)%list_elem_of_fmap. apply (covers_elem _ _ _ _ Hc) in Hin. lia.
Qed.

(** ** Theorems *)

(** whatever arrives, the buffer stays within its bounds of 256 events and
    one journal of bytes, its byte count is the cost of what is pending, no
    pending event could already be applied, the gap timer runs exactly while
    something is pending, and the events applied move the watermark forward
    without ever leaving a hole below it. *)
Theorem order_invariant now arrivals watermark rs trace q :
  now <> time_zero -> 0 <= watermark < two63 ->
  pushAll now arrivals (emptyOrder watermark) = (rs, trace, q) ->
  order_inv q /\ advances watermark trace (q_applied q).
Proof.
  intros Hnow Hw Hp. by eapply (pushAll_spec _ _ _ _ _ _ (emptyOrder_inv _ Hw)).
Qed.

Definition out_event (id : Z) (data : bytes) : rendererJournalEvent :=
  JEvent id 0 "output" data 0 0 0 0.

Lemma order_invariant_witness :
  match pushAll 5 [out_event 3 [1]; out_event 9 [2]; out_event 1 [3]] (emptyOrder 0) with
  | (rs, trace, q) => order_inv q /\ advances 0 trace (q_applied q)
  end.
Proof.
  destruct (pushAll 5 [out_event 3 [1]; out_event 9 [2]; out_event 1 [3]] (emptyOrder 0))
    as [[rs trace] q] eqn:E.
  apply (order_invariant 5 [out_event 3 [1]; out_event 9 [2]; out_event 1 [3]] 0 rs trace q);
    [discriminate|lia|exact E].
Defined.

(** C13: for a gap-free run of valid events that fits the buffer, every arrival
    order has the same effect as the journal order: each push succeeds, the
    events are applied exactly once each and in journal order, and afterwards
    nothing is pending, no bytes are charged and no gap is being timed. *)
Theorem any_order_delivers now evs arrivals watermark hi :
  now <> time_zero -> 0 <= watermark < two63 -> hi < two63 ->
  covers watermark evs hi -> Forall event_valid evs ->
  (length evs <= rendererJournalMaxPendingEvents)%nat ->
  zsum rendererJournalEventBytes evs <= defaultRendererJournalBytes ->
  arrivals ≡ₚ evs ->
  pushAll now arrivals (emptyOrder watermark) =
    (map (fun _ => Ok tt) arrivals, evs, emptyOrder hi).
Proof.
  intros Hnow Hw Hhi Hc Hv Hlen Hsum Hperm.
  destruct (pushAll_delivers now evs hi watermark arrivals ∅ (emptyOrder watermark) [] evs)
    as (q & t & rest & -> & Hinv & (Hev & Hrest & Hp & _) & Hh); try done.
  - by apply emptyOrder_inv.
  - split; [done|]. split; [done|]. split; simpl.
    + intros id e. rewrite lookup_empty. split; [done|]. by intros (_ & _ & ?).
    + intros e He. by apply not_elem_of_nil in He.
  - intros e He. split; [by rewrite <- Hperm|done].
  - rewrite Hperm. by eapply covers_NoDup.
  - destruct rest as [|e rest].
    + rewrite app_nil_r in Hev. simpl in Hev, Hrest. subst t.
      assert (q_pending q = ∅) as Hem.
      { apply map_empty. intros id. destruct (q_pending q !! id) as [x|] eqn:E; [|done].
        apply Hp in E as (Hx & _). by apply not_elem_of_nil in Hx. }
      destruct Hinv as [_ _ _ Hcost _ _ Hg]. destruct q as [a m b g]; simpl in *. subst.
      unfold pendingCost. rewrite map_zsum_empty. by rewrite (proj2 Hg).
    + exfalso. eapply (Hh e rest); [done|]. apply elem_of_union_l, elem_of_list_to_set.
      apply list_elem_of_fmap_2. rewrite Hperm, Hev. set_solver.
Qed.

Lemma any_order_delivers_witness :
  covers 4 [out_event 5 [1; 2]; JEvent 7 6 "resize" [] 80 24 8 16; out_event 8 [3]] 8 /\
  pushAll 9 [out_event 8 [3]; JEvent 7 6 "resize" [] 80 24 8 16; out_event 5 [1; 2]] (emptyOrder 4) =
    (map (fun _ => Ok tt) [out_event 8 [3]; JEvent 7 6 "resize" [] 80 24 8 16; out_event 5 [1; 2]],
     [out_event 5 [1; 2]; JEvent 7 6 "resize" [] 80 24 8 16; out_event 8 [3]], emptyOrder 8).
Proof.
  split; [vm_compute; repeat split|].
  apply (any_order_delivers 9
    [out_event 5 [1; 2]; JEvent 7 6 "resize" [] 80 24 8 16; out_event 8 [3]]
    [out_event 8 [3]; JEvent 7 6 "resize" [] 80 24 8 16; out_event 5 [1; 2]] 4 8).
  - discriminate.
  - lia.
  - lia.
  - vm_compute; repeat split.
  - apply Forall_cons_2; [|apply Forall_cons_2; [|apply Forall_cons_2; [|apply Forall_nil_2]]];
      (split; [split; vm_compute; reflexivity|]); [left|right|left];
      repeat split; vm_compute; solve [reflexivity|discriminate].
  - apply Nat.leb_le. vm_compute. reflexivity.
  - vm_compute. discriminate.
  - apply (reverse_Permutation [out_event 5 [1; 2]; JEvent 7 6 "resize" [] 80 24 8 16; out_event 8 [3]]).
Defined.
