(* ===== verification/GoText.v ===== *)
(** * Go strings

    The functions of Go's [strings] and [unicode/utf8] packages that the
    modelled code uses, on the bytes of a string: [TrimSpace], [ToLower],
    [ToValidUTF8] and byte slicing. *)

From S2P Require Import Prelude.
Local Open Scope Z_scope.

(** ** Bytes *)

Definition byte_of (a : Ascii.ascii) : Z := Z.of_nat (Ascii.nat_of_ascii a).
Definition ascii_of (b : Z) : Ascii.ascii := Ascii.ascii_of_nat (Z.to_nat b).

Fixpoint bytes_of (s : string) : bytes :=
  match s with EmptyString => [] | String a s => byte_of a :: bytes_of s end.

Fixpoint string_of (l : bytes) : string :=
  match l with [] => EmptyString | b :: l => String (ascii_of b) (string_of l) end.

(** [len(s)]. *)
Definition slen (s : string) : Z := zlen (bytes_of s).

(** [s[:n]] for [n] in range. *)
Definition sprefix (s : string) (n : Z) : string := string_of (take (Z.to_nat n) (bytes_of s)).

(** ** White space *)

(** The UTF-8 encodings of the runes [unicode.IsSpace] accepts. *)
Definition spaceEncodings : list bytes :=
  [[9]; [10]; [11]; [12]; [13]; [32]; [0xc2; 0x85]; [0xc2; 0xa0]; [0xe1; 0x9a; 0x80];
   [0xe2; 0x80; 0xa8]; [0xe2; 0x80; 0xa9]; [0xe2; 0x80; 0xaf]; [0xe2; 0x81; 0x9f];
   [0xe3; 0x80; 0x80]] ++ map (fun b => [0xe2; 0x80; b]) (seqZ 0x80 11).

Fixpoint stripPrefix (p l : bytes) : option bytes :=
  match p, l with
  | [], _ => Some l
  | a :: p, b :: l => if a =? b then stripPrefix p l else None
  | _ :: _, [] => None
  end.

Definition stripSpace (encodings : list bytes) (l : bytes) : option bytes :=
  foldr (fun p r => match stripPrefix p l with Some l' => Some l' | None => r end) None encodings.

(** Every round removes a byte at least. *)
Fixpoint trimRun (fuel : nat) (encodings : list bytes) (l : bytes) : bytes :=
  match fuel with
  | O => l
  | S fuel => match stripSpace encodings l with Some l' => trimRun fuel encodings l' | None => l end
  end.

Definition trimLeft (l : bytes) : bytes := trimRun (length l) spaceEncodings l.
Definition trimRight (l : bytes) : bytes :=
  rev (trimRun (length l) (map (@rev Z) spaceEncodings) (rev l)).

Definition TrimSpace (s : string) : string := string_of (trimRight (trimLeft (bytes_of s))).

(** [strings.TrimSpace(s) == ""]. *)
Definition blank (s : string) : bool := (TrimSpace s =? "")%string.

(** ** Case *)

(** [strings.ToLower] of ASCII text. *)
Definition lower (a : Ascii.ascii) : Ascii.ascii :=
  let n := Ascii.nat_of_ascii a in
  if ((65 <=? n) && (n <=? 90))%nat then Ascii.ascii_of_nat (n + 32) else a.

Fixpoint ToLower (s : string) : string :=
  match s with EmptyString => EmptyString | String a s => String (lower a) (ToLower s) end.

(** ** UTF-8 *)

Definition within (lo hi b : Z) : bool := (lo <=? b) && (b <=? hi).

(** The width of the rune at the head of a byte string, 0 for an invalid one. *)
Definition runeWidth (l : bytes) : nat :=
  match l with
  | [] => 0
  | b :: l =>
      if within 0 0x7f b then 1
      else match l with
      | [] => 0
      | c :: l =>
          if within 0xc2 0xdf b then if within 0x80 0xbf c then 2 else 0
          else match l with
          | [] => 0
          | d :: l =>
              if within 0xe0 0xef b then
                if within (if b =? 0xe0 then 0xa0 else 0x80) (if b =? 0xed then 0x9f else 0xbf) c &&
                   within 0x80 0xbf d then 3 else 0
              else match l with
              | [] => 0
              | e :: _ =>
                  if within 0xf0 0xf4 b &&
                     within (if b =? 0xf0 then 0x90 else 0x80) (if b =? 0xf4 then 0x8f else 0xbf) c &&
                     within 0x80 0xbf d && within 0x80 0xbf e then 4 else 0
              end
          end
      end
  end.

(** [strings.ToValidUTF8]: each run of invalid bytes becomes one replacement. *)
Fixpoint toValid (fuel : nat) (replacement l : bytes) (inRun : bool) : bytes :=
  match fuel with
  | O => []
  | S fuel =>
      match l with
      | [] => []
      | b :: rest =>
          match runeWidth l with
          | O => (if inRun then [] else replacement) ++ toValid fuel replacement rest true
          | w => take w l ++ toValid fuel replacement (drop w l) false
          end
      end
  end.

Definition ToValidUTF8 (s replacement : string) : string :=
  string_of (toValid (length (bytes_of s)) (bytes_of replacement) (bytes_of s) false).

Definition replacementRune : string := string_of [0xef; 0xbf; 0xbd].
Definition ellipsis : string := string_of [0xe2; 0x80; 0xa6].

(** ** Lemmas *)

Lemma stripPrefix_spec p l r : stripPrefix p l = Some r -> l = p ++ r.
Proof.
  revert l. induction p as [|a p IH]; intros l; simpl; [by intros [= ->]|].
  destruct l as [|b l]; [done|]. destruct (a =? b) eqn:E; [|done]. bool_to_prop. subst.
  intros H. by rewrite (IH l H).
Qed.

Lemma runeWidth_le l : (runeWidth l <= length l)%nat.
Proof. unfold runeWidth. repeat (case_match; simpl; try lia). Qed.

(** Text without invalid bytes is left alone. *)
Fixpoint validUTF8 (fuel : nat) (l : bytes) : bool :=
  match fuel with
  | O => match l with [] => true | _ => false end
  | S fuel =>
      match l with
      | [] => true
      | _ => match runeWidth l with O => false | w => validUTF8 fuel (drop w l) end
      end
  end.

Lemma toValid_valid fuel r l b : validUTF8 fuel l = true -> toValid fuel r l b = l.
Proof.
  revert l b. induction fuel as [|fuel IH]; intros l b; cbn [validUTF8 toValid].
  { by destruct l. }
  destruct l as [|x l]; [done|]. destruct (runeWidth (x :: l)) as [|w]; [done|].
  intros H. by rewrite IH, take_drop.
Qed.

(** A string that starts with a byte no space encoding contains is not blank. *)
Lemma stripSpace_spec es l r : stripSpace es l = Some r -> exists p, p ∈ es /\ l = p ++ r.
Proof.
  induction es as [|p es IH]; simpl; [done|].
  destruct (stripPrefix p l) as [x|] eqn:E.
  - intros [= ->]. exists p. split; [left|by apply stripPrefix_spec].
  - intros H. destruct (IH H) as (q & Hq & Hl). exists q. split; [by right|done].
Qed.

Lemma trimRun_last fuel es b l :
  (forall p, p ∈ es -> b ∉ p) -> exists l', trimRun fuel es (l ++ [b]) = l' ++ [b].
Proof.
  intros Hes. revert l. induction fuel as [|fuel IH]; intros l; simpl; [by exists l|].
  destruct (stripSpace es (l ++ [b])) as [r|] eqn:E; [|by exists l].
  apply stripSpace_spec in E as (p & Hp & E).
  destruct r as [|x r _] using rev_ind.
  - rewrite app_nil_r in E. exfalso. apply (Hes p Hp). rewrite <- E. set_solver.
  - rewrite app_assoc in E. apply app_inj_tail in E as [_ <-]. apply IH.
Qed.

Lemma trimRun_head fuel es b l :
  (forall p, p ∈ es -> (b ∉ p) /\ (p <> [])) -> trimRun fuel es (b :: l) = b :: l.
Proof.
  intros Hes. destruct fuel as [|fuel]; simpl; [done|].
  destruct (stripSpace es (b :: l)) as [r|] eqn:E; [|done].
  apply stripSpace_spec in E as (p & Hp & E). destruct (Hes p Hp) as [Hb Hne].
  destruct p as [|y p]; [done|]. injection E as -> _. set_solver.
Qed.

Definition clearOfSpace (b : Z) : bool :=
  forallb (fun p => negb (existsb (Z.eqb b) p) && negb (length p =? 0)%nat) spaceEncodings.

Lemma clearOfSpace_spec b p : clearOfSpace b = true -> p ∈ spaceEncodings -> (b ∉ p) /\ (p <> []).
Proof.
  unfold clearOfSpace. rewrite forallb_forall. intros H Hp. apply list_elem_of_In in Hp.
  specialize (H p Hp). bool_to_prop. split.
  - intros Hin. apply list_elem_of_In in Hin.
    assert (existsb (Z.eqb b) p = true); [|congruence].
    apply existsb_exists. exists b. by rewrite Z.eqb_refl.
  - by intros ->.
Qed.

Lemma nonblank_head a s : clearOfSpace (byte_of a) = true -> blank (String a s) = false.
Proof.
  intros Ha. unfold blank, TrimSpace, trimLeft. cbn [bytes_of].
  rewrite trimRun_head by (intros p Hp; by apply clearOfSpace_spec).
  unfold trimRight. cbn [rev].
  destruct (trimRun_last (length (byte_of a :: bytes_of s)) (map (@rev Z) spaceEncodings)
              (byte_of a) (rev (bytes_of s))) as [l' ->].
  - intros p Hp Hb. apply list_elem_of_In, in_map_iff in Hp as (q & <- & Hq).
    apply list_elem_of_In in Hq. destruct (clearOfSpace_spec _ _ Ha Hq) as [Hn _].
    apply Hn, list_elem_of_In, in_rev. by apply list_elem_of_In.
  - by rewrite rev_app_distr.
Qed.

(** Text between two bytes that are no part of a space, alone and with a newline. *)
Lemma clear_reversed b : clearOfSpace b = true -> forall p, p ∈ map (@rev Z) spaceEncodings -> (b ∉ p) /\ (p <> []).
Proof.
  intros Hb p Hp. apply list_elem_of_In, in_map_iff in Hp as (q & <- & Hq). apply list_elem_of_In in Hq.
  destruct (clearOfSpace_spec _ _ Hb Hq) as [Hn Hne]. split.
  - intros Hin. apply Hn. by rewrite list_elem_of_In, <- in_rev, <- list_elem_of_In in Hin.
  - intros Hr. apply Hne. by rewrite <- (rev_involutive q), Hr.
Qed.

Lemma trimRight_clear l b : clearOfSpace b = true -> trimRight (l ++ [b]) = l ++ [b].
Proof.
  intros Hb. unfold trimRight. rewrite rev_app_distr. cbn [rev app].
  rewrite trimRun_head by (by apply clear_reversed). cbn [rev]. by rewrite rev_involutive.
Qed.

Lemma trimRight_newline l b : clearOfSpace b = true -> trimRight ((l ++ [b]) ++ [10]) = l ++ [b].
Proof.
  intros Hb. unfold trimRight. rewrite !rev_app_distr, !length_app. cbn [rev app length].
  replace (length l + 1 + 1)%nat with (S (S (length l))) by lia. cbn [trimRun].
  change (stripSpace (map (@rev Z) spaceEncodings) (10 :: b :: rev l)) with (Some (b :: rev l)). cbv iota.
  replace (match stripSpace (map (@rev Z) spaceEncodings) (b :: rev l) with
           | Some l' => trimRun (length l) (map (@rev Z) spaceEncodings) l' | None => b :: rev l end)
    with (trimRun (S (length l)) (map (@rev Z) spaceEncodings) (b :: rev l)) by done.
  rewrite trimRun_head by (by apply clear_reversed). cbn [rev]. by rewrite rev_involutive.
Qed.
