(* ===== verification/Utf8.v ===== *)
(** * UTF-8 by its definition

    The encoding of scalar values, and what [GoText] reads of Go's tables against
    it: [runeWidth] accepts exactly the encoded scalar values, and
    [strings.ToValidUTF8] keeps them and replaces every maximal run of other
    bytes. *)

From S2P Require Import Prelude GoText.
Local Open Scope Z_scope.
(** The Unicode scalar values. *)
Definition scalar (c : Z) : Prop := 0 <= c < 0xd800 \/ 0xe000 <= c <= 0x10ffff.

Definition utf8Encode (c : Z) : bytes :=
  let tail n := 0x80 + (c / n) mod 64 in
  if c <? 0x80 then [c]
  else if c <? 0x800 then [0xc0 + c / 64; tail 1]
  else if c <? 0x10000 then [0xe0 + c / 4096; tail 64; tail 1]
  else [0xf0 + c / 262144; tail 4096; tail 64; tail 1].

#[local] Ltac Zify.zify_post_hook ::= Z.to_euclidean_division_equations.

Lemma runeWidth_encode c k : scalar c -> runeWidth (utf8Encode c ++ k) = length (utf8Encode c).
Proof.
  unfold scalar, utf8Encode. intros Hc. cbv zeta. rewrite Z.div_1_r.
  destruct (Z.ltb_spec c 0x80); [|destruct (Z.ltb_spec c 0x800); [|destruct (Z.ltb_spec c 0x10000)]];
    cbn [app runeWidth length].
  - assert (within 0 0x7f c = true) as -> by (unfold within; lia). done.
  - assert (within 0 0x7f (0xc0 + c / 64) = false) as -> by (unfold within; lia).
    assert (within 0xc2 0xdf (0xc0 + c / 64) = true) as -> by (unfold within; lia).
    assert (within 0x80 0xbf (0x80 + c mod 64) = true) as -> by (unfold within; lia). done.
  - assert (within 0 0x7f (0xe0 + c / 4096) = false) as -> by (unfold within; lia).
    assert (within 0xc2 0xdf (0xe0 + c / 4096) = false) as -> by (unfold within; lia).
    assert (within 0xe0 0xef (0xe0 + c / 4096) = true) as -> by (unfold within; lia).
    assert (within 0x80 0xbf (0x80 + c mod 64) = true) as -> by (unfold within; lia). rewrite andb_true_r.
    match goal with |- (if ?b then _ else _) = _ => assert (b = true) as ->; [|done] end.
    unfold within. destruct (Z.eqb_spec (0xe0 + c / 4096) 0xe0), (Z.eqb_spec (0xe0 + c / 4096) 0xed); lia.
  - assert (within 0 0x7f (0xf0 + c / 262144) = false) as -> by (unfold within; lia).
    assert (within 0xc2 0xdf (0xf0 + c / 262144) = false) as -> by (unfold within; lia).
    assert (within 0xe0 0xef (0xf0 + c / 262144) = false) as -> by (unfold within; lia).
    assert (within 0xf0 0xf4 (0xf0 + c / 262144) = true) as -> by (unfold within; lia).
    assert (within 0x80 0xbf (0x80 + c mod 64) = true) as -> by (unfold within; lia).
    assert (within 0x80 0xbf (0x80 + (c / 64) mod 64) = true) as -> by (unfold within; lia).
    rewrite !andb_true_r, andb_true_l.
    match goal with |- (if ?b then _ else _) = _ => assert (b = true) as ->; [|done] end.
    unfold within. destruct (Z.eqb_spec (0xf0 + c / 262144) 0xf0), (Z.eqb_spec (0xf0 + c / 262144) 0xf4); lia.
Qed.

(** What [runeWidth] accepts is an encoded scalar value. *)
Lemma runeWidth_scalar l : runeWidth l <> O -> exists c k, scalar c /\ l = utf8Encode c ++ k.
Proof.
  unfold runeWidth. destruct l as [|b l]; [done|].
  destruct (within 0 0x7f b) eqn:E1.
  { intros _. exists b, l. unfold within in E1. split; [unfold scalar; lia|]. unfold utf8Encode.
    by assert ((b <? 0x80) = true) as -> by lia. }
  destruct l as [|x l]; [done|]. destruct (within 0xc2 0xdf b) eqn:E2.
  { destruct (within 0x80 0xbf x) eqn:E3; [|done]. intros _. unfold within in *.
    exists ((b - 0xc0) * 64 + (x - 0x80)), l. split; [unfold scalar; lia|]. unfold utf8Encode.
    assert (((b - 0xc0) * 64 + (x - 0x80) <? 0x80) = false) as -> by lia.
    assert (((b - 0xc0) * 64 + (x - 0x80) <? 0x800) = true) as -> by lia.
    cbn [app]. rewrite Z.div_1_r. f_equal; [lia|]. f_equal; lia. }
  destruct l as [|y l]; [done|]. destruct (within 0xe0 0xef b) eqn:E3.
  { destruct (_ && _) eqn:E4; [|done]. intros _. unfold within in *.
    set (c := (b - 0xe0) * 4096 + (x - 0x80) * 64 + (y - 0x80)).
    assert (0x800 <= c < 0xd800 \/ 0xe000 <= c < 0x10000) as Hc.
    { subst c. destruct (Z.eqb_spec b 0xe0), (Z.eqb_spec b 0xed); lia. }
    assert (0x80 <= x <= 0xbf) as Hx by (destruct (Z.eqb_spec b 0xe0), (Z.eqb_spec b 0xed); lia).
    assert (0x80 <= y <= 0xbf) as Hy by lia.
    exists c, l. split; [unfold scalar; lia|]. unfold utf8Encode.
    assert ((c <? 0x80) = false) as -> by lia. assert ((c <? 0x800) = false) as -> by lia.
    assert ((c <? 0x10000) = true) as -> by lia. cbn [app]. rewrite Z.div_1_r. subst c.
    f_equal; [lia|]. f_equal; [lia|]. f_equal; lia. }
  destruct l as [|z l]; [done|]. destruct (_ && _) eqn:E4; [|done]. intros _. unfold within in *.
  set (c := (b - 0xf0) * 262144 + (x - 0x80) * 4096 + (y - 0x80) * 64 + (z - 0x80)).
  assert (0x10000 <= c <= 0x10ffff) as Hc.
  { subst c. destruct (Z.eqb_spec b 0xf0), (Z.eqb_spec b 0xf4); lia. }
  assert (0x80 <= x <= 0xbf) as Hx by (destruct (Z.eqb_spec b 0xf0), (Z.eqb_spec b 0xf4); lia).
  assert (0x80 <= y <= 0xbf /\ 0x80 <= z <= 0xbf) as [Hy Hz] by lia.
  exists c, l. split; [unfold scalar; lia|]. unfold utf8Encode.
  assert ((c <? 0x80) = false) as -> by lia. assert ((c <? 0x800) = false) as -> by lia.
  assert ((c <? 0x10000) = false) as -> by lia. cbn [app]. rewrite Z.div_1_r. subst c.
  f_equal; [lia|]. f_equal; [lia|]. f_equal; [lia|]. f_equal; lia.
Qed.

(** [strings.ToValidUTF8] by the definition of UTF-8: every encoded scalar value
    stays, every maximal run of other bytes becomes one replacement. *)
Inductive sanitized (replacement : bytes) : bool -> bytes -> bytes -> Prop :=
| SanEnd inRun : sanitized replacement inRun [] []
| SanRune inRun c l t : scalar c -> sanitized replacement false l t ->
    sanitized replacement inRun (utf8Encode c ++ l) (utf8Encode c ++ t)
| SanInvalid inRun b l t : (forall c k, scalar c -> b :: l <> utf8Encode c ++ k) -> sanitized replacement true l t ->
    sanitized replacement inRun (b :: l) ((if inRun then [] else replacement) ++ t).

Lemma encode_nonempty c : utf8Encode c <> [].
Proof. unfold utf8Encode. repeat case_match; done. Qed.

Lemma toValid_sanitized replacement fuel l inRun :
  (length l <= fuel)%nat -> sanitized replacement inRun l (toValid fuel replacement l inRun).
Proof.
  revert l inRun. induction fuel as [|fuel IH]; intros l inRun Hf; [destruct l; [constructor|simpl in Hf; lia]|].
  cbn [toValid]. destruct l as [|b l]; [constructor|]. destruct (runeWidth (b :: l)) as [|w] eqn:E.
  - constructor; [|apply IH; simpl in Hf; lia]. intros c k Hc Heq. rewrite Heq in E.
    rewrite runeWidth_encode in E by done. by apply length_zero_iff_nil, encode_nonempty in E.
  - destruct (runeWidth_scalar (b :: l)) as (c & k & Hc & Hl); [congruence|]. rewrite Hl in *.
    rewrite runeWidth_encode in E by done. rewrite <- E, take_app_length, drop_app_length.
    apply SanRune; [done|]. apply IH. rewrite length_app in Hf. lia.
Qed.
