(* ===== verification/Framing.v ===== *)
(** * Length-prefixed frames

    The four-byte big-endian length of [encoding/binary] that the handoff
    transport and the renderer workers put before each JSON message. *)

From S2P Require Import Prelude.
Local Open Scope Z_scope.

Abbreviation two32 := 4294967296%Z.

(** [binary.BigEndian.PutUint32]. *)
Definition PutUint32 (v : Z) : bytes :=
  [(v / 16777216) mod 256; (v / 65536) mod 256; (v / 256) mod 256; v mod 256].

(** [binary.BigEndian.Uint32]. *)
Definition Uint32 (b : bytes) : Z :=
  match b with
  | b0 :: b1 :: b2 :: b3 :: _ => b0 * 16777216 + b1 * 65536 + b2 * 256 + b3
  | _ => 0
  end.

Definition is_byte (b : Z) : Prop := 0 <= b < 256.

Lemma Uint32_PutUint32 v : 0 <= v < two32 -> Uint32 (PutUint32 v) = v.
Proof. intros H. unfold Uint32, PutUint32. Z.to_euclidean_division_equations. lia. Qed.

Lemma PutUint32_length v : length (PutUint32 v) = 4%nat.
Proof. reflexivity. Qed.

Lemma PutUint32_bytes v : Forall is_byte (PutUint32 v).
Proof. repeat constructor; unfold is_byte; apply Z.mod_pos_bound; lia. Qed.

Lemma Uint32_range b : Forall is_byte b -> 0 <= Uint32 b < two32.
Proof.
  unfold is_byte. intros H. destruct b as [|b0 [|b1 [|b2 [|b3 b]]]]; simpl; try lia.
  do 4 (inversion H as [|? ? ? H']; clear H; rename H' into H; subst). lia.
Qed.
