(* ===== verification/Handoff.v ===== *)
(** * The handoff transport

    [internal/codelima/daemon/handoff_transport.go]: JSON messages over a Unix
    socket between a running daemon and its successor, with terminal
    descriptors in the ancillary data.  A connection is what the kernel will
    still deliver ([incoming]: segments cut at arbitrary places, each with its
    control data, or a failure), what has been sent ([outgoing]), what each of
    the following writes accepts ([writes]) and the ledger of descriptors this
    process has closed.  A descriptor stands for the open file it refers to.

    The control messages of golang.org/x/sys/unix and the JSON coder are
    arguments; what the code relies on of them is stated by the classes
    [SocketRights] and [JSONCoder]. *)

From S2P Require Import Prelude Framing.
Local Open Scope Z_scope.

(** ** Data *)

Definition MaxMessageSize : Z := 1048576.
Definition MaxHandoffFDsPerFrame : Z := 64.
Definition MaxHandoffReplayBytesPerTerminal : Z := 1048576.
Definition MaxHandoffReplayChunkBytes : Z := MaxMessageSize / 2.
Definition MaxHandoffTotalReplayBytes : Z := MaxHandoffFDsPerFrame * MaxHandoffReplayBytesPerTerminal.
Definition MaxHandoffRecoveryBytesPerTerminal : Z := 25165824.
Definition MaxHandoffTotalRecoveryBytes : Z := 67108864.
Definition MaxHandoffActivityBytes : Z := 8388608.

Definition HandoffVersion : Z := 7.
Definition PreviousActivityHandoffVersion : Z := 6.
Definition PreviousRecoveryHandoffVersion : Z := 5.
Definition PreviousChunkedHandoffVersion : Z := 4.
Definition PreviousStreamHandoffVersion : Z := 3.
Definition LegacyHandoffVersion : Z := 2.

Inductive HandoffFraming := HandoffFramingLegacyPacket | HandoffFramingLengthPrefixed.

Record HandoffMessage := {
  Type_ : string;
  Token : string;
  TerminalIDs : list string;
  TerminalID : string;
  Offset : Z;
  Replay : bytes;
  PID : Z;
  Error_ : string;
}.

(** The fields a keyed literal leaves out. *)
Definition zeroMessage : HandoffMessage := {|
  Type_ := ""; Token := ""; TerminalIDs := []; TerminalID := ""; Offset := 0;
  Replay := []; PID := 0; Error_ := "" |}.

Record HandoffRuntime := {
  hr_TerminalID : string;
  ChildPID : Z;
  Cols : Z;
  Rows : Z;
  hr_Replay : bytes;
  ReplaySize : Z;
  ReplayPartial : bool;
  Recovery : bytes;
  RecoverySize : Z;
}.

(** [Session] carries the tabs; the transport does not look into them. *)
Record Session {T : Type} := { s_Version : Z; Terminals : list T }.
Arguments Session : clear implicits.

Record HandoffManifest {T : Type} := {
  ActivitySize : Z;
  Activity : bytes;
  Version : Z;
  BinaryVersion : string;
  hm_Token : string;
  Session_ : Session T;
  Runtimes : list HandoffRuntime;
}.
Arguments HandoffManifest : clear implicits.

(** ** The socket *)

Record segment := { seg_data : bytes; seg_oob : bytes; seg_trunc : bool }.

Inductive arrival :=
| Arrive (s : segment)
| Broken (e : go_error).

(** What a write does: the number of bytes it takes, or its error. *)
Inductive write_outcome :=
| Accepts (n : nat)
| Refused (e : go_error).

Record HandoffConnection := {
  Framing : HandoffFraming;
  incoming : list arrival;
  outgoing : list segment;
  writes : nat -> write_outcome;
  closed : list Z;
}.

Definition set_incoming w c := {| Framing := Framing c; incoming := w; outgoing := outgoing c; writes := writes c; closed := closed c |}.
Definition set_closed l c := {| Framing := Framing c; incoming := incoming c; outgoing := outgoing c; writes := writes c; closed := l |}.
Definition set_sent o w c := {| Framing := Framing c; incoming := incoming c; outgoing := o; writes := w; closed := closed c |}.

(** The methods: what they return and the connection they leave. *)
Definition IO (A : Type) : Type := HandoffConnection -> result A * HandoffConnection.

#[export] Instance io_ret : MRet IO := fun A a c => (Ok a, c).
#[export] Instance io_bind : MBind IO := fun A B f m c =>
  match m c with (Ok a, c') => f a c' | (Err e, c') => (Err e, c') end.
Definition fail {A} (e : go_error) : IO A := fun c => (Err e, c).

(** [CloseHandoffFDs] *)
Definition CloseHandoffFDs (fds : list Z) : IO unit :=
  fun c => (Ok tt, set_closed (closed c ++ fds) c).

(** Close the descriptors and return the error. *)
Definition reject {A} (fds : list Z) (e : go_error) : IO A := CloseHandoffFDs fds ≫= fun _ => fail e.

(** [if err != nil { CloseHandoffFDs(fds); return err }] after a call. *)
Definition closing {A} (fds : list Z) (m : IO A) : IO A := fun c =>
  match m c with
  | (Err e, c') => reject fds e c'
  | (Ok a, c') => (Ok a, c')
  end.

Definition timeoutError : go_error := ENew "i/o timeout".
Definition ErrUnexpectedEOF : go_error := ENew "unexpected EOF".
Definition ErrShortWrite : go_error := ENew "short write".

(** [ReadMsgUnix] on a stream: at most [limit] bytes of the next segment, the
    rest of which stays without its control data. *)
Definition ReadMsgUnix (limit : nat) : IO segment := fun c =>
  match incoming c with
  | [] => (Err timeoutError, c)
  | Broken e :: _ => (Err e, c)
  | Arrive s :: w =>
      let rest := drop limit (seg_data s) in
      (Ok {| seg_data := take limit (seg_data s); seg_oob := seg_oob s; seg_trunc := seg_trunc s |},
       set_incoming
         (match rest with [] => w | _ => Arrive {| seg_data := rest; seg_oob := []; seg_trunc := false |} :: w end) c)
  end.

(** [ReadMsgUnix] on a packet socket: one packet, cut to the buffer. *)
Definition ReadPacket (limit : Z) : IO segment := fun c =>
  match incoming c with
  | [] => (Err timeoutError, c)
  | Broken e :: _ => (Err e, c)
  | Arrive s :: w =>
      (Ok {| seg_data := take (Z.to_nat limit) (seg_data s); seg_oob := seg_oob s;
             seg_trunc := seg_trunc s || (limit <? zlen (seg_data s)) |},
       set_incoming w c)
  end.

(** A write of a non-empty buffer takes at least one byte or fails; its control
    data travels with the first byte. *)
Definition WriteMsgUnix (payload oob : bytes) : IO nat := fun c =>
  let ws i := writes c (S i) in
  match writes c O with
  | Refused e => (Err e, set_sent (outgoing c) ws c)
  | Accepts k =>
      let n := Nat.min (length payload) (Nat.max 1 k) in
      (Ok n, set_sent (outgoing c ++ [{| seg_data := take n payload; seg_oob := oob; seg_trunc := false |}]) ws c)
  end.

Definition Write (payload : bytes) : IO nat := WriteMsgUnix payload [].

(** ** Interfaces *)

(** golang.org/x/sys/unix's socket control messages. *)
Class SocketRights := {
  cmsg : Type;
  ParseSocketControlMessage : bytes -> result (list cmsg);
  ParseUnixRights : cmsg -> result (list Z);
  UnixRights : list Z -> bytes;
}.

(** What is sent with [UnixRights] is one message that parses back. *)
Class SocketRightsLaws (R : SocketRights) := {
  UnixRights_nonempty fds : UnixRights fds <> [];
  UnixRights_parse fds : exists m,
    ParseSocketControlMessage (UnixRights fds) = Ok [m] /\ ParseUnixRights m = Ok fds;
}.

(** [json.Marshal] and [json.Unmarshal] at a type. *)
Class JSON (A : Type) := {
  Marshal : A -> result bytes;
  Unmarshal : bytes -> result A;
}.

(** ** Ancillary data *)

Section Transport.
Context {R : SocketRights}.

(** The loop of [parseHandoffFDs]. *)
Fixpoint parseRights (fds : list Z) (messages : list cmsg) : IO (list Z) :=
  match messages with
  | [] => mret fds
  | message :: messages =>
      match ParseUnixRights message with
      | Err e => reject fds e
      | Ok values => parseRights (fds ++ values) messages
      end
  end.

Definition parseHandoffFDs (oob : bytes) : IO (list Z) :=
  match oob with
  | [] => mret []
  | _ =>
      match ParseSocketControlMessage oob with
      | Err e => fail e
      | Ok messages => parseRights [] messages
      end
  end.

(** ** Reading *)

(** The body of [readExact]'s loop, with [want] bytes of the target still to be
    filled.  Every turn that goes on fills at least one. *)
Fixpoint readExactLoop (fuel want : nat) (data : bytes) (fds : list Z) : IO (bytes * list Z) :=
  match want with
  | O => mret (data, fds)
  | _ =>
    match fuel with
    | O => fail ErrUnexpectedEOF
    | S fuel =>
        s ← closing fds (ReadMsgUnix want);
        values ← closing fds (parseHandoffFDs (seg_oob s));
        if seg_trunc s then
          _ ← CloseHandoffFDs values;
          reject fds (ENew "truncated handoff stream frame")
        else
          match length (seg_data s) with
          | O => reject (fds ++ values) ErrUnexpectedEOF
          | n => readExactLoop fuel (want - n) (data ++ seg_data s) (fds ++ values)
          end
    end
  end.

Definition readExact (size : nat) : IO (bytes * list Z) := readExactLoop size size [] [].

Definition readPayload : IO (bytes * list Z) := fun c =>
  match Framing c with
  | HandoffFramingLegacyPacket =>
      (s ← ReadPacket MaxMessageSize;
       fds ← parseHandoffFDs (seg_oob s);
       if seg_trunc s then reject fds (ENew "truncated legacy handoff packet")
       else mret (seg_data s, fds)) c
  | HandoffFramingLengthPrefixed =>
      ('(header, fds) ← readExact 4;
       let size := Uint32 header in
       if (size =? 0) || (MaxMessageSize <? size) then
         reject fds (EFormat "invalid handoff frame size %d" [size])
       else
         '(data, bodyFDs) ← closing fds (readExact (Z.to_nat size));
         mret (data, fds ++ bodyFDs)) c
  end.

Section Messages.
Context `{JSON HandoffMessage} {T : Type} `{JSON (HandoffManifest T)}.

Definition ReadMessage : IO (HandoffMessage * list Z) :=
  '(data, fds) ← readPayload;
  match Unmarshal data with
  | Err e => reject fds e
  | Ok message => mret (message, fds)
  end.

Definition ReadControlMessage : IO HandoffMessage :=
  '(message, fds) ← ReadMessage;
  match fds with
  | [] => mret message
  | _ => reject fds (ENew "handoff control message unexpectedly carried descriptors")
  end.

Definition ReadManifest : IO (HandoffManifest T) :=
  '(data, fds) ← readPayload;
  match fds with
  | [] => match Unmarshal data with Err e => fail e | Ok manifest => mret manifest end
  | _ => reject fds (ENew "handoff manifest unexpectedly carried descriptors")
  end.

(** ** Writing *)

(** The loop after the first write: [rest] is [payload[n:]]. *)
Fixpoint writeRest (fuel : nat) (rest : bytes) : IO unit :=
  match rest with
  | [] => mret tt
  | _ =>
    match fuel with
    | O => fail ErrShortWrite
    | S fuel =>
        written ← Write rest;
        match written with
        | O => fail ErrShortWrite
        | _ => writeRest fuel (drop written rest)
        end
    end
  end.

Definition WriteJSON {A} `{JSON A} (value : A) (fds : list Z) : IO unit := fun c =>
  match Marshal value with
  | Err e => (Err e, c)
  | Ok data =>
    if (zlen data =? 0) || (MaxMessageSize <? zlen data) then
      (Err (EFormat "handoff message size %d is outside 1..%d" [zlen data; MaxMessageSize]), c)
    else
      let payload :=
        match Framing c with
        | HandoffFramingLengthPrefixed => PutUint32 (zlen data) ++ data
        | HandoffFramingLegacyPacket => data
        end in
      let rights := match fds with [] => [] | _ => UnixRights fds end in
      (n ← WriteMsgUnix payload rights;
       match Framing c with
       | HandoffFramingLegacyPacket =>
           if (n =? length payload)%nat then mret tt else fail ErrShortWrite
       | HandoffFramingLengthPrefixed => writeRest (length payload) (drop n payload)
       end) c
  end.

(** ** Blobs in chunks *)

Definition chunkMessage (kind terminalID : string) (offset : Z) (chunk : bytes) : HandoffMessage :=
  {| Type_ := kind; Token := ""; TerminalIDs := []; TerminalID := terminalID; Offset := offset;
     Replay := chunk; PID := 0; Error_ := "" |}.

(** [replay[offset:end]] and [replay[end:]] of [replay[offset:]]. *)
Definition chunk (rest : bytes) : bytes := take (Z.to_nat MaxHandoffReplayChunkBytes) rest.
Definition unchunk (rest : bytes) : bytes := drop (Z.to_nat MaxHandoffReplayChunkBytes) rest.

(** The loop over the chunks: [rest] is [replay[offset:]]. *)
Fixpoint writeChunks (fuel : nat) (kind terminalID : string) (offset : Z) (rest : bytes) : IO unit :=
  match rest with
  | [] => mret tt
  | _ =>
    match fuel with
    | O => fail ErrShortWrite
    | S fuel =>
        _ ← WriteJSON (chunkMessage kind terminalID offset (chunk rest)) [];
        writeChunks fuel kind terminalID (offset + MaxHandoffReplayChunkBytes) (unchunk rest)
    end
  end.

Definition writeHandoffBlob (kind terminalID : string) (replay : bytes) (limit : Z) : IO unit :=
  if (terminalID =? "")%string then fail (ENew "handoff replay requires a terminal id")
  else if limit <? zlen replay then
    fail (EFormat "handoff replay is %d bytes, limit is %d" [zlen replay; limit])
  else writeChunks (length replay) kind terminalID 0 replay.

(** The test of a received chunk. *)
Definition chunkInvalid (kind terminalID : string) (size : Z) (replay : bytes) (m : HandoffMessage) : bool :=
  negb (Type_ m =? kind)%string || negb (TerminalID m =? terminalID)%string
  || negb (Offset m =? zlen replay) || (zlen (Replay m) =? 0)
  || (MaxHandoffReplayChunkBytes <? zlen (Replay m))
  || (size <? zlen replay + zlen (Replay m)).

Fixpoint readChunks (fuel : nat) (kind terminalID : string) (size : Z) (replay : bytes) : IO bytes :=
  if size <=? zlen replay then mret replay else
  match fuel with
  | O => fail ErrUnexpectedEOF
  | S fuel =>
      '(message, fds) ← ReadMessage;
      match fds with
      | [] =>
          if chunkInvalid kind terminalID size replay message
          then fail (EFormat "invalid handoff replay chunk at offset %d" [zlen replay])
          else readChunks fuel kind terminalID size (replay ++ Replay message)
      | _ => reject fds (ENew "handoff replay unexpectedly carried descriptors")
      end
  end.

Definition readHandoffBlob (kind terminalID : string) (size limit : Z) : IO bytes :=
  if (terminalID =? "")%string then fail (ENew "handoff replay requires a terminal id")
  else if (size <? 0) || (limit <? size) then
    fail (EFormat "handoff replay size is %d, limit is %d" [size; limit])
  else readChunks (Z.to_nat size) kind terminalID size [].

Definition WriteActivity (data : bytes) : IO unit :=
  writeHandoffBlob "activity" "native-activity" data MaxHandoffActivityBytes.
Definition ReadActivity (size : Z) : IO bytes :=
  readHandoffBlob "activity" "native-activity" size MaxHandoffActivityBytes.
Definition WriteReplay (terminalID : string) (replay : bytes) : IO unit :=
  writeHandoffBlob "replay" terminalID replay MaxHandoffReplayBytesPerTerminal.
Definition ReadReplay (terminalID : string) (size : Z) : IO bytes :=
  readHandoffBlob "replay" terminalID size MaxHandoffReplayBytesPerTerminal.
Definition WriteRecovery (terminalID : string) (recovery : bytes) : IO unit :=
  writeHandoffBlob "recovery" terminalID recovery MaxHandoffRecoveryBytesPerTerminal.
Definition ReadRecovery (terminalID : string) (size : Z) : IO bytes :=
  readHandoffBlob "recovery" terminalID size MaxHandoffRecoveryBytesPerTerminal.

End Messages.
End Transport.

(** ** The declared sizes *)

Fixpoint validateRecovery (version total : Z) (runtimes : list HandoffRuntime) : result unit :=
  match runtimes with
  | [] => Ok tt
  | runtime :: runtimes =>
      if (RecoverySize runtime <? 0) || (MaxHandoffRecoveryBytesPerTerminal <? RecoverySize runtime) then
        Err (ENew "handoff terminal recovery size is invalid")
      else if (version <? PreviousRecoveryHandoffVersion) && negb (RecoverySize runtime =? 0) then
        Err (ENew "legacy handoff contains recovery payload")
      else if MaxHandoffTotalRecoveryBytes - total <? RecoverySize runtime then
        Err (ENew "handoff aggregate recovery exceeds size bound")
      else validateRecovery version (total + RecoverySize runtime) runtimes
  end.

Definition ValidateHandoffRecoverySizes {T} (manifest : HandoffManifest T) : result unit :=
  validateRecovery (Version manifest) 0 (Runtimes manifest).

Definition ValidateHandoffActivitySize {T} (manifest : HandoffManifest T) : result unit :=
  if Version manifest <? PreviousActivityHandoffVersion then
    if negb (ActivitySize manifest =? 0) then Err (ENew "legacy handoff contains Activity payload")
    else Ok tt
  else if (ActivitySize manifest <=? 0) || (MaxHandoffActivityBytes <? ActivitySize manifest) then
    Err (ENew "handoff Activity size is invalid")
  else Ok tt.
