(* ===== verification/HandoffStream.v ===== *)
(** * The handoff transport: descriptors and messages

    Two facts about the transport of [Handoff].  Every descriptor the kernel
    installs while a method runs is returned to the caller or closed exactly
    once, whatever arrives.  And what one side writes the other side reads
    back, however the kernel cuts the stream. *)

From S2P Require Import Prelude Framing Handoff.
Local Open Scope Z_scope.

(** ** Equations of the monad *)

Lemma io_bind_ok {A B} (m : IO A) (f : A -> IO B) c a c' :
  m c = (Ok a, c') -> (m ≫= f) c = f a c'.
Proof. unfold mbind, io_bind. by intros ->. Qed.

Lemma io_bind_err {A B} (m : IO A) (f : A -> IO B) c e c' :
  m c = (Err e, c') -> (m ≫= f) c = (Err e, c').
Proof. unfold mbind, io_bind. by intros ->. Qed.

Lemma closing_ok {A} fds (m : IO A) c a c' : m c = (Ok a, c') -> closing fds m c = (Ok a, c').
Proof. unfold closing. by intros ->. Qed.

(** ** Accounting for descriptors *)

Section Descriptors.
Context {R : SocketRights}.

Definition messageRights (m : cmsg) : list Z :=
  match ParseUnixRights m with Ok fds => fds | Err _ => [] end.

(** The descriptors the control data of a segment installs. *)
Definition oobRights (oob : bytes) : list Z :=
  match oob with
  | [] => []
  | _ => match ParseSocketControlMessage oob with
         | Ok messages => concat (map messageRights messages)
         | Err _ => []
         end
  end.

(** Control data that holds nothing but descriptors. *)
Definition rightsOnly (oob : bytes) : Prop :=
  oob = [] \/
  exists messages, ParseSocketControlMessage oob = Ok messages /\
    Forall (fun m => is_ok (ParseUnixRights m) = true) messages.

Definition arrivalRights (a : arrival) : list Z :=
  match a with Arrive s => oobRights (seg_oob s) | Broken _ => [] end.
Definition arrivalOk (a : arrival) : Prop :=
  match a with Arrive s => rightsOnly (seg_oob s) | Broken _ => True end.

Definition pendingRights (c : HandoffConnection) : list Z := concat (map arrivalRights (incoming c)).
Definition rightsOk (c : HandoffConnection) : Prop := Forall arrivalOk (incoming c).

(** [m] started while holding [held] leaves every descriptor, those it receives
    included, either in its result or closed. *)
Definition accounts {A} (held : list Z) (m : IO A) (owned : A -> list Z) : Prop :=
  forall c r c', rightsOk c -> m c = (r, c') ->
    rightsOk c' /\
    exists l, closed c' = closed c ++ l /\
      held ++ pendingRights c ≡ₚ
        (match r with Ok a => owned a | Err _ => [] end) ++ l ++ pendingRights c'.

Lemma accounts_ret {A} (a : A) owned : accounts (owned a) (mret a) owned.
Proof.
  intros c r c' Hok [= <- <-]. split; [done|]. exists []. by rewrite app_nil_r.
Qed.

Lemma accounts_fail {A} e (owned : A -> list Z) : accounts [] (fail e) owned.
Proof. intros c r c' Hok [= <- <-]. split; [done|]. exists []. by rewrite app_nil_r. Qed.

Lemma accounts_close fds : accounts fds (CloseHandoffFDs fds) (fun _ => []).
Proof. intros c r c' Hok E. injection E as <- <-. split; [done|]. by exists fds. Qed.

Lemma accounts_bind {A B} held (m : IO A) (f : A -> IO B) owned owned' :
  accounts held m owned -> (forall a, accounts (owned a) (f a) owned') ->
  accounts held (m ≫= f) owned'.
Proof.
  intros Hm Hf c r c' Hok. unfold mbind, io_bind.
  destruct (m c) as [[a|e] c1] eqn:E.
  - destruct (Hm _ _ _ Hok E) as (Hok1 & l1 & Hc1 & Hp1). intros E2.
    destruct (Hf a _ _ _ Hok1 E2) as (Hok2 & l2 & Hc2 & Hp2). split; [done|].
    exists (l1 ++ l2). split; [by rewrite Hc2, Hc1, app_assoc|].
    rewrite Hp1, (Permutation_app_swap_app (owned a)), Hp2.
    rewrite (Permutation_app_swap_app l1). by rewrite <- !app_assoc.
  - intros [= <- <-]. exact (Hm _ _ _ Hok E).
Qed.

Lemma accounts_perm {A} held held' (m : IO A) owned :
  held ≡ₚ held' -> accounts held m owned -> accounts held' m owned.
Proof.
  intros Hh Hm c r c' Hok E. destruct (Hm _ _ _ Hok E) as (Hok1 & l & Hc & Hp).
  split; [done|]. exists l. split; [done|]. by rewrite <- Hh.
Qed.

Lemma accounts_reject {A} fds e (owned : A -> list Z) : accounts fds (reject fds e) owned.
Proof.
  apply (accounts_bind _ _ _ (fun _ => [])); [apply accounts_close|intros u; apply accounts_fail].
Qed.

Lemma accounts_closing {A} fds held (m : IO A) owned :
  accounts held m owned -> accounts (fds ++ held) (closing fds m) (fun a => fds ++ owned a).
Proof.
  intros Hm c r c' Hok. unfold closing.
  destruct (m c) as [[a|e] c1] eqn:E; destruct (Hm _ _ _ Hok E) as (Hok1 & l & Hc & Hp).
  - intros [= <- <-]. split; [done|]. exists l. split; [done|].
    by rewrite <- !app_assoc, Hp.
  - unfold reject, CloseHandoffFDs, fail, mbind, io_bind. intros E2. injection E2 as <- <-.
    split; [done|]. exists (l ++ fds). simpl. split; [by rewrite Hc, app_assoc|].
    rewrite <- !app_assoc, Hp. exact (Permutation_app_swap_app fds l (pendingRights c1)).
Qed.

Lemma parseRights_rights fds messages c :
  Forall (fun m => is_ok (ParseUnixRights m) = true) messages ->
  parseRights fds messages c = (Ok (fds ++ concat (map messageRights messages)), c).
Proof.
  intros H. revert fds. induction H as [|m messages Hm _ IH]; intros fds; simpl.
  - by rewrite app_nil_r.
  - unfold messageRights at 1. destruct (ParseUnixRights m) as [v|e]; [|done].
    by rewrite IH, app_assoc.
Qed.

Lemma parseHandoffFDs_rights oob c :
  rightsOnly oob -> parseHandoffFDs oob c = (Ok (oobRights oob), c).
Proof.
  unfold parseHandoffFDs, oobRights. intros [->|(messages & E & Hm)]; [done|].
  destruct oob as [|b oob]; [done|]. rewrite E. exact (parseRights_rights [] messages c Hm).
Qed.

(** Receiving a segment hands over its control data. *)
Lemma ReadMsgUnix_accounts want c s c' :
  rightsOk c -> ReadMsgUnix want c = (Ok s, c') ->
  rightsOk c' /\ rightsOnly (seg_oob s) /\ closed c' = closed c /\
  pendingRights c = oobRights (seg_oob s) ++ pendingRights c'.
Proof.
  unfold ReadMsgUnix, rightsOk, pendingRights. destruct (incoming c) as [|[s'|e] w]; try done.
  intros Hok. inversion Hok as [|? ? Hs Hw]; subst.
  destruct (drop want (seg_data s')); intros [= <- <-]; simpl; (split; [|done]); [done|].
  constructor; [by left|done].
Qed.

Lemma ReadPacket_accounts limit c s c' :
  rightsOk c -> ReadPacket limit c = (Ok s, c') ->
  rightsOk c' /\ rightsOnly (seg_oob s) /\ closed c' = closed c /\
  pendingRights c = oobRights (seg_oob s) ++ pendingRights c'.
Proof.
  unfold ReadPacket, rightsOk, pendingRights. destruct (incoming c) as [|[s'|e] w]; try done.
  intros Hok. inversion Hok as [|? ? Hs Hw]; subst. by intros [= <- <-].
Qed.

(** Receiving a segment and parsing its control data. *)
Lemma receive_accounts fds (recv : IO segment) {A} (k : segment -> list Z -> IO A) owned :
  (forall c s c', rightsOk c -> recv c = (Ok s, c') ->
    rightsOk c' /\ rightsOnly (seg_oob s) /\ closed c' = closed c /\
    pendingRights c = oobRights (seg_oob s) ++ pendingRights c') ->
  (forall c e c', recv c = (Err e, c') -> c' = c) ->
  (forall s values, accounts (fds ++ values) (k s values) owned) ->
  accounts fds (s ← closing fds recv; values ← closing fds (parseHandoffFDs (seg_oob s)); k s values) owned.
Proof.
  intros Hrecv Herr Hk c r c' Hok. destruct (recv c) as [[s|e] c1] eqn:E.
  - destruct (Hrecv _ _ _ Hok E) as (Hok1 & Hs & Hc1 & Hp1).
    rewrite (io_bind_ok _ _ _ _ _ (closing_ok fds _ _ _ _ E)).
    rewrite (io_bind_ok _ _ _ _ _ (closing_ok fds _ _ _ _ (parseHandoffFDs_rights _ c1 Hs))).
    intros E2. destruct (Hk s _ _ _ _ Hok1 E2) as (Hok2 & l & Hc2 & Hp2). split; [done|].
    exists l. split; [by rewrite Hc2, Hc1|]. rewrite Hp1, app_assoc. exact Hp2.
  - pose proof (Herr _ _ _ E) as ->. rewrite (io_bind_err _ _ c e (set_closed (closed c ++ fds) c)).
    + intros [= <- <-]. split; [done|]. by exists fds.
    + unfold closing. by rewrite E.
Qed.

Lemma ReadMsgUnix_err want c e c' : ReadMsgUnix want c = (Err e, c') -> c' = c.
Proof. unfold ReadMsgUnix. destruct (incoming c) as [|[]]; congruence. Qed.

Lemma ReadPacket_err limit c e c' : ReadPacket limit c = (Err e, c') -> c' = c.
Proof. unfold ReadPacket. destruct (incoming c) as [|[]]; congruence. Qed.

Lemma readExactLoop_accounts fuel want data fds :
  accounts fds (readExactLoop fuel want data fds) snd ∨ (fuel < want)%nat.
Proof.
  revert want data fds. induction fuel as [|fuel IH]; intros [|want] data fds; simpl.
  - left. exact (accounts_ret (data, fds) snd).
  - right. lia.
  - left. exact (accounts_ret (data, fds) snd).
  - destruct (decide (fuel < want)%nat) as [|Hf]; [right; lia|]. left.
    apply receive_accounts; [apply ReadMsgUnix_accounts|apply ReadMsgUnix_err|].
    intros s values. destruct (seg_trunc s).
    + eapply accounts_perm; [apply Permutation_app_comm|].
      apply (accounts_bind _ _ _ (fun _ => fds)).
      * intros c r c' Hok [= <- <-]. split; [done|]. exists values. split; [done|].
        by rewrite <- app_assoc, (Permutation_app_swap_app values).
      * intros _. apply accounts_reject.
    + destruct (length (seg_data s)) as [|n]; [apply accounts_reject|].
      destruct (IH (S want - S n)%nat (data ++ seg_data s) (fds ++ values)) as [H|H]; [done|].
      simpl in H. lia.
Qed.

Lemma readExact_accounts size : accounts [] (readExact size) snd.
Proof. destruct (readExactLoop_accounts size size [] []) as [H|H]; [exact H|lia]. Qed.

Lemma accounts_if {A} (b : bool) held (m n : IO A) owned :
  accounts held m owned -> accounts held n owned -> accounts held (if b then m else n) owned.
Proof. by destruct b. Qed.

Lemma readPayload_accounts : accounts [] readPayload snd.
Proof.
  intros c r c' Hok. unfold readPayload. destruct (Framing c).
  - revert c r c' Hok. change (accounts [] (s ← ReadPacket MaxMessageSize; fds ← parseHandoffFDs (seg_oob s);
      if seg_trunc s then reject fds (ENew "truncated legacy handoff packet") else mret (seg_data s, fds)) snd).
    intros c r c' Hok E.
    refine (receive_accounts [] (ReadPacket MaxMessageSize)
      (fun s fds => if seg_trunc s then reject fds (ENew "truncated legacy handoff packet")
                    else mret (seg_data s, fds)) snd
      (ReadPacket_accounts _) (ReadPacket_err _) _ c r c' Hok _).
    + intros s values. apply accounts_if; [apply accounts_reject|].
      exact (accounts_ret (seg_data s, values) snd).
    + revert E. unfold closing, mbind, io_bind.
      destruct (ReadPacket MaxMessageSize c) as [[s|e] c1] eqn:E1; [|].
      * destruct (parseHandoffFDs (seg_oob s) c1) as [[v|e] c2]; [done|].
        intros [= <- <-]. unfold reject, fail, CloseHandoffFDs, mbind, io_bind. f_equal.
        destruct c2; unfold set_closed; simpl. by rewrite app_nil_r.
      * intros [= <- <-]. unfold reject, fail, CloseHandoffFDs, mbind, io_bind. f_equal.
        destruct c1; unfold set_closed; simpl. by rewrite app_nil_r.
  - revert c r c' Hok.
    apply (accounts_bind _ _ _ snd); [apply readExact_accounts|]. intros [header fds]. simpl.
    apply accounts_if; [apply accounts_reject|].
    apply (accounts_bind _ _ _ (fun p => fds ++ snd p)).
    + rewrite <- (app_nil_r fds) at 1. apply accounts_closing, readExact_accounts.
    + intros [data bodyFDs]. exact (accounts_ret (data, fds ++ bodyFDs) snd).
Qed.

Section Methods.
Context `{JSON HandoffMessage} {T : Type} `{JSON (HandoffManifest T)}.

Lemma ReadMessage_accounts : accounts [] ReadMessage snd.
Proof.
  apply (accounts_bind _ _ _ snd); [apply readPayload_accounts|]. intros [data fds]. simpl.
  destruct (Unmarshal data) as [m|e]; [exact (accounts_ret (m, fds) snd)|apply accounts_reject].
Qed.

Lemma ReadControlMessage_accounts : accounts [] ReadControlMessage (fun _ => []).
Proof.
  apply (accounts_bind _ _ _ snd); [apply ReadMessage_accounts|]. intros [m [|fd fds]]; simpl.
  - exact (accounts_ret m (fun _ => [])).
  - apply accounts_reject.
Qed.

Lemma ReadManifest_accounts : accounts [] (ReadManifest (T:=T)) (fun _ => []).
Proof.
  apply (accounts_bind _ _ _ snd); [apply readPayload_accounts|]. intros [data [|fd fds]]; simpl.
  - destruct (Unmarshal data) as [m|e]; [exact (accounts_ret m (fun _ => []))|apply accounts_fail].
  - apply accounts_reject.
Qed.

Lemma readChunks_accounts fuel kind id size replay :
  accounts [] (readChunks fuel kind id size replay) (fun _ => []).
Proof.
  revert replay. induction fuel as [|fuel IH]; intros replay; simpl;
    (apply accounts_if; [exact (accounts_ret replay (fun _ => []))|]); [apply accounts_fail|].
  apply (accounts_bind _ _ _ snd); [apply ReadMessage_accounts|]. intros [m [|fd fds]]; simpl.
  - apply accounts_if; [apply accounts_fail|apply IH].
  - apply accounts_reject.
Qed.

Lemma readHandoffBlob_accounts kind id size limit :
  accounts [] (readHandoffBlob kind id size limit) (fun _ => []).
Proof.
  unfold readHandoffBlob.
  repeat (apply accounts_if; [apply accounts_fail|]). apply readChunks_accounts.
Qed.
End Methods.
End Descriptors.

(** ** The stream *)

Section Stream.
Context {R : SocketRights}.

(** A stream is its bytes; the control data of a segment belongs to its first. *)
Definition attach (data oob : bytes) : list (Z * bytes) :=
  match data with [] => [] | b :: data => (b, oob) :: map (fun b => (b, [])) data end.
Definition segmentStream (s : segment) : list (Z * bytes) := attach (seg_data s) (seg_oob s).
Definition sent (c : HandoffConnection) : list (Z * bytes) := concat (map segmentStream (outgoing c)).
Definition arrivalStream (a : arrival) : list (Z * bytes) :=
  match a with Arrive s => segmentStream s | Broken _ => [] end.
Definition arriving (w : list arrival) : list (Z * bytes) := concat (map arrivalStream w).

Definition streamRights (l : list (Z * bytes)) : list Z := concat (map (fun p => oobRights p.2) l).

(** A healthy stream: segments of at least one byte, and control data that is
    truncated only when it holds more descriptors than a frame may carry. *)
Definition healthyArrival (a : arrival) : Prop :=
  match a with
  | Arrive s =>
      seg_data s <> [] /\ rightsOnly (seg_oob s) /\
      (seg_trunc s = true -> MaxHandoffFDsPerFrame < zlen (oobRights (seg_oob s)))
  | Broken _ => False
  end.
Definition healthy (c : HandoffConnection) : Prop :=
  Framing c = HandoffFramingLengthPrefixed /\ Forall healthyArrival (incoming c).

(** No more descriptors than fit with any byte. *)
Definition fits (l : list (Z * bytes)) : Prop :=
  Forall (fun p => zlen (oobRights p.2) <= MaxHandoffFDsPerFrame) l.

Lemma attach_length data oob : length (attach data oob) = length data.
Proof. destruct data; simpl; [done|]. by rewrite length_map. Qed.

Lemma attach_fst data oob : map fst (attach data oob) = data.
Proof. destruct data; simpl; [done|]. by rewrite map_map, map_id. Qed.

Lemma streamRights_plain data : streamRights (map (fun b => (b, [])) data) = [].
Proof. unfold streamRights. induction data; simpl; auto. Qed.

Lemma streamRights_app l k : streamRights (l ++ k) = streamRights l ++ streamRights k.
Proof. unfold streamRights. by rewrite map_app, concat_app. Qed.

Lemma attach_plain data : attach data [] = map (fun b => (b, [])) data.
Proof. by destruct data. Qed.

Lemma attach_rights data oob : data <> [] -> streamRights (attach data oob) = oobRights oob.
Proof.
  destruct data as [|b data]; [done|]. intros _. simpl.
  change (streamRights ([(b, oob)] ++ map (fun b => (b, [])) data) = oobRights oob).
  rewrite streamRights_app, streamRights_plain. unfold streamRights. simpl. by rewrite !app_nil_r.
Qed.

Lemma attach_split n data oob :
  (0 < n)%nat -> attach data oob = attach (take n data) oob ++ attach (drop n data) [].
Proof.
  destruct n as [|n]; [lia|]. intros _. destruct data as [|b data]; [done|]. simpl.
  by rewrite attach_plain, <- map_app, take_drop.
Qed.

(** One successful read of the stream. *)
Lemma ReadMsgUnix_stream c l want :
  healthy c -> fits l -> arriving (incoming c) = l -> l <> [] -> (0 < want)%nat ->
  exists s c' k, ReadMsgUnix want c = (Ok s, c') /\
    (0 < length (seg_data s) <= want)%nat /\ l = segmentStream s ++ k /\
    arriving (incoming c') = k /\ healthy c' /\
    rightsOnly (seg_oob s) /\ seg_trunc s = false /\ c' = set_incoming (incoming c') c.
Proof.
  intros [Hf Hw] Hl Ha Hne Hwant. unfold ReadMsgUnix.
  destruct (incoming c) as [|[s|e] w] eqn:Ew; [by subst|inversion Hw as [|? ? Hs Hw']; subst|by inversion Hw].
  destruct Hs as (Hd & Ho & Ht).
  assert (Htr : seg_trunc s = false).
  { destruct (seg_trunc s); [|done]. exfalso. specialize (Ht eq_refl).
    destruct (seg_data s) as [|b d] eqn:Ed; [done|].
    unfold fits, arriving, segmentStream in Hl. simpl in Hl. unfold segmentStream in Hl.
    rewrite Ed in Hl. simpl in Hl.
    inversion Hl; subst. simpl in *. lia. }
  pose proof (attach_split want (seg_data s) (seg_oob s) Hwant) as Hsplit.
  eexists _, _, (attach (drop want (seg_data s)) [] ++ arriving w). split; [reflexivity|]. simpl.
  rewrite Htr. split; [|split; [|split; [|split; [|split; [done|split; [done|]]]]]].
  - rewrite length_take. destruct (seg_data s); [done|]. simpl. lia.
  - unfold segmentStream at 1. simpl. unfold arriving. simpl. unfold segmentStream at 1.
    by rewrite Hsplit, app_assoc.
  - unfold arriving. by destruct (drop want (seg_data s)) as [|b d].
  - split; [done|]. destruct (drop want (seg_data s)) as [|b d] eqn:Ed; [done|].
    constructor; [|done]. simpl. split; [done|]. split; [by left|done].
  - destruct (drop want (seg_data s)); done.
Qed.

Lemma fits_app l k : fits (l ++ k) <-> fits l /\ fits k.
Proof. apply Forall_app. Qed.

Lemma readExactLoop_stream fuel want c l1 l2 data fds :
  healthy c -> fits l1 -> arriving (incoming c) = l1 ++ l2 -> fits l2 ->
  length l1 = want -> (want <= fuel)%nat ->
  exists c', readExactLoop fuel want data fds c = (Ok (data ++ map fst l1, fds ++ streamRights l1), c') /\
    healthy c' /\ arriving (incoming c') = l2 /\ c' = set_incoming (incoming c') c.
Proof.
  revert want c l1 data fds. induction fuel as [|fuel IH]; intros want c l1 data fds Hc Hf1 Ha Hf2 Hl Hfuel.
  - destruct want; [|lia]. destruct l1; [|done]. exists c. simpl. rewrite !app_nil_r.
    split; [done|]. split; [done|]. split; [done|]. by destruct c.
  - destruct want as [|want].
    { destruct l1; [|done]. exists c. simpl. rewrite !app_nil_r.
      split; [done|]. split; [done|]. split; [done|]. by destruct c. }
    destruct (ReadMsgUnix_stream c (l1 ++ l2) (S want)) as (s & c1 & k & E & Hn & Hsk & Hk & Hc1 & Ho & Ht & Hset);
      [done|by apply fits_app|done|by destruct l1|lia|].
    pose proof (attach_length (seg_data s) (seg_oob s)) as Hlen.
    assert (Hl1 : l1 = segmentStream s ++ drop (length (segmentStream s)) l1).
    { rewrite <- (take_drop (length (segmentStream s)) l1) at 1. f_equal.
      rewrite <- (take_app_le l1 l2) by (unfold segmentStream in *; lia).
      rewrite Hsk. by rewrite take_app_length. }
    set (r := drop (length (segmentStream s)) l1) in *.
    assert (Hkr : k = r ++ l2).
    { apply (app_inv_head (segmentStream s)). by rewrite app_assoc, <- Hl1. }
    destruct (IH (S want - length (seg_data s))%nat c1 r (data ++ seg_data s) (fds ++ oobRights (seg_oob s)))
      as (c' & E' & Hc' & Hl2 & Hset'); [done| |by rewrite Hk|done| |lia|].
    { rewrite Hl1 in Hf1. by apply fits_app in Hf1 as [_ ?]. }
    { unfold segmentStream in *. rewrite Hl1, length_app, Hlen in Hl. lia. }
    exists c'. split; [|split; [done|split; [done|]]].
    + cbn [readExactLoop]. rewrite (io_bind_ok _ _ _ _ _ (closing_ok fds _ _ _ _ E)).
      rewrite (io_bind_ok _ _ _ _ _ (closing_ok fds _ _ _ _ (parseHandoffFDs_rights _ c1 Ho))), Ht.
      destruct (length (seg_data s)) as [|n] eqn:En; [lia|]. rewrite E'. do 2 f_equal.
      rewrite Hl1, map_app, streamRights_app, !app_assoc. unfold segmentStream.
      rewrite attach_fst, attach_rights; [done|]. by intros Hz; rewrite Hz in En.
    + rewrite Hset', Hset. by destruct c.
Qed.

Lemma readExact_stream want c l1 l2 :
  healthy c -> fits (l1 ++ l2) -> arriving (incoming c) = l1 ++ l2 -> length l1 = want ->
  exists c', readExact want c = (Ok (map fst l1, streamRights l1), c') /\
    healthy c' /\ arriving (incoming c') = l2 /\ c' = set_incoming (incoming c') c.
Proof.
  intros Hc [Hf1 Hf2]%fits_app Ha Hl. exact (readExactLoop_stream want want c l1 l2 [] [] Hc Hf1 Ha Hf2 Hl ltac:(lia)).
Qed.

(** A frame on the stream: its descriptors travel with its first byte. *)
Definition frameStream (data oob : bytes) : list (Z * bytes) := attach (PutUint32 (zlen data) ++ data) oob.

Lemma frameStream_split data oob :
  frameStream data oob = attach (PutUint32 (zlen data)) oob ++ attach data [].
Proof.
  unfold frameStream. rewrite (attach_split 4) by lia.
  reflexivity.
Qed.

Lemma readPayload_stream data oob c l :
  healthy c -> fits (frameStream data oob ++ l) ->
  arriving (incoming c) = frameStream data oob ++ l -> 0 < zlen data <= MaxMessageSize ->
  exists c', readPayload c = (Ok (data, oobRights oob), c') /\
    healthy c' /\ arriving (incoming c') = l /\ c' = set_incoming (incoming c') c.
Proof.
  intros Hc Hf Ha Hd. rewrite frameStream_split, <- app_assoc in Ha, Hf.
  destruct (readExact_stream 4 c _ _ Hc Hf Ha) as (c1 & E1 & Hc1 & Ha1 & Hs1); [apply attach_length|].
  apply fits_app in Hf as [_ Hf].
  destruct (readExact_stream (length data) c1 _ _ Hc1 Hf Ha1) as (c2 & E2 & Hc2 & Ha2 & Hs2);
    [apply attach_length|].
  exists c2. split; [|split; [done|split; [done|by rewrite Hs2, Hs1; destruct c]]].
  unfold readPayload. destruct Hc as [-> _].
  rewrite (io_bind_ok _ _ _ _ _ E1). cbv beta iota zeta. unfold MaxMessageSize in *.
  rewrite attach_fst, Uint32_PutUint32 by lia.
  rewrite (proj2 (Z.eqb_neq _ 0)), (proj2 (Z.ltb_ge _ _)) by lia.
  rewrite attach_rights by done. cbn [orb]. cbv iota.
  replace (Z.to_nat (zlen data)) with (length data) by (unfold zlen; lia).
  rewrite (io_bind_ok _ _ _ _ _ (closing_ok _ _ _ _ _ E2)).
  rewrite attach_fst, attach_plain, streamRights_plain, app_nil_r. done.
Qed.

Section Messages.
Context `{JSON HandoffMessage} {T : Type} `{JSON (HandoffManifest T)}.

Lemma ReadMessage_stream m data oob c l :
  healthy c -> fits (frameStream data oob ++ l) ->
  arriving (incoming c) = frameStream data oob ++ l -> 0 < zlen data <= MaxMessageSize ->
  Unmarshal data = Ok m ->
  exists c', ReadMessage c = (Ok (m, oobRights oob), c') /\
    healthy c' /\ arriving (incoming c') = l /\ c' = set_incoming (incoming c') c.
Proof.
  intros Hc Hf Ha Hd Hm. destruct (readPayload_stream _ _ _ _ Hc Hf Ha Hd) as (c' & E & Hc').
  exists c'. split; [|done]. unfold ReadMessage. by rewrite (io_bind_ok _ _ _ _ _ E), Hm.
Qed.

Lemma ReadManifest_stream (m : HandoffManifest T) data c l :
  healthy c -> fits (frameStream data [] ++ l) ->
  arriving (incoming c) = frameStream data [] ++ l -> 0 < zlen data <= MaxMessageSize ->
  Unmarshal data = Ok m ->
  exists c', ReadManifest c = (Ok m, c') /\
    healthy c' /\ arriving (incoming c') = l /\ c' = set_incoming (incoming c') c.
Proof.
  intros Hc Hf Ha Hd Hm. destruct (readPayload_stream _ _ _ _ Hc Hf Ha Hd) as (c' & E & Hc').
  exists c'. split; [|done]. unfold ReadManifest. by rewrite (io_bind_ok _ _ _ _ _ E), Hm.
Qed.

(** ** Writing *)

Lemma attach_app data data' oob : data <> [] -> attach (data ++ data') oob = attach data oob ++ attach data' [].
Proof. destruct data; [done|]. intros _. simpl. by rewrite map_app, attach_plain. Qed.

Lemma WriteMsgUnix_stream payload oob c n c' :
  payload <> [] -> WriteMsgUnix payload oob c = (Ok n, c') ->
  (0 < n <= length payload)%nat /\ sent c' = sent c ++ attach (take n payload) oob /\
  exists o w, c' = set_sent o w c.
Proof.
  unfold WriteMsgUnix. intros Hne. destruct (writes c O) as [k|e]; [|done].
  assert (0 < length payload)%nat by (destruct payload; simpl; [done|lia]).
  injection 1 as <- <-. split; [lia|]. split; [|by do 2 eexists].
  unfold sent. simpl. rewrite map_app, concat_app. simpl. by rewrite app_nil_r.
Qed.

Lemma writeRest_stream fuel rest c c' :
  writeRest fuel rest c = (Ok tt, c') ->
  sent c' = sent c ++ attach rest [] /\ exists o w, c' = set_sent o w c.
Proof.
  revert rest c. induction fuel as [|fuel IH]; intros [|b rest] c; try done.
  - intros [= <-]. rewrite app_nil_r. split; [done|]. exists (outgoing c), (writes c). by destruct c.
  - intros [= <-]. rewrite app_nil_r. split; [done|]. exists (outgoing c), (writes c). by destruct c.
  - cbn [writeRest]. unfold Write. destruct (WriteMsgUnix (b :: rest) [] c) as [[n|e] c1] eqn:E.
    + rewrite (io_bind_ok _ _ _ _ _ E). destruct (WriteMsgUnix_stream (b :: rest) [] _ _ _ ltac:(done) E) as (Hn & Hs & o & w & ->).
      destruct n as [|n]; [lia|]. intros H'. apply IH in H' as (Hs' & o' & w' & ->).
      split; [|by exists o', w'; destruct c]. rewrite Hs', Hs, <- app_assoc. f_equal.
      by rewrite <- attach_split by lia.
    + by rewrite (io_bind_err _ _ _ _ _ E).
Qed.

Definition rightsOob (fds : list Z) : bytes := match fds with [] => [] | _ => UnixRights fds end.

(** A successful [WriteJSON] puts exactly one frame on the stream. *)
Lemma WriteJSON_stream {A} `{JSON A} (value : A) fds c c' :
  Framing c = HandoffFramingLengthPrefixed -> WriteJSON value fds c = (Ok tt, c') ->
  exists data, Marshal value = Ok data /\ 0 < zlen data <= MaxMessageSize /\
    sent c' = sent c ++ frameStream data (rightsOob fds) /\ exists o w, c' = set_sent o w c.
Proof.
  intros Hf. unfold WriteJSON. destruct (Marshal value) as [data|e]; [|done]. rewrite Hf.
  destruct (_ || _) eqn:Hb; [done|]. bool_to_prop. pose proof (zlen_nonneg data).
  fold (rightsOob fds). set (p := PutUint32 (zlen data) ++ data).
  assert (Hp : p <> []) by done.
  destruct (WriteMsgUnix p (rightsOob fds) c) as [[n|e] c1] eqn:E;
    [rewrite (io_bind_ok _ _ _ _ _ E)|by rewrite (io_bind_err _ _ _ _ _ E)].
  destruct (WriteMsgUnix_stream _ _ _ _ _ Hp E) as (Hn & Hs & o & w & ->).
  intros E'. apply writeRest_stream in E' as (Hs' & o' & w' & ->).
  exists data. split; [done|]. split; [lia|]. split; [|by exists o', w'; destruct c].
  rewrite Hs', Hs, <- app_assoc. f_equal. unfold frameStream. fold p. symmetry.
  apply attach_split. lia.
Qed.
End Messages.
End Stream.
