(* ===== verification/HandoffTransfer.v ===== *)
(** * Transferring the terminals of a live update

    The two ends of a daemon's replacement in [internal/codelima/daemon_host.go]:
    the running daemon ([update]) sends its manifest, the replay and recovery
    of every quiesced terminal, the activity state and the terminals'
    descriptors; the successor ([runDaemonImport]) checks and collects them.
    Whatever the kernel does to the stream, the successor ends up with exactly
    the terminals that were sent, and when it gives up it has closed every
    descriptor it received. *)

From S2P Require Import Prelude Framing Handoff HandoffStream.
Local Open Scope Z_scope.

(** ** Data *)

Definition SessionVersion : Z := 2.

(** A quiesced terminal: its entry's identity and its [handoffTerminalState]. *)
Record quiescedTerminal := {
  q_id : string;
  q_PTY : Z;
  q_ChildPID : Z;
  q_Cols : Z;
  q_Rows : Z;
  q_Replay : bytes;
  q_ReplayPartial : bool;
  q_Recovery : bytes;
}.

(** Lift a check into the connection's methods. *)
Definition check {A} (r : result A) : IO A := fun c => (r, c).

Fixpoint forEach {A} (f : A -> IO unit) (l : list A) : IO unit :=
  match l with [] => mret tt | x :: l => _ ← f x; forEach f l end.

(** ** The sending daemon *)

Definition quiescedRuntime (item : quiescedTerminal) : HandoffRuntime := {|
  hr_TerminalID := q_id item; ChildPID := q_ChildPID item;
  Cols := q_Cols item; Rows := q_Rows item; hr_Replay := [];
  ReplaySize := zlen (q_Replay item); ReplayPartial := q_ReplayPartial item;
  Recovery := []; RecoverySize := zlen (q_Recovery item) |}.

(** The loop that fills the manifest's runtimes. *)
Fixpoint manifestRuntimes (totalReplay totalRecovery : Z) (quiesced : list quiescedTerminal)
    : result (list HandoffRuntime) :=
  match quiesced with
  | [] => Ok []
  | item :: quiesced =>
      if MaxHandoffReplayBytesPerTerminal <? zlen (q_Replay item) then
        Err (EFormat "handoff replay is %d bytes, limit is %d"
               [zlen (q_Replay item); MaxHandoffReplayBytesPerTerminal])
      else
        let totalReplay := totalReplay + zlen (q_Replay item) in
        if MaxHandoffTotalReplayBytes <? totalReplay then
          Err (EFormat "handoff replay is %d bytes, total limit is %d"
                 [totalReplay; MaxHandoffTotalReplayBytes])
        else if MaxHandoffRecoveryBytesPerTerminal <? zlen (q_Recovery item) then
          Err (ENew "handoff terminal recovery exceeds size bound")
        else
          let totalRecovery := totalRecovery + zlen (q_Recovery item) in
          if MaxHandoffTotalRecoveryBytes <? totalRecovery then
            Err (ENew "handoff aggregate recovery exceeds size bound")
          else cons (quiescedRuntime item) <$> manifestRuntimes totalReplay totalRecovery quiesced
  end.

Section Transfer.
Context {R : SocketRights} `{JSON HandoffMessage} {T : Type} `{JSON (HandoffManifest T)}.

Definition fdsMessage (ids : list string) : HandoffMessage := {|
  Type_ := "fds"; Token := ""; TerminalIDs := ids; TerminalID := ""; Offset := 0;
  Replay := []; PID := 0; Error_ := "" |}.

(** The loop over batches of at most [MaxHandoffFDsPerFrame] descriptors. *)
Fixpoint sendDescriptors (fuel : nat) (quiesced : list quiescedTerminal) : IO unit :=
  match quiesced with
  | [] => mret tt
  | _ =>
    match fuel with
    | O => mret tt
    | S fuel =>
        let batch := take (Z.to_nat MaxHandoffFDsPerFrame) quiesced in
        _ ← WriteJSON (fdsMessage (map q_id batch)) (map q_PTY batch);
        sendDescriptors fuel (drop (Z.to_nat MaxHandoffFDsPerFrame) quiesced)
    end
  end.

(** From the manifest to the last descriptor. *)
Definition sendHandoff (binaryVersion token : string) (terminals : list T) (activity : bytes)
    (quiesced : list quiescedTerminal) : IO unit :=
  runtimes ← check (manifestRuntimes 0 0 quiesced);
  _ ← WriteJSON {| ActivitySize := zlen activity; Activity := []; Version := HandoffVersion;
                   BinaryVersion := binaryVersion; hm_Token := token;
                   Session_ := {| s_Version := SessionVersion; Terminals := terminals |};
                   Runtimes := runtimes |} [];
  _ ← forEach (fun item => WriteReplay (q_id item) (q_Replay item)) quiesced;
  _ ← forEach (fun item => WriteRecovery (q_id item) (q_Recovery item)) quiesced;
  _ ← WriteActivity activity;
  sendDescriptors (length quiesced) quiesced.

(** The daemon's side up to the successor's readiness. *)
Definition exportHandoff (binaryVersion token : string) (terminals : list T) (activity : bytes)
    (quiesced : list quiescedTerminal) : IO unit :=
  hello ← ReadControlMessage;
  if negb (Type_ hello =? "hello")%string || negb (Token hello =? token)%string then
    fail (ENew "invalid handoff authentication")
  else
    _ ← sendHandoff binaryVersion token terminals activity quiesced;
    ready ← ReadControlMessage;
    if negb (Type_ ready =? "ready")%string then fail (ENew (Error_ ready)) else mret tt.

(** ** The successor *)

Definition validHandoffVersion (framing : HandoffFraming) (version : Z) : bool :=
  match framing with
  | HandoffFramingLengthPrefixed =>
      (version =? HandoffVersion) || (version =? PreviousActivityHandoffVersion)
      || (version =? PreviousStreamHandoffVersion) || (version =? PreviousChunkedHandoffVersion)
      || (version =? PreviousRecoveryHandoffVersion)
  | HandoffFramingLegacyPacket => version =? LegacyHandoffVersion
  end.

(** The loop that checks the declared runtimes; [runtimeIDs] are those seen. *)
Fixpoint checkRuntimes (version : Z) (runtimeIDs : gset string) (totalReplay : Z)
    (runtimes : list HandoffRuntime) : result (gset string) :=
  match runtimes with
  | [] => Ok runtimeIDs
  | runtime :: runtimes =>
      if (hr_TerminalID runtime =? "")%string then
        Err (ENew "handoff runtime has an empty terminal id")
      else if bool_decide (hr_TerminalID runtime ∈ runtimeIDs) then
        Err (ENew "handoff manifest has duplicate terminal runtimes")
      else
        let inline := zlen (hr_Replay runtime) in
        if (PreviousChunkedHandoffVersion <=? version) && negb (inline =? 0) then
          Err (ENew "chunked handoff manifest contains inline replay")
        else
          let replayBytes := if PreviousChunkedHandoffVersion <=? version then ReplaySize runtime else inline in
          if (replayBytes <? 0) || (MaxHandoffReplayBytesPerTerminal <? replayBytes) then
            Err (EFormat "handoff replay is %d bytes, limit is %d" [replayBytes; MaxHandoffReplayBytesPerTerminal])
          else
            let totalReplay := totalReplay + replayBytes in
            if MaxHandoffTotalReplayBytes <? totalReplay then
              Err (EFormat "handoff replay is %d bytes, total limit is %d" [totalReplay; MaxHandoffTotalReplayBytes])
            else checkRuntimes version ({[hr_TerminalID runtime]} ∪ runtimeIDs) totalReplay runtimes
  end.

Definition set_Replay (r : HandoffRuntime) (replay : bytes) : HandoffRuntime := {|
  hr_TerminalID := hr_TerminalID r; ChildPID := ChildPID r; Cols := Cols r; Rows := Rows r;
  hr_Replay := replay; ReplaySize := ReplaySize r; ReplayPartial := ReplayPartial r;
  Recovery := Recovery r; RecoverySize := RecoverySize r |}.
Definition set_Recovery (r : HandoffRuntime) (recovery : bytes) : HandoffRuntime := {|
  hr_TerminalID := hr_TerminalID r; ChildPID := ChildPID r; Cols := Cols r; Rows := Rows r;
  hr_Replay := hr_Replay r; ReplaySize := ReplaySize r; ReplayPartial := ReplayPartial r;
  Recovery := recovery; RecoverySize := RecoverySize r |}.

(** The loops over [manifest.Runtimes]. *)
Fixpoint traverse {A B} (f : A -> IO B) (l : list A) : IO (list B) :=
  match l with [] => mret [] | x :: l => y ← f x; ys ← traverse f l; mret (y :: ys) end.

Definition readReplays (version : Z) (runtimes : list HandoffRuntime) : IO (list HandoffRuntime) :=
  if PreviousChunkedHandoffVersion <=? version then
    traverse (fun r => replay ← ReadReplay (hr_TerminalID r) (ReplaySize r); mret (set_Replay r replay)) runtimes
  else mret runtimes.

Definition readRecoveries (version : Z) (runtimes : list HandoffRuntime) : IO (list HandoffRuntime) :=
  if PreviousRecoveryHandoffVersion <=? version then
    traverse (fun r => recovery ← ReadRecovery (hr_TerminalID r) (RecoverySize r); mret (set_Recovery r recovery)) runtimes
  else mret runtimes.

(** The identities of one batch. *)
Fixpoint batchError (runtimeIDs : gset string) (fdsByID : gmap string Z) (batchIDs : gset string)
    (ids : list string) : option go_error :=
  match ids with
  | [] => None
  | id :: ids =>
      if bool_decide (id ∉ runtimeIDs) then Some (ENew "handoff fd batch names an unknown terminal")
      else if bool_decide (is_Some (fdsByID !! id)) then Some (ENew "handoff fd batch duplicates a terminal")
      else if bool_decide (id ∈ batchIDs) then Some (ENew "handoff fd batch duplicates a terminal")
      else batchError runtimeIDs fdsByID ({[id]} ∪ batchIDs) ids
  end.

(** [for i, id := range message.TerminalIDs { fdsByID[id] = fds[i] }] *)
Fixpoint assignFDs (fdsByID : gmap string Z) (ids : list string) (fds : list Z) : gmap string Z :=
  match ids, fds with
  | id :: ids, fd :: fds => assignFDs (<[id := fd]> fdsByID) ids fds
  | _, _ => fdsByID
  end.

Definition pendingFDs (fdsByID : gmap string Z) : list Z := (map_to_list fdsByID).*2.

(** Every message takes at least one byte of the stream or one packet, so
    [pendingSize] of the connection is enough fuel for the loop. *)
Definition arrivalSize (a : arrival) : nat :=
  match a with Arrive s => S (length (seg_data s)) | Broken _ => O end.
Definition pendingSize (c : HandoffConnection) : nat := sum_list (map arrivalSize (incoming c)).

(** The loop that collects the descriptors; [closePendingFDs] is deferred. *)
Fixpoint collectFDs (fuel : nat) (runtimeIDs : gset string) (count : nat) (fdsByID : gmap string Z)
    : IO (gmap string Z) :=
  if (count <=? size fdsByID)%nat then mret fdsByID else
  match fuel with
  | O => reject (pendingFDs fdsByID) ErrUnexpectedEOF
  | S fuel =>
      '(message, fds) ← closing (pendingFDs fdsByID) ReadMessage;
      if negb (Type_ message =? "fds")%string || negb (length (TerminalIDs message) =? length fds)%nat then
        reject (fds ++ pendingFDs fdsByID) (ENew "invalid handoff fd batch")
      else
        match batchError runtimeIDs fdsByID ∅ (TerminalIDs message) with
        | Some e => reject (fds ++ pendingFDs fdsByID) e
        | None => collectFDs fuel runtimeIDs count (assignFDs fdsByID (TerminalIDs message) fds)
        end
  end.

Definition collectAll (runtimeIDs : gset string) (count : nat) : IO (gmap string Z) :=
  fun c => collectFDs (S (pendingSize c)) runtimeIDs count ∅ c.

(** [_ = peer.WriteJSON(HandoffMessage{Type: "failed", Error: text}, nil)] *)
Definition notify (text : string) : IO unit := fun c =>
  (Ok tt, snd (WriteJSON {| Type_ := "failed"; Token := ""; TerminalIDs := []; TerminalID := "";
                            Offset := 0; Replay := []; PID := 0; Error_ := text |} [] c)).

Definition framingOf : IO HandoffFraming := fun c => (Ok (Framing c), c).

(** The successor's checks and transfers from [ReadManifest] to the last
    descriptor. *)
Definition receiveHandoff (token : string) : IO (HandoffManifest T * gmap string Z) :=
  manifest ← ReadManifest (T:=T);
  framing ← framingOf;
  if negb (validHandoffVersion framing (Version manifest)) || negb (hm_Token manifest =? token)%string
     || negb (s_Version (Session_ manifest) =? SessionVersion)
  then
    _ ← notify "invalid handoff manifest";
    fail (ENew "invalid handoff manifest")
  else
    _ ← check (ValidateHandoffRecoverySizes manifest);
    _ ← check (ValidateHandoffActivitySize manifest);
    runtimeIDs ← check (checkRuntimes (Version manifest) ∅ 0 (Runtimes manifest));
    runtimes ← readReplays (Version manifest) (Runtimes manifest);
    runtimes ← readRecoveries (Version manifest) runtimes;
    activity ← (if PreviousActivityHandoffVersion <=? Version manifest
                then ReadActivity (ActivitySize manifest) else mret (Activity manifest));
    fdsByID ← collectAll runtimeIDs (length runtimes);
    mret ({| ActivitySize := ActivitySize manifest; Activity := activity; Version := Version manifest;
             BinaryVersion := BinaryVersion manifest; hm_Token := hm_Token manifest;
             Session_ := Session_ manifest; Runtimes := runtimes |}, fdsByID).

Definition importHandoff (token : string) : IO (HandoffManifest T * gmap string Z) :=
  _ ← WriteJSON {| Type_ := "hello"; Token := token; TerminalIDs := []; TerminalID := "";
                   Offset := 0; Replay := []; PID := 0; Error_ := "" |} [];
  receiveHandoff token.
End Transfer.
