(* ===== verification/HandoffProofs.v ===== *)
(** * The live update's transfer: lemmas

    The three ways of reasoning about the transport that [HandoffCorrect] combines:
    which descriptors a computation accounts for ([accounts]), which stream it emits
    and what it delivers from one ([emits], [delivers]), and that it completes when
    every write is accepted ([completes]). *)

From S2P Require Import Prelude Framing Handoff HandoffStream HandoffTransfer.
Local Open Scope Z_scope.

(** ** Descriptors *)

Section Accounts.
Context {R : SocketRights} `{JSON HandoffMessage} {T : Type} `{JSON (HandoffManifest T)}.

Lemma accounts_check {A} (r : result A) : accounts [] (check r) (fun _ => []).
Proof.
  intros c r' c' Hok [= <- <-]. split; [done|]. exists []. rewrite app_nil_r. by destruct r.
Qed.

(** A method that neither receives nor closes. *)
Definition quiet {A} (m : IO A) : Prop :=
  forall c, incoming (m c).2 = incoming c /\ closed (m c).2 = closed c.

Lemma quiet_accounts {A} (m : IO A) : quiet m -> accounts [] m (fun _ => []).
Proof.
  intros Hm c r c' Hok E. destruct (Hm c) as [Hi Hc]. rewrite E in Hi, Hc. simpl in *.
  unfold rightsOk, pendingRights in *. rewrite Hi. split; [done|]. exists [].
  rewrite app_nil_r. split; [done|]. by destruct r.
Qed.

Lemma quiet_ret {A} (a : A) : quiet (mret a).
Proof. done. Qed.
Lemma quiet_fail {A} e : quiet (fail (A:=A) e).
Proof. done. Qed.
Lemma quiet_bind {A B} (m : IO A) (f : A -> IO B) : quiet m -> (forall a, quiet (f a)) -> quiet (m ≫= f).
Proof.
  intros Hm Hf c. specialize (Hm c). unfold mbind, io_bind. destruct (m c) as [[a|e] c1]; [|done].
  destruct (Hf a c1) as [-> ->]. exact Hm.
Qed.

Lemma quiet_WriteMsgUnix payload oob : quiet (WriteMsgUnix payload oob).
Proof. intros c. unfold WriteMsgUnix. by destruct (writes c O). Qed.

Lemma quiet_writeRest fuel rest : quiet (writeRest fuel rest).
Proof.
  revert rest. induction fuel as [|fuel IH]; intros [|b rest]; try done.
  apply quiet_bind; [apply quiet_WriteMsgUnix|]. intros [|n]; [apply quiet_fail|apply IH].
Qed.

Lemma quiet_WriteJSON {A} `{JSON A} (value : A) fds : quiet (WriteJSON value fds).
Proof.
  intros c. unfold WriteJSON. destruct (Marshal value) as [data|e]; [|done].
  destruct (_ || _); [done|]. destruct (Framing c);
    (apply quiet_bind; [apply quiet_WriteMsgUnix|intros n]); [|apply quiet_writeRest].
  by destruct (_ =? _)%nat.
Qed.

Lemma quiet_notify text : quiet (notify text).
Proof. intros c. exact (quiet_WriteJSON _ [] c). Qed.

Lemma batchError_none runtimeIDs fdsByID batch ids :
  batchError runtimeIDs fdsByID batch ids = None ->
  NoDup ids /\ Forall (fun id => id ∈ runtimeIDs /\ fdsByID !! id = None /\ id ∉ batch) ids.
Proof.
  revert batch. induction ids as [|id ids IH]; intros batch; simpl; [by split; constructor|].
  repeat (case_bool_decide; [done|]). intros Hb. apply IH in Hb as [Hnd Hall].
  split.
  - constructor; [|done]. intros Hin. rewrite Forall_forall in Hall.
    destruct (Hall id Hin) as (_ & _ & Hn). set_solver.
  - constructor.
    + split; [done|]. split; [by apply eq_None_not_Some|done].
    + eapply Forall_impl; [exact Hall|]. intros x (? & ? & ?). set_solver.
Qed.

Lemma assignFDs_pending fdsByID ids fds :
  NoDup ids -> Forall (fun id => fdsByID !! id = None) ids -> length ids = length fds ->
  pendingFDs (assignFDs fdsByID ids fds) ≡ₚ fds ++ pendingFDs fdsByID.
Proof.
  revert fdsByID fds. induction ids as [|id ids IH]; intros fdsByID [|fd fds] Hnd Hall Hlen; try done.
  inversion Hnd as [|? ? Hid Hnd']; subst. inversion Hall as [|? ? Hn Hall']; subst. simpl.
  rewrite IH; [|done| |by injection Hlen].
  - unfold pendingFDs. rewrite map_to_list_insert by done. simpl. by rewrite Permutation_middle.
  - rewrite Forall_forall in *. intros x Hx. rewrite lookup_insert_ne by congruence. by apply Hall'.
Qed.

Lemma collectFDs_accounts fuel runtimeIDs count fdsByID :
  accounts (pendingFDs fdsByID) (collectFDs fuel runtimeIDs count fdsByID) pendingFDs.
Proof.
  revert fdsByID. induction fuel as [|fuel IH]; intros fdsByID; simpl;
    (apply accounts_if; [exact (accounts_ret fdsByID pendingFDs)|]); [apply accounts_reject|].
  apply (accounts_bind _ _ _ (fun a => pendingFDs fdsByID ++ a.2)).
  { rewrite <- (app_nil_r (pendingFDs fdsByID)) at 1. apply accounts_closing, ReadMessage_accounts. }
  intros [m fds]. simpl. apply (accounts_perm (fds ++ pendingFDs fdsByID)); [apply Permutation_app_comm|].
  destruct (_ || _) eqn:Hb; [apply accounts_reject|]. bool_to_prop.
  destruct (batchError _ _ _ _) as [e|] eqn:He; [apply accounts_reject|].
  apply batchError_none in He as [Hnd Hall]. eapply accounts_perm; [|apply IH].
  apply assignFDs_pending; [done| |by apply Nat.eqb_eq].
  eapply Forall_impl; [exact Hall|]. by intros x (_ & ? & _).
Qed.

Lemma collectAll_accounts runtimeIDs count : accounts [] (collectAll runtimeIDs count) pendingFDs.
Proof.
  intros c. pose proof (collectFDs_accounts (S (pendingSize c)) runtimeIDs count ∅ c) as Hc.
  unfold pendingFDs in Hc at 1. rewrite map_to_list_empty in Hc. exact Hc.
Qed.

Lemma traverse_accounts {A B} (f : A -> IO B) l :
  (forall x, accounts [] (f x) (fun _ => [])) -> accounts [] (traverse f l) (fun _ => []).
Proof.
  intros Hf. induction l as [|x l IH]; simpl; [exact (accounts_ret [] (fun _ => []))|].
  apply (accounts_bind _ _ _ (fun _ => [])); [apply Hf|]. intros y.
  apply (accounts_bind _ _ _ (fun _ => [])); [exact IH|]. intros ys. exact (accounts_ret (y :: ys) (fun _ => [])).
Qed.

Lemma blobs_accounts (g : HandoffRuntime -> bytes -> HandoffRuntime) (read : HandoffRuntime -> IO bytes) (b : bool) l :
  (forall r, accounts [] (read r) (fun _ => [])) ->
  accounts [] (if b then traverse (fun r => x ← read r; mret (g r x)) l else mret l) (fun _ => []).
Proof.
  intros Hr. apply accounts_if; [|exact (accounts_ret l (fun _ => []))]. apply traverse_accounts. intros r.
  apply (accounts_bind _ _ _ (fun _ => [])); [apply Hr|]. intros x. exact (accounts_ret (g r x) (fun _ => [])).
Qed.

Lemma receiveHandoff_accounts token :
  accounts [] (receiveHandoff (T:=T) token) (fun p => pendingFDs p.2).
Proof.
  unfold receiveHandoff.
  apply (accounts_bind _ _ _ (fun _ => [])); [apply ReadManifest_accounts|]. intros manifest.
  apply (accounts_bind _ _ _ (fun _ => [])); [by apply quiet_accounts|]. intros framing.
  apply accounts_if.
  { apply (accounts_bind _ _ _ (fun _ => [])); [|intros u; apply accounts_fail].
    apply quiet_accounts, quiet_notify. }
  do 2 (apply (accounts_bind _ _ _ (fun _ => [])); [apply accounts_check|intros ?]).
  apply (accounts_bind _ _ _ (fun _ => [])); [apply accounts_check|intros runtimeIDs].
  apply (accounts_bind _ _ _ (fun _ => []));
    [apply (blobs_accounts set_Replay); intros; apply readHandoffBlob_accounts|intros runtimes].
  apply (accounts_bind _ _ _ (fun _ => []));
    [apply (blobs_accounts set_Recovery); intros; apply readHandoffBlob_accounts|intros runtimes'].
  apply (accounts_bind _ _ _ (fun _ => [])).
  { apply accounts_if; [apply readHandoffBlob_accounts|exact (accounts_ret _ (fun _ => []))]. }
  intros activity. apply (accounts_bind _ _ _ pendingFDs).
  { apply collectAll_accounts. }
  intros fdsByID. exact (accounts_ret (_, fdsByID) (fun p => pendingFDs p.2)).
Qed.
End Accounts.

(** ** Values on the stream *)

(** What JSON keeps of these types: printable ASCII, bytes, 64-bit integers. *)
Definition plain (s : string) : Prop :=
  Forall (fun a => 32 <= Z.of_nat (Ascii.nat_of_ascii a) < 127) (String.list_ascii_of_string s).
Definition int (z : Z) : Prop := - two63 <= z < two63.

Definition messageOk (m : HandoffMessage) : Prop :=
  plain (Type_ m) /\ plain (Token m) /\ Forall plain (TerminalIDs m) /\ plain (TerminalID m) /\
  int (Offset m) /\ Forall is_byte (Replay m) /\ int (PID m) /\ plain (Error_ m).

Definition runtimeOk (r : HandoffRuntime) : Prop :=
  plain (hr_TerminalID r) /\ int (ChildPID r) /\ int (Cols r) /\ int (Rows r) /\
  Forall is_byte (hr_Replay r) /\ int (ReplaySize r) /\ Recovery r = [] /\ int (RecoverySize r).

Definition manifestOk {T} (terminalOk : T -> Prop) (m : HandoffManifest T) : Prop :=
  int (ActivitySize m) /\ Activity m = [] /\ int (Version m) /\ plain (BinaryVersion m) /\
  plain (hm_Token m) /\ int (s_Version (Session_ m)) /\ Forall terminalOk (Terminals (Session_ m)) /\
  Forall runtimeOk (Runtimes m).

(** [json.Unmarshal] inverts [json.Marshal] on the values of [ok]. *)
Class JSONLaws {A} (J : JSON A) (ok : A -> Prop) :=
  Unmarshal_Marshal v data : ok v -> Marshal v = Ok data -> Unmarshal data = Ok v.

Section Streams.
Context {R : SocketRights} `{!SocketRightsLaws R}.

(** Reading [l] off a healthy stream, [m] returns [a]. *)
Definition delivers {A} (m : IO A) (l : list (Z * bytes)) (a : A) : Prop :=
  forall c k, healthy c -> fits (l ++ k) -> arriving (incoming c) = l ++ k ->
    exists c', m c = (Ok a, c') /\ healthy c' /\ arriving (incoming c') = k /\
      c' = set_incoming (incoming c') c.

(** When it succeeds, [m] writes a stream of [P]. *)
Definition emits {A} (m : IO A) (P : list (Z * bytes) -> Prop) : Prop :=
  forall c a c', Framing c = HandoffFramingLengthPrefixed -> m c = (Ok a, c') ->
    exists l, P l /\ sent c' = sent c ++ l /\ exists o w, c' = set_sent o w c.

Definition followed (P Q : list (Z * bytes) -> Prop) (l : list (Z * bytes)) : Prop :=
  exists l1 l2, l = l1 ++ l2 /\ P l1 /\ Q l2.

Lemma delivers_ret {A} (a : A) : delivers (mret a) [] a.
Proof. intros c k Hc Hf Ha. exists c. repeat (split; [done|]). by destruct c. Qed.

Lemma delivers_check {A} (a : A) : delivers (check (Ok a)) [] a.
Proof. exact (delivers_ret a). Qed.

Lemma delivers_bind {A B} (m : IO A) (f : A -> IO B) l l' a b :
  delivers m l a -> delivers (f a) l' b -> delivers (m ≫= f) (l ++ l') b.
Proof.
  intros Hm Hf c k Hc Hfit Ha. rewrite <- app_assoc in *.
  destruct (Hm c _ Hc Hfit Ha) as (c1 & E1 & Hc1 & Ha1 & Hs1).
  apply fits_app in Hfit as [_ Hfit].
  destruct (Hf c1 _ Hc1 Hfit Ha1) as (c2 & E2 & Hc2 & Ha2 & Hs2).
  exists c2. split; [by rewrite (io_bind_ok _ _ _ _ _ E1)|].
  split; [done|]. split; [done|]. rewrite Hs2, Hs1. by destruct c.
Qed.

Lemma delivers_bind_nil {A B} (m : IO A) (f : A -> IO B) l a b :
  delivers m [] a -> delivers (f a) l b -> delivers (m ≫= f) l b.
Proof. exact (delivers_bind m f [] l a b). Qed.

Lemma emits_ret {A} (a : A) (P : list (Z * bytes) -> Prop) : P [] -> emits (mret a) P.
Proof.
  intros HP c b c' Hf E. injection E as <- <-. exists []. split; [done|]. split; [by rewrite app_nil_r|].
  exists (outgoing c), (writes c). by destruct c.
Qed.

Lemma emits_bind {A B} (m : IO A) (f : A -> IO B) P Q :
  emits m P -> (forall a, emits (f a) Q) -> emits (m ≫= f) (followed P Q).
Proof.
  intros Hm Hf c b c' Hfr. destruct (m c) as [[a|e] c1] eqn:E; [|by rewrite (io_bind_err _ _ _ _ _ E)].
  rewrite (io_bind_ok _ _ _ _ _ E). destruct (Hm _ _ _ Hfr E) as (l1 & HP & Hs1 & o & w & ->). intros E2.
  destruct (Hf a (set_sent o w c) b c' Hfr E2) as (l2 & HQ & Hs2 & o2 & w2 & ->).
  exists (l1 ++ l2). split; [by exists l1, l2|]. split; [by rewrite Hs2, Hs1, app_assoc|].
  exists o2, w2. by destruct c.
Qed.

Lemma emits_check {A B} (a : A) (f : A -> IO B) P : emits (f a) P -> emits (check (Ok a) ≫= f) P.
Proof. intros Hf. exact Hf. Qed.

Lemma emits_weaken {A} (m : IO A) (P Q : list (Z * bytes) -> Prop) :
  (forall l, P l -> Q l) -> emits m P -> emits m Q.
Proof. intros HPQ Hm c a c' Hf E. destruct (Hm c a c' Hf E) as (l & HP & Hl). exists l. auto. Qed.

(** One frame. *)
Definition framed {A} `{JSON A} (v : A) (fds : list Z) (l : list (Z * bytes)) : Prop :=
  exists data, Marshal v = Ok data /\ 0 < zlen data <= MaxMessageSize /\
    l = frameStream data (rightsOob fds).

Lemma emits_WriteJSON {A} `{JSON A} (v : A) fds : emits (WriteJSON v fds) (framed v fds).
Proof.
  intros c [] c' Hf E. destruct (WriteJSON_stream v fds c c' Hf E) as (data & HM & Hd & Hs & o & w & ->).
  exists (frameStream data (rightsOob fds)). split; [by exists data|]. split; [done|]. by exists o, w.
Qed.

Lemma rights_UnixRights fds : oobRights (rightsOob fds) = fds.
Proof.
  destruct fds as [|fd fds]; [done|]. unfold oobRights, rightsOob.
  pose proof (UnixRights_nonempty (fd :: fds)) as Hne.
  destruct (UnixRights_parse (fd :: fds)) as (m & Hm & Hr).
  destruct (UnixRights (fd :: fds)); [done|]. rewrite Hm. simpl. unfold messageRights.
  by rewrite Hr, app_nil_r.
Qed.

Lemma fits_plain data : fits (attach data []).
Proof. rewrite attach_plain. apply Forall_map, Forall_true. done. Qed.

Lemma fits_frame data fds : zlen fds <= MaxHandoffFDsPerFrame -> fits (frameStream data (rightsOob fds)).
Proof.
  intros Hn. rewrite frameStream_split. apply fits_app. split; [|apply fits_plain].
  unfold fits. simpl. repeat (constructor; [simpl; try done; by rewrite rights_UnixRights|]). constructor.
Qed.

Context `{J : JSON HandoffMessage} `{!JSONLaws J messageOk}.

Lemma delivers_message m fds l :
  messageOk m -> framed m fds l -> delivers ReadMessage l (m, fds).
Proof.
  intros Hm (data & HM & Hd & ->) c k Hc Hf Ha.
  destruct (ReadMessage_stream m data _ c k Hc Hf Ha Hd (Unmarshal_Marshal _ _ Hm HM)) as (c' & E & Hc').
  rewrite rights_UnixRights in E. by exists c'.
Qed.

(** *** Chunks *)

Inductive chunked (kind id : string) : Z -> bytes -> list (Z * bytes) -> Prop :=
| chunked_nil offset : chunked kind id offset [] []
| chunked_cons offset rest l l' :
    rest <> [] -> framed (chunkMessage kind id offset (chunk rest)) [] l ->
    chunked kind id (offset + MaxHandoffReplayChunkBytes) (unchunk rest) l' ->
    chunked kind id offset rest (l ++ l').

Lemma chunkBytes : MaxHandoffReplayChunkBytes = 524288.
Proof. reflexivity. Qed.

Lemma emits_chunks fuel kind id offset rest :
  (length rest <= fuel)%nat -> emits (writeChunks fuel kind id offset rest) (chunked kind id offset rest).
Proof.
  revert offset rest. induction fuel as [|fuel IH]; intros offset [|b rest] Hlen; simpl in Hlen; try lia;
    try (apply emits_ret; constructor).
  cbn [writeChunks]. eapply emits_weaken; [|apply emits_bind; [apply emits_WriteJSON|intros u; apply IH]].
  - intros l (l1 & l2 & -> & H1 & H2). by eapply chunked_cons.
  - unfold unchunk. rewrite length_drop, chunkBytes. cbn [length]. lia.
Qed.

Lemma chunk_length rest : zlen (chunk rest) = Z.min MaxHandoffReplayChunkBytes (zlen rest).
Proof. unfold chunk, zlen. rewrite length_take, chunkBytes. lia. Qed.

Lemma chunk_unchunk rest : chunk rest ++ unchunk rest = rest.
Proof. apply take_drop. Qed.

Lemma unchunk_length rest : rest <> [] -> (length (unchunk rest) < length rest)%nat.
Proof. destruct rest; [done|]. intros _. unfold unchunk. rewrite length_drop, chunkBytes. cbn [length]. lia. Qed.

Lemma chunkMessage_ok kind id offset rest :
  plain kind -> plain id -> int offset -> Forall is_byte rest ->
  messageOk (chunkMessage kind id offset (chunk rest)).
Proof.
  intros Hk Hi Ho Hb. repeat split; try done; try constructor.
  - apply Ho.
  - apply Ho.
  - by apply Forall_take.
Qed.

Lemma delivers_chunks kind id offset rest l :
  chunked kind id offset rest l -> plain kind -> plain id -> Forall is_byte rest ->
  forall fuel replay size,
    offset = zlen replay \/ rest = [] -> size = zlen replay + zlen rest -> size < two63 ->
    (length rest <= fuel)%nat ->
    delivers (readChunks fuel kind id size replay) l (replay ++ rest).
Proof.
  intros Hch Hk Hi. induction Hch as [offset|offset rest l l' Hne Hfr Hch IH];
    intros Hb fuel replay size Hoff Hsize Hbound Hfuel.
  - rewrite app_nil_r. rewrite zlen_nil in Hsize. destruct fuel; simpl; rewrite (proj2 (Z.leb_le _ _)) by lia;
      apply delivers_ret.
  - assert (Hr : 0 < zlen rest) by (destruct rest; [done|]; rewrite zlen_cons; pose proof (zlen_nonneg rest); lia).
    pose proof (chunk_length rest) as Hcl. destruct Hoff as [->|]; [|done].
    assert (Hcp : 0 < zlen (chunk rest) <= MaxHandoffReplayChunkBytes).
    { rewrite Hcl, chunkBytes. lia. }
    destruct fuel as [|fuel]; [destruct rest; [done|cbn [length] in Hfuel; lia]|]. cbn [readChunks].
    rewrite (proj2 (Z.leb_gt _ _)) by lia. pose proof (zlen_nonneg replay).
    eapply delivers_bind.
    + apply delivers_message; [|exact Hfr]. apply chunkMessage_ok; try done. split; [lia|].
      lia.
    + cbv beta iota. assert (Hinv : chunkInvalid kind id size replay (chunkMessage kind id (zlen replay) (chunk rest)) = false).
      { unfold chunkInvalid. cbn [Type_ TerminalID Offset Replay chunkMessage]. rewrite !String.eqb_refl, Z.eqb_refl. cbn [negb orb].
        rewrite (proj2 (Z.eqb_neq _ _)), (proj2 (Z.ltb_ge _ _)), (proj2 (Z.ltb_ge _ _)) by lia. done. }
      rewrite Hinv. cbn [Replay chunkMessage]. rewrite <- (chunk_unchunk rest) at 2. rewrite app_assoc.
      assert (Hsplit : zlen rest = zlen (chunk rest) + zlen (unchunk rest))
        by (rewrite <- zlen_app; by rewrite chunk_unchunk).
      apply IH.
      * by apply Forall_drop.
      * destruct (decide (unchunk rest = [])) as [|Hu]; [by right|]. left. rewrite zlen_app.
        f_equal. rewrite Hcl. pose proof (zlen_nonneg (unchunk rest)).
        assert (0 < zlen (unchunk rest)) by (destruct (unchunk rest); [done|]; rewrite zlen_cons; pose proof (zlen_nonneg l0); lia).
        lia.
      * rewrite zlen_app. lia.
      * done.
      * pose proof (unchunk_length rest Hne). lia.
Qed.

(** A blob is read back, whatever the limit it was written under. *)
Lemma emits_blob kind id data limit :
  emits (writeHandoffBlob kind id data limit)
    (fun l => chunked kind id 0 data l /\ (id =? "")%string = false /\ zlen data <= limit).
Proof.
  unfold writeHandoffBlob. destruct (id =? "")%string; [by intros c a c' Hf [=]|].
  destruct (limit <? zlen data) eqn:Hl; [by intros c a c' Hf [=]|]. bool_to_prop.
  eapply emits_weaken; [|by apply emits_chunks]. auto.
Qed.

Lemma delivers_blob kind id data limit l :
  chunked kind id 0 data l -> (id =? "")%string = false -> zlen data <= limit -> limit < two63 ->
  plain kind -> plain id -> Forall is_byte data ->
  delivers (readHandoffBlob kind id (zlen data) limit) l data.
Proof.
  intros Hch Hid Hlim Hb Hk Hp Hd. unfold readHandoffBlob. rewrite Hid. pose proof (zlen_nonneg data).
  rewrite (proj2 (Z.ltb_ge _ _)), (proj2 (Z.ltb_ge _ _)) by lia. simpl.
  apply (delivers_chunks _ _ _ _ _ Hch Hk Hp Hd _ [] (zlen data)); [by left|done|lia|].
  unfold zlen. lia.
Qed.

(** *** Loops *)

Lemma emits_forEach {A} (f : A -> IO unit) (P : A -> list (Z * bytes) -> Prop) l :
  (forall x, emits (f x) (P x)) ->
  emits (forEach f l) (fun s => exists parts, s = concat parts /\ Forall2 P l parts).
Proof.
  intros Hf. induction l as [|x l IH]; cbn [forEach].
  - apply emits_ret. by exists [].
  - eapply emits_weaken; [|apply emits_bind; [apply Hf|intros u; apply IH]].
    intros s (s1 & s2 & -> & H1 & parts & -> & H2). exists (s1 :: parts). by split; [|constructor].
Qed.

Lemma delivers_traverse {A B C} (g : A -> IO B) (h : C -> A) (y : C -> B) l parts :
  Forall2 (fun x p => delivers (g (h x)) p (y x)) l parts ->
  delivers (traverse g (map h l)) (concat parts) (map y l).
Proof.
  induction 1 as [|x p l parts Hx _ IH]; cbn [traverse map concat]; [apply delivers_ret|].
  eapply delivers_bind; [exact Hx|]. rewrite <- (app_nil_r (concat parts)).
  eapply delivers_bind; [exact IH|]. apply delivers_ret.
Qed.

(** *** Descriptors in batches *)

Definition batchLimit : nat := Z.to_nat MaxHandoffFDsPerFrame.

Inductive batched : list quiescedTerminal -> list (Z * bytes) -> Prop :=
| batched_nil : batched [] []
| batched_cons q l l' :
    q <> [] -> framed (fdsMessage (map q_id (take batchLimit q))) (map q_PTY (take batchLimit q)) l ->
    batched (drop batchLimit q) l' -> batched q (l ++ l').

Lemma emits_descriptors fuel q : (length q <= fuel)%nat -> emits (sendDescriptors fuel q) (batched q).
Proof.
  revert q. induction fuel as [|fuel IH]; intros [|i q] Hlen; simpl in Hlen; try lia;
    try (apply emits_ret; constructor).
  cbn [sendDescriptors]. eapply emits_weaken; [|apply emits_bind; [apply emits_WriteJSON|intros u; apply IH]].
  - intros l (l1 & l2 & -> & H1 & H2). by eapply batched_cons.
  - rewrite length_drop. unfold MaxHandoffFDsPerFrame. cbn [length]. lia.
Qed.

Lemma batched_fits q l : batched q l -> fits l.
Proof.
  induction 1 as [|q l l' _ (data & _ & _ & ->) _ IH]; [constructor|]. apply fits_app. split; [|exact IH].
  apply fits_frame. rewrite zlen_map. unfold zlen, batchLimit. rewrite length_take.
  unfold MaxHandoffFDsPerFrame. lia.
Qed.

Lemma chunked_fits kind id offset rest l : chunked kind id offset rest l -> fits l.
Proof.
  induction 1 as [|offset rest l l' _ (data & _ & _ & ->) _ IH]; [constructor|].
  apply fits_app. split; [|exact IH]. exact (fits_frame data [] ltac:(done)).
Qed.

Lemma arriving_pending w : (length (arriving w) <= sum_list (map arrivalSize w))%nat.
Proof.
  unfold arriving. induction w as [|[s|e] w IH]; simpl; [done| |done].
  rewrite length_app. unfold segmentStream. rewrite attach_length. lia.
Qed.

Lemma frameStream_length data oob : (0 < length (frameStream data oob))%nat.
Proof. unfold frameStream. rewrite attach_length. simpl. lia. Qed.

Lemma batchError_fine runtimeIDs fdsByID batch ids :
  NoDup ids -> Forall (fun id => id ∈ runtimeIDs /\ fdsByID !! id = None /\ id ∉ batch) ids ->
  batchError runtimeIDs fdsByID batch ids = None.
Proof.
  revert batch. induction ids as [|id ids IH]; intros batch Hnd Hall; [done|]. simpl.
  inversion Hnd as [|? ? Hid Hnd']; subst. inversion Hall as [|? ? (Hr & Hf & Hb) Hall']; subst.
  rewrite !bool_decide_eq_false_2; [|done|by rewrite Hf; intros []|by intros Hn].
  apply IH; [done|]. rewrite Forall_forall in *. intros x Hx. destruct (Hall' x Hx) as (? & ? & ?).
  split; [done|]. split; [done|]. set_solver.
Qed.

Lemma assignFDs_union fdsByID ids fds :
  NoDup ids -> length ids = length fds -> Forall (fun id => fdsByID !! id = None) ids ->
  assignFDs fdsByID ids fds = list_to_map (zip ids fds) ∪ fdsByID.
Proof.
  revert fdsByID fds. induction ids as [|id ids IH]; intros fdsByID [|fd fds] Hnd Hlen Hall; try done.
  { change (fdsByID = ∅ ∪ fdsByID). by rewrite (left_id_L ∅ (∪)). }
  inversion Hnd as [|? ? Hid Hnd']; subst. inversion Hall as [|? ? Hf Hall']; subst. simpl.
  rewrite IH; [|done|by injection Hlen|].
  - rewrite <- insert_union_l, insert_union_r; [done|]. apply not_elem_of_list_to_map_1.
    by rewrite fst_zip by (injection Hlen; lia).
  - rewrite Forall_forall in *. intros x Hx. rewrite lookup_insert_ne by congruence. by apply Hall'.
Qed.

Definition terminalFDs (q : list quiescedTerminal) : gmap string Z :=
  list_to_map (map (fun t => (q_id t, q_PTY t)) q).

Lemma zip_terminals (q : list quiescedTerminal) :
  zip (map q_id q) (map q_PTY q) = map (fun t => (q_id t, q_PTY t)) q.
Proof. induction q; simpl; congruence. Qed.

Lemma terminalFDs_none q id : id ∉ map q_id q -> terminalFDs q !! id = None.
Proof.
  intros Hid. apply not_elem_of_list_to_map_1. by rewrite <- list_fmap_compose.
Qed.

Lemma terminalFDs_app q1 q2 : terminalFDs (q1 ++ q2) = terminalFDs q1 ∪ terminalFDs q2.
Proof. unfold terminalFDs. by rewrite map_app, list_to_map_app. Qed.

Lemma terminalFDs_size q : NoDup (map q_id q) -> size (terminalFDs q) = length q.
Proof.
  intros Hnd. unfold terminalFDs. rewrite <- length_map_to_list, map_to_list_to_map; [by rewrite length_map|].
  by rewrite <- list_fmap_compose.
Qed.

Lemma fdsMessage_ok ids : Forall plain ids -> messageOk (fdsMessage ids).
Proof.
  intros Hids. unfold messageOk. cbn. assert (He : plain "") by constructor.
  split; [by repeat constructor|]. split_and!; try done; by constructor.
Qed.

Lemma delivers_collect q l :
  batched q l -> forall fuel before runtimeIDs,
    (length l < fuel)%nat -> NoDup (map q_id (before ++ q)) ->
    Forall plain (map q_id q) -> Forall (fun id => id ∈ runtimeIDs) (map q_id q) ->
    delivers (collectFDs fuel runtimeIDs (length (before ++ q)) (terminalFDs before)) l
      (terminalFDs (before ++ q)).
Proof.
  induction 1 as [|q l l' Hne Hfr Hb IH]; intros fuel before runtimeIDs Hfuel Hnd Hp Hr.
  - rewrite app_nil_r in *. destruct fuel as [|fuel]; [simpl in Hfuel; lia|]. cbn [collectFDs].
    rewrite terminalFDs_size by done. rewrite Nat.leb_refl. apply delivers_ret.
  - pose proof Hfr as (data & _ & _ & Hl). pose proof (frameStream_length data (rightsOob (map q_PTY (take batchLimit q)))) as Hpos.
    rewrite length_app, Hl in Hfuel. destruct fuel as [|fuel]; [lia|]. cbn [collectFDs].
    set (b := take batchLimit q) in *. set (r := drop batchLimit q) in *.
    assert (Hq : q = b ++ r) by (symmetry; apply take_drop).
    rewrite Hq, !map_app, !Forall_app in Hp, Hr. destruct Hp as [Hpb Hpr], Hr as [Hrb Hrr].
    rewrite Hq, app_assoc in Hnd.
    assert (Hndb : NoDup (map q_id (before ++ b))) by (rewrite map_app in Hnd; by apply NoDup_app in Hnd as [? _]).
    assert (Hsize : (length (before ++ q) <=? size (terminalFDs before))%nat = false).
    { apply Nat.leb_gt. rewrite terminalFDs_size.
      - rewrite length_app. destruct q; [done|]. simpl. lia.
      - rewrite map_app in Hndb. by apply NoDup_app in Hndb as [? _]. }
    rewrite Hsize. eapply delivers_bind.
    { intros c k Hc Hf Ha. destruct (delivers_message (fdsMessage (map q_id b)) (map q_PTY b) l) with c k
        as (c' & E & Hc'); try done.
      - by apply fdsMessage_ok.
      - exists c'. by rewrite (closing_ok _ _ _ _ _ E). }
    cbv beta iota. cbn [Type_ TerminalIDs fdsMessage]. rewrite String.eqb_refl, !length_map, Nat.eqb_refl.
    cbn [negb orb].
    rewrite map_app in Hndb. apply NoDup_app in Hndb as (Hnd1 & Hdisj & Hnd2).
    assert (Hfree : Forall (fun id => terminalFDs before !! id = None) (map q_id b)).
    { rewrite Forall_forall. intros id Hid. apply terminalFDs_none. intros Hin. exact (Hdisj id Hin Hid). }
    rewrite batchError_fine; [|done|].
    + rewrite assignFDs_union, zip_terminals by (done || by rewrite !length_map).
      change (list_to_map (map (fun t => (q_id t, q_PTY t)) b)) with (terminalFDs b).
      rewrite map_union_comm.
      * rewrite <- terminalFDs_app, Hq, app_assoc. apply IH; [lia|done|done|done].
      * apply map_disjoint_spec. intros i x y Hx Hy.
        assert (i ∈ map q_id b).
        { destruct (decide (i ∈ map q_id b)) as [|Hn]; [done|]. by rewrite terminalFDs_none in Hx. }
        rewrite Forall_forall in Hfree. by rewrite Hfree in Hy.
    + rewrite Forall_forall in *. intros id Hid. split; [by apply Hrb|]. split; [by apply Hfree|]. apply not_elem_of_empty.
Qed.

Lemma delivers_collectAll q l runtimeIDs :
  batched q l -> NoDup (map q_id q) -> Forall plain (map q_id q) ->
  Forall (fun id => id ∈ runtimeIDs) (map q_id q) ->
  delivers (collectAll runtimeIDs (length q)) l (terminalFDs q).
Proof.
  intros Hb Hnd Hp Hr c k Hc Hf Ha.
  refine (delivers_collect q l Hb (S (pendingSize c)) [] runtimeIDs _ Hnd Hp Hr c k Hc Hf Ha).
  pose proof (arriving_pending (incoming c)) as Hle. rewrite Ha, length_app in Hle. unfold pendingSize. lia.
Qed.

(** *** The manifest *)

Lemma manifestRuntimes_ok tr tc q rs :
  manifestRuntimes tr tc q = Ok rs ->
  rs = map quiescedRuntime q /\
  Forall (fun t => zlen (q_Replay t) <= MaxHandoffReplayBytesPerTerminal /\
                   zlen (q_Recovery t) <= MaxHandoffRecoveryBytesPerTerminal) q.
Proof.
  revert tr tc rs. induction q as [|t q IH]; intros tr tc rs; cbn [manifestRuntimes]; [by intros [= <-]|].
  destruct (_ <? _) eqn:H1; [done|]. destruct (MaxHandoffTotalReplayBytes <? _) eqn:H2; [done|].
  destruct (MaxHandoffRecoveryBytesPerTerminal <? _) eqn:H3; [done|].
  destruct (MaxHandoffTotalRecoveryBytes <? _) eqn:H4; [done|]. bool_to_prop.
  destruct (manifestRuntimes _ _ q) as [rs'|e] eqn:E; [|done]. intros [= <-].
  apply IH in E as [-> Hall]. split; [done|]. constructor; [lia|done].
Qed.

Lemma validateRecovery_ok tr tc q rs :
  manifestRuntimes tr tc q = Ok rs -> validateRecovery HandoffVersion tc rs = Ok tt.
Proof.
  revert tr tc rs. induction q as [|t q IH]; intros tr tc rs; cbn [manifestRuntimes]; [by intros [= <-]|].
  destruct (_ <? _) eqn:H1; [done|]. destruct (MaxHandoffTotalReplayBytes <? _) eqn:H2; [done|].
  destruct (MaxHandoffRecoveryBytesPerTerminal <? _) eqn:H3; [done|].
  destruct (MaxHandoffTotalRecoveryBytes <? _) eqn:H4; [done|]. bool_to_prop.
  destruct (manifestRuntimes _ _ q) as [rs'|e] eqn:E; [|done]. intros [= <-].
  apply IH in E. cbn [validateRecovery RecoverySize quiescedRuntime]. pose proof (zlen_nonneg (q_Recovery t)).
  rewrite (proj2 (Z.ltb_ge _ 0)), (proj2 (Z.ltb_ge MaxHandoffRecoveryBytesPerTerminal _)) by lia.
  change (HandoffVersion <? PreviousRecoveryHandoffVersion) with false. cbn [orb andb].
  by rewrite (proj2 (Z.ltb_ge _ _)) by lia.
Qed.

Lemma checkRuntimes_ok tr tc q rs seen :
  manifestRuntimes tr tc q = Ok rs -> NoDup (map q_id q) ->
  Forall (fun id => id <> "" /\ id ∉ seen) (map q_id q) ->
  checkRuntimes HandoffVersion seen tr rs = Ok (list_to_set (map q_id q) ∪ seen).
Proof.
  revert tr tc rs seen. induction q as [|t q IH]; intros tr tc rs seen; cbn [manifestRuntimes].
  { intros [= <-] _ _. cbn. by rewrite (left_id_L ∅ (∪)). }
  destruct (_ <? _) eqn:H1; [done|]. destruct (MaxHandoffTotalReplayBytes <? _) eqn:H2; [done|].
  destruct (MaxHandoffRecoveryBytesPerTerminal <? _) eqn:H3; [done|].
  destruct (MaxHandoffTotalRecoveryBytes <? _) eqn:H4; [done|]. bool_to_prop.
  destruct (manifestRuntimes _ _ q) as [rs'|e] eqn:E; [|done]. intros [= <-] Hnd Hall.
  inversion Hnd as [|? ? Hid Hnd']; subst. inversion Hall as [|? ? [Hne Hs] Hall']; subst.
  cbn [checkRuntimes hr_TerminalID quiescedRuntime hr_Replay ReplaySize].
  rewrite (proj2 (String.eqb_neq _ _)), bool_decide_eq_false_2 by done.
  change (PreviousChunkedHandoffVersion <=? HandoffVersion) with true. rewrite zlen_nil. cbn [andb negb Z.eqb].
  pose proof (zlen_nonneg (q_Replay t)).
  rewrite (proj2 (Z.ltb_ge _ 0)), (proj2 (Z.ltb_ge MaxHandoffReplayBytesPerTerminal _)) by lia. cbn [orb].
  rewrite (proj2 (Z.ltb_ge _ _)) by lia. rewrite (IH _ _ _ _ E Hnd').
  - f_equal. simpl. set_solver.
  - rewrite Forall_forall in *. intros x Hx. destruct (Hall' x Hx). split; [done|].
    apply not_elem_of_union. split; [|done]. apply not_elem_of_singleton. congruence.
Qed.

Context {T : Type} (terminalOk : T -> Prop) `{JM : JSON (HandoffManifest T)} `{!JSONLaws JM (manifestOk terminalOk)}.

Lemma delivers_manifest (m : HandoffManifest T) l :
  manifestOk terminalOk m -> framed m [] l -> delivers ReadManifest l m.
Proof.
  intros Hm (data & HM & Hd & ->) c k Hc Hf Ha.
  exact (ReadManifest_stream m data c k Hc Hf Ha Hd (Unmarshal_Marshal _ _ Hm HM)).
Qed.

(** A terminal whose fields JSON keeps. *)
Definition terminalPlain (t : quiescedTerminal) : Prop :=
  plain (q_id t) /\ q_id t <> "" /\ int (q_ChildPID t) /\ int (q_Cols t) /\ int (q_Rows t) /\
  Forall is_byte (q_Replay t) /\ Forall is_byte (q_Recovery t).

Definition sentManifest (binaryVersion token : string) (terminals : list T) (activity : bytes)
    (q : list quiescedTerminal) : HandoffManifest T := {|
  ActivitySize := zlen activity; Activity := []; Version := HandoffVersion;
  BinaryVersion := binaryVersion; hm_Token := token;
  Session_ := {| s_Version := SessionVersion; Terminals := terminals |};
  Runtimes := map quiescedRuntime q |}.

(** The runtime the successor holds for a terminal that was sent. *)
Definition receivedRuntime (t : quiescedTerminal) : HandoffRuntime :=
  set_Recovery (set_Replay (quiescedRuntime t) (q_Replay t)) (q_Recovery t).

Definition receivedManifest (binaryVersion token : string) (terminals : list T) (activity : bytes)
    (q : list quiescedTerminal) : HandoffManifest T := {|
  ActivitySize := zlen activity; Activity := activity; Version := HandoffVersion;
  BinaryVersion := binaryVersion; hm_Token := token;
  Session_ := {| s_Version := SessionVersion; Terminals := terminals |};
  Runtimes := map receivedRuntime q |}.

Lemma sentManifest_ok binaryVersion token terminals activity q :
  plain binaryVersion -> plain token -> Forall terminalOk terminals -> zlen activity <= MaxHandoffActivityBytes ->
  Forall terminalPlain q ->
  Forall (fun t => zlen (q_Replay t) <= MaxHandoffReplayBytesPerTerminal /\
                   zlen (q_Recovery t) <= MaxHandoffRecoveryBytesPerTerminal) q ->
  manifestOk terminalOk (sentManifest binaryVersion token terminals activity q).
Proof.
  intros Hb Ht Hts Ha Hq Hz. unfold manifestOk, sentManifest, int, MaxHandoffActivityBytes in *. simpl.
  pose proof (zlen_nonneg activity). split_and!; try done; try lia.
  apply Forall_map. rewrite Forall_forall in *. intros t Hin.
  destruct (Hq t Hin) as (Hp & _ & Hc & Hco & Hro & _). destruct (Hz t Hin) as [Hz1 Hz2].
  unfold MaxHandoffReplayBytesPerTerminal, MaxHandoffRecoveryBytesPerTerminal in *.
  pose proof (zlen_nonneg (q_Replay t)). pose proof (zlen_nonneg (q_Recovery t)).
  unfold runtimeOk, int, quiescedRuntime in *. simpl. split_and!; try done; lia || apply Forall_nil; done.
Qed.

(** What [sendHandoff] puts on the stream. *)
Definition transferred (binaryVersion token : string) (terminals : list T) (activity : bytes)
    (q : list quiescedTerminal) (l : list (Z * bytes)) : Prop :=
  exists m replays recoveries act fds rs,
    l = m ++ concat replays ++ concat recoveries ++ act ++ fds /\
    manifestRuntimes 0 0 q = Ok rs /\
    framed (sentManifest binaryVersion token terminals activity q) [] m /\
    Forall2 (fun t s => chunked "replay" (q_id t) 0 (q_Replay t) s) q replays /\
    Forall2 (fun t s => chunked "recovery" (q_id t) 0 (q_Recovery t) s) q recoveries /\
    chunked "activity" "native-activity" 0 activity act /\ zlen activity <= MaxHandoffActivityBytes /\
    batched q fds.

Lemma emits_sendHandoff binaryVersion token terminals activity q :
  emits (sendHandoff binaryVersion token terminals activity q)
    (transferred binaryVersion token terminals activity q).
Proof.
  unfold sendHandoff. destruct (manifestRuntimes 0 0 q) as [rs|e] eqn:E;
    [|intros c a c' Hf; by intros [=]].
  pose proof (manifestRuntimes_ok _ _ _ _ E) as [-> _]. apply emits_check.
  eapply emits_weaken; [|apply emits_bind; [apply emits_WriteJSON|intros _; apply emits_bind;
      [apply emits_forEach; intros t; apply emits_blob|intros _; apply emits_bind;
        [apply emits_forEach; intros t; apply emits_blob|intros _; apply emits_bind;
          [apply emits_blob|intros _; apply emits_descriptors, le_n]]]]].
  intros l (m & l1 & -> & Hm & s1 & l2 & -> & (replays & -> & Hrep) & s2 & l3 & -> &
    (recoveries & -> & Hrec) & act & fds & -> & (Hact & _ & Hlim) & Hfds).
  exists m, replays, recoveries, act, fds, (map quiescedRuntime q).
  split_and!; try done.
  - eapply Forall2_impl; [exact Hrep|]. by intros t s (? & _).
  - eapply Forall2_impl; [exact Hrec|]. by intros t s (? & _).
Qed.

Lemma concat_fits {A} (P : A -> list (Z * bytes) -> Prop) q parts :
  (forall t s, P t s -> fits s) -> Forall2 P q parts -> fits (concat parts).
Proof.
  intros HP. induction 1 as [|t s q parts Ht _ IH]; [constructor|].
  apply fits_app. split; [by apply (HP t)|done].
Qed.

Lemma transferred_fits binaryVersion token terminals activity q l :
  transferred binaryVersion token terminals activity q l -> fits l.
Proof.
  intros (m & replays & recoveries & act & fds & rs & -> & _ & (data & _ & _ & ->) & Hrep & Hrec & Hact & _ & Hfds).
  apply fits_app. split; [exact (fits_frame data [] ltac:(done))|].
  apply fits_app. split; [eapply concat_fits; [|exact Hrep]; intros t s; apply chunked_fits|].
  apply fits_app. split; [eapply concat_fits; [|exact Hrec]; intros t s; apply chunked_fits|].
  apply fits_app. split; [by apply chunked_fits in Hact|by apply batched_fits in Hfds].
Qed.

(** The loops over the runtimes read the blobs back. *)
Lemma delivers_blobs (read : HandoffRuntime -> IO bytes) (g : HandoffRuntime -> bytes -> HandoffRuntime)
    (h : quiescedTerminal -> HandoffRuntime) (data : quiescedTerminal -> bytes) q parts :
  Forall2 (fun t s => delivers (read (h t)) s (data t)) q parts ->
  delivers (traverse (fun r => x ← read r; mret (g r x)) (map h q)) (concat parts)
    (map (fun t => g (h t) (data t)) q).
Proof.
  intros Hq. apply delivers_traverse. eapply Forall2_impl; [exact Hq|]. intros t s Ht.
  rewrite <- (app_nil_r s). eapply delivers_bind; [exact Ht|apply delivers_ret].
Qed.

Lemma Forall_and_2 {A} (P Q : A -> Prop) l : Forall P l -> Forall Q l -> Forall (fun x => P x /\ Q x) l.
Proof. induction 1; intros HQ; inversion HQ; subst; auto. Qed.

Lemma blobs_delivered kind limit (data : quiescedTerminal -> bytes) q parts :
  plain kind -> limit < two63 ->
  Forall2 (fun t s => chunked kind (q_id t) 0 (data t) s) q parts ->
  Forall (fun t => plain (q_id t) /\ q_id t <> "" /\ Forall is_byte (data t) /\ zlen (data t) <= limit) q ->
  Forall2 (fun t s => delivers (readHandoffBlob kind (q_id t) (zlen (data t)) limit) s (data t)) q parts.
Proof.
  intros Hk Hl. induction 1 as [|t s q parts Hc _ IH]; intros Hall; [constructor|].
  inversion Hall as [|? ? (Hp & Hne & Hb & Hs) Hall']; subst. constructor; [|by apply IH].
  apply delivers_blob; try done. by apply String.eqb_neq.
Qed.

Lemma delivers_receive binaryVersion token terminals activity q l :
  transferred binaryVersion token terminals activity q l ->
  plain binaryVersion -> plain token -> Forall terminalOk terminals -> activity <> [] -> Forall is_byte activity ->
  Forall terminalPlain q -> NoDup (map q_id q) ->
  delivers (receiveHandoff token) l (receivedManifest binaryVersion token terminals activity q, terminalFDs q).
Proof.
  intros (m & replays & recoveries & act & fds & rs & -> & Hrs & Hm & Hrep & Hrec & Hact & Hlim & Hfds)
    Hb Ht Hts Hane Hab Hq Hnd.
  pose proof (manifestRuntimes_ok _ _ _ _ Hrs) as [Hmap Hsizes].
  assert (Hplain : Forall plain (map q_id q)).
  { apply Forall_map. eapply Forall_impl; [exact Hq|]. by intros t (? & _). }
  unfold receiveHandoff.
  eapply delivers_bind; [apply delivers_manifest; [|exact Hm]; by apply sentManifest_ok|].
  eapply delivers_bind_nil.
  { intros c k Hc Hf Ha. exists c. unfold framingOf. pose proof Hc as [-> _].
    split; [reflexivity|]. split; [done|]. split; [done|]. by destruct c. }
  cbv beta iota. cbn [sentManifest Version hm_Token Session_ s_Version].
  change (validHandoffVersion HandoffFramingLengthPrefixed HandoffVersion) with true.
  rewrite String.eqb_refl. cbn [negb orb]. change (SessionVersion =? SessionVersion) with true. cbn [negb].
  eapply delivers_bind_nil.
  { unfold ValidateHandoffRecoverySizes. cbn [sentManifest Version Runtimes].
    rewrite <- Hmap, (validateRecovery_ok _ _ _ _ Hrs). apply delivers_check. }
  eapply delivers_bind_nil.
  { unfold ValidateHandoffActivitySize. cbn [sentManifest Version ActivitySize].
    change (HandoffVersion <? PreviousActivityHandoffVersion) with false. cbv iota.
    assert (0 < zlen activity) by (destruct activity; [done|]; rewrite zlen_cons; pose proof (zlen_nonneg activity); lia).
    rewrite (proj2 (Z.leb_gt _ _)), (proj2 (Z.ltb_ge _ _)) by lia. apply delivers_check. }
  eapply delivers_bind_nil.
  { cbn [sentManifest Runtimes]. rewrite <- Hmap, (checkRuntimes_ok _ _ _ _ ∅ Hrs Hnd); [apply delivers_check|].
    apply Forall_map. eapply Forall_impl; [exact Hq|]. intros t (_ & Hne & _). split; [done|apply not_elem_of_empty]. }
  unfold readReplays, readRecoveries.
  change (PreviousChunkedHandoffVersion <=? HandoffVersion) with true.
  change (PreviousRecoveryHandoffVersion <=? HandoffVersion) with true.
  change (PreviousActivityHandoffVersion <=? HandoffVersion) with true. cbv iota.
  cbn [sentManifest Runtimes].
  eapply delivers_bind.
  { apply (delivers_blobs (fun r => ReadReplay (hr_TerminalID r) (ReplaySize r)) set_Replay quiescedRuntime q_Replay).
    apply blobs_delivered; [by repeat constructor|done|exact Hrep|].
    eapply Forall_impl; [exact (Forall_and_2 _ _ _ Hq Hsizes)|].
    intros t [(? & ? & _ & _ & _ & ? & _) [? _]]. done. }
  eapply delivers_bind.
  { apply (delivers_blobs (fun r => ReadRecovery (hr_TerminalID r) (RecoverySize r)) set_Recovery
      (fun t => set_Replay (quiescedRuntime t) (q_Replay t)) q_Recovery).
    apply blobs_delivered; [by repeat constructor|done|exact Hrec|].
    eapply Forall_impl; [exact (Forall_and_2 _ _ _ Hq Hsizes)|].
    intros t [(? & ? & _ & _ & _ & _ & ?) [_ ?]]. done. }
  eapply delivers_bind.
  { cbn [sentManifest ActivitySize]. apply delivers_blob; by repeat constructor. }
  rewrite <- (app_nil_r fds). eapply delivers_bind.
  { rewrite length_map. apply delivers_collectAll; [done|done|done|].
    rewrite Forall_forall. intros id Hid. by apply elem_of_union_l, elem_of_list_to_set. }
  apply delivers_ret.
Qed.

(** *** Completion

    A writer whose kernel accepts every write finishes: every message that the
    code sends fits a frame. *)

Definition accepting (c : HandoffConnection) : Prop :=
  Framing c = HandoffFramingLengthPrefixed /\ forall n, exists k, writes c n = Accepts k.

Definition completes {A} (m : IO A) : Prop :=
  forall c, accepting c -> exists a c', m c = (Ok a, c') /\ accepting c'.

Lemma completes_ret {A} (a : A) : completes (mret a).
Proof. intros c Hc. by exists a, c. Qed.

Lemma completes_bind {A B} (m : IO A) (f : A -> IO B) :
  completes m -> (forall a, completes (f a)) -> completes (m ≫= f).
Proof.
  intros Hm Hf c Hc. destruct (Hm c Hc) as (a & c1 & E & Hc1). rewrite (io_bind_ok _ _ _ _ _ E). by apply Hf.
Qed.

Lemma completes_write payload oob c :
  payload <> [] -> accepting c ->
  exists n c', WriteMsgUnix payload oob c = (Ok n, c') /\ (0 < n)%nat /\ accepting c'.
Proof.
  intros Hne [Hf Hw]. unfold WriteMsgUnix. destruct (Hw O) as [k ->]. do 2 eexists. split; [reflexivity|].
  split; [destruct payload; [done|cbn [length]; lia]|]. split; [done|]. intros n. apply Hw.
Qed.

Lemma completes_writeRest fuel rest : (length rest <= fuel)%nat -> completes (writeRest fuel rest).
Proof.
  revert rest. induction fuel as [|fuel IH]; intros [|b rest] Hlen c Hc; cbn [length] in Hlen; try lia;
    try (by exists tt, c).
  cbn [writeRest]. destruct (completes_write (b :: rest) [] c ltac:(done) Hc) as (n & c1 & E & Hn & Hc1).
  rewrite (io_bind_ok _ _ _ _ _ E). destruct n as [|n]; [lia|]. apply IH; [|done].
  rewrite length_drop. cbn [length]. lia.
Qed.

Lemma completes_WriteJSON {A} `{JSON A} (v : A) fds data :
  Marshal v = Ok data -> 0 < zlen data <= MaxMessageSize -> completes (WriteJSON v fds).
Proof.
  intros HM Hd c Hc. unfold WriteJSON. rewrite HM, (proj2 (Z.eqb_neq _ _)), (proj2 (Z.ltb_ge _ _)) by lia.
  cbn [orb]. pose proof Hc as [Hf _]. rewrite Hf.
  destruct (completes_write (PutUint32 (zlen data) ++ data) (rightsOob fds) c ltac:(done) Hc)
    as (n & c1 & E & Hn & Hc1).
  unfold rightsOob in E. rewrite (io_bind_ok _ _ _ _ _ E). apply completes_writeRest; [|done].
  rewrite length_drop. lia.
Qed.

(** The encoding of a message: names, quotes and numbers, at most six bytes for
    a character of a string, and base64 for the payload. *)
Definition stringBound (s : string) : Z := 6 * Z.of_nat (String.length s) + 3.
Definition messageBound (m : HandoffMessage) : Z :=
  256 + stringBound (Type_ m) + stringBound (Token m) + zsum stringBound (TerminalIDs m)
  + stringBound (TerminalID m) + stringBound (Error_ m) + 4 * ((zlen (Replay m) + 2) / 3).

Context (Marshal_size : forall m : HandoffMessage, messageOk m ->
  exists data, Marshal m = Ok data /\ 0 < zlen data <= messageBound m).

Lemma completes_message m fds :
  messageOk m -> messageBound m <= MaxMessageSize -> completes (WriteJSON m fds).
Proof.
  intros Hm Hb. destruct (Marshal_size m Hm) as (data & HM & Hd). apply (completes_WriteJSON m fds data HM). lia.
Qed.

Lemma chunk_fits kind id offset rest :
  Z.of_nat (String.length kind) + Z.of_nat (String.length id) <= 50000 ->
  messageBound (chunkMessage kind id offset (chunk rest)) <= MaxMessageSize.
Proof.
  intros Hl. unfold messageBound, stringBound, chunkMessage, MaxMessageSize.
  cbn [Type_ Token TerminalIDs TerminalID Error_ Replay zsum String.length].
  pose proof (chunk_length rest) as Hc. rewrite chunkBytes in Hc.
  generalize dependent (zlen (chunk rest)). intros n Hn.
  Z.to_euclidean_division_equations. lia.
Qed.

Lemma completes_chunks fuel kind id offset rest :
  (length rest <= fuel)%nat -> plain kind -> plain id -> Forall is_byte rest ->
  0 <= offset -> offset + zlen rest < two63 ->
  Z.of_nat (String.length kind) + Z.of_nat (String.length id) <= 50000 ->
  completes (writeChunks fuel kind id offset rest).
Proof.
  revert offset rest. induction fuel as [|fuel IH]; intros offset rest Hlen Hk Hi Hb Ho Hbd Hs;
    destruct rest as [|b rest]; cbn [length] in Hlen; try lia; try (intros c Hc; by exists tt, c).
  cbn [writeChunks]. apply completes_bind.
  - apply completes_message; [|by apply chunk_fits]. apply chunkMessage_ok; try done.
    split; [lia|]. pose proof (zlen_nonneg (b :: rest)). lia.
  - intros u. destruct (decide (unchunk (b :: rest) = [])) as [Hz|Hne].
    { rewrite Hz. intros c Hc. exists tt, c. by destruct fuel. }
    pose proof (unchunk_length (b :: rest) ltac:(done)) as Hul. cbn [length] in Hul.
    assert (Hz : zlen (b :: rest) = zlen (chunk (b :: rest)) + zlen (unchunk (b :: rest)))
      by (rewrite <- zlen_app; by rewrite chunk_unchunk).
    rewrite chunk_length in Hz.
    assert (0 < zlen (unchunk (b :: rest)))
      by (destruct (unchunk (b :: rest)) as [|b' r']; [done|rewrite zlen_cons; pose proof (zlen_nonneg r'); lia]).
    pose proof chunkBytes as Hcb. apply IH; try done; try lia. by apply Forall_drop.
Qed.

Lemma completes_blob kind id data limit :
  plain kind -> plain id -> id <> "" -> Forall is_byte data -> zlen data <= limit -> limit < two63 ->
  Z.of_nat (String.length kind) + Z.of_nat (String.length id) <= 50000 ->
  completes (writeHandoffBlob kind id data limit).
Proof.
  intros Hk Hi Hne Hb Hl Hl63 Hs. unfold writeHandoffBlob.
  rewrite (proj2 (String.eqb_neq _ _)), (proj2 (Z.ltb_ge _ _)) by done.
  apply completes_chunks; try done; lia.
Qed.

Lemma completes_forEach {A} (f : A -> IO unit) l : Forall (fun x => completes (f x)) l -> completes (forEach f l).
Proof.
  induction 1 as [|x l Hx _ IH]; cbn [forEach]; [apply completes_ret|]. by apply completes_bind.
Qed.

Lemma fds_fit ids :
  (length ids <= 64)%nat -> Forall (fun id => Z.of_nat (String.length id) <= 2000) ids ->
  messageBound (fdsMessage ids) <= MaxMessageSize.
Proof.
  intros Hn Hids. unfold messageBound, fdsMessage, MaxMessageSize.
  cbn [Type_ Token TerminalIDs TerminalID Error_ Replay].
  change ((zlen (@nil Z) + 2) / 3) with 0. change (stringBound "fds") with 21. change (stringBound "") with 3.
  assert (zsum stringBound ids <= Z.of_nat (length ids) * 12003); [|lia].
  clear Hn. induction Hids as [|id ids Hid _ IH]; simpl; [lia|]. unfold stringBound at 1. lia.
Qed.

Lemma completes_descriptors fuel q :
  (length q <= fuel)%nat -> Forall (fun t => plain (q_id t) /\ Z.of_nat (String.length (q_id t)) <= 2000) q ->
  completes (sendDescriptors fuel q).
Proof.
  revert q. induction fuel as [|fuel IH]; intros q Hlen Hq; destruct q as [|t q]; cbn [length] in Hlen;
    try lia; try (intros c Hc; by exists tt, c).
  cbn [sendDescriptors]. apply completes_bind.
  - apply completes_message; [apply fdsMessage_ok|apply fds_fit].
    + apply Forall_map, Forall_take. eapply Forall_impl; [exact Hq|]. by intros x [? _].
    + rewrite length_map, length_take. unfold MaxHandoffFDsPerFrame. lia.
    + apply Forall_map, Forall_take. eapply Forall_impl; [exact Hq|]. by intros x [_ ?].
  - intros u. apply IH; [|by apply Forall_drop]. rewrite length_drop. unfold MaxHandoffFDsPerFrame.
    cbn [length]. lia.
Qed.

Lemma completes_sendHandoff binaryVersion token terminals activity q rs data :
  manifestRuntimes 0 0 q = Ok rs ->
  Marshal (sentManifest binaryVersion token terminals activity q) = Ok data -> 0 < zlen data <= MaxMessageSize ->
  Forall terminalPlain q -> Forall (fun t => Z.of_nat (String.length (q_id t)) <= 2000) q ->
  Forall is_byte activity -> zlen activity <= MaxHandoffActivityBytes ->
  completes (sendHandoff binaryVersion token terminals activity q).
Proof.
  intros Hrs HM Hd Hq Hids Hab Hal. pose proof (manifestRuntimes_ok _ _ _ _ Hrs) as [-> Hsizes].
  unfold sendHandoff. rewrite Hrs.
  assert (Hall := Forall_and_2 _ _ _ (Forall_and_2 _ _ _ Hq Hids) Hsizes).
  cbv beta. change (completes (WriteJSON (sentManifest binaryVersion token terminals activity q) [] ≫= fun _ =>
    forEach (fun item => WriteReplay (q_id item) (q_Replay item)) q ≫= fun _ =>
    forEach (fun item => WriteRecovery (q_id item) (q_Recovery item)) q ≫= fun _ =>
    WriteActivity activity ≫= fun _ => sendDescriptors (length q) q)).
  apply completes_bind; [by eapply completes_WriteJSON|intros _].
  apply completes_bind; [apply completes_forEach|intros _].
  { eapply Forall_impl; [exact Hall|]. intros t [[(Hp & Hne & _ & _ & _ & Hb1 & _) Hl] [Hz _]].
    apply completes_blob; try done; [by repeat constructor|simpl String.length; lia]. }
  apply completes_bind; [apply completes_forEach|intros _].
  { eapply Forall_impl; [exact Hall|]. intros t [[(Hp & Hne & _ & _ & _ & _ & Hb2) Hl] [_ Hz]].
    apply completes_blob; try done; [by repeat constructor|simpl String.length; lia]. }
  apply completes_bind; [|intros _].
  - apply completes_blob; try done; by repeat constructor.
  - apply completes_descriptors; [done|]. eapply Forall_impl; [exact (Forall_and_2 _ _ _ Hq Hids)|].
    by intros t [(? & _) ?].
Qed.
End Streams.
