(* ===== verification/HandoffCorrect.v ===== *)
(** * The live update's transfer: properties

    The claims about [Handoff] and [HandoffTransfer], and a concrete message
    coder and control-data format for which their hypotheses hold. *)

From S2P Require Import Prelude Framing Handoff HandoffStream HandoffTransfer HandoffProofs.
Local Open Scope Z_scope.

(** ** A concrete coder

    Fields in sequence, lists preceded by their lengths. *)

Module Sample.

Definition cmsgs : SocketRights := {|
  cmsg := list Z;
  ParseSocketControlMessage oob :=
    match oob with 1 :: fds => Ok [fds] | _ => Err (ENew "invalid argument") end;
  ParseUnixRights m := Ok m;
  UnixRights fds := 1 :: fds |}.

#[global] Instance cmsgs_laws : SocketRightsLaws cmsgs.
Proof. split; [done|]. intros fds. by exists fds. Qed.

Definition reader (A : Type) : Type := list Z -> option (A * list Z).

Definition getInt : reader Z := fun l => match l with z :: l => Some (z, l) | [] => None end.
Definition putBool (b : bool) : list Z := [if b then 1 else 0].
Definition getBool : reader bool := fun l => match l with z :: l => Some (z =? 1, l) | [] => None end.

Definition putBytes (b : list Z) : list Z := zlen b :: b.
Definition getBytes : reader (list Z) := fun l =>
  match l with
  | n :: l => Some (take (Z.to_nat n) l, drop (Z.to_nat n) l)
  | [] => None
  end.

Definition putString (s : string) : list Z :=
  putBytes (map (fun a => Z.of_nat (Ascii.nat_of_ascii a)) (String.list_ascii_of_string s)).
Definition getString : reader string := fun l =>
  '(b, l) ← getBytes l;
  Some (String.string_of_list_ascii (map (fun z => Ascii.ascii_of_nat (Z.to_nat z)) b), l).

Fixpoint getMany {A} (get : reader A) (n : nat) : reader (list A) := fun l =>
  match n with
  | O => Some ([], l)
  | S n => '(x, l) ← get l; '(xs, l) ← getMany get n l; Some (x :: xs, l)
  end.
Definition putList {A} (put : A -> list Z) (l : list A) : list Z := zlen l :: concat (map put l).
Definition getList {A} (get : reader A) : reader (list A) := fun l =>
  match l with n :: l => getMany get (Z.to_nat n) l | [] => None end.

Definition putMessage (m : HandoffMessage) : list Z :=
  putString (Type_ m) ++ putString (Token m) ++ putList putString (TerminalIDs m) ++
  putString (TerminalID m) ++ [Offset m] ++ putBytes (Replay m) ++ [PID m] ++ putString (Error_ m).
Definition getMessage : reader HandoffMessage := fun l =>
  '(ty, l) ← getString l; '(tk, l) ← getString l; '(ids, l) ← getList getString l;
  '(id, l) ← getString l; '(off, l) ← getInt l; '(rp, l) ← getBytes l; '(pid, l) ← getInt l;
  '(er, l) ← getString l;
  Some ({| Type_ := ty; Token := tk; TerminalIDs := ids; TerminalID := id; Offset := off;
           Replay := rp; PID := pid; Error_ := er |}, l).

Definition putRuntime (r : HandoffRuntime) : list Z :=
  putString (hr_TerminalID r) ++ [ChildPID r] ++ [Cols r] ++ [Rows r] ++ putBytes (hr_Replay r) ++
  [ReplaySize r] ++ putBool (ReplayPartial r) ++ [RecoverySize r].
Definition getRuntime : reader HandoffRuntime := fun l =>
  '(id, l) ← getString l; '(pid, l) ← getInt l; '(cols, l) ← getInt l; '(rows, l) ← getInt l;
  '(rp, l) ← getBytes l; '(rs, l) ← getInt l; '(pa, l) ← getBool l; '(rc, l) ← getInt l;
  Some ({| hr_TerminalID := id; ChildPID := pid; Cols := cols; Rows := rows; hr_Replay := rp;
           ReplaySize := rs; ReplayPartial := pa; Recovery := []; RecoverySize := rc |}, l).

Definition putManifest (m : HandoffManifest Z) : list Z :=
  [ActivitySize m] ++ [Version m] ++ putString (BinaryVersion m) ++ putString (hm_Token m) ++
  [s_Version (Session_ m)] ++ putBytes (Terminals (Session_ m)) ++ putList putRuntime (Runtimes m).
Definition getManifest : reader (HandoffManifest Z) := fun l =>
  '(sz, l) ← getInt l; '(v, l) ← getInt l; '(bv, l) ← getString l; '(tk, l) ← getString l;
  '(sv, l) ← getInt l; '(ts, l) ← getBytes l; '(rs, l) ← getList getRuntime l;
  Some ({| ActivitySize := sz; Activity := []; Version := v; BinaryVersion := bv; hm_Token := tk;
           Session_ := {| s_Version := sv; Terminals := ts |}; Runtimes := rs |}, l).

Definition coder {A} (put : A -> list Z) (get : reader A) : JSON A := {|
  Marshal a := Ok (put a);
  Unmarshal l := match get l with Some (a, []) => Ok a | _ => Err (ENew "invalid character") end |}.

#[global] Instance messageJSON : JSON HandoffMessage := coder putMessage getMessage.
#[global] Instance manifestJSON : JSON (HandoffManifest Z) := coder putManifest getManifest.

(** [get] reads back what [put] wrote, and no more. *)
Definition inverts {A} (put : A -> list Z) (get : reader A) (ok : A -> Prop) : Prop :=
  forall a r, ok a -> get (put a ++ r) = Some (a, r).

Lemma getInt_put z r : getInt ([z] ++ r) = Some (z, r).
Proof. done. Qed.

Lemma getBool_put b r : getBool (putBool b ++ r) = Some (b, r).
Proof. by destruct b. Qed.

Lemma getBytes_put b r : getBytes (putBytes b ++ r) = Some (b, r).
Proof.
  unfold getBytes, putBytes, zlen. simpl. rewrite Nat2Z.id.
  by rewrite take_app_length, drop_app_length.
Qed.

Lemma getString_put s r : getString (putString s ++ r) = Some (s, r).
Proof.
  unfold getString, putString. rewrite getBytes_put. simpl. rewrite map_map.
  rewrite (map_ext _ id), map_id; [by rewrite String.string_of_list_ascii_of_string|].
  intros a. unfold id. by rewrite Nat2Z.id, Ascii.ascii_nat_embedding.
Qed.

Lemma getList_put {A} (put : A -> list Z) get ok l r :
  inverts put get ok -> Forall ok l -> getList get (putList put l ++ r) = Some (l, r).
Proof.
  intros Hi Hok. unfold getList, putList, zlen. simpl. rewrite Nat2Z.id.
  induction Hok as [|a l Ha _ IH]; [done|]. simpl. rewrite <- app_assoc, Hi by done. simpl.
  by rewrite IH.
Qed.

Lemma getMessage_put : inverts putMessage getMessage (fun _ => True).
Proof.
  intros [ty tk ids id off rp pid er] r _. unfold getMessage, putMessage. cbn [Type_ Token TerminalIDs TerminalID Offset Replay PID Error_].
  rewrite <- !app_assoc. do 2 (rewrite getString_put; cbn [mbind option_bind]).
  rewrite (getList_put putString getString (fun _ => True)); [|by intros s k _; apply getString_put|by apply Forall_true].
  cbn [mbind option_bind]. rewrite getString_put. cbn [mbind option_bind]. rewrite getInt_put.
  cbn [mbind option_bind]. rewrite getBytes_put. cbn [mbind option_bind]. rewrite getInt_put.
  cbn [mbind option_bind]. by rewrite getString_put.
Qed.

Lemma getRuntime_put : inverts putRuntime getRuntime (fun r => Recovery r = []).
Proof.
  intros [id pid cols rows rp rs pa rc sz] r. cbn [Recovery]. intros ->. unfold getRuntime, putRuntime.
  cbn [hr_TerminalID ChildPID Cols Rows hr_Replay ReplaySize ReplayPartial RecoverySize].
  rewrite <- !app_assoc. rewrite getString_put. cbn [mbind option_bind].
  do 3 (rewrite getInt_put; cbn [mbind option_bind]). rewrite getBytes_put. cbn [mbind option_bind].
  rewrite getInt_put. cbn [mbind option_bind]. by rewrite getBool_put.
Qed.

Lemma getManifest_put :
  inverts putManifest getManifest (fun m => Activity m = [] /\ Forall (fun r => Recovery r = []) (Runtimes m)).
Proof.
  intros [sz act v bv tk [sv ts] rs] r. cbn [Activity Runtimes]. intros [-> Hr]. unfold getManifest, putManifest.
  cbn [ActivitySize Version BinaryVersion hm_Token Session_ s_Version Terminals Runtimes].
  rewrite <- !app_assoc. do 2 (rewrite getInt_put; cbn [mbind option_bind]).
  do 2 (rewrite getString_put; cbn [mbind option_bind]). rewrite getInt_put. cbn [mbind option_bind].
  rewrite getBytes_put. cbn [mbind option_bind].
  by rewrite (getList_put _ _ _ _ _ getRuntime_put Hr).
Qed.

Lemma coder_laws {A} (put : A -> list Z) get (ok ok' : A -> Prop) :
  inverts put get ok -> (forall a, ok' a -> ok a) -> JSONLaws (coder put get) ok'.
Proof.
  intros Hi Hok a data Ha. cbn. intros [= <-]. rewrite <- (app_nil_r (put a)). rewrite Hi by auto. done.
Qed.

#[global] Instance messageJSON_laws : JSONLaws messageJSON messageOk.
Proof. by apply (coder_laws _ _ _ _ getMessage_put). Qed.

#[global] Instance manifestJSON_laws : JSONLaws manifestJSON (manifestOk (fun _ => True)).
Proof.
  apply (coder_laws _ _ _ _ getManifest_put). intros m (_ & Ha & _ & _ & _ & _ & _ & Hr). split; [done|].
  eapply Forall_impl; [exact Hr|]. by intros r (_ & _ & _ & _ & _ & _ & ? & _).
Qed.

Lemma putString_size s : zlen (putString s) <= stringBound s.
Proof.
  unfold putString, putBytes, stringBound. rewrite zlen_cons, zlen_map.
  assert (zlen (String.list_ascii_of_string s) = Z.of_nat (String.length s)); [|lia].
  unfold zlen. f_equal. induction s; simpl; congruence.
Qed.

Lemma message_size (m : HandoffMessage) : messageOk m ->
  exists data, Marshal m = Ok data /\ 0 < zlen data <= messageBound m.
Proof.
  intros _. exists (putMessage m). split; [done|]. unfold putMessage, messageBound.
  unfold putList, putBytes. autorewrite with go.
  pose proof (putString_size (Type_ m)). pose proof (putString_size (Token m)).
  pose proof (putString_size (TerminalID m)). pose proof (putString_size (Error_ m)).
  assert (zlen (concat (map putString (TerminalIDs m))) <= zsum stringBound (TerminalIDs m)).
  { induction (TerminalIDs m) as [|id ids IH]; cbn [map concat zsum]; [done|]. rewrite zlen_app.
    pose proof (putString_size id). lia. }
  pose proof (zlen_nonneg (putString (Type_ m))). pose proof (zlen_nonneg (putString (Token m))).
  pose proof (zlen_nonneg (putString (TerminalID m))). pose proof (zlen_nonneg (putString (Error_ m))).
  pose proof (zlen_nonneg (concat (map putString (TerminalIDs m)))).
  pose proof (zlen_nonneg (Replay m)). Z.to_euclidean_division_equations. lia.
Qed.

(** Two terminals, one with recovery state. *)
Definition terminal1 : quiescedTerminal := {|
  q_id := "t1"; q_PTY := 11; q_ChildPID := 100; q_Cols := 80; q_Rows := 24;
  q_Replay := [104; 105]; q_ReplayPartial := false; q_Recovery := [] |}.
Definition terminal2 : quiescedTerminal := {|
  q_id := "t2"; q_PTY := 12; q_ChildPID := 101; q_Cols := 120; q_Rows := 40;
  q_Replay := []; q_ReplayPartial := true; q_Recovery := [7; 8; 9] |}.
Definition terminals := [terminal1; terminal2].

(** A connection with nothing received yet whose kernel takes three bytes a write. *)
Definition fresh : HandoffConnection := {|
  Framing := HandoffFramingLengthPrefixed; incoming := []; outgoing := [];
  writes := fun _ => Accepts 3; closed := [] |}.

Lemma fresh_accepting : accepting fresh.
Proof. split; [done|]. intros n. by exists 3%nat. Qed.

Lemma terminals_plain : Forall terminalPlain terminals.
Proof. repeat constructor; done. Qed.

(** A message with an unwanted descriptor, then a broken connection. *)
Definition unwanted : HandoffConnection := {|
  Framing := HandoffFramingLengthPrefixed;
  incoming := [Arrive {| seg_data := PutUint32 1 ++ [0]; seg_oob := [1; 5; 6]; seg_trunc := false |};
               Broken (ENew "EOF")];
  outgoing := []; writes := fun _ => Accepts 100; closed := [] |}.

End Sample.

(** ** The properties *)

Section Claims.
Context {R : SocketRights} `{!SocketRightsLaws R} `{J : JSON HandoffMessage} `{!JSONLaws J messageOk}.
Context {T : Type} (terminalOk : T -> Prop) `{JM : JSON (HandoffManifest T)}
  `{!JSONLaws JM (manifestOk terminalOk)}.
Context (Marshal_size : forall m : HandoffMessage, messageOk m ->
  exists data, Marshal m = Ok data /\ 0 < zlen data <= messageBound m).

(** C1: Over a connection that accepts writes, the daemon's transfer completes
    whatever fragments the writes are taken in, and a successor that receives
    the stream cut in any other way accepts it and ends with exactly the sent
    manifest, each terminal's replay and recovery, the activity state and the
    descriptor of each terminal, having consumed the transfer and closed
    nothing. *)
Theorem handoff_transfer binaryVersion token (tabs : list T) activity q rs data ce :
  manifestRuntimes 0 0 q = Ok rs ->
  Marshal (sentManifest binaryVersion token tabs activity q) = Ok data -> 0 < zlen data <= MaxMessageSize ->
  plain binaryVersion -> plain token -> Forall terminalOk tabs ->
  activity <> [] -> Forall is_byte activity -> zlen activity <= MaxHandoffActivityBytes ->
  Forall terminalPlain q -> Forall (fun t => Z.of_nat (String.length (q_id t)) <= 2000) q -> NoDup (map q_id q) ->
  accepting ce -> outgoing ce = [] ->
  exists ce', sendHandoff binaryVersion token tabs activity q ce = (Ok tt, ce') /\
    forall ci k, healthy ci -> fits k -> arriving (incoming ci) = sent ce' ++ k ->
      exists ci', receiveHandoff token ci =
          (Ok (receivedManifest binaryVersion token tabs activity q, terminalFDs q), ci') /\
        arriving (incoming ci') = k /\ closed ci' = closed ci.
Proof.
  intros Hrs HM Hd Hb Ht Hts Hane Hab Hal Hq Hids Hnd Hce Hout.
  destruct (completes_sendHandoff Marshal_size _ _ _ _ _ _ _ Hrs HM Hd Hq Hids Hab Hal ce Hce) as ([] & ce' & E & _).
  exists ce'. split; [exact E|]. intros ci k Hci Hk Ha.
  destruct (emits_sendHandoff _ _ _ _ _ ce tt ce' (proj1 Hce) E) as (l & Hl & Hs & _).
  assert (Hsent : sent ce' = l) by (rewrite Hs; unfold sent; by rewrite Hout).
  rewrite Hsent in Ha.
  destruct (delivers_receive terminalOk _ _ _ _ _ _ Hl Hb Ht Hts Hane Hab Hq Hnd ci k Hci) as (ci' & E' & _ & Ha' & Hset);
    [apply fits_app; split; [by eapply transferred_fits|done]|done|].
  exists ci'. split; [exact E'|]. split; [done|]. rewrite Hset. by destruct ci.
Qed.

(** A blob up to its limit is written in frames that all fit, whatever
    fragments the writes are taken in, and is read back in full from the stream
    cut in any other way, leaving the bytes that follow it. *)
Theorem handoff_blob kind id data limit c :
  plain kind -> plain id -> id <> "" -> Forall is_byte data -> zlen data <= limit -> limit < two63 ->
  Z.of_nat (String.length kind) + Z.of_nat (String.length id) <= 50000 -> accepting c ->
  exists c' l, writeHandoffBlob kind id data limit c = (Ok tt, c') /\ sent c' = sent c ++ l /\
    forall r k, healthy r -> fits k -> arriving (incoming r) = l ++ k ->
      exists r', readHandoffBlob kind id (zlen data) limit r = (Ok data, r') /\
        arriving (incoming r') = k /\ closed r' = closed r.
Proof.
  intros Hk Hi Hne Hb Hl Hl63 Hs Hc.
  destruct (completes_blob Marshal_size kind id data limit Hk Hi Hne Hb Hl Hl63 Hs c Hc) as ([] & c' & E & _).
  destruct (emits_blob kind id data limit c tt c' (proj1 Hc) E) as (l & (Hch & Hid & _) & Hsent & _).
  exists c', l. split; [exact E|]. split; [exact Hsent|]. intros r k Hr Hkf Ha.
  destruct (delivers_blob kind id data limit l Hch Hid Hl Hl63 Hk Hi Hb r k Hr) as (r' & E' & _ & Ha' & Hset);
    [apply fits_app; split; [by eapply chunked_fits|done]|done|].
  exists r'. split; [exact E'|]. split; [done|]. rewrite Hset. by destruct r.
Qed.

(** C23: Whatever data reaches the successor, on either framing and on every
    error path, where control messages are the descriptor rights the kernel
    attaches ([rightsOk]), each descriptor the kernel installs while it imports is handed over in
    its table of terminals or closed, exactly once. *)
Theorem handoff_descriptors token c r c' :
  rightsOk c -> importHandoff (T:=T) token c = (r, c') ->
  exists l, closed c' = closed c ++ l /\
    pendingRights c ≡ₚ
      (match r with Ok (_, fdsByID) => pendingFDs fdsByID | Err _ => [] end) ++ l ++ pendingRights c'.
Proof.
  intros Hok E.
  assert (Ha : accounts [] (importHandoff (T:=T) token) (fun p => pendingFDs p.2)).
  { apply (accounts_bind _ _ _ (fun _ => [])); [apply quiet_accounts, quiet_WriteJSON|].
    intros u. apply receiveHandoff_accounts. }
  destruct (Ha c r c' Hok E) as (_ & l & Hc & Hp). exists l. split; [done|]. by destruct r as [[]|].
Qed.
End Claims.

(** ** Witnesses *)

Lemma handoff_transfer_witness :
  exists ce', sendHandoff (R:=Sample.cmsgs) "1.0" "tok" [5] [1; 2] Sample.terminals Sample.fresh = (Ok tt, ce') /\
    forall ci k, healthy (R:=Sample.cmsgs) ci -> fits (R:=Sample.cmsgs) k ->
      arriving (incoming ci) = sent ce' ++ k ->
      exists ci', receiveHandoff (R:=Sample.cmsgs) "tok" ci =
          (Ok (receivedManifest "1.0" "tok" [5] [1; 2] Sample.terminals, terminalFDs Sample.terminals), ci') /\
        arriving (incoming ci') = k /\ closed ci' = closed ci.
Proof.
  eapply (handoff_transfer (R:=Sample.cmsgs) (fun _ => True) Sample.message_size "1.0" "tok" [5] [1; 2] Sample.terminals).
  - vm_compute. reflexivity.
  - vm_compute. reflexivity.
  - vm_compute. split; [done|by intros [=]].
  - by repeat constructor.
  - by repeat constructor.
  - by repeat constructor.
  - done.
  - by repeat constructor.
  - by vm_compute.
  - exact Sample.terminals_plain.
  - by repeat constructor.
  - by refine (bool_decide_unpack _ _).
  - exact Sample.fresh_accepting.
  - done.
Defined.

Lemma handoff_blob_witness :
  exists c' l, writeHandoffBlob (R:=Sample.cmsgs) "replay" "t1" [104; 105] 10 Sample.fresh = (Ok tt, c') /\
    sent c' = sent Sample.fresh ++ l /\
    forall r k, healthy (R:=Sample.cmsgs) r -> fits (R:=Sample.cmsgs) k -> arriving (incoming r) = l ++ k ->
      exists r', readHandoffBlob (R:=Sample.cmsgs) "replay" "t1" (zlen [104; 105]) 10 r = (Ok [104; 105], r') /\
        arriving (incoming r') = k /\ closed r' = closed r.
Proof.
  apply (handoff_blob (R:=Sample.cmsgs) Sample.message_size);
    first [done | by repeat constructor | exact Sample.fresh_accepting].
Defined.

Lemma handoff_descriptors_witness :
  exists l, closed (importHandoff (R:=Sample.cmsgs) (T:=Z) "tok" Sample.unwanted).2 = [] ++ l /\
    pendingRights (R:=Sample.cmsgs) Sample.unwanted ≡ₚ
      [] ++ l ++ pendingRights (R:=Sample.cmsgs) (importHandoff (R:=Sample.cmsgs) (T:=Z) "tok" Sample.unwanted).2.
Proof.
  eapply (handoff_descriptors (R:=Sample.cmsgs) "tok" Sample.unwanted (Err (ENew "handoff manifest unexpectedly carried descriptors"))).
  - constructor; [|by repeat constructor]. right. exists [[5; 6]]. split; [done|]. by repeat constructor.
  - vm_compute. reflexivity.
Defined.
