(* ===== verification/OutboundQueue.v ===== *)
(** * The daemon's outbound mailbox

    [internal/codelima/daemon/outbound_queue.go].  A two-priority mailbox with a
    frame and a byte bound.  Producers call [TryPush] and never block; one
    writer calls [Pop] in a loop.  The operations are functions on the queue's
    state; [qstep] interleaves producers, [Close] and the popping writer at the
    granularity of the source's critical sections and channel operations, so
    that the wake-up protocol between [TryPush] and [Pop] is part of the model.

    The buffered channel [wake] (capacity one) is the boolean "it holds a
    token"; [done] is the boolean "it is closed". *)

From S2P Require Import Prelude.
Local Open Scope Z_scope.

(** ** Data *)

Definition errOutboundQueueClosed : go_error := ENew "daemon outbound queue closed".

Inductive outboundPriority := outboundLow | outboundHigh.

#[export] Instance outboundPriority_eq_dec : EqDecision outboundPriority.
Proof. solve_decision. Defined.

Record queuedOutboundFrame := QFrame {
  fr_data : bytes;
  fr_enqueuedAt : time;
}.

Record outboundQueue := OQueue {
  oq_high : list queuedOutboundFrame;
  oq_low : list queuedOutboundFrame;
  oq_bytes : Z;
  oq_maxFrames : Z;
  oq_maxBytes : Z;
  oq_closed : bool;
  oq_wake : bool;
  oq_done : bool;
  oq_once : bool;
}.

(** ** Operations *)

Definition newOutboundQueue (maxFrames maxBytes : Z) : outboundQueue :=
  OQueue [] [] 0 (if maxFrames <=? 0 then 1 else maxFrames)
    (if maxBytes <=? 0 then 1 else maxBytes) false false false false.

Definition TryPush (now : time) (data : bytes) (priority : outboundPriority)
    (q : outboundQueue) : bool * outboundQueue :=
  if oq_closed q || (oq_maxFrames q <=? zlen (oq_high q) + zlen (oq_low q)) ||
     (oq_maxBytes q <? oq_bytes q + zlen data)
  then (false, q)
  else
    let frame := QFrame data now in
    let '(high, low) :=
      match priority with
      | outboundHigh => (oq_high q ++ [frame], oq_low q)
      | outboundLow => (oq_high q, oq_low q ++ [frame])
      end in
    (* the non-blocking send leaves the channel holding a token either way *)
    (true, OQueue high low (oq_bytes q + zlen data) (oq_maxFrames q) (oq_maxBytes q)
             (oq_closed q) true (oq_done q) (oq_once q)).

(** What the critical section of one round of [Pop] decides. *)
Inductive popOutcome :=
| PopFrame (priority : outboundPriority) (data : bytes) (q : outboundQueue)
| PopClosed
| PopWait.

Definition popLocked (q : outboundQueue) : popOutcome :=
  match oq_high q, oq_low q with
  | frame :: high, _ =>
      PopFrame outboundHigh (fr_data frame)
        (OQueue high (oq_low q) (oq_bytes q - zlen (fr_data frame)) (oq_maxFrames q)
           (oq_maxBytes q) (oq_closed q) (oq_wake q) (oq_done q) (oq_once q))
  | [], frame :: low =>
      PopFrame outboundLow (fr_data frame)
        (OQueue (oq_high q) low (oq_bytes q - zlen (fr_data frame)) (oq_maxFrames q)
           (oq_maxBytes q) (oq_closed q) (oq_wake q) (oq_done q) (oq_once q))
  | [], [] => if oq_closed q then PopClosed else PopWait
  end.

Definition Stats (now : time) (q : outboundQueue) : Z * Z * duration :=
  let oldest := match oq_high q with f :: _ => fr_enqueuedAt f | [] => time_zero end in
  let oldest :=
    match oq_low q with
    | f :: _ => if time_is_zero oldest || (fr_enqueuedAt f <? oldest) then fr_enqueuedAt f else oldest
    | [] => oldest
    end in
  (zlen (oq_high q) + zlen (oq_low q), oq_bytes q,
   if time_is_zero oldest then 0 else time_sub now oldest).

(** [Close] under the lock, and the channel close that follows the unlock. *)
Definition closeLocked (q : outboundQueue) : outboundQueue :=
  OQueue (oq_high q) (oq_low q) (oq_bytes q) (oq_maxFrames q) (oq_maxBytes q) true
    (oq_wake q) (oq_done q) true.

Definition closeDone (q : outboundQueue) : outboundQueue :=
  OQueue (oq_high q) (oq_low q) (oq_bytes q) (oq_maxFrames q) (oq_maxBytes q) (oq_closed q)
    (oq_wake q) true (oq_once q).

Definition takeWake (q : outboundQueue) : outboundQueue :=
  OQueue (oq_high q) (oq_low q) (oq_bytes q) (oq_maxFrames q) (oq_maxBytes q) (oq_closed q)
    false (oq_done q) (oq_once q).

(** ** The interleaved system *)

Inductive writerState :=
| WRunning                          (* about to take the lock *)
| WSelecting                        (* in the select *)
| WReturned (r : result bytes).

(** The queue, whether a [Close] stands between its unlock and its channel
    close, the writer, and what was accepted and delivered at each priority. *)
Record qsystem := QSystem {
  qs_queue : outboundQueue;
  qs_closing : bool;
  qs_writer : writerState;
  qs_accepted : outboundPriority -> list bytes;
  qs_delivered : outboundPriority -> list bytes;
}.

Definition record (p : outboundPriority) (data : bytes)
    (h : outboundPriority -> list bytes) : outboundPriority -> list bytes :=
  fun p' => match p, p' with
            | outboundHigh, outboundHigh | outboundLow, outboundLow => h p' ++ [data]
            | _, _ => h p'
            end.

Inductive qstep : qsystem -> qsystem -> Prop :=
| QPush now data p q q' c w acc del :
    TryPush now data p q = (true, q') ->
    qstep (QSystem q c w acc del) (QSystem q' c w (record p data acc) del)
| QRefuse now data p q q' c w acc del :
    TryPush now data p q = (false, q') ->
    qstep (QSystem q c w acc del) (QSystem q' c w acc del)
| QCloseLocked q c w acc del :
    oq_once q = false ->
    qstep (QSystem q c w acc del) (QSystem (closeLocked q) true w acc del)
| QCloseDone q w acc del :
    qstep (QSystem q true w acc del) (QSystem (closeDone q) false w acc del)
| QPopFrame q q' c p data acc del :
    popLocked q = PopFrame p data q' ->
    qstep (QSystem q c WRunning acc del)
          (QSystem q' c (WReturned (Ok data)) acc (record p data del))
| QPopClosed q c acc del :
    popLocked q = PopClosed ->
    qstep (QSystem q c WRunning acc del)
          (QSystem q c (WReturned (Err errOutboundQueueClosed)) acc del)
| QPopWait q c acc del :
    popLocked q = PopWait ->
    qstep (QSystem q c WRunning acc del) (QSystem q c WSelecting acc del)
| QSelectContext cause q c acc del :
    qstep (QSystem q c WSelecting acc del) (QSystem q c (WReturned (Err cause)) acc del)
| QSelectDone q c acc del :
    oq_done q = true ->
    qstep (QSystem q c WSelecting acc del)
          (QSystem q c (WReturned (Err errOutboundQueueClosed)) acc del)
| QSelectWake q c acc del :
    oq_wake q = true ->
    qstep (QSystem q c WSelecting acc del) (QSystem (takeWake q) c WRunning acc del)
| QCall q c r acc del :
    qstep (QSystem q c (WReturned r) acc del) (QSystem q c WRunning acc del).

Definition qinit (maxFrames maxBytes : Z) : qsystem :=
  QSystem (newOutboundQueue maxFrames maxBytes) false WRunning (fun _ => []) (fun _ => []).

(** ** Invariants *)

Definition lane (p : outboundPriority) (q : outboundQueue) : list queuedOutboundFrame :=
  match p with outboundHigh => oq_high q | outboundLow => oq_low q end.

Definition frame_bytes (f : queuedOutboundFrame) : Z := zlen (fr_data f).

Record queue_ok (maxFrames maxBytes : Z) (q : outboundQueue) : Prop := {
  qo_bytes : oq_bytes q = zsum frame_bytes (oq_high q) + zsum frame_bytes (oq_low q);
  qo_maxFrames : oq_maxFrames q = Z.max 1 maxFrames;
  qo_maxBytes : oq_maxBytes q = Z.max 1 maxBytes;
  qo_frames_bound : zlen (oq_high q) + zlen (oq_low q) <= Z.max 1 maxFrames;
  qo_bytes_bound : 0 <= oq_bytes q <= Z.max 1 maxBytes;
}.

(** Every accepted frame was delivered or is queued, in acceptance order. *)
Definition fifo (s : qsystem) : Prop :=
  forall p, qs_accepted s p = qs_delivered s p ++ map fr_data (lane p (qs_queue s)).

(** A writer in the select can leave it whenever there is something for it. *)
Definition wakeable (s : qsystem) : Prop :=
  let q := qs_queue s in
  (oq_closed q = true -> oq_done q = true \/ qs_closing s = true) /\
  (oq_closed q = oq_once q) /\
  (qs_writer s = WSelecting -> forall p, lane p q <> [] -> oq_wake q = true).

Definition qinv (maxFrames maxBytes : Z) (s : qsystem) : Prop :=
  queue_ok maxFrames maxBytes (qs_queue s) /\ fifo s /\ wakeable s.

(** ** Lemmas *)

Lemma zsum_frame_nonneg l : 0 <= zsum frame_bytes l.
Proof. apply zsum_nonneg. intros. apply zlen_nonneg. Qed.

Lemma new_queue_ok mf mb : queue_ok mf mb (newOutboundQueue mf mb).
Proof.
  split; simpl; try reflexivity; unfold zlen; simpl; try lia.
  all: destruct (_ <=? 0) eqn:?; bool_to_prop; lia.
Qed.

Lemma TryPush_accepted now data p q q' :
  TryPush now data p q = (true, q') ->
  oq_closed q = false /\
  zlen (oq_high q) + zlen (oq_low q) < oq_maxFrames q /\
  oq_bytes q + zlen data <= oq_maxBytes q /\
  (forall p', lane p' q' = lane p' q ++
     match p, p' with
     | outboundHigh, outboundHigh | outboundLow, outboundLow => [QFrame data now]
     | _, _ => [] end) /\
  oq_bytes q' = oq_bytes q + zlen data /\ oq_maxFrames q' = oq_maxFrames q /\
  oq_maxBytes q' = oq_maxBytes q /\ oq_closed q' = false /\ oq_wake q' = true /\
  oq_done q' = oq_done q /\ oq_once q' = oq_once q.
Proof.
  unfold TryPush. destruct (_ || _)%bool eqn:Hg; [discriminate|].
  bool_to_prop. intros Hp. split_and!; try done.
  all: destruct p; injection Hp as <-; simpl; try done.
  all: intros []; simpl; by rewrite ?app_nil_r.
Qed.

Lemma TryPush_refused now data p q q' : TryPush now data p q = (false, q') -> q' = q.
Proof. unfold TryPush. destruct (_ || _)%bool; [congruence|]. destruct p; discriminate. Qed.

Lemma push_ok mf mb now data p q q' :
  queue_ok mf mb q -> TryPush now data p q = (true, q') -> queue_ok mf mb q'.
Proof.
  intros [Hb Hf Hm Hfb Hbb] Hp.
  apply TryPush_accepted in Hp as (Hc & H1 & H2 & Hl & H3 & H4 & H5 & _).
  pose proof (Hl outboundHigh) as Hh. pose proof (Hl outboundLow) as Hlo.
  simpl in Hh, Hlo. pose proof (zlen_nonneg data).
  split; rewrite ?H3, ?H4, ?H5, ?Hh, ?Hlo; try done; try lia.
  - destruct p; rewrite !zsum_app; simpl; unfold frame_bytes at 3; simpl; lia || idtac.
    all: unfold frame_bytes in *; simpl in *; lia.
  - destruct p; rewrite ?app_nil_r, ?zlen_app, ?zlen_cons, ?zlen_nil; lia.
Qed.

Lemma popLocked_frame q p data q' :
  popLocked q = PopFrame p data q' ->
  (p = outboundLow -> oq_high q = []) /\
  map fr_data (lane p q) = data :: map fr_data (lane p q') /\
  (forall p', p' <> p -> lane p' q' = lane p' q) /\
  zlen (lane p q) = 1 + zlen (lane p q') /\
  zsum frame_bytes (lane p q) = zlen data + zsum frame_bytes (lane p q') /\
  oq_bytes q' = oq_bytes q - zlen data /\
  oq_maxFrames q' = oq_maxFrames q /\ oq_maxBytes q' = oq_maxBytes q /\
  oq_closed q' = oq_closed q /\ oq_wake q' = oq_wake q /\ oq_done q' = oq_done q /\
  oq_once q' = oq_once q.
Proof.
  unfold popLocked.
  destruct (oq_high q) as [|f h] eqn:Eh; [destruct (oq_low q) as [|f h] eqn:El|].
  - destruct (oq_closed q); discriminate.
  - intros [= <- <- <-]; simpl. rewrite El, zlen_cons. split_and!; try done. by intros [].
  - intros [= <- <- <-]; simpl. rewrite Eh, zlen_cons. split_and!; try done. by intros [].
Qed.

Lemma pop_ok mf mb q p data q' :
  queue_ok mf mb q -> popLocked q = PopFrame p data q' -> queue_ok mf mb q'.
Proof.
  intros [Hb Hf Hm Hfb Hbb] Hp.
  apply popLocked_frame in Hp as (_ & _ & Ho & Hl & Hz & H3 & H4 & H5 & _).
  pose proof (zsum_frame_nonneg (oq_high q')). pose proof (zsum_frame_nonneg (oq_low q')).
  pose proof (zlen_nonneg data).
  destruct p; [pose proof (Ho outboundHigh ltac:(done)) as E|
               pose proof (Ho outboundLow ltac:(done)) as E]; simpl in *;
    rewrite E in *; split; rewrite ?H3, ?H4, ?H5, ?E; try done; lia.
Qed.

Lemma popLocked_wait q : popLocked q = PopWait -> forall p, lane p q = [].
Proof.
  unfold popLocked. destruct (oq_high q) eqn:?, (oq_low q) eqn:?; try discriminate.
  by intros _ [].
Qed.

Lemma queue_ok_flags mf mb q c w d o :
  queue_ok mf mb q ->
  queue_ok mf mb (OQueue (oq_high q) (oq_low q) (oq_bytes q) (oq_maxFrames q) (oq_maxBytes q) c w d o).
Proof. intros [????]. by split. Qed.

Lemma record_app p data h p' :
  record p data h p' = h p' ++ match p, p' with
     | outboundHigh, outboundHigh | outboundLow, outboundLow => [data] | _, _ => [] end.
Proof. destruct p, p'; simpl; by rewrite ?app_nil_r. Qed.

Lemma qstep_inv mf mb s s' : qinv mf mb s -> qstep s s' -> qinv mf mb s'.
Proof.
  intros (Hok & Hf & Hc & Ho & Hw) Hs. unfold qinv, fifo, wakeable in *.
  destruct Hs as [now data p q q' c w acc del Hp|now data p q q' c w acc del Hp
    |q c w acc del Hq|q w acc del|q q' c p data acc del Hp|q c acc del Hp|q c acc del Hp
    |cause q c acc del|q c acc del Hd|q c acc del Hd|q c r acc del]; simpl in *.
  - split; [eapply push_ok; eauto|].
    pose proof (TryPush_accepted _ _ _ _ _ Hp) as (E1&_&_&Hl&_&_&_&E2&E3&E4&E5).
    split; [|rewrite E2, E3, E5; split_and!; congruence].
    intros p'. rewrite record_app, Hl, map_app, Hf, <- app_assoc. by destruct p, p'.
  - apply TryPush_refused in Hp as ->. done.
  - split; [by apply queue_ok_flags|]. split; [intros []; apply Hf|].
    split_and!; try done; try (by right); try (by left).
    all: intros E p; by specialize (Hw E p); destruct p.
  - split; [by apply queue_ok_flags|]. split; [intros []; apply Hf|].
    split_and!; try done; try (by right); try (by left).
    all: intros E p; by specialize (Hw E p); destruct p.
  - split; [eapply pop_ok; eauto|].
    apply popLocked_frame in Hp as (_&Hd&Hl&_&_&_&_&_&E1&E2&E3&E4).
    split; [|rewrite E1, E3, E4; done].
    intros p'. rewrite record_app, Hf. destruct (decide (p' = p)) as [->|Hne]; cycle 1.
    { rewrite (Hl p' Hne). by destruct p, p'; rewrite ?app_nil_r. }
    rewrite Hd. by destruct p; rewrite <- app_assoc.
  - by split_and!.
  - split_and!; try done. intros _ p. by rewrite (popLocked_wait q Hp p).
  - by split_and!.
  - by split_and!.
  - split; [by apply queue_ok_flags|]. split; [intros []; apply Hf|]. by split_and!.
  - by split_and!.
Qed.

Lemma reachable_inv mf mb s : rtc qstep (qinit mf mb) s -> qinv mf mb s.
Proof.
  intros H. remember (qinit mf mb) as s0 eqn:E.
  assert (H0 : qinv mf mb s0).
  { subst. split; [apply new_queue_ok|]. split; [by intros []|]. by split. }
  clear E. induction H; [done|]. eauto using qstep_inv.
Qed.

(** ** Properties *)

(** C26: However producers, the closer and the writer interleave, the mailbox
    never holds more frames or bytes than its bounds, its byte count is the sum
    of the queued frames, and each priority is first-in first-out: the frames
    accepted at a priority are those delivered at it followed by those still
    queued, in order, so that an accepted frame is neither lost, duplicated nor
    reordered. *)
Theorem outbound_fifo_bounded mf mb s :
  rtc qstep (qinit mf mb) s ->
  queue_ok mf mb (qs_queue s) /\ fifo s.
Proof. intros H. apply reachable_inv in H as (Hok & Hf & _). by split. Qed.

Definition sample_run : qsystem :=
  QSystem (OQueue [] [QFrame [7] 5] 1 2 4 false true false false) false
    (WReturned (Ok [1; 2])) (record outboundHigh [1; 2] (record outboundLow [7] (fun _ => [])))
    (record outboundHigh [1; 2] (fun _ => [])).

Lemma outbound_fifo_bounded_witness :
  rtc qstep (qinit 2 4) sample_run /\ queue_ok 2 4 (qs_queue sample_run) /\ fifo sample_run.
Proof.
  assert (H : rtc qstep (qinit 2 4) sample_run).
  { eapply rtc_l; [by eapply (QPush 5 [7] outboundLow)|].
    eapply rtc_l; [by eapply (QPush 6 [1; 2] outboundHigh)|].
    eapply rtc_l; [by eapply (QRefuse 9 [1] outboundLow)|].
    eapply rtc_l; [by eapply QPopFrame|]. apply rtc_refl. }
  split; [exact H|]. exact (outbound_fifo_bounded 2 4 sample_run H).
Defined.

(** No wake-up is lost.  In every reachable state a writer waiting in the
    select can return to the queue as soon as a frame is queued, whatever
    tokens earlier pushes and pops left behind, and then pops a frame, a
    high-priority one if there is any; and once [Close] has completed, it can
    return with the closed error. *)
Theorem outbound_no_lost_wakeup mf mb s :
  rtc qstep (qinit mf mb) s -> qs_writer s = WSelecting ->
  ((exists p, lane p (qs_queue s) <> []) ->
     exists s1 s2 data, qstep s s1 /\ qstep s1 s2 /\ qs_writer s2 = WReturned (Ok data) /\
       exists p f rest, lane p (qs_queue s) = f :: rest /\ data = fr_data f /\
         (oq_high (qs_queue s) <> [] -> p = outboundHigh)) /\
  (oq_closed (qs_queue s) = true -> qs_closing s = false ->
     exists s', qstep s s' /\ qs_writer s' = WReturned (Err errOutboundQueueClosed)).
Proof.
  intros H Hs. apply reachable_inv in H as (_ & _ & Hc & _ & Hw).
  destruct s as [q c w acc del]; simpl in *; subst w. split.
  - intros [p Hp]. specialize (Hw eq_refl p Hp).
    destruct (oq_high q) as [|f h] eqn:Eh; [destruct (oq_low q) as [|f h] eqn:El|].
    + by destruct p; simpl in Hp; rewrite ?Eh, ?El in Hp.
    + eexists _, _, (fr_data f). split_and!;
        [by apply QSelectWake|eapply QPopFrame; unfold popLocked; simpl; by rewrite Eh, El|reflexivity|].
      by exists outboundLow, f, h.
    + eexists _, _, (fr_data f). split_and!;
        [by apply QSelectWake|eapply QPopFrame; unfold popLocked; simpl; by rewrite Eh|reflexivity|].
      by exists outboundHigh, f, h.
  - intros Hcl ->. destruct (Hc Hcl) as [Hd|]; [|done].
    eexists. split; [by apply QSelectDone|done].
Qed.

Definition waiting_run : qsystem :=
  QSystem (OQueue [] [QFrame [7] 5] 1 2 4 false true false false) false WSelecting
    (record outboundLow [7] (fun _ => [])) (fun _ => []).

Lemma outbound_no_lost_wakeup_witness :
  rtc qstep (qinit 2 4) waiting_run /\
  exists s1 s2 data, qstep waiting_run s1 /\ qstep s1 s2 /\ qs_writer s2 = WReturned (Ok data).
Proof.
  assert (H : rtc qstep (qinit 2 4) waiting_run).
  { eapply rtc_l; [by eapply QPopWait|].
    eapply rtc_l; [by eapply (QPush 5 [7] outboundLow)|]. apply rtc_refl. }
  split; [exact H|].
  destruct (outbound_no_lost_wakeup 2 4 waiting_run H eq_refl) as [Hd _].
  destruct Hd as (s1 & s2 & data & H1 & H2 & H3 & _); [by exists outboundLow|].
  by exists s1, s2, data.
Defined.
