(* ===== verification/AttachGate.v ===== *)
(** * The raw attachment gate

    [internal/codelima/terminal_attach_gate.go].  While a physical terminal is
    attached to a session, the gate decides for every renderer query reply
    whether the native renderer delivers it, whether it is held until the output
    watermark is known, or whether it belongs to the attached terminal and is
    dropped.  A reply's [deliver] closure is its [sink]; what an operation
    delivers is the list of replies it returns, in order.  [endLocked] closes
    the [done] channel, which panics ([None]) unless the channel is open. *)

From S2P Require Import Prelude JournalOrder.
Local Open Scope Z_scope.

(** ** Data *)

Definition rawAttachmentResponseLimit : Z := Z.shiftl 256 10.
Definition rawAttachmentIdleTimeout : duration := 15 * second.

(** The [deliver] closures the daemon passes: the gate's own [write] and those
    of other effects. *)
Inductive sink := SinkWrite | SinkEffect (which : Z).

Record rawAttachmentReply := GReply {
  rp_id : Z;
  rp_data : bytes;
  rp_deliver : sink;
}.

Inductive doneChannel := DoneNil | DoneOpen | DoneClosed.

Record rawAttachmentGate := Gate {
  g_owner : string;
  g_id : string;
  g_pending : bool;
  g_start : Z;
  g_ack : Z;
  g_sent : Z;
  g_suppressed : Z;
  g_held : list rawAttachmentReply;
  g_heldBytes : Z;
  g_deadline : time;
  g_done : doneChannel;
}.

Definition emptyGate : rawAttachmentGate :=
  Gate "" "" false 0 0 0 0 [] 0 time_zero DoneNil.

(** ** Operations *)

Definition begin (now : time) (owner id : string) (start : Z) (g : rawAttachmentGate)
    : rawAttachmentGate * result unit :=
  if negb (g_id g =? "")%string
  then (g, Err (ENew "this session is already attached; detach its current terminal first"))
  else (Gate owner id true start start start (g_suppressed g) (g_held g) (g_heldBytes g)
          (now + rawAttachmentIdleTimeout) DoneOpen, Ok tt).

(** The loops over [held]: the replies the test keeps, in order, the others in
    order, and the byte count without the others. *)
Fixpoint splitHeld (keep : rawAttachmentReply -> bool) (held : list rawAttachmentReply)
    (heldBytes : Z) : list rawAttachmentReply * list rawAttachmentReply * Z :=
  match held with
  | [] => ([], [], heldBytes)
  | reply :: rest =>
      if keep reply
      then let '(retained, out, n) := splitHeld keep rest heldBytes in
           (reply :: retained, out, n)
      else let '(retained, out, n) := splitHeld keep rest (heldBytes - zlen (rp_data reply)) in
           (retained, reply :: out, n)
  end.

Definition commit (id : string) (through : Z) (g : rawAttachmentGate)
    : rawAttachmentGate * result unit * list rawAttachmentReply :=
  if negb (g_id g =? id)%string || negb (g_pending g) || (through <? g_start g)
  then (g, Err (ENew "terminal attachment changed during capture"), [])
  else
    let '(retained, delivered, n) :=
      splitHeld (fun reply => negb (rp_id reply <=? through)) (g_held g) (g_heldBytes g) in
    (Gate (g_owner g) (g_id g) false (g_start g) through through (g_suppressed g)
       retained n (g_deadline g) (g_done g), Ok tt, delivered).

Definition endLocked (g : rawAttachmentGate)
    : option (rawAttachmentGate * list rawAttachmentReply) :=
  let delivered :=
    List.filter (fun reply => g_pending g || (g_ack g <? rp_id reply)) (g_held g) in
  let suppressed := if negb (g_pending g) then Z.max (g_suppressed g) (g_ack g)
                    else g_suppressed g in
  match g_done g with
  | DoneOpen =>
      Some (Gate "" "" false (g_start g) (g_ack g) (g_sent g) suppressed [] 0
              (g_deadline g) DoneClosed, delivered)
  | _ => None
  end.

Definition effect (id : Z) (data : bytes) (deliver : sink) (g : rawAttachmentGate)
    : option (rawAttachmentGate * list rawAttachmentReply) :=
  let reply := GReply id data deliver in
  if (id =? 0) || negb (Z.land id rendererInputEventBit =? 0) then Some (g, [reply])
  else if id <=? g_suppressed g then Some (g, [])
  else if (g_id g =? "")%string || (g_pending g && (id <=? g_start g)) then Some (g, [reply])
  else if negb (g_pending g) && (id <=? g_ack g) then Some (g, [])
  else if rawAttachmentResponseLimit - g_heldBytes g <? zlen data
  then '(g', delivered) ← endLocked g; Some (g', delivered ++ [reply])
  else Some (Gate (g_owner g) (g_id g) (g_pending g) (g_start g) (g_ack g) (g_sent g)
               (g_suppressed g) (g_held g ++ [reply]) (g_heldBytes g + zlen data)
               (g_deadline g) (g_done g), []).

Definition response (id : Z) (data : bytes) (g : rawAttachmentGate)
    : option (rawAttachmentGate * list rawAttachmentReply) := effect id data SinkWrite g.

Definition validateLocked (now : time) (owner id : string) (g : rawAttachmentGate)
    : rawAttachmentGate * result unit :=
  if (g_id g =? "")%string || negb (g_id g =? id)%string || negb (g_owner g =? owner)%string ||
     g_pending g
  then (g, Err (ENew "terminal attachment is no longer active"))
  else (Gate (g_owner g) (g_id g) (g_pending g) (g_start g) (g_ack g) (g_sent g)
          (g_suppressed g) (g_held g) (g_heldBytes g) (now + rawAttachmentIdleTimeout)
          (g_done g), Ok tt).

Definition delivered (now : time) (owner id : string) (through : Z) (g : rawAttachmentGate)
    : rawAttachmentGate * result unit :=
  match validateLocked now owner id g with
  | (g, Err e) => (g, Err e)
  | (g, Ok _) =>
      (Gate (g_owner g) (g_id g) (g_pending g) (g_start g) (g_ack g) (Z.max (g_sent g) through)
         (g_suppressed g) (g_held g) (g_heldBytes g) (g_deadline g) (g_done g), Ok tt)
  end.

Definition acknowledge (now : time) (owner id : string) (through : Z) (g : rawAttachmentGate)
    : rawAttachmentGate * result unit :=
  match validateLocked now owner id g with
  | (g, Err e) => (g, Err e)
  | (g, Ok _) =>
      if (through <? g_ack g) || (g_sent g <? through)
      then (g, Err (ENew "invalid terminal attachment output cursor"))
      else
        let '(retained, _, n) :=
          splitHeld (fun reply => through <? rp_id reply) (g_held g) (g_heldBytes g) in
        (Gate (g_owner g) (g_id g) (g_pending g) (g_start g) through (g_sent g)
           (Z.max (g_suppressed g) through) retained n (g_deadline g) (g_done g), Ok tt)
  end.

Definition end_ (id : string) (g : rawAttachmentGate)
    : option (rawAttachmentGate * list rawAttachmentReply) :=
  if (g_id g =? id)%string && negb (id =? "")%string then endLocked g else Some (g, []).

Definition expired (id : string) (now : time) (g : rawAttachmentGate) : bool :=
  (g_id g =? id)%string && (g_deadline g <? now).

(** ** Runs *)

Inductive gateOp :=
| OBegin (now : time) (owner id : string) (start : Z)
| OCommit (id : string) (through : Z)
| OEffect (id : Z) (data : bytes) (deliver : sink)
| ODelivered (now : time) (owner id : string) (through : Z)
| OAcknowledge (now : time) (owner id : string) (through : Z)
| OEnd (id : string).

(** One operation: the gate afterwards and the replies it delivered. *)
Definition gateStep (op : gateOp) (g : rawAttachmentGate)
    : option (rawAttachmentGate * list rawAttachmentReply) :=
  match op with
  | OBegin now owner id start => Some (fst (begin now owner id start g), [])
  | OCommit id through =>
      let '(g', _, out) := commit id through g in Some (g', out)
  | OEffect id data deliver => effect id data deliver g
  | ODelivered now owner id through => Some (fst (delivered now owner id through g), [])
  | OAcknowledge now owner id through => Some (fst (acknowledge now owner id through g), [])
  | OEnd id => end_ id g
  end.

Definition offered (op : gateOp) : list rawAttachmentReply :=
  match op with OEffect id data deliver => [GReply id data deliver] | _ => [] end.

Fixpoint gateRun (ops : list gateOp) (g : rawAttachmentGate)
    : option (rawAttachmentGate * list rawAttachmentReply) :=
  match ops with
  | [] => Some (g, [])
  | op :: ops =>
      '(g, out) ← gateStep op g; '(g, outs) ← gateRun ops g; Some (g, out ++ outs)
  end.

(** The arguments an operation is called with: event identities and output
    watermarks are [uint64]. *)
Definition gateOp_ok (op : gateOp) : Prop :=
  match op with
  | OBegin _ _ _ n | OCommit _ n | OEffect n _ _ | ODelivered _ _ _ n | OAcknowledge _ _ _ n =>
      0 <= n < two64
  | OEnd _ => True
  end.

(** ** The invariant *)

Definition reply_bytes (r : rawAttachmentReply) : Z := zlen (rp_data r).

(** Output up to this watermark belongs to the attached terminal. *)
Definition hostMark (g : rawAttachmentGate) : Z :=
  if (g_id g =? "")%string || g_pending g then g_suppressed g
  else Z.max (g_suppressed g) (g_ack g).

(** A reply the gate may drop: an ordinary output event the terminal owns. *)
Definition droppable (mark : Z) (r : rawAttachmentReply) : Prop :=
  rp_id r <> 0 /\ Z.land (rp_id r) rendererInputEventBit = 0 /\ rp_id r <= mark.

Record gate_ok (g : rawAttachmentGate) : Prop := {
  go_bytes : g_heldBytes g = zsum reply_bytes (g_held g);
  go_bound : g_heldBytes g <= rawAttachmentResponseLimit;
  go_cursors : g_start g <= g_ack g <= g_sent g;
  go_start : 0 <= g_start g;
  go_suppressed : 0 <= g_suppressed g;
  go_detached : g_id g = ""%string -> g_held g = [];
  go_attached : g_id g <> ""%string -> g_done g = DoneOpen;
  go_held : Forall (fun r => rp_id r <> 0 /\ Z.land (rp_id r) rendererInputEventBit = 0 /\
                             hostMark g < rp_id r /\ (g_pending g = true -> g_start g < rp_id r))
              (g_held g);
}.

(** ** Lemmas *)

Lemma splitHeld_spec keep held n retained out m :
  splitHeld keep held n = (retained, out, m) ->
  retained = List.filter keep held /\ out = List.filter (fun r => negb (keep r)) held /\
  held ≡ₚ out ++ retained /\ m = n - zsum reply_bytes out.
Proof.
  revert n retained out m. induction held as [|r held IH]; simpl; intros n retained out m H.
  { injection H as <- <- <-. split_and!; [done..|simpl; lia]. }
  destruct (keep r).
  - destruct (splitHeld keep held n) as [[re o] k] eqn:E. injection H as <- <- <-.
    destruct (IH _ _ _ _ E) as (-> & -> & Hp & ->). split_and!; try done.
    by rewrite <- Permutation_middle, <- Hp.
  - destruct (splitHeld keep held _) as [[re o] k] eqn:E. injection H as <- <- <-.
    destruct (IH _ _ _ _ E) as (-> & -> & Hp & ->). split_and!; try done.
    + simpl. by rewrite <- Hp.
    + simpl. unfold reply_bytes. lia.
Qed.

Lemma Forall_filter_both {A} (P Q : A -> Prop) (f : A -> bool) l :
  (forall x, P x -> f x = true -> Q x) -> Forall P l -> Forall Q (List.filter f l).
Proof.
  intros H. induction 1 as [|x l Hx Hl IH]; simpl; [done|].
  destruct (f x) eqn:E; [constructor|]; auto.
Qed.

Lemma filter_all {A} (f : A -> bool) l : Forall (fun x => f x = true) l -> List.filter f l = l.
Proof. induction 1 as [|x l Hx Hl IH]; simpl; [done|]. by rewrite Hx, IH. Qed.

Lemma held_bytes_le held : 0 <= zsum reply_bytes held.
Proof. apply zsum_nonneg. intros. apply zlen_nonneg. Qed.

Definition step_post (op : gateOp) (g : rawAttachmentGate)
    (r : option (rawAttachmentGate * list rawAttachmentReply)) : Prop :=
  exists g' out dropped, r = Some (g', out) /\ gate_ok g' /\ hostMark g <= hostMark g' /\
    offered op ++ g_held g ≡ₚ out ++ g_held g' ++ dropped /\
    Forall (droppable (hostMark g')) dropped.

Lemma step_post_same op g : gate_ok g -> offered op = [] -> step_post op g (Some (g, [])).
Proof.
  intros Hg Ho. exists g, [], []. rewrite Ho. split_and!; try done.
  by rewrite app_nil_r.
Qed.

Lemma id_cases (g : rawAttachmentGate) :
  {g_id g = ""%string /\ (g_id g =? "")%string = true} +
  {g_id g <> ""%string /\ (g_id g =? "")%string = false}.
Proof. destruct (g_id g =? "")%string eqn:E; bool_to_prop; [left|right]; done. Qed.

Lemma endLocked_spec g :
  gate_ok g -> g_id g <> ""%string ->
  exists g', endLocked g = Some (g', g_held g) /\ gate_ok g' /\ hostMark g <= hostMark g' /\
    g_held g' = [].
Proof.
  intros [Hb Hl Hc Hs Hu Hd Ha Hh] Hid. unfold endLocked. rewrite (Ha Hid).
  assert (0 <= rawAttachmentResponseLimit) by done.
  eexists. split_and!; [rewrite filter_all; [reflexivity|]|split; simpl; try done; try lia| |done].
  - eapply Forall_impl; [apply Hh|].
    intros r (_ & _ & Hr & _). unfold hostMark in Hr.
    destruct (id_cases g) as [[? _]|[_ E]]; [done|rewrite E in Hr].
    destruct (g_pending g); [done|]. simpl in Hr |- *. apply Z.ltb_lt. lia.
  - destruct (g_pending g); simpl; lia.
  - unfold hostMark. simpl.
    destruct (id_cases g) as [[? _]|[_ E]]; [done|rewrite E]. destruct (g_pending g); simpl; lia.
Qed.

Lemma begin_post g now owner id start :
  gate_ok g -> 0 <= start ->
  step_post (OBegin now owner id start) g (gateStep (OBegin now owner id start) g).
Proof.
  intros Hg Hr. simpl. unfold begin.
  destruct (id_cases g) as [[Hi ->]|[Hi ->]]; [|by apply step_post_same]. simpl.
  destruct Hg as [Hb Hl Hc Hs Hu Hd Ha Hh]. specialize (Hd Hi).
  eexists _, [], []. split_and!; [reflexivity|split; simpl; try done; try lia| | |done].
  - by rewrite Hd.
  - unfold hostMark; simpl. rewrite Hi, orb_true_r. simpl. lia.
  - simpl. by rewrite app_nil_r.
Qed.

Lemma commit_post g id through :
  gate_ok g -> 0 <= through -> step_post (OCommit id through) g (gateStep (OCommit id through) g).
Proof.
  intros Hg Hr. simpl. unfold commit.
  destruct (_ || _)%bool eqn:Ec; [by apply step_post_same|].
  apply orb_false_elim in Ec as [Ec Ht]. apply orb_false_elim in Ec as [Ei Ep].
  destruct (splitHeld _ _ _) as [[re out] n] eqn:E.
  apply splitHeld_spec in E as (-> & Ho & Hp & ->). bool_to_prop.
  destruct Hg as [Hb Hl Hc Hs Hu Hd Ha Hh].
  assert (Hz : zsum reply_bytes (g_held g) = zsum reply_bytes out +
    zsum reply_bytes (List.filter (fun r => negb (rp_id r <=? through)) (g_held g))).
  { by rewrite (zsum_permutation _ _ _ Hp), zsum_app. }
  pose proof (held_bytes_le out).
  eexists _, out, []. split_and!; [reflexivity|split; simpl; try done; try lia| |simpl|done].
  - intros Hi. by rewrite (Hd Hi).
  - eapply Forall_filter_both; [|apply Hh]. intros r (H1 & H2 & H3 & _) Hk. bool_to_prop.
    split_and!; try done. unfold hostMark in *. simpl. rewrite Ep, orb_true_r in H3.
    simpl in H3. destruct (g_id g =? "")%string; simpl; lia.
  - unfold hostMark. simpl. rewrite Ep, orb_true_r. destruct (g_id g =? "")%string; simpl; lia.
  - by rewrite app_nil_r.
Qed.

Lemma effect_post g id data d :
  gate_ok g -> step_post (OEffect id data d) g (gateStep (OEffect id data d) g).
Proof.
  intros Hg. simpl. unfold effect.
  assert (Hdeliver : step_post (OEffect id data d) g (Some (g, [GReply id data d]))).
  { exists g, [GReply id data d], []. split_and!; try done. simpl. by rewrite app_nil_r. }
  destruct ((id =? 0) || _)%bool eqn:E0; [done|].
  apply orb_false_elim in E0 as [E0 E1]. bool_to_prop.
  assert (Hdrop : id <= hostMark g -> step_post (OEffect id data d) g (Some (g, []))).
  { intros Hle. exists g, [], [GReply id data d]. split_and!; try done.
    - simpl. by rewrite (Permutation_app_comm _ [_]).
    - by constructor. }
  destruct (id <=? g_suppressed g) eqn:E2; bool_to_prop.
  { apply Hdrop. unfold hostMark. destruct (_ || _)%bool; lia. }
  destruct (id_cases g) as [[Hi Ei]|[Hi Ei]]; rewrite Ei; [done|]. simpl.
  destruct (g_pending g && (id <=? g_start g)) eqn:E3; [done|].
  destruct (negb (g_pending g) && (id <=? g_ack g)) eqn:E4.
  { bool_to_prop. apply Hdrop. unfold hostMark. rewrite (proj2 (String.eqb_neq _ _) Hi).
    destruct (g_pending g); [done|]. simpl. lia. }
  destruct (_ <? zlen data) eqn:E5; bool_to_prop.
  - destruct (endLocked_spec g Hg Hi) as (g' & -> & Hg' & Hm & Hh'). simpl.
    exists g', (g_held g ++ [GReply id data d]), []. split_and!; try done.
    rewrite Hh'. simpl. rewrite app_nil_r. by rewrite (Permutation_app_comm _ [_]).
  - destruct Hg as [Hb Hl Hc Hs Hu Hd Ha Hh].
    eexists _, [], []. split_and!; [reflexivity|split; simpl; try done; try lia|done| |done].
    + rewrite zsum_app, Hb. simpl. unfold reply_bytes at 3. simpl. lia.
    + apply Forall_app. split; [done|]. constructor; [|done]. simpl. split_and!; try done.
      * unfold hostMark. simpl. rewrite (proj2 (String.eqb_neq _ _) Hi). destruct (g_pending g); simpl in *; [lia|].
        apply Z.leb_gt in E4. lia.
      * intros Hp. rewrite Hp in E3. simpl in E3. by apply Z.leb_gt in E3.
    + simpl. rewrite app_nil_r. by rewrite (Permutation_app_comm _ [_]).
Qed.

Lemma validateLocked_ok now owner id g g' r :
  gate_ok g -> validateLocked now owner id g = (g', r) ->
  gate_ok g' /\ g_held g' = g_held g /\ hostMark g' = hostMark g /\
  (is_ok r = true -> g_pending g = false /\ g_id g <> ""%string) /\
  g_id g' = g_id g /\ g_pending g' = g_pending g /\
  g_suppressed g' = g_suppressed g /\ g_ack g' = g_ack g.
Proof.
  intros Hg. unfold validateLocked. destruct (_ || _)%bool eqn:E; intros [= <- <-].
  { by split_and!. }
  bool_to_prop. split_and!; try done. destruct Hg. by split.
Qed.

Lemma delivered_post g now owner id through :
  gate_ok g ->
  step_post (ODelivered now owner id through) g (gateStep (ODelivered now owner id through) g).
Proof.
  intros Hg. simpl. unfold delivered.
  destruct (validateLocked now owner id g) as [g' r] eqn:E.
  apply validateLocked_ok in E as (Hg' & Hh & Hm & _); [|done].
  destruct r as [u|e]; simpl.
  - eexists _, [], []. split_and!; [reflexivity| | |simpl; by rewrite app_nil_r, Hh|done].
    + destruct Hg' as [Hb' Hl' Hc' Hs' Hu' Hd' Ha' Hh']. split; simpl; try done. lia.
    + rewrite <- Hm. done.
  - exists g', [], []. split_and!; try done; [lia|]. simpl. by rewrite app_nil_r, Hh.
Qed.

Lemma acknowledge_post g now owner id through :
  gate_ok g -> 0 <= through ->
  step_post (OAcknowledge now owner id through) g
    (gateStep (OAcknowledge now owner id through) g).
Proof.
  intros Hg Hr. simpl. unfold acknowledge.
  destruct (validateLocked now owner id g) as [g' r] eqn:E.
  apply validateLocked_ok in E as (Hg' & Hh & Hm & Hok & Ei & Ep & Es & Ea); [|done].
  assert (Hsame : step_post (OAcknowledge now owner id through) g (Some (g', []))).
  { exists g', [], []. split_and!; try done; [lia|]. simpl. by rewrite app_nil_r, Hh. }
  destruct r as [u|e]; [|done]. specialize (Hok eq_refl) as [Hp Hid].
  destruct (_ || _)%bool eqn:Ec; [done|]. bool_to_prop.
  destruct (splitHeld _ _ _) as [[re out] n] eqn:E.
  apply splitHeld_spec in E as (-> & Ho & Hperm & ->). simpl.
  destruct Hg' as [Hb' Hl' Hc' Hs' Hu' Hd' Ha' Hh'].
  assert (Hz : zsum reply_bytes (g_held g') = zsum reply_bytes out +
    zsum reply_bytes (List.filter (fun r => through <? rp_id r) (g_held g'))).
  { by rewrite (zsum_permutation _ _ _ Hperm), zsum_app. }
  pose proof (held_bytes_le out).
  assert (Hm' : hostMark g = Z.max (g_suppressed g') (g_ack g')).
  { unfold hostMark in *. rewrite Hp. destruct (id_cases g) as [[? _]|[_ ->]]; [done|].
    simpl. by rewrite Es, Ea. }
  rewrite Ei, Ep, Hp.
  eexists _, [], out. split_and!; [reflexivity|split; simpl; try done; try lia| | |].
  - by rewrite <- Ei.
  - eapply Forall_filter_both; [|apply Hh']. intros x (K1 & K2 & K3 & _) Hk. bool_to_prop.
    split_and!; try done. unfold hostMark. simpl. rewrite (proj2 (String.eqb_neq _ _) Hid). simpl.
    rewrite Hm, Hm' in K3. lia.
  - unfold hostMark at 2. simpl. rewrite (proj2 (String.eqb_neq _ _) Hid), Hm'. simpl. lia.
  - simpl. rewrite <- Hh, Hperm at 1. apply Permutation_app_comm.
  - rewrite Ho. eapply Forall_filter_both; [|apply Hh'].
    intros x (K1 & K2 & K3 & _) Hk. bool_to_prop. split_and!; try done.
    unfold hostMark. simpl. rewrite (proj2 (String.eqb_neq _ _) Hid). simpl. lia.
Qed.

Lemma gateStep_post g op :
  gate_ok g -> gateOp_ok op -> step_post op g (gateStep op g).
Proof.
  intros Hg Hop. destruct op; simpl in Hop;
    auto using effect_post, delivered_post.
  - apply begin_post; [done|lia].
  - apply commit_post; [done|lia].
  - apply acknowledge_post; [done|lia].
  - simpl. unfold end_. destruct (_ && _)%bool eqn:E; [|by apply step_post_same].
    bool_to_prop. destruct (endLocked_spec g Hg) as (g' & -> & Hg' & Hm & Hh'); [congruence|].
    exists g', (g_held g), []. split_and!; try done. simpl. by rewrite Hh', app_nil_r.
Qed.

Lemma emptyGate_ok : gate_ok emptyGate.
Proof. split; simpl; try done. Qed.

Lemma droppable_mono m m' r : m <= m' -> droppable m r -> droppable m' r.
Proof. intros Hm (H1 & H2 & H3). split_and!; [done..|lia]. Qed.

Lemma gateRun_post ops g :
  gate_ok g -> Forall gateOp_ok ops ->
  exists g' out dropped, gateRun ops g = Some (g', out) /\ gate_ok g' /\
    hostMark g <= hostMark g' /\
    (List.flat_map offered ops) ++ g_held g ≡ₚ out ++ g_held g' ++ dropped /\
    Forall (droppable (hostMark g')) dropped.
Proof.
  intros Hg Hops. revert g Hg. induction Hops as [|op ops Hop Hops IH]; intros g Hg; simpl.
  { exists g, [], []. split_and!; try done. simpl. by rewrite app_nil_r. }
  destruct (gateStep_post g op Hg Hop) as (g1 & o1 & d1 & -> & Hg1 & Hm1 & Hp1 & Hd1).
  destruct (IH g1 Hg1) as (g2 & o2 & d2 & E & Hg2 & Hm2 & Hp2 & Hd2). simpl.
  rewrite E. simpl. exists g2, (o1 ++ o2), (d1 ++ d2). split_and!; try done; [lia| |].
  - rewrite <- app_assoc, (Permutation_app_comm (List.flat_map offered ops)), app_assoc, Hp1.
    rewrite <- !app_assoc. apply Permutation_app_head.
    rewrite (Permutation_app_comm d1), app_assoc, (Permutation_app_comm (g_held g1)), Hp2.
    rewrite <- !app_assoc. apply Permutation_app_head, Permutation_app_head.
    apply Permutation_app_comm.
  - apply Forall_app. split; [|done].
    eapply Forall_impl; [done|]. intros r. by apply droppable_mono.
Qed.

(** ** Properties *)

(** No sequence of operations panics on the gate's channel, and every state
    reached satisfies the gate's invariant: the held bytes are the sum of the
    held replies and at most 256 KiB, start <= acknowledged <= sent, nothing is
    held while no terminal is attached, and every held reply is newer than all
    output the attached terminal already owns. *)
Theorem gate_run_safe ops :
  Forall gateOp_ok ops ->
  exists g out, gateRun ops emptyGate = Some (g, out) /\ gate_ok g.
Proof.
  intros H. destruct (gateRun_post ops emptyGate emptyGate_ok H) as (g & out & d & ? & ? & _).
  by exists g, out.
Qed.

Definition sample_ops : list gateOp :=
  [OBegin 1 "tty" "a1" 10; OEffect 11 [1] SinkWrite; OEffect 13 [2; 2] (SinkEffect 0);
   OEffect 9 [3] SinkWrite; OCommit "a1" 12; ODelivered 2 "tty" "a1" 14;
   OEffect 14 [4] SinkWrite; OAcknowledge 3 "tty" "a1" 13; OEnd "a1"; OEffect 12 [5] SinkWrite].

Lemma sample_ops_ok : Forall gateOp_ok sample_ops.
Proof. repeat constructor; simpl; lia. Qed.

Lemma gate_run_safe_witness :
  exists g out, gateRun sample_ops emptyGate = Some (g, out) /\ gate_ok g.
Proof. exact (gate_run_safe sample_ops sample_ops_ok). Defined.

(** C38: Replies are conserved: over any sequence of operations, every reply
    offered to the gate is exactly once either delivered, still held, or
    dropped; and a reply is dropped only when it answers ordinary terminal
    output up to the watermark the attached terminal owns, so that the native
    renderer's reply to anything newer, or to input, is never lost. *)
Theorem gate_replies_conserved ops g out :
  Forall gateOp_ok ops -> gateRun ops emptyGate = Some (g, out) ->
  exists dropped, (List.flat_map offered ops) ≡ₚ out ++ g_held g ++ dropped /\
    Forall (droppable (hostMark g)) dropped.
Proof.
  intros H E. destruct (gateRun_post ops emptyGate emptyGate_ok H)
    as (g' & out' & d & E' & _ & _ & Hp & Hd).
  rewrite E in E'. injection E' as <- <-. exists d. split; [|done].
  by rewrite app_nil_r in Hp.
Qed.

Lemma gate_replies_conserved_witness :
  exists g out, gateRun sample_ops emptyGate = Some (g, out) /\
    map rp_id out = [9; 11; 14] /\
    exists dropped, (List.flat_map offered sample_ops) ≡ₚ out ++ g_held g ++ dropped /\
      Forall (droppable (hostMark g)) dropped.
Proof.
  eexists _, _. split; [vm_compute; reflexivity|]. split; [reflexivity|].
  apply (gate_replies_conserved sample_ops); [exact sample_ops_ok|vm_compute; reflexivity].
Defined.
