(* ===== verification/VTBoundary.v ===== *)
(** * The terminal stream boundary tracker

    [internal/terminalstate/vt_boundary.go].  [Feed] follows a byte stream just
    closely enough to know whether it stands between complete UTF-8 and VT
    sequences; native checkpoints are taken only at such points.  The
    specification is a grammar of complete sequences ([vt_sequence]) and the
    theorem that the tracker is at ground exactly between them. *)

From S2P Require Import Prelude.
Local Open Scope Z_scope.

(** ** Data *)

Record VTBoundary := VT {
  vt_State : Z;
  vt_UTF8 : Z;
  vt_OSC : bool;
}.

Definition vtGround : Z := 0.
Definition vtEscape : Z := 1.
Definition vtCSI : Z := 2.
Definition vtString : Z := 3.
Definition vtStringEscape : Z := 4.

Definition vtZero : VTBoundary := VT 0 0 false.

(** ** Operations *)

Definition Ground (v : VTBoundary) : bool := (vt_State v =? vtGround) && (vt_UTF8 v =? 0).

Definition setState (v : VTBoundary) (s : Z) : VTBoundary := VT s (vt_UTF8 v) (vt_OSC v).

(** The part of the loop body after UTF-8 and the cancelling controls. *)
Definition feedCommand (v : VTBoundary) (b : Z) : VTBoundary :=
  let v :=
    if (vt_State v =? vtStringEscape) && negb (b =? 0x5c) && negb (b =? 0x1b)
    then setState v vtEscape else v in
  if (vt_State v =? vtString) || (vt_State v =? vtStringEscape) then
    if ((b =? 7) && vt_OSC v) || ((b =? 0x5c) && (vt_State v =? vtStringEscape))
    then setState v vtGround
    else if b =? 0x1b then setState v vtStringEscape
    else setState v vtString
  else if b =? 0x1b then setState v vtEscape
  else if b =? 0x9b then setState v vtCSI
  else if (b =? 0x90) || (b =? 0x98) || (b =? 0x9d) || (b =? 0x9e) || (b =? 0x9f)
  then VT vtString (vt_UTF8 v) (b =? 0x9d)
  else if vt_State v =? vtEscape then
    if b =? 0x5b then setState v vtCSI
    else if (b =? 0x50) || (b =? 0x58) || (b =? 0x5d) || (b =? 0x5e) || (b =? 0x5f)
    then VT vtString (vt_UTF8 v) (b =? 0x5d)
    else if (0x30 <=? b) && (b <=? 0x7e) then setState v vtGround
    else v
  else if vt_State v =? vtCSI then
    if (0x40 <=? b) && (b <=? 0x7e) then setState v vtGround else v
  else v.

(** The loop body from the UTF-8 lead bytes on. *)
Definition feedLead (v : VTBoundary) (b : Z) : VTBoundary :=
  if (0xc2 <=? b) && (b <=? 0xdf) then VT (vt_State v) 1 (vt_OSC v)
  else if (0xe0 <=? b) && (b <=? 0xef) then VT (vt_State v) 2 (vt_OSC v)
  else if (0xf0 <=? b) && (b <=? 0xf4) then VT (vt_State v) 3 (vt_OSC v)
  else if (b =? 0x18) || (b =? 0x1a) || (b =? 0x9c) then setState v vtGround
  else feedCommand v b.

Definition feedByte (v : VTBoundary) (b : Z) : VTBoundary :=
  if 0 <? vt_UTF8 v then
    if Z.land b 0xc0 =? 0x80 then VT (vt_State v) (vt_UTF8 v - 1) (vt_OSC v)
    else feedLead (VT (vt_State v) 0 (vt_OSC v)) b
  else feedLead v b.

Fixpoint Feed (v : VTBoundary) (data : bytes) : VTBoundary :=
  match data with
  | [] => v
  | b :: data => Feed (feedByte v b) data
  end.

(** ** The grammar of complete sequences *)

Inductive vt_char :=
| CAscii (b : Z)
| CUtf8 (lead : Z) (continuation : bytes).

Inductive vt_terminator := TermST | TermC1 | TermBEL.

Inductive vt_sequence :=
| SText (c : vt_char)
| SControl (b : Z)
| SEscape (intermediates : bytes) (final : Z)
| SCsi (c1 : bool) (params : bytes) (final : Z)
| SString (c1 : bool) (intro : Z) (payload : list vt_char) (t : vt_terminator).

Definition between (lo hi b : Z) : bool := (lo <=? b) && (b <=? hi).

Definition utf8_tail (lead : Z) : nat :=
  if between 0xc2 0xdf lead then 1 else if between 0xe0 0xef lead then 2 else 3.

Definition char_ok (c : vt_char) : bool :=
  match c with
  | CAscii b => between 0x20 0x7e b
  | CUtf8 lead tail =>
      between 0xc2 0xf4 lead && (length tail =? utf8_tail lead)%nat &&
      forallb (between 0x80 0xbf) tail
  end.

(** The seven-bit introducers of control strings; [0x5d] starts an OSC. *)
Definition is_intro (b : Z) : bool :=
  (b =? 0x50) || (b =? 0x58) || (b =? 0x5d) || (b =? 0x5e) || (b =? 0x5f).

Definition sequence_ok (s : vt_sequence) : bool :=
  match s with
  | SText c => char_ok c
  | SControl b => between 0 0x1f b && negb (b =? 0x1b)
  | SEscape inter final =>
      forallb (between 0x20 0x2f) inter && between 0x30 0x7e final && negb (final =? 0x5b) &&
      negb (is_intro final)
  | SCsi _ params final => forallb (between 0x20 0x3f) params && between 0x40 0x7e final
  | SString _ intro payload t =>
      is_intro intro && forallb char_ok payload &&
      match t with TermBEL => intro =? 0x5d | _ => true end
  end.

Definition char_bytes (c : vt_char) : bytes :=
  match c with CAscii b => [b] | CUtf8 lead tail => lead :: tail end.

Definition terminator_bytes (t : vt_terminator) : bytes :=
  match t with TermST => [0x1b; 0x5c] | TermC1 => [0x9c] | TermBEL => [7] end.

Definition sequence_bytes (s : vt_sequence) : bytes :=
  match s with
  | SText c => char_bytes c
  | SControl b => [b]
  | SEscape inter final => 0x1b :: inter ++ [final]
  | SCsi c1 params final => (if c1 then [0x9b] else [0x1b; 0x5b]) ++ params ++ [final]
  | SString c1 intro payload t =>
      (if c1 then [intro + 0x40] else [0x1b; intro]) ++
      List.flat_map char_bytes payload ++ terminator_bytes t
  end.

Definition stream_bytes (l : list vt_sequence) : bytes := List.flat_map sequence_bytes l.

(** ** States the future cannot tell apart *)

(** The [OSC] flag is read only inside a control string. *)
Definition vt_equiv (v w : VTBoundary) : Prop :=
  vt_State v = vt_State w /\ vt_UTF8 v = vt_UTF8 w /\
  (vt_State v = vtString \/ vt_State v = vtStringEscape -> vt_OSC v = vt_OSC w).

(** Not at ground after any of the bytes. *)
Fixpoint busy (v : VTBoundary) (data : bytes) : Prop :=
  match data with
  | [] => True
  | b :: data => Ground (feedByte v b) = false /\ busy (feedByte v b) data
  end.

(** ** Lemmas *)

#[export] Instance vt_equiv_equivalence : Equivalence vt_equiv.
Proof.
  split.
  - by intros v.
  - intros v w (H1 & H2 & H3). split_and!; try done. intros H. rewrite H3; [done|by rewrite H1].
  - intros u v w (H1 & H2 & H3) (K1 & K2 & K3).
    split_and!; [congruence..|]. intros H. rewrite H3 by done. apply K3. by rewrite <- H1.
Qed.

Lemma Feed_app v a b : Feed v (a ++ b) = Feed (Feed v a) b.
Proof. revert v. induction a as [|x a IH]; intros v; simpl; auto. Qed.

Lemma busy_app v a b : busy v (a ++ b) <-> busy v a /\ busy (Feed v a) b.
Proof. revert v. induction a as [|x a IH]; intros v; simpl; [tauto|]. rewrite IH. tauto. Qed.

Lemma busy_prefix v p q : busy v (p ++ q) -> p <> [] -> Ground (Feed v p) = false.
Proof.
  intros H Hp. apply busy_app in H as [H _].
  destruct (exists_last Hp) as (p' & b & ->). apply busy_app in H as [_ [H _]].
  by rewrite Feed_app.
Qed.

Ltac destruct_ifs :=
  repeat match goal with
  | |- context [if ?c then _ else _] => let E := fresh "E" in destruct c eqn:E
  | H : context [if ?c then _ else _] |- _ => let E := fresh "E" in destruct c eqn:E
  end.

Lemma feedCommand_equiv v w b : vt_equiv v w -> vt_equiv (feedCommand v b) (feedCommand w b).
Proof.
  destruct v as [s u o], w as [s' u' o']. intros (H1 & H2 & H3); simpl in *. subst s' u'.
  unfold feedCommand, setState; simpl.
  destruct (s =? vtStringEscape) eqn:E4; simpl.
  - bool_to_prop. subst s. rewrite <- H3 by (by right).
    destruct (negb (b =? 0x5c) && negb (b =? 0x1b)) eqn:Eb; simpl.
    + destruct_ifs; by (split_and!; try done; intros []).
    + destruct_ifs; by (split_and!; try done; intros []).
  - rewrite E4. simpl. rewrite orb_false_r.
    destruct (s =? vtString) eqn:E3; simpl.
    + bool_to_prop. subst s. rewrite <- H3 by (by left). reflexivity.
    + bool_to_prop. destruct_ifs; split_and!; simpl; try done; intros []; try done;
        by (destruct H3; auto).
Qed.

Lemma feedByte_equiv v w b : vt_equiv v w -> vt_equiv (feedByte v b) (feedByte w b).
Proof.
  intros H. pose proof H as (H1 & H2 & H3). unfold feedByte. rewrite <- H2.
  assert (Hl : forall v w, vt_equiv v w -> vt_equiv (feedLead v b) (feedLead w b)).
  { clear. intros v w H. pose proof H as (H1 & H2 & H3). unfold feedLead.
    repeat case_match; try (solve [by apply feedCommand_equiv|by split_and!]).
    split_and!; [done..|by intros []]. }
  repeat case_match; try (by split_and!); apply Hl; by split_and!.
Qed.

#[export] Instance Feed_proper : Proper (vt_equiv ==> eq ==> vt_equiv) Feed.
Proof.
  intros v w H data ? <-. revert v w H.
  induction data as [|b data IH]; intros v w H; simpl; [done|]. by apply IH, feedByte_equiv.
Qed.

#[export] Instance Ground_proper : Proper (vt_equiv ==> eq) Ground.
Proof. intros v w (H1 & H2 & _). unfold Ground. by rewrite H1, H2. Qed.

Lemma Ground_equiv v : Ground v = true -> vt_equiv v vtZero.
Proof.
  unfold Ground. intros H. bool_to_prop. split_and!; try done.
  intros [E|E]; rewrite E in *; done.
Qed.

(** A decidable fact about bytes holds when it holds of all of them. *)
Lemma byte_forall (P : Z -> bool) :
  forallb P (seqZ 0 256) = true -> forall b, 0 <= b < 256 -> P b = true.
Proof.
  intros H b Hb. rewrite forallb_forall in H. apply H.
  apply list_elem_of_In, elem_of_seqZ. lia.
Qed.

Definition vt_eqb (v w : VTBoundary) : bool :=
  (vt_State v =? vt_State w) && (vt_UTF8 v =? vt_UTF8 w) && eqb (vt_OSC v) (vt_OSC w).

Lemma vt_eqb_eq v w : vt_eqb v w = true -> v = w.
Proof.
  unfold vt_eqb. intros H. bool_to_prop.
  destruct v, w; simpl in *. f_equal; try done. by apply eqb_prop.
Qed.

(** [feedByte] takes every byte of the range from one state to another. *)
Definition moves (v : VTBoundary) (P : Z -> bool) (w : VTBoundary) : bool :=
  forallb (fun b => negb (P b) || vt_eqb (feedByte v b) w) (seqZ 0 256).

Lemma moves_step v P w b : moves v P w = true -> 0 <= b < 256 -> P b = true -> feedByte v b = w.
Proof.
  intros H Hb HP. pose proof (byte_forall _ H b Hb) as E. simpl in E. rewrite HP in E.
  by apply vt_eqb_eq.
Qed.

Lemma between_byte lo hi b : between lo hi b = true -> 0 <= lo -> hi < 256 -> 0 <= b < 256.
Proof. unfold between. intros H ??. bool_to_prop. lia. Qed.

(** A state that loops on a set of bytes stays busy on a run of them. *)
Lemma loop_busy v P l :
  moves v P v = true -> Ground v = false ->
  Forall (fun b => 0 <= b < 256 /\ P b = true) l -> Feed v l = v /\ busy v l.
Proof.
  intros Hm Hg. induction 1 as [|b l [Hb HP] Hl IH]; simpl; [done|].
  rewrite (moves_step v P v b) by done. tauto.
Qed.

Lemma forallb_bytes lo hi l :
  forallb (between lo hi) l = true -> 0 <= lo -> hi < 256 ->
  Forall (fun b => 0 <= b < 256 /\ between lo hi b = true) l.
Proof.
  intros H Hlo Hhi. apply Forall_forall. intros b Hb.
  rewrite forallb_forall in H. specialize (H b). rewrite <- list_elem_of_In in H.
  split; [|auto]. eapply between_byte; eauto.
Qed.

(** Continuation bytes leave the state alone, and the tracker busy while the
    state is not ground or more of them are due. *)
Lemma utf8_tail_feed s o tail n :
  forallb (between 0x80 0xbf) tail = true -> (length tail <= n)%nat ->
  Feed (VT s (Z.of_nat n) o) tail = VT s (Z.of_nat (n - length tail)) o /\
  (s <> vtGround \/ (length tail < n)%nat -> busy (VT s (Z.of_nat n) o) tail).
Proof.
  revert n. induction tail as [|b tail IH]; intros n H Hn; [by rewrite Nat.sub_0_r|].
  destruct n as [|n]; simpl in Hn; [lia|]. cbn [forallb] in H. bool_to_prop.
  assert (E : feedByte (VT s (Z.of_nat (S n)) o) b = VT s (Z.of_nat n) o).
  { unfold feedByte. simpl vt_UTF8. rewrite (proj2 (Z.ltb_lt _ _)) by lia.
    pose proof (byte_forall (fun b => negb (between 0x80 0xbf b) || (Z.land b 0xc0 =? 0x80))
      ltac:(reflexivity) b ltac:(by eapply between_byte)) as Hb.
    cbn beta in Hb. rewrite H in Hb. simpl in Hb. rewrite Hb. simpl. f_equal. lia. }
  cbn [Feed busy]. rewrite E. destruct (IH n) as [IH1 IH2]; [done|lia|]. split; [done|].
  intros Hb. split; [|apply IH2; simpl in Hb; destruct Hb; [by left|right; lia]].
  unfold Ground. cbn [vt_State vt_UTF8]. destruct Hb as [Hb|Hb]; simpl in Hb.
  - by rewrite (proj2 (Z.eqb_neq s vtGround)).
  - rewrite (proj2 (Z.eqb_neq (Z.of_nat n) 0)) by lia. apply andb_false_r.
Qed.

Lemma utf8_lead s o lead :
  between 0xc2 0xf4 lead = true ->
  feedByte (VT s 0 o) lead = VT s (Z.of_nat (utf8_tail lead)) o.
Proof.
  intros H. unfold feedByte, feedLead, utf8_tail, between in *. simpl. bool_to_prop.
  destruct (0xc2 <=? lead) eqn:?, (lead <=? 0xdf) eqn:?, (0xe0 <=? lead) eqn:?,
    (lead <=? 0xef) eqn:?, (0xf0 <=? lead) eqn:?, (lead <=? 0xf4) eqn:?; simpl;
    bool_to_prop; try done; lia.
Qed.

(** Inside a control string, payload characters keep the tracker there. *)
Lemma char_in_string o c :
  char_ok c = true ->
  let v := VT vtString 0 o in Feed v (char_bytes c) = v /\ busy v (char_bytes c).
Proof.
  intros H v. destruct c as [b|lead tail]; simpl in H.
  - apply (loop_busy v (between 0x20 0x7e)); [by destruct o|done|].
    constructor; [|done]. split; [|done]. by eapply between_byte.
  - bool_to_prop. cbn [char_bytes Feed busy]. unfold v. rewrite utf8_lead by done.
    match goal with E : (_ =? _)%nat = true |- _ => apply Nat.eqb_eq in E; rename E into Hl end.
    destruct (utf8_tail_feed vtString o tail (utf8_tail lead)) as [-> Hb]; [done|lia|].
    rewrite Hl, Nat.sub_diag. split; [done|]. split; [done|]. apply Hb. by left.
Qed.

Lemma payload_busy o l :
  forallb char_ok l = true ->
  let v := VT vtString 0 o in
  Feed v (List.flat_map char_bytes l) = v /\ busy v (List.flat_map char_bytes l).
Proof.
  intros H v. induction l as [|c l IH]; [done|]. simpl in H. bool_to_prop.
  destruct (char_in_string o c) as [H1 H2]; [done|]. simpl List.flat_map.
  rewrite Feed_app, busy_app. unfold v. rewrite H1. tauto.
Qed.

(** A complete sequence: busy on every proper prefix, then ground. *)
Definition atomic (v : VTBoundary) (s : bytes) : Prop :=
  Ground (Feed v s) = true /\ exists init last, s = init ++ [last] /\ busy v init.

Lemma atomic_intro v init last :
  busy v init -> Ground (feedByte (Feed v init) last) = true -> atomic v (init ++ [last]).
Proof. intros Hb Hg. split; [by rewrite Feed_app|by exists init, last]. Qed.

Lemma atomic_one v b : Ground (feedByte v b) = true -> atomic v [b].
Proof. intros H. by apply (atomic_intro v []). Qed.

Lemma atomic_cons v b s :
  Ground (feedByte v b) = false -> atomic (feedByte v b) s -> atomic v (b :: s).
Proof.
  intros Hb (Hg & init & last & -> & Hi). rewrite Feed_app in Hg.
  by apply (atomic_intro v (b :: init)).
Qed.

Lemma atomic_app v a s : busy v a -> atomic (Feed v a) s -> atomic v (a ++ s).
Proof.
  intros Ha (Hg & init & last & -> & Hi). rewrite app_assoc. apply atomic_intro.
  - by apply busy_app.
  - by rewrite Feed_app in Hg |- *.
Qed.

Lemma ground_state v : Ground v = true -> v = VT vtGround 0 (vt_OSC v).
Proof. unfold Ground. intros H. bool_to_prop. by destruct v; simpl in *; subst. Qed.

Lemma char_atomic v c : Ground v = true -> char_ok c = true -> atomic v (char_bytes c).
Proof.
  intros ->%ground_state H. set (o := vt_OSC v). clearbody o. destruct c as [b|lead tail]; simpl in H.
  - apply atomic_one. rewrite (moves_step _ (between 0x20 0x7e) (VT vtGround 0 o));
      [done|by destruct o|by eapply between_byte|done].
  - bool_to_prop.
    match goal with E : (_ =? _)%nat = true |- _ => apply Nat.eqb_eq in E; rename E into Hl end.
    assert (Ht : tail <> []) by (intros ->; simpl in Hl; unfold utf8_tail in Hl; by destruct_ifs).
    assert (Hn : (0 < utf8_tail lead)%nat) by (rewrite <- Hl; by destruct tail; simpl; [|lia]).
    cbn [char_bytes]. apply atomic_cons; rewrite utf8_lead by done.
    { unfold Ground. simpl. apply Z.eqb_neq. lia. }
    destruct (exists_last Ht) as (init & last & ->). rewrite length_app in Hl. simpl in Hl.
    rewrite forallb_app in *. bool_to_prop.
    destruct (utf8_tail_feed vtGround o init (utf8_tail lead)) as [Hf Hb]; [done|lia|].
    apply atomic_intro; [apply Hb; right; lia|].
    replace (feedByte _ last) with (Feed (VT vtGround (Z.of_nat (utf8_tail lead)) o) (init ++ [last]))
      by by rewrite Feed_app.
    destruct (utf8_tail_feed vtGround o (init ++ [last]) (utf8_tail lead)) as [-> _];
      [rewrite forallb_app; simpl in *; by rewrite H0|rewrite length_app; simpl; lia|].
    rewrite length_app. simpl. unfold Ground. simpl. apply Z.eqb_eq. lia.
Qed.

Lemma terminator_atomic o t :
  match t with TermBEL => o | _ => true end = true ->
  atomic (VT vtString 0 o) (terminator_bytes t).
Proof.
  intros H. destruct t; simpl in *.
  - apply (atomic_intro _ [0x1b]); by destruct o.
  - apply atomic_one. by destruct o.
  - apply atomic_one. by destruct o.
Qed.

Lemma intro_values (P : Z -> Prop) intro :
  is_intro intro = true -> P 0x50 -> P 0x58 -> P 0x5d -> P 0x5e -> P 0x5f -> P intro.
Proof.
  unfold is_intro. intros H ?????. repeat (apply orb_prop in H as [H|H]); bool_to_prop; by subst.
Qed.

Lemma intro_feed o c1 intro :
  is_intro intro = true ->
  let b := if c1 : bool then [intro + 0x40] else [0x1b; intro] in
  Feed (VT vtGround 0 o) b = VT vtString 0 (intro =? 0x5d) /\ busy (VT vtGround 0 o) b.
Proof.
  intros H b. unfold b. clear b.  pattern intro. apply (intro_values _ intro H); by destruct c1, o.
Qed.

Lemma sequence_atomic v s : Ground v = true -> sequence_ok s = true -> atomic v (sequence_bytes s).
Proof.
  intros Hv H. destruct s as [c|b|inter final|c1 params final|c1 intro payload t]; simpl in H.
  { by apply char_atomic. }
  all: rewrite (ground_state v Hv); set (o := vt_OSC v); clearbody o; cbn [sequence_bytes].
  - apply atomic_one. rewrite (moves_step _ (fun b => between 0 0x1f b && negb (b =? 0x1b)) (VT vtGround 0 o));
      [done|by destruct o| |done]. bool_to_prop. by eapply between_byte.
  - bool_to_prop. apply atomic_cons; [by destruct o|].
    set (w := VT vtEscape 0 o). replace (feedByte _ 0x1b) with w by by destruct o.
    destruct (loop_busy w (between 0x20 0x2f) inter) as [E Hb];
      [by destruct o|done|by apply forallb_bytes|].
    apply atomic_intro; [done|]. rewrite E.
    rewrite (moves_step w (fun b => between 0x30 0x7e b && negb (b =? 0x5b) && negb (is_intro b))
      (VT vtGround 0 o)); [done|by destruct o|by eapply between_byte|].
    match goal with A : between 0x30 _ _ = true, B : final <> _, C : is_intro _ = false |- _ =>
      rewrite A, C, (proj2 (Z.eqb_neq _ _) B) end. done.
  - bool_to_prop. set (w := VT vtCSI 0 o).
    apply atomic_app; [by destruct c1, o|].
    replace (Feed _ (if c1 then _ else _)) with w by by destruct c1, o.
    destruct (loop_busy w (between 0x20 0x3f) params) as [E Hb];
      [by destruct o|done|by apply forallb_bytes|].
    apply atomic_intro; [done|]. rewrite E.
    rewrite (moves_step w (between 0x40 0x7e) (VT vtGround 0 o));
      [done|by destruct o|by eapply between_byte|done].
  - apply andb_prop in H as [H Ht]. apply andb_prop in H as [Hi Hp].
    destruct (intro_feed o c1 intro Hi) as [E1 B1]. apply atomic_app; [done|]. rewrite E1.
    destruct (payload_busy (intro =? 0x5d) payload Hp) as [E2 B2].
    apply atomic_app; [done|]. rewrite E2. by apply terminator_atomic.
Qed.

(** A prefix of a stream of complete sequences ends at ground exactly when it
    is itself a whole number of the sequences. *)
Lemma stream_spec v l p rest :
  Ground v = true -> forallb sequence_ok l = true -> stream_bytes l = p ++ rest ->
  Ground (Feed v p) = true <-> exists k, p = stream_bytes (take k l).
Proof.
  revert v p. induction l as [|s l IH]; intros v p Hv Hl E.
  { destruct p; [|done]. split; [intros _; by exists 0%nat|done]. }
  simpl in Hl. bool_to_prop. simpl in E. unfold stream_bytes in E. simpl in E.
  destruct (sequence_atomic v s Hv) as (Hg & init & last & Es & Hb); [done|].
  destruct (decide (length (sequence_bytes s) <= length p)%nat) as [Hle|Hlt].
  - (* the whole sequence *)
    assert (Ep : exists p', p = sequence_bytes s ++ p').
    { exists (drop (length (sequence_bytes s)) p).
      rewrite <- (take_drop (length (sequence_bytes s)) p) at 1. f_equal.
      apply (f_equal (take (length (sequence_bytes s)))) in E.
      by rewrite take_app_length, take_app_le in E by done. }
    destruct Ep as [p' ->]. rewrite <- app_assoc in E. apply app_inv_head in E.
    rewrite Feed_app, (IH _ p' Hg) by done. split.
    + intros [k ->]. by exists (S k).
    + intros [[|k] Hk].
      * destruct (sequence_bytes s); [by destruct init|done].
      * exists k. unfold stream_bytes in Hk. simpl in Hk. by apply app_inv_head in Hk.
  - destruct (decide (p = [])) as [->|Hne].
    { split; [intros _; by exists 0%nat|done]. }
    assert (Hp : exists q, init = p ++ q).
    { exists (drop (length p) init). rewrite <- (take_drop (length p) init) at 1. f_equal.
      rewrite Es, length_app in Hlt. simpl in Hlt.
      apply (f_equal (take (length p))) in E. rewrite Es, take_app_length in E.
      rewrite <- app_assoc, take_app_le in E by lia. done. }
    destruct Hp as [q ->].
    pose proof (busy_prefix v p q Hb Hne) as Hf. rewrite Hf. split; [done|].
    intros [[|k] ->]; [done|]. exfalso. apply Hlt. unfold stream_bytes. simpl.
    rewrite length_app. lia.
Qed.

(** ** Properties *)

(** C39: The tracker is sound and complete for the grammar: after feeding any
    prefix of a stream of complete UTF-8 characters, controls, escape and CSI
    sequences and control strings, it reports ground exactly when the prefix
    ends between two sequences. *)
Theorem ground_iff_boundary v l p rest :
  Ground v = true -> forallb sequence_ok l = true -> stream_bytes l = p ++ rest ->
  Ground (Feed v p) = true <-> exists k, p = stream_bytes (take k l).
Proof. apply stream_spec. Qed.

Definition sample_stream : list vt_sequence :=
  [SText (CUtf8 0xe2 [0x82; 0xac]); SCsi false [0x31] 0x6d;
   SString false 0x5d [CAscii 0x30; CUtf8 0xc3 [0x9c]] TermBEL; SEscape [0x28] 0x42].

Lemma ground_iff_boundary_witness :
  Ground (Feed vtZero [0xe2; 0x82; 0xac; 0x1b]) = true <->
  exists k, [0xe2; 0x82; 0xac; 0x1b] = stream_bytes (take k sample_stream).
Proof.
  apply (ground_iff_boundary vtZero sample_stream _
    (drop 4 (stream_bytes sample_stream))); reflexivity.
Defined.

(** A checkpoint taken at ground loses nothing: whatever bytes follow, a
    tracker restarted from its zero state agrees with the original one about
    the state, the pending UTF-8 bytes and hence about every later boundary. *)
Theorem ground_resumes v data :
  Ground v = true ->
  vt_equiv (Feed v data) (Feed vtZero data) /\
  Ground (Feed v data) = Ground (Feed vtZero data).
Proof. intros H. rewrite (Ground_equiv v H). done. Qed.

Lemma ground_resumes_witness :
  vt_equiv (Feed (VT 0 0 true) [0x9d; 0x41; 7]) (Feed vtZero [0x9d; 0x41; 7]) /\
  Ground (Feed (VT 0 0 true) [0x9d; 0x41; 7]) = Ground (Feed vtZero [0x9d; 0x41; 7]).
Proof. exact (ground_resumes (VT 0 0 true) [0x9d; 0x41; 7] eq_refl). Defined.
