(* ===== verification/TargetState.v ===== *)
(** * Targets and their tabs

    [internal/codelima/terminal/target.go] and [targetstate.go], and the
    reconciliation of a target's tabs with the daemon's terminal order in
    [internal/codelima/tui_session_order.go].  A slice of tabs is a list; the
    pointer receivers become state passing. *)

From S2P Require Import Prelude.
Local Open Scope Z_scope.

(** ** Data *)

Record TerminalTabState := Tab {
  tab_ID : string;
  tab_Label : string;
  tab_TerminalID : string;
}.

(** [TargetKind] is an [int]: [TargetProject] is 0 and [TargetNode] 1. *)
Definition TargetProject : Z := 0.
Definition TargetNode : Z := 1.
Definition projectPrefix : string := "project:".
Definition nodePrefix : string := "node:".

Record TargetKey := Key {
  key_Kind : Z;
  key_ID : string;
}.

#[export] Instance TargetKey_eq_dec : EqDecision TargetKey.
Proof. solve_decision. Defined.

#[export] Instance TargetKey_countable : Countable TargetKey.
Proof.
  refine (inj_countable' (fun k => (key_Kind k, key_ID k)) (fun p => Key p.1 p.2) _).
  by intros [].
Defined.

Record TargetTerminalState := TargetState {
  ts_Target : TargetKey;
  ts_Tabs : list TerminalTabState;
  ts_ActiveTabID : string;
  ts_NextTabIndex : Z;
  ts_OpenError : option go_error;
}.

(** ** Operations on keys *)

Definition ProjectTarget (id : string) : TargetKey := Key TargetProject id.
Definition NodeTarget (id : string) : TargetKey := Key TargetNode id.

Definition key_String (k : TargetKey) : string :=
  if key_Kind k =? TargetProject then projectPrefix +:+ key_ID k
  else if key_Kind k =? TargetNode then nodePrefix +:+ key_ID k
  else "".

Definition ParseTargetKey (s : string) : result TargetKey :=
  match cut_prefix s projectPrefix with
  | Some id => Ok (Key TargetProject id)
  | None =>
      match cut_prefix s nodePrefix with
      | Some id => Ok (Key TargetNode id)
      | None => Err (ENew ("terminal: " +:+ s +:+ " is not a valid target key"))
      end
  end.

(** ** Operations on tabs *)

Definition setTabs (s : TargetTerminalState) (tabs : list TerminalTabState) : TargetTerminalState :=
  TargetState (ts_Target s) tabs (ts_ActiveTabID s) (ts_NextTabIndex s) (ts_OpenError s).

Definition AllocateTabIndex (s : TargetTerminalState) : Z * TargetTerminalState :=
  let n := i64 (ts_NextTabIndex s + 1) in
  (n, TargetState (ts_Target s) (ts_Tabs s) (ts_ActiveTabID s) n (ts_OpenError s)).

Definition HasTab (s : TargetTerminalState) (id : string) : bool :=
  existsb (fun tab => tab_ID tab =? id)%string (ts_Tabs s).

Definition AppendTab (s : TargetTerminalState) (tab : TerminalTabState) : TargetTerminalState :=
  if HasTab s (tab_ID tab) then s else setTabs s (ts_Tabs s ++ [tab]).

(** The index of the first tab with the identity, as the loops find it. *)
Fixpoint findTab (tabs : list TerminalTabState) (id : string) : option nat :=
  match tabs with
  | [] => None
  | tab :: tabs => if (tab_ID tab =? id)%string then Some O else S <$> findTab tabs id
  end.

Definition RemoveTab (s : TargetTerminalState) (id : string) : bool * TargetTerminalState :=
  match findTab (ts_Tabs s) id with
  | Some i => (true, setTabs s (take i (ts_Tabs s) ++ drop (S i) (ts_Tabs s)))
  | None => (false, s)
  end.

(** [Tabs[i], Tabs[next] = Tabs[next], Tabs[i]] on indices in range. *)
Definition swap (tabs : list TerminalTabState) (i j : nat) : list TerminalTabState :=
  match tabs !! i, tabs !! j with
  | Some a, Some b => <[j := a]> (<[i := b]> tabs)
  | _, _ => tabs
  end.

Definition MoveTab (s : TargetTerminalState) (id : string) (direction : Z)
    : bool * TargetTerminalState :=
  if negb (direction =? -1) && negb (direction =? 1) then (false, s)
  else
    match findTab (ts_Tabs s) id with
    | None => (false, s)
    | Some i =>
        let next := Z.of_nat i + direction in
        if (next <? 0) || (zlen (ts_Tabs s) <=? next) then (false, s)
        else (true, setTabs s (swap (ts_Tabs s) i (Z.to_nat next)))
    end.

Definition TabIDs (s : TargetTerminalState) : list string := map tab_ID (ts_Tabs s).

(** ** Reconciliation with the daemon's order *)

Record TerminalState := TermState {
  tr_Target : string;
  tr_TerminalID : string;
}.

(** The first loop: the daemon's terminals grouped by target, in order. *)
Definition groupOrders (states : list TerminalState) : gmap string (list string) :=
  foldl (fun orders r =>
           <[tr_Target r := default [] (orders !! tr_Target r) ++ [tr_TerminalID r]]> orders)
    ∅ states.

Definition indexTabs (tabs : list TerminalTabState) : gmap string TerminalTabState :=
  foldl (fun byID tab => <[tab_TerminalID tab := tab]> byID) ∅ tabs.

(** The loop over the daemon's identities of one target. *)
Fixpoint takeKnown (ids : list string) (byID : gmap string TerminalTabState)
    : list TerminalTabState * gmap string TerminalTabState :=
  match ids with
  | [] => ([], byID)
  | id :: ids =>
      match byID !! id with
      | Some tab => let '(out, byID) := takeKnown ids (delete id byID) in (tab :: out, byID)
      | None => takeKnown ids byID
      end
  end.

Definition reorderTabs (ids : list string) (tabs : list TerminalTabState)
    : list TerminalTabState :=
  let '(known, byID) := takeKnown ids (indexTabs tabs) in
  known ++ List.filter (fun tab => bool_decide (is_Some (byID !! tab_TerminalID tab))) tabs.

Definition reorderKnownDaemonSessions (states : list TerminalState)
    (targets : gmap TargetKey TargetTerminalState) : gmap TargetKey TargetTerminalState :=
  map_imap (fun target s =>
    Some (setTabs s (reorderTabs (default [] (groupOrders states !! key_String target))
                       (ts_Tabs s)))) targets.

(** ** Runs *)

Inductive tabOp :=
| TAllocate
| TAppend (tab : TerminalTabState)
| TRemove (id : string)
| TMove (id : string) (direction : Z).

Definition tabStep (s : TargetTerminalState) (op : tabOp) : TargetTerminalState :=
  match op with
  | TAllocate => (AllocateTabIndex s).2
  | TAppend tab => AppendTab s tab
  | TRemove id => (RemoveTab s id).2
  | TMove id d => (MoveTab s id d).2
  end.

Definition tabRun (ops : list tabOp) (s : TargetTerminalState) : TargetTerminalState :=
  foldl tabStep s ops.

Definition allocations (ops : list tabOp) : Z :=
  zsum (fun op => match op with TAllocate => 1 | _ => 0 end) ops.

(** The set of open tabs after each operation, without their order. *)
Definition openStep (open : gset string) (op : tabOp) : gset string :=
  match op with
  | TAllocate | TMove _ _ => open
  | TAppend tab => {[tab_ID tab]} ∪ open
  | TRemove id => open ∖ {[id]}
  end.

Definition emptyTarget (k : TargetKey) : TargetTerminalState := TargetState k [] "" 0 None.

(** ** Lemmas *)

Lemma findTab_some tabs id i :
  findTab tabs id = Some i ->
  exists l tab r, tabs = l ++ tab :: r /\ length l = i /\ tab_ID tab = id /\ id ∉ map tab_ID l.
Proof.
  revert i. induction tabs as [|t tabs IH]; simpl; intros i H; [done|].
  destruct (tab_ID t =? id)%string eqn:E; bool_to_prop.
  - injection H as <-. exists [], t, tabs. split_and!; try done. apply not_elem_of_nil.
  - destruct (findTab tabs id) as [j|]; [|done]. injection H as <-.
    destruct (IH j eq_refl) as (l & tab & r & -> & <- & <- & Hn).
    exists (t :: l), tab, r. split_and!; try done. simpl. by rewrite not_elem_of_cons.
Qed.

Lemma findTab_none tabs id : findTab tabs id = None -> id ∉ map tab_ID tabs.
Proof.
  induction tabs as [|t tabs IH]; simpl; [by intros _; apply not_elem_of_nil|].
  destruct (tab_ID t =? id)%string eqn:E; [done|]. bool_to_prop.
  destruct (findTab tabs id); [done|]. intros _. rewrite not_elem_of_cons. auto.
Qed.

Lemma HasTab_iff s id : HasTab s id = true <-> id ∈ TabIDs s.
Proof.
  unfold HasTab, TabIDs. rewrite existsb_exists, list_elem_of_In, in_map_iff.
  split; intros (t & H1 & H2); exists t; split; try done.
  - by apply String.eqb_eq.
  - by apply String.eqb_eq.
Qed.

(** Swapping two neighbours is the swap of a two-element window. *)
Lemma MoveTab_shape s id d s' :
  MoveTab s id d = (true, s') ->
  exists l a b r,
    (d = 1 /\ tab_ID a = id /\ ts_Tabs s = l ++ a :: b :: r /\ s' = setTabs s (l ++ b :: a :: r)) \/
    (d = -1 /\ tab_ID b = id /\ ts_Tabs s = l ++ a :: b :: r /\ s' = setTabs s (l ++ b :: a :: r)).
Proof.
  unfold MoveTab. destruct (_ && _)%bool eqn:Ed; [done|].
  destruct (findTab _ id) as [i|] eqn:Ef; [|done].
  destruct (_ || _)%bool eqn:Er; [done|]. intros [= <-]. bool_to_prop.
  apply findTab_some in Ef as (l & tab & r & E & <- & Hid & _). rewrite E in *.
  rewrite zlen_app, zlen_cons in *. unfold zlen in *.
  assert (d = 1 \/ d = -1) as [->| ->].
  { revert Ed. destruct (Z.eqb_spec d (-1)), (Z.eqb_spec d 1); auto. done. }
  - destruct r as [|b r]; simpl in *; [lia|]. exists l, tab, b, r. left. split_and!; try done.
    f_equal. unfold swap. replace (Z.to_nat _) with (length l + 1)%nat by lia.
    rewrite list_lookup_middle by done. rewrite lookup_app_r by lia.
    replace (length l + 1 - length l)%nat with 1%nat by lia. simpl.
    replace (length l) with (length l + 0)%nat at 2 by lia.
    rewrite !insert_app_r. done.
  - destruct l as [|a l _] using rev_ind; simpl in *; [lia|]. rewrite length_app in *. simpl in *.
    exists l, a, tab, r. right. rewrite <- app_assoc. split_and!; try done. f_equal.
    unfold swap. replace (Z.to_nat _) with (length l) by lia.
    simpl.
    rewrite (lookup_app_r l) by lia.
    replace (length l + 1 - length l)%nat with 1%nat by lia. simpl.
    rewrite list_lookup_middle by done.
    replace (length l) with (length l + 0)%nat at 1 by lia.
    by rewrite !insert_app_r.
Qed.

Lemma MoveTab_refused s id d s' : MoveTab s id d = (false, s') -> s' = s.
Proof.
  unfold MoveTab. destruct (_ && _)%bool; [congruence|]. destruct (findTab _ id); [|congruence].
  destruct (_ || _)%bool; congruence.
Qed.

Lemma MoveTab_perm s id d : ts_Tabs (MoveTab s id d).2 ≡ₚ ts_Tabs s.
Proof.
  destruct (MoveTab s id d) as [[] s'] eqn:E; simpl; [|by apply MoveTab_refused in E as ->].
  apply MoveTab_shape in E as (l & a & b & r & [(_ & _ & -> & ->)|(_ & _ & -> & ->)]); simpl;
    apply Permutation_app_head; constructor.
Qed.

Lemma RemoveTab_shape s id :
  NoDup (TabIDs s) ->
  ts_Tabs (RemoveTab s id).2 = List.filter (fun t => negb (tab_ID t =? id)%string) (ts_Tabs s) /\
  ((RemoveTab s id).1 = true <-> id ∈ TabIDs s).
Proof.
  assert (Hf : forall l, id ∉ map tab_ID l ->
    List.filter (fun t => negb (tab_ID t =? id)%string) l = l).
  { induction l as [|t l IH]; [done|]. simpl. rewrite not_elem_of_cons. intros [H1 H2].
    rewrite (proj2 (String.eqb_neq _ _)) by done. simpl. by rewrite IH. }
  unfold RemoveTab, TabIDs. destruct (findTab _ id) as [i|] eqn:E; simpl.
  - apply findTab_some in E as (l & t & r & E & <- & <- & Hn). rewrite E, map_app. simpl.
    intros (Hl & Hd & Hr)%NoDup_app. apply NoDup_cons in Hr as [Hr1 Hr2].
    rewrite take_app_length. replace (S (length l)) with (length l + 1)%nat by lia.
    rewrite drop_app_add. simpl. rewrite List.filter_app. simpl.
    rewrite String.eqb_refl. simpl. rewrite !Hf by done. split; [done|].
    split; [intros _|done]. rewrite elem_of_app. right. left.
  - intros _. apply findTab_none in E. by rewrite Hf.
Qed.

Lemma tabStep_ids s op :
  NoDup (TabIDs s) ->
  NoDup (TabIDs (tabStep s op)) /\
  list_to_set (TabIDs (tabStep s op)) =@{gset string} openStep (list_to_set (TabIDs s)) op.
Proof.
  intros H. destruct op as [|tab|id|id d]; simpl.
  - done.
  - unfold AppendTab. destruct (HasTab s _) eqn:E.
    + apply HasTab_iff in E. split; [done|]. set_solver.
    + assert (~ tab_ID tab ∈ TabIDs s) by (rewrite <- HasTab_iff; congruence).
      unfold TabIDs in *. simpl. rewrite map_app. simpl. split; [|set_solver].
      apply NoDup_app. split_and!; [done| |apply NoDup_singleton]. set_solver.
  - destruct (RemoveTab_shape s id H) as [E _]. unfold TabIDs in *. rewrite E.
    clear E. induction (ts_Tabs s) as [|t l IH]; simpl; [split; [done|set_solver]|].
    simpl in H. apply NoDup_cons in H as [Hn Hl]. destruct (IH Hl) as [IH1 IH2].
    destruct (tab_ID t =? id)%string eqn:E; bool_to_prop; simpl.
    + split; [done|]. set_solver.
    + split; [|set_solver]. apply NoDup_cons. split; [|done].
      intros Hin. apply Hn. set_solver.
  - pose proof (MoveTab_perm s id d) as Hp. unfold TabIDs.
    split; [by rewrite Hp|]. apply set_eq. intros x. rewrite !elem_of_list_to_set. by rewrite Hp.
Qed.

Lemma indexTabs_lookup tabs (m : gmap string TerminalTabState) id t :
  NoDup (map tab_TerminalID tabs) ->
  (foldl (fun byID tab => <[(tab_TerminalID tab) := tab]> byID) m tabs) !! id = Some t <->
  (t ∈ tabs /\ tab_TerminalID t = id) \/ ((id ∉ map tab_TerminalID tabs) /\ m !! id = Some t).
Proof.
  revert m. induction tabs as [|x tabs IH]; intros m H; simpl; [set_solver|].
  simpl in H. apply NoDup_cons in H as [Hx H]. rewrite (IH _ H).
  destruct (decide (tab_TerminalID x = id)) as [<-|Hne].
  - rewrite lookup_insert_eq. split.
    + intros [[H1 H2]|[H1 [= ->]]]; left; [|by split; [left|]].
      split; [by right|done].
    + intros [[[->|H1]%elem_of_cons H2]|[H1 _]]; [by right|left; done|set_solver].
  - rewrite lookup_insert_ne by done. rewrite !not_elem_of_cons. rewrite elem_of_cons.
    split; [naive_solver|]. intros [[[->|?] ?]|[[? ?] ?]]; naive_solver.
Qed.

Lemma takeKnown_spec ids (m : gmap string TerminalTabState) known m' :
  (forall id t, m !! id = Some t -> tab_TerminalID t = id) ->
  takeKnown ids m = (known, m') ->
  (forall id, m' !! id = if decide (id ∈ ids) then None else m !! id) /\
  (forall t, t ∈ known <-> exists id, id ∈ ids /\ m !! id = Some t) /\
  NoDup (map tab_TerminalID known) /\
  (NoDup ids -> map tab_TerminalID known = filter (fun id => is_Some (m !! id)) ids).
Proof.
  revert m known m'. induction ids as [|i ids IH]; intros m known m' Hk E; simpl in E.
  { injection E as <- <-. split_and!; try done; [|constructor].
    intros t. split; [by intros ?%elem_of_nil|intros (? & ?%elem_of_nil & _); done]. }
  destruct (m !! i) as [t|] eqn:Ei.
  - destruct (takeKnown ids (delete i m)) as [out m2] eqn:E2. injection E as <- <-.
    assert (Hk' : forall id x, delete i m !! id = Some x -> tab_TerminalID x = id).
    { intros id x Hx. apply lookup_delete_Some in Hx as [_ Hx]. by apply Hk. }
    destruct (IH _ _ _ Hk' E2) as (H1 & H2 & H3 & H4).
    split_and!.
    + intros id. rewrite H1. rewrite lookup_delete.
      repeat case_decide; try done; set_solver.
    + intros x. rewrite elem_of_cons, H2. split.
      * intros [->|(id & Hi & [? ?]%lookup_delete_Some)].
        { exists i. split; [left|done]. }
        exists id. split; [by right|done].
      * intros (id & Hi & Hx). destruct (decide (id = i)) as [->|Hne]; [left; congruence|].
        right. exists id. apply elem_of_cons in Hi as [?|?]; [done|].
        by rewrite lookup_delete_ne.
    + simpl. apply NoDup_cons. split; [|done]. rewrite (Hk _ _ Ei).
      intros (x & Hx1 & Hx2)%list_elem_of_fmap. apply H2 in Hx2 as (id & _ & [Hne Hx]%lookup_delete_Some).
      apply Hk in Hx. congruence.
    + intros [Hi Hn]%NoDup_cons. simpl. rewrite filter_cons_True by (by rewrite Ei).
      rewrite H4 by done. f_equal; [by apply Hk|]. apply filter_ext_elem. intros id Hid.
      rewrite lookup_delete_ne; [done|]. by intros ->.
  - destruct (IH _ _ _ Hk E) as (H1 & H2 & H3 & H4). split_and!; try done.
    + intros id. rewrite H1. repeat case_decide; try done; set_solver.
    + intros x. rewrite H2. split.
      * intros (id & ? & ?). exists id. split; [by right|done].
      * intros (id & [->|?]%elem_of_cons & ?); [congruence|]. by exists id.
    + intros [Hi Hn]%NoDup_cons. rewrite filter_cons_False by (rewrite Ei; by intros []). auto.
Qed.

Lemma reorderTabs_spec ids tabs :
  NoDup (map tab_TerminalID tabs) ->
  exists known,
    reorderTabs ids tabs =
      known ++ filter (fun t => tab_TerminalID t ∉ ids) tabs /\
    reorderTabs ids tabs ≡ₚ tabs /\
    (NoDup ids -> map tab_TerminalID known = filter (.∈ map tab_TerminalID tabs) ids).
Proof.
  intros H. unfold reorderTabs. destruct (takeKnown ids (indexTabs tabs)) as [known m'] eqn:E.
  assert (Hi : forall id t, indexTabs tabs !! id = Some t <-> t ∈ tabs /\ tab_TerminalID t = id).
  { intros id t. unfold indexTabs. rewrite indexTabs_lookup by done.
    rewrite lookup_empty. naive_solver. }
  apply takeKnown_spec in E as (H1 & H2 & H3 & H4); [|intros id t; rewrite Hi; tauto].
  assert (Hf : List.filter (fun tab => bool_decide (is_Some (m' !! tab_TerminalID tab))) tabs =
               filter (fun t => tab_TerminalID t ∉ ids) tabs).
  { rewrite (List_filter_decide (fun t => is_Some (m' !! tab_TerminalID t))).
    apply filter_ext_elem. intros t Ht. rewrite H1. case_decide; [by split; [intros []|]|].
    rewrite (proj2 (Hi (tab_TerminalID t) t)) by done. by split. }
  exists known. rewrite Hf. split_and!; [done| |].
  - apply NoDup_Permutation; [|by eapply NoDup_fmap_1|].
    + apply NoDup_app. split_and!; [by eapply NoDup_fmap_1| |].
      * intros t (id & Hid & [_ Ht]%Hi)%H2 [Hn _]%list_elem_of_filter. by subst.
      * apply NoDup_filter. by eapply NoDup_fmap_1.
    + intros t. rewrite elem_of_app, H2, list_elem_of_filter. split.
      * intros [(id & _ & [? _]%Hi)|[_ ?]]; done.
      * intros Ht. destruct (decide (tab_TerminalID t ∈ ids)); [left|by right].
        exists (tab_TerminalID t). split; [done|]. by apply Hi.
  - intros Hn. rewrite H4 by done. apply filter_ext_elem. intros id _.
    split.
    + intros [t [? <-]%Hi]. by apply list_elem_of_fmap_2.
    + intros (t & -> & Ht)%list_elem_of_fmap. exists t. by apply Hi.
Qed.

(** ** Properties *)

(** The tabs of a target stay unique by identity over any sequence of
    operations; the set of open tabs is exactly what appends and removals make
    it, moves only permute the tabs; and the tab counter counts allocations and
    is never reset, so that no tab index is handed out twice. *)
Theorem tab_run_correct ops s :
  NoDup (TabIDs s) -> 0 <= ts_NextTabIndex s -> ts_NextTabIndex s + allocations ops < two63 ->
  NoDup (TabIDs (tabRun ops s)) /\
  list_to_set (TabIDs (tabRun ops s)) =@{gset string}
    foldl openStep (list_to_set (TabIDs s)) ops /\
  ts_NextTabIndex (tabRun ops s) = ts_NextTabIndex s + allocations ops /\
  ts_Target (tabRun ops s) = ts_Target s.
Proof.
  unfold tabRun, allocations. revert s. induction ops as [|op ops IH]; intros s Hn H0 Hb; simpl in *.
  { split_and!; try done. lia. }
  destruct (tabStep_ids s op Hn) as [Hn' Hs].
  assert (Hz : 0 <= zsum (fun op => match op with TAllocate => 1 | _ => 0 end) ops).
  { apply zsum_nonneg. intros [] _; lia. }
  assert (Hc : ts_NextTabIndex (tabStep s op) =
    ts_NextTabIndex s + match op with TAllocate => 1 | _ => 0 end /\ ts_Target (tabStep s op) = ts_Target s).
  { destruct op; simpl in *; [rewrite i64_small by lia; done|..].
    - unfold AppendTab. destruct (HasTab _ _); simpl; split; lia || done.
    - unfold RemoveTab. destruct (findTab _ _); simpl; split; lia || done.
    - unfold MoveTab. repeat case_match; simpl; split; lia || done. }
  destruct Hc as [Hc Ht].
  assert (0 <= match op with TAllocate => 1 | _ => 0 end) by (destruct op; lia).
  destruct (IH (tabStep s op)) as (I1 & I2 & I3 & I4); [done|lia..|].
  rewrite I2, I3, I4, Hs, Hc, Ht. split_and!; try done. lia.
Qed.

Definition sample_ops : list tabOp :=
  [TAllocate; TAppend (Tab "n#1" "one" "t1"); TAppend (Tab "n#2" "two" "t2"); TMove "n#2" (-1);
   TAppend (Tab "n#1" "again" "t3"); TRemove "n#1"; TAllocate].

Lemma tab_run_correct_witness :
  TabIDs (tabRun sample_ops (emptyTarget (NodeTarget "n"))) = ["n#2"] /\
  ts_NextTabIndex (tabRun sample_ops (emptyTarget (NodeTarget "n"))) = 2.
Proof.
  destruct (tab_run_correct sample_ops (emptyTarget (NodeTarget "n"))) as (_ & _ & H & _);
    [constructor|done|done|]. split; [reflexivity|]. rewrite H. reflexivity.
Defined.

(** Reconciling a target's tabs with the daemon only permutes them: the tabs
    the daemon knows come first, in the daemon's order, and the others follow in
    their previous order. *)
Theorem reorder_correct states targets target s :
  targets !! target = Some s -> NoDup (map tab_TerminalID (ts_Tabs s)) ->
  exists s' known ids,
    reorderKnownDaemonSessions states targets !! target = Some s' /\
    ids = default [] (groupOrders states !! key_String target) /\
    ts_Tabs s' = known ++ filter (fun t => tab_TerminalID t ∉ ids) (ts_Tabs s) /\
    ts_Tabs s' ≡ₚ ts_Tabs s /\
    (NoDup ids ->
       map tab_TerminalID known = filter (.∈ map tab_TerminalID (ts_Tabs s)) ids).
Proof.
  intros E Hn. set (ids := default [] (groupOrders states !! key_String target)).
  destruct (reorderTabs_spec ids (ts_Tabs s) Hn) as (known & H1 & H2 & H3).
  exists (setTabs s (reorderTabs ids (ts_Tabs s))), known, ids. split_and!; try done.
  unfold reorderKnownDaemonSessions. by rewrite map_lookup_imap, E.
Qed.

Definition sample_target : TargetTerminalState :=
  TargetState (NodeTarget "n") [Tab "a" "" "t1"; Tab "b" "" "t2"; Tab "c" "" "t3"] "" 3 None.

Lemma reorder_correct_witness :
  exists s', reorderKnownDaemonSessions
      [TermState "node:n" "t3"; TermState "node:m" "t2"; TermState "node:n" "t1"]
      {[ NodeTarget "n" := sample_target ]} !! NodeTarget "n" = Some s' /\
    ts_Tabs s' ≡ₚ ts_Tabs sample_target /\ TabIDs s' = ["c"; "a"; "b"].
Proof.
  destruct (reorder_correct
    [TermState "node:n" "t3"; TermState "node:m" "t2"; TermState "node:n" "t1"]
    {[ NodeTarget "n" := sample_target ]} (NodeTarget "n") sample_target)
    as (s' & known & ids & E & _ & _ & Hp & _); [reflexivity| |].
  { simpl. repeat constructor; set_solver. }
  exists s'. split_and!; [done..|]. vm_compute in E. injection E as <-. reflexivity.
Defined.

(** Target keys round-trip: parsing the rendering of a project or node key
    gives the key back, and a string parses only to a key that renders as that
    string, so that distinct keys never share a rendering. *)
Theorem target_key_roundtrip k s :
  key_Kind k = TargetProject \/ key_Kind k = TargetNode ->
  ParseTargetKey (key_String k) = Ok k /\
  (ParseTargetKey s = Ok k <-> key_String k = s).
Proof.
  intros Hk. unfold ParseTargetKey.
  assert (H1 : ParseTargetKey (key_String k) = Ok k).
  { destruct k as [kind id]; simpl in Hk. destruct Hk as [-> | ->]; reflexivity || cbn.
    all: unfold ParseTargetKey; simpl; by destruct id. }
  split; [exact H1|]. split; [|intros <-; exact H1].
  destruct (cut_prefix s projectPrefix) as [id|] eqn:E.
  { apply cut_prefix_some in E as ->. by intros [= <-]. }
  destruct (cut_prefix s nodePrefix) as [id|] eqn:E'; [|done].
  apply cut_prefix_some in E' as ->. by intros [= <-].
Qed.

Lemma target_key_roundtrip_witness :
  ParseTargetKey (key_String (NodeTarget "project:x")) = Ok (NodeTarget "project:x").
Proof. apply (target_key_roundtrip (NodeTarget "project:x") ""). by right. Defined.
