(* ===== verification/Dispatch.v ===== *)
(** * Request dispatch

    [internal/codelima/daemon/dispatch.go].  A connection's requests are routed by
    delivery class: queries and control work run concurrently under a budget,
    input has a serial lane per terminal, replaceable state a latest-value lane
    per terminal, ownership changes run on the reader.

    [laneStep] is one step of the connection: the reader dispatching a request,
    or one move of a lane goroutine or concurrent handler.  What a step does
    towards the server is its list of outputs; [OutQueued] and [OutCoalesced]
    only record into which lane a request was accepted.  JSON decoding of the
    parameters is the argument [terminalID]. *)

From S2P Require Import Prelude.
Local Open Scope Z_scope.

(** ** Classification *)

Inductive DeliveryClass :=
| ClassQuery | ClassInput | ClassReplaceable | ClassOwnership | ClassControl | ClassLifecycle.

#[export] Instance DeliveryClass_eq_dec : EqDecision DeliveryClass.
Proof. solve_decision. Defined.

Definition isOneOf (names : list string) (method : string) : bool :=
  existsb (String.eqb method) names.

Definition ClassifyMethod (method : string) : DeliveryClass :=
  if isOneOf ["terminal.send_text"; "terminal.send_keys"; "terminal.send_input";
              "terminal.send_event"; "terminal.scroll"; "terminal.interact"] method
  then ClassInput
  else if isOneOf ["terminal.resize"; "terminal.focus"] method then ClassReplaceable
  else if isOneOf ["input.takeover"] method then ClassOwnership
  else if isOneOf ["terminal.open"; "terminal.close"; "terminal.move";
                   "terminal.restart_renderer"; "terminal.attach"; "terminal.attach_read";
                   "terminal.detach"; "operation.submit"; "operation.cancel";
                   "activity.append"; "daemon.stop"; "ports.pin"] method
  then ClassControl
  else if isOneOf ["node.start"; "node.stop"; "daemon.update"] method then ClassLifecycle
  else ClassQuery.

Definition MutatingInputMethod (method : string) : bool :=
  negb (bool_decide (ClassifyMethod method = ClassQuery)).

Definition SeatArbitratedMethod (method : string) : bool :=
  bool_decide (ClassifyMethod method = ClassReplaceable) || (method =? "terminal.interact")%string ||
  (method =? "terminal.attach")%string || (method =? "terminal.attach_read")%string.

(** ** Data *)

Definition maxLanesPerConnection : nat := 64.

Record Request := Req {
  rq_ID : Z;
  rq_Method : string;
  rq_Params : bytes;
}.

Record pendingLatestValue := Pending {
  pv_request : Request;
  pv_superseded : list Z;
}.

(** An input lane: its channel's contents, and whether its goroutine is in a
    handler. *)
Record inputLane_t := InputLane {
  il_queue : list Request;
  il_busy : bool;
}.

(** A latest-value lane: its pending values, whether [wake] holds a token, its
    bound, whether its goroutine is past the wake and in a handler, and whether
    the reader is in [push] between the update and the wake. *)
Record latestLane := LatestLane {
  lv_pending : gmap string pendingLatestValue;
  lv_wake : bool;
  lv_maxDepth : Z;
  lv_draining : bool;
  lv_busy : bool;
  lv_waking : bool;
}.

Record connectionLanes := Lanes {
  ln_queueSize : Z;
  ln_maxInFlight : Z;
  ln_query : list Request;
  ln_control : list Request;
  ln_closed : bool;
  ln_input : gmap string inputLane_t;
  ln_latest : gmap string latestLane;
}.

Inductive laneOutput :=
| OutSpawn (control : bool) (r : Request)
| OutInline (r : Request)
| OutQueued (lane : string) (r : Request)
| OutHandle (lane : string) (r : Request)
| OutCoalesced (lane : string) (r : Request)
| OutHandleLatest (lane : string) (p : pendingLatestValue)
| OutRefused (r : Request) (message : string)
| OutClosed (r : Request).

Definition newConnectionLanes (queueSize maxInFlight : Z) : connectionLanes :=
  Lanes queueSize maxInFlight [] [] false ∅ ∅.

(** ** Latest-value lanes *)

(** The identities waiting on one pending value, oldest first. *)
Definition waiting (p : pendingLatestValue) : list Z := pv_superseded p ++ [rq_ID (pv_request p)].

(** The critical section of [push]; the wake follows it as [signal]. *)
Definition push (r : Request) (v : latestLane) : bool * latestLane :=
  match lv_pending v !! rq_Method r with
  | Some previous =>
      if lv_maxDepth v <=? zlen (pv_superseded previous) + 1 then (false, v)
      else (true, LatestLane
              (<[rq_Method r := Pending r (pv_superseded previous ++ [rq_ID (pv_request previous)])]>
                 (lv_pending v)) (lv_wake v) (lv_maxDepth v) (lv_draining v) (lv_busy v) true)
  | None =>
      (true, LatestLane (<[rq_Method r := Pending r []]> (lv_pending v)) (lv_wake v) (lv_maxDepth v)
               (lv_draining v) (lv_busy v) true)
  end.

Definition signal (v : latestLane) : latestLane :=
  LatestLane (lv_pending v) true (lv_maxDepth v) (lv_draining v) (lv_busy v) false.

(** Map iteration picks any pending method; the step names the one it picked. *)
Definition take_ (method : string) (v : latestLane) : option (pendingLatestValue * latestLane) :=
  p ← lv_pending v !! method;
  Some (p, LatestLane (delete method (lv_pending v)) (lv_wake v) (lv_maxDepth v)
             (lv_draining v) (lv_busy v) (lv_waking v)).

(** ** Lane selection *)

(** The lane a key uses among the existing ones, and whether it is new. *)
Definition pickLane {A} (m : gmap string A) (key : string) : string * bool :=
  match m !! key with
  | Some _ => (key, false)
  | None =>
      if (maxLanesPerConnection <=? size m)%nat
      then match m !! ""%string with Some _ => (""%string, false) | None => (""%string, true) end
      else (key, true)
  end.

Definition inputLane (key : string) (l : connectionLanes)
    : option (string * inputLane_t) :=
  if ln_closed l then None
  else let '(lane, _) := pickLane (ln_input l) key in
       Some (lane, default (InputLane [] false) (ln_input l !! lane)).

Definition latestValueLane (key : string) (l : connectionLanes)
    : option (string * latestLane) :=
  if ln_closed l then None
  else let '(lane, _) := pickLane (ln_latest l) key in
       Some (lane, default (LatestLane ∅ false (ln_queueSize l) false false false) (ln_latest l !! lane)).

Definition setInput (l : connectionLanes) (lane : string) (i : inputLane_t) : connectionLanes :=
  Lanes (ln_queueSize l) (ln_maxInFlight l) (ln_query l) (ln_control l) (ln_closed l)
    (<[lane := i]> (ln_input l)) (ln_latest l).

Definition setLatest (l : connectionLanes) (lane : string) (v : latestLane) : connectionLanes :=
  Lanes (ln_queueSize l) (ln_maxInFlight l) (ln_query l) (ln_control l) (ln_closed l)
    (ln_input l) (<[lane := v]> (ln_latest l)).

(** ** Dispatch *)

Section Dispatch.
Context (terminalID : bytes -> option string).

Definition requestTerminalKey (params : bytes) : string :=
  match params with
  | [] => ""
  | _ => default ""%string (terminalID params)
  end.

Definition dispatchInput (r : Request) (l : connectionLanes)
    : connectionLanes * list laneOutput :=
  match inputLane (requestTerminalKey (rq_Params r)) l with
  | None => (l, [OutClosed r])
  | Some (lane, i) =>
      (* the lane exists from here on, whether the send succeeds or not *)
      if zlen (il_queue i) <? ln_queueSize l
      then (setInput l lane (InputLane (il_queue i ++ [r]) (il_busy i)), [OutQueued lane r])
      else (setInput l lane i, [OutRefused r "terminal input queue is full"])
  end.

Definition dispatchLatestValue (r : Request) (l : connectionLanes)
    : connectionLanes * list laneOutput :=
  match latestValueLane (requestTerminalKey (rq_Params r)) l with
  | None => (l, [OutClosed r])
  | Some (lane, v) =>
      match push r v with
      | (true, v') => (setLatest l lane v', [OutCoalesced lane r])
      | (false, v') => (setLatest l lane v', [OutRefused r "too many in-flight daemon requests"])
      end
  end.

Definition dispatchConcurrent (control : bool) (r : Request) (l : connectionLanes)
    : connectionLanes * list laneOutput :=
  let slots := if control then ln_control l else ln_query l in
  if zlen slots <? ln_maxInFlight l
  then ((if control
         then Lanes (ln_queueSize l) (ln_maxInFlight l) (ln_query l) (slots ++ [r]) (ln_closed l)
                (ln_input l) (ln_latest l)
         else Lanes (ln_queueSize l) (ln_maxInFlight l) (slots ++ [r]) (ln_control l) (ln_closed l)
                (ln_input l) (ln_latest l)), [OutSpawn control r])
  else (l, [OutRefused r "too many in-flight daemon requests"]).

Definition dispatch (r : Request) (l : connectionLanes) : connectionLanes * list laneOutput :=
  match ClassifyMethod (rq_Method r) with
  | ClassInput => dispatchInput r l
  | ClassReplaceable => dispatchLatestValue r l
  | ClassOwnership => (l, [OutInline r])
  | ClassControl | ClassLifecycle => dispatchConcurrent true r l
  | ClassQuery => dispatchConcurrent false r l
  end.

Definition close (l : connectionLanes) : connectionLanes :=
  Lanes (ln_queueSize l) (ln_maxInFlight l) (ln_query l) (ln_control l) true (ln_input l)
    (ln_latest l).

(** ** Steps *)

Inductive laneEvent :=
| EvDispatch (r : Request)
| EvClose
| EvConcurrentDone (control : bool) (i : nat)      (* a handler returns its slot *)
| EvLatestSignal (lane : string)                   (* the reader's wake in push *)
| EvInputTake (lane : string)                      (* runInputLane receives *)
| EvInputDone (lane : string)
| EvLatestWake (lane : string)                     (* runLatestValueLane wakes *)
| EvLatestTake (lane method : string)
| EvLatestDone (lane : string)
| EvLatestIdle (lane : string).                    (* take found nothing *)

Definition runInputLane (lane : string) (l : connectionLanes)
    : option (connectionLanes * list laneOutput) :=
  i ← ln_input l !! lane;
  match il_busy i, il_queue i with
  | false, r :: queue => Some (setInput l lane (InputLane queue true), [OutHandle lane r])
  | _, _ => None
  end.

Definition runLatestTake (lane method : string) (l : connectionLanes)
    : option (connectionLanes * list laneOutput) :=
  v ← ln_latest l !! lane;
  if lv_draining v && negb (lv_busy v)
  then '(p, v') ← take_ method v;
       Some (setLatest l lane (LatestLane (lv_pending v') (lv_wake v') (lv_maxDepth v') true true (lv_waking v')),
             [OutHandleLatest lane p])
  else None.

(** The reader is not inside [push]: it can dispatch or close. *)
Definition readerFree (l : connectionLanes) : bool :=
  bool_decide (map_Forall (fun _ v => lv_waking v = false) (ln_latest l)).

Definition laneStep (e : laneEvent) (l : connectionLanes)
    : option (connectionLanes * list laneOutput) :=
  match e with
  | EvDispatch r => if readerFree l then Some (dispatch r l) else None
  | EvClose => if readerFree l then Some (close l, []) else None
  | EvLatestSignal lane =>
      v ← ln_latest l !! lane;
      if lv_waking v then Some (setLatest l lane (signal v), []) else None
  | EvConcurrentDone true i =>
      Some (Lanes (ln_queueSize l) (ln_maxInFlight l) (ln_query l) (delete i (ln_control l))
              (ln_closed l) (ln_input l) (ln_latest l), [])
  | EvConcurrentDone false i =>
      Some (Lanes (ln_queueSize l) (ln_maxInFlight l) (delete i (ln_query l)) (ln_control l)
              (ln_closed l) (ln_input l) (ln_latest l), [])
  | EvInputTake lane => runInputLane lane l
  | EvInputDone lane =>
      i ← ln_input l !! lane;
      Some (setInput l lane (InputLane (il_queue i) false), [])
  | EvLatestWake lane =>
      v ← ln_latest l !! lane;
      if lv_wake v && negb (lv_draining v)
      then Some (setLatest l lane (LatestLane (lv_pending v) false (lv_maxDepth v) true false (lv_waking v)), [])
      else None
  | EvLatestTake lane method => runLatestTake lane method l
  | EvLatestDone lane =>
      v ← ln_latest l !! lane;
      Some (setLatest l lane (LatestLane (lv_pending v) (lv_wake v) (lv_maxDepth v) (lv_draining v) false
                                  (lv_waking v)), [])
  | EvLatestIdle lane =>
      v ← ln_latest l !! lane;
      if lv_draining v && negb (lv_busy v) && (size (lv_pending v) =? 0)%nat
      then Some (setLatest l lane (LatestLane (lv_pending v) (lv_wake v) (lv_maxDepth v) false false
                                       (lv_waking v)), [])
      else None
  end.

Fixpoint laneRun (es : list laneEvent) (l : connectionLanes)
    : option (connectionLanes * list laneOutput) :=
  match es with
  | [] => Some (l, [])
  | e :: es => '(l, o) ← laneStep e l; '(l, os) ← laneRun es l; Some (l, o ++ os)
  end.

(** ** Observations *)

Definition arrivals (c : DeliveryClass) (es : list laneEvent) : list Request :=
  omap (fun e => match e with
                 | EvDispatch r => if decide (ClassifyMethod (rq_Method r) = c) then Some r else None
                 | _ => None
                 end) es.

(** The verdicts on arriving requests, in order. *)
Definition verdict (o : laneOutput) : option Request :=
  match o with
  | OutSpawn _ r | OutInline r | OutQueued _ r | OutCoalesced _ r | OutRefused r _ | OutClosed r => Some r
  | OutHandle _ _ | OutHandleLatest _ _ => None
  end.

Definition verdicts (c : DeliveryClass) (os : list laneOutput) : list Request :=
  filter (fun r => ClassifyMethod (rq_Method r) = c) (omap verdict os).

Definition queued (lane : string) (os : list laneOutput) : list Request :=
  omap (fun o => match o with
                 | OutQueued k r => if (k =? lane)%string then Some r else None | _ => None end) os.

Definition handled (lane : string) (os : list laneOutput) : list Request :=
  omap (fun o => match o with
                 | OutHandle k r => if (k =? lane)%string then Some r else None | _ => None end) os.

Definition coalesced (lane method : string) (os : list laneOutput) : list Z :=
  omap (fun o => match o with
                 | OutCoalesced k r =>
                     if (k =? lane)%string && (rq_Method r =? method)%string
                     then Some (rq_ID r) else None
                 | _ => None end) os.

Definition answered (lane method : string) (os : list laneOutput) : list Z :=
  List.flat_map (fun o => match o with
                 | OutHandleLatest k p =>
                     if (k =? lane)%string && (rq_Method (pv_request p) =? method)%string
                     then waiting p else []
                 | _ => [] end) os.

Definition laneQueue (l : connectionLanes) (lane : string) : list Request :=
  default [] (il_queue <$> ln_input l !! lane).

Definition lanePending (l : connectionLanes) (lane method : string) : list Z :=
  default [] (waiting <$> (ln_latest l !! lane ≫= fun v => lv_pending v !! method)).

(** ** Invariants *)

Record lanes_ok (queueSize maxInFlight : Z) (l : connectionLanes) : Prop := {
  lo_config : ln_queueSize l = queueSize /\ ln_maxInFlight l = maxInFlight;
  lo_query : zlen (ln_query l) <= maxInFlight;
  lo_control : zlen (ln_control l) <= maxInFlight;
  lo_inputs : (size (ln_input l) <= S maxLanesPerConnection)%nat;
  lo_latests : (size (ln_latest l) <= S maxLanesPerConnection)%nat;
  lo_full_input : size (ln_input l) = S maxLanesPerConnection -> is_Some (ln_input l !! ""%string);
  lo_full_latest : size (ln_latest l) = S maxLanesPerConnection -> is_Some (ln_latest l !! ""%string);
  lo_queues : forall lane i, ln_input l !! lane = Some i -> zlen (il_queue i) <= queueSize;
  lo_pending : forall lane v m p, ln_latest l !! lane = Some v -> lv_pending v !! m = Some p ->
    rq_Method (pv_request p) = m /\ zlen (waiting p) <= queueSize;
  lo_wake : forall lane v, ln_latest l !! lane = Some v ->
    lv_maxDepth v = queueSize /\
    (lv_pending v <> ∅ -> lv_wake v = true \/ lv_draining v = true \/ lv_waking v = true);
}.

(** ** Lemmas *)

Local Opaque maxLanesPerConnection.

Lemma pickLane_existing {A} (m : gmap string A) lane x k :
  is_Some (m !! lane) -> pickLane (<[lane := x]> m) k = pickLane m k.
Proof.
  intros [y Hy]. unfold pickLane. rewrite (map_size_insert_Some lane x m) by done.
  rewrite !lookup_insert. repeat case_decide; subst; try by rewrite Hy.
  destruct (m !! k); [done|]. by destruct (_ <=? _)%nat.
Qed.

Lemma pickLane_new {A} (m : gmap string A) key lane x :
  (pickLane m key).1 = lane ->
  pickLane (<[lane := x]> m) key = (lane, false) /\
  forall k lane', pickLane m k = (lane', false) -> pickLane (<[lane := x]> m) k = (lane', false).
Proof.
  intros E. destruct (m !! lane) as [y|] eqn:El.
  { split; [|intros; rewrite pickLane_existing by eauto; done].
    rewrite pickLane_existing by eauto. subst lane. unfold pickLane in *.
    destruct (m !! key) eqn:Ek; [done|]. destruct (_ <=? _)%nat; [|simpl in *; congruence].
    destruct (m !! ""%string) eqn:E0; simpl in *; [done|congruence]. }
  assert (Hs : size (<[lane := x]> m) = S (size m)) by by apply map_size_insert_None.
  assert (Ek : m !! key = None /\
    ((maxLanesPerConnection <= size m)%nat /\ m !! ""%string = None /\ lane = ""%string \/
     lane = key)).
  { unfold pickLane in E. destruct (m !! key) eqn:Ek; simpl in E; [congruence|].
    destruct (_ <=? _)%nat eqn:Hle; [|simpl in E; auto]. apply Nat.leb_le in Hle.
    destruct (m !! ""%string) eqn:E0; simpl in E; [congruence|auto]. }
  destruct Ek as [Ek Hcase]. unfold pickLane. rewrite Hs. split.
  - rewrite lookup_insert. case_decide as Hkl; [by rewrite Hkl|]. rewrite Ek.
    destruct Hcase as [(Hle & E0 & ->)|]; [|done].
    rewrite (proj2 (Nat.leb_le _ _)) by lia. by rewrite lookup_insert_eq.
  - intros k lane' Hk. rewrite !lookup_insert. destruct (decide (lane = k)) as [->|Hne].
    + rewrite El in Hk. destruct (_ <=? size m)%nat eqn:Hle; [|done]. apply Nat.leb_le in Hle.
      destruct (m !! ""%string) eqn:E0; [|done]. injection Hk as <-.
      destruct Hcase as [(_ & E0' & ->)| ->]; [congruence|].
      unfold pickLane in E. rewrite Ek, (proj2 (Nat.leb_le _ _)), E0 in E by done.
      simpl in E. congruence.
    + destruct (m !! k) eqn:Ek'; [done|].
      destruct (_ <=? size m)%nat eqn:Hle; [|done]. apply Nat.leb_le in Hle.
      rewrite (proj2 (Nat.leb_le _ _)) by lia.
      destruct (m !! ""%string) eqn:E0; [|done]. case_decide; [by subst|done].
Qed.

Lemma pickLane_size {A} (m : gmap string A) key x :
  (size m <= S maxLanesPerConnection)%nat ->
  (size m = S maxLanesPerConnection -> is_Some (m !! ""%string)) ->
  let m' := <[(pickLane m key).1 := x]> m in
  (size m' <= S maxLanesPerConnection)%nat /\
  (size m' = S maxLanesPerConnection -> is_Some (m' !! ""%string)).
Proof.
  intros H1 H2. simpl. unfold pickLane. destruct (m !! key) as [y|] eqn:Ek; simpl.
  { rewrite (map_size_insert_Some key x m) by done. split; [done|].
    intros ?. rewrite lookup_insert. case_decide; [done|auto]. }
  destruct (maxLanesPerConnection <=? size m)%nat eqn:Hle.
  - apply Nat.leb_le in Hle. destruct (m !! ""%string) as [y|] eqn:E0; simpl.
    + rewrite (map_size_insert_Some "" x m) by done. split; [done|]. by rewrite lookup_insert_eq.
    + rewrite map_size_insert_None by done. rewrite lookup_insert_eq.
      split; [|done]. destruct (decide (size m = S maxLanesPerConnection)); [|lia].
      destruct H2; [done|congruence].
  - apply Nat.leb_gt in Hle. simpl. rewrite map_size_insert_None by done. split; lia.
Qed.

Lemma laneQueue_set l lane i lane' :
  laneQueue (setInput l lane i) lane' = if decide (lane = lane') then il_queue i else laneQueue l lane'.
Proof. unfold laneQueue. simpl. rewrite lookup_insert. by case_decide. Qed.

Lemma lanePending_set l lane v lane' m :
  lanePending (setLatest l lane v) lane' m =
  if decide (lane = lane') then default [] (waiting <$> lv_pending v !! m) else lanePending l lane' m.
Proof. unfold lanePending. simpl. rewrite lookup_insert. by case_decide. Qed.

Lemma push_spec r v ok v' :
  push r v = (ok, v') ->
  (forall m, default [] (waiting <$> lv_pending v' !! m) =
     default [] (waiting <$> lv_pending v !! m) ++
     (if ok && (rq_Method r =? m)%string then [rq_ID r] else [])) /\
  (ok = false -> v' = v) /\ lv_maxDepth v' = lv_maxDepth v /\
  lv_draining v' = lv_draining v /\ (ok = true -> lv_waking v' = true) /\
  (forall m p, lv_pending v' !! m = Some p -> lv_pending v !! m = Some p \/
     (m = rq_Method r /\ pv_request p = r /\
      (zlen (waiting p) = 1 \/ zlen (waiting p) <= lv_maxDepth v))).
Proof.
  unfold push. destruct (lv_pending v !! rq_Method r) as [p0|] eqn:E.
  - destruct (_ <=? _) eqn:Hd; intros [= <- <-]; simpl.
    { split_and!; try done; [intros m; by rewrite app_nil_r|auto]. }
    bool_to_prop. split_and!; try done.
    + intros m. rewrite lookup_insert. destruct (decide (rq_Method r = m)) as [<-|Hne].
      * rewrite E. simpl. by rewrite String.eqb_refl.
      * rewrite (proj2 (String.eqb_neq _ _)) by done. by rewrite app_nil_r.
    + intros m p. rewrite lookup_insert. case_decide; [|by left].
      intros [= <-]. right. split_and!; try done. right. unfold waiting. simpl. zlia.
  - intros [= <- <-]; simpl. split_and!; try done.
    + intros m. rewrite lookup_insert. destruct (decide (rq_Method r = m)) as [<-|Hne].
      * rewrite E. simpl. by rewrite String.eqb_refl.
      * rewrite (proj2 (String.eqb_neq _ _)) by done. by rewrite app_nil_r.
    + intros m p. rewrite lookup_insert. case_decide; [|by left].
      intros [= <-]. right. split_and!; try done. by left.
Qed.

(** What one step does to the queues, the pending values and the lanes. *)
Definition step_effect (l l' : connectionLanes) (o : list laneOutput) : Prop :=
  (forall lane, laneQueue l lane ++ queued lane o = handled lane o ++ laneQueue l' lane) /\
  (forall lane m, lanePending l lane m ++ coalesced lane m o =
     answered lane m o ++ lanePending l' lane m) /\
  (forall k lane, pickLane (ln_input l) k = (lane, false) -> pickLane (ln_input l') k = (lane, false)) /\
  (forall k lane, pickLane (ln_latest l) k = (lane, false) -> pickLane (ln_latest l') k = (lane, false)) /\
  (forall lane r, OutQueued lane r ∈ o ->
     pickLane (ln_input l') (requestTerminalKey (rq_Params r)) = (lane, false)) /\
  (forall lane r, OutCoalesced lane r ∈ o ->
     pickLane (ln_latest l') (requestTerminalKey (rq_Params r)) = (lane, false)).

(** A step that only touches the concurrent slots or the closed flag. *)
Lemma effect_frame l l' o :
  ln_input l' = ln_input l -> ln_latest l' = ln_latest l ->
  (forall lane, queued lane o = [] /\ handled lane o = []) ->
  (forall lane m, coalesced lane m o = [] /\ answered lane m o = []) ->
  (forall lane r, ~ OutQueued lane r ∈ o /\ ~ OutCoalesced lane r ∈ o) ->
  step_effect l l' o.
Proof.
  intros E1 E2 H1 H2 H3. unfold step_effect, laneQueue, lanePending. rewrite E1, E2.
  split_and!; try done.
  - intros lane. destruct (H1 lane) as [-> ->]. by rewrite app_nil_r.
  - intros lane m. destruct (H2 lane m) as [-> ->]. by rewrite app_nil_r.
  - intros lane r Ho. by destruct (H3 lane r) as [? _].
  - intros lane r Ho. by destruct (H3 lane r) as [_ ?].
Qed.

Lemma no_outputs lane r (o : laneOutput) :
  (forall k s, o <> OutQueued k s /\ o <> OutCoalesced k s) ->
  ~ OutQueued lane r ∈ [o] /\ ~ OutCoalesced lane r ∈ [o].
Proof. intros H. rewrite !list_elem_of_singleton. split; intros E; by destruct (H lane r). Qed.

Lemma dispatchInput_effect r l l' o :
  dispatchInput r l = (l', o) -> step_effect l l' o.
Proof.
  unfold dispatchInput, inputLane. destruct (ln_closed l).
  { intros [= <- <-]. apply effect_frame; try done. intros. by apply no_outputs. }
  set (key := requestTerminalKey (rq_Params r)).
  destruct (pickLane (ln_input l) key) as [lane fresh] eqn:Ep.
  set (i := default _ _).
  assert (Hq : il_queue i = laneQueue l lane).
  { unfold i, laneQueue. by destruct (ln_input l !! lane). }
  assert (Hp : (pickLane (ln_input l) key).1 = lane) by by rewrite Ep.
  destruct (_ <? _); intros [= <- <-]; unfold step_effect; simpl ln_input; simpl ln_latest;
    (destruct (pickLane_new (ln_input l) key lane (InputLane (il_queue i ++ [r]) (il_busy i)) Hp)
       as [Hnew Hold];
     destruct (pickLane_new (ln_input l) key lane i Hp) as [Hnew' Hold']); split_and!; try done.
  - intros lane'. rewrite laneQueue_set. simpl. case_decide as E.
    + subst lane'. by rewrite String.eqb_refl, Hq.
    + rewrite (proj2 (String.eqb_neq _ _)) by done. by rewrite app_nil_r.
  - intros. by rewrite app_nil_r.
  - by intros lane' r' [= -> ->]%list_elem_of_singleton.
  - by intros lane' r' [=]%list_elem_of_singleton.
  - intros lane'. rewrite laneQueue_set. simpl. rewrite app_nil_r. case_decide; [by subst|done].
  - intros. by rewrite app_nil_r.
  - by intros lane' r' [=]%list_elem_of_singleton.
  - by intros lane' r' [=]%list_elem_of_singleton.
Qed.

Lemma dispatchLatest_effect r l l' o :
  dispatchLatestValue r l = (l', o) -> step_effect l l' o.
Proof.
  unfold dispatchLatestValue, latestValueLane. destruct (ln_closed l).
  { intros [= <- <-]. apply effect_frame; try done. intros. by apply no_outputs. }
  set (key := requestTerminalKey (rq_Params r)).
  destruct (pickLane (ln_latest l) key) as [lane fresh] eqn:Ep.
  set (v := default _ _).
  assert (Hq : forall m, default [] (waiting <$> lv_pending v !! m) = lanePending l lane m).
  { intros m. unfold v, lanePending. destruct (ln_latest l !! lane); simpl; [done|].
    by rewrite lookup_empty. }
  assert (Hp : (pickLane (ln_latest l) key).1 = lane) by by rewrite Ep.
  destruct (push r v) as [ok v'] eqn:Ev. apply push_spec in Ev as (Hm & _).
  destruct (pickLane_new (ln_latest l) key lane v' Hp) as [Hnew Hold].
  destruct ok; intros [= <- <-]; unfold step_effect; simpl ln_input; simpl ln_latest;
    split_and!; try done; try (by intros lane' r' [=]%list_elem_of_singleton).
  - intros. simpl. by rewrite app_nil_r.
  - intros lane' m. rewrite lanePending_set. simpl. case_decide as E.
    + subst lane'. rewrite Hm, Hq, String.eqb_refl. simpl. by destruct (_ =? _)%string.
    + rewrite (proj2 (String.eqb_neq lane lane')) by done. by rewrite app_nil_r.
  - by intros lane' r' [= -> ->]%list_elem_of_singleton.
  - intros. simpl. by rewrite app_nil_r.
  - intros lane' m. rewrite lanePending_set. simpl. rewrite app_nil_r. case_decide as E; [|done].
    subst lane'. by rewrite Hm, app_nil_r, Hq.
Qed.

Lemma dispatch_effect r l l' o : dispatch r l = (l', o) -> step_effect l l' o.
Proof.
  unfold dispatch. destruct (ClassifyMethod _);
    eauto using dispatchInput_effect, dispatchLatest_effect.
  all: unfold dispatchConcurrent; try destruct (_ <? _); intros [= <- <-];
    apply effect_frame; try done; intros; by apply no_outputs.
Qed.

(** Replacing the state of an existing lane. *)
Lemma existing_input l lane i :
  is_Some (ln_input l !! lane) ->
  forall k lane', pickLane (ln_input l) k = (lane', false) ->
  pickLane (ln_input (setInput l lane i)) k = (lane', false).
Proof. intros H k lane' E. simpl. by rewrite pickLane_existing. Qed.

Lemma existing_latest l lane v :
  is_Some (ln_latest l !! lane) ->
  forall k lane', pickLane (ln_latest l) k = (lane', false) ->
  pickLane (ln_latest (setLatest l lane v)) k = (lane', false).
Proof. intros H k lane' E. simpl. by rewrite pickLane_existing. Qed.

Lemma same_pending_effect l lane v v' :
  ln_latest l !! lane = Some v -> lv_pending v' = lv_pending v ->
  step_effect l (setLatest l lane v') [].
Proof.
  intros E Ep. split_and!; try done.
  - intros lane'. by rewrite app_nil_r.
  - intros lane' m. rewrite lanePending_set, app_nil_r. simpl. case_decide; [|done].
    subst lane'. rewrite Ep. unfold lanePending. by rewrite E.
  - by eapply existing_latest.
  - by intros ?? ?%elem_of_nil.
  - by intros ?? ?%elem_of_nil.
Qed.

Lemma laneStep_effect e l l' o :
  (forall lane v m p, ln_latest l !! lane = Some v -> lv_pending v !! m = Some p ->
     rq_Method (pv_request p) = m) ->
  laneStep e l = Some (l', o) -> step_effect l l' o.
Proof.
  intros Hm. destruct e as [r| |[] i|lane|lane|lane|lane|lane m|lane|lane]; simpl.
  - destruct (readerFree l); [|done]. intros [= E]. by eapply dispatch_effect.
  - destruct (readerFree l); [|done]. intros [= <- <-]. apply effect_frame; try done.
    intros. split; apply not_elem_of_nil.
  - intros [= <- <-]. apply effect_frame; try done. intros. split; apply not_elem_of_nil.
  - intros [= <- <-]. apply effect_frame; try done. intros. split; apply not_elem_of_nil.
  - destruct (ln_latest l !! lane) as [v|] eqn:El; [|done]. simpl. destruct (lv_waking v); [|done].
    intros [= <- <-]. by eapply same_pending_effect.
  - unfold runInputLane. destruct (ln_input l !! lane) as [[q b]|] eqn:El; [|done]. simpl.
    destruct b, q as [|r q]; try done. intros [= <- <-].
    split_and!; try done; try (by intros ?? [=]%list_elem_of_singleton); [..|by eapply existing_input].
    + intros lane'. rewrite laneQueue_set. simpl. rewrite app_nil_r. case_decide as E.
      * subst lane'. rewrite String.eqb_refl. unfold laneQueue. by rewrite El.
      * by rewrite (proj2 (String.eqb_neq _ _)).
    + intros. by rewrite app_nil_r.
  - destruct (ln_input l !! lane) as [i|] eqn:El; [|done]. intros [= <- <-].
    split_and!; try done; try (by intros ?? ?%elem_of_nil); [..|by eapply existing_input].
    + intros lane'. rewrite laneQueue_set, app_nil_r. simpl. case_decide; [|done].
      subst. unfold laneQueue. by rewrite El.
    + intros. by rewrite app_nil_r.
  - destruct (ln_latest l !! lane) as [v|] eqn:El; [|done]. simpl. destruct (_ && _); [|done].
    intros [= <- <-]. by eapply same_pending_effect.
  - unfold runLatestTake. destruct (ln_latest l !! lane) as [v|] eqn:El; [|done]. simpl.
    destruct (_ && _); [|done]. unfold take_.
    destruct (lv_pending v !! m) as [p|] eqn:Ep; [|done]. simpl. intros [= <- <-].
    pose proof (Hm _ _ _ _ El Ep) as Hr.
    split_and!; try done; try (by intros ?? [=]%list_elem_of_singleton); [..|by eapply existing_latest].
    + intros. by rewrite app_nil_r.
    + intros lane' m'. rewrite lanePending_set. simpl. rewrite !app_nil_r.
      case_decide as E; [subst lane'; rewrite String.eqb_refl|by rewrite (proj2 (String.eqb_neq _ _))].
      unfold lanePending. rewrite El. simpl. rewrite lookup_delete, Hr. case_decide as E.
      * subst m'. rewrite Ep, String.eqb_refl. simpl. by rewrite app_nil_r.
      * rewrite (proj2 (String.eqb_neq _ _)) by done. done.
  - destruct (ln_latest l !! lane) as [v|] eqn:El; [|done]. intros [= <- <-].
    by eapply same_pending_effect.
  - destruct (ln_latest l !! lane) as [v|] eqn:El; [|done]. simpl. destruct (_ && _); [|done].
    intros [= <- <-]. by eapply same_pending_effect.
Qed.
End Dispatch.

Lemma new_lanes_ok qs mf : 0 <= mf -> lanes_ok qs mf (newConnectionLanes qs mf).
Proof.
  intros H. split; simpl; try done; try (by rewrite zlen_nil);
    try (rewrite map_size_empty; lia); intros *; by rewrite lookup_empty.
Qed.

Lemma lanes_ok_input qs mf l key i :
  lanes_ok qs mf l -> zlen (il_queue i) <= qs ->
  lanes_ok qs mf (setInput l (pickLane (ln_input l) key).1 i).
Proof.
  intros [Hc Hq Hct Hi Hl Hfi Hfl Hqs Hp Hw] Hn.
  destruct (pickLane_size (ln_input l) key i Hi Hfi) as [H1 H2].
  split; simpl; try done. intros lane j. rewrite lookup_insert. case_decide; [by intros [= <-]|eauto].
Qed.

Lemma lanes_ok_input_existing qs mf l lane i j :
  lanes_ok qs mf l -> ln_input l !! lane = Some j -> zlen (il_queue i) <= qs ->
  lanes_ok qs mf (setInput l lane i).
Proof.
  intros H Ej Hn. pose proof (lanes_ok_input qs mf l lane i H Hn) as Hok.
  unfold pickLane in Hok. by rewrite Ej in Hok.
Qed.

Lemma lanes_ok_latest qs mf l key v :
  lanes_ok qs mf l ->
  (forall m p, lv_pending v !! m = Some p -> rq_Method (pv_request p) = m /\ zlen (waiting p) <= qs) ->
  lv_maxDepth v = qs -> (lv_pending v <> ∅ -> lv_wake v = true \/ lv_draining v = true \/ lv_waking v = true) ->
  lanes_ok qs mf (setLatest l (pickLane (ln_latest l) key).1 v).
Proof.
  intros [Hc Hq Hct Hi Hl Hfi Hfl Hqs Hp Hw] H1 H2 H3.
  destruct (pickLane_size (ln_latest l) key v Hl Hfl) as [H4 H5].
  split; simpl; try done.
  - intros lane w m p. rewrite lookup_insert. case_decide; [intros [= <-]; auto|eauto].
  - intros lane w. rewrite lookup_insert. case_decide; [by intros [= <-]|eauto].
Qed.

Lemma lanes_ok_latest_existing qs mf l lane v w :
  lanes_ok qs mf l -> ln_latest l !! lane = Some w ->
  (forall m p, lv_pending v !! m = Some p -> lv_pending w !! m = Some p) ->
  lv_maxDepth v = lv_maxDepth w ->
  (lv_pending v <> ∅ -> lv_wake v = true \/ lv_draining v = true \/ lv_waking v = true) ->
  lanes_ok qs mf (setLatest l lane v).
Proof.
  intros H Ew Hsub Hd Hwake. destruct (lo_wake _ _ _ H _ _ Ew) as [Hmd _].
  pose proof (lanes_ok_latest qs mf l lane v H) as Hok.
  unfold pickLane in Hok. rewrite Ew in Hok. apply Hok; [|congruence|done].
  intros m p Hp. eapply (lo_pending _ _ _ H); eauto.
Qed.

Lemma delete_zlen {A} (l : list A) i : zlen (delete i l) <= zlen l.
Proof.
  unfold zlen. revert i. induction l as [|x l IH]; intros [|i]; simpl; try lia.
  specialize (IH i). lia.
Qed.

Lemma dispatch_ok tid qs mf r l :
  1 <= qs -> lanes_ok qs mf l -> lanes_ok qs mf (dispatch tid r l).1.
Proof.
  intros Hqs H. unfold dispatch.
  assert (Hcc : forall c, lanes_ok qs mf (dispatchConcurrent c r l).1).
  { intros c. unfold dispatchConcurrent. pose proof (lo_config _ _ _ H) as [Hc1 Hc2].
    destruct H. destruct c; (destruct (_ <? _) eqn:E; [bool_to_prop|by split]);
      split; simpl; try done; zlia. }
  destruct (ClassifyMethod _); [apply Hcc| | |done|apply Hcc|apply Hcc].
  - unfold dispatchInput, inputLane. destruct (ln_closed l); [done|].
    destruct (pickLane _ _) as [lane b] eqn:Ep. set (i := default _ _).
    assert (Hi : zlen (il_queue i) <= qs).
    { unfold i. destruct (ln_input l !! lane) as [j|] eqn:E; simpl; [by eapply lo_queues|].
      unfold zlen; simpl; lia. }
    replace lane with (pickLane (ln_input l) (requestTerminalKey tid (rq_Params r))).1
      by by rewrite Ep.
    pose proof (lo_config _ _ _ H) as [Hc1 Hc2].
    destruct (_ <? _) eqn:Eq; apply lanes_ok_input; try done.
    simpl. bool_to_prop. zlia.
  - unfold dispatchLatestValue, latestValueLane. destruct (ln_closed l); [done|].
    destruct (pickLane _ _) as [lane b] eqn:Ep. set (v := default _ _).
    pose proof (lo_config _ _ _ H) as [Hc1 Hc2].
    assert (Hv : lv_maxDepth v = qs /\
      (lv_pending v <> ∅ -> lv_wake v = true \/ lv_draining v = true \/ lv_waking v = true) /\
      (forall m p, lv_pending v !! m = Some p ->
         rq_Method (pv_request p) = m /\ zlen (waiting p) <= qs)).
    { unfold v. destruct (ln_latest l !! lane) as [w|] eqn:E; simpl.
      - destruct (lo_wake _ _ _ H _ _ E). split_and!; eauto using lo_pending.
      - by split_and!. }
    destruct Hv as (Hv1 & Hv2 & Hv3).
    replace lane with (pickLane (ln_latest l) (requestTerminalKey tid (rq_Params r))).1
      by by rewrite Ep.
    destruct (push r v) as [ok v'] eqn:Epu. apply push_spec in Epu as (_ & Hn & Hd & Hdr & Hw & Hp).
    destruct ok; simpl; apply lanes_ok_latest; try done; try congruence.
    + intros m p Hmp. apply Hp in Hmp as [?|(-> & -> & [?|?])]; [auto|split; [done|lia]..].
    + intros _. right. right. auto.
    + rewrite Hn by done. done.
    + rewrite Hn by done. done.
Qed.

Lemma laneStep_ok tid qs mf e l l' o :
  1 <= qs -> lanes_ok qs mf l -> laneStep tid e l = Some (l', o) -> lanes_ok qs mf l'.
Proof.
  intros Hqs H. destruct e as [r| |[] i|lane|lane|lane|lane|lane m|lane|lane]; simpl.
  - destruct (readerFree l); [|done]. intros [= E]. pose proof (dispatch_ok tid qs mf r l Hqs H) as Hd.
    by rewrite E in Hd.
  - destruct (readerFree l); [|done]. intros [= <- <-]. destruct H. by split.
  - intros [= <- <-]. destruct H. split; simpl; try done; by (etrans; [apply delete_zlen|]).
  - intros [= <- <-]. destruct H. split; simpl; try done; by (etrans; [apply delete_zlen|]).
  - destruct (ln_latest l !! lane) as [v|] eqn:E; [|done]. simpl. destruct (lv_waking v); [|done].
    intros [= <- <-]. eapply lanes_ok_latest_existing; [exact H|exact E|by auto..].
  - unfold runInputLane. destruct (ln_input l !! lane) as [[q b]|] eqn:E; [|done]. simpl.
    destruct b, q as [|r q]; try done. intros [= <- <-].
    eapply lanes_ok_input_existing; [done..|]. simpl.
    pose proof (lo_queues _ _ _ H _ _ E) as Hq. simpl in Hq. zlia.
  - destruct (ln_input l !! lane) as [i|] eqn:E; [|done]. intros [= <- <-].
    eapply lanes_ok_input_existing; [done..|]. simpl. eauto using lo_queues.
  - destruct (ln_latest l !! lane) as [v|] eqn:E; [|done]. simpl. destruct (_ && _); [|done].
    intros [= <- <-]. eapply lanes_ok_latest_existing; [exact H|exact E|by auto..].
  - unfold runLatestTake, take_. destruct (ln_latest l !! lane) as [v|] eqn:E; [|done]. simpl.
    destruct (_ && _); [|done]. destruct (lv_pending v !! m); [|done]. simpl. intros [= <- <-].
    eapply lanes_ok_latest_existing; [exact H|exact E|simpl|by auto..].
    intros m' p' [_ ?]%lookup_delete_Some. done.
  - destruct (ln_latest l !! lane) as [v|] eqn:E; [|done]. intros [= <- <-].
    eapply lanes_ok_latest_existing; [exact H|exact E|by auto..|].
    by apply (lo_wake _ _ _ H) in E as [_ ?].
  - destruct (ln_latest l !! lane) as [v|] eqn:E; [|done]. simpl.
    destruct (lv_draining v && negb (lv_busy v) && _) eqn:Ec; [|done].
    intros [= <- <-]. eapply lanes_ok_latest_existing; [exact H|exact E|by auto..|].
    bool_to_prop. intros Hne. exfalso. apply Hne, map_size_empty_iff. by apply Nat.eqb_eq.
Qed.

Lemma queued_app lane a b : queued lane (a ++ b) = queued lane a ++ queued lane b.
Proof. apply omap_app. Qed.
Lemma handled_app lane a b : handled lane (a ++ b) = handled lane a ++ handled lane b.
Proof. apply omap_app. Qed.
Lemma coalesced_app lane m a b : coalesced lane m (a ++ b) = coalesced lane m a ++ coalesced lane m b.
Proof. apply omap_app. Qed.
Lemma answered_app lane m a b : answered lane m (a ++ b) = answered lane m a ++ answered lane m b.
Proof. apply List.flat_map_app. Qed.

Lemma dispatch_verdict tid r l : omap verdict (dispatch tid r l).2 = [r].
Proof.
  unfold dispatch, dispatchInput, dispatchLatestValue, dispatchConcurrent.
  destruct (ClassifyMethod _); repeat case_match; done.
Qed.

Lemma laneStep_verdicts tid c e l l' o :
  laneStep tid e l = Some (l', o) -> verdicts c o = arrivals c [e].
Proof.
  unfold verdicts, arrivals. destruct e as [r| |[] i|lane|lane|lane|lane|lane m|lane|lane]; simpl.
  - destruct (readerFree l); [|done]. intros [= E]. replace o with (dispatch tid r l).2 by by rewrite E.
    rewrite dispatch_verdict. simpl. destruct (decide _) as [Hd|Hd].
    + by rewrite filter_cons_True.
    + by rewrite filter_cons_False.
  - destruct (readerFree l); [|done]. by intros [= <- <-].
  - by intros [= <- <-].
  - by intros [= <- <-].
  - destruct (_ !! _) as [v|]; [|done]. simpl. destruct (lv_waking v); [|done]. by intros [= <- <-].
  - unfold runInputLane. destruct (_ !! _) as [[q b]|]; [|done]. simpl.
    destruct b, q; try done. by intros [= <- <-].
  - destruct (_ !! _); [|done]. by intros [= <- <-].
  - destruct (_ !! _); [|done]. simpl. destruct (_ && _); [|done]. by intros [= <- <-].
  - unfold runLatestTake, take_. destruct (_ !! _) as [v|]; [|done]. simpl.
    destruct (_ && _); [|done]. destruct (lv_pending v !! m); [|done]. by intros [= <- <-].
  - destruct (_ !! _); [|done]. by intros [= <- <-].
  - destruct (_ !! _); [|done]. simpl. destruct (_ && _); [|done]. by intros [= <- <-].
Qed.

Lemma laneRun_spec tid qs mf es l l' os :
  1 <= qs -> lanes_ok qs mf l -> laneRun tid es l = Some (l', os) ->
  lanes_ok qs mf l' /\ step_effect tid l l' os /\
  (forall c, verdicts c os = arrivals c es).
Proof.
  intros Hqs. revert l os. induction es as [|e es IH]; intros l os Hok E; simpl in E.
  { injection E as <- <-. split; [done|]. split; [|done]. apply effect_frame; try done.
    intros. split; apply not_elem_of_nil. }
  destruct (laneStep tid e l) as [[l1 o1]|] eqn:E1; [|done]. simpl in E.
  destruct (laneRun tid es l1) as [[l2 o2]|] eqn:E2; [|done]. simpl in E. injection E as <- <-.
  pose proof (laneStep_ok _ _ _ _ _ _ _ Hqs Hok E1) as Hok1.
  destruct (IH _ _ Hok1 E2) as (Hok2 & (A2 & B2 & C2 & D2 & Q2 & R2) & Hv2).
  pose proof (laneStep_verdicts tid) as Hv1.
  apply laneStep_effect in E1 as Hs; [|intros; by eapply (lo_pending _ _ _ Hok)].
  destruct Hs as (A1 & B1 & C1 & D1 & Q1 & R1).
  split; [done|]. split; [unfold step_effect; split_and!|].
  - intros lane. by rewrite queued_app, handled_app, app_assoc, A1, <- app_assoc, A2, app_assoc.
  - intros lane m. by rewrite coalesced_app, answered_app, app_assoc, B1, <- app_assoc, B2, app_assoc.
  - auto.
  - auto.
  - intros lane r [?|?]%elem_of_app; auto.
  - intros lane r [?|?]%elem_of_app; auto.
  - intros c. unfold verdicts in *. rewrite omap_app, filter_app, Hv2.
    rewrite (Hv1 c _ _ _ _ E1). unfold arrivals. simpl. by destruct e; [destruct (decide _)|..].
Qed.

Local Transparent maxLanesPerConnection.

(** ** Properties *)

(** C30: Terminal input is ordered and at most once.  Over any run of a
    connection every arriving input request is accepted into a lane or refused,
    once, in arrival order; all requests of one terminal that are accepted go to
    the same lane; and each lane hands its requests to the handler first-in
    first-out, each once. *)
Theorem input_fifo tid qs mf es l os :
  1 <= qs -> 1 <= mf -> laneRun tid es (newConnectionLanes qs mf) = Some (l, os) ->
  verdicts ClassInput os = arrivals ClassInput es /\
  (forall lane, queued lane os = handled lane os ++ laneQueue l lane) /\
  (forall lane1 lane2 r1 r2, OutQueued lane1 r1 ∈ os -> OutQueued lane2 r2 ∈ os ->
     requestTerminalKey tid (rq_Params r1) = requestTerminalKey tid (rq_Params r2) ->
     lane1 = lane2).
Proof.
  intros Hqs Hmf E. apply (laneRun_spec _ qs mf) in E as (_ & (A & _ & _ & _ & Q & _) & Hv);
    [|done|apply new_lanes_ok; lia].
  split_and!; [apply Hv|apply A|]. intros lane1 lane2 r1 r2 H1 H2 Hk.
  apply Q in H1, H2. rewrite Hk in H1. congruence.
Qed.

Definition sampleTerminal (params : bytes) : option string :=
  match params with [1] => Some "t1"%string | [2] => Some "t2"%string | _ => None end.

Definition sample_events : list laneEvent :=
  [EvDispatch (Req 1 "terminal.send_text" [1]); EvDispatch (Req 2 "terminal.resize" [1]);
   EvLatestSignal "t1";
   EvDispatch (Req 3 "terminal.scroll" [1]); EvInputTake "t1";
   EvDispatch (Req 4 "terminal.resize" [1]); EvLatestSignal "t1"; EvDispatch (Req 5 "daemon.ping" []);
   EvDispatch (Req 6 "terminal.send_keys" [1]); EvLatestWake "t1";
   EvLatestTake "t1" "terminal.resize"].

Lemma input_fifo_witness :
  exists l os, laneRun sampleTerminal sample_events (newConnectionLanes 2 1) = Some (l, os) /\
    map rq_ID (handled "t1" os) = [1] /\
    queued "t1" os = handled "t1" os ++ laneQueue l "t1".
Proof.
  eexists _, _. split; [vm_compute; reflexivity|]. split; [reflexivity|].
  apply (input_fifo sampleTerminal 2 1 sample_events); [done..|vm_compute; reflexivity].
Defined.

(** Coalescing forgets no caller.  For each latest-value lane and method,
    the requests accepted so far are exactly those answered with values already
    handed to the handler followed by those waiting on the pending value, in
    acceptance order and each once, so the value handed over is always the
    newest; and whatever is pending has a wake-up, a draining goroutine or a reader
    about to send the wake-up. *)
Theorem latest_value_conserved tid qs mf es l os :
  1 <= qs -> 1 <= mf -> laneRun tid es (newConnectionLanes qs mf) = Some (l, os) ->
  verdicts ClassReplaceable os = arrivals ClassReplaceable es /\
  (forall lane m, coalesced lane m os = answered lane m os ++ lanePending l lane m) /\
  (forall lane v, ln_latest l !! lane = Some v -> lv_pending v <> ∅ ->
     lv_wake v = true \/ lv_draining v = true \/ lv_waking v = true).
Proof.
  intros Hqs Hmf E. apply (laneRun_spec _ qs mf) in E as (Hok & (_ & B & _) & Hv);
    [|done|apply new_lanes_ok; lia].
  split_and!; [apply Hv|apply B|]. intros lane v Hl. by apply (lo_wake _ _ _ Hok) in Hl as [_ ?].
Qed.

Lemma latest_value_conserved_witness :
  exists l os, laneRun sampleTerminal sample_events (newConnectionLanes 2 1) = Some (l, os) /\
    answered "t1" "terminal.resize" os = [2; 4] /\
    coalesced "t1" "terminal.resize" os =
      answered "t1" "terminal.resize" os ++ lanePending l "t1" "terminal.resize".
Proof.
  eexists _, _. split; [vm_compute; reflexivity|]. split; [reflexivity|].
  apply (latest_value_conserved sampleTerminal 2 1 sample_events); [done..|vm_compute; reflexivity].
Defined.

(** A connection's memory is bounded whatever it sends: at most 65 lanes of
    each kind, [queueSize] requests per input lane and callers per pending
    value, and [MaxInFlight] concurrent handlers of each kind. *)
Theorem lanes_bounded tid qs mf es l os :
  1 <= qs -> 1 <= mf -> laneRun tid es (newConnectionLanes qs mf) = Some (l, os) ->
  lanes_ok qs mf l.
Proof.
  intros Hqs Hmf E. apply (laneRun_spec _ qs mf) in E as (Hok & _); [done|done|].
  apply new_lanes_ok; lia.
Qed.

Lemma lanes_bounded_witness :
  exists l os, laneRun sampleTerminal sample_events (newConnectionLanes 2 1) = Some (l, os) /\
    lanes_ok 2 1 l.
Proof.
  eexists _, _. split; [vm_compute; reflexivity|].
  apply (lanes_bounded sampleTerminal 2 1 sample_events _
    (match laneRun sampleTerminal sample_events (newConnectionLanes 2 1) with
     | Some (_, os) => os | None => [] end)); [done..|vm_compute; reflexivity].
Defined.

(** Beyond the lane bound, terminals share the connection-wide lane, where a
    pending value is keyed by method alone: with 65 lanes open, a resize of one
    terminal supersedes the pending resize of another. *)
Definition numbered (params : bytes) : option string :=
  match params with [n] => Some (String (Ascii.ascii_of_nat (Z.to_nat n)) "") | _ => None end.

Definition crowded_events : list laneEvent :=
  List.flat_map (fun n => [EvDispatch (Req n "terminal.focus" [n]);
                     EvLatestSignal (String (Ascii.ascii_of_nat (Z.to_nat n)) "")]) (seqZ 1 64) ++
  [EvDispatch (Req 101 "terminal.resize" [101]); EvLatestSignal ""; EvDispatch (Req 102 "terminal.resize" [102])].

Lemma crowded_lane_mixes_terminals :
  ('(l, _) ← laneRun numbered crowded_events (newConnectionLanes 8 8);
   v ← ln_latest l !! ""%string;
   p ← lv_pending v !! "terminal.resize"%string;
   Some (rq_Params (pv_request p), pv_superseded p)) = Some ([102], [101]).
Proof. vm_compute. reflexivity. Qed.
