(* ===== verification/SnapshotCache.v ===== *)
(** * The daemon's snapshot body cache

    [snapshotBodyCache] of [internal/codelima/daemon/server.go].  Every published
    terminal snapshot is encoded once and its bytes shared between the clients
    that pull it.  [body] has two critical sections with the encoding between
    them; [cacheStep] interleaves them.  JSON encoding is the argument
    [marshal]. *)

From S2P Require Import Prelude.
Local Open Scope Z_scope.

(** ** Data *)

Definition maxSnapshotBodyCacheEntries : nat := 16.
Definition maxSnapshotBodyCacheBytes : Z := Z.shiftl 32 20.

Record Snapshot (Grid : Type) := Snap {
  sn_SnapshotSequence : Z;
  sn_Generation : Z;
  sn_Stale : bool;
  sn_Grid : Grid;
}.
Arguments Snap {Grid}.
Arguments sn_SnapshotSequence {Grid}.
Arguments sn_Generation {Grid}.
Arguments sn_Stale {Grid}.
Arguments sn_Grid {Grid}.

Record snapshotBodyRevision := Revision {
  rv_sequence : Z;
  rv_generation : Z;
  rv_stale : bool;
}.

#[export] Instance snapshotBodyRevision_eq_dec : EqDecision snapshotBodyRevision.
Proof. solve_decision. Defined.

Record snapshotBodyEntry := Entry {
  en_revision : snapshotBodyRevision;
  en_data : bytes;
  en_usedAt : Z;
}.

Record snapshotBodyCache := Cache {
  sc_entries : gmap string snapshotBodyEntry;
  sc_clock : Z;
  sc_bytes : Z;
  sc_encodes : Z;
  sc_reuses : Z;
}.

Definition emptyCache : snapshotBodyCache := Cache ∅ 0 0 0 0.

Definition revisionOf {Grid} (s : Snapshot Grid) : snapshotBodyRevision :=
  Revision (sn_SnapshotSequence s) (sn_Generation s) (sn_Stale s).

(** ** Operations *)

(** The scan for the least recently used entry. *)
Definition pickOldest (oldest : option (string * Z)) (kv : string * snapshotBodyEntry)
    : option (string * Z) :=
  match oldest with
  | None => Some (kv.1, en_usedAt kv.2)
  | Some (_, used) => if en_usedAt kv.2 <? used then Some (kv.1, en_usedAt kv.2) else oldest
  end.

Definition oldestEntry (m : gmap string snapshotBodyEntry) : option (string * Z) :=
  foldl pickOldest None (map_to_list m).

(** Every round drops an entry, so the number of entries bounds the rounds. *)
Fixpoint evictLoop (fuel : nat) (c : snapshotBodyCache) : snapshotBodyCache :=
  match fuel with
  | O => c
  | S fuel =>
      if (maxSnapshotBodyCacheEntries <? size (sc_entries c))%nat ||
         (maxSnapshotBodyCacheBytes <? sc_bytes c)
      then
        match oldestEntry (sc_entries c) with
        | None => c
        | Some (key, _) =>
            if (size (sc_entries c) =? 1)%nat then c
            else
              let size := match sc_entries c !! key with Some e => zlen (en_data e) | None => 0 end in
              evictLoop fuel
                (Cache (delete key (sc_entries c)) (sc_clock c) (sc_bytes c - size)
                   (sc_encodes c) (sc_reuses c))
        end
      else c
  end.

Definition evictLocked (c : snapshotBodyCache) : snapshotBodyCache :=
  evictLoop (size (sc_entries c)) c.

(** The first critical section: a hit's bytes, or the reading of the clock. *)
Definition bodyLookup (terminal : string) (revision : snapshotBodyRevision)
    (c : snapshotBodyCache) : snapshotBodyCache * (bytes + Z) :=
  let now := u64 (sc_clock c + 1) in
  match sc_entries c !! terminal with
  | Some entry =>
      if decide (en_revision entry = revision)
      then (Cache (<[terminal := Entry (en_revision entry) (en_data entry) now]> (sc_entries c))
              now (sc_bytes c) (sc_encodes c) (sc_reuses c + 1), inl (en_data entry))
      else (Cache (sc_entries c) now (sc_bytes c) (sc_encodes c) (sc_reuses c), inr now)
  | None => (Cache (sc_entries c) now (sc_bytes c) (sc_encodes c) (sc_reuses c), inr now)
  end.

(** The second one, with the encoded bytes. *)
Definition bodyStore (terminal : string) (revision : snapshotBodyRevision) (data : bytes)
    (now : Z) (c : snapshotBodyCache) : snapshotBodyCache :=
  let bytes := match sc_entries c !! terminal with
               | Some previous => sc_bytes c - zlen (en_data previous)
               | None => sc_bytes c
               end in
  evictLocked (Cache (<[terminal := Entry revision data now]> (sc_entries c)) (sc_clock c)
                 (bytes + zlen data) (sc_encodes c + 1) (sc_reuses c)).

Section Cache.
Context {Grid : Type} (marshal : Snapshot Grid -> result bytes).

(** [body] without interference. *)
Definition body (terminal : string) (s : Snapshot Grid) (c : snapshotBodyCache)
    : snapshotBodyCache * result bytes :=
  match bodyLookup terminal (revisionOf s) c with
  | (c, inl data) => (c, Ok data)
  | (c, inr now) =>
      match marshal s with
      | Err e => (c, Err e)
      | Ok data => (bodyStore terminal (revisionOf s) data now c, Ok data)
      end
  end.

(** ** Interleaving *)

Inductive cacheEvent :=
| CPull (terminal : string) (s : Snapshot Grid)   (* the first critical section *)
| CEncoded (i : nat).                             (* the i-th pending pull finishes *)

Record pendingPull := Pull {
  pp_terminal : string;
  pp_snapshot : Snapshot Grid;
  pp_now : Z;
}.

(** A step answers at most one pull. *)
Definition cacheStep (e : cacheEvent) (st : snapshotBodyCache * list pendingPull)
    : option (snapshotBodyCache * list pendingPull * list (string * Snapshot Grid * result bytes)) :=
  let '(c, pending) := st in
  match e with
  | CPull terminal s =>
      match bodyLookup terminal (revisionOf s) c with
      | (c, inl data) => Some (c, pending, [(terminal, s, Ok data)])
      | (c, inr now) => Some (c, pending ++ [Pull terminal s now], [])
      end
  | CEncoded i =>
      p ← pending !! i;
      match marshal (pp_snapshot p) with
      | Err e => Some (c, delete i pending, [(pp_terminal p, pp_snapshot p, Err e)])
      | Ok data =>
          Some (bodyStore (pp_terminal p) (revisionOf (pp_snapshot p)) data (pp_now p) c,
                delete i pending, [(pp_terminal p, pp_snapshot p, Ok data)])
      end
  end.

Fixpoint cacheRun (es : list cacheEvent) (st : snapshotBodyCache * list pendingPull)
    : option (snapshotBodyCache * list pendingPull * list (string * Snapshot Grid * result bytes)) :=
  match es with
  | [] => Some (st, [])
  | e :: es =>
      '(st, out) ← cacheStep e st; '(st, outs) ← cacheRun es st; Some (st, out ++ outs)
  end.

(** ** Invariants *)

Definition entry_bytes (e : snapshotBodyEntry) : Z := zlen (en_data e).

Record cache_ok (c : snapshotBodyCache) : Prop := {
  co_bytes : sc_bytes c = map_zsum entry_bytes (sc_entries c);
  co_bound :
    ((size (sc_entries c) <= maxSnapshotBodyCacheEntries)%nat /\
     sc_bytes c <= maxSnapshotBodyCacheBytes) \/ size (sc_entries c) = 1%nat;
}.

(** The pulls seen by a run. *)
Definition pulls (es : list cacheEvent) : list (string * Snapshot Grid) :=
  omap (fun e => match e with CPull t s => Some (t, s) | _ => None end) es.

(** "The sequence and the staleness flag together name exactly one encodable
    value" of a terminal. *)
Definition revisions_name_values (seen : list (string * Snapshot Grid)) : Prop :=
  forall t s1 s2, (t, s1) ∈ seen -> (t, s2) ∈ seen -> revisionOf s1 = revisionOf s2 ->
    marshal s1 = marshal s2.

(** Every cached body is the encoding of a snapshot that was pulled. *)
Definition cached_from (seen : list (string * Snapshot Grid)) (c : snapshotBodyCache) : Prop :=
  forall t e, sc_entries c !! t = Some e ->
    exists s, (t, s) ∈ seen /\ revisionOf s = en_revision e /\ marshal s = Ok (en_data e).

(** ** Lemmas *)

Lemma pickOldest_in l o :
  (forall k u, foldl pickOldest o l = Some (k, u) ->
     o = Some (k, u) \/ exists e, (k, e) ∈ l) /\
  (foldl pickOldest o l = None -> o = None /\ l = []).
Proof.
  revert o. induction l as [|[k e] l IH]; intros o; simpl; [by split; [left|]|].
  destruct (IH (pickOldest o (k, e))) as [H1 H2]. split.
  - intros k' u H. apply H1 in H as [H|[e' He']]; [|right; exists e'; by right].
    unfold pickOldest in H. destruct o as [[k0 u0]|]; simpl in H.
    + destruct (_ <? _); [injection H as <- <-; right; exists e; left|by left].
    + injection H as <- <-. right. exists e. left.
  - intros H. apply H2 in H as [H _]. unfold pickOldest in H.
    destruct o as [[k0 u0]|]; simpl in H; [destruct (_ <? _)|]; discriminate.
Qed.

Lemma oldestEntry_some m : m <> ∅ -> exists k u e, oldestEntry m = Some (k, u) /\ m !! k = Some e.
Proof.
  intros Hm. unfold oldestEntry. destruct (pickOldest_in (map_to_list m) None) as [H1 H2].
  destruct (foldl _ _ _) as [[k u]|].
  - destruct (H1 k u eq_refl) as [?|[e He]]; [done|]. apply elem_of_map_to_list in He.
    by exists k, u, e.
  - destruct (H2 eq_refl) as [_ Hn]. apply map_to_list_empty_iff in Hn. done.
Qed.

Lemma entry_bytes_nonneg e : 0 <= entry_bytes e.
Proof. apply zlen_nonneg. Qed.

Lemma evictLoop_spec fuel c :
  sc_bytes c = map_zsum entry_bytes (sc_entries c) -> (size (sc_entries c) <= fuel)%nat ->
  cache_ok (evictLoop fuel c) /\ sc_entries (evictLoop fuel c) ⊆ sc_entries c.
Proof.
  revert c. induction fuel as [|fuel IH]; intros c Hb Hf; cbn [evictLoop].
  { assert (Hm : sc_entries c = ∅) by (apply map_size_empty_iff; lia).
    split; [|done]. split; [done|]. left. rewrite Hb, Hm, map_zsum_empty, map_size_empty.
    split; [lia|done]. }
  destruct (_ || _)%bool eqn:Ec.
  - assert (Hne : sc_entries c <> ∅).
    { intros Hm. rewrite Hb, Hm, map_zsum_empty, map_size_empty in Ec. done. }
    destruct (oldestEntry_some _ Hne) as (k & u & e & -> & He).
    destruct (size (sc_entries c) =? 1)%nat eqn:E1.
    + apply Nat.eqb_eq in E1. split; [|done]. split; [done|by right].
    + rewrite He. destruct (IH (Cache (delete k (sc_entries c)) (sc_clock c)
        (sc_bytes c - zlen (en_data e)) (sc_encodes c) (sc_reuses c))) as [H1 H2].
      * simpl. rewrite Hb, (map_zsum_delete entry_bytes _ k e He). change entry_bytes with (fun e => zlen (en_data e)). cbn beta. lia.
      * simpl. rewrite map_size_delete, He. simpl. lia.
      * split; [done|]. etrans; [exact H2|]. simpl. apply delete_subseteq.
  - apply orb_false_elim in Ec as [E1 E2]. apply Nat.ltb_ge in E1. bool_to_prop.
    split; [|done]. split; [done|]. by left.
Qed.

Lemma bodyStore_ok t r data now c :
  cache_ok c ->
  cache_ok (bodyStore t r data now c) /\
  sc_entries (bodyStore t r data now c) ⊆ <[t := Entry r data now]> (sc_entries c).
Proof.
  intros [Hb _]. unfold bodyStore, evictLocked. apply evictLoop_spec; simpl; [|done].
  destruct (sc_entries c !! t) as [e|] eqn:E.
  - rewrite <- insert_delete_eq, map_zsum_insert by apply lookup_delete_eq.
    rewrite Hb, (map_zsum_delete entry_bytes _ t e E). unfold entry_bytes. simpl. lia.
  - rewrite map_zsum_insert by done. rewrite Hb. change entry_bytes with (fun e => zlen (en_data e)). cbn beta. simpl en_data. lia.
Qed.

Lemma bodyLookup_ok t r c c' res :
  cache_ok c -> bodyLookup t r c = (c', res) ->
  cache_ok c' /\
  (forall k e, sc_entries c' !! k = Some e -> exists e0, sc_entries c !! k = Some e0 /\
     en_revision e0 = en_revision e /\ en_data e0 = en_data e) /\
  (forall data, res = inl data -> exists e, sc_entries c !! t = Some e /\ en_revision e = r /\
     en_data e = data).
Proof.
  intros [Hb Hbd]. unfold bodyLookup. destruct (sc_entries c !! t) as [e|] eqn:E.
  - case_decide; intros [= <- <-]; simpl.
    + split_and!.
      * split; simpl.
        -- rewrite Hb, <- insert_delete_eq, map_zsum_insert by apply lookup_delete_eq.
           by rewrite (map_zsum_delete entry_bytes _ t e E).
        -- by rewrite map_size_insert_Some.
      * intros k e'. rewrite lookup_insert. case_decide; [|by eauto].
        intros [= <-]. subst. by exists e.
      * intros data [= <-]. by exists e.
    + split_and!; [by split|by eauto|done].
  - intros [= <- <-]. simpl. split_and!; [by split|by eauto|done].
Qed.

Lemma cached_from_mono seen seen' c :
  (forall x, x ∈ seen -> x ∈ seen') -> cached_from seen c -> cached_from seen' c.
Proof. intros H Hc t e E. destruct (Hc t e E) as (s & ? & ?). exists s. auto. Qed.

(** What holds between the steps of a run whose pulls are among [seen]. *)
Definition run_ok (seen : list (string * Snapshot Grid))
    (st : snapshotBodyCache * list pendingPull) : Prop :=
  cache_ok st.1 /\ cached_from seen st.1 /\
  forall p, p ∈ st.2 -> (pp_terminal p, pp_snapshot p) ∈ seen.

Lemma cacheStep_ok seen e st st' out :
  revisions_name_values seen -> (forall x, x ∈ pulls [e] -> x ∈ seen) ->
  run_ok seen st -> cacheStep e st = Some (st', out) ->
  run_ok seen st' /\ forall t s r, (t, s, r) ∈ out -> r = marshal s.
Proof.
  intros Hu He (Hok & Hc & Hp) E. destruct st as [c pending], e as [t s|i]; simpl in *.
  - destruct (bodyLookup t (revisionOf s) c) as [c' res] eqn:El.
    apply bodyLookup_ok in El as (Hok' & Hent & Hhit); [|done].
    assert (Hc' : cached_from seen c').
    { intros k e Hk. destruct (Hent k e Hk) as (e0 & E0 & Er & Ed).
      rewrite <- Er, <- Ed. by apply Hc. }
    assert (Hin : (t, s) ∈ seen) by (apply He; left).
    destruct res as [data|now]; injection E as <- <-.
    + split; [done|]. intros t' s' r [= -> -> ->]%list_elem_of_singleton.
      destruct (Hhit data eq_refl) as (e & Ee & Er & Ed).
      destruct (Hc _ _ Ee) as (s0 & Hs0 & Hr0 & Hm0).
      rewrite <- Ed, <- Hm0. apply (Hu t); [done..|congruence].
    + split; [|by intros ??? ?%elem_of_nil]. split_and!; simpl; [done..|].
      intros p [?| ->%list_elem_of_singleton]%elem_of_app; auto.
  - destruct (pending !! i) as [p|] eqn:Ei; [|done]. simpl in E.
    assert (Hin : (pp_terminal p, pp_snapshot p) ∈ seen)
      by (apply Hp; by eapply list_elem_of_lookup_2).
    assert (Hdel : forall q, q ∈ delete i pending -> (pp_terminal q, pp_snapshot q) ∈ seen).
    { intros q Hq. apply Hp. rewrite delete_take_drop in Hq.
      apply elem_of_app in Hq as [Hq|Hq]; [by eapply elem_of_take in Hq as (? & ? & _);
        eapply list_elem_of_lookup_2|].
      apply list_elem_of_lookup in Hq as [j Hj]. rewrite lookup_drop in Hj.
      by eapply list_elem_of_lookup_2. }
    destruct (marshal (pp_snapshot p)) as [data|err] eqn:Em; injection E as <- <-.
    + destruct (bodyStore_ok (pp_terminal p) (revisionOf (pp_snapshot p)) data (pp_now p) c Hok)
        as [Hok' Hsub].
      split; [split_and!; [done| |done]|].
      * intros k e Hk. simpl in Hk. eapply lookup_weaken in Hk; [|exact Hsub].
        rewrite lookup_insert in Hk. case_decide as Ek; [|by apply Hc].
        injection Hk as <-. subst k. exists (pp_snapshot p). done.
      * by intros t s r [= -> -> ->]%list_elem_of_singleton.
    + split; [split_and!; done|]. by intros t s r [= -> -> ->]%list_elem_of_singleton.
Qed.

Lemma cacheRun_ok seen es st st' out :
  revisions_name_values seen -> (forall x, x ∈ pulls es -> x ∈ seen) ->
  run_ok seen st -> cacheRun es st = Some (st', out) ->
  run_ok seen st' /\ forall t s r, (t, s, r) ∈ out -> r = marshal s.
Proof.
  intros Hu. revert st st' out. induction es as [|e es IH]; intros st st' out He Hst E; simpl in E.
  { injection E as <- <-. split; [done|]. by intros ??? ?%elem_of_nil. }
  destruct (cacheStep e st) as [[st1 o1]|] eqn:E1; [|done]. simpl in E.
  destruct (cacheRun es st1) as [[st2 o2]|] eqn:E2; [|done]. simpl in E. injection E as <- <-.
  assert (Hpe : forall x, x ∈ pulls [e] -> x ∈ seen).
  { intros x Hx. apply He. unfold pulls in *. simpl in *. destruct e; simpl in *; set_solver. }
  destruct (cacheStep_ok _ _ _ _ _ Hu Hpe Hst E1) as [H1 Ho1].
  destruct (IH _ _ _ ltac:(intros x Hx; apply He; unfold pulls in *; simpl in *; destruct e; simpl; set_solver) H1 E2) as [H2 Ho2].
  split; [done|]. intros t s r [?|?]%elem_of_app; eauto.
Qed.

Lemma empty_run_ok seen : run_ok seen (emptyCache, []).
Proof.
  split_and!; simpl; [|by intros t e; simpl; rewrite lookup_empty|by intros ? ?%elem_of_nil].
  split; [done|]. left. simpl sc_entries. rewrite map_size_empty. split; [lia|done].
Qed.
End Cache.

(** ** Properties *)

(** C29: The cache is transparent: however pulls of any terminals interleave, if
    a revision names one encodable value of its terminal, then every pull is
    answered with exactly the encoding of the snapshot it asked for, or with
    that encoding's error. *)
Theorem cache_transparent {Grid} (marshal : Snapshot Grid -> result bytes) es st out :
  revisions_name_values marshal (pulls es) ->
  cacheRun marshal es (emptyCache, []) = Some (st, out) ->
  forall t s r, (t, s, r) ∈ out -> r = marshal s.
Proof.
  intros Hu E. eapply (cacheRun_ok marshal (pulls es) es); [done|done| |done].
  apply empty_run_ok.
Qed.

Definition sampleMarshal (s : Snapshot Z) : result bytes :=
  Ok [sn_SnapshotSequence s; sn_Grid s].

Definition sample_pulls : list (@cacheEvent Z) :=
  [CPull "a" (Snap 1 1 false 65); CPull "a" (Snap 1 1 false 65); CPull "b" (Snap 1 1 false 66);
   CEncoded 1; CEncoded 0; CPull "a" (Snap 1 1 false 65); CPull "a" (Snap 2 1 false 67)].

Lemma sample_revisions : revisions_name_values sampleMarshal (pulls sample_pulls).
Proof.
  intros t s1 s2 H1 H2. unfold pulls in *. simpl in *.
  repeat (rewrite elem_of_cons in H1 || rewrite elem_of_cons in H2).
  rewrite elem_of_nil in H1, H2. naive_solver.
Qed.

Lemma cache_transparent_witness :
  exists st out, cacheRun sampleMarshal sample_pulls (emptyCache, []) = Some (st, out) /\
    length out = 3%nat /\ forall t s r, (t, s, r) ∈ out -> r = sampleMarshal s.
Proof.
  eexists _, _. split; [vm_compute; reflexivity|]. split; [reflexivity|].
  eapply (cache_transparent sampleMarshal sample_pulls);
    [exact sample_revisions|vm_compute; reflexivity].
Defined.

(** The cache's byte count is the size of what it holds, and it stays within
    16 bodies and 32 MiB, unless it holds a single larger body. *)
Theorem cache_bounded {Grid} (marshal : Snapshot Grid -> result bytes) es c pending out :
  revisions_name_values marshal (pulls es) ->
  cacheRun marshal es (emptyCache, []) = Some (c, pending, out) -> cache_ok c.
Proof.
  intros Hu E. eapply (cacheRun_ok marshal (pulls es) es _ (c, pending)); [done|done| |done].
  apply empty_run_ok.
Qed.

Lemma cache_bounded_witness :
  exists c pending out, cacheRun sampleMarshal sample_pulls (emptyCache, []) = Some (c, pending, out) /\
    sc_bytes c = 2 /\ cache_ok c.
Proof.
  eexists _, _, _. split; [vm_compute; reflexivity|]. split; [reflexivity|].
  eapply (cache_bounded sampleMarshal sample_pulls);
    [exact sample_revisions|vm_compute; reflexivity].
Defined.
