(* ===== verification/DaemonServer.v ===== *)
(** * The daemon server

    [internal/codelima/daemon/server.go], [clipboard_owner.go],
    [connection_failure.go] and the message types of [protocol.go]: admission of
    a connection, the input lease, request handling, the two halves of event
    publication, synchronisation, private clipboard effects and teardown.  Each
    definition is one critical section of the server's mutex, or the code
    between two of them; [EventPlane] interleaves them.

    The handler behind the server is an interface ([Handler]); JSON encoding of
    values, events and responses is given by the arguments of the section.
    Sockets, deadlines and files are not modelled.  A connection's identifier is
    its connection number, of which the source's [id] is the decimal rendering. *)

From S2P Require Import Prelude OutboundQueue Dispatch.
From stdpp Require Import pretty.
Local Open Scope Z_scope.

(** ** Messages *)

Definition MaxMessageSize : Z := Z.shiftl 1 20.
Definition ProtocolVersion : Z := 31.
Definition CodeInvalidArgument : Z := 2.
Definition CodePreconditionFailed : Z := 5.
Definition CodeInternalFailure : Z := 7.

Definition EventDaemonHeartbeat : string := "daemon.heartbeat".
Definition EventDaemonShutdown : string := "daemon.shutdown".
Definition EventDaemonUpdateCommitted : string := "daemon.update_committed".
Definition EventInputRevoked : string := "input.revoked".
Definition EventTerminalClipboard : string := "terminal.clipboard".

Record Event := Ev {
  ev_Event : string;
  ev_Data : option bytes;
  ev_DaemonEpoch : string;
  ev_StateSequence : Z;
}.

Record SyncSnapshot := Sync {
  sy_ProtocolVersion : Z;
  sy_DaemonEpoch : string;
  sy_StateSequence : Z;
  sy_State : bytes;
}.

Record Identity := Ident {
  id_Token : string;
  id_Version : string;
  id_Protocol : Z;
  id_PID : Z;
  id_StartedAt : time;
}.

Record HelloParams := Hello {
  he_Version : string;
  he_Protocol : Z;
  he_WantInput : bool;
  he_ClientInstanceID : string;
  he_ConnectionGeneration : Z;
}.

Record HelloResult := HelloRes {
  hr_Version : string;
  hr_Protocol : Z;
  hr_ClientID : string;
  hr_ConnectionID : Z;
  hr_DaemonEpoch : string;
  hr_StateSequence : Z;
  hr_InputOwner : bool;
}.

Record Status := Stat {
  st_Running : bool;
  st_Identity : Identity;
  st_TerminalCount : Z;
  st_Subscribers : Z;
  st_InputOwner : string;
  st_DaemonEpoch : string;
  st_StateSequence : Z;
}.

(** [AsRPCError]: errors that are not RPC errors become internal failures. *)
Definition AsRPCError (e : go_error) : go_error :=
  match e with
  | EApp _ _ _ => e
  | ENew message => EApp "Internal" message CodeInternalFailure
  | EFormat format _ => EApp "Internal" format CodeInternalFailure
  end.

(** ** Connections *)

Inductive ConnectionCloseReason :=
| ClosePeerEOF | CloseReadTimeout | CloseWriteTimeout | CloseReadError | CloseWriteError
| CloseQueueFull | CloseProtocolError | CloseAuthentication | CloseDaemonShutdown
| CloseLiveUpdate | CloseSuperseded | CloseAdministrative | CloseContextCancelled.

(** The counters a connection keeps with atomics. *)
Record connCounters := Counters {
  cc_lastRead : Z;
  cc_lastWrite : Z;
  cc_inboundFrames : Z;
  cc_outboundFrames : Z;
  cc_inboundBytes : Z;
  cc_outboundBytes : Z;
}.

Record ConnectionCloseRecord := CloseRecord {
  cr_ConnectionID : Z;
  cr_ClientInstanceID : string;
  cr_DaemonEpoch : string;
  cr_Initiator : string;
  cr_Phase : string;
  cr_Reason : ConnectionCloseReason;
  cr_Underlying : option go_error;
  cr_Counters : connCounters;
  cr_OutboundDepth : Z;
  cr_OutboundBytesNow : Z;
  cr_OldestOutbound : duration;
}.

Definition errConnectionClosed : go_error := ENew "daemon connection closed".

Record connectionFailure := Failure {
  cf_once : bool;
  cf_cause : option go_error;
  cf_record : option ConnectionCloseRecord;
}.

Record clientConn := Client {
  cl_connectionID : Z;
  cl_instance : string;
  cl_generation : Z;
  cl_epoch : string;
  cl_outbound : outboundQueue;
  cl_subscribed : bool;
  cl_subscribing : bool;
  cl_failure : connectionFailure;
  cl_cancelled : bool;
  cl_counters : connCounters;
}.

Definition failure_Fail (record : ConnectionCloseRecord) (cause : option go_error)
    (f : connectionFailure) : bool * connectionFailure :=
  if cf_once f then (false, f)
  else (true, Failure true (Some (default errConnectionClosed cause)) (Some record)).

Definition setOutbound (q : outboundQueue) (c : clientConn) : clientConn :=
  Client (cl_connectionID c) (cl_instance c) (cl_generation c) (cl_epoch c) q
    (cl_subscribed c) (cl_subscribing c) (cl_failure c) (cl_cancelled c) (cl_counters c).

Definition setSubscribed (b : bool) (c : clientConn) : clientConn :=
  Client (cl_connectionID c) (cl_instance c) (cl_generation c) (cl_epoch c) (cl_outbound c)
    b (cl_subscribing c) (cl_failure c) (cl_cancelled c) (cl_counters c).

Definition setSubscribing (b : bool) (c : clientConn) : clientConn :=
  Client (cl_connectionID c) (cl_instance c) (cl_generation c) (cl_epoch c) (cl_outbound c)
    (cl_subscribed c) b (cl_failure c) (cl_cancelled c) (cl_counters c).

Definition setCounters (k : connCounters) (c : clientConn) : clientConn :=
  Client (cl_connectionID c) (cl_instance c) (cl_generation c) (cl_epoch c) (cl_outbound c)
    (cl_subscribed c) (cl_subscribing c) (cl_failure c) (cl_cancelled c) k.

Definition noteRead (now : time) (size : Z) (c : clientConn) : clientConn :=
  let k := cl_counters c in
  setCounters (Counters now (cc_lastWrite k) (u64 (cc_inboundFrames k + 1)) (cc_outboundFrames k)
                 (u64 (cc_inboundBytes k + size)) (cc_outboundBytes k)) c.

(** The part of [writePump] after a frame was written. *)
Definition noteWrite (now : time) (size : Z) (c : clientConn) : clientConn :=
  let k := cl_counters c in
  setCounters (Counters (cc_lastRead k) now (cc_inboundFrames k) (u64 (cc_outboundFrames k + 1))
                 (cc_inboundBytes k) (u64 (cc_outboundBytes k + size))) c.

(** [fail]: the first failure is recorded, closes the mailbox and cancels the
    connection; later ones change nothing. *)
Definition fail_ (now : time) (initiator phase : string) (reason : ConnectionCloseReason)
    (cause : option go_error) (c : clientConn) : clientConn :=
  let '(depth, size, oldest) := Stats now (cl_outbound c) in
  let record := CloseRecord (cl_connectionID c) (cl_instance c) (cl_epoch c) initiator phase reason
                  cause (cl_counters c) depth size oldest in
  match failure_Fail record cause (cl_failure c) with
  | (false, _) => c
  | (true, f) =>
      Client (cl_connectionID c) (cl_instance c) (cl_generation c) (cl_epoch c)
        (closeDone (closeLocked (cl_outbound c))) (cl_subscribed c) (cl_subscribing c) f true
        (cl_counters c)
  end.

(** [TryPush] followed by the failure of a client that cannot take the frame. *)
Definition pushOrFail (now : time) (frame : bytes) (p : outboundPriority) (phase : string)
    (cause : go_error) (c : clientConn) : bool * clientConn :=
  match TryPush now frame p (cl_outbound c) with
  | (true, q) => (true, setOutbound q c)
  | (false, _) => (false, fail_ now "daemon" phase CloseQueueFull (Some cause) c)
  end.

(** [classifyReadClose]; the read error is [None] for [nil] and carries whether
    it is a timeout. *)
Definition classifyReadClose (readErr : option (go_error * bool)) (contextErr : option go_error)
    : ConnectionCloseReason * go_error :=
  match readErr with
  | None =>
      match contextErr with
      | Some e => (CloseContextCancelled, e)
      | None => (ClosePeerEOF, ENew "EOF")
      end
  | Some (e, true) => (CloseReadTimeout, e)
  | Some (e, false) => (CloseReadError, e)
  end.

(** ** The server *)

Record Config := Conf {
  cf_Version : string;
  cf_ReadTimeout : duration;
  cf_WriteTimeout : duration;
  cf_RequestTimeout : duration;
  cf_LifecycleRequestTimeout : duration;
  cf_MaxInFlight : Z;
  cf_MutationQueueSize : Z;
  cf_OutboundMaxFrames : Z;
  cf_OutboundMaxBytes : Z;
  cf_HeartbeatInterval : duration;
}.

Record inputLease := Lease {
  il_instance : string;
  il_connectionID : Z;
}.

#[export] Instance inputLease_eq_dec : EqDecision inputLease.
Proof. solve_decision. Defined.

Definition noLease : inputLease := Lease "" 0.

Record Server := Srv {
  sv_cfg : Config;
  sv_identity : Identity;
  sv_clients : gmap Z clientConn;
  sv_input : inputLease;
  sv_clipboardRecipients : gmap string Z;
  sv_revision : Z;
  sv_nextConn : Z;
  sv_accepting : bool;
  sv_stopping : bool;
}.

Definition orDefault (v d : Z) : Z := if v <=? 0 then d else v.

Definition normalizeConfig (c : Config) : Config :=
  Conf (cf_Version c) (orDefault (cf_ReadTimeout c) (30 * second))
    (orDefault (cf_WriteTimeout c) (5 * second)) (orDefault (cf_RequestTimeout c) (30 * second))
    (cf_LifecycleRequestTimeout c) (orDefault (cf_MaxInFlight c) 16)
    (orDefault (cf_MutationQueueSize c) 64) (orDefault (cf_OutboundMaxFrames c) 256)
    (orDefault (cf_OutboundMaxBytes c) (Z.shiftl 64 20))
    (orDefault (cf_HeartbeatInterval c) (2 * second)).

Definition NewServer (c : Config) : Server :=
  Srv (normalizeConfig c) (Ident "" "" 0 0 time_zero) ∅ noLease ∅ 0 0 false false.

Definition setClients (m : gmap Z clientConn) (s : Server) : Server :=
  Srv (sv_cfg s) (sv_identity s) m (sv_input s) (sv_clipboardRecipients s) (sv_revision s)
    (sv_nextConn s) (sv_accepting s) (sv_stopping s).

Definition setInput (l : inputLease) (s : Server) : Server :=
  Srv (sv_cfg s) (sv_identity s) (sv_clients s) l (sv_clipboardRecipients s) (sv_revision s)
    (sv_nextConn s) (sv_accepting s) (sv_stopping s).

Definition setRecipients (m : gmap string Z) (s : Server) : Server :=
  Srv (sv_cfg s) (sv_identity s) (sv_clients s) (sv_input s) m (sv_revision s)
    (sv_nextConn s) (sv_accepting s) (sv_stopping s).

(** A change of one connection's own state; its fields have their own locks. *)
Definition updateClient (id : Z) (f : clientConn -> clientConn) (s : Server) : Server :=
  match sv_clients s !! id with
  | Some c => setClients (<[id := f c]> (sv_clients s)) s
  | None => s
  end.

Definition requestTimeout (s : Server) (method : string) : option duration :=
  let timeout :=
    if decide (ClassifyMethod method = ClassLifecycle)
    then cf_LifecycleRequestTimeout (sv_cfg s) else cf_RequestTimeout (sv_cfg s) in
  if timeout <=? 0 then None else Some timeout.

(** ** Admission *)

Definition versionMismatch (version client : string) (protocol : Z) : string :=
  "daemon version mismatch (daemon " +:+ version +:+ " protocol " +:+ pretty ProtocolVersion +:+
  ", client " +:+ client +:+ " protocol " +:+ pretty protocol +:+ "); restart the daemon".

(** The checks of [serveConn] before a connection gets a number.  The request
    and the parameters come decoded, or as [None] when they do not decode. *)
Definition helloCheck (request : option Request) (hello : Request -> option HelloParams) (s : Server)
    : result HelloParams :=
  match request with
  | None => Err (EApp "InvalidArgument" "hello must be the first request" CodeInvalidArgument)
  | Some r =>
      if negb (rq_Method r =? "hello")%string
      then Err (EApp "InvalidArgument" "hello must be the first request" CodeInvalidArgument)
      else match hello r with
           | None => Err (EApp "InvalidArgument" "invalid hello params" CodeInvalidArgument)
           | Some h =>
               if negb (he_Version h =? cf_Version (sv_cfg s))%string ||
                  negb (he_Protocol h =? ProtocolVersion)
               then Err (EApp "PreconditionFailed"
                           (versionMismatch (cf_Version (sv_cfg s)) (he_Version h) (he_Protocol h))
                           CodePreconditionFailed)
               else Ok h
           end
  end.

Definition isOwner (s : Server) (c : clientConn) : bool :=
  (il_instance (sv_input s) =? cl_instance c)%string &&
  (il_connectionID (sv_input s) =? cl_connectionID c).

(** The rest of the admission: the connection's number, its record, the lease
    if it asks for it and may have it, and the reply. *)
Definition admission (h : HelloParams) (token : string) (s : Server) : Server * HelloResult :=
  let connectionID := u64 (sv_nextConn s + 1) in
  let instance := if (he_ClientInstanceID h =? "")%string then token else he_ClientInstanceID h in
  let c := Client connectionID instance (he_ConnectionGeneration h) (id_Token (sv_identity s))
             (newOutboundQueue (cf_OutboundMaxFrames (sv_cfg s)) (cf_OutboundMaxBytes (sv_cfg s)))
             false false (Failure false None None) false (Counters 0 0 0 0 0 0) in
  let input :=
    if he_WantInput h && ((il_instance (sv_input s) =? "")%string ||
                          (il_instance (sv_input s) =? instance)%string)
    then Lease instance connectionID else sv_input s in
  let s' := Srv (sv_cfg s) (sv_identity s) (<[connectionID := c]> (sv_clients s)) input
              (sv_clipboardRecipients s) (sv_revision s) connectionID (sv_accepting s)
              (sv_stopping s) in
  (s', HelloRes (cf_Version (sv_cfg s)) ProtocolVersion instance connectionID
         (id_Token (sv_identity s)) (sv_revision s) (isOwner s' c)).

(** ** Teardown *)

(** [forgetClipboardRecipientIfDisconnectedLocked]. *)
Definition forgetRecipient (instance : string) (s : Server) : Server :=
  if existsb (fun c => (cl_instance c =? instance)%string) (map snd (map_to_list (sv_clients s)))
  then s else setRecipients (delete instance (sv_clipboardRecipients s)) s.

Definition removeClient (id : Z) (s : Server) : Server :=
  let client := sv_clients s !! id in
  let s := setClients (delete id (sv_clients s)) s in
  match client with
  | None => s
  | Some c =>
      let s := if il_connectionID (sv_input s) =? cl_connectionID c then setInput noLease s else s in
      forgetRecipient (cl_instance c) s
  end.

Definition closeClients (now : time) (s : Server) : Server :=
  setClients (fail_ now "daemon" "shutdown" CloseDaemonShutdown (Some (ENew "daemon shutting down"))
                <$> sv_clients s) s.

Definition DisconnectClient (now : time) (id : Z) (reason : ConnectionCloseReason) (s : Server)
    : bool * Server :=
  match List.find (fun c => cl_connectionID c =? id) (map snd (map_to_list (sv_clients s))) with
  | None => (false, s)
  | Some c =>
      (true, updateClient (cl_connectionID c)
               (fail_ now "daemon" "ready" reason
                  (Some (ENew "daemon connection deliberately disconnected"))) s)
  end.

(** ** Event publication *)

(** The critical section of [Broadcast]: the next revision, its event and the
    subscribers at that moment. *)
Definition subscribers (s : Server) : list Z :=
  map fst (List.filter (fun kc => cl_subscribed kc.2) (map_to_list (sv_clients s))).

Definition broadcastAssign (name : string) (payload : option bytes) (s : Server)
    : Server * Event * list Z :=
  let revision := u64 (sv_revision s + 1) in
  let s' := Srv (sv_cfg s) (sv_identity s) (sv_clients s) (sv_input s) (sv_clipboardRecipients s)
              revision (sv_nextConn s) (sv_accepting s) (sv_stopping s) in
  (s', Ev name payload (id_Token (sv_identity s)) revision, subscribers s).

(** The critical section of a heartbeat, which consumes no revision. *)
Definition heartbeatRead (s : Server) : Event * list Z :=
  (Ev EventDaemonHeartbeat None (id_Token (sv_identity s)) (sv_revision s), subscribers s).

(** ** The handler behind the server *)

Record ClientContext := Ctx {
  cx_ID : Z;
  cx_InputOwner : bool;
}.

Class Handler (H V : Type) := {
  Handle : ClientContext -> string -> bytes -> H -> H * result V;
  HandlerSnapshot : H -> result V;
  SynchronizationHandler : option (H -> result V);
  OverviewHandler : option (H -> V);
  TerminalCount : H -> Z;
}.

(** The value a request is answered with. *)
Inductive reply (V : Type) :=
| RStatus (s : Status)
| ROverview (s : Status) (runtime : option V)
| RFlag (name : string)                        (* map[string]bool{name: true} *)
| RSync (s : SyncSnapshot)
| RValue (v : V).
Arguments RStatus {V}.
Arguments ROverview {V}.
Arguments RFlag {V}.
Arguments RSync {V}.
Arguments RValue {V}.

Section Requests.
Context {H V : Type} `{!Handler H V} (marshal : V -> result bytes)
  (encodeEvent : Event -> bytes) (revoked : string -> bytes)
  (stopEpoch : bytes -> option string).

Definition status (s : Server) (h : H) : Status :=
  let instances := map (fun c => cl_instance c)
                     (List.filter cl_subscribed (map snd (map_to_list (sv_clients s)))) in
  Stat true (sv_identity s) (TerminalCount h) (zlen (remove_dups instances))
    (il_instance (sv_input s)) (id_Token (sv_identity s)) (sv_revision s).

Definition synchronizationSnapshot (h : H) : result V :=
  match SynchronizationHandler with
  | Some f => f h
  | None => HandlerSnapshot h
  end.

(** [handle] after the ownership test.  The broadcasts it makes are the list of
    names and payloads; [stopAccepting] and the timed [Stop] are the flags. *)
Definition handleWith (owner : bool) (c : clientConn) (r : Request) (eventSocket : bool)
    (s : Server) (h : H) : Server * H * list (string * option bytes) * result (reply V) :=
  let method := rq_Method r in
  if (method =? "daemon.ping")%string || (method =? "daemon.status")%string
  then (s, h, [], Ok (RStatus (status s h)))
  else if (method =? "daemon.overview")%string
  then (s, h, [], Ok (ROverview (status s h) ((fun f => f h) <$> OverviewHandler)))
  else if (method =? "daemon.stop")%string then
    match match rq_Params r with [] => Some ""%string | _ => stopEpoch (rq_Params r) end with
    | None => (s, h, [], Err (EApp "InvalidArgument" "invalid daemon.stop params" CodeInvalidArgument))
    | Some expected =>
        if negb (expected =? "")%string && negb (expected =? id_Token (sv_identity s))%string
        then (s, h, [], Err (EApp "PreconditionFailed"
                "daemon changed before restart; re-check status" CodePreconditionFailed))
        else (Srv (sv_cfg s) (sv_identity s) (sv_clients s) (sv_input s) (sv_clipboardRecipients s)
                (sv_revision s) (sv_nextConn s) false true, h,
              [(EventDaemonShutdown, None)], Ok (RFlag "stopping"))
    end
  else if (method =? "daemon.snapshot")%string
  then (s, h, [], RValue <$> HandlerSnapshot h)
  else if (method =? "events.subscribe")%string then
    (s, h, [],
     if eventSocket then Ok (RFlag "subscribed")
     else Err (EApp "PreconditionFailed" "events.subscribe requires client.sock"
                 CodePreconditionFailed))
  else if (method =? "daemon.sync")%string then
    (s, h, [],
     state ← synchronizationSnapshot h;
     data ← marshal state;
     Ok (RSync (Sync ProtocolVersion (id_Token (sv_identity s)) (sv_revision s) data)))
  else if (method =? "input.takeover")%string then
    let previous := sv_input s in
    (setInput (Lease (cl_instance c) (cl_connectionID c)) s, h,
     (if negb (il_instance previous =? "")%string &&
         negb (il_instance previous =? cl_instance c)%string
      then [(EventInputRevoked, Some (revoked (il_instance previous)))] else []),
     Ok (RFlag "input_owner"))
  else if SeatArbitratedMethod method && negb owner
  then (s, h, [], Err (EApp "PreconditionFailed"
          "client is observe-only; request input.takeover first" CodePreconditionFailed))
  else
    let '(h', res) := Handle (Ctx (cl_connectionID c) owner) method (rq_Params r) h in
    (s, h', [], RValue <$> res).

Definition handle (c : clientConn) (r : Request) (eventSocket : bool) (s : Server) (h : H)
    : Server * H * list (string * option bytes) * result (reply V) :=
  handleWith (isOwner s c) c r eventSocket s h.

(** The replies of a latest-value request: the same outcome for the request and
    every request it superseded. *)
Definition dispatchLatestValueRequest (c : clientConn) (p : pendingLatestValue) (eventSocket : bool)
    (s : Server) (h : H)
    : Server * H * list (string * option bytes) * list (Z * result (reply V)) :=
  let '(s', h', bs, res) := handle c (pv_request p) eventSocket s h in
  (s', h', bs, map (fun id => (id, res)) (rq_ID (pv_request p) :: pv_superseded p)).

(** ** Synchronisation *)

(** [registerClipboardRecipientLocked]. *)
Definition registerRecipient (id : Z) (s : Server) : Server :=
  match sv_clients s !! id with
  | None => s
  | Some c =>
      if (cl_instance c =? "")%string then s
      else if default 0 (sv_clipboardRecipients s !! cl_instance c) <? cl_connectionID c
      then setRecipients (<[cl_instance c := cl_connectionID c]> (sv_clipboardRecipients s)) s
      else s
  end.

(** [enqueueSyncLocked] with the encoded synchronisation response as [frame];
    whether the connection is subscribed by it. *)
Definition enqueueSync (now : time) (id : Z) (frame : bytes) (s : Server) : bool * Server :=
  match sv_clients s !! id with
  | None => (false, s)
  | Some c =>
      match pushOrFail now frame outboundHigh "synchronizing"
              (ENew "daemon client sync queue is full") c with
      | (false, c') => (false, setClients (<[id := c']> (sv_clients s)) s)
      | (true, c') =>
          (true, registerRecipient id
                   (setClients (<[id := setSubscribed true c']> (sv_clients s)) s))
      end
  end.

(** ** Private clipboard effects *)

(** [EmitInputOwner] up to its first unlock: the target and what it was chosen by. *)
Definition clipboardTarget (name : string) (payload : result bytes) (s : Server)
    : option (Z * inputLease * Z * string * Event) :=
  if negb (name =? EventTerminalClipboard)%string then None
  else match payload with
       | Err _ => None
       | Ok data =>
           if MaxMessageSize <? zlen data then None
           else
             let lease := sv_input s in
             let epoch := id_Token (sv_identity s) in
             let recipient := default 0 (sv_clipboardRecipients s !! il_instance lease) in
             match List.find (fun c => (cl_instance c =? il_instance lease)%string &&
                                       (cl_connectionID c =? recipient) && cl_subscribed c)
                     (map snd (map_to_list (sv_clients s))) with
             | None => None
             | Some c =>
                 if (il_instance lease =? "")%string then None
                 else Some (cl_connectionID c, lease, recipient, epoch, Ev name (Some data) epoch 0)
             end
       end.

(** Its second critical section and the failure of a full client. *)
Definition clipboardAdmit (now : time) (target : Z * inputLease * Z * string * Event) (s : Server)
    : bool * Server :=
  let '(id, lease, recipient, epoch, event) := target in
  let frame := encodeEvent event in
  if MaxMessageSize <? zlen frame then (false, s)
  else match sv_clients s !! id with
       | None => (false, s)
       | Some c =>
           if negb (bool_decide (sv_input s = lease)) ||
              negb (id_Token (sv_identity s) =? epoch)%string ||
              negb (default 0 (sv_clipboardRecipients s !! il_instance lease) =? recipient) ||
              negb (cl_subscribed c)
           then (false, s)
           else
             let '(queued, c') :=
               pushOrFail now frame outboundLow "ready"
                 (ENew "input owner outbound queue is full during clipboard delivery") c in
             (queued, setClients (<[id := c']> (sv_clients s)) s)
       end.
End Requests.
