(* ===== verification/EventPlane.v ===== *)
(** * The event plane

    The daemon's event publication ([Broadcast], [heartbeatLoop], [subscribe],
    [captureSynchronizedCut], [EmitInputOwner] and the connection life cycle of
    [internal/codelima/daemon]) with its concurrency: a publisher takes its
    revision and its subscribers under the server's mutex, but pushes the frame
    to each of them afterwards, while other goroutines run.  The other end is
    the sequence check of [internal/codelima/tui_daemon_connection.go].

    [planeStep] is one atomic step: a subscription reads the revision, takes the
    handler's snapshot and compares the revision in three of them.  [pl_log] and
    [pl_cut] only observe: the events pushed to each connection and the first
    synchronisation response queued to it. *)

From S2P Require Import Prelude OutboundQueue Dispatch DaemonServer.
Local Open Scope Z_scope.

(** ** The client's sequence check *)

Inductive supervisorVerdict :=
| VDeliver (sequence : Z)
| VPrivate
| VSkip
| VDeliverStop (sequence : Z) (e : go_error)
| VBreak (e : go_error).

Definition superviseEvent (epoch : string) (sequence : Z) (e : Event) : supervisorVerdict :=
  if negb (ev_DaemonEpoch e =? epoch)%string
  then VBreak (ENew ("daemon event epoch changed from " +:+ epoch +:+ " to " +:+ ev_DaemonEpoch e))
  else if (ev_Event e =? EventTerminalClipboard)%string && (ev_StateSequence e =? 0) then VPrivate
  else if ev_StateSequence e <=? sequence then VSkip
  else if negb (ev_StateSequence e =? u64 (sequence + 1))
  then VBreak (EFormat "daemon event sequence gap after %d: received %d"
                 [sequence; ev_StateSequence e])
  else if (ev_Event e =? EventDaemonShutdown)%string ||
          (ev_Event e =? EventDaemonUpdateCommitted)%string
  then VDeliverStop (ev_StateSequence e) (ENew (ev_Event e +:+ " requested reconnect"))
  else VDeliver (ev_StateSequence e).

(** The read loop: what it delivers, and the sequence it stands at or the error
    it stops with. *)
Fixpoint supervise (epoch : string) (sequence : Z) (es : list Event)
    : list Event * (Z + go_error) :=
  match es with
  | [] => ([], inl sequence)
  | e :: es =>
      match superviseEvent epoch sequence e with
      | VDeliver sequence' => let '(out, r) := supervise epoch sequence' es in (e :: out, r)
      | VPrivate => let '(out, r) := supervise epoch sequence es in (e :: out, r)
      | VSkip => supervise epoch sequence es
      | VDeliverStop _ err => ([e], inr err)
      | VBreak err => ([], inr err)
      end
  end.

(** ** The interleaved system *)

(** A publisher between its critical section and its last push. *)
Record publisher := Pub {
  pb_heartbeat : bool;
  pb_event : Event;
  pb_targets : list Z;
}.

(** Where the goroutine of a subscription stands: in an attempt of [subscribe],
    in [captureSynchronizedCut], or after its response. *)
Inductive capturePhase (V : Type) :=
| CapRead (attempt : nat)
| CapState (attempt : nat) (before : Z)
| CapCheck (attempt : nat) (before : Z) (state : V)
| CapWait
| CapHeld
| CapHeldCheck (state : V)
| CapUnlock
| CapReply.
Arguments CapRead {V}.
Arguments CapState {V}.
Arguments CapCheck {V}.
Arguments CapWait {V}.
Arguments CapHeld {V}.
Arguments CapHeldCheck {V}.
Arguments CapUnlock {V}.
Arguments CapReply {V}.

Record capture (V : Type) := Capture {
  ca_conn : Z;
  ca_request : Z;
  ca_phase : capturePhase V;
}.
Arguments Capture {V}.
Arguments ca_conn {V}.
Arguments ca_request {V}.
Arguments ca_phase {V}.

(** The goroutine holds the publication barrier. *)
Definition holdsBarrier {V} (k : capture V) : bool :=
  match ca_phase k with CapHeld | CapHeldCheck _ | CapUnlock => true | _ => false end.

Record plane (H V : Type) := Plane {
  pl_server : Server;
  pl_handler : H;
  pl_pubs : list publisher;
  pl_captures : list (capture V);
  pl_clips : list (Z * inputLease * Z * string * Event);
  pl_log : gmap Z (list (bool * Event));
  pl_cut : gmap Z SyncSnapshot;
}.
Arguments Plane {H V}.
Arguments pl_server {H V}.
Arguments pl_handler {H V}.
Arguments pl_pubs {H V}.
Arguments pl_captures {H V}.
Arguments pl_clips {H V}.
Arguments pl_log {H V}.
Arguments pl_cut {H V}.

Inductive planeEvent :=
| PConnect (h : HelloParams) (token : string)
| PRequest (id : Z) (r : Request) (eventSocket : bool)
| PBroadcast (name : string) (payload : option bytes)
| PHeartbeat
| PPush (now : time) (i : nat)
| PSubscribe (id request : Z)
| PCapture (now : time) (i : nat)
| PClipBegin (name : string) (payload : result bytes)
| PClipAdmit (now : time) (i : nat)
| PFail (now : time) (id : Z) (initiator phase : string) (reason : ConnectionCloseReason)
    (cause : option go_error)
| PRemove (id : Z)
| PPop (now : time) (id : Z).

Definition logged {H V} (p : plane H V) (id : Z) : list (bool * Event) := default [] (pl_log p !! id).

(** The revision a connection was synchronised at. *)
Definition cutAt {H V} (p : plane H V) (id : Z) : option Z := sy_StateSequence <$> pl_cut p !! id.

Section Plane.
Context {H V : Type} `{!Handler H V} (marshal : V -> result bytes)
  (encodeEvent : Event -> bytes) (revoked : string -> bytes)
  (stopEpoch : bytes -> option string) (marshalSync : SyncSnapshot -> result bytes)
  (responseLine : Z -> bytes -> result bytes).

Definition withServer (s : Server) (p : plane H V) : plane H V :=
  Plane s (pl_handler p) (pl_pubs p) (pl_captures p) (pl_clips p) (pl_log p) (pl_cut p).

(** A push of the [i]-th publisher to its next target. *)
Definition pushStep (now : time) (i : nat) (p : plane H V) : option (plane H V) :=
  pub ← pl_pubs p !! i;
  match pb_targets pub with
  | [] => Some (Plane (pl_server p) (pl_handler p) (delete i (pl_pubs p)) (pl_captures p)
                  (pl_clips p) (pl_log p) (pl_cut p))
  | id :: rest =>
      let pubs := <[i := Pub (pb_heartbeat pub) (pb_event pub) rest]> (pl_pubs p) in
      match sv_clients (pl_server p) !! id with
      | None => Some (Plane (pl_server p) (pl_handler p) pubs (pl_captures p) (pl_clips p)
                        (pl_log p) (pl_cut p))
      | Some c =>
          let '(pushed, c') :=
            pushOrFail now (encodeEvent (pb_event pub)) outboundLow "ready"
              (ENew (if pb_heartbeat pub
                     then "daemon client outbound queue is full during heartbeat"
                     else "daemon client outbound queue is full")) c in
          let log := if pushed : bool
                     then <[id := logged p id ++ [(pb_heartbeat pub, pb_event pub)]]> (pl_log p)
                     else pl_log p in
          Some (Plane (setClients (<[id := c']> (sv_clients (pl_server p))) (pl_server p))
                  (pl_handler p) pubs (pl_captures p) (pl_clips p) log (pl_cut p))
      end
  end.

(** The synchronisation response is queued and the connection subscribed. *)
Definition cutStep (now : time) (id : Z) (sync : SyncSnapshot) (frame : bytes) (p : plane H V)
    : plane H V :=
  match enqueueSync now id frame (pl_server p) with
  | (false, s) => withServer s p
  | (true, s) =>
      Plane s (pl_handler p) (pl_pubs p) (pl_captures p) (pl_clips p) (pl_log p)
        (match pl_cut p !! id with
         | Some _ => pl_cut p
         | None => <[id := sync]> (pl_cut p)
         end)
  end.

(** [enqueueSyncLocked] of a captured state under a revision. *)
Definition enqueueSyncLocked (now : time) (id request : Z) (state : V) (revision : Z)
    (p : plane H V) : plane H V :=
  let s := pl_server p in
  match marshal state with
  | Err _ => p
  | Ok data =>
      let sync := Sync ProtocolVersion (id_Token (sv_identity s)) revision data in
      match marshalSync sync with
      | Err _ => p
      | Ok body =>
          match responseLine request body with
          | Err e => withServer (updateClient id (fail_ now "daemon" "synchronizing" CloseWriteError
                                                    (Some e)) s) p
          | Ok frame => cutStep now id sync frame p
          end
      end
  end.

Definition withCaptures (captures : list (capture V)) (p : plane H V) : plane H V :=
  Plane (pl_server p) (pl_handler p) (pl_pubs p) captures (pl_clips p) (pl_log p) (pl_cut p).

(** The [i]-th subscription moves on: [subscribe] tries 8 times to find the
    revision unchanged around a snapshot; then [captureSynchronizedCut] takes it
    while it holds the publication barrier, which waits for every [Broadcast]. *)
Definition captureStep (now : time) (i : nat) (p : plane H V) : option (plane H V) :=
  let s := pl_server p in
  k ← pl_captures p !! i;
  let go phase := withCaptures (<[i := Capture (ca_conn k) (ca_request k) phase]> (pl_captures p)) p in
  match ca_phase k with
  | CapRead attempt =>
      Some (if (8 <=? attempt)%nat then go CapWait else go (CapState attempt (sv_revision s)))
  | CapState attempt before =>
      Some (match synchronizationSnapshot (pl_handler p) with
            | Err _ => go CapReply
            | Ok state => go (CapCheck attempt before state)
            end)
  | CapCheck attempt before state =>
      Some (if negb (sv_revision s =? before) then go (CapRead (S attempt))
            else enqueueSyncLocked now (ca_conn k) (ca_request k) state before (go CapReply))
  | CapWait =>
      if forallb pb_heartbeat (pl_pubs p) && negb (existsb holdsBarrier (pl_captures p))
      then Some (go CapHeld) else None
  | CapHeld =>
      Some (match synchronizationSnapshot (pl_handler p) with
            | Err _ => go CapUnlock
            | Ok state => go (CapHeldCheck state)
            end)
  | CapHeldCheck state =>
      Some (enqueueSyncLocked now (ca_conn k) (ca_request k) state (sv_revision s) (go CapUnlock))
  | CapUnlock => Some (go CapReply)
  | CapReply =>
      Some (withServer (updateClient (ca_conn k) (setSubscribing false) s)
              (withCaptures (delete i (pl_captures p)) p))
  end.

Definition planeStep (e : planeEvent) (p : plane H V) : option (plane H V) :=
  let s := pl_server p in
  match e with
  | PConnect h token =>
      if (token =? "")%string then None else Some (withServer (fst (admission h token s)) p)
  | PRequest id r eventSocket =>
      c ← sv_clients s !! id;
      let '(s', h', _, _) := handle marshal revoked stopEpoch c r eventSocket s (pl_handler p) in
      Some (Plane s' h' (pl_pubs p) (pl_captures p) (pl_clips p) (pl_log p) (pl_cut p))
  | PBroadcast name payload =>
      (* the publication barrier is free *)
      if existsb holdsBarrier (pl_captures p) then None
      else
        let '(s', event, targets) := broadcastAssign name payload s in
        Some (Plane s' (pl_handler p) (pl_pubs p ++ [Pub false event targets]) (pl_captures p)
                (pl_clips p) (pl_log p) (pl_cut p))
  | PHeartbeat =>
      let '(event, targets) := heartbeatRead s in
      Some (Plane s (pl_handler p) (pl_pubs p ++ [Pub true event targets]) (pl_captures p)
              (pl_clips p) (pl_log p) (pl_cut p))
  | PPush now i => pushStep now i p
  | PSubscribe id request =>
      c ← sv_clients s !! id;
      if cl_subscribing c then None
      else Some (withServer (updateClient id (setSubscribing true) s)
                   (withCaptures (pl_captures p ++ [Capture id request (CapRead 0)]) p))
  | PCapture now i => captureStep now i p
  | PClipBegin name payload =>
      target ← clipboardTarget name payload s;
      Some (Plane s (pl_handler p) (pl_pubs p) (pl_captures p) (pl_clips p ++ [target]) (pl_log p)
              (pl_cut p))
  | PClipAdmit now i =>
      target ← pl_clips p !! i;
      let '(_, s') := clipboardAdmit encodeEvent now target s in
      Some (Plane s' (pl_handler p) (pl_pubs p) (pl_captures p) (delete i (pl_clips p)) (pl_log p)
              (pl_cut p))
  | PFail now id initiator phase reason cause =>
      Some (withServer (updateClient id (fail_ now initiator phase reason cause) s) p)
  | PRemove id =>
      c ← sv_clients s !! id;
      if cf_once (cl_failure c) then Some (withServer (removeClient id s) p) else None
  | PPop now id =>
      c ← sv_clients s !! id;
      match popLocked (cl_outbound c) with
      | PopFrame _ data q =>
          Some (withServer (setClients (<[id := noteWrite now (zlen data) (setOutbound q c)]>
                                          (sv_clients s)) s) p)
      | _ => None
      end
  end.

Fixpoint planeRun (es : list planeEvent) (p : plane H V) : option (plane H V) :=
  match es with
  | [] => Some p
  | e :: es => p ← planeStep e p; planeRun es p
  end.

(** Runs in which a publisher starts only when none is in flight. *)
Definition startsPublisher (e : planeEvent) : bool :=
  match e with PBroadcast _ _ | PHeartbeat => true | _ => false end.

Fixpoint serialRun (es : list planeEvent) (p : plane H V) : option (plane H V) :=
  match es with
  | [] => Some p
  | e :: es =>
      if startsPublisher e && negb (length (pl_pubs p) =? 0)%nat then None
      else p ← planeStep e p; serialRun es p
  end.

Definition initialPlane (c : Config) (ident : Identity) (h : H) : plane H V :=
  let s := NewServer c in
  Plane (Srv (sv_cfg s) ident ∅ noLease ∅ 0 0 true false) h [] [] [] ∅ ∅.

(** ** Invariants *)

(** The revisions of published events: pushed to a connection, and still to be
    pushed to it. *)
Definition pushedSeqs (l : list (bool * Event)) : list Z :=
  omap (fun be => if fst be : bool then None else Some (ev_StateSequence (snd be))) l.

Definition pendingSeqs (pubs : list publisher) (id : Z) : list Z :=
  omap (fun pub => if pb_heartbeat pub || negb (bool_decide (id ∈ pb_targets pub)) then None
                   else Some (ev_StateSequence (pb_event pub))) pubs.

Definition healthy (c : clientConn) : Prop :=
  cl_subscribed c = true /\ cf_once (cl_failure c) = false.

Record clients_ok (s : Server) : Prop := {
  ck_ids : forall id c, sv_clients s !! id = Some c ->
    cl_connectionID c = id /\ 1 <= id <= sv_nextConn s /\ cl_instance c <> ""%string;
  ck_nextConn : 0 <= sv_nextConn s;
}.

(** The lease is free or held by a live connection of its instance. *)
Definition lease_ok (s : Server) : Prop :=
  sv_input s = noLease \/
  exists c, sv_clients s !! il_connectionID (sv_input s) = Some c /\
    cl_instance c = il_instance (sv_input s).

(** A frontend's recipient is one of its connections, and no older than any
    live subscribed one. *)
Definition recipients_newest (s : Server) : Prop :=
  forall id c, sv_clients s !! id = Some c -> cl_subscribed c = true ->
    exists n, sv_clipboardRecipients s !! cl_instance c = Some n /\ id <= n.

Definition recipients_own (s : Server) : Prop :=
  forall inst n, sv_clipboardRecipients s !! inst = Some n -> n <= sv_nextConn s /\
    forall c, sv_clients s !! n = Some c -> cl_instance c = inst.

Definition recipients_ok (s : Server) : Prop := recipients_newest s /\ recipients_own s.

(** What holds of a connection's log, cut and pending pushes. *)
Definition conn_ok (s : Server) (pubs : list publisher) (log : list (bool * Event))
    (cut : option Z) (id : Z) (c : clientConn) : Prop :=
  if cl_subscribed c
  then exists r, cut = Some r /\ 0 <= r <= sv_revision s /\
       (cf_once (cl_failure c) = false ->
        pushedSeqs log ++ pendingSeqs pubs id ≡ₚ seqZ (r + 1) (sv_revision s - r))
  else log = [] /\ cut = None /\ forall pub, pub ∈ pubs -> id ∉ pb_targets pub.

Record plane_ok (n : Z) (p : plane H V) : Prop := {
  po_clients : clients_ok (pl_server p);
  po_lease : lease_ok (pl_server p);
  po_recipients : recipients_ok (pl_server p);
  po_counts : 0 <= sv_revision (pl_server p) <= n /\ sv_nextConn (pl_server p) <= n;
  po_targets : forall pub id, pub ∈ pl_pubs p -> id ∈ pb_targets pub ->
    id <= sv_nextConn (pl_server p);
  po_nodup : forall pub, pub ∈ pl_pubs p -> NoDup (pb_targets pub);
  po_epochs : forall pub, pub ∈ pl_pubs p ->
    ev_DaemonEpoch (pb_event pub) = id_Token (sv_identity (pl_server p));
  po_fresh : forall id, sv_nextConn (pl_server p) < id ->
    pl_log p !! id = None /\ pl_cut p !! id = None;
  po_conns : forall id c, sv_clients (pl_server p) !! id = Some c ->
    conn_ok (pl_server p) (pl_pubs p) (logged p id) (cutAt p id) id c;
}.

(** ** Lemmas *)

(** A change of a connection that keeps who it is. *)
Definition same_conn (c c' : clientConn) : Prop :=
  cl_connectionID c' = cl_connectionID c /\ cl_instance c' = cl_instance c /\
  cl_subscribed c' = cl_subscribed c /\
  (cf_once (cl_failure c') = false -> cf_once (cl_failure c) = false).

Lemma fail_same now i ph r e c :
  same_conn c (fail_ now i ph r e c) /\ cf_once (cl_failure (fail_ now i ph r e c)) = true.
Proof.
  unfold fail_, same_conn. destruct (Stats _ _) as [[d b] o]. unfold failure_Fail.
  destruct (cf_once (cl_failure c)) eqn:E; simpl; [by rewrite E|by split_and!].
Qed.

Lemma pushOrFail_spec now frame pr ph e c b c' :
  pushOrFail now frame pr ph e c = (b, c') ->
  same_conn c c' /\ (b = true -> cl_failure c' = cl_failure c) /\
  (b = false -> cf_once (cl_failure c') = true).
Proof.
  unfold pushOrFail. destruct (TryPush _ _ _ _) as [[] q]; intros [= <- <-].
  - by split_and!.
  - destruct (fail_same now "daemon" ph CloseQueueFull (Some e) c). by split_and!.
Qed.

Lemma pendingSeqs_app a b id : pendingSeqs (a ++ b) id = pendingSeqs a id ++ pendingSeqs b id.
Proof. apply omap_app. Qed.

Lemma pushedSeqs_app a b : pushedSeqs (a ++ b) = pushedSeqs a ++ pushedSeqs b.
Proof. apply omap_app. Qed.

Lemma pendingSeqs_none pubs id :
  (forall pub, pub ∈ pubs -> id ∉ pb_targets pub) -> pendingSeqs pubs id = [].
Proof.
  induction pubs as [|pub pubs IH]; [done|]. intros Hn. unfold pendingSeqs. simpl.
  rewrite (bool_decide_eq_false_2 (id ∈ pb_targets pub)) by (apply Hn; left).
  rewrite orb_true_r. apply IH. intros x Hx. apply Hn. by right.
Qed.

(** The invariant of the connections when one of them changes in place. *)
Lemma clients_ok_update s id c c' :
  sv_clients s !! id = Some c -> same_conn c c' -> clients_ok s ->
  clients_ok (setClients (<[id := c']> (sv_clients s)) s).
Proof.
  intros Hc (E1 & E2 & _) [Hids Hn]. split; simpl; [|done].
  intros k d. rewrite lookup_insert. case_decide; [|by eauto].
  intros [= <-]. subst k. rewrite E1, E2. by apply Hids.
Qed.

Lemma lease_ok_update s id c c' :
  sv_clients s !! id = Some c -> same_conn c c' -> lease_ok s ->
  lease_ok (setClients (<[id := c']> (sv_clients s)) s).
Proof.
  intros Hc (E1 & E2 & _) [Hl|(d & Hd & Ed)]; [by left|right]. simpl.
  rewrite lookup_insert. case_decide as E; [|by exists d]. exists c'. split; [done|].
  subst id. rewrite E2. congruence.
Qed.

Lemma recipients_ok_update s id c c' :
  sv_clients s !! id = Some c -> same_conn c c' -> recipients_ok s ->
  recipients_ok (setClients (<[id := c']> (sv_clients s)) s).
Proof.
  intros Hc (E1 & E2 & E3 & _) [Hr Ho]. split.
  - intros k d. simpl. rewrite lookup_insert. case_decide; [|by eauto].
    intros [= <-] Hs. subst k. rewrite E2. apply Hr; [done|congruence].
  - intros inst n Hn. destruct (Ho inst n Hn) as [Hle Hi]. split; [done|].
    intros d. simpl. rewrite lookup_insert. case_decide; [|by eauto].
    intros [= <-]. subst. rewrite E2. by apply Hi.
Qed.

Lemma conn_ok_same s pubs log cut id c c' :
  same_conn c c' -> conn_ok s pubs log cut id c -> conn_ok s pubs log cut id c'.
Proof.
  intros (_ & _ & E3 & E4). unfold conn_ok. rewrite E3. destruct (cl_subscribed c); [|done].
  intros (r & Hr & Hb & Hp). exists r. auto.
Qed.

(** What [conn_ok] reads of the server. *)
Lemma conn_ok_rev s s' pubs log cut id c :
  sv_revision s' = sv_revision s -> conn_ok s pubs log cut id c -> conn_ok s' pubs log cut id c.
Proof. intros E. unfold conn_ok. by rewrite E. Qed.

Lemma update_ok n p id c c' :
  sv_clients (pl_server p) !! id = Some c -> same_conn c c' -> plane_ok n p ->
  plane_ok n (withServer (setClients (<[id := c']> (sv_clients (pl_server p))) (pl_server p)) p).
Proof.
  intros Hc Hs [H1 H2 H3 H4 H5 H6 H7 H8 H9]. split; simpl; try done.
  - by eapply clients_ok_update.
  - by eapply lease_ok_update.
  - by eapply recipients_ok_update.
  - intros k d. rewrite lookup_insert. case_decide.
    + intros [= <-]. subst k. eapply conn_ok_rev; [|by eapply conn_ok_same; eauto]. done.
    + intros Hd. eapply conn_ok_rev; [|by apply H9]. done.
Qed.

(** A step that changes the handler, captures or pending effects, and of the
    server only the lease and the flags. *)
Lemma frame_ok n p p' :
  plane_ok n p ->
  sv_clients (pl_server p') = sv_clients (pl_server p) ->
  sv_clipboardRecipients (pl_server p') = sv_clipboardRecipients (pl_server p) ->
  sv_revision (pl_server p') = sv_revision (pl_server p) ->
  sv_nextConn (pl_server p') = sv_nextConn (pl_server p) ->
  sv_identity (pl_server p') = sv_identity (pl_server p) ->
  lease_ok (pl_server p') -> pl_pubs p' = pl_pubs p -> pl_log p' = pl_log p -> pl_cut p' = pl_cut p ->
  plane_ok n p'.
Proof.
  intros [H1 H2 H3 H4 H5 H6 H7 H8 H9] E1 E2 E3 E4 E5 Hl E6 E7 E8.
  split; unfold recipients_ok, recipients_newest, recipients_own, logged, cutAt in *;
    rewrite ?E1, ?E2, ?E3, ?E4, ?E5, ?E6, ?E7, ?E8; try done.
  - destruct H1. split; rewrite ?E1, ?E4; done.
  - intros id c Hc. eapply conn_ok_rev; [done|by apply H9].
Qed.

Lemma plane_ok_mono n m p : n <= m -> plane_ok n p -> plane_ok m p.
Proof. intros Hnm [H1 H2 H3 H4 H5 H6 H7 H8 H9]. split; try done. lia. Qed.

Lemma connect_ok n p h token :
  n + 1 < two64 -> token <> ""%string -> plane_ok n p ->
  plane_ok (n + 1) (withServer (fst (admission h token (pl_server p))) p).
Proof.
  intros Hn Ht [[H1 H1'] H2 H3 H4 H5 H6 H7 H8 H9].
  set (s := pl_server p) in *. unfold admission.
  rewrite (u64_small (sv_nextConn s + 1)) by lia.
  set (id := sv_nextConn s + 1). set (inst := if (_ =? "")%string then token else _).
  assert (Hi : inst <> ""%string).
  { unfold inst. destruct (_ =? "")%string eqn:E; bool_to_prop; done. }
  assert (Hfresh : sv_clients s !! id = None).
  { destruct (sv_clients s !! id) as [c|] eqn:E; [|done]. apply H1 in E. unfold id in E. lia. }
  split; simpl.
  - split; simpl; [|unfold id; lia]. intros k c. rewrite lookup_insert. case_decide.
    + intros [= <-]. subst k. simpl. unfold id. split_and!; try done; lia.
    + intros Hc. apply H1 in Hc as (? & ? & ?). unfold id. split_and!; try done; lia.
  - unfold lease_ok in *. simpl. destruct (_ && _)%bool; simpl.
    + right. rewrite lookup_insert_eq. by eexists.
    + destruct H2 as [?|(c & Hc & Ec)]; [by left|right]. exists c.
      rewrite lookup_insert_ne; [done|]. intros E. rewrite <- E in Hc. congruence.
  - destruct H3 as [Hr Ho]. split.
    + intros k c. simpl. rewrite lookup_insert. case_decide; [|by eauto]. by intros [= <-].
    + intros i m Hm. destruct (Ho i m Hm) as [Hle Hlive]. simpl. unfold id. split; [lia|].
      intros c. rewrite lookup_insert_ne by lia. apply Hlive.
  - unfold id. lia.
  - intros pub k Hp Hk. specialize (H5 pub k Hp Hk). unfold id. lia.
  - done.
  - done.
  - intros k Hk. apply H8. unfold id in Hk. lia.
  - intros k c. rewrite lookup_insert. case_decide as E.
    + intros [= <-]. subst k. unfold conn_ok, cutAt, logged. simpl.
      destruct (H8 id ltac:(unfold id; lia)) as [-> ->]. split_and!; try done.
      intros pub Hp Hin. specialize (H5 pub id Hp Hin). unfold id in *. lia.
    + intros Hc. eapply conn_ok_rev; [|by apply H9]. done.
Qed.

Lemma handle_server c r es s h s' h' bs res :
  handle marshal revoked stopEpoch c r es s h = (s', h', bs, res) ->
  sv_clients s' = sv_clients s /\ sv_clipboardRecipients s' = sv_clipboardRecipients s /\
  sv_revision s' = sv_revision s /\ sv_nextConn s' = sv_nextConn s /\
  sv_identity s' = sv_identity s /\
  (sv_input s' = sv_input s \/ sv_input s' = Lease (cl_instance c) (cl_connectionID c)).
Proof.
  unfold handle, handleWith. intros E.
  repeat (case_match; simplify_eq/=); split_and!; try done; by auto.
Qed.

Lemma subscribers_spec s id :
  id ∈ subscribers s <-> exists c, sv_clients s !! id = Some c /\ cl_subscribed c = true.
Proof.
  unfold subscribers. rewrite list_elem_of_In, in_map_iff. split.
  - intros ([k c] & <- & Hin). apply filter_In in Hin as [Hin Hs].
    apply list_elem_of_In, elem_of_map_to_list in Hin. by exists c.
  - intros (c & Hc & Hs). exists (id, c). split; [done|]. apply filter_In. split; [|done].
    by apply list_elem_of_In, elem_of_map_to_list.
Qed.

Lemma subscribers_NoDup s : NoDup (subscribers s).
Proof.
  unfold subscribers. pose proof (NoDup_fst_map_to_list (sv_clients s)) as Hnd.
  induction (map_to_list (sv_clients s)) as [|[k c] l IH]; simpl in *; [constructor|].
  apply NoDup_cons in Hnd as [Hn Hnd]. specialize (IH Hnd).
  destruct (cl_subscribed c); simpl; [|done]. apply NoDup_cons. split; [|done].
  intros (x & Hx1 & Hx2)%list_elem_of_fmap. apply Hn. rewrite Hx1. apply list_elem_of_fmap_2.
  apply list_elem_of_In. apply list_elem_of_In in Hx2. by apply filter_In in Hx2 as [? _].
Qed.

(** Starting a publisher. *)
Lemma start_ok n (p : plane H V) (hb : bool) name payload rev :
  rev = (if hb then sv_revision (pl_server p) else sv_revision (pl_server p) + 1) ->
  plane_ok n p ->
  let s := pl_server p in
  plane_ok (n + 1)
    (Plane (Srv (sv_cfg s) (sv_identity s) (sv_clients s) (sv_input s) (sv_clipboardRecipients s)
              rev (sv_nextConn s) (sv_accepting s) (sv_stopping s))
       (pl_handler p) (pl_pubs p ++ [Pub hb (Ev name payload (id_Token (sv_identity s)) rev)
                                       (subscribers s)])
       (pl_captures p) (pl_clips p) (pl_log p) (pl_cut p)).
Proof.
  intros Hrev [[H1 H1'] H2 H3 H4 H5 H6 H7 H8 H9] s. subst s.
  split; simpl; try done.
  - destruct hb; lia.
  - intros pub id [Hp| ->%list_elem_of_singleton]%elem_of_app; [by apply H5|]. simpl.
    intros (c & Hc & _)%subscribers_spec. apply H1 in Hc. lia.
  - intros pub [Hp| ->%list_elem_of_singleton]%elem_of_app; [by apply H6|]. apply subscribers_NoDup.
  - intros pub [Hp| ->%list_elem_of_singleton]%elem_of_app; [by apply H7|]. done.
  - intros id c Hc. specialize (H9 id c Hc). unfold conn_ok, cutAt, logged in *. simpl in *.
    destruct (cl_subscribed c) eqn:Es.
    + destruct H9 as (r & Hr & Hb & Hp). exists r. split; [done|].
      split; [destruct hb; lia|]. intros Hh. specialize (Hp Hh).
      rewrite pendingSeqs_app, app_assoc, Hp. unfold pendingSeqs. simpl.
      rewrite (bool_decide_eq_true_2 (id ∈ subscribers _)) by (apply subscribers_spec; eauto).
      destruct hb; simpl; [by rewrite app_nil_r, Hrev|]. subst rev.
      replace (sv_revision (pl_server p) + 1 - r) with ((sv_revision (pl_server p) - r) + 1) by lia.
      rewrite seqZ_snoc by lia. apply Permutation_app_head.
      by replace (r + 1 + (sv_revision (pl_server p) - r)) with (sv_revision (pl_server p) + 1) by lia.
    + destruct H9 as (? & ? & Hp). split_and!; try done.
      intros pub [?| ->%list_elem_of_singleton]%elem_of_app; [by apply Hp|]. simpl.
      intros (d & Hd & Hds)%subscribers_spec. congruence.
Qed.

(** Changing one publisher in the list. *)
Lemma pubs_split (pubs : list publisher) i pub :
  pubs !! i = Some pub ->
  exists a b, pubs = a ++ pub :: b /\ delete i pubs = a ++ b /\
    forall pub', <[i := pub']> pubs = a ++ pub' :: b.
Proof.
  intros E. exists (take i pubs), (drop (S i) pubs). split_and!.
  - symmetry. by apply take_drop_middle.
  - apply delete_take_drop.
  - intros pub'. rewrite insert_take_drop; [done|]. by eapply lookup_lt_Some.
Qed.

Lemma pending_cons_app a pub b id :
  pendingSeqs (a ++ pub :: b) id ≡ₚ pendingSeqs [pub] id ++ pendingSeqs (a ++ b) id.
Proof.
  change (pub :: b) with ([pub] ++ b). rewrite !pendingSeqs_app.
  by rewrite !app_assoc, (Permutation_app_comm (pendingSeqs a id)).
Qed.

(** The publisher list shrinks towards nothing to do for one connection. *)
Lemma pubs_ok n p pubs log s :
  plane_ok n p ->
  (forall pub, pub ∈ pubs -> exists old, old ∈ pl_pubs p /\ pb_event pub = pb_event old /\
     NoDup (pb_targets pub) /\ forall id, id ∈ pb_targets pub -> id ∈ pb_targets old) ->
  clients_ok s -> lease_ok s -> recipients_ok s ->
  sv_revision s = sv_revision (pl_server p) -> sv_nextConn s = sv_nextConn (pl_server p) ->
  sv_identity s = sv_identity (pl_server p) ->
  (forall id, sv_nextConn s < id -> log !! id = None) ->
  (forall id c, sv_clients s !! id = Some c ->
     conn_ok s pubs (default [] (log !! id)) (cutAt p id) id c) ->
  plane_ok n (Plane s (pl_handler p) pubs (pl_captures p) (pl_clips p) log (pl_cut p)).
Proof.
  intros [H1 H2 H3 H4 H5 H6 H7 H8 H9] Hp K1 K2 K3 E1 E2 E3 Hl Hc.
  split; simpl; rewrite ?E1, ?E2, ?E3 in *; try done.
  - intros pub id (old & Ho & _ & _ & Hin)%Hp Hid. by apply (H5 old), Hin.
  - intros pub (old & _ & _ & Hn & _)%Hp. done.
  - intros pub (old & Ho & -> & _)%Hp. by apply H7.
  - intros id Hid. split; [by apply Hl|]. by apply H8.
Qed.

Lemma lane_push_ok n p now i p' : plane_ok n p -> pushStep now i p = Some p' -> plane_ok n p'.
Proof.
  intros Hok. unfold pushStep. destruct (pl_pubs p !! i) as [pub|] eqn:Ei; [|done]. simpl.
  destruct (pubs_split _ _ _ Ei) as (a & b & Ep & Ed & Ein).
  pose proof Hok as [H1 H2 H3 H4 H5 H6 H7 H8 H9].
  assert (Hsub : forall q, q ∈ a ++ b -> q ∈ pl_pubs p).
  { intros q Hq. rewrite Ep. apply elem_of_app in Hq as [?|?];
      apply elem_of_app; [by left|right; by right]. }
  assert (Hpub : pub ∈ pl_pubs p) by (rewrite Ep; apply elem_of_app; right; left).
  destruct (pb_targets pub) as [|id rest] eqn:Et.
  { intros [= <-]. rewrite Ed. apply pubs_ok; try done.
    - intros q Hq. exists q. split_and!; auto.
    - intros k Hk. by apply H8.
    - intros k c Hc. specialize (H9 k c Hc). unfold conn_ok, cutAt, logged in *.
      destruct (cl_subscribed c).
      + destruct H9 as (r & ? & ? & Hp). exists r. split; [done|]. split; [done|]. intros Hh.
        specialize (Hp Hh). rewrite Ep, pending_cons_app in Hp. unfold pendingSeqs in Hp at 1.
        simpl in Hp. rewrite Et in Hp. by rewrite orb_true_r in Hp.
      + destruct H9 as (? & ? & ?). split_and!; auto. }
  set (pub' := Pub (pb_heartbeat pub) (pb_event pub) rest). rewrite (Ein pub').
  assert (Hnd : (id ∉ rest) /\ NoDup rest).
  { specialize (H6 pub Hpub). rewrite Et in H6. by apply NoDup_cons in H6. }
  assert (Hpubs' : forall q, q ∈ a ++ pub' :: b -> exists old, old ∈ pl_pubs p /\
    pb_event q = pb_event old /\ NoDup (pb_targets q) /\
    forall k, k ∈ pb_targets q -> k ∈ pb_targets old).
  { intros q Hq. assert (q = pub' \/ q ∈ a ++ b) as [->|Hq'] by set_solver.
    - exists pub. split_and!; try done; [apply Hnd|]. intros k Hk. rewrite Et. by right.
    - exists q. split_and!; auto. }
  (* the pending revisions of each connection before and after *)
  assert (Hpend : forall k, pendingSeqs (pl_pubs p) k ≡ₚ
    (if decide (k = id) then if pb_heartbeat pub then [] else [ev_StateSequence (pb_event pub)]
     else []) ++ pendingSeqs (a ++ pub' :: b) k).
  { intros k. rewrite Ep, !pending_cons_app. unfold pendingSeqs at 1 3. simpl. rewrite Et.
    destruct (decide (k = id)) as [->|Hne].
    - rewrite bool_decide_eq_true_2 by left. rewrite (bool_decide_eq_false_2 (id ∈ rest)) by tauto.
      rewrite orb_true_r. by destruct (pb_heartbeat pub).
    - rewrite (bool_decide_ext (k ∈ id :: rest) (k ∈ rest)) by (rewrite elem_of_cons; tauto). done. }
  assert (Hunsub : forall k, (forall q, q ∈ pl_pubs p -> k ∉ pb_targets q) ->
    forall q, q ∈ a ++ pub' :: b -> k ∉ pb_targets q).
  { intros k Hk q (old & Ho & _ & _ & Hin)%Hpubs' Hq. by apply (Hk old Ho), Hin. }
  destruct (sv_clients (pl_server p) !! id) as [c|] eqn:Ec.
  - destruct (pushOrFail _ _ _ _ _ c) as [pushed c'] eqn:Epu.
    apply pushOrFail_spec in Epu as (Hs & Ht & Hf). intros [= <-].
    assert (Hsub' : cl_subscribed c = true).
    { destruct (cl_subscribed c) eqn:E; [done|]. specialize (H9 id c Ec). unfold conn_ok in H9.
      rewrite E in H9. destruct H9 as (_ & _ & Hn). exfalso. apply (Hn pub Hpub). rewrite Et. left. }
    apply pubs_ok; simpl; try done; eauto using clients_ok_update, lease_ok_update, recipients_ok_update.
    + intros k Hk. destruct pushed; [|by apply H8]. rewrite lookup_insert. case_decide as E; [|by apply H8].
      subst k. destruct H1 as [H1 _]. apply H1 in Ec. lia.
    + intros k d. rewrite lookup_insert. case_decide as E.
      * intros [= <-]. subst k. specialize (H9 id c Ec). unfold conn_ok in *.
        destruct Hs as (_ & _ & Es & Eh). rewrite Es, Hsub' in *.
        destruct H9 as (r & Hr & Hb & Hp). exists r. split; [done|]. split; [done|]. intros Hh. destruct pushed; [|rewrite Hf in Hh; done].
        specialize (Hp (Eh Hh)). rewrite lookup_insert_eq. simpl. rewrite pushedSeqs_app, <- app_assoc.
        rewrite (Hpend id), decide_True in Hp by done. rewrite <- Hp.
        apply Permutation_app_head, Permutation_app_tail. unfold pushedSeqs. simpl.
        by destruct (pb_heartbeat pub).
      * intros Hd. specialize (H9 k d Hd). unfold conn_ok, cutAt, logged in *.
        assert (El : (if pushed then <[id:=default [] (pl_log p !! id) ++
          [(pb_heartbeat pub, pb_event pub)]]> (pl_log p) else pl_log p) !! k = pl_log p !! k).
        { destruct pushed; [|done]. by rewrite lookup_insert_ne. }
        rewrite El. destruct (cl_subscribed d).
        -- destruct H9 as (r & Hr & Hb & Hp). exists r. split; [done|]. split; [done|]. intros Hh.
           specialize (Hp Hh). rewrite (Hpend k), decide_False in Hp by done. done.
        -- destruct H9 as (? & ? & ?). split_and!; auto.
  - intros [= <-]. apply pubs_ok; try done; [intros k Hk; by apply H8|].
    intros k d Hd. specialize (H9 k d Hd). unfold conn_ok, cutAt, logged in *.
    assert (k <> id) by congruence. destruct (cl_subscribed d).
    + destruct H9 as (r & Hr & Hb & Hp). exists r. split; [done|]. split; [done|]. intros Hh.
      specialize (Hp Hh). rewrite (Hpend k), decide_False in Hp by done. done.
    + destruct H9 as (? & ? & ?). split_and!; auto.
Qed.

(** Synchronisation. *)
Lemma registerRecipient_same id s :
  sv_clients (registerRecipient id s) = sv_clients s /\
  sv_revision (registerRecipient id s) = sv_revision s /\
  sv_nextConn (registerRecipient id s) = sv_nextConn s /\
  sv_identity (registerRecipient id s) = sv_identity s /\
  sv_input (registerRecipient id s) = sv_input s.
Proof. unfold registerRecipient. repeat case_match; by split_and!. Qed.

Lemma registerRecipient_ok id s c :
  clients_ok s -> sv_clients s !! id = Some c ->
  (forall k d, sv_clients s !! k = Some d -> cl_subscribed d = true -> k <> id ->
     exists n, sv_clipboardRecipients s !! cl_instance d = Some n /\ k <= n) ->
  recipients_own s -> recipients_ok (registerRecipient id s).
Proof.
  intros [Hids _] Hc Hr Ho. destruct (Hids id c Hc) as (Eid & Hid & Hinst).
  unfold registerRecipient. rewrite Hc, (proj2 (String.eqb_neq _ _) Hinst), Eid.
  destruct (_ <? id) eqn:Elt; bool_to_prop; split.
  - intros k d. simpl. intros Hd Hs. destruct (decide (cl_instance c = cl_instance d)) as [E|E].
    + rewrite E, lookup_insert_eq. exists id. split; [done|].
      destruct (decide (k = id)) as [->|Hne]; [lia|].
      destruct (Hr k d Hd Hs Hne) as (n & Hn & Hle). rewrite E, Hn in Elt. simpl in Elt. lia.
    + rewrite lookup_insert_ne by done. apply Hr; try done. intros ->. congruence.
  - intros inst n. simpl. rewrite lookup_insert. case_decide; [|by apply Ho].
    intros [= <-]. split; [lia|]. intros d Hd. congruence.
  - intros k d Hd Hs. destruct (decide (k = id)) as [->|Hne]; [|by apply Hr].
    assert (d = c) as -> by congruence.
    destruct (sv_clipboardRecipients s !! cl_instance c) as [n|]; simpl in Elt; [by exists n|lia].
  - exact Ho.
Qed.

Lemma cut_ok n p now id sync frame :
  sy_StateSequence sync = sv_revision (pl_server p) ->
  plane_ok n p -> plane_ok n (cutStep now id sync frame p).
Proof.
  intros Hsync Hok. unfold cutStep, enqueueSync.
  destruct (sv_clients (pl_server p) !! id) as [c|] eqn:Ec; [|by destruct p].
  destruct (pushOrFail _ _ _ _ _ c) as [pushed c'] eqn:Epu.
  apply pushOrFail_spec in Epu as (Hs & Ht & Hf).
  destruct pushed; [|by eapply update_ok].
  pose proof Hok as [H1 H2 H3 H4 H5 H6 H7 H8 H9].
  set (s' := setClients (<[id := setSubscribed true c']> (sv_clients (pl_server p))) (pl_server p)).
  destruct (registerRecipient_same id s') as (E1 & E2 & E3 & E4 & E5).
  destruct Hs as (S1 & S2 & S3 & S4).
  assert (Hids : clients_ok s').
  { destruct H1 as [H1 H1']. split; simpl; [|done]. intros k d. rewrite lookup_insert. case_decide.
    - intros [= <-]. subst k. simpl. rewrite S1, S2. by apply H1.
    - by apply H1. }
  split; simpl; unfold logged, cutAt in *; simpl; rewrite ?E2, ?E3, ?E4; try done.
  - destruct Hids. split; rewrite ?E1, ?E3; done.
  - unfold lease_ok in *. rewrite E1, E5. destruct H2 as [?|(d & Hd & Ed)]; [by left|right].
    simpl. rewrite lookup_insert. case_decide as E; [|by exists d].
    eexists. split; [done|]. simpl. rewrite S2. congruence.
  - destruct H3 as [Hr Ho]. eapply registerRecipient_ok; [done|simpl; apply lookup_insert_eq|..].
    + intros k d. simpl. rewrite lookup_insert. case_decide; [done|]. intros Hd Hs _. by apply Hr.
    + intros inst m Hm. destruct (Ho inst m Hm) as [Hle Hi]. split; [done|]. intros d. simpl.
      rewrite lookup_insert. case_decide; [|by apply Hi]. intros [= <-]. subst m. simpl.
      rewrite S2. by apply Hi.
  - intros k Hk. simpl in Hk. split; [by apply H8|]. destruct (pl_cut p !! id); [by apply H8|].
    rewrite lookup_insert_ne; [by apply H8|]. destruct H1 as [H1 _]. apply H1 in Ec. lia.
  - intros k d. rewrite E1. simpl. rewrite lookup_insert. case_decide as E.
    + intros [= <-]. subst k. specialize (H9 id c Ec). unfold conn_ok in *. simpl. rewrite E2. simpl.
      destruct (cl_subscribed c).
      * destruct H9 as (r & Hr & Hb & Hp). exists r.
        destruct (pl_cut p !! id) as [old|] eqn:Eold; [|done]. rewrite Eold. split; [done|].
        split; [done|]. intros Hh. apply Hp. auto.
      * destruct H9 as (Hlog & Hcut & Hn). exists (sv_revision (pl_server p)).
        apply fmap_None in Hcut. rewrite Hcut, lookup_insert_eq. simpl. rewrite Hsync.
        split; [done|]. split; [lia|]. intros _.
        rewrite Hlog, (pendingSeqs_none _ _ Hn), Z.sub_diag. done.
    + intros Hd. specialize (H9 k d Hd). unfold conn_ok in *. rewrite E2. simpl.
      destruct (pl_cut p !! id); [done|]. by rewrite lookup_insert_ne.
Qed.

Lemma remove_ok n p id c :
  sv_clients (pl_server p) !! id = Some c -> plane_ok n p ->
  plane_ok n (withServer (removeClient id (pl_server p)) p).
Proof.
  intros Hc [H1 H2 H3 H4 H5 H6 H7 H8 H9]. set (s := pl_server p) in *.
  assert (Hid : cl_connectionID c = id) by by apply H1.
  unfold removeClient. rewrite Hc, Hid.
  set (s1 := setClients (delete id (sv_clients s)) s).
  set (s2 := if il_connectionID (sv_input s1) =? id then setInput noLease s1 else s1).
  assert (E : sv_clients s2 = delete id (sv_clients s) /\ sv_revision s2 = sv_revision s /\
    sv_nextConn s2 = sv_nextConn s /\ sv_identity s2 = sv_identity s /\
    sv_clipboardRecipients s2 = sv_clipboardRecipients s).
  { unfold s2. by destruct (_ =? _). }
  destruct E as (E1 & E2 & E3 & E4 & E5).
  assert (F : sv_clients (forgetRecipient (cl_instance c) s2) = delete id (sv_clients s) /\
    sv_revision (forgetRecipient (cl_instance c) s2) = sv_revision s /\
    sv_nextConn (forgetRecipient (cl_instance c) s2) = sv_nextConn s /\
    sv_identity (forgetRecipient (cl_instance c) s2) = sv_identity s /\
    sv_input (forgetRecipient (cl_instance c) s2) = sv_input s2).
  { unfold forgetRecipient. by destruct (existsb _ _). }
  destruct F as (F1 & F2 & F3 & F4 & F5).
  split; simpl; unfold logged, cutAt in *; rewrite ?F2, ?F3, ?F4; try done.
  - destruct H1 as [H1 H1']. split; rewrite ?F1, ?F3; [|done]. intros k d [_ Hd]%lookup_delete_Some. by apply H1.
  - unfold lease_ok. rewrite F1, F5. unfold s2, s1. simpl.
    destruct (_ =? id) eqn:El; [by left|]. bool_to_prop. simpl.
    destruct H2 as [?|(d & Hd & Ed)]; [by left|right]. exists d. by rewrite lookup_delete_ne.
  - destruct H3 as [Hr Ho]. split; cycle 1.
    { intros inst m. rewrite F3, F1. intros Hm. assert (Hm' : sv_clipboardRecipients s !! inst = Some m).
      { revert Hm. unfold forgetRecipient. destruct (existsb _ _); simpl; rewrite E5; [done|].
        by intros [_ ?]%lookup_delete_Some. }
      destruct (Ho inst m Hm') as [Hle Hi]. split; [done|].
      intros d [_ Hd]%lookup_delete_Some. by apply Hi. }
    intros k d. rewrite F1. intros [Hne Hd]%lookup_delete_Some Hsub.
    destruct (Hr k d Hd Hsub) as (m & Hm & Hle). unfold forgetRecipient.
    destruct (existsb _ _) eqn:Ee; [exists m; by rewrite E5|]. simpl. exists m. split; [|done].
    rewrite lookup_delete_ne; [by rewrite E5|]. intros Ei.
    apply not_true_iff_false in Ee. apply Ee, existsb_exists. exists d.
    rewrite E1, <- list_elem_of_In. split; [|by apply String.eqb_eq].
    apply list_elem_of_fmap. exists (k, d). split; [done|].
    apply elem_of_map_to_list. by rewrite lookup_delete_ne.
  - intros k d. rewrite F1. intros [_ Hd]%lookup_delete_Some. eapply conn_ok_rev; [exact F2|]. by apply H9.
Qed.

Lemma clip_ok n p now target b s' :
  plane_ok n p -> clipboardAdmit encodeEvent now target (pl_server p) = (b, s') ->
  plane_ok n (withServer s' p).
Proof.
  intros Hok. unfold clipboardAdmit. destruct target as [[[[id lease] recipient] epoch] event].
  destruct (_ <? _); [intros [= <- <-]; by destruct p|].
  destruct (sv_clients (pl_server p) !! id) as [c|] eqn:Ec; [|intros [= <- <-]; by destruct p].
  destruct (_ || _)%bool; [intros [= <- <-]; by destruct p|].
  destruct (pushOrFail _ _ _ _ _ c) as [q c'] eqn:Epu. intros [= <- <-].
  eapply update_ok; [done| |done]. by eapply pushOrFail_spec.
Qed.

Lemma withCaptures_ok n p captures : plane_ok n p -> plane_ok n (withCaptures captures p).
Proof. intros Hok. eapply frame_ok; [exact Hok|..]; try done. apply Hok. Qed.

Lemma updateClient_ok n p id f :
  (forall c, same_conn c (f c)) -> plane_ok n p -> plane_ok n (withServer (updateClient id f (pl_server p)) p).
Proof.
  intros Hf Hok. unfold updateClient.
  destruct (sv_clients (pl_server p) !! id) as [c|] eqn:Ec; [|by destruct p]. by eapply update_ok.
Qed.

Lemma enqueueSync_ok n p now id request state revision :
  revision = sv_revision (pl_server p) -> plane_ok n p ->
  plane_ok n (enqueueSyncLocked now id request state revision p).
Proof.
  intros Hr Hok. unfold enqueueSyncLocked. destruct (marshal state); [|done].
  destruct (marshalSync _); [|done]. destruct (responseLine _ _).
  - by apply cut_ok.
  - apply updateClient_ok; [|done]. intros c. apply fail_same.
Qed.

Lemma captureStep_ok n p now i p' : plane_ok n p -> captureStep now i p = Some p' -> plane_ok n p'.
Proof.
  intros Hok. unfold captureStep. destruct (pl_captures p !! i) as [k|]; [|done]. simpl.
  destruct (ca_phase k) as [a|a b|a b v| | |v| |].
  - intros [= <-]. case_match; by apply withCaptures_ok.
  - intros [= <-]. case_match; by apply withCaptures_ok.
  - intros [= <-]. destruct (_ =? b) eqn:E; simpl; [|by apply withCaptures_ok].
    bool_to_prop. apply enqueueSync_ok; [done|by apply withCaptures_ok].
  - case_match; [|done]. intros [= <-]. by apply withCaptures_ok.
  - intros [= <-]. case_match; by apply withCaptures_ok.
  - intros [= <-]. apply enqueueSync_ok; [done|by apply withCaptures_ok].
  - intros [= <-]. by apply withCaptures_ok.
  - intros [= <-]. apply (updateClient_ok n (withCaptures _ p)); [intros c0; by split_and!|by apply withCaptures_ok].
Qed.

Lemma planeStep_ok n p e p' :
  n + 1 < two64 -> plane_ok n p -> planeStep e p = Some p' -> plane_ok (n + 1) p'.
Proof.
  intros Hn Hok. assert (Hw : forall q, plane_ok n q -> plane_ok (n + 1) q).
  { intros q. apply plane_ok_mono. lia. }
  destruct e; simpl.
  - destruct (token =? "")%string eqn:Et; [done|]. bool_to_prop. intros [= <-]. by apply connect_ok.
  - destruct (sv_clients _ !! id) as [c|] eqn:Ec; [|done]. simpl.
    destruct (handle _ _ _ _ _ _ _ _) as [[[s' h'] bs] res] eqn:E. intros [= <-]. apply Hw.
    apply handle_server in E as (E1 & E2 & E3 & E4 & E5 & E6).
    eapply frame_ok; [exact Hok|..]; try done. simpl. unfold lease_ok. rewrite E1.
    destruct E6 as [-> | ->]; [apply Hok|]. right. exists c.
    pose proof (po_clients _ _ Hok) as [Hids _]. destruct (Hids _ _ Ec) as (-> & _). done.
  - destruct (existsb _ _); [done|].
    intros [= <-]. rewrite u64_small by (destruct (po_counts _ _ Hok); lia).
    by apply (start_ok n p false).
  - intros [= <-]. pose proof (start_ok n p true EventDaemonHeartbeat None _ eq_refl Hok) as Hs.
    by destruct (pl_server p).
  - intros E. apply Hw. by eapply lane_push_ok.
  - destruct (sv_clients _ !! id) as [c|]; [|done]. simpl. destruct (cl_subscribing c); [done|].
    intros [= <-]. apply Hw, (updateClient_ok n (withCaptures _ p)); [intros c0; by split_and!|by apply withCaptures_ok].
  - intros E. apply Hw. by eapply captureStep_ok.
  - destruct (clipboardTarget _ _ _); [|done]. intros [= <-]. apply Hw.
    eapply frame_ok; [exact Hok|..]; try done. apply Hok.
  - destruct (pl_clips p !! i) as [t|]; [|done]. simpl.
    destruct (clipboardAdmit _ _ _ _) as [b s'] eqn:E. intros [= <-].
    apply (clip_ok n) in E; [|done]. apply Hw. eapply frame_ok; [exact E|..]; try done. apply E.
  - intros [= <-]. apply Hw. unfold updateClient.
    destruct (sv_clients (pl_server p) !! id) as [c|] eqn:Ec; [|by destruct p].
    eapply update_ok; [done|apply fail_same|done].
  - destruct (sv_clients _ !! id) as [c|] eqn:Ec; [|done]. simpl.
    destruct (cf_once _); [|done]. intros [= <-]. apply Hw. by eapply remove_ok.
  - destruct (sv_clients _ !! id) as [c|] eqn:Ec; [|done]. simpl.
    destruct (popLocked _) as [pr data q| |]; try done. intros [= <-]. apply Hw.
    eapply update_ok; [done| |done]. by split_and!.
Qed.

Lemma initial_ok c ident h : plane_ok 0 (initialPlane c ident h).
Proof.
  split; simpl; try done; try (by intros ?? ?%elem_of_nil); try (by intros ? ?%elem_of_nil).
  - by left.
Qed.

Lemma planeRun_ok n p es p' :
  n + zlen es < two64 -> plane_ok n p -> planeRun es p = Some p' -> plane_ok (n + zlen es) p'.
Proof.
  revert n p. induction es as [|e es IH]; intros n p Hn Hok; simpl.
  { intros [= <-]. by rewrite zlen_nil, Z.add_0_r. }
  rewrite zlen_cons in *. pose proof (zlen_nonneg es).
  destruct (planeStep e p) as [p1|] eqn:E; [|done]. simpl. intros Er.
  apply (planeStep_ok n) in E; [|lia|done]. apply (IH (n + 1)) in Er; [|lia|done].
  by replace (n + (1 + zlen es)) with (n + 1 + zlen es) by lia.
Qed.

(** *** What a synchronisation response carries

    [R r v] is that the handler's snapshot was [v] in a state of the run whose
    revision was [r]. *)

Definition capture_ok (R : Z -> V -> Prop) (rev : Z) (k : capture V) : Prop :=
  match ca_phase k with
  | CapState _ before => before <= rev
  | CapCheck _ before v => exists r, R r v /\ before <= r <= rev
  | CapHeldCheck v => R rev v
  | _ => True
  end.

Record sync_ok (R : Z -> V -> Prop) (p : plane H V) : Prop := {
  sk_cuts : forall id sync, pl_cut p !! id = Some sync ->
    sy_DaemonEpoch sync = id_Token (sv_identity (pl_server p)) /\
    exists v, R (sy_StateSequence sync) v /\ marshal v = Ok (sy_State sync);
  sk_captures : Forall (capture_ok R (sv_revision (pl_server p))) (pl_captures p);
}.

Lemma sync_mono (R R' : Z -> V -> Prop) p : (forall r v, R r v -> R' r v) -> sync_ok R p -> sync_ok R' p.
Proof.
  intros HR [H1 H2]. split.
  - intros id sync (He & v & Hv & Hm)%H1. split; [done|]. exists v. auto.
  - eapply Forall_impl; [exact H2|]. intros k. unfold capture_ok. destruct (ca_phase k); try done; auto.
    intros (r & Hr & Hb). exists r. auto.
Qed.

Lemma sync_frame R p p' :
  sync_ok R p -> pl_cut p' = pl_cut p -> pl_captures p' = pl_captures p ->
  sv_identity (pl_server p') = sv_identity (pl_server p) ->
  sv_revision (pl_server p) <= sv_revision (pl_server p') ->
  (existsb holdsBarrier (pl_captures p) = true ->
     sv_revision (pl_server p') = sv_revision (pl_server p)) -> sync_ok R p'.
Proof.
  intros [H1 H2] E1 E2 E3 Hle Hb. split; rewrite ?E1, ?E2, ?E3; [done|].
  apply Forall_forall. intros k Hk. rewrite Forall_forall in H2. specialize (H2 k Hk).
  unfold capture_ok in *. destruct (ca_phase k) eqn:Ek; try done; [lia| |].
  - destruct H2 as (r & Hr & ?). exists r. split; [done|lia].
  - rewrite Hb; [done|]. apply existsb_exists. exists k. split; [by apply list_elem_of_In|].
    unfold holdsBarrier. by rewrite Ek.
Qed.

Lemma sync_withServer R p s :
  sync_ok R p -> sv_identity s = sv_identity (pl_server p) -> sv_revision s = sv_revision (pl_server p) ->
  sync_ok R (withServer s p).
Proof. intros Hk E1 E2. eapply sync_frame; simpl; try done. by rewrite E2. Qed.

Lemma sync_captures R p captures :
  sync_ok R p -> Forall (capture_ok R (sv_revision (pl_server p))) captures ->
  sync_ok R (withCaptures captures p).
Proof. intros [H1 H2] Hc. by split. Qed.

Lemma sync_go R p i k :
  sync_ok R p -> capture_ok R (sv_revision (pl_server p)) k ->
  sync_ok R (withCaptures (<[i := k]> (pl_captures p)) p).
Proof. intros Hk Hc. apply sync_captures; [done|]. apply Forall_insert; [apply Hk|done]. Qed.

Lemma updateClient_same id f s :
  sv_identity (updateClient id f s) = sv_identity s /\ sv_revision (updateClient id f s) = sv_revision s.
Proof. unfold updateClient. by case_match. Qed.

Lemma enqueueSync_same now id frame s b s' :
  enqueueSync now id frame s = (b, s') -> sv_identity s' = sv_identity s /\ sv_revision s' = sv_revision s.
Proof.
  unfold enqueueSync. case_match; [|by intros [= <- <-]]. destruct (pushOrFail _ _ _ _ _ _) as [[] c'].
  - intros [= <- <-]. edestruct registerRecipient_same as (_ & -> & _ & -> & _). done.
  - by intros [= <- <-].
Qed.

Lemma sync_enqueue R p now id request v revision :
  sync_ok R p -> R revision v -> sync_ok R (enqueueSyncLocked now id request v revision p).
Proof.
  intros Hk Hr. unfold enqueueSyncLocked. destruct (marshal v) as [data|] eqn:Em; [|done].
  destruct (marshalSync _); [|done]. destruct (responseLine _ _) as [frame|e].
  - unfold cutStep. destruct (enqueueSync now id frame (pl_server p)) as [b s'] eqn:E.
    apply enqueueSync_same in E as [E1 E2]. destruct b; [|by apply sync_withServer].
    destruct Hk as [H1 H2]. split; simpl; [|by rewrite E2]. rewrite E1.
    destruct (pl_cut p !! id); [done|]. intros k sync. rewrite lookup_insert. case_decide; [|apply H1].
    intros [= <-]. split; [done|]. by exists v.
  - apply sync_withServer; [done|apply updateClient_same..].
Qed.

Lemma capture_sync R p now i p' :
  sync_ok R p -> (forall v, synchronizationSnapshot (pl_handler p) = Ok v -> R (sv_revision (pl_server p)) v) ->
  captureStep now i p = Some p' -> sync_ok R p'.
Proof.
  intros Hk Hsnap. unfold captureStep. destruct (pl_captures p !! i) as [k|] eqn:Ek; [|done]. simpl.
  pose proof (proj1 (Forall_lookup _ _) (sk_captures _ _ Hk) i k Ek) as Hc. unfold capture_ok in Hc.
  destruct (ca_phase k) as [a|a b|a b v| | |v| |].
  - intros [= <-]. case_match; apply sync_go; simpl; try done. unfold capture_ok. simpl. lia.
  - intros [= <-]. destruct (synchronizationSnapshot _) as [v|] eqn:Es; apply sync_go; try done.
    exists (sv_revision (pl_server p)). split; [by apply Hsnap|lia].
  - intros [= <-]. destruct (_ =? b) eqn:E; simpl; [|by apply sync_go].
    destruct Hc as (r & Hr & Hb). bool_to_prop. apply sync_enqueue; [by apply sync_go|].
    by replace b with r by lia.
  - case_match; [|done]. intros [= <-]. by apply sync_go.
  - intros [= <-]. destruct (synchronizationSnapshot _) as [v|] eqn:Es; apply sync_go; try done.
    by apply Hsnap.
  - intros [= <-]. apply sync_enqueue; [by apply sync_go|done].
  - intros [= <-]. by apply sync_go.
  - intros [= <-]. apply (sync_withServer R (withCaptures _ p)); [|apply updateClient_same..].
    apply sync_captures; [done|]. rewrite delete_take_drop.
    apply Forall_app. split; [apply Forall_take|apply Forall_drop]; apply Hk.
Qed.

Lemma planeStep_sync R n p e p' :
  n + 1 < two64 -> plane_ok n p -> sync_ok R p ->
  (forall v, synchronizationSnapshot (pl_handler p) = Ok v -> R (sv_revision (pl_server p)) v) ->
  planeStep e p = Some p' -> sync_ok R p'.
Proof.
  intros Hn Hok Hk Hsnap. pose proof (po_counts _ _ Hok) as [Hrev _].
  destruct e; simpl.
  - destruct (_ =? _)%string; [done|]. intros [= <-]. by apply sync_withServer.
  - destruct (sv_clients _ !! id) as [c|]; [|done]. simpl.
    destruct (handle _ _ _ _ _ _ _ _) as [[[s' h'] bs] res] eqn:E. intros [= <-].
    apply handle_server in E as (_ & _ & E3 & _ & E5 & _).
    eapply sync_frame; simpl; try done. by rewrite E3.
  - destruct (existsb _ _) eqn:Eb; [done|]. intros [= <-]. rewrite u64_small by lia.
    eapply sync_frame; simpl; try done; [lia|congruence].
  - intros [= <-]. by eapply sync_frame.
  - unfold pushStep. destruct (pl_pubs p !! i) as [pub|]; [|done]. simpl.
    destruct (pb_targets pub); [intros [= <-]; by eapply sync_frame|].
    case_match; [|intros [= <-]; by eapply sync_frame].
    destruct (pushOrFail _ _ _ _ _ _). intros [= <-]. by eapply sync_frame.
  - destruct (sv_clients _ !! id) as [c|]; [|done]. simpl. destruct (cl_subscribing c); [done|].
    intros [= <-]. apply (sync_withServer R (withCaptures _ p)); [|apply updateClient_same..].
    apply sync_captures; [done|]. apply Forall_app. split; [apply Hk|]. by repeat constructor.
  - by apply capture_sync.
  - destruct (clipboardTarget _ _ _); [|done]. intros [= <-]. by eapply sync_frame.
  - destruct (pl_clips p !! i) as [t|]; [|done]. simpl.
    destruct (clipboardAdmit _ _ _ _) as [b s'] eqn:E. intros [= <-]. revert E.
    unfold clipboardAdmit. destruct t as [[[[id lease] recipient] epoch'] event].
    repeat case_match; intros [= <- <-]; by eapply sync_frame.
  - intros [= <-]. apply sync_withServer; [done|apply updateClient_same..].
  - destruct (sv_clients _ !! id) as [c|] eqn:Ec; [|done]. simpl. case_match; [|done]. intros [= <-].
    apply sync_withServer; [done|..]; unfold removeClient, forgetRecipient; rewrite Ec;
      by repeat case_match.
  - destruct (sv_clients _ !! id) as [c|]; [|done]. simpl.
    destruct (popLocked _) as [pr data q| |]; try done. intros [= <-]. by apply sync_withServer.
Qed.

Lemma initial_sync R c ident h : sync_ok R (initialPlane c ident h).
Proof. split; simpl; [intros id sync; by rewrite lookup_empty|constructor]. Qed.

Lemma planeRun_snoc es e p :
  planeRun (es ++ [e]) p = (q ← planeRun es p; planeStep e q).
Proof.
  revert p. induction es as [|x es IH]; intros p; simpl; [by destruct (planeStep e p)|].
  destruct (planeStep x p); simpl; [apply IH|done].
Qed.

(** The handler's snapshot was [v] at revision [r] after some prefix of the run. *)
Definition snapshotAt (p0 : plane H V) (es : list planeEvent) (r : Z) (v : V) : Prop :=
  exists es1 p1, es1 `prefix_of` es /\ planeRun es1 p0 = Some p1 /\ sv_revision (pl_server p1) = r /\
    synchronizationSnapshot (pl_handler p1) = Ok v.

Lemma planeRun_sync p0 es p :
  zlen es < two64 -> plane_ok 0 p0 -> sync_ok (snapshotAt p0 []) p0 -> planeRun es p0 = Some p ->
  sync_ok (snapshotAt p0 es) p.
Proof.
  revert p. induction es as [|e es IH] using rev_ind; intros p Hn Hok Hk.
  { by intros [= <-]. }
  rewrite planeRun_snoc. destruct (planeRun es p0) as [q|] eqn:E; [|done]. simpl. intros Es.
  unfold zlen in Hn. rewrite length_app in Hn. simpl in Hn.
  assert (zlen es + 1 < two64) as Hn' by (unfold zlen; lia).
  specialize (IH q ltac:(lia) Hok Hk eq_refl).
  apply (sync_mono (snapshotAt p0 es)).
  { intros r v (es1 & p1 & Hp & Hrest). exists es1, p1. split; [by apply prefix_app_r|done]. }
  eapply planeStep_sync; [|exact (planeRun_ok 0 p0 es q ltac:(lia) Hok E)|exact IH| |exact Es]; [lia|].
  intros v Hv. by exists es, q.
Qed.

(** *** Serial publication *)

Definition realEvents (log : list (bool * Event)) : list Event :=
  map snd (List.filter (fun be => negb (fst be)) log).

(** The client follows the log: it delivers the events of broadcasts, all of
    them, in order, and stands at [seq]. *)
Definition tracks (epoch : string) (r : Z) (log : list (bool * Event)) (seq : Z) : Prop :=
  supervise epoch r (map snd log) = (realEvents log, inl seq).

Definition stops (name : string) : bool :=
  (name =? EventDaemonShutdown)%string || (name =? EventDaemonUpdateCommitted)%string.

Record serial_inv (epoch : string) (p : plane H V) : Prop := {
  si_epoch : id_Token (sv_identity (pl_server p)) = epoch;
  si_single : (length (pl_pubs p) <= 1)%nat;
  si_pubs : forall pub, pub ∈ pl_pubs p ->
    ev_StateSequence (pb_event pub) = sv_revision (pl_server p) /\
    ev_DaemonEpoch (pb_event pub) = epoch /\
    if pb_heartbeat pub then ev_Event (pb_event pub) = EventDaemonHeartbeat
    else stops (ev_Event (pb_event pub)) = false;
  si_tracks : forall id c r, sv_clients (pl_server p) !! id = Some c -> healthy c ->
    cutAt p id = Some r ->
    exists seq, tracks epoch r (logged p id) seq /\ 0 <= seq /\
      seq + zlen (pendingSeqs (pl_pubs p) id) = sv_revision (pl_server p);
}.

Lemma supervise_snoc epoch r l e out seq :
  supervise epoch r l = (out, inl seq) ->
  supervise epoch r (l ++ [e]) =
    match superviseEvent epoch seq e with
    | VDeliver seq' => (out ++ [e], inl seq')
    | VPrivate => (out ++ [e], inl seq)
    | VSkip => (out, inl seq)
    | VDeliverStop _ err => (out ++ [e], inr err)
    | VBreak err => (out, inr err)
    end.
Proof.
  revert r out. induction l as [|x l IH]; intros r out E; simpl in *.
  { injection E as <- <-. by destruct (superviseEvent epoch r e). }
  destruct (superviseEvent epoch r x) as [s'| | |s' err|err]; try done.
  - destruct (supervise epoch s' l) as [o q] eqn:E1. injection E as <- ->.
    rewrite (IH _ _ E1). by destruct (superviseEvent epoch seq e).
  - destruct (supervise epoch r l) as [o q] eqn:E1. injection E as <- ->.
    rewrite (IH _ _ E1). by destruct (superviseEvent epoch seq e).
  - by rewrite (IH _ _ E).
Qed.

Lemma tracks_real epoch r log seq e :
  tracks epoch r log seq -> ev_DaemonEpoch e = epoch -> ev_StateSequence e = seq + 1 ->
  stops (ev_Event e) = false -> 0 <= seq -> seq + 1 < two64 ->
  tracks epoch r (log ++ [(false, e)]) (seq + 1).
Proof.
  unfold tracks. intros Ht He Es Hst H0 Hb. rewrite map_app. simpl.
  rewrite (supervise_snoc _ _ _ _ _ _ Ht). unfold superviseEvent.
  rewrite He, String.eqb_refl, Es. simpl.
  rewrite (proj2 (Z.eqb_neq (seq + 1) 0)) by lia. rewrite andb_false_r.
  rewrite (proj2 (Z.leb_gt (seq + 1) seq)) by lia. rewrite u64_small by lia.
  rewrite Z.eqb_refl. simpl. unfold stops in Hst. rewrite Hst.
  unfold realEvents. by rewrite List.filter_app, map_app.
Qed.

Lemma tracks_heartbeat epoch r log seq e :
  tracks epoch r log seq -> ev_DaemonEpoch e = epoch -> ev_StateSequence e = seq ->
  ev_Event e = EventDaemonHeartbeat -> tracks epoch r (log ++ [(true, e)]) seq.
Proof.
  unfold tracks. intros Ht He Es Hn. rewrite map_app. simpl.
  rewrite (supervise_snoc _ _ _ _ _ _ Ht). unfold superviseEvent.
  rewrite He, String.eqb_refl, Es, Hn. simpl. rewrite Z.leb_refl.
  unfold realEvents. by rewrite List.filter_app, map_app, app_nil_r.
Qed.

(** Steps that leave logs, cuts, publishers and the revision alone. *)
Lemma serial_frame epoch p p' :
  serial_inv epoch p ->
  (forall id c', sv_clients (pl_server p') !! id = Some c' -> healthy c' ->
     exists c, sv_clients (pl_server p) !! id = Some c /\ healthy c) ->
  pl_log p' = pl_log p -> pl_cut p' = pl_cut p -> pl_pubs p' = pl_pubs p ->
  sv_revision (pl_server p') = sv_revision (pl_server p) ->
  sv_identity (pl_server p') = sv_identity (pl_server p) ->
  serial_inv epoch p'.
Proof.
  intros [H1 H2 H3 H4] Hc E1 E2 E3 E4 E5.
  split; unfold logged, cutAt in *; rewrite ?E1, ?E2, ?E3, ?E4, ?E5; try done.
  intros id c' r Hc' Hh Hr. destruct (Hc id c' Hc' Hh) as (c & Hcc & Hhc). by eapply H4.
Qed.

Lemma healthy_same c c' : same_conn c c' -> healthy c' -> healthy c.
Proof. intros (_ & _ & E3 & E4) [Hs Hf]. split; [congruence|auto]. Qed.

Lemma update_frame id s c c' :
  sv_clients s !! id = Some c -> same_conn c c' ->
  forall k d', sv_clients (setClients (<[id := c']> (sv_clients s)) s) !! k = Some d' -> healthy d' ->
    exists d, sv_clients s !! k = Some d /\ healthy d.
Proof.
  intros Hc Hs k d'. simpl. rewrite lookup_insert. case_decide; [|by eauto].
  intros [= <-] Hh. subst k. exists c. split; [done|by eapply healthy_same].
Qed.

Lemma serial_start n epoch p hb name payload :
  plane_ok n p -> serial_inv epoch p -> pl_pubs p = [] ->
  (if hb : bool then name = EventDaemonHeartbeat else stops name = false) ->
  let s := pl_server p in
  let rev := if hb then sv_revision s else sv_revision s + 1 in
  serial_inv epoch
    (Plane (Srv (sv_cfg s) (sv_identity s) (sv_clients s) (sv_input s) (sv_clipboardRecipients s)
              rev (sv_nextConn s) (sv_accepting s) (sv_stopping s))
       (pl_handler p) (pl_pubs p ++ [Pub hb (Ev name payload (id_Token (sv_identity s)) rev)
                                       (subscribers s)])
       (pl_captures p) (pl_clips p) (pl_log p) (pl_cut p)).
Proof.
  intros Hok [H1 H2 H3 H4] Hp Hname s rev. subst s rev. rewrite Hp in *. simpl app.
  split; simpl; try done.
  - intros pub ->%list_elem_of_singleton. simpl. by split_and!.
  - intros id c r Hc Hh Hr. destruct (H4 id c r Hc Hh Hr) as (seq & Ht & H0 & Hs).
    exists seq. split; [done|]. split; [done|]. unfold pendingSeqs in *. simpl in *.
    rewrite bool_decide_eq_true_2 by (apply subscribers_spec; exists c; by destruct Hh).
    rewrite zlen_nil in Hs. destruct hb; simpl; unfold zlen; simpl; lia.
Qed.

Lemma serial_push n epoch p now i p' :
  n < two64 -> plane_ok n p -> serial_inv epoch p -> pushStep now i p = Some p' ->
  serial_inv epoch p'.
Proof.
  intros Hn Hok [H1 H2 H3 H4]. unfold pushStep.
  destruct (pl_pubs p !! i) as [pub|] eqn:Ei; [|done]. simpl.
  assert (Hp : pl_pubs p = [pub] /\ i = O).
  { pose proof (lookup_lt_Some _ _ _ Ei) as Hlt. destruct (pl_pubs p) as [|q [|q' l]]; simpl in *;
      [lia| |lia]. destruct i; [|lia]. simpl in Ei. by injection Ei as ->. }
  destruct Hp as [Hp ->]. rewrite Hp in *. specialize (H3 pub ltac:(left)) as (Hseq & Hep & Hkind).
  pose proof (po_nodup _ _ Hok pub ltac:(rewrite Hp; left)) as Hnd.
  pose proof (po_counts _ _ Hok) as [Hrev _].
  destruct (pb_targets pub) as [|id rest] eqn:Et.
  { intros [= <-]. simpl. split; simpl; [done|lia|by intros ? ?%elem_of_nil|].
    intros k c r Hc Hh Hr. destruct (H4 k c r Hc Hh Hr) as (seq & Ht & H0 & Hs). exists seq.
    split; [done|]. split; [done|]. unfold pendingSeqs in Hs. simpl in Hs. rewrite Et in Hs.
    by rewrite orb_true_r in Hs. }
  apply NoDup_cons in Hnd as [Hnin _]. simpl.
  set (pub' := Pub (pb_heartbeat pub) (pb_event pub) rest).
  assert (Hother : forall k, k <> id -> pendingSeqs [pub'] k = pendingSeqs [pub] k).
  { intros k Hne. unfold pendingSeqs. simpl. rewrite Et.
    by rewrite (bool_decide_ext (k ∈ id :: rest) (k ∈ rest)) by (rewrite elem_of_cons; tauto). }
  assert (Hpub' : forall q, q ∈ [pub'] -> ev_StateSequence (pb_event q) = sv_revision (pl_server p) /\
    ev_DaemonEpoch (pb_event q) = epoch /\
    if pb_heartbeat q then ev_Event (pb_event q) = EventDaemonHeartbeat
    else stops (ev_Event (pb_event q)) = false) by by intros q ->%list_elem_of_singleton.
  destruct (sv_clients (pl_server p) !! id) as [c|] eqn:Ec.
  2:{ intros [= <-]. split; simpl; try done. intros k d r Hd Hh Hr.
      destruct (H4 k d r Hd Hh Hr) as (seq & ?). rewrite <- (Hother k) in * by congruence.
      by exists seq. }
  destruct (pushOrFail _ _ _ _ _ c) as [pushed c'] eqn:Epu.
  apply pushOrFail_spec in Epu as (Hs & Ht & Hf). intros [= <-].
  split; simpl; fold pub'; try done. intros k d' r. rewrite lookup_insert. case_decide as Ek.
  - intros [= <-] Hh Hr. subst k. destruct pushed; [|destruct Hh as [_ Hh]; rewrite Hf in Hh; done].
    destruct (H4 id c r Ec (healthy_same _ _ Hs Hh) Hr) as (seq & Htr & H0 & Hsum).
    assert (E : pendingSeqs [pub'] id = []).
    { apply pendingSeqs_none. by intros q ->%list_elem_of_singleton. }
    exists (sv_revision (pl_server p)). split; [|split; [lia|]]; cycle 1.
    { change (sv_revision (pl_server p) + zlen (pendingSeqs [pub'] id) = sv_revision (pl_server p)).
      by rewrite E, zlen_nil, Z.add_0_r. }
    unfold logged. simpl. rewrite lookup_insert_eq. simpl.
    unfold pendingSeqs in Hsum. simpl in Hsum. rewrite Et in Hsum.
    rewrite bool_decide_eq_true_2 in Hsum by left.
    destruct (pb_heartbeat pub); simpl in Hsum.
    + rewrite zlen_nil in Hsum. replace (sv_revision (pl_server p)) with seq by lia.
      apply tracks_heartbeat; try done; lia.
    + unfold zlen in Hsum. simpl in Hsum.
      replace (sv_revision (pl_server p)) with (seq + 1) by lia.
      apply tracks_real; try done; lia.
  - intros Hd Hh Hr. destruct (H4 k d' r Hd Hh Hr) as (seq & Htr & Hsum).
    rewrite <- (Hother k) in Hsum by done. exists seq. split; [|done]. unfold logged in *. simpl. destruct pushed; [|done].
    by rewrite lookup_insert_ne.
Qed.

Lemma serial_cut n epoch p now id sync frame :
  sy_StateSequence sync = sv_revision (pl_server p) ->
  plane_ok n p -> serial_inv epoch p -> serial_inv epoch (cutStep now id sync frame p).
Proof.
  intros Hsync Hok Hsi. unfold cutStep, enqueueSync.
  destruct (sv_clients (pl_server p) !! id) as [c|] eqn:Ec; [|by destruct p].
  destruct (pushOrFail _ _ _ _ _ c) as [pushed c'] eqn:Epu.
  apply pushOrFail_spec in Epu as (Hs & Ht & Hf).
  destruct pushed; [|eapply serial_frame; [done|by eapply update_frame|done..]].
  set (s' := setClients (<[id := setSubscribed true c']> (sv_clients (pl_server p))) (pl_server p)).
  destruct (registerRecipient_same id s') as (E1 & E2 & E3 & E4 & E5).
  pose proof (po_conns _ _ Hok id c Ec) as Hconn. unfold conn_ok in Hconn.
  destruct Hsi as [H1 H2 H3 H4]. split; simpl; unfold logged, cutAt in *; simpl; rewrite ?E1, ?E2, ?E4; try done.
  intros k d r. simpl. rewrite lookup_insert. case_decide as Ek.
  - intros [= <-] [_ Hh] Hr. subst k. destruct Hs as (_ & _ & _ & S4). specialize (S4 Hh).
    destruct (cl_subscribed c) eqn:Esub.
    + destruct Hconn as (r' & Hr' & _). apply (H4 id c r Ec); [by split|].
      destruct (pl_cut p !! id) eqn:Eq; [|done]. by rewrite Eq in Hr.
    + destruct Hconn as (Hlog & Hcut & Hn). apply fmap_None in Hcut.
      rewrite Hcut, lookup_insert_eq in Hr. simpl in Hr. rewrite Hsync in Hr. injection Hr as <-. exists (sv_revision (pl_server p)). rewrite Hlog.
      split; [done|]. split; [destruct (po_counts _ _ Hok); lia|].
      rewrite (pendingSeqs_none _ _ Hn), zlen_nil. lia.
  - intros Hd Hh Hr. apply (H4 k d r Hd Hh).
    destruct (pl_cut p !! id); [done|]. by rewrite lookup_insert_ne in Hr.
Qed.

Lemma serial_captures epoch p captures : serial_inv epoch p -> serial_inv epoch (withCaptures captures p).
Proof. intros Hsi. eapply serial_frame; eauto. Qed.

Lemma serial_update epoch p id f :
  (forall c, same_conn c (f c)) -> serial_inv epoch p ->
  serial_inv epoch (withServer (updateClient id f (pl_server p)) p).
Proof.
  intros Hf Hsi. unfold updateClient.
  destruct (sv_clients (pl_server p) !! id) as [c|] eqn:Ec; [|by destruct p].
  eapply serial_frame; [done|by eapply update_frame|done..].
Qed.

Lemma serial_enqueue n epoch p now id request state revision :
  revision = sv_revision (pl_server p) -> plane_ok n p -> serial_inv epoch p ->
  serial_inv epoch (enqueueSyncLocked now id request state revision p).
Proof.
  intros Hr Hok Hsi. unfold enqueueSyncLocked. destruct (marshal state); [|done].
  destruct (marshalSync _); [|done]. destruct (responseLine _ _).
  - by eapply serial_cut.
  - apply serial_update; [|done]. intros c. apply fail_same.
Qed.

Lemma serial_capture n epoch p now i p' :
  plane_ok n p -> serial_inv epoch p -> captureStep now i p = Some p' -> serial_inv epoch p'.
Proof.
  intros Hok Hsi. unfold captureStep. destruct (pl_captures p !! i) as [k|]; [|done]. simpl.
  destruct (ca_phase k) as [a|a b|a b v| | |v| |].
  - intros [= <-]. case_match; by apply serial_captures.
  - intros [= <-]. case_match; by apply serial_captures.
  - intros [= <-]. destruct (_ =? b) eqn:E; simpl; [|by apply serial_captures].
    bool_to_prop. eapply serial_enqueue; [done|by apply withCaptures_ok|by apply serial_captures].
  - case_match; [|done]. intros [= <-]. by apply serial_captures.
  - intros [= <-]. case_match; by apply serial_captures.
  - intros [= <-]. eapply serial_enqueue; [done|by apply withCaptures_ok|by apply serial_captures].
  - intros [= <-]. by apply serial_captures.
  - intros [= <-]. apply (serial_update epoch (withCaptures _ p)); [intros c0; by split_and!|].
    by apply serial_captures.
Qed.

Definition quiet (e : planeEvent) : Prop :=
  match e with PBroadcast name _ => stops name = false | _ => True end.

Lemma serialStep_ok n epoch p e p' :
  n + 1 < two64 -> plane_ok n p -> serial_inv epoch p -> quiet e ->
  (startsPublisher e = true -> pl_pubs p = []) ->
  planeStep e p = Some p' -> serial_inv epoch p'.
Proof.
  intros Hn Hok Hsi Hq Hstart.
  assert (Hcounts := po_counts _ _ Hok).
  destruct e; simpl in *.
  - destruct (token =? "")%string; [done|]. intros [= <-].
    eapply serial_frame; [done|..]; try done. unfold admission. simpl. intros k d.
    rewrite lookup_insert. case_decide; [|by eauto]. by intros [= <-] [? _].
  - destruct (sv_clients _ !! id) as [c|] eqn:Ec; [|done]. simpl.
    destruct (handle _ _ _ _ _ _ _ _) as [[[s' h'] bs] res] eqn:E. intros [= <-].
    apply handle_server in E as (E1 & E2 & E3 & E4 & E5 & E6).
    eapply serial_frame; [done|..]; try done. simpl. rewrite E1. eauto.
  - destruct (existsb _ _); [done|]. intros [= <-]. rewrite u64_small by lia.
    apply (serial_start n epoch p false); auto.
  - intros [= <-]. pose proof (serial_start n epoch p true EventDaemonHeartbeat None Hok Hsi
      (Hstart eq_refl) eq_refl) as Hs. by destruct (pl_server p).
  - intros E. eapply serial_push; [|done..]. lia.
  - destruct (sv_clients _ !! id) as [c|]; [|done]. simpl. destruct (cl_subscribing c); [done|].
    intros [= <-]. apply (serial_update epoch (withCaptures _ p)); [intros c0; by split_and!|].
    by apply serial_captures.
  - intros E. by eapply serial_capture.
  - destruct (clipboardTarget _ _ _); [|done]. intros [= <-]. eapply serial_frame; eauto.
  - destruct (pl_clips p !! i) as [t|]; [|done]. simpl.
    destruct (clipboardAdmit _ _ _ _) as [b s'] eqn:E. intros [= <-]. revert E.
    unfold clipboardAdmit. destruct t as [[[[id lease] recipient] epoch'] event].
    destruct (_ <? _); [intros [= <- <-]; eapply serial_frame; eauto|].
    destruct (sv_clients (pl_server p) !! id) as [c|] eqn:Ec;
      [|intros [= <- <-]; eapply serial_frame; eauto].
    destruct (_ || _)%bool; [intros [= <- <-]; eapply serial_frame; eauto|].
    destruct (pushOrFail _ _ _ _ _ c) as [q c'] eqn:Epu. intros [= <- <-].
    apply pushOrFail_spec in Epu as (Hs & _). eapply serial_frame; [done|by eapply update_frame|done..].
  - intros [= <-]. unfold updateClient.
    destruct (sv_clients (pl_server p) !! id) as [c|] eqn:Ec; [|by destruct p].
    eapply serial_frame; [done|eapply update_frame; [done|apply fail_same]|done..].
  - destruct (sv_clients _ !! id) as [c|] eqn:Ec; [|done]. simpl.
    destruct (cf_once _); [|done]. intros [= <-]. unfold removeClient. rewrite Ec.
    set (s1 := setClients _ _). set (s2 := if il_connectionID (sv_input s1) =? _ then setInput noLease s1 else s1).
    assert (E2 : sv_clients s2 = delete id (sv_clients (pl_server p)) /\
      sv_revision s2 = sv_revision (pl_server p) /\ sv_identity s2 = sv_identity (pl_server p)).
    { unfold s2. by destruct (_ =? _). }
    destruct E2 as (E1 & E2 & E3). unfold forgetRecipient.
    eapply serial_frame; [done|..]; try done; destruct (existsb _ _); simpl; rewrite ?E1; try done;
      intros k d [_ Hd]%lookup_delete_Some; eauto.
  - destruct (sv_clients _ !! id) as [c|] eqn:Ec; [|done]. simpl.
    destruct (popLocked _) as [pr data q| |]; try done. intros [= <-].
    eapply serial_frame; [done|eapply update_frame; [done|by split_and!]|done..].
Qed.

Lemma serialRun_ok n epoch p es p' :
  n + zlen es < two64 -> plane_ok n p -> serial_inv epoch p -> Forall quiet es ->
  serialRun es p = Some p' -> plane_ok (n + zlen es) p' /\ serial_inv epoch p'.
Proof.
  revert n p. induction es as [|e es IH]; intros n p Hn Hok Hsi Hq; simpl.
  { intros [= <-]. by rewrite zlen_nil, Z.add_0_r. }
  rewrite zlen_cons in *. pose proof (zlen_nonneg es). apply Forall_cons in Hq as [Hqe Hq].
  destruct (_ && _)%bool eqn:Eg; [done|].
  destruct (planeStep e p) as [p1|] eqn:E; [|done]. simpl. intros Er.
  assert (Hstart : startsPublisher e = true -> pl_pubs p = []).
  { intros Hs. rewrite Hs in Eg. simpl in Eg. apply negb_false_iff, Nat.eqb_eq in Eg.
    by apply length_zero_iff_nil in Eg. }
  pose proof (serialStep_ok n epoch p e p1 ltac:(lia) Hok Hsi Hqe Hstart E) as Hsi1.
  apply (planeStep_ok n) in E; [|lia|done].
  replace (n + (1 + zlen es)) with (n + 1 + zlen es) by lia. by apply (IH (n + 1) p1); [lia|..].
Qed.

Lemma initial_serial c ident h : serial_inv (id_Token ident) (initialPlane c ident h).
Proof. split; simpl; try done; [lia|by intros ? ?%elem_of_nil]. Qed.
End Plane.

(** ** Concrete runs

    A handler that answers every method with its parameters, and codecs that
    keep the sequence number. *)

#[export] Instance echoHandler : Handler Z bytes := {
  Handle := fun _ _ params h => (h + 1, Ok params);
  HandlerSnapshot := fun h => Ok [h];
  SynchronizationHandler := None;
  OverviewHandler := None;
  TerminalCount := fun h => h;
}.

Definition sampleConfig : Config := Conf "v" 0 0 0 0 0 0 4 4096 0.
Definition sampleIdentity : Identity := Ident "epoch" "v" ProtocolVersion 1 1.
Definition sampleHello (want : bool) : HelloParams := Hello "v" ProtocolVersion want "tui" 1.

Definition samplePlane : plane Z bytes := initialPlane sampleConfig sampleIdentity 0.

Definition sampleSync (sync : SyncSnapshot) : result bytes :=
  Ok (sy_StateSequence sync :: sy_State sync).
Definition sampleLine (request : Z) (body : bytes) : result bytes := Ok (request :: body).

Definition sampleStep : list planeEvent -> plane Z bytes -> option (plane Z bytes) :=
  planeRun (fun v => Ok v) (fun e => [ev_StateSequence e]) (fun _ => []) (fun _ => None)
    sampleSync sampleLine.

Definition sampleSerial : list planeEvent -> plane Z bytes -> option (plane Z bytes) :=
  serialRun (fun v => Ok v) (fun e => [ev_StateSequence e]) (fun _ => []) (fun _ => None)
    sampleSync sampleLine.

Definition subscribed_events : list planeEvent :=
  [PConnect (sampleHello true) "t1"; PSubscribe 1 7; PCapture 1 0; PCapture 1 0; PCapture 1 0; PCapture 1 0].

(** What the client of connection 1 sees of a run. *)
Definition seen (es : list planeEvent) : option (list (string * Z) * (Z + go_error)) :=
  p ← sampleStep (subscribed_events ++ es) samplePlane;
  r ← cutAt p 1;
  let '(out, res) := supervise "epoch" r (map snd (logged p 1)) in
  Some (map (fun e => (ev_Event e, ev_StateSequence e)) out, res).

(** ** Properties *)

(** C12: The synchronisation cut is complete, under every interleaving.  A live
    subscribed connection was queued a synchronisation response under the epoch
    of the daemon.  It carries a revision [r] and the encoding of a snapshot the
    handler gave when the server's revision was [r]; and the events pushed to the
    connection together with those publishers still owe it are exactly the
    events [r + 1, ..., revision], each once.  No published event is lost or
    duplicated between the snapshot and the event stream. *)
Theorem cut_complete {H V} `{!Handler H V} marshal encodeEvent revoked stopEpoch marshalSync
    responseLine cfg ident (h : H) es p id c :
  planeRun marshal encodeEvent revoked stopEpoch marshalSync responseLine es (initialPlane cfg ident h) =
    Some p ->
  zlen es < two64 -> sv_clients (pl_server p) !! id = Some c -> healthy c ->
  exists sync, pl_cut p !! id = Some sync /\
    let r := sy_StateSequence sync in
    sy_DaemonEpoch sync = id_Token (sv_identity (pl_server p)) /\ r <= sv_revision (pl_server p) /\
    (exists es1 p1 v, es1 `prefix_of` es /\
       planeRun marshal encodeEvent revoked stopEpoch marshalSync responseLine es1
         (initialPlane cfg ident h) = Some p1 /\
       sv_revision (pl_server p1) = r /\ synchronizationSnapshot (pl_handler p1) = Ok v /\
       marshal v = Ok (sy_State sync)) /\
    pushedSeqs (logged p id) ++ pendingSeqs (pl_pubs p) id ≡ₚ
      seqZ (r + 1) (sv_revision (pl_server p) - r).
Proof.
  intros E Hn Hc [Hs Hf].
  pose proof (planeRun_sync marshal encodeEvent revoked stopEpoch marshalSync responseLine
    (initialPlane cfg ident h) es p Hn (initial_ok cfg ident h) (initial_sync marshal _ cfg ident h) E) as Hk.
  apply (planeRun_ok marshal encodeEvent revoked stopEpoch marshalSync responseLine 0) in E;
    [|lia|apply initial_ok].
  pose proof (po_conns _ _ E id c Hc) as Hconn. unfold conn_ok in Hconn. rewrite Hs in Hconn.
  destruct Hconn as (r & Hr & Hb & Hp). unfold cutAt in Hr. apply fmap_Some in Hr as (sync & Hsync & ->).
  exists sync. destruct (sk_cuts _ _ _ Hk id sync Hsync) as (He & v & (es1 & p1 & H1 & H2 & H3 & H4) & Hm).
  split; [done|]. cbv zeta. split_and!; [done|lia|by exists es1, p1, v|auto].
Qed.

Definition racing_events : list planeEvent :=
  subscribed_events ++ [PBroadcast "a" None; PBroadcast "b" None; PPush 2 1].

(** An event between the snapshot and the check makes the attempt start again. *)
Definition retried_events : list planeEvent :=
  [PConnect (sampleHello true) "t1"; PSubscribe 1 7; PCapture 1 0; PCapture 1 0; PBroadcast "a" None;
   PCapture 1 0; PCapture 1 0; PCapture 1 0; PCapture 1 0; PBroadcast "b" None].

Lemma retried_cut :
  exists p sync, sampleStep retried_events samplePlane = Some p /\ pl_cut p !! 1 = Some sync /\
    sy_StateSequence sync = 1.
Proof. eexists _, _. split; [vm_compute; reflexivity|]. by split. Qed.

Lemma cut_complete_witness :
  exists p c r, sampleStep racing_events samplePlane = Some p /\
    sv_clients (pl_server p) !! 1 = Some c /\ cutAt p 1 = Some r /\
    pushedSeqs (logged p 1) ++ pendingSeqs (pl_pubs p) 1 ≡ₚ
      seqZ (r + 1) (sv_revision (pl_server p) - r).
Proof.
  eexists _, _, 0. split; [vm_compute; reflexivity|]. split; [reflexivity|]. split; [reflexivity|].
  pose proof (fun p c => cut_complete (H := Z) (V := bytes) (fun v => Ok v)
    (fun e => [ev_StateSequence e]) (fun _ => []) (fun _ => None) sampleSync sampleLine
    sampleConfig sampleIdentity 0 racing_events p 1 c) as Hcc.
  edestruct Hcc as (sync & Hr & _ & _ & _ & Hp); [vm_compute; reflexivity|done|vm_compute; reflexivity|by split|].
  vm_compute in Hr. injection Hr as <-. exact Hp.
Defined.

(** When publishers do not overlap, a connected client follows: it delivers
    exactly the broadcast events after its cut, in order, sees no gap, and once
    no publisher is in flight it stands at the server's revision. *)
Theorem serial_publication_delivers {H V} `{!Handler H V} marshal encodeEvent revoked stopEpoch
    marshalSync responseLine cfg ident (h : H) es p id c r :
  serialRun marshal encodeEvent revoked stopEpoch marshalSync responseLine es (initialPlane cfg ident h) = Some p ->
  zlen es < two64 -> Forall quiet es ->
  sv_clients (pl_server p) !! id = Some c -> healthy c -> cutAt p id = Some r ->
  exists seq,
    supervise (id_Token (sv_identity (pl_server p))) r (map snd (logged p id)) =
      (realEvents (logged p id), inl seq) /\
    (pl_pubs p = [] -> seq = sv_revision (pl_server p)).
Proof.
  intros E Hn Hq Hc Hh Hr.
  apply (serialRun_ok marshal encodeEvent revoked stopEpoch marshalSync responseLine 0 (id_Token ident)) in E
    as [_ Hsi]; [|lia|apply initial_ok|apply initial_serial|done].
  destruct (si_tracks _ _ Hsi id c r Hc Hh Hr) as (seq & Ht & _ & Hsum).
  exists seq. rewrite (si_epoch _ _ Hsi). split; [exact Ht|].
  intros Hp. rewrite Hp in Hsum. unfold zlen in Hsum. simpl in Hsum. lia.
Qed.

Definition serial_events : list planeEvent :=
  subscribed_events ++ [PBroadcast "a" None; PPush 2 0; PPush 2 0; PHeartbeat; PPush 3 0; PPush 3 0;
                        PBroadcast "b" None; PPush 4 0; PPush 4 0].

Lemma serial_publication_delivers_witness :
  exists p, sampleSerial serial_events samplePlane = Some p /\
    exists seq, supervise (id_Token (sv_identity (pl_server p))) 0 (map snd (logged p 1)) =
      (realEvents (logged p 1), inl seq) /\ (pl_pubs p = [] -> seq = sv_revision (pl_server p)).
Proof.
  eexists. split; [vm_compute; reflexivity|].
  eapply (serial_publication_delivers (H := Z) (V := bytes) (fun v => Ok v)
    (fun e => [ev_StateSequence e]) (fun _ => []) (fun _ => None) sampleSync sampleLine
    sampleConfig sampleIdentity 0 serial_events);
    [vm_compute; reflexivity|done|by repeat constructor|vm_compute; reflexivity|by split|reflexivity].
Defined.

(** The input lease is safe: in every reachable state it is free or held by
    a live connection, so at most one connection owns it; and a request for
    replaceable or inspected view state from any other connection is refused
    without reaching the handler or changing the server. *)
Theorem lease_safe {H V} `{!Handler H V} marshal encodeEvent revoked stopEpoch marshalSync responseLine
    cfg ident (h : H) es p id c r eventSocket :
  planeRun marshal encodeEvent revoked stopEpoch marshalSync responseLine es (initialPlane cfg ident h) = Some p ->
  zlen es < two64 -> sv_clients (pl_server p) !! id = Some c ->
  lease_ok (pl_server p) /\
  (isOwner (pl_server p) c = true -> forall id' c', sv_clients (pl_server p) !! id' = Some c' ->
     isOwner (pl_server p) c' = true -> id' = id) /\
  (SeatArbitratedMethod (rq_Method r) = true -> isOwner (pl_server p) c = false ->
     handle marshal revoked stopEpoch c r eventSocket (pl_server p) (pl_handler p) =
       (pl_server p, pl_handler p, [],
        Err (EApp "PreconditionFailed" "client is observe-only; request input.takeover first"
               CodePreconditionFailed))).
Proof.
  intros E Hn Hc.
  apply (planeRun_ok marshal encodeEvent revoked stopEpoch marshalSync responseLine 0) in E;
    [|lia|apply initial_ok].
  destruct (po_clients _ _ E) as [Hids _]. split; [apply E|]. split.
  - unfold isOwner. intros Ho id' c' Hc' Ho'. bool_to_prop.
    apply Hids in Hc as (? & _), Hc' as (? & _). congruence.
  - intros Hseat Ho. unfold handle, handleWith. rewrite Ho.
    assert (Hb : forall m, SeatArbitratedMethod m = false -> (rq_Method r =? m)%string = false).
    { intros m Hm. apply String.eqb_neq. congruence. }
    rewrite !Hb by reflexivity. by rewrite Hseat.
Qed.

Lemma lease_safe_witness :
  exists p c, sampleStep (subscribed_events ++ [PConnect (Hello "v" ProtocolVersion false "cli" 1) "t2"])
      samplePlane = Some p /\ sv_clients (pl_server p) !! 2 = Some c /\
    handle (fun v : bytes => Ok v) (fun _ => []) (fun _ => None) c (Req 9 "terminal.resize" []) false
      (pl_server p) (pl_handler p) =
      (pl_server p, pl_handler p, [],
       Err (EApp "PreconditionFailed" "client is observe-only; request input.takeover first"
              CodePreconditionFailed)).
Proof.
  eexists _, _. split; [vm_compute; reflexivity|]. split; [reflexivity|].
  pose proof (fun p c r b => lease_safe (H := Z) (V := bytes) (fun v => Ok v)
    (fun e => [ev_StateSequence e]) (fun _ => []) (fun _ => None) sampleSync sampleLine
    sampleConfig sampleIdentity 0
    (subscribed_events ++ [PConnect (Hello "v" ProtocolVersion false "cli" 1) "t2"]) p 2 c r b) as Hls.
  edestruct Hls as (_ & _ & Hr); [vm_compute; reflexivity|done|vm_compute; reflexivity|].
  apply Hr; reflexivity.
Defined.

(** A clipboard effect reaches only the seat holder: if [EmitInputOwner]
    queues it, whatever happened since its target was chosen, then at that
    moment the target is a live subscribed connection of the frontend holding
    the lease, no subscribed connection of that frontend is newer, no other
    connection is touched and no revision is consumed. *)
Theorem clipboard_private {H V} `{!Handler H V} marshal encodeEvent revoked stopEpoch marshalSync responseLine
    cfg ident (h : H) es p s0 name payload now id lease recipient epoch event s' :
  planeRun marshal encodeEvent revoked stopEpoch marshalSync responseLine es (initialPlane cfg ident h) = Some p ->
  zlen es < two64 -> clients_ok s0 ->
  clipboardTarget name payload s0 = Some (id, lease, recipient, epoch, event) ->
  clipboardAdmit encodeEvent now (id, lease, recipient, epoch, event) (pl_server p) = (true, s') ->
  exists c, sv_clients (pl_server p) !! id = Some c /\ cl_subscribed c = true /\
    cl_instance c = il_instance (sv_input (pl_server p)) /\
    (forall k d, sv_clients (pl_server p) !! k = Some d -> cl_subscribed d = true ->
       cl_instance d = cl_instance c -> k <= id) /\
    sv_revision s' = sv_revision (pl_server p) /\
    forall k, k <> id -> sv_clients s' !! k = sv_clients (pl_server p) !! k.
Proof.
  intros E Hn [Hids0 _] Ht Ha.
  apply (planeRun_ok marshal encodeEvent revoked stopEpoch marshalSync responseLine 0) in E;
    [|lia|apply initial_ok].
  destruct (po_recipients _ _ E) as [Hnew Hown]. destruct (po_clients _ _ E) as [Hids _].
  assert (id = recipient) as <-.
  { unfold clipboardTarget in Ht. destruct (negb _); [done|]. destruct payload as [data|]; [|done].
    destruct (_ <? _); [done|]. destruct (List.find _ _) as [d|] eqn:Ef; [|done].
    apply List.find_some in Ef as [_ Ef]. destruct (_ =? _)%string in Ht; [done|].
    simplify_eq. bool_to_prop. congruence. }
  unfold clipboardAdmit in Ha. destruct (_ <? _); [done|].
  destruct (sv_clients (pl_server p) !! id) as [c|] eqn:Ec; [|done].
  destruct (_ || _)%bool eqn:Eg; [done|]. destruct (pushOrFail _ _ _ _ _ c) as [q c'] eqn:Epu.
  injection Ha as -> <-. bool_to_prop. subst lease.
  destruct (sv_clipboardRecipients (pl_server p) !! il_instance (sv_input (pl_server p)))
    as [n|] eqn:En; simpl in *; [|destruct (Hids _ _ Ec); lia].
  subst n. destruct (Hown _ _ En) as [_ Hi]. exists c. split_and!; try done; [by apply Hi| |].
  - intros k d Hd Hs Hinst. destruct (Hnew k d Hd Hs) as (m & Hm & Hle).
    rewrite Hinst, (Hi c Ec) in Hm. congruence.
  - intros k Hk. by rewrite lookup_insert_ne.
Qed.

Definition sampleSubscribed : plane Z bytes :=
  default samplePlane (sampleStep subscribed_events samplePlane).

Definition sampleTarget : Z * inputLease * Z * string * Event :=
  (1, Lease "tui" 1, 1, "epoch"%string, Ev EventTerminalClipboard (Some [1]) "epoch" 0).

Lemma clipboard_private_witness :
  clipboardTarget EventTerminalClipboard (Ok [1]) (pl_server sampleSubscribed) = Some sampleTarget /\
  exists c, sv_clients (pl_server sampleSubscribed) !! 1 = Some c /\ cl_instance c = "tui"%string.
Proof.
  split; [vm_compute; reflexivity|].
  pose proof (fun s' => clipboard_private (H := Z) (V := bytes) (fun v => Ok v)
    (fun e => [ev_StateSequence e]) (fun _ => []) (fun _ => None) sampleSync sampleLine
    sampleConfig sampleIdentity 0 subscribed_events sampleSubscribed (pl_server sampleSubscribed)
    EventTerminalClipboard (Ok [1]) 5 1 (Lease "tui" 1) 1 "epoch"
    (Ev EventTerminalClipboard (Some [1]) "epoch" 0) s') as Hcp.
  edestruct Hcp as (c & Hc & _ & Hi & _);
    [vm_compute; reflexivity|done| |vm_compute; reflexivity|vm_compute; reflexivity|by exists c].
  assert (Hm : sv_clients (pl_server sampleSubscribed) =
    {[ 1 := default (Client 0 "" 0 "" (newOutboundQueue 0 0) false false (Failure false None None)
               false (Counters 0 0 0 0 0 0)) (sv_clients (pl_server sampleSubscribed) !! 1) ]})
    by (vm_compute; reflexivity).
  split; [|done]. intros k d. rewrite Hm. intros [<- <-]%lookup_singleton_Some. by split_and!.
Defined.

(** Publication is not atomic, and a client can observe it.  Two broadcasts
    in flight at once may push in the opposite order of their revisions, and the
    client then reports a gap although no event was lost; and a heartbeat that
    reads the revision between a broadcast's critical section and its push is
    delivered as that event, which is then skipped as old: an event is lost
    without a gap. *)
Theorem publication_races :
  seen [PBroadcast "a" None; PBroadcast "b" None; PPush 2 1; PPush 3 0] =
    Some ([], inr (EFormat "daemon event sequence gap after %d: received %d" [0; 2])) /\
  seen [PBroadcast "a" None; PHeartbeat; PPush 2 1; PPush 3 0] =
    Some ([(EventDaemonHeartbeat, 1)], inl 1).
Proof. split; vm_compute; reflexivity. Qed.
