(* ===== verification/NodeOperations.v ===== *)
(** * Daemon-owned lifecycle operations

    [internal/codelima/node_operations.go], [node_operation_phases.go] and
    [node_batch.go], with [operationConflicts] of [tui_operations.go].  The
    manager admits lifecycle operations under their resource keys, tracks their
    phases, runs batches of them and keeps their receipts.

    A definition is one critical section of the manager's mutex.  The work an
    operation does between them (the service calls of [run]) is represented by
    its outcome.  Receipts are written to [mg_disk]; a write fails with the
    fault the step carries.  The sizes of encoded records and requests and the
    UUID parser are arguments, as is the node store.  Output lines, the progress
    summary and the environment-test worker are not modelled. *)

From S2P Require Import Prelude GoText.
From stdpp Require Import pretty.
Local Open Scope Z_scope.

(** ** Data *)

Definition nodeOperationRetention : duration := 7 * 24 * hour.
Definition errNodeOperationCanceled : go_error := ENew "operation canceled by user".
Definition errNodeOperationsClosed : go_error := ENew "daemon stopped before operation completed".
Definition nodeBatchLimit : Z := 64.
Definition nodeBatchParallelism : Z := 4.
Definition nodeOperationLimit : Z := 16.

Definition newline : string := String (Ascii.ascii_of_nat 10) EmptyString.

Record NodeCreateInput := CreateInput {
  cr_Start : bool;
  cr_Slug : string;
  cr_Rest : list string;
}.

Record NodeCloneInput := CloneInput {
  cn_SourceNode : string;
  cn_NodeSlug : string;
  cn_Start : bool;
}.

Record NodeBatchTarget := BatchTarget {
  bt_NodeID : string;
  bt_NodeSlug : string;
  bt_Kind : string;
}.

Record NodeOperationRequest := OpRequest {
  or_Environment : string;
  or_Origin : string;
  or_ID : string;
  or_Kind : string;
  or_Node : string;
  or_Create : option NodeCreateInput;
  or_Clone : option NodeCloneInput;
  or_Batch : list NodeBatchTarget;
}.

#[export] Instance NodeCreateInput_eq_dec : EqDecision NodeCreateInput.
Proof. solve_decision. Defined.
#[export] Instance NodeCloneInput_eq_dec : EqDecision NodeCloneInput.
Proof. solve_decision. Defined.
#[export] Instance NodeBatchTarget_eq_dec : EqDecision NodeBatchTarget.
Proof. solve_decision. Defined.
#[export] Instance NodeOperationRequest_eq_dec : EqDecision NodeOperationRequest.
Proof. solve_decision. Defined.

Record NodeBatchMember := BatchMember {
  bm_Target : NodeBatchTarget;
  bm_OperationID : string;
  bm_State : string;
  bm_Error : string;
}.

Record NodeBatchState := BatchState {
  bs_Members : list NodeBatchMember;
  bs_Total : Z;
  bs_Queued : Z;
  bs_Running : Z;
  bs_Succeeded : Z;
  bs_Failed : Z;
  bs_Canceled : Z;
  bs_Interrupted : Z;
}.

Record Node := MkNode {
  nd_ID : string;
  nd_Slug : string;
  nd_Status : string;
  nd_Deleted : bool;
}.

Record EnvironmentTestState := TestState {
  et_EnvironmentID : string;
  et_PlanNode : Node;
  et_CleanupPending : bool;
  et_Outcome : string;
  et_Error : string;
}.

Record NodeOperationPhase := Phase {
  ph_ID : string;
  ph_Label : string;
  ph_State : string;
  ph_Detail : string;
  ph_StartedAt : option time;
  ph_FinishedAt : option time;
}.

Record NodeOperation := Operation {
  op_Batch : option NodeBatchState;
  op_BatchID : string;
  op_EnvironmentTest : option EnvironmentTestState;
  op_ID : string;
  op_Request : NodeOperationRequest;
  op_NodeID : string;
  op_NodeSlug : string;
  op_State : string;
  op_CreatedAt : time;
  op_FinishedAt : option time;
  op_Error : string;
  op_ErrorCode : Z;
  op_ErrorCategory : string;
  op_Result : option (string * string * string);
  op_CurrentPhase : string;
  op_Phases : list NodeOperationPhase;
}.

(** [cancel] is [nil] exactly when [ro_cancel] is false; [ro_cause] is the cause
    the operation's context was cancelled with. *)
Record runningNodeOperation := RunningOp {
  ro_record : NodeOperation;
  ro_keys : list string;
  ro_cancel : bool;
  ro_cause : option go_error;
}.

Record nodeOperations := Manager {
  mg_closed : bool;
  mg_records : gmap string runningNodeOperation;
  mg_disk : gmap string NodeOperation;
}.

(** ** Requests and records *)

Definition request_startsNode (r : NodeOperationRequest) : bool :=
  (or_Kind r =? "start")%string || (or_Kind r =? "retry")%string ||
  (or_Kind r =? "restart")%string ||
  ((or_Kind r =? "create")%string && match or_Create r with Some c => cr_Start c | None => false end) ||
  ((or_Kind r =? "clone")%string && match or_Clone r with Some c => cn_Start c | None => false end).

Definition operation_startsNode (o : NodeOperation) : bool :=
  request_startsNode (op_Request o) &&
  (negb (or_Kind (op_Request o) =? "clone")%string ||
   (negb (op_CurrentPhase o =? "")%string && negb (op_CurrentPhase o =? "clone")%string)).

Definition live (state : string) : bool := (state =? "running")%string || (state =? "canceling")%string.

Definition operationExpired (record : NodeOperation) (now : time) : bool :=
  if match op_EnvironmentTest record with Some t => et_CleanupPending t | None => false end then false
  else if live (op_State record) then false
  else
    let at_ := match op_FinishedAt record with Some t => t | None => op_CreatedAt record end in
    nodeOperationRetention <? time_sub now at_.

Definition operationConflicts (active requested : list string) : bool :=
  match active, requested with
  | [], _ | _, [] => false
  | _, _ =>
      let activeKeys := List.filter (fun key => negb (blank key)) active in
      existsb (fun key => existsb (String.eqb key) activeKeys) requested
  end.

Definition boundedOperationText (value : string) (limit : Z) : string :=
  if slen value <=? limit then value
  else ToValidUTF8 (sprefix value limit) replacementRune +:+ ellipsis.

Definition setRecord (r : NodeOperation) (o : runningNodeOperation) : runningNodeOperation :=
  RunningOp r (ro_keys o) (ro_cancel o) (ro_cause o).

Definition withState (state : string) (r : NodeOperation) : NodeOperation :=
  Operation (op_Batch r) (op_BatchID r) (op_EnvironmentTest r) (op_ID r) (op_Request r) (op_NodeID r)
    (op_NodeSlug r) state (op_CreatedAt r) (op_FinishedAt r) (op_Error r) (op_ErrorCode r)
    (op_ErrorCategory r) (op_Result r) (op_CurrentPhase r) (op_Phases r).

Definition withFinished (at_ : option time) (r : NodeOperation) : NodeOperation :=
  Operation (op_Batch r) (op_BatchID r) (op_EnvironmentTest r) (op_ID r) (op_Request r) (op_NodeID r)
    (op_NodeSlug r) (op_State r) (op_CreatedAt r) at_ (op_Error r) (op_ErrorCode r)
    (op_ErrorCategory r) (op_Result r) (op_CurrentPhase r) (op_Phases r).

Definition withError (text : string) (code : Z) (category : string) (r : NodeOperation)
    : NodeOperation :=
  Operation (op_Batch r) (op_BatchID r) (op_EnvironmentTest r) (op_ID r) (op_Request r) (op_NodeID r)
    (op_NodeSlug r) (op_State r) (op_CreatedAt r) (op_FinishedAt r) text code category (op_Result r)
    (op_CurrentPhase r) (op_Phases r).

Definition withPhases (current : string) (phases : list NodeOperationPhase) (r : NodeOperation)
    : NodeOperation :=
  Operation (op_Batch r) (op_BatchID r) (op_EnvironmentTest r) (op_ID r) (op_Request r) (op_NodeID r)
    (op_NodeSlug r) (op_State r) (op_CreatedAt r) (op_FinishedAt r) (op_Error r) (op_ErrorCode r)
    (op_ErrorCategory r) (op_Result r) current phases.

Definition withNode (id slug : string) (res : option (string * string * string)) (r : NodeOperation)
    : NodeOperation :=
  Operation (op_Batch r) (op_BatchID r) (op_EnvironmentTest r) (op_ID r) (op_Request r) id slug
    (op_State r) (op_CreatedAt r) (op_FinishedAt r) (op_Error r) (op_ErrorCode r)
    (op_ErrorCategory r) res (op_CurrentPhase r) (op_Phases r).

Definition withBatch (b : NodeBatchState) (r : NodeOperation) : NodeOperation :=
  Operation (Some b) (op_BatchID r) (op_EnvironmentTest r) (op_ID r) (op_Request r) (op_NodeID r)
    (op_NodeSlug r) (op_State r) (op_CreatedAt r) (op_FinishedAt r) (op_Error r) (op_ErrorCode r)
    (op_ErrorCategory r) (op_Result r) (op_CurrentPhase r) (op_Phases r).

(** ** Phases *)

Definition pendingPhase (id label : string) : NodeOperationPhase := Phase id label "pending" "" None None.

Definition startPhases : list NodeOperationPhase :=
  [pendingPhase "prepare" "Prepare"; pendingPhase "boot" "Boot";
   pendingPhase "credentials" "Host credentials"; pendingPhase "workspace" "Workspace";
   pendingPhase "bootstrap" "Bootstrap"; pendingPhase "validation" "Validate agent";
   pendingPhase "ready" "Ready"].

Definition initialNodeOperationPhases (kind : string) : list NodeOperationPhase :=
  if (kind =? "restart")%string then pendingPhase "stop" "Stop VM" :: startPhases
  else if (kind =? "test-environment")%string
  then (pendingPhase "create" "Create VM" :: startPhases) ++ [pendingPhase "cleanup" "Delete test VM"]
  else if (kind =? "start")%string || (kind =? "retry")%string then startPhases
  else if (kind =? "create")%string then [pendingPhase kind "Create VM"]
  else if (kind =? "stop")%string then [pendingPhase kind "Stop VM"]
  else if (kind =? "delete")%string then [pendingPhase kind "Delete VM"]
  else if (kind =? "clone")%string then [pendingPhase kind "Clone VM"]
  else [].

Definition phaseRunning (p : NodeOperationPhase) : bool := (ph_State p =? "running")%string.

Definition finishNodeOperationPhases (state : string) (finished : option time) (r : NodeOperation)
    : NodeOperation :=
  withPhases (op_CurrentPhase r)
    (map (fun p => if phaseRunning p
                   then Phase (ph_ID p) (ph_Label p) state (ph_Detail p) (ph_StartedAt p)
                          (if (state =? "interrupted")%string then None else finished)
                   else p) (op_Phases r)) r.

Fixpoint findPhase (phases : list NodeOperationPhase) (id : string) : option nat :=
  match phases with
  | [] => None
  | p :: phases => if (ph_ID p =? id)%string then Some O else S <$> findPhase phases id
  end.

(** The update of the phase list by [advancePhase]. *)
Definition advancedPhases (index : nat) (now : time) (detail : string) (skipped : bool)
    (phases : list NodeOperationPhase) : list NodeOperationPhase :=
  imap (fun i p =>
    if (i =? index)%nat then
      if skipped
      then Phase (ph_ID p) (ph_Label p) "skipped" (boundedOperationText detail 1024) None None
      else Phase (ph_ID p) (ph_Label p) "running" (boundedOperationText detail 1024)
             (if phaseRunning p then ph_StartedAt p else Some now) None
    else if phaseRunning p
    then Phase (ph_ID p) (ph_Label p) "succeeded" (ph_Detail p) (ph_StartedAt p) (Some now)
    else p) phases.

(** ** Batches *)

Definition countState (states : list string) (members : list NodeBatchMember) : Z :=
  zlen (List.filter (fun m => existsb (String.eqb (bm_State m)) states) members).

Definition recount (b : NodeBatchState) : NodeBatchState :=
  let ms := bs_Members b in
  BatchState ms (zlen ms) (countState ["queued"%string] ms)
    (countState ["running"; "canceling"]%string ms) (countState ["succeeded"%string] ms)
    (countState ["failed"%string] ms) (countState ["canceled"%string] ms)
    (countState ["interrupted"%string] ms).

Definition batchSummary (record : NodeOperation) : option NodeBatchState :=
  match op_Batch record with
  | None => None
  | Some b =>
      let members :=
        if live (op_State record)
        then map (fun m => BatchMember (BatchTarget (bt_NodeID (bm_Target m))
                             (boundedOperationText (bt_NodeSlug (bm_Target m)) 128)
                             (bt_Kind (bm_Target m))) (bm_OperationID m) (bm_State m) "")
               (bs_Members b)
        else [] in
      Some (BatchState members (bs_Total b) (bs_Queued b) (bs_Running b) (bs_Succeeded b)
              (bs_Failed b) (bs_Canceled b) (bs_Interrupted b))
  end.

Definition executingCountLocked (m : nodeOperations) : Z :=
  Z.of_nat (size (filter (fun kr => ro_cancel kr.2 = true /\ op_Batch (ro_record kr.2) = None)
                    (mg_records m))).

(** Active operations that are not members of a batch. *)
Definition activeRoots (m : nodeOperations) : Z :=
  Z.of_nat (size (filter (fun kr => ro_cancel kr.2 = true /\ op_BatchID (ro_record kr.2) = ""%string)
                    (mg_records m))).

Definition environmentTestKeys (t : EnvironmentTestState) : list string :=
  ["environment-test:" +:+ et_EnvironmentID t; "node:" +:+ nd_ID (et_PlanNode t);
   "slug:" +:+ nd_Slug (et_PlanNode t)].

Definition setRecords (records : gmap string runningNodeOperation) (m : nodeOperations)
    : nodeOperations := Manager (mg_closed m) records (mg_disk m).

Definition zeroOperation : NodeOperation :=
  Operation None "" None "" (OpRequest "" "" "" "" "" None None []) "" "" "" 0 None "" 0 "" None "" [].

Section Manager.
Context (recordSize : NodeOperation -> Z) (requestSize : NodeOperationRequest -> Z)
  (parseUUID : string -> option string) (NodeByIDOrSlug NodeByID : string -> result Node).

(** A write that fails after its rename leaves the receipt on disk. *)
Definition persist (fault : writeOutcome) (record : NodeOperation) (m : nodeOperations)
    : nodeOperations * result unit :=
  if Z.shiftl 256 10 <? recordSize record then (m, Err (ENew "operation record exceeds 256 KiB"))
  else
    let m' := Manager (mg_closed m) (mg_records m) (<[op_ID record := record]> (mg_disk m)) in
    match fault with
    | Written => (m', Ok tt)
    | NotWritten e => (m, Err e)
    | Unsynced e => (m', Err e)
    end.

(** ** Submission *)

Definition repeatedRequestLocked (now : time) (request : NodeOperationRequest) (m : nodeOperations)
    : option (result NodeOperation) :=
  match mg_records m !! or_ID request with
  | None => None
  | Some previous =>
      if operationExpired (ro_record previous) now then None
      else
        let prior := op_Request (ro_record previous) in
        let strip r := OpRequest (or_Environment r) "" (or_ID r) (or_Kind r) (or_Node r) (or_Create r)
                         (or_Clone r) (or_Batch r) in
        if decide (strip prior = strip request) then Some (Ok (ro_record previous))
        else Some (Err (preconditionFailed "operation id already belongs to another request"))
  end.

Definition lifecycleKinds : list string :=
  ["start"; "retry"; "restart"; "stop"; "delete"; "clone"]%string.

Definition normalize (request : NodeOperationRequest)
    : result (NodeOperationRequest * Node * list string) :=
  let noNode := MkNode "" "" "" false in
  let kind := or_Kind request in
  if negb (or_Origin request =? "")%string && negb (or_Origin request =? "tui")%string &&
     negb (or_Origin request =? "cli")%string
  then Err (invalidArgument "operation origin must be tui or cli")
  else if (negb (kind =? "create")%string && bool_decide (is_Some (or_Create request))) ||
          (negb (kind =? "clone")%string && bool_decide (is_Some (or_Clone request))) ||
          (negb (kind =? "batch")%string && negb (length (or_Batch request) =? 0)%nat) ||
          (negb (kind =? "test-environment")%string && negb (or_Environment request =? "")%string)
  then Err (invalidArgument "operation inputs do not match its kind")
  else if (kind =? "batch")%string then Ok (request, noNode, [])
  else if (kind =? "test-environment")%string then
    if (or_Environment request =? "")%string || negb (or_Node request =? "")%string
    then Err (invalidArgument "environment is required and real nodes cannot be test targets")
    else Ok (request, noNode, [])
  else if existsb (String.eqb kind) lifecycleKinds then
    query ← (if (kind =? "clone")%string
             then match or_Clone request with
                  | None => Err (invalidArgument "clone input is required")
                  | Some c => Ok (cn_SourceNode c)
                  end
             else Ok (or_Node request));
    node ← NodeByIDOrSlug query;
    Ok (request, node,
        ["node:" +:+ nd_ID node; "slug:" +:+ nd_Slug node] ++
        match or_Clone request with Some c => ["slug:" +:+ cn_NodeSlug c] | None => [] end)
  else if (kind =? "create")%string then
    match or_Create request with
    | None => Err (invalidArgument "create input is required")
    | Some c => Ok (request, MkNode "" (cr_Slug c) "" false, ["slug:" +:+ cr_Slug c])
    end
  else Err (invalidArgument "unknown lifecycle operation").

(** The loop of [prepareBatch]; [newIDs] are the identifiers it generates. *)
Fixpoint prepareMembers (targets : list NodeBatchTarget) (newIDs seen : list string)
    : result (list NodeBatchMember * list string) :=
  match targets with
  | [] => Ok ([], [])
  | t :: targets =>
      if negb (existsb (String.eqb (bt_Kind t)) ["start"; "retry"; "restart"; "stop"; "delete"]%string)
      then Err (invalidArgument "unsupported batch action")
      else if negb (bool_decide (parseUUID (bt_NodeID t) = Some (bt_NodeID t))) ||
              (bt_NodeSlug t =? "")%string
      then Err (invalidArgument "batch targets require canonical node IDs and names")
      else if existsb (String.eqb (bt_NodeID t)) seen
      then Err (invalidArgument "batch contains a duplicate node")
      else
        node ← NodeByID (bt_NodeID t);
        if negb (nd_Slug node =? bt_NodeSlug t)%string || nd_Deleted node
        then Err (preconditionFailed "batch target changed; review the nodes again")
        else
          '(members, keys) ← prepareMembers targets (drop 1 newIDs) (bt_NodeID t :: seen);
          Ok (BatchMember t (default "" (head newIDs)) "queued" "" :: members,
              ("node:" +:+ nd_ID node) :: ("slug:" +:+ nd_Slug node) :: keys)
  end.

Definition prepareBatch (newIDs : list string) (request : NodeOperationRequest)
    : result (NodeBatchState * list string) :=
  if negb (or_Node request =? "")%string || (length (or_Batch request) =? 0)%nat ||
     (nodeBatchLimit <? zlen (or_Batch request))
  then Err (invalidArgument "batch requires 1–64 captured targets and no single node")
  else
    '(members, keys) ← prepareMembers (or_Batch request) newIDs [];
    Ok (recount (BatchState members 0 0 0 0 0 0 0), keys).

(** What a submission brings to its critical section. *)
Record submission := Submission {
  su_request : NodeOperationRequest;
  su_node : Node;
  su_keys : list string;
  su_batch : option NodeBatchState;
  su_test : option EnvironmentTestState;
}.

(** count_label.go. *)
Definition pluralForm (count : Z) (singular plural : string) : string :=
  if count =? 1 then singular else plural.
Definition countLabel (count : Z) (singular plural : string) : string :=
  pretty count +:+ " " +:+ pluralForm count singular plural.

Definition withSlug (slug : string) (n : Node) : Node :=
  MkNode (nd_ID n) slug (nd_Status n) (nd_Deleted n).

Definition withID (id : string) (r : NodeOperationRequest) : NodeOperationRequest :=
  OpRequest (or_Environment r) (or_Origin r) id (or_Kind r) (or_Node r) (or_Create r) (or_Clone r)
    (or_Batch r).

(** [Submit] before its second critical section: an early answer, or the
    submission.  [prepared] is the outcome of [prepareEnvironmentTest]. *)
Definition submitPrepare (now : time) (newIDs : list string) (prepared : result EnvironmentTestState)
    (request : NodeOperationRequest) (m : nodeOperations) : result NodeOperation + submission :=
  if Z.shiftl 64 10 <? requestSize request
  then inl (Err (invalidArgument "operation request exceeds 64 KiB"))
  else match parseUUID (or_ID request) with
  | None => inl (Err (invalidArgument "operation id must be a UUID"))
  | Some id =>
      let request := withID id request in
      match repeatedRequestLocked now request m with
      | Some answer => inl answer
      | None =>
          match normalize request with
          | Err e => inl (Err e)
          | Ok (request, node, keys) =>
              if (or_Kind request =? "batch")%string then
                match prepareBatch newIDs request with
                | Err e => inl (Err e)
                | Ok (batch, keys) =>
                    let node := withSlug (countLabel (bs_Total batch) "node" "nodes") node in
                    inr (Submission request node keys (Some batch) None)
                end
              else if (or_Kind request =? "test-environment")%string then
                match prepared with
                | Err e => inl (Err e)
                | Ok t =>
                    inr (Submission request (et_PlanNode t)
                           (environmentTestKeys t)
                           None (Some t))
                end
              else inr (Submission request node keys None None)
          end
      end
  end.

(** [pruneLocked]; [faults] gives the removals that fail. *)
Fixpoint pruneLoop (now : time) (faults : string -> option go_error)
    (l : list (string * runningNodeOperation)) (m : nodeOperations) : nodeOperations * result unit :=
  match l with
  | [] => (m, Ok tt)
  | (id, operation) :: l =>
      if negb (operationExpired (ro_record operation) now) then pruneLoop now faults l m
      else match faults id with
           | Some e => (m, Err e)
           | None => pruneLoop now faults l
                       (Manager (mg_closed m) (delete id (mg_records m)) (delete id (mg_disk m)))
           end
  end.

Definition pruneLocked (now : time) (faults : string -> option go_error) (m : nodeOperations)
    : nodeOperations * result unit :=
  pruneLoop now faults (map_to_list (mg_records m)) m.

(** An active operation whose keys conflict. *)
Definition conflicting (keys : list string) (m : nodeOperations) : option runningNodeOperation :=
  snd <$> List.find (fun kr => ro_cancel kr.2 && operationConflicts (ro_keys kr.2) keys)
            (map_to_list (mg_records m)).

Definition newRecord (now : time) (su : submission) : NodeOperation :=
  let request := su_request su in
  let kind := or_Kind request in
  Operation (su_batch su) "" (su_test su) (or_ID request) request (nd_ID (su_node su))
    (nd_Slug (su_node su)) "running" now None "" 0 "" None ""
    (initialNodeOperationPhases kind ++
     (if ((kind =? "create")%string || (kind =? "clone")%string) && request_startsNode request
      then initialNodeOperationPhases "start" else [])).

(** The second critical section of [Submit]. *)
Definition submitLocked (now : time) (faults : string -> option go_error) (fault : writeOutcome)
    (su : submission) (m : nodeOperations) : nodeOperations * result NodeOperation :=
  if mg_closed m then (m, Err errNodeOperationsClosed)
  else match repeatedRequestLocked now (su_request su) m with
  | Some answer => (m, answer)
  | None =>
      match pruneLocked now faults m with
      | (m, Err e) => (m, Err e)
      | (m, Ok _) =>
          match conflicting (su_keys su) m with
          | Some other =>
              (m, Err (preconditionFailed ("node already has an active " +:+
                         or_Kind (op_Request (ro_record other)) +:+ " operation")))
          | None =>
              if (nodeOperationLimit <=? activeRoots m) ||
                 (negb (or_Kind (su_request su) =? "batch")%string &&
                  (nodeOperationLimit <=? executingCountLocked m))
              then (m, Err (preconditionFailed "16 lifecycle operations are already running"))
              else
                let record := newRecord now su in
                match persist fault record m with
                | (m, Err e) => (m, Err e)
                | (m, Ok _) =>
                    (setRecords (<[op_ID record := RunningOp record (su_keys su) true None]>
                                   (mg_records m)) m, Ok record)
                end
          end
      end
  end.

(** [Submit] without interference. *)
Definition Submit (now : time) (newIDs : list string) (prepared : result EnvironmentTestState)
    (faults : string -> option go_error) (fault : writeOutcome) (request : NodeOperationRequest)
    (m : nodeOperations) : nodeOperations * result NodeOperation :=
  match submitPrepare now newIDs prepared request m with
  | inl answer => (m, answer)
  | inr su => submitLocked now faults fault su m
  end.

(** ** The running operation *)

Definition updateOp (id : string) (f : runningNodeOperation -> runningNodeOperation)
    (m : nodeOperations) : nodeOperations :=
  match mg_records m !! id with
  | Some o => setRecords (<[id := f o]> (mg_records m)) m
  | None => m
  end.

(** [persist] of an operation that has been changed in memory: the change stays
    whether or not the write succeeds. *)
Definition saved (fault : writeOutcome) (id : string) (o : runningNodeOperation)
    (m : nodeOperations) : nodeOperations * result unit :=
  persist fault (ro_record o) (setRecords (<[id := o]> (mg_records m)) m).

Definition bindCreatedNode (fault : writeOutcome) (id : string) (node : Node)
    (m : nodeOperations) : nodeOperations * result unit :=
  match mg_records m !! id with
  | None => (m, Ok tt)
  | Some o =>
      saved fault id (RunningOp (withNode (nd_ID node) (nd_Slug node) (op_Result (ro_record o))
                                   (ro_record o))
                        (ro_keys o ++ ["node:" +:+ nd_ID node]) (ro_cancel o) (ro_cause o)) m
  end.

Definition advancePhase (now : time) (fault : writeOutcome) (id phase detail : string)
    (skipped : bool) (m : nodeOperations) : nodeOperations * result unit :=
  match mg_records m !! id with
  | None => (m, Ok tt)
  | Some o =>
      let r := ro_record o in
      if negb (op_State r =? "running")%string &&
         negb ((phase =? "cleanup")%string && bool_decide (is_Some (op_EnvironmentTest r)) &&
               (op_State r =? "canceling")%string)
      then (m, Err (ENew "context canceled"))
      else match findPhase (op_Phases r) phase with
           | None => (m, Err (ENew ("unknown operation phase " +:+ phase)))
           | Some index =>
               saved fault id
                 (setRecord (withPhases phase (advancedPhases index now detail skipped (op_Phases r)) r) o) m
           end
  end.

(** [run] from the end of the work to the first unlock. *)
Definition finishPhases (now : time) (failed : bool) (id : string) (m : nodeOperations)
    : nodeOperations :=
  updateOp id (fun o =>
    let state := if decide (ro_cause o = Some errNodeOperationsClosed) then "interrupted"%string
                 else if decide (ro_cause o = Some errNodeOperationCanceled) then "canceled"%string
                 else if failed then "failed"%string else "succeeded"%string in
    setRecord (finishNodeOperationPhases state (Some now) (ro_record o)) o) m.

Definition wireError (e : go_error) : Z * string :=
  match e with EApp category _ code => (code, category) | _ => (7, "Internal"%string) end.

(** [run] from there to its end: the joined error, whether stopping the VM of a
    cancelled operation failed, and the node it worked on. *)
Definition finishOperation (now : time) (fault : writeOutcome) (err : option go_error)
    (stopFailed : bool) (node : option Node) (id : string) (m : nodeOperations)
    : nodeOperations :=
  match mg_records m !! id with
  | None => m
  | Some o =>
      let canceled := bool_decide (ro_cause o = Some errNodeOperationCanceled) in
      let closed := bool_decide (ro_cause o = Some errNodeOperationsClosed) in
      let r := withState "succeeded" (withFinished (Some now) (ro_record o)) in
      let r := match err with
               | Some e => withState "failed" (withError (errorText e) (wireError e).1 (wireError e).2 r)
               | None => r
               end in
      let r := if canceled && negb stopFailed then withState "canceled" r else r in
      let r := if closed
               then withFinished None (withState "interrupted"
                      (withError (errorText errNodeOperationsClosed) (op_ErrorCode r)
                         (op_ErrorCategory r) r))
               else r in
      let r := match node with
               | Some n => withNode (nd_ID n) (nd_Slug n) (Some (nd_ID n, nd_Slug n, nd_Status n)) r
               | None => r
               end in
      let r := if 4096 <? slen (op_Error r)
               then withError (ToValidUTF8 (sprefix (op_Error r) 4096) replacementRune)
                      (op_ErrorCode r) (op_ErrorCategory r) r
               else r in
      let o' := RunningOp r (ro_keys o) false (ro_cause o) in
      match saved fault id o' m with
      | (m, Ok _) => m
      | (m, Err e) =>
          let joined := match err with
                        | Some e0 => errorText e0 +:+ newline +:+ errorText e
                        | None => errorText e
                        end in
          updateOp id (setRecord (withState "failed" (withError joined 7 "Internal" r))) m
      end
  end.

(** ** Cancellation *)

(** Cancelling a context cancels the contexts derived from it: those of the
    members of a batch.  The first cause stays. *)
Definition cancelWith (cause : go_error) (o : runningNodeOperation) : runningNodeOperation :=
  RunningOp (ro_record o) (ro_keys o) (ro_cancel o) (Some (default cause (ro_cause o))).

Definition cancelTree (cause : go_error) (id : string) (m : nodeOperations) : nodeOperations :=
  setRecords ((fun o => if (op_ID (ro_record o) =? id)%string || (op_BatchID (ro_record o) =? id)%string
                        then cancelWith cause o else o) <$> mg_records m) m.

Definition Cancel (fault : writeOutcome) (id : string) (m : nodeOperations)
    : nodeOperations * result unit :=
  match mg_records m !! id with
  | None => (m, Err (notFound "operation not found"))
  | Some o =>
      if negb (ro_cancel o) then (m, Ok tt)
      else
        let r := withState "canceling" (ro_record o) in
        match persist fault r m with
        | (m, Err e) => (m, Err e)
        | (m, Ok _) =>
            (cancelTree errNodeOperationCanceled id
               (setRecords (<[id := setRecord r o]> (mg_records m)) m), Ok tt)
        end
  end.

Definition Close (m : nodeOperations) : nodeOperations :=
  Manager true ((fun o => if ro_cancel o then cancelWith errNodeOperationsClosed o else o) <$> mg_records m)
    (mg_disk m).

Definition Get (now : time) (id : string) (m : nodeOperations) : result NodeOperation :=
  match mg_records m !! id with
  | None => Err (notFound "operation not found")
  | Some o => if operationExpired (ro_record o) now then Err (notFound "operation not found")
              else Ok (ro_record o)
  end.

Definition Active (m : nodeOperations) : bool :=
  existsb (fun kr => ro_cancel kr.2) (map_to_list (mg_records m)).

(** The scan of [LatestStart]. *)
Definition pickLatest (nodeID : string) (now : time) (latest : option NodeOperation)
    (o : runningNodeOperation) : option NodeOperation :=
  let r := ro_record o in
  if negb (op_NodeID r =? nodeID)%string || operationExpired r now || negb (operation_startsNode r)
  then latest
  else match latest with
       | None => Some r
       | Some l =>
           if (op_CreatedAt l <? op_CreatedAt r) ||
              ((op_CreatedAt r =? op_CreatedAt l) && String.ltb (op_ID l) (op_ID r))
           then Some r else latest
       end.

Definition LatestStart (now : time) (nodeID : string) (m : nodeOperations) : result NodeOperation :=
  match foldl (pickLatest nodeID now) None (map snd (map_to_list (mg_records m))) with
  | Some r => Ok r
  | None => Err (notFound "no retained start operation for node")
  end.

(** ** Running a batch *)

#[export] Instance NodeBatchMember_eq_dec : EqDecision NodeBatchMember.
Proof. solve_decision. Defined.

Definition withMembers (members : list NodeBatchMember) (b : NodeBatchState) : NodeBatchState :=
  BatchState members (bs_Total b) (bs_Queued b) (bs_Running b) (bs_Succeeded b) (bs_Failed b)
    (bs_Canceled b) (bs_Interrupted b).

Definition summary (b : NodeBatchState) : string :=
  pretty (bs_Succeeded b) +:+ " succeeded · " +:+ pretty (bs_Failed b) +:+ " failed · " +:+
  pretty (bs_Canceled b) +:+ " canceled · " +:+ pretty (bs_Interrupted b) +:+ " interrupted · " +:+
  pretty (bs_Running b) +:+ " running · " +:+ pretty (bs_Queued b) +:+ " queued".

(** The first loop of [runBatch]: a member takes its child's outcome, or that of
    the batch when it was never started. *)
Definition refreshMember (cause : option go_error) (m : nodeOperations) (member : NodeBatchMember)
    : NodeBatchMember :=
  match mg_records m !! bm_OperationID member with
  | Some child =>
      BatchMember (bm_Target member) (bm_OperationID member) (op_State (ro_record child))
        (boundedOperationText (op_Error (ro_record child)) 512)
  | None =>
      match cause with
      | Some e =>
          if (bm_State member =? "queued")%string
          then BatchMember (bm_Target member) (bm_OperationID member)
                 (if decide (e = errNodeOperationsClosed) then "interrupted" else "canceled")
                 (errorText e)
          else member
      | None => member
      end
  end.

Definition childRequest (origin : string) (member : NodeBatchMember) : NodeOperationRequest :=
  OpRequest "" origin (bm_OperationID member) (bt_Kind (bm_Target member))
    (bt_NodeID (bm_Target member)) None None [].

Definition childRecord (now : time) (root : NodeOperation) (member : NodeBatchMember) : NodeOperation :=
  let t := bm_Target member in
  Operation None (op_ID root) None (bm_OperationID member)
    (childRequest (or_Origin (op_Request root)) member) (bt_NodeID t) (bt_NodeSlug t) "running" now
    None "" 0 "" None "" (initialNodeOperationPhases (bt_Kind t)).

(** The second loop, which starts queued members within the two limits. *)
Fixpoint launchMembers (now : time) (faults : string -> writeOutcome) (root : NodeOperation)
    (members : list NodeBatchMember) (running active : Z) (m : nodeOperations)
    : list NodeBatchMember * nodeOperations :=
  match members with
  | [] => ([], m)
  | member :: members =>
      if negb (bm_State member =? "queued")%string || (nodeBatchParallelism <=? running) ||
         (nodeOperationLimit <=? active)
      then let '(rest, m) := launchMembers now faults root members running active m in
           (member :: rest, m)
      else
        let record := childRecord now root member in
        match persist (faults (bm_OperationID member)) record m with
        | (m, Err e) =>
            let '(rest, m) := launchMembers now faults root members running active m in
            (BatchMember (bm_Target member) (bm_OperationID member) "failed"
               (boundedOperationText (errorText e) 512) :: rest, m)
        | (m, Ok _) =>
            let m := setRecords (<[op_ID record := RunningOp record [] true None]> (mg_records m)) m in
            let '(rest, m) := launchMembers now faults root members (running + 1) (active + 1) m in
            (BatchMember (bm_Target member) (bm_OperationID member) "running" (bm_Error member) :: rest, m)
        end
  end.

(** The root's record when no member is queued or running any more. *)
Definition finishBatch (now : time) (cause : option go_error) (b : NodeBatchState) (r : NodeOperation)
    : NodeOperation :=
  let r := withState "succeeded" (withFinished (Some now) r) in
  let r := if negb (bs_Succeeded b =? bs_Total b)
           then withState "failed" (withError (summary b) (op_ErrorCode r) (op_ErrorCategory r) r)
           else r in
  if decide (cause = Some errNodeOperationCanceled) then withState "canceled" r
  else if decide (cause = Some errNodeOperationsClosed)
  then withState "interrupted" (withFinished None r)
  else r.

(** The members, and the manager with their children, after the two loops. *)
Definition batchMembers (now : time) (faults : string -> writeOutcome) (o : runningNodeOperation)
    (b : NodeBatchState) (m : nodeOperations) : list NodeBatchMember * nodeOperations :=
  let refreshed := map (refreshMember (ro_cause o) m) (bs_Members b) in
  match ro_cause o with
  | None => launchMembers now faults (ro_record o) refreshed
              (bs_Running (recount (withMembers refreshed b))) (executingCountLocked m) m
  | Some _ => (refreshed, m)
  end.

(** One critical section of [runBatch]; [true] when the loop ends. *)
Definition batchTick (now : time) (faults : string -> writeOutcome) (fault : writeOutcome)
    (id : string) (m : nodeOperations) : nodeOperations * bool :=
  match mg_records m !! id with
  | None => (m, false)
  | Some o =>
      match op_Batch (ro_record o) with
      | None => (m, false)
      | Some b =>
          let '(members, m) := batchMembers now faults o b m in
          let b' := recount (withMembers members b) in
          let done := bs_Queued b' + bs_Running b' =? 0 in
          let changed := done || negb (bool_decide (members = bs_Members b)) in
          let r := withBatch b' (ro_record o) in
          let r := if done then finishBatch now (ro_cause o) b' r else r in
          let o' := RunningOp r (ro_keys o) (if done then false else ro_cancel o) (ro_cause o) in
          if negb changed then (setRecords (<[id := o']> (mg_records m)) m, done)
          else match saved fault id o' m with
               | (m, Ok _) => (m, done)
               | (m, Err e) =>
                   (if done
                    then updateOp id (setRecord (withState "failed"
                           (withError (errorText e) (op_ErrorCode r) (op_ErrorCategory r) r))) m
                    else m, done)
               end
      end
  end.

(** ** Recovery *)

(** A receipt that was left running is interrupted. *)
Definition interruptRecord (record : NodeOperation) : NodeOperation :=
  if live (op_State record)
  then finishNodeOperationPhases "interrupted" None
         (withFinished None (withState "interrupted"
            (withError (errorText errNodeOperationsClosed) (op_ErrorCode record)
               (op_ErrorCategory record) record)))
  else record.

(** The loop over the receipts: [files] are the records in the order of the
    directory, [removals] and [writes] the faults of the two file operations. *)
Fixpoint loadLoop (now : time) (removals : string -> option go_error)
    (writes : string -> writeOutcome)
    (files : list (string * NodeOperation)) (m : nodeOperations) : result nodeOperations :=
  match files with
  | [] => Ok m
  | (id, record) :: files =>
      if negb (op_ID record =? id)%string
      then Err (ENew ("invalid operation record " +:+ id))
      else if operationExpired record now
      then match removals id with
           | Some e => Err e
           | None => loadLoop now removals writes files
                       (Manager (mg_closed m) (mg_records m) (delete id (mg_disk m)))
           end
      else
        let record' := interruptRecord record in
        match (if live (op_State record) then persist (writes id) record' m else (m, Ok tt)) with
        | (_, Err e) => Err e
        | (m, Ok _) =>
            loadLoop now removals writes files
              (setRecords (<[id := RunningOp record' [] false None]> (mg_records m)) m)
        end
  end.

Definition recoverMember (records : gmap string runningNodeOperation) (root : string)
    (member : NodeBatchMember) : NodeBatchMember :=
  let fallback :=
    if existsb (String.eqb (bm_State member)) ["queued"; "running"; "canceling"]%string
    then BatchMember (bm_Target member) (bm_OperationID member) "interrupted"
           (errorText errNodeOperationsClosed)
    else member in
  match records !! bm_OperationID member with
  | Some child =>
      if (op_BatchID (ro_record child) =? root)%string &&
         (op_NodeID (ro_record child) =? bt_NodeID (bm_Target member))%string
      then BatchMember (bm_Target member) (bm_OperationID member) (op_State (ro_record child))
             (boundedOperationText (op_Error (ro_record child)) 512)
      else fallback
  | None => fallback
  end.

(** [recoverBatches] over the records in some order. *)
Fixpoint recoverBatches (writes : string -> writeOutcome) (ids : list string) (m : nodeOperations)
    : result nodeOperations :=
  match ids with
  | [] => Ok m
  | id :: ids =>
      match mg_records m !! id with
      | None => recoverBatches writes ids m
      | Some o =>
          match op_Batch (ro_record o) with
          | None => recoverBatches writes ids m
          | Some b =>
              if negb (op_State (ro_record o) =? "interrupted")%string then recoverBatches writes ids m
              else
                let members := map (recoverMember (mg_records m) (op_ID (ro_record o))) (bs_Members b) in
                let r := withBatch (recount (withMembers members b)) (ro_record o) in
                match saved (writes id) id (setRecord r o) m with
                | (m, Ok _) => recoverBatches writes ids m
                | (_, Err e) => Err e
                end
          end
      end
  end.

Definition withTest (t : EnvironmentTestState) (r : NodeOperation) : NodeOperation :=
  Operation (op_Batch r) (op_BatchID r) (Some t) (op_ID r) (op_Request r) (op_NodeID r)
    (op_NodeSlug r) (op_State r) (op_CreatedAt r) (op_FinishedAt r) (op_Error r) (op_ErrorCode r)
    (op_ErrorCategory r) (op_Result r) (op_CurrentPhase r) (op_Phases r).

(** The loop that resumes the cleanup of environment tests. *)
Fixpoint recoverTests (validateEnvironmentTestPlan : EnvironmentTestState -> result unit)
    (writes : string -> writeOutcome) (ids : list string) (m : nodeOperations)
    : result nodeOperations :=
  match ids with
  | [] => Ok m
  | id :: ids =>
      match mg_records m !! id with
      | None => recoverTests validateEnvironmentTestPlan writes ids m
      | Some o =>
          match op_EnvironmentTest (ro_record o) with
          | None => recoverTests validateEnvironmentTestPlan writes ids m
          | Some t =>
              if negb (et_CleanupPending t)
              then recoverTests validateEnvironmentTestPlan writes ids m
              else
                _ ← validateEnvironmentTestPlan t;
                if negb (op_NodeID (ro_record o) =? nd_ID (et_PlanNode t))%string ||
                   negb (or_Kind (op_Request (ro_record o)) =? "test-environment")%string
                then Err (ENew "test cleanup receipt has inconsistent node ownership")
                else
                  let t' := if (et_Outcome t =? "")%string
                            then TestState (et_EnvironmentID t) (et_PlanNode t) (et_CleanupPending t)
                                   "interrupted" (errorText errNodeOperationsClosed)
                            else t in
                  let r := withState "running" (withFinished None (withTest t' (ro_record o))) in
                  match saved (writes id) id (RunningOp r (environmentTestKeys t') true None) m with
                  | (m, Ok _) => recoverTests validateEnvironmentTestPlan writes ids m
                  | (_, Err e) => Err e
                  end
          end
      end
  end.

(** [newNodeOperations] on the readable receipts of the directory; [order1] and
    [order2] are the iteration orders of the two loops over the records. *)
Definition newNodeOperations (validateEnvironmentTestPlan : EnvironmentTestState -> result unit)
    (now : time) (removals : string -> option go_error)
    (writes : string -> writeOutcome)
    (files : list (string * NodeOperation)) (order1 order2 : list string) : result nodeOperations :=
  m ← loadLoop now removals writes files (Manager false ∅ (list_to_map files));
  m ← recoverBatches writes order1 m;
  recoverTests validateEnvironmentTestPlan writes order2 m.

(** ** The manager as a transition system *)

Definition runningPhases (r : NodeOperation) : nat := length (List.filter phaseRunning (op_Phases r)).

(** No active operation but [id] holds the key. *)
Definition unreserved (id key : string) (m : nodeOperations) : Prop :=
  forall i o, mg_records m !! i = Some o -> i <> id -> ro_cancel o = true -> key ∉ ro_keys o.

(** The identifiers [prepareBatch] generates for the members differ. *)
Definition distinctMembers (su : submission) : Prop :=
  forall b, su_batch su = Some b -> NoDup (map bm_OperationID (bs_Members b)).

Definition isActive (id : string) (m : nodeOperations) : Prop :=
  exists o, mg_records m !! id = Some o /\ ro_cancel o = true.

(** One critical section at a time.  Generated identifiers are new: the members of
    a batch have distinct ones and no other operation holds the key of a created
    node; and [finishPhases] has run when an operation
    ends. *)
Inductive mstep : time -> nodeOperations -> nodeOperations -> Prop :=
| StepSubmit m m0 now0 now newIDs prepared faults fault request su :
    submitPrepare now0 newIDs prepared request m0 = inr su -> distinctMembers su ->
    mstep now m (submitLocked now faults fault su m).1
| StepBind m now fault id node :
    isActive id m -> unreserved id ("node:" +:+ nd_ID node) m ->
    mstep now m (bindCreatedNode fault id node m).1
| StepAdvance m now fault id phase detail skipped :
    isActive id m -> mstep now m (advancePhase now fault id phase detail skipped m).1
| StepFinishPhases m now failed id :
    isActive id m -> mstep now m (finishPhases now failed id m)
| StepFinish m now fault err stopFailed node id o :
    mg_records m !! id = Some o -> ro_cancel o = true -> op_Batch (ro_record o) = None ->
    runningPhases (ro_record o) = O ->
    mstep now m (finishOperation now fault err stopFailed node id m)
| StepTick m now faults fault id :
    isActive id m -> mstep now m (batchTick now faults fault id m).1
| StepCancel m now fault id : mstep now m (Cancel fault id m).1
| StepPrune m now faults : mstep now m (pruneLocked now faults m).1
| StepClose m now : mstep now m (Close m).

End Manager.
