(* ===== verification/NodeInvariant.v ===== *)
(** * The invariant of the lifecycle operations

    What every critical section of [NodeOperations] keeps: active operations
    own disjoint keys and stay within the limits, an operation is live exactly
    while it is active, at most one of its phases runs, and every retained
    record has a receipt of the same request.  Together with the answers to a
    repeated submission, the outcome of a batch and recovery. *)

From S2P Require Import Prelude GoText NodeOperations.
Local Open Scope Z_scope.

(** ** The invariant *)

Record record_ok (id : string) (o : runningNodeOperation) : Prop := {
  ok_id : op_ID (ro_record o) = id;
  ok_live : live (op_State (ro_record o)) = ro_cancel o;
  ok_queued : op_State (ro_record o) <> "queued"%string;
  ok_keys : Forall (fun k => blank k = false) (ro_keys o);
  ok_phases : (runningPhases (ro_record o) <= 1)%nat;
  ok_idle : ro_cancel o = false -> runningPhases (ro_record o) = O;
  ok_batch : op_Batch (ro_record o) <> None -> op_Phases (ro_record o) = [] /\ id <> ""%string;
  ok_members : forall b, op_Batch (ro_record o) = Some b -> NoDup (map bm_OperationID (bs_Members b));
}.

Definition keys_disjoint (m : nodeOperations) : Prop :=
  forall i j oi oj k,
    mg_records m !! i = Some oi -> mg_records m !! j = Some oj ->
    ro_cancel oi = true -> ro_cancel oj = true ->
    k ∈ ro_keys oi -> k ∈ ro_keys oj -> i = j.

(** A receipt is the record of an operation that was active when it was live. *)
Definition receipt_ok (id : string) (d : NodeOperation) : Prop :=
  record_ok id (RunningOp d [] (live (op_State d)) None).

Definition receipts (m : nodeOperations) : Prop :=
  forall id o, mg_records m !! id = Some o ->
    exists d, mg_disk m !! id = Some d /\ op_Request d = op_Request (ro_record o).

Record mg_inv (m : nodeOperations) : Prop := {
  inv_records : forall id o, mg_records m !! id = Some o -> record_ok id o;
  inv_receipts : receipts m;
  inv_disk : forall id d, mg_disk m !! id = Some d -> receipt_ok id d;
  inv_disjoint : keys_disjoint m;
  inv_roots : activeRoots m <= nodeOperationLimit;
  inv_executing : executingCountLocked m <= nodeOperationLimit;
}.

(** What an operation keeps from one critical section to the next. *)
Record evolves (o o' : runningNodeOperation) : Prop := {
  ev_request : op_Request (ro_record o') = op_Request (ro_record o);
  ev_batchID : op_BatchID (ro_record o') = op_BatchID (ro_record o);
  ev_batch : op_Batch (ro_record o') = None <-> op_Batch (ro_record o) = None;
  ev_cancel : ro_cancel o' = true -> ro_cancel o = true;
}.

(** ** Counting operations *)

Section count.
Context {A : Type} (P : string * A -> Prop) `{!forall x, Decision (P x)}.
Implicit Types m : gmap string A.

Lemma count_delete_le i m : (size (filter P (delete i m)) <= size (filter P m))%nat.
Proof.
  apply map_subseteq_size. rewrite map_filter_delete. apply delete_subseteq.
Qed.

Lemma count_insert_le i x m : (size (filter P (<[i := x]> m)) <= S (size (filter P m)))%nat.
Proof.
  rewrite map_filter_insert. case_decide.
  - rewrite map_size_insert. case_match; simpl; lia.
  - pose proof (count_delete_le i m). lia.
Qed.

Lemma count_insert_keep i x m :
  (P (i, x) -> exists y, m !! i = Some y /\ P (i, y)) ->
  (size (filter P (<[i := x]> m)) <= size (filter P m))%nat.
Proof.
  intros Hp. rewrite map_filter_insert. case_decide as Hx.
  - destruct (Hp Hx) as (y & Hy & Hpy). rewrite map_size_insert.
    by rewrite (map_lookup_filter_Some_2 P m i y Hy Hpy).
  - apply count_delete_le.
Qed.

Lemma count_insert_out i x m :
  ~ P (i, x) -> (forall y, m !! i = Some y -> ~ P (i, y)) ->
  size (filter P (<[i := x]> m)) = size (filter P m).
Proof.
  intros Hx Hy. rewrite map_filter_insert, decide_False by done. rewrite map_filter_delete.
  rewrite delete_id; [done|]. apply map_lookup_filter_None. by right.
Qed.

Lemma count_insert_new i x m :
  P (i, x) -> m !! i = None -> size (filter P (<[i := x]> m)) = S (size (filter P m)).
Proof.
  intros Hx Hi. rewrite map_filter_insert, decide_True by done. rewrite map_size_insert_None; [done|].
  apply map_lookup_filter_None. by left.
Qed.

Lemma count_fmap (f : A -> A) m :
  (forall i x, P (i, f x) <-> P (i, x)) -> size (filter P (f <$> m)) = size (filter P m).
Proof.
  intros Hf. rewrite map_filter_fmap, map_size_fmap. f_equal. apply map_filter_ext.
  intros i x _. apply Hf.
Qed.

Lemma count_submap m1 m2 : m1 ⊆ m2 -> (size (filter P m1) <= size (filter P m2))%nat.
Proof. intros Hsub. apply map_subseteq_size. by apply map_filter_subseteq_mono. Qed.
End count.

(** ** Keys *)

Lemma node_key s : blank ("node:" +:+ s) = false.
Proof. by apply nonblank_head. Qed.

Lemma slug_key s : blank ("slug:" +:+ s) = false.
Proof. by apply nonblank_head. Qed.

Lemma test_key s : blank ("environment-test:" +:+ s) = false.
Proof. by apply nonblank_head. Qed.

#[local] Hint Resolve node_key slug_key test_key : core.

Lemma conflicts_disjoint active requested k :
  operationConflicts active requested = false -> Forall (fun k => blank k = false) active ->
  k ∈ active -> k ∈ requested -> False.
Proof.
  intros H Hnb Ha Hr. unfold operationConflicts in H.
  destruct active as [|a active]; [by apply elem_of_nil in Ha|].
  destruct requested as [|r requested]; [by apply elem_of_nil in Hr|].
  rewrite Forall_forall in Hnb.
  assert (E : existsb (fun key => existsb (String.eqb key)
    (List.filter (fun key => negb (blank key)) (a :: active))) (r :: requested) = true); [|congruence].
  apply existsb_exists. exists k. split; [by apply list_elem_of_In|].
  apply existsb_exists. exists k. rewrite String.eqb_refl. split; [|done].
  apply filter_In. split; [by apply list_elem_of_In|]. by rewrite Hnb.
Qed.

Lemma conflicting_none keys m i o :
  conflicting keys m = None -> mg_records m !! i = Some o -> ro_cancel o = true ->
  operationConflicts (ro_keys o) keys = false.
Proof.
  unfold conflicting. intros H Ho Hc.
  destruct (List.find _ _) eqn:E; [done|].
  pose proof (List.find_none _ _ E (i, o)) as Hn. simpl in Hn. rewrite Hc in Hn. apply Hn.
  apply list_elem_of_In. by apply elem_of_map_to_list.
Qed.

(** ** Phases *)

Lemma pending_none phases :
  Forall (fun p => ph_State p = "pending"%string) phases -> List.filter phaseRunning phases = [].
Proof.
  induction 1 as [|p l Hp _ IH]; [done|]. simpl. unfold phaseRunning at 1. by rewrite Hp.
Qed.

Lemma initial_pending kind :
  Forall (fun p => ph_State p = "pending"%string) (initialNodeOperationPhases kind).
Proof. unfold initialNodeOperationPhases. repeat case_match; repeat constructor. Qed.

Lemma one_running (f : nat -> NodeOperationPhase -> NodeOperationPhase) index phases :
  (forall i p, phaseRunning (f i p) = true -> i = index) ->
  (length (List.filter phaseRunning (imap f phases)) <= 1)%nat.
Proof.
  revert f index. induction phases as [|p l IH]; intros f index Hf; [simpl; lia|].
  rewrite imap_cons. simpl. destruct (phaseRunning (f 0%nat p)) eqn:E; simpl.
  - apply Hf in E as Hi. subst index.
    enough (H0 : List.filter phaseRunning (imap (f ∘ S) l) = []) by (rewrite H0; simpl; lia).
    clear -Hf. assert (forall i q, phaseRunning ((f ∘ S) i q) = false) as Hn.
    { intros i q. destruct (phaseRunning ((f ∘ S) i q)) eqn:E; [|done]. by apply Hf in E. }
    clear Hf. revert Hn. generalize (f ∘ S). intros g. revert g.
    induction l as [|q l IH]; intros g Hg; [done|]. rewrite imap_cons. simpl.
    rewrite Hg. apply IH. intros i r. apply Hg.
  - destruct index as [|index].
    + apply (IH _ 0%nat). intros i q Hq. exfalso. by apply Hf in Hq.
    + apply (IH _ index). intros i q Hq. apply Hf in Hq. lia.
Qed.

Lemma advanced_running index now detail skipped phases :
  (length (List.filter phaseRunning (advancedPhases index now detail skipped phases)) <= 1)%nat.
Proof.
  apply (one_running _ index). intros i p. destruct (i =? index)%nat eqn:E.
  { intros _. by apply Nat.eqb_eq. }
  destruct (phaseRunning p) eqn:Hp; [done|congruence].
Qed.

Lemma finished_running state finished r :
  state <> "running"%string -> runningPhases (finishNodeOperationPhases state finished r) = O.
Proof.
  intros Hs. unfold runningPhases. simpl. induction (op_Phases r) as [|p l IH]; [done|].
  simpl. destruct (phaseRunning p) eqn:E; simpl.
  - unfold phaseRunning at 1. simpl. by rewrite (proj2 (String.eqb_neq _ _) Hs).
  - by rewrite E.
Qed.

Lemma findPhase_nil id : findPhase [] id = None.
Proof. done. Qed.

(** ** One critical section *)

(** Records that have not expired stay, and evolve. *)
Definition kept (now : time) (m m' : nodeOperations) : Prop :=
  forall i o, mg_records m !! i = Some o -> operationExpired (ro_record o) now = false ->
    exists o', mg_records m' !! i = Some o' /\ evolves o o'.

(** All records stay, and evolve. *)
Definition grows (m m' : nodeOperations) : Prop :=
  forall i o, mg_records m !! i = Some o -> exists o', mg_records m' !! i = Some o' /\ evolves o o'.

Definition step_ok (m m' : nodeOperations) : Prop := mg_inv m' /\ grows m m'.

Lemma record_receipt id o : record_ok id o -> receipt_ok id (ro_record o).
Proof. intros []. constructor; simpl; try done. intros H. apply ok_idle0. congruence. Qed.

Lemma evolves_refl o : evolves o o.
Proof. by constructor. Qed.
#[export] Hint Resolve evolves_refl : go.

Lemma evolves_trans o1 o2 o3 : evolves o1 o2 -> evolves o2 o3 -> evolves o1 o3.
Proof. intros [] []. constructor; try congruence; tauto. Qed.

Lemma step_ok_refl m : mg_inv m -> step_ok m m.
Proof. intros Hm. split; [done|]. intros i o Ho. exists o. by split; [|apply evolves_refl]. Qed.

Lemma grows_kept now m m' : grows m m' -> kept now m m'.
Proof. intros Hg i o Ho _. by apply Hg. Qed.

Section Steps.
Context (recordSize : NodeOperation -> Z) (requestSize : NodeOperationRequest -> Z)
  (parseUUID : string -> option string) (NodeByIDOrSlug NodeByID : string -> result Node).
Context (parse_nonempty : forall s u, parseUUID s = Some u -> u <> ""%string).

Abbreviation saved := (saved recordSize).
Abbreviation step := (mstep recordSize requestSize parseUUID NodeByIDOrSlug NodeByID).

Lemma persist_ok fault r m m' u :
  persist recordSize fault r m = (m', Ok u) ->
  m' = Manager (mg_closed m) (mg_records m) (<[op_ID r := r]> (mg_disk m)).
Proof. unfold persist. case_match; [done|]. case_match; [|done..]. by intros [= <-]. Qed.

(** Whatever it answers, at most the one receipt was written. *)
Lemma persist_disk fault r m m' x :
  persist recordSize fault r m = (m', x) ->
  exists disk', m' = Manager (mg_closed m) (mg_records m) disk' /\
    (disk' = mg_disk m \/ disk' = <[op_ID r := r]> (mg_disk m)).
Proof.
  unfold persist. destruct m as [c rs d]. case_match; [|case_match]; intros [= <- _]; eexists; eauto.
Qed.

Lemma receipt_inv m id d disk' :
  mg_inv m -> receipt_ok id d ->
  (forall o, mg_records m !! id = Some o -> op_Request d = op_Request (ro_record o)) ->
  disk' = mg_disk m \/ disk' = <[id := d]> (mg_disk m) ->
  mg_inv (Manager (mg_closed m) (mg_records m) disk').
Proof.
  intros [Hrec Hrecs Hval Hdis Hroot Hexec] Hd Hreq Hdisk. split; simpl; try done.
  - intros i o Hi. simpl in Hi. destruct (Hrecs i o Hi) as (di & Hdi & Hri).
    destruct Hdisk as [->| ->]; [by exists di|]. simpl. rewrite lookup_insert. case_decide as E; [|by exists di].
    subst. exists d. split; [done|]. by apply Hreq.
  - intros i di. destruct Hdisk as [->| ->]; [by apply Hval|]. rewrite lookup_insert. case_decide; [|by apply Hval].
    subst. by intros [= <-].
Qed.

Lemma record_update_ok m id o o' c disk' :
  mg_inv m -> mg_records m !! id = Some o -> evolves o o' -> record_ok id o' ->
  (forall k, k ∈ ro_keys o' -> k ∈ ro_keys o \/ unreserved id k m) ->
  disk' = mg_disk m \/ disk' = <[id := ro_record o']> (mg_disk m) ->
  step_ok m (Manager c (<[id := o']> (mg_records m)) disk').
Proof.
  intros [Hrec Hdisk Hval Hdis Hroot Hexec] Ho Hev Hok Hkeys Hd. split; [split|]; simpl.
  - intros i oi. rewrite lookup_insert. case_decide as E; [subst; by intros [= <-]|]. apply Hrec.
  - intros i oi Hi. simpl in Hi. rewrite lookup_insert in Hi.
    assert (exists d, mg_disk m !! i = Some d /\ op_Request d = op_Request (ro_record oi)) as (d & Hdi & Hr).
    { case_decide as E; [|by apply Hdisk]. subst. injection Hi as <-.
      destruct (Hdisk _ _ Ho) as (d & Hd1 & Hd2). exists d. split; [done|].
      rewrite Hd2. symmetry. apply Hev. }
    destruct Hd as [->| ->]; [by exists d|]. simpl. rewrite lookup_insert.
    case_decide as E; [|by exists d]. subst. injection Hi as <-. by eexists.
  - intros i d. destruct Hd as [->| ->]; [by apply Hval|]. rewrite lookup_insert.
    case_decide; [|by apply Hval]. subst. intros [= <-]. by apply record_receipt.
  - assert (Hn : forall j oj k, mg_records m !! j = Some oj -> j <> id -> ro_cancel oj = true ->
             ro_cancel o' = true -> k ∈ ro_keys oj -> k ∈ ro_keys o' -> False).
    { intros j oj k Hj Hne Hcj Hc' Hkj Hk. destruct (Hkeys k Hk) as [Hk'|Hk'].
      - apply Hne. apply (Hdis j id oj o k); try done. by apply Hev.
      - exact (Hk' j oj Hj Hne Hcj Hkj). }
    intros i j oi oj k Hi Hj Hci Hcj Hki Hkj. simpl in Hi, Hj.
    rewrite lookup_insert in Hi, Hj. repeat case_decide; simplify_eq; try done.
    + exfalso. by eapply (Hn i oi k).
    + exfalso. by eapply (Hn j oj k).
    + by apply (Hdis i j oi oj k).
  - unfold activeRoots in *. simpl. etrans; [|exact Hroot]. apply Nat2Z.inj_le, count_insert_keep.
    simpl. intros [H1 H2]. exists o. split; [done|]. split; [by apply Hev|].
    by rewrite <- (ev_batchID _ _ Hev).
  - unfold executingCountLocked in *. simpl. etrans; [|exact Hexec].
    apply Nat2Z.inj_le, count_insert_keep.
    simpl. intros [H1 H2]. exists o. split; [done|]. split; [by apply Hev|]. by apply Hev.
  - intros i oi Hi. simpl. rewrite lookup_insert. case_decide as E.
    + subst. rewrite Ho in Hi. injection Hi as <-. by exists o'.
    + rewrite Hi. by exists oi; split; [|apply evolves_refl].
Qed.

Lemma saved_records fault id o m : mg_records (saved fault id o m).1 = <[id := o]> (mg_records m).
Proof. unfold NodeOperations.saved, persist. repeat case_match; simplify_eq; done. Qed.

Lemma saved_ok fault m id o o' :
  mg_inv m -> mg_records m !! id = Some o -> evolves o o' -> record_ok id o' ->
  (forall k, k ∈ ro_keys o' -> k ∈ ro_keys o \/ unreserved id k m) ->
  step_ok m (saved fault id o' m).1.
Proof.
  intros Hm Ho Hev Hok Hkeys. unfold NodeOperations.saved.
  destruct (persist _ _ _ _) as [m' x] eqn:E. apply persist_disk in E as (disk' & -> & Hd).
  simpl in Hd. rewrite (ok_id _ _ Hok) in Hd. by eapply record_update_ok.
Qed.

Lemma updateOp_ok m id f :
  mg_inv m ->
  (forall o, mg_records m !! id = Some o ->
     evolves o (f o) /\ record_ok id (f o) /\ ro_keys (f o) = ro_keys o) ->
  step_ok m (updateOp id f m).
Proof.
  clear NodeByIDOrSlug NodeByID.
  intros Hm Hf. unfold updateOp. destruct (mg_records m !! id) as [o|] eqn:Ho.
  - destruct (Hf o eq_refl) as (? & ? & Hk). unfold setRecords.
    eapply record_update_ok; eauto. intros k. rewrite Hk. tauto.
  - by apply step_ok_refl.
Qed.

Lemma step_ok_trans m1 m2 m3 : step_ok m1 m2 -> step_ok m2 m3 -> step_ok m1 m3.
Proof.
  intros [H1 G1] [H2 G2]. split; [done|]. intros i o Ho.
  destruct (G1 i o Ho) as (o2 & Ho2 & He). destruct (G2 i o2 Ho2) as (o3 & Ho3 & He').
  exists o3. split; [done|]. exact (evolves_trans _ _ _ He He').
Qed.

(** *** Pruning *)

Lemma submap_ok m m' :
  mg_inv m -> mg_records m' ⊆ mg_records m ->
  (forall i, is_Some (mg_records m' !! i) -> mg_disk m' !! i = mg_disk m !! i) ->
  mg_disk m' ⊆ mg_disk m -> mg_inv m'.
Proof.
  intros [Hrec Hdisk Hval Hdis Hroot Hexec] Hsub Hd Hds.
  assert (Hin : forall i o, mg_records m' !! i = Some o -> mg_records m !! i = Some o)
    by (intros i o; by apply map_subseteq_spec).
  split.
  - eauto.
  - intros i o Ho. rewrite Hd by eauto. by apply Hdisk, Hin.
  - intros i d Hi. apply Hval. by eapply lookup_weaken.
  - intros i j oi oj k Hi Hj. apply Hdis; by apply Hin.
  - etrans; [|exact Hroot]. by apply Nat2Z.inj_le, count_submap.
  - etrans; [|exact Hexec]. by apply Nat2Z.inj_le, count_submap.
Qed.

Lemma pruneLoop_spec now faults l m :
  let '(m', r) := pruneLoop now faults l m in
  mg_records m' ⊆ mg_records m /\ mg_disk m' ⊆ mg_disk m /\
  (forall i, is_Some (mg_records m' !! i) -> mg_disk m' !! i = mg_disk m !! i) /\
  (forall i, is_Some (mg_records m !! i) -> mg_records m' !! i = None ->
     exists o, (i, o) ∈ l /\ operationExpired (ro_record o) now = true) /\
  (is_ok r = true -> forall i o, (i, o) ∈ l -> operationExpired (ro_record o) now = true ->
     mg_records m' !! i = None).
Proof.
  revert m. induction l as [|[id o] l IH]; intros m; simpl.
  { split_and!; [done|done|done|intros i [x Hx]; congruence|]. intros _ i o Hin. by apply elem_of_nil in Hin. }
  destruct (operationExpired (ro_record o) now) eqn:E; simpl.
  - destruct (faults id) as [e|].
    { split_and!; [done|done|done|intros i [x Hx]; congruence|done]. }
    specialize (IH (Manager (mg_closed m) (delete id (mg_records m)) (delete id (mg_disk m)))).
    destruct (pruneLoop _ _ _ _) as [m' r]. simpl in IH. destruct IH as (Hsub & Hds & Hd & Hgone & Hall).
    assert (Hid : mg_records m' !! id = None).
    { destruct (mg_records m' !! id) as [x|] eqn:Ex; [|done].
      pose proof (lookup_weaken _ _ _ _ Ex Hsub) as H. by rewrite lookup_delete_eq in H. }
    split_and!.
    + etrans; [exact Hsub|apply delete_subseteq].
    + etrans; [exact Hds|apply delete_subseteq].
    + intros i Hi. rewrite Hd by done. rewrite lookup_delete_ne; [done|].
      intros <-. rewrite Hid in Hi. by destruct Hi.
    + intros i Hi Hn. destruct (decide (i = id)) as [->|Hne].
      * exists o. split; [left|done].
      * destruct (Hgone i) as (o' & Hin & Ho'); [by rewrite lookup_delete_ne|done|].
        exists o'. split; [by right|done].
    + intros Hr i o' Hin Ho'. apply elem_of_cons in Hin as [[= -> ->]|Hin]; [done|]. by eapply Hall.
  - specialize (IH m). destruct (pruneLoop _ _ _ _) as [m' r]. destruct IH as (Hsub & Hds & Hd & Hgone & Hall).
    split_and!; [done|done|done| |].
    + intros i Hi Hn. destruct (Hgone i Hi Hn) as (o' & Hin & Ho'). exists o'. split; [by right|done].
    + intros Hr i o' Hin Ho'. apply elem_of_cons in Hin as [[= -> ->]|Hin]; [congruence|]. by eapply Hall.
Qed.

Lemma prune_spec now faults m m' r :
  pruneLocked now faults m = (m', r) -> mg_inv m ->
  mg_inv m' /\ mg_records m' ⊆ mg_records m /\ kept now m m' /\
  (is_ok r = true -> forall i o, mg_records m !! i = Some o ->
     operationExpired (ro_record o) now = true -> mg_records m' !! i = None).
Proof.
  unfold pruneLocked. intros E Hm. pose proof (pruneLoop_spec now faults (map_to_list (mg_records m)) m) as H.
  rewrite E in H. destruct H as (Hsub & Hds & Hd & Hgone & Hall). split_and!.
  - by eapply submap_ok.
  - done.
  - intros i o Ho He. destruct (mg_records m' !! i) as [o'|] eqn:Ho'.
    + pose proof (lookup_weaken _ _ _ _ Ho' Hsub). exists o'. split; [done|].
      replace o' with o by congruence. apply evolves_refl.
    + destruct (Hgone i) as (o' & Hin & He'); [by eexists|done|].
      apply elem_of_map_to_list in Hin. congruence.
  - intros Hr i o Ho. apply (Hall Hr). by apply elem_of_map_to_list.
Qed.

(** *** Submission *)

Lemma insert_inv m id o d c :
  mg_inv m -> record_ok id o -> d = ro_record o ->
  (forall i oi k, mg_records m !! i = Some oi -> ro_cancel oi = true -> k ∈ ro_keys oi ->
     k ∉ ro_keys o) ->
  (op_BatchID (ro_record o) = ""%string -> activeRoots m < nodeOperationLimit) ->
  (op_Batch (ro_record o) = None -> executingCountLocked m < nodeOperationLimit) ->
  mg_inv (Manager c (<[id := o]> (mg_records m)) (<[id := d]> (mg_disk m))).
Proof.
  clear recordSize NodeByIDOrSlug NodeByID.
  intros [Hrec Hdisk Hval Hdis Hroot Hexec] Hok Hd Hkeys Hr He. split; simpl.
  - intros i oi. rewrite lookup_insert. case_decide; [subst; by intros [= <-]|]. apply Hrec.
  - intros i oi. simpl. rewrite !lookup_insert. case_decide; [|apply Hdisk]. intros [= <-].
    rewrite Hd. by eexists.
  - intros i d'. rewrite lookup_insert. case_decide; [|apply Hval]. intros [= <-]. subst.
    by apply record_receipt.
  - intros i j oi oj k Hi Hj Hci Hcj Hki Hkj. simpl in Hi, Hj.
    rewrite lookup_insert in Hi, Hj. repeat case_decide; simplify_eq; try done.
    + exfalso. by eapply (Hkeys i oi k).
    + exfalso. by eapply (Hkeys j oj k).
    + by apply (Hdis i j oi oj k).
  - unfold activeRoots in *. simpl.
    destruct (decide (op_BatchID (ro_record o) = ""%string)) as [Hb|Hb].
    + specialize (Hr Hb). etrans; [apply Nat2Z.inj_le, count_insert_le|]. lia.
    + etrans; [|exact Hroot]. apply Nat2Z.inj_le, count_insert_keep. simpl. tauto.
  - unfold executingCountLocked in *. simpl. destruct (op_Batch (ro_record o)) as [b|] eqn:Hb.
    + etrans; [|exact Hexec]. apply Nat2Z.inj_le, count_insert_keep. simpl. rewrite Hb. by intros [].
    + specialize (He eq_refl). etrans; [apply Nat2Z.inj_le, count_insert_le|]. lia.
Qed.

Lemma prepareMembers_keys targets newIDs seen members keys :
  prepareMembers parseUUID NodeByID targets newIDs seen = Ok (members, keys) ->
  Forall (fun k => blank k = false) keys.
Proof.
  revert newIDs seen members keys. induction targets as [|t targets IH]; intros newIDs seen members keys; simpl.
  { intros [= <- <-]. constructor. }
  repeat case_match; try done.
  destruct (NodeByID _) as [node|e]; simpl; [|done]. repeat case_match; try done.
  destruct (prepareMembers _ _ _ _ _) as [[ms ks]|e] eqn:E; simpl; [|done]. intros [= <- <-].
  constructor; [apply node_key|]. constructor; [apply slug_key|]. by eapply IH.
Qed.

Lemma normalize_spec request request' node keys :
  normalize NodeByIDOrSlug request = Ok (request', node, keys) ->
  request' = request /\ Forall (fun k => blank k = false) keys.
Proof.
  unfold normalize. repeat case_match; try done; simpl.
  all: try (intros [= <- <- <-]; split; [done|]; repeat constructor; by auto).
  all: destruct (NodeByIDOrSlug _) as [nd|e]; simpl; [|done];
    intros [= <- <- <-]; (split; [done|]); repeat constructor; auto.
Qed.

Lemma submitPrepare_spec now newIDs prepared request m su :
  submitPrepare requestSize parseUUID NodeByIDOrSlug NodeByID now newIDs prepared request m = inr su ->
  (exists id, parseUUID (or_ID request) = Some id /\ su_request su = withID id request) /\
  Forall (fun k => blank k = false) (su_keys su) /\
  (su_batch su = None <-> or_Kind (su_request su) <> "batch"%string).
Proof.
  unfold submitPrepare. case_match; [done|]. destruct (parseUUID _) as [id|] eqn:Hid; [|done].
  case_match; [done|]. destruct (normalize _ _) as [[[request' node] keys]|e] eqn:E; [|done].
  apply normalize_spec in E as [-> Hkeys].
  destruct (or_Kind (withID id request) =? "batch")%string eqn:Hb.
  - destruct (prepareBatch _ _ _ _) as [[b ks]|e] eqn:E; [|done]. intros [= <-]. simpl.
    split; [by eexists|]. split.
    + unfold prepareBatch in E. case_match; [done|].
      destruct (prepareMembers _ _ _ _ _) as [[ms ks']|e] eqn:E'; simpl in E; [|done].
      injection E as <- <-. by eapply prepareMembers_keys.
    + bool_to_prop. simpl in Hb. rewrite Hb. split; [done|]. by intros [].
  - bool_to_prop. destruct (or_Kind _ =? "test-environment")%string.
    + destruct prepared as [t|e]; [|done]. intros [= <-]. simpl.
      split; [by eexists|]. split; [repeat constructor; auto|]. by split.
    + intros [= <-]. simpl. split; [by eexists|]. split; [done|]. by split.
Qed.

Lemma newRecord_ok now su :
  Forall (fun k => blank k = false) (su_keys su) ->
  (su_batch su = None <-> or_Kind (su_request su) <> "batch"%string) ->
  or_ID (su_request su) <> ""%string -> distinctMembers su ->
  record_ok (or_ID (su_request su)) (RunningOp (newRecord now su) (su_keys su) true None).
Proof.
  intros Hk Hb Hid Hd.
  assert (Hp : runningPhases (newRecord now su) = O).
  { unfold runningPhases. simpl. rewrite pending_none; [done|].
    apply Forall_app. split; [apply initial_pending|]. case_match; [apply initial_pending|constructor]. }
  constructor; simpl; try done; [lia|].
  intros Hne. split; [|done]. destruct (decide (or_Kind (su_request su) = "batch"%string)) as [->|Hn];
    [done|]. by apply Hb in Hn.
Qed.

Lemma repeated_none now request m o :
  repeatedRequestLocked now request m = None -> mg_records m !! or_ID request = Some o ->
  operationExpired (ro_record o) now = true.
Proof.
  unfold repeatedRequestLocked. intros H Ho. rewrite Ho in H. case_match; [done|]. by case_match.
Qed.

Lemma submit_ok m m0 now0 now newIDs prepared faults fault request su :
  submitPrepare requestSize parseUUID NodeByIDOrSlug NodeByID now0 newIDs prepared request m0 = inr su ->
  distinctMembers su -> mg_inv m ->
  mg_inv (submitLocked recordSize now faults fault su m).1 /\
  kept now m (submitLocked recordSize now faults fault su m).1.
Proof.
  intros Hsu Hdm Hm. apply submitPrepare_spec in Hsu as ((id & Hid & Hreq) & Hkeys & Hb).
  assert (Hne : or_ID (su_request su) <> ""%string) by (rewrite Hreq; by eapply parse_nonempty).
  pose proof (grows_kept now _ _ (proj2 (step_ok_refl m Hm))) as Hsame.
  unfold submitLocked. case_match; [by split|].
  destruct (repeatedRequestLocked _ _ _) as [a|] eqn:Hrep; [by split|].
  destruct (pruneLocked now faults m) as [m1 r] eqn:Hprune.
  destruct (prune_spec _ _ _ _ _ Hprune Hm) as (Hm1 & Hsub & Hkept & Hall).
  destruct r as [[]|e]; [|by split]. destruct (conflicting _ _) as [other|] eqn:Hconf; [by split|].
  case_match eqn:Hlimit; [by split|]. bool_to_prop.
  assert (Hnone : mg_records m1 !! or_ID (su_request su) = None).
  { destruct (mg_records m1 !! or_ID (su_request su)) as [o|] eqn:Ho; [|done].
    pose proof (lookup_weaken _ _ _ _ Ho Hsub) as Ho0.
    pose proof (Hall eq_refl _ _ Ho0 (repeated_none _ _ _ _ Hrep Ho0)). congruence. }
  destruct (persist _ _ _ _) as [m2 [u|e]] eqn:Hper; cycle 1.
  { apply persist_disk in Hper as (disk' & -> & Hd). split; [|exact Hkept].
    eapply (receipt_inv m1 (or_ID (su_request su))); [done| | |exact Hd].
    - apply (record_receipt _ (RunningOp (newRecord now su) (su_keys su) true None)).
      by apply newRecord_ok.
    - intros o Ho. simpl in Hnone. congruence. }
  apply persist_ok in Hper as ->. simpl.
  split.
  - apply insert_inv; try done.
    + by apply newRecord_ok.
    + intros i oi k Hi Hc Hk Hk'.
      eapply conflicts_disjoint; [|by apply (inv_records _ Hm1 i oi)|exact Hk|exact Hk'].
      by eapply conflicting_none.
    + simpl. intros Hnb. apply Hb in Hnb. rewrite (proj2 (String.eqb_neq _ _) Hnb) in *.
      simpl in *. bool_to_prop. done.
  - intros i o Ho He. destruct (Hkept i o Ho He) as (o1 & Ho1 & Hev).
    exists o1. split; [|done]. simpl. rewrite lookup_insert_ne; [done|]. intros <-. congruence.
Qed.

(** *** The running operation *)

Definition core (r : NodeOperation) :=
  (op_ID r, op_Request r, op_BatchID r, op_Batch r, op_Phases r, op_CreatedAt r).

Definition terminal (state : string) : bool :=
  existsb (String.eqb state) ["succeeded"; "failed"; "canceled"; "interrupted"]%string.

Lemma terminal_states state : terminal state = true -> live state = false /\ state <> "queued"%string.
Proof.
  unfold terminal. simpl. intros H. rewrite !orb_true_iff in H.
  destruct H as [H|[H|[H|[H|H]]]]; [..|done]; bool_to_prop; by subst.
Qed.

(** An operation that only changes its record, and not its core. *)
Lemma core_ok id o r :
  record_ok id o -> core r = core (ro_record o) -> live (op_State r) = ro_cancel o ->
  op_State r <> "queued"%string ->
  record_ok id (setRecord r o) /\ evolves o (setRecord r o).
Proof.
  intros [] Hc Hl Hq. unfold core in Hc. injection Hc as Hid Hreq Hbid Hb Hp Hat.
  unfold runningPhases in *. split; constructor; simpl; unfold runningPhases in *;
    rewrite ?Hid, ?Hreq, ?Hbid, ?Hb, ?Hp; try done.
Qed.

(** An operation that ends. *)
Lemma ended_ok id o r :
  record_ok id o -> core r = core (ro_record o) -> terminal (op_State r) = true ->
  runningPhases (ro_record o) = O ->
  record_ok id (RunningOp r (ro_keys o) false (ro_cause o)) /\
  evolves o (RunningOp r (ro_keys o) false (ro_cause o)).
Proof.
  intros [] Hc Ht Hp0. apply terminal_states in Ht as [Hl Hq].
  unfold core in Hc. injection Hc as Hid Hreq Hbid Hb Hp Hat.
  unfold runningPhases in *. split; constructor; simpl; unfold runningPhases in *;
    rewrite ?Hid, ?Hreq, ?Hbid, ?Hb, ?Hp; try done; lia.
Qed.

Lemma bind_ok fault id node m :
  mg_inv m -> isActive id m -> unreserved id ("node:" +:+ nd_ID node) m ->
  step_ok m (bindCreatedNode recordSize fault id node m).1.
Proof.
  intros Hm (o & Ho & Hc) Hun. unfold bindCreatedNode. rewrite Ho.
  pose proof (inv_records _ Hm _ _ Ho) as [].
  eapply saved_ok; eauto.
  - by constructor.
  - constructor; try done. simpl. apply Forall_app. split; [done|]. by repeat constructor.
  - simpl. intros k Hk. apply elem_of_app in Hk as [Hk|Hk]; [by left|].
    apply list_elem_of_singleton in Hk as ->. by right.
Qed.

Lemma advance_ok now fault id phase detail skipped m :
  mg_inv m -> isActive id m -> step_ok m (advancePhase recordSize now fault id phase detail skipped m).1.
Proof.
  intros Hm (o & Ho & Hc). unfold advancePhase. rewrite Ho.
  case_match; [by apply step_ok_refl|].
  destruct (findPhase _ _) as [index|] eqn:Hf; [|by apply step_ok_refl].
  pose proof (inv_records _ Hm _ _ Ho) as [].
  eapply saved_ok; eauto.
  - by constructor.
  - constructor; try done; simpl.
    + apply advanced_running.
    + congruence.
    + intros Hb. destruct (ok_batch0 Hb) as [Hp _]. rewrite Hp in Hf. done.
Qed.

Lemma finishPhases_ok now failed id m :
  mg_inv m -> isActive id m -> step_ok m (finishPhases now failed id m).
Proof.
  intros Hm (o & Ho & Hc). apply updateOp_ok; [done|]. intros o0 Ho0.
  replace o0 with o in * by congruence.
  pose proof (inv_records _ Hm _ _ Ho) as []. split_and!; [by constructor| |done].
  assert (Hr : forall st, st <> "running"%string ->
    runningPhases (finishNodeOperationPhases st (Some now) (ro_record o)) = O)
    by (intros; by apply finished_running).
  constructor; try done; simpl in *.
  - rewrite Hr; [lia|]. by repeat case_match.
  - congruence.
  - intros Hb. destruct (ok_batch0 Hb) as [-> ?]. done.
Qed.

Lemma finish_ok now fault err stopFailed node id m o :
  mg_inv m -> mg_records m !! id = Some o -> runningPhases (ro_record o) = O ->
  step_ok m (finishOperation recordSize now fault err stopFailed node id m).
Proof.
  intros Hm Ho Hp. unfold finishOperation. rewrite Ho. cbv zeta.
  pose proof (inv_records _ Hm _ _ Ho) as Hok.
  match goal with |- context [NodeOperations.saved _ _ _ (RunningOp ?x _ _ _) _] => set (r := x) end.
  assert (core r = core (ro_record o) /\ terminal (op_State r) = true) as [Hcore Hterm].
  { subst r. destruct err, node, (_ && negb stopFailed), (bool_decide _);
      match goal with |- context [if ?b then _ else _] => destruct b end; by split. }
  destruct (ended_ok id o r Hok Hcore Hterm Hp) as [Hok' Hev].
  destruct (saved_ok fault m id o _ Hm Ho Hev Hok' ltac:(by left)) as [Hm' Hg].
  destruct (NodeOperations.saved _ _ _ _ _) as [m' [[]|e]] eqn:Es; [by split|].
  eapply step_ok_trans; [by split|]. apply updateOp_ok; [done|]. intros o1 Ho1.
  pose proof (saved_records fault id (RunningOp r (ro_keys o) false (ro_cause o)) m) as Hr'.
  rewrite Es in Hr'. simpl in Hr'. rewrite Hr', lookup_insert_eq in Ho1. injection Ho1 as <-.
  destruct (core_ok id (RunningOp r (ro_keys o) false (ro_cause o))
    (withState "failed" (withError match err with
         | Some e0 => errorText e0 +:+ newline +:+ errorText e | None => errorText e end 7 "Internal" r)))
    as [Hok2 Hev2]; try done.
Qed.

Lemma cancelWith_ok cause id o :
  record_ok id o -> record_ok id (cancelWith cause o) /\ evolves o (cancelWith cause o).
Proof. intros []. by split; constructor. Qed.

(** Cancelling contexts only changes causes. *)
Lemma causes_ok m c f :
  mg_inv m -> (forall o, f o = o \/ exists cause, f o = cancelWith cause o) ->
  step_ok m (Manager c (f <$> mg_records m) (mg_disk m)).
Proof.
  intros [Hrec Hdisk Hval Hdis Hroot Hexec] Hf.
  assert (Hfr : forall o, ro_record (f o) = ro_record o /\ ro_keys (f o) = ro_keys o /\
                          ro_cancel (f o) = ro_cancel o).
  { intros o. by destruct (Hf o) as [->|[cause ->]]. }
  split; [split|]; simpl.
  - intros i o. rewrite lookup_fmap. intros (o0 & Ho0 & ->)%fmap_Some.
    destruct (Hf o0) as [->|[cause ->]]; [by apply Hrec|]. by apply cancelWith_ok, Hrec.
  - intros i o. simpl. rewrite lookup_fmap. intros (o0 & Ho0 & ->)%fmap_Some.
    destruct (Hfr o0) as (-> & _). by apply Hdisk.
  - by apply Hval.
  - intros i j oi oj k. simpl. rewrite !lookup_fmap.
    intros (o1 & Ho1 & ->)%fmap_Some (o2 & Ho2 & ->)%fmap_Some.
    destruct (Hfr o1) as (_ & -> & ->). destruct (Hfr o2) as (_ & -> & ->). by apply Hdis.
  - unfold activeRoots in *. simpl. rewrite count_fmap; [done|]. simpl. intros _ o.
    by destruct (Hfr o) as (-> & _ & ->).
  - unfold executingCountLocked in *. simpl. rewrite count_fmap; [done|]. simpl. intros _ o.
    by destruct (Hfr o) as (-> & _ & ->).
  - intros i o Ho. simpl. rewrite lookup_fmap, Ho. exists (f o). split; [done|].
    destruct (Hf o) as [->|[cause ->]]; [apply evolves_refl|]. by constructor.
Qed.

Lemma cancel_ok fault id m : mg_inv m -> step_ok m (Cancel recordSize fault id m).1.
Proof.
  intros Hm. unfold Cancel. destruct (mg_records m !! id) as [o|] eqn:Ho; [|by apply step_ok_refl].
  destruct (ro_cancel o) eqn:Hc; simpl; [|by apply step_ok_refl].
  pose proof (inv_records _ Hm _ _ Ho) as Hok.
  destruct (core_ok id o (withState "canceling" (ro_record o)) Hok) as [Hok' Hev]; try done.
  destruct (persist _ _ _ _) as [m' [u|e]] eqn:E; cycle 1.
  { apply persist_disk in E as (disk' & -> & Hd). cbn [op_ID withState] in Hd. rewrite (ok_id _ _ Hok) in Hd.
    split; [|exact (proj2 (step_ok_refl m Hm))].
    eapply (receipt_inv m id); [done|exact (record_receipt _ _ Hok')| |exact Hd].
    intros o1 Ho1. rewrite Ho in Ho1. by injection Ho1 as <-. }
  apply persist_ok in E as ->. simpl.
  eapply step_ok_trans.
  - apply (record_update_ok m id o (setRecord (withState "canceling" (ro_record o)) o) (mg_closed m)
             (<[id := withState "canceling" (ro_record o)]> (mg_disk m)) Hm Ho Hev Hok'); [by left|].
    by right.
  - simpl. rewrite (ok_id _ _ Hok). apply causes_ok.
    + apply (record_update_ok m id o (setRecord (withState "canceling" (ro_record o)) o) (mg_closed m)
             (<[id := withState "canceling" (ro_record o)]> (mg_disk m)) Hm Ho Hev Hok'); [by left|].
      by right.
    + intros o'. case_match; [|by left]. right. by eexists.
Qed.

Lemma close_ok m : mg_inv m -> step_ok m (Close m).
Proof.
  intros Hm. apply causes_ok; [done|]. intros o. case_match; [|by left]. right. by eexists.
Qed.

(** *** Batches *)

Lemma childRecord_ok now root member :
  record_ok (bm_OperationID member) (RunningOp (childRecord now root member) [] true None).
Proof.
  assert (Hp : runningPhases (childRecord now root member) = O).
  { unfold runningPhases. simpl. rewrite pending_none; [done|]. apply initial_pending. }
  constructor; simpl; try done. lia.
Qed.

(** What becomes of a queued member in the second loop. *)
Definition launched (now : time) (root : NodeOperation) (m' : nodeOperations) (a b : NodeBatchMember)
    : Prop :=
  b = a \/
  bm_State a = "queued"%string /\ bm_Target b = bm_Target a /\ bm_OperationID b = bm_OperationID a /\
  (bm_State b = "failed"%string \/
   bm_State b = "running"%string /\
   mg_records m' !! bm_OperationID a = Some (RunningOp (childRecord now root a) [] true None) /\
   mg_disk m' !! bm_OperationID a = Some (childRecord now root a)).

Definition queuedAt (i : string) (members : list NodeBatchMember) : Prop :=
  exists a, a ∈ members /\ bm_State a = "queued"%string /\ bm_OperationID a = i.

Lemma queuedAt_cons i a members : queuedAt i members -> queuedAt i (a :: members).
Proof. intros (x & Hx & ?). exists x. split; [by right|done]. Qed.

Lemma launch_keeps now faults root members running active m i :
  ~ queuedAt i members ->
  let m' := (launchMembers recordSize now faults root members running active m).2 in
  mg_records m' !! i = mg_records m !! i /\ mg_disk m' !! i = mg_disk m !! i.
Proof.
  revert running active m. induction members as [|a members IH]; intros running active m Hq; simpl; [done|].
  assert (Hq' : ~ queuedAt i members) by (intros H; apply Hq; by apply queuedAt_cons).
  case_match eqn:E; [|bool_to_prop; destruct (persist _ _ _ _) as [m1 x] eqn:Ep].
  { specialize (IH running active m Hq'). by destruct (launchMembers _ _ _ _ _ _ _ _). }
  assert (Hne : bm_OperationID a <> i).
  { intros <-. apply Hq. exists a. split; [left|done]. }
  apply persist_disk in Ep as (disk' & -> & Hd).
  assert (Hdisk : disk' !! i = mg_disk m !! i).
  { destruct Hd as [->| ->]; [done|]. simpl. by rewrite lookup_insert_ne. }
  destruct x as [u|e];
    match goal with |- context [launchMembers _ _ _ _ _ ?r ?c ?x] => specialize (IH r c x Hq') end;
    destruct (launchMembers _ _ _ _ _ _ _ _); simpl in *; rewrite <- Hdisk; [|done].
  by rewrite lookup_insert_ne in IH.
Qed.

Lemma queued_later a members : NoDup (map bm_OperationID (a :: members)) -> ~ queuedAt (bm_OperationID a) members.
Proof.
  intros Hnd (x & Hx & _ & Hid). apply NoDup_cons in Hnd as [Ha _]. apply Ha. rewrite <- Hid.
  by apply list_elem_of_In, in_map, list_elem_of_In.
Qed.

Lemma launch_inv now faults root members running active m :
  mg_inv m -> op_ID root <> ""%string -> executingCountLocked m <= active ->
  NoDup (map bm_OperationID members) -> (forall i, queuedAt i members -> mg_records m !! i = None) ->
  mg_inv (launchMembers recordSize now faults root members running active m).2.
Proof.
  intros Hm Hroot. revert running active m Hm.
  induction members as [|a members IH]; intros running active m Hm Hact Hnd Hnew; simpl; [done|].
  pose proof (queued_later _ _ Hnd) as Hlater. apply NoDup_cons in Hnd as [_ Hnd].
  assert (Hnew' : forall i, queuedAt i members -> mg_records m !! i = None)
    by (intros i Hi; apply Hnew; by apply queuedAt_cons).
  case_match eqn:E; [|bool_to_prop; destruct (persist _ _ _ _) as [m1 [u|e]] eqn:Ep].
  - specialize (IH running active m Hm Hact Hnd Hnew'). by destruct (launchMembers _ _ _ _ _ _ _ _).
  - apply persist_ok in Ep as ->.
    match goal with |- context [launchMembers _ _ _ _ _ ?r ?c ?x] =>
      specialize (IH r c x); destruct (launchMembers _ _ _ _ _ r c x) as [ms mm] end.
    simpl in *. apply IH; [| |done|].
    + apply insert_inv; try done.
      * apply childRecord_ok.
      * intros i oi k _ _ _. apply not_elem_of_nil.
      * simpl. lia.
    + unfold executingCountLocked in *. simpl. etrans; [apply Nat2Z.inj_le, count_insert_le|]. lia.
    + intros i Hi. rewrite lookup_insert_ne; [by apply Hnew'|]. intros <-. done.
  - apply persist_disk in Ep as (disk' & -> & Hd).
    match goal with |- context [launchMembers _ _ _ _ _ ?r ?c ?x] =>
      specialize (IH r c x); destruct (launchMembers _ _ _ _ _ r c x) as [ms mm] end.
    apply IH; [|done|done|done]. eapply receipt_inv; [done| | |exact Hd].
    + exact (record_receipt _ _ (childRecord_ok now root a)).
    + simpl. intros o Ho. rewrite Hnew in Ho; [done|]. exists a. by split; [left|].
Qed.

Lemma launch_members now faults root members running active m :
  NoDup (map bm_OperationID members) ->
  let '(members', m') := launchMembers recordSize now faults root members running active m in
  Forall2 (launched now root m') members members'.
Proof.
  revert running active m. induction members as [|a members IH]; intros running active m Hnd; simpl.
  { constructor. }
  pose proof (queued_later _ _ Hnd) as Hq. apply NoDup_cons in Hnd as [_ Hnd].
  match goal with |- context [if ?c then _ else _] => destruct c eqn:E end; [|bool_to_prop; destruct (persist _ _ _ _) as [m1 [u|e]] eqn:Ep].
  - specialize (IH running active m Hnd). destruct (launchMembers _ _ _ _ _ _ _ _).
    constructor; [by left|done].
  - apply persist_ok in Ep as ->.
    match goal with |- context [launchMembers _ _ _ _ _ ?r ?c ?x] =>
      specialize (IH r c x Hnd); pose proof (launch_keeps now faults root members r c x _ Hq) as Hk;
      destruct (launchMembers _ _ _ _ _ r c x) as [ms mm] end.
    constructor; [|done]. right. simpl in Hk. rewrite !lookup_insert_eq in Hk. destruct Hk.
    split_and!; try done. by right.
  - specialize (IH running active m1 Hnd). destruct (launchMembers _ _ _ _ _ _ _ _).
    constructor; [|done]. right. split_and!; try done. by left.
Qed.

Lemma countState_cons states a members :
  countState states (a :: members) =
  (if existsb (String.eqb (bm_State a)) states then 1 else 0) + countState states members.
Proof. unfold countState. simpl. case_match; [by rewrite zlen_cons|lia]. Qed.

Lemma launch_parallelism now faults root members running active m :
  let '(members', _) := launchMembers recordSize now faults root members running active m in
  running + countState ["running"; "canceling"]%string members' -
    countState ["running"; "canceling"]%string members <= Z.max running nodeBatchParallelism.
Proof.
  revert running active m. induction members as [|a members IH]; intros running active m; simpl; [lia|].
  match goal with |- context [if ?c then _ else _] => destruct c eqn:E end;
    [|bool_to_prop; destruct (persist _ _ _ _) as [m1 [u|e]] eqn:Ep].
  - specialize (IH running active m). destruct (launchMembers _ _ _ _ _ _ _ _).
    rewrite !countState_cons. lia.
  - match goal with |- context [launchMembers _ _ _ _ _ ?r ?c ?x] =>
      specialize (IH r c x); destruct (launchMembers _ _ _ _ _ r c x) as [ms mm] end.
    rewrite !countState_cons. simpl. repeat case_match; lia.
  - specialize (IH running active m1). destruct (launchMembers _ _ _ _ _ _ _ _).
    rewrite !countState_cons. simpl. repeat case_match; lia.
Qed.

(** Members stay queued only at a limit. *)
Lemma launch_work_conserving now faults root members running active m :
  let '(members', _) := launchMembers recordSize now faults root members running active m in
  let started := countState ["running"; "canceling"]%string members' -
                 countState ["running"; "canceling"]%string members in
  0 <= started /\
  ((exists a, a ∈ members' /\ bm_State a = "queued"%string) ->
     nodeBatchParallelism <= running + started \/ nodeOperationLimit <= active + started).
Proof.
  revert running active m. induction members as [|a members IH]; intros running active m; simpl.
  { split; [done|]. intros (a & Ha & _). by apply elem_of_nil in Ha. }
  match goal with |- context [if ?c then _ else _] => destruct c eqn:E end;
    [|bool_to_prop; destruct (persist _ _ _ _) as [m1 [u|e]] eqn:Ep].
  - specialize (IH running active m). destruct (launchMembers _ _ _ _ _ _ _ _) as [ms mm].
    rewrite !countState_cons. destruct IH as [IH1 IH2]. split; [lia|]. intros (x & Hx & Hq).
    apply elem_of_cons in Hx as [->|Hx].
    + rewrite Hq in E. simpl in E. apply orb_true_iff in E as [E|E]; bool_to_prop; lia.
    + specialize (IH2 ltac:(by exists x)). lia.
  - match goal with |- context [launchMembers _ _ _ _ _ ?r ?c ?x] =>
      specialize (IH r c x); destruct (launchMembers _ _ _ _ _ r c x) as [ms mm] end.
    rewrite !countState_cons. simpl. destruct IH as [IH1 IH2].
    match goal with H : bm_State a = _ |- _ => rewrite H end. simpl. split; [lia|].
    intros (x & Hx & Hq). apply elem_of_cons in Hx as [->|Hx]; [done|].
    specialize (IH2 ltac:(by exists x)). lia.
  - specialize (IH running active m1). destruct (launchMembers _ _ _ _ _ _ _ _) as [ms mm].
    rewrite !countState_cons. simpl. destruct IH as [IH1 IH2].
    match goal with H : bm_State a = _ |- _ => rewrite H end. simpl. split; [lia|].
    intros (x & Hx & Hq). apply elem_of_cons in Hx as [->|Hx]; [done|].
    specialize (IH2 ltac:(by exists x)). lia.
Qed.

Lemma launch_executing now faults root members running active m :
  NoDup (map bm_OperationID members) ->
  (forall i, queuedAt i members -> mg_records m !! i = None) ->
  let '(members', m') := launchMembers recordSize now faults root members running active m in
  executingCountLocked m' = executingCountLocked m +
    (countState ["running"; "canceling"]%string members' - countState ["running"; "canceling"]%string members).
Proof.
  revert running active m. induction members as [|a members IH]; intros running active m Hnd Hnew; simpl; [lia|].
  apply NoDup_cons in Hnd as [Ha Hnd].
  assert (Hnew' : forall i, queuedAt i members -> mg_records m !! i = None)
    by (intros i Hi; apply Hnew; by apply queuedAt_cons).
  match goal with |- context [if ?c then _ else _] => destruct c eqn:E end;
    [|bool_to_prop; destruct (persist _ _ _ _) as [m1 [u|e]] eqn:Ep].
  - specialize (IH running active m Hnd Hnew'). destruct (launchMembers _ _ _ _ _ _ _ _).
    rewrite !countState_cons. lia.
  - apply persist_ok in Ep as ->.
    match goal with |- context [launchMembers _ _ _ _ _ ?r ?c ?x] =>
      specialize (IH r c x Hnd); destruct (launchMembers _ _ _ _ _ r c x) as [ms mm] end.
    rewrite !countState_cons. simpl.
    match goal with H : bm_State a = _ |- _ => rewrite H end. simpl.
    rewrite IH.
    + unfold executingCountLocked. simpl. rewrite count_insert_new; [lia|done|].
      apply Hnew. exists a. split; [left|done].
    + intros i (x & Hx & Hq & <-). simpl. rewrite lookup_insert_ne; [by apply Hnew'; exists x|].
      intros Hid. apply Ha. rewrite Hid. by apply list_elem_of_In, in_map, list_elem_of_In.
  - apply persist_disk in Ep as (disk' & -> & _). specialize (IH running active (Manager (mg_closed m) (mg_records m) disk') Hnd Hnew'). destruct (launchMembers _ _ _ _ _ _ _ _).
    rewrite !countState_cons. simpl.
    match goal with H : bm_State a = _ |- _ => rewrite H end.
    unfold executingCountLocked in *. simpl in *. lia.
Qed.

Definition memberKey (mb : NodeBatchMember) := (bm_Target mb, bm_OperationID mb).

Lemma refresh_keys cause m members :
  map memberKey (map (refreshMember cause m) members) = map memberKey members.
Proof.
  induction members as [|a members IH]; [done|]. simpl. rewrite IH. f_equal.
  unfold refreshMember, memberKey. by repeat case_match.
Qed.

Lemma keys_operationIDs l k :
  map memberKey l = map memberKey k -> map bm_OperationID l = map bm_OperationID k.
Proof.
  intros H. apply (f_equal (map snd)) in H. by rewrite !map_map in H.
Qed.

Lemma launch_memberKeys now faults root members running active m :
  map memberKey (launchMembers recordSize now faults root members running active m).1 = map memberKey members.
Proof.
  revert running active m. induction members as [|a members IH]; intros running active m; simpl; [done|].
  case_match; [|destruct (persist _ _ _ _) as [m1 [u|e]]];
    match goal with |- context [launchMembers _ _ _ _ _ ?r ?c ?x] => specialize (IH r c x) end;
    destruct (launchMembers _ _ _ _ _ _ _ _); simpl in *; by rewrite IH.
Qed.

Lemma batchMembers_keys now faults o b m :
  map memberKey (batchMembers recordSize now faults o b m).1 = map memberKey (bs_Members b).
Proof.
  unfold batchMembers. destruct (ro_cause o) eqn:E; simpl; [|rewrite launch_memberKeys]; apply refresh_keys.
Qed.

(** The root of a batch keeps everything that matters to the invariant. *)
Lemma root_ok id o r c cause :
  record_ok id o -> op_Batch (ro_record o) <> None -> op_Batch r <> None ->
  (op_ID r, op_Request r, op_BatchID r, op_Phases r) =
    (op_ID (ro_record o), op_Request (ro_record o), op_BatchID (ro_record o), op_Phases (ro_record o)) ->
  live (op_State r) = c -> op_State r <> "queued"%string -> (c = true -> ro_cancel o = true) ->
  (forall b, op_Batch r = Some b -> NoDup (map bm_OperationID (bs_Members b))) ->
  record_ok id (RunningOp r (ro_keys o) c cause) /\ evolves o (RunningOp r (ro_keys o) c cause).
Proof.
  intros [] Hb Hb' Hc Hl Hq Himp Hnd. injection Hc as Hid Hreq Hbid Hp. destruct (ok_batch0 Hb) as [Hnil Hne].
  split; constructor; simpl; unfold runningPhases in *; rewrite ?Hid, ?Hreq, ?Hbid, ?Hp, ?Hnil; try done; simpl; lia.
Qed.

Lemma finishBatch_spec now cause b r :
  core (finishBatch now cause b r) = core r /\ terminal (op_State (finishBatch now cause b r)) = true.
Proof. unfold finishBatch. repeat case_decide; case_match; by split. Qed.

Lemma refreshed_queued m o b i oi :
  mg_inv m -> mg_records m !! i = Some oi ->
  ~ queuedAt i (map (refreshMember (ro_cause o) m) (bs_Members b)).
Proof.
  intros Hm Hi (a & Ha & Hq & <-). apply list_elem_of_In, in_map_iff in Ha as (a0 & <- & _).
  unfold refreshMember in *. destruct (mg_records m !! bm_OperationID a0) as [child|] eqn:Hc; simpl in *.
  - by apply (ok_queued _ _ (inv_records _ Hm _ _ Hc)).
  - destruct (ro_cause o); simpl in *; [|congruence]. case_match; simpl in *; [|congruence].
    by case_decide.
Qed.

Lemma batchMembers_ok now faults o b m id :
  mg_inv m -> mg_records m !! id = Some o -> op_Batch (ro_record o) = Some b ->
  step_ok m (batchMembers recordSize now faults o b m).2 /\
  mg_records (batchMembers recordSize now faults o b m).2 !! id = Some o.
Proof.
  intros Hm Ho Hb. unfold batchMembers. destruct (ro_cause o) eqn:Hcause; simpl.
  { split; [by apply step_ok_refl|done]. }
  assert (Hk : forall i oi, mg_records m !! i = Some oi ->
    mg_records (launchMembers recordSize now faults (ro_record o)
      (map (refreshMember None m) (bs_Members b))
      (countState ["running"; "canceling"]%string (map (refreshMember None m) (bs_Members b)))
      (executingCountLocked m) m).2 !! i = Some oi).
  { intros i oi Hi. pose proof (refreshed_queued m o b i oi Hm Hi) as Hq. rewrite Hcause in Hq.
    by rewrite (proj1 (launch_keeps now faults _ _ _ _ m i Hq)). }
  split; [|by apply Hk]. split.
  - pose proof (inv_records _ Hm _ _ Ho) as Hok. apply launch_inv; [done| |lia| |].
    + rewrite (ok_id _ _ Hok). apply (ok_batch _ _ Hok). by rewrite Hb.
    + rewrite (keys_operationIDs _ _ (refresh_keys None m (bs_Members b))). by apply (ok_members _ _ Hok).
    + intros i Hi. destruct (mg_records m !! i) as [oi|] eqn:Hoi; [|done].
      pose proof (refreshed_queued m o b i oi Hm Hoi) as Hq. by rewrite Hcause in Hq.
  - intros i oi Hi. exists oi. split; [by apply Hk|apply evolves_refl].
Qed.

(** The root after a critical section, before it is written. *)
Definition tickRoot (now : time) (o : runningNodeOperation) (b : NodeBatchState)
    (members : list NodeBatchMember) : runningNodeOperation :=
  let b' := recount (withMembers members b) in
  let done := bs_Queued b' + bs_Running b' =? 0 in
  let r := withBatch b' (ro_record o) in
  RunningOp (if done then finishBatch now (ro_cause o) b' r else r) (ro_keys o)
    (if done then false else ro_cancel o) (ro_cause o).

Lemma tickRoot_ok id now o b members :
  record_ok id o -> op_Batch (ro_record o) = Some b -> map memberKey members = map memberKey (bs_Members b) ->
  record_ok id (tickRoot now o b members) /\ evolves o (tickRoot now o b members).
Proof.
  intros Hok Hb Hkeys. unfold tickRoot. cbv zeta.
  assert (Hnd : forall b', Some (recount (withMembers members b)) = Some b' ->
    NoDup (map bm_OperationID (bs_Members b'))).
  { intros b' [= <-]. simpl. rewrite (keys_operationIDs _ _ Hkeys). by apply (ok_members _ _ Hok). }
  match goal with |- context [if ?c then false else _] => destruct c end.
  - destruct (finishBatch_spec now (ro_cause o) (recount (withMembers members b))
      (withBatch (recount (withMembers members b)) (ro_record o))) as [Hc Ht].
    apply terminal_states in Ht as [Hl Hq]. unfold core in Hc. injection Hc as Hid Hreq Hbid Hbb Hp _.
    apply root_ok; try done; [by rewrite Hb|by rewrite Hbb|by rewrite Hid, Hreq, Hbid, Hp|].
    by rewrite Hbb.
  - apply root_ok; try done; [by rewrite Hb|apply Hok|apply Hok].
Qed.

Lemma tick_ok now faults fault id m :
  mg_inv m -> step_ok m (batchTick recordSize now faults fault id m).1.
Proof.
  intros Hm. unfold batchTick. destruct (mg_records m !! id) as [o|] eqn:Ho; [|by apply step_ok_refl].
  destruct (op_Batch (ro_record o)) as [b|] eqn:Hb; [|by apply step_ok_refl].
  destruct (batchMembers_ok now faults o b m id Hm Ho Hb) as [Hok1 Ho1].
  pose proof (batchMembers_keys now faults o b m) as Hkeys.
  destruct (batchMembers _ _ _ _ _ _) as [members m1]. cbn [fst snd] in *. cbv zeta.
  pose proof (inv_records _ Hm _ _ Ho) as Hok.
  destruct (tickRoot_ok id now o b members Hok Hb Hkeys) as [Hok' Hev].
  change (RunningOp _ _ _ _) with (tickRoot now o b members).
  set (done := _ + _ =? 0) in *. eapply step_ok_trans; [exact Hok1|]. destruct Hok1 as [Hm1 _].
  case_match; simpl.
  { unfold setRecords. eapply record_update_ok; eauto. }
  pose proof (saved_ok fault m1 id o _ Hm1 Ho1 Hev Hok' ltac:(by left)) as Hs.
  destruct (NodeOperations.saved _ _ _ _ _) as [m2 [[]|e]] eqn:Es; [done|].
  destruct done eqn:Hdone; [|done]. eapply step_ok_trans; [exact Hs|]. simpl.
  apply updateOp_ok; [apply Hs|]. intros o1 Ho2.
  pose proof (saved_records fault id (tickRoot now o b members) m1) as Hr'. rewrite Es in Hr'. simpl in Hr'.
  rewrite Hr', lookup_insert_eq in Ho2. injection Ho2 as <-.
  assert (Hr : ro_record (tickRoot now o b members) =
    finishBatch now (ro_cause o) (recount (withMembers members b))
      (withBatch (recount (withMembers members b)) (ro_record o)) /\
    ro_cancel (tickRoot now o b members) = false).
  { unfold tickRoot. cbv zeta. fold done. by rewrite Hdone. }
  destruct Hr as [Hr Hc]. rewrite <- Hr.
  destruct (core_ok id (tickRoot now o b members)
    (withState "failed" (withError (errorText e) (op_ErrorCode (ro_record (tickRoot now o b members)))
       (op_ErrorCategory (ro_record (tickRoot now o b members))) (ro_record (tickRoot now o b members)))))
    as [Hok2 Hev2]; done.
Qed.

(** Every critical section keeps the invariant and the records that have not
    expired. *)
Lemma mstep_ok now m m' : mg_inv m -> step now m m' -> mg_inv m' /\ kept now m m'.
Proof.
  intros Hm Hs.
  assert (Hg : forall x, step_ok m x -> mg_inv x /\ kept now m x)
    by (intros x [? ?]; split; [done|by apply grows_kept]).
  destruct Hs.
  - by eapply submit_ok.
  - apply Hg. by apply bind_ok.
  - apply Hg. by apply advance_ok.
  - apply Hg. by apply finishPhases_ok.
  - apply Hg. by eapply finish_ok.
  - apply Hg. by apply tick_ok.
  - apply Hg. by apply cancel_ok.
  - destruct (pruneLocked now faults m) as [m1 r] eqn:E.
    destruct (prune_spec _ _ _ _ _ E Hm) as (? & _ & ? & _). done.
  - apply Hg. by apply close_ok.
Qed.

End Steps.
