(* ===== verification/NodeRecovery.v ===== *)
(** * Recovery and the guarantees of the lifecycle operations

    Loading the receipts after a daemon restart ([newNodeOperations] and
    [recoverBatches]), and the properties of the manager: the invariant over
    any run, the answer to a repeated submission, the critical section of a
    batch and a restart. *)

From S2P Require Import Prelude GoText NodeOperations NodeInvariant.
Local Open Scope Z_scope.

(** ** Loading *)

Definition pendingCleanup (d : NodeOperation) : bool :=
  match op_EnvironmentTest d with Some t => et_CleanupPending t | None => false end.

(** What loading makes of a receipt. *)
Record recovered (d : NodeOperation) (o : runningNodeOperation) : Prop := {
  re_state : op_State (ro_record o) =
    if live (op_State d) then "interrupted"%string else op_State d;
  re_request : op_Request (ro_record o) = op_Request d;
  re_test : op_EnvironmentTest (ro_record o) = op_EnvironmentTest d;
}.

(** No member of the batch is left queued or running. *)
Definition memberSettled (mb : NodeBatchMember) : Prop :=
  bm_State mb <> "queued"%string /\ live (bm_State mb) = false.

Definition settled (b : NodeBatchState) : Prop :=
  Forall memberSettled (bs_Members b) /\ bs_Queued b = 0 /\ bs_Running b = 0.

Definition settledAt (m : nodeOperations) (id : string) : Prop :=
  forall o b, mg_records m !! id = Some o -> op_Batch (ro_record o) = Some b ->
    op_State (ro_record o) = "interrupted"%string -> settled b.

Definition idle (m : nodeOperations) : Prop :=
  forall id o, mg_records m !! id = Some o -> ro_cancel o = false.

Definition quiet (m : nodeOperations) : Prop := mg_inv m /\ idle m.

Lemma idle_counts m : idle m -> activeRoots m = 0 /\ executingCountLocked m = 0.
Proof.
  intros Hi. unfold activeRoots, executingCountLocked.
  assert (Hz : forall P `{!forall x, Decision (P x)},
    (forall x : string * runningNodeOperation, P x -> ro_cancel x.2 = true) ->
    size (filter P (mg_records m)) = O).
  { intros P Pd HP. apply map_size_empty_iff, map_empty. intros i.
    apply map_lookup_filter_None. right. intros o Ho Hp.
    apply HP in Hp. simpl in Hp. by rewrite (Hi i o Ho) in Hp. }
  rewrite !Hz; [done| |]; by intros [i o] [? _].
Qed.

Lemma quiet_intro m :
  (forall id o, mg_records m !! id = Some o -> record_ok id o) -> receipts m ->
  (forall id d, mg_disk m !! id = Some d -> receipt_ok id d) -> idle m -> quiet m.
Proof.
  intros Hr Hd Hv Hi. split; [|done]. destruct (idle_counts m Hi) as [H1 H2].
  split; try done.
  - intros i j oi oj k Ho _ Hc. by rewrite (Hi i oi Ho) in Hc.
  - rewrite H1. done.
  - rewrite H2. done.
Qed.

Lemma interrupt_ok id d :
  receipt_ok id d ->
  record_ok id (RunningOp (interruptRecord d) [] false None) /\
  recovered d (RunningOp (interruptRecord d) [] false None).
Proof.
  intros []. unfold interruptRecord. destruct (live (op_State d)) eqn:Hl.
  - assert (Hf : runningPhases (finishNodeOperationPhases "interrupted" None
        (withFinished None (withState "interrupted"
          (withError (errorText errNodeOperationsClosed) (op_ErrorCode d) (op_ErrorCategory d) d)))) = O)
      by by apply finished_running.
    split; constructor; simpl in *; try done; [lia| |by rewrite Hl].
    intros Hb. by destruct (ok_batch Hb) as [-> ?].
  - split; constructor; simpl in *; try done; auto. by rewrite Hl.
Qed.

Section Recovery.
Context (recordSize : NodeOperation -> Z).

Lemma quiet_insert m id o c disk' :
  quiet m -> record_ok id o -> ro_cancel o = false ->
  (exists d, disk' !! id = Some d /\ op_Request d = op_Request (ro_record o)) ->
  (forall i, i <> id -> disk' !! i = mg_disk m !! i) ->
  (forall i d, disk' !! i = Some d -> receipt_ok i d) ->
  quiet (Manager c (<[id := o]> (mg_records m)) disk').
Proof.
  intros [[Hrec Hdisk Hval _ _ _] Hi] Hok Hc Hd Hsame Hv. apply quiet_intro; simpl.
  - intros i oi. rewrite lookup_insert. case_decide; [subst; by intros [= <-]|]. apply Hrec.
  - intros i oi. simpl. rewrite lookup_insert. case_decide.
    + subst. by intros [= <-].
    + rewrite Hsame by done. apply Hdisk.
  - done.
  - intros i oi. simpl. rewrite lookup_insert. case_decide; [by intros [= <-]|]. apply Hi.
Qed.

Lemma loadLoop_ok now removals writes files m m' :
  loadLoop recordSize now removals writes files m = Ok m' ->
  quiet m -> NoDup files.*1 ->
  (forall i d, (i, d) ∈ files ->
     receipt_ok i d /\ mg_disk m !! i = Some d /\ mg_records m !! i = None) ->
  quiet m' /\
  (forall i o, mg_records m !! i = Some o -> mg_records m' !! i = Some o) /\
  (forall i o, mg_records m' !! i = Some o -> mg_records m !! i = Some o \/
     exists d, (i, d) ∈ files /\ recovered d o) /\
  (forall i d, (i, d) ∈ files -> operationExpired d now = false -> is_Some (mg_records m' !! i)).
Proof.
  revert m. induction files as [|[id d] files IH]; intros m; simpl.
  { intros [= <-] Hq _ _. split_and!; [done|done|by left|]. intros i d Hin. by apply elem_of_nil in Hin. }
  intros E Hq Hnd Hf. apply NoDup_cons in Hnd as [Hid Hnd].
  destruct (Hf id d ltac:(left)) as (Hval & Hdisk & Hnone).
  assert (Hne : forall i d', (i, d') ∈ files -> i <> id).
  { intros i d' Hin ->. apply Hid. apply list_elem_of_fmap. by exists (id, d'). }
  pose proof (ok_id _ _ Hval) as Hdid. simpl in Hdid. rewrite Hdid, String.eqb_refl in E. simpl in E.
  destruct (operationExpired d now) eqn:Hexp.
  - destruct (removals id) as [e|]; [done|].
    destruct (IH _ E) as (H1 & H2 & H3 & H4).
    + destruct Hq as [[Hrec Hreceipt Hv _ _ _] Hi]. apply quiet_intro; simpl; try done.
      * intros i o Ho. simpl in Ho. simpl. rewrite lookup_delete_ne; [by apply Hreceipt|]. intros <-. congruence.
      * intros i x Hx. apply lookup_delete_Some in Hx as [_ Hx]. by apply Hv.
    + done.
    + intros i d' Hin. destruct (Hf i d' ltac:(by right)) as (? & ? & ?). simpl.
      rewrite lookup_delete_ne by (by apply not_eq_sym, (Hne i d')). done.
    + split_and!; try done.
      * intros i o Ho. destruct (H3 i o Ho) as [?|(d' & Hin & ?)]; [by left|]. right.
        exists d'. split; [by right|done].
      * intros i d' Hin Hx. apply elem_of_cons in Hin as [[= -> ->]|Hin]; [congruence|]. by eapply H4.
  - destruct (interrupt_ok id d Hval) as [Hok Hre].
    set (o := RunningOp (interruptRecord d) [] false None) in *.
    assert (exists disk', loadLoop recordSize now removals writes files
        (Manager (mg_closed m) (<[id := o]> (mg_records m)) disk') = Ok m' /\
        (disk' = mg_disk m \/ disk' = <[id := ro_record o]> (mg_disk m))) as (disk' & E' & Hd').
    { destruct (live (op_State d)).
      - destruct (persist _ _ _ _) as [m1 [u|e]] eqn:Ep; [|done]. apply persist_ok in Ep as ->.
        pose proof (ok_id _ _ Hok) as Hoid. simpl in Hoid. simpl in E. rewrite Hoid in E.
        eexists. split; [exact E|]. by right.
      - eexists. split; [exact E|]. by left. }
    assert (Hdi : exists x, disk' !! id = Some x /\ op_Request x = op_Request (ro_record o)).
    { destruct Hd' as [->| ->]; [exists d|exists (ro_record o); by rewrite lookup_insert_eq].
      split; [done|]. symmetry. apply Hre. }
    assert (Hdne : forall i, i <> id -> disk' !! i = mg_disk m !! i).
    { intros i Hi. destruct Hd' as [->| ->]; [done|]. by rewrite lookup_insert_ne. }
    destruct (IH _ E') as (H1 & H2 & H3 & H4).
    + apply quiet_insert; try done. intros i x. destruct (decide (i = id)) as [->|Hi].
      * destruct Hd' as [->| ->]; [apply Hq|]. rewrite lookup_insert_eq. intros [= <-]. by apply (record_receipt id o).
      * rewrite Hdne by done. apply Hq.
    + done.
    + intros i d' Hin. destruct (Hf i d' ltac:(by right)) as (? & ? & ?). simpl.
      pose proof (Hne i d' Hin). rewrite Hdne by done. rewrite lookup_insert_ne by congruence. done.
    + split_and!; try done.
      * intros i oi Hi. apply H2. simpl. rewrite lookup_insert_ne by congruence. done.
      * intros i oi Hi. destruct (H3 i oi Hi) as [Hx|(d' & Hin & ?)].
        -- simpl in Hx. rewrite lookup_insert in Hx. case_decide; [|by left]. subst.
           injection Hx as <-. right. exists d. split; [left|done].
        -- right. exists d'. split; [by right|done].
      * intros i d' Hin Hx. apply elem_of_cons in Hin as [[= -> ->]|Hin]; [|by eapply H4].
        exists o. apply H2. simpl. by rewrite lookup_insert_eq.
Qed.

Lemma countState_none states members :
  (forall mb, mb ∈ members -> existsb (String.eqb (bm_State mb)) states = false) ->
  countState states members = 0.
Proof.
  induction members as [|mb members IH]; intros H; [done|].
  rewrite countState_cons, (H mb) by left. rewrite IH; [done|]. intros x Hx. apply H. by right.
Qed.

Lemma recount_settled b : Forall memberSettled (bs_Members b) -> settled (recount b).
Proof.
  intros H. split; [done|]. simpl. rewrite Forall_forall in H.
  split; apply countState_none; intros mb Hmb; destruct (H mb Hmb) as [Hq Hl]; simpl.
  - by rewrite (proj2 (String.eqb_neq _ _) Hq).
  - unfold live in Hl. by rewrite orb_false_r.
Qed.

Lemma recoverMember_settled m root mb :
  quiet m -> memberSettled (recoverMember (mg_records m) root mb).
Proof.
  intros [Hm Hi]. unfold recoverMember.
  assert (Hfb : memberSettled (if existsb (String.eqb (bm_State mb)) ["queued"; "running"; "canceling"]%string
    then BatchMember (bm_Target mb) (bm_OperationID mb) "interrupted" (errorText errNodeOperationsClosed)
    else mb)).
  { simpl. unfold memberSettled, live. destruct (bm_State mb =? "queued")%string eqn:E1; [done|].
    destruct (bm_State mb =? "running")%string eqn:E2; [done|].
    destruct (bm_State mb =? "canceling")%string eqn:E3; [done|]. simpl.
    rewrite E2, E3. by bool_to_prop. }
  destruct (mg_records m !! bm_OperationID mb) as [child|] eqn:Hc; [|exact Hfb].
  destruct (_ && _); [|exact Hfb]. split; simpl.
  - apply (ok_queued _ _ (inv_records _ Hm _ _ Hc)).
  - rewrite (ok_live _ _ (inv_records _ Hm _ _ Hc)). by eapply Hi.
Qed.

(** What [recoverBatches] keeps of a record. *)
Definition sameOutcome (o o' : runningNodeOperation) : Prop :=
  op_State (ro_record o') = op_State (ro_record o) /\
  op_Request (ro_record o') = op_Request (ro_record o) /\
  op_EnvironmentTest (ro_record o') = op_EnvironmentTest (ro_record o).

Definition recoverOne (o : runningNodeOperation) (b : NodeBatchState) (m : nodeOperations)
    : runningNodeOperation :=
  setRecord (withBatch (recount (withMembers
    (map (recoverMember (mg_records m) (op_ID (ro_record o))) (bs_Members b)) b)) (ro_record o)) o.

Lemma recoverOne_ok fault id m o b :
  quiet m -> mg_records m !! id = Some o -> op_Batch (ro_record o) = Some b ->
  quiet (saved recordSize fault id (recoverOne o b m) m).1.
Proof.
  intros [Hm Hi] Ho Hb. pose proof (inv_records _ Hm _ _ Ho) as Hok.
  destruct (root_ok id o (ro_record (recoverOne o b m)) (ro_cancel o) (ro_cause o) Hok) as [Hok' Hev];
    try done; [by rewrite Hb|apply Hok|apply Hok| |].
  { intros b' [= <-]. simpl. rewrite map_map.
    rewrite (map_ext _ bm_OperationID) by (intros mb; unfold recoverMember; by repeat case_match).
    by apply (ok_members _ _ Hok). }
  destruct (saved_ok recordSize fault m id o (recoverOne o b m) Hm Ho Hev Hok' ltac:(by left)) as [Hm' _].
  split; [done|]. intros i oi. rewrite saved_records, lookup_insert. case_decide; [|apply Hi].
  intros [= <-]. apply (Hi id o Ho).
Qed.

Lemma recoverBatches_ok writes ids m m' :
  recoverBatches recordSize writes ids m = Ok m' -> quiet m ->
  quiet m' /\
  (forall i o', mg_records m' !! i = Some o' -> exists o, mg_records m !! i = Some o /\ sameOutcome o o') /\
  (forall i, is_Some (mg_records m !! i) -> is_Some (mg_records m' !! i)) /\
  (forall i, settledAt m i \/ i ∈ ids -> settledAt m' i).
Proof.
  revert m. induction ids as [|id ids IH]; intros m; simpl.
  { intros [= <-] Hq. split_and!; [done| |done|].
    - intros i o Ho. exists o. by split.
    - intros i [H|H]; [done|]. by apply elem_of_nil in H. }
  intros E Hq.
  assert (Hskip : recoverBatches recordSize writes ids m = Ok m' -> settledAt m id ->
    quiet m' /\
    (forall i o', mg_records m' !! i = Some o' -> exists o, mg_records m !! i = Some o /\ sameOutcome o o') /\
    (forall i, is_Some (mg_records m !! i) -> is_Some (mg_records m' !! i)) /\
    (forall i, settledAt m i \/ i ∈ id :: ids -> settledAt m' i)).
  { intros E' Hs. destruct (IH m E' Hq) as (H1 & H2 & H3 & H4). split_and!; try done.
    intros i [H|H]; [by apply H4; left|]. apply elem_of_cons in H as [->|H]; apply H4; [by left|by right]. }
  destruct (mg_records m !! id) as [o|] eqn:Ho; [|apply Hskip; [done|]; intros x; congruence].
  destruct (op_Batch (ro_record o)) as [b|] eqn:Hb;
    [|apply Hskip; [done|]; intros x b' Hx Hb'; congruence].
  destruct (op_State (ro_record o) =? "interrupted")%string eqn:Hst; simpl in E.
  2: { apply Hskip; [done|]. bool_to_prop. intros x b' Hx _ Hi. congruence. }
  pose proof (recoverOne_ok (writes id) id m o b Hq Ho Hb) as Hq1.
  pose proof (saved_records recordSize (writes id) id (recoverOne o b m) m) as Hr.
  change (setRecord _ _) with (recoverOne o b m) in E.
  destruct (saved _ _ _ _ _) as [m1 [[]|e]]; [|done]. simpl in *.
  destruct (IH m1 E Hq1) as (H1 & H2 & H3 & H4).
  assert (Hs1 : settledAt m1 id).
  { intros x b' Hx Hb' _. rewrite Hr, lookup_insert_eq in Hx. injection Hx as <-.
    injection Hb' as <-. apply recount_settled. simpl. apply Forall_forall. intros mb Hmb.
    apply list_elem_of_In, in_map_iff in Hmb as (mb0 & <- & _). by apply recoverMember_settled. }
  split_and!; try done.
  - intros i o' Ho'. destruct (H2 i o' Ho') as (o1 & Ho1 & Hsame). rewrite Hr, lookup_insert in Ho1.
    case_decide; [|by exists o1]. subst. injection Ho1 as <-. by exists o.
  - intros i Hi. apply H3. rewrite Hr, lookup_insert. by case_decide.
  - intros i [H|H]; apply H4.
    + left. destruct (decide (i = id)) as [->|Hne]; [done|]. intros x b' Hx. rewrite Hr in Hx.
      rewrite lookup_insert_ne in Hx by congruence. by apply H.
    + apply elem_of_cons in H as [->|H]; [by left|by right].
Qed.

Lemma recoverTests_none validate writes ids m :
  (forall i o, mg_records m !! i = Some o -> pendingCleanup (ro_record o) = false) ->
  recoverTests recordSize validate writes ids m = Ok m.
Proof.
  intros Hp. induction ids as [|id ids IH]; simpl; [done|].
  destruct (mg_records m !! id) as [o|] eqn:Ho; [|done]. specialize (Hp id o Ho).
  unfold pendingCleanup in Hp. destruct (op_EnvironmentTest _) as [t|]; [|done]. by rewrite Hp.
Qed.

(** A restart: the state a new manager starts from. *)
Lemma restart_ok validate now removals writes files order1 order2 m :
  newNodeOperations recordSize validate now removals writes files order1 order2 = Ok m ->
  NoDup files.*1 -> (forall i d, (i, d) ∈ files -> receipt_ok i d /\ pendingCleanup d = false) ->
  (forall i, i ∈ files.*1 -> i ∈ order1) ->
  quiet m /\
  (forall i o, mg_records m !! i = Some o ->
     (exists d, (i, d) ∈ files /\ recovered d o) /\ settledAt m i) /\
  (forall i d, (i, d) ∈ files -> operationExpired d now = false -> is_Some (mg_records m !! i)).
Proof.
  unfold newNodeOperations. intros E Hnd Hf Hord.
  destruct (loadLoop _ _ _ _ _ _) as [m1|e] eqn:E1; simpl in E; [|done].
  destruct (recoverBatches _ _ _ _) as [m2|e] eqn:E2; simpl in E; [|done].
  apply loadLoop_ok in E1 as (Hq1 & _ & Hfrom & Hall); [| |done|].
  - apply recoverBatches_ok in E2 as (Hq2 & Hfrom2 & Hall2 & Hset); [|done].
    assert (Hrec : forall i o, mg_records m2 !! i = Some o -> exists d, (i, d) ∈ files /\ recovered d o).
    { intros i o Ho. destruct (Hfrom2 i o Ho) as (o1 & Ho1 & Hs & Hr & Ht).
      destruct (Hfrom i o1 Ho1) as [Hx|(d & Hin & [])]; [done|].
      exists d. split; [done|]. constructor; congruence. }
    rewrite recoverTests_none in E.
    + injection E as <-. split_and!; [done| |].
      * intros i o Ho. destruct (Hrec i o Ho) as (d & Hin & Hre). split; [by exists d|].
        apply Hset. right. apply Hord. apply list_elem_of_fmap. by exists (i, d).
      * intros i d Hin Hx. by eapply Hall2, Hall.
    + intros i o Ho. destruct (Hrec i o Ho) as (d & Hin & []). destruct (Hf i d Hin) as [_ Hp].
      unfold pendingCleanup in *. by rewrite re_test0.
  - apply quiet_intro; simpl; try done.
    intros i d Hi. apply elem_of_list_to_map_2 in Hi. by apply Hf.
  - intros i d Hin. split; [by apply Hf|]. split; [|done]. simpl. by apply elem_of_list_to_map_1.
Qed.

End Recovery.

(** ** Repeated submissions *)

Section Submission.
Context (recordSize : NodeOperation -> Z) (requestSize : NodeOperationRequest -> Z)
  (parseUUID : string -> option string) (NodeByIDOrSlug NodeByID : string -> result Node).
Context (parse_nonempty : forall s u, parseUUID s = Some u -> u <> ""%string).

Abbreviation step := (mstep recordSize requestSize parseUUID NodeByIDOrSlug NodeByID).
Abbreviation Submit := (Submit recordSize requestSize parseUUID NodeByIDOrSlug NodeByID).

(** A request without its origin. *)
Definition payload (r : NodeOperationRequest) : NodeOperationRequest :=
  OpRequest (or_Environment r) "" (or_ID r) (or_Kind r) (or_Node r) (or_Create r) (or_Clone r) (or_Batch r).

Lemma repeated_ok now request m r :
  repeatedRequestLocked now request m = Some (Ok r) ->
  exists o, mg_records m !! or_ID request = Some o /\ r = ro_record o /\
    payload (op_Request r) = payload request.
Proof.
  unfold repeatedRequestLocked. destruct (mg_records m !! or_ID request) as [o|]; [|done].
  case_match; [done|]. case_decide; [|done]. intros [= <-]. by exists o.
Qed.

Lemma repeated_answer now request m o :
  mg_records m !! or_ID request = Some o -> operationExpired (ro_record o) now = false ->
  repeatedRequestLocked now request m =
    Some (if decide (payload (op_Request (ro_record o)) = payload request)
          then Ok (ro_record o)
          else Err (preconditionFailed "operation id already belongs to another request")).
Proof. intros Ho He. unfold repeatedRequestLocked, payload. rewrite Ho, He. cbv beta zeta. by case_decide. Qed.

(** The members a submission brings have distinct identifiers. *)
Definition freshIDs now newIDs prepared request m : Prop :=
  forall su, submitPrepare requestSize parseUUID NodeByIDOrSlug NodeByID now newIDs prepared request m = inr su ->
    distinctMembers su.

Lemma submit_result now newIDs prepared faults fault request m m1 r :
  freshIDs now newIDs prepared request m -> mg_inv m -> Submit now newIDs prepared faults fault request m = (m1, Ok r) ->
  mg_inv m1 /\ exists id o, parseUUID (or_ID request) = Some id /\ op_ID r = id /\
    mg_records m1 !! id = Some o /\ ro_record o = r /\
    payload (op_Request r) = payload (withID id request).
Proof.
  intros Hfresh Hm. unfold NodeOperations.Submit.
  destruct (submitPrepare _ _ _ _ _ _ _ _ _) as [answer|su] eqn:E.
  - intros [= <- ->]. split; [done|]. unfold submitPrepare in E. case_match; [done|].
    destruct (parseUUID _) as [id|]; [|done].
    destruct (repeatedRequestLocked _ _ _) as [a|] eqn:Hr.
    + injection E as ->. apply repeated_ok in Hr as (o & Ho & -> & Hp). simpl in Ho.
      exists id, o. split_and!; try done. apply (ok_id _ _ (inv_records _ Hm _ _ Ho)).
    + repeat case_match; simplify_eq.
  - intros Hs. pose proof (submit_ok recordSize requestSize parseUUID NodeByIDOrSlug NodeByID
      parse_nonempty m m now now newIDs prepared faults fault request su E (Hfresh su E) Hm) as [Hm1 _].
    rewrite Hs in Hm1. split; [done|].
    apply submitPrepare_spec in E as ((id & Hid & Hreq) & _ & _).
    unfold submitLocked in Hs. case_match; [done|].
    destruct (repeatedRequestLocked _ _ _) as [a|] eqn:Hr.
    + injection Hs as <- ->. apply repeated_ok in Hr as (o & Ho & -> & Hp).
      rewrite Hreq in Ho, Hp. simpl in Ho. exists id, o. split_and!; try done.
      apply (ok_id _ _ (inv_records _ Hm _ _ Ho)).
    + destruct (pruneLocked _ _ _) as [mp [[]|e]]; [|done].
      destruct (conflicting _ _); [done|]. case_match; [done|].
      destruct (persist _ _ _ _) as [m2 [u|e]] eqn:Ep; [|done]. injection Hs as <- <-.
      simpl. rewrite Hreq. simpl. exists id. eexists. split_and!; try done.
      { by rewrite lookup_insert_eq. } done.
Qed.

(** Critical sections at times when the record at [id] has not expired. *)
Definition retaining (id : string) (a b : nodeOperations) : Prop :=
  exists t, step t a b /\
    forall o, mg_records a !! id = Some o -> operationExpired (ro_record o) t = false.

Lemma retained id m m' o :
  mg_inv m -> mg_records m !! id = Some o -> rtc (retaining id) m m' ->
  mg_inv m' /\ exists o', mg_records m' !! id = Some o' /\ evolves o o'.
Proof.
  intros Hm Ho Hr. revert o Ho Hm. induction Hr as [m|a b c (t & Hs & He) _ IH]; intros o Ho Ha.
  { split; [done|]. exists o. split; [done|apply evolves_refl]. }
  destruct (mstep_ok recordSize requestSize parseUUID NodeByIDOrSlug NodeByID parse_nonempty t a b Ha Hs)
    as [Hb Hk].
  destruct (Hk id o Ho (He o Ho)) as (o1 & Ho1 & Hev).
  destruct (IH o1 Ho1 Hb) as (Hc & o2 & Ho2 & Hev2). split; [done|]. exists o2. split; [done|].
  exact (evolves_trans _ _ _ Hev Hev2).
Qed.

Lemma resubmission_spec now newIDs prepared faults fault request m m1 r m2
    now' newIDs' prepared' faults' fault' request' :
  freshIDs now newIDs prepared request m -> mg_inv m -> Submit now newIDs prepared faults fault request m = (m1, Ok r) ->
  rtc (retaining (op_ID r)) m1 m2 ->
  requestSize request' <= Z.shiftl 64 10 -> parseUUID (or_ID request') = parseUUID (or_ID request) ->
  (forall o, mg_records m2 !! op_ID r = Some o -> operationExpired (ro_record o) now' = false) ->
  exists o, mg_records m2 !! op_ID r = Some o /\ op_Request (ro_record o) = op_Request r /\
    Submit now' newIDs' prepared' faults' fault' request' m2 =
      (m2, if decide (payload (withID "" request') = payload (withID "" request))
           then Ok (ro_record o)
           else Err (preconditionFailed "operation id already belongs to another request")).
Proof.
  intros Hfresh Hm Hsub Hr Hsize Hid Hexp.
  destruct (submit_result _ _ _ _ _ _ _ _ _ Hfresh Hm Hsub) as (Hm1 & id & o & Hpid & Hrid & Ho & Hor & Hpay).
  rewrite Hrid in *. destruct (retained id m1 m2 o Hm1 Ho Hr) as (Hm2 & o2 & Ho2 & Hev).
  exists o2. split; [done|]. split; [rewrite <- Hor; apply Hev|].
  unfold NodeOperations.Submit, submitPrepare. rewrite (proj2 (Z.ltb_ge _ _) Hsize), Hid, Hpid.
  rewrite (repeated_answer now' (withID id request') m2 o2 Ho2 (Hexp o2 Ho2)).
  rewrite (ev_request _ _ Hev), Hor, Hpay. unfold payload. simpl.
  repeat case_decide; try done; congruence.
Qed.

End Submission.

(** ** The critical section of a batch *)

Section Batch.
Context (recordSize : NodeOperation -> Z).
Context (fits : forall r, recordSize r <= Z.shiftl 256 10).

Lemma persist_fits r m :
  persist recordSize Written r m = (Manager (mg_closed m) (mg_records m) (<[op_ID r := r]> (mg_disk m)), Ok tt).
Proof. unfold persist. by rewrite (proj2 (Z.ltb_ge _ _) (fits r)). Qed.

Lemma tick_shape now faults id m o b members m1 m' done :
  mg_records m !! id = Some o -> op_Batch (ro_record o) = Some b ->
  batchMembers recordSize now faults o b m = (members, m1) ->
  batchTick recordSize now faults Written id m = (m', done) ->
  mg_records m' = <[id := tickRoot now o b members]> (mg_records m1) /\
  (forall i, i <> op_ID (ro_record (tickRoot now o b members)) -> mg_disk m' !! i = mg_disk m1 !! i) /\
  done = (bs_Queued (recount (withMembers members b)) + bs_Running (recount (withMembers members b)) =? 0).
Proof.
  intros Ho Hb Hbm. unfold batchTick. rewrite Ho, Hb, Hbm. cbv zeta.
  change (RunningOp _ _ _ _) with (tickRoot now o b members).
  match goal with |- context [if negb ?c then _ else _] => destruct (negb c) end.
  - by intros [= <- <-].
  - unfold saved. rewrite persist_fits. intros [= <- <-]. split_and!; [done| |done].
    intros i Hi. cbn [mg_disk]. by rewrite lookup_insert_ne by (intros Hx; by apply Hi).
Qed.

Lemma countState_nonneg states members : 0 <= countState states members.
Proof. apply zlen_nonneg. Qed.

Lemma settled_counts members :
  countState ["queued"%string] members + countState ["running"; "canceling"]%string members = 0 <->
  Forall memberSettled members.
Proof.
  induction members as [|a members IH]; [by split|].
  rewrite !countState_cons, Forall_cons, <- IH. unfold memberSettled, live. simpl.
  pose proof (countState_nonneg ["queued"%string] members).
  pose proof (countState_nonneg ["running"; "canceling"]%string members).
  rewrite !orb_false_r.
  destruct (bm_State a =? "queued")%string eqn:E1, ((bm_State a =? "running") || (bm_State a =? "canceling"))%string
    eqn:E2; split; intros Hx; bool_to_prop; try lia; intuition (congruence || lia).
Qed.

Lemma count_all state members :
  countState [state] members = zlen members <-> Forall (fun mb => bm_State mb = state) members.
Proof.
  assert (Hle : forall l, countState [state] l <= zlen l).
  { intros l. induction l as [|a l IH]; [done|]. rewrite countState_cons, zlen_cons. case_match; lia. }
  induction members as [|a members IH]; [by split|].
  rewrite countState_cons, zlen_cons, Forall_cons, <- IH. specialize (Hle members). simpl.
  rewrite orb_false_r. destruct (bm_State a =? state)%string eqn:E; bool_to_prop; split; intros Hx; try lia.
  all: intuition lia.
Qed.

(** The outcome of a finished batch. *)
Definition batchOutcome (cause : option go_error) (members : list NodeBatchMember) : string :=
  if decide (cause = Some errNodeOperationCanceled) then "canceled"
  else if decide (cause = Some errNodeOperationsClosed) then "interrupted"
  else if forallb (fun mb => (bm_State mb =? "succeeded")%string) members then "succeeded" else "failed".

Lemma finishBatch_outcome now cause b r :
  op_State (finishBatch now cause (recount b) r) = batchOutcome cause (bs_Members b).
Proof.
  unfold finishBatch, batchOutcome. simpl.
  assert (Hb : (countState ["succeeded"%string] (bs_Members b) =? zlen (bs_Members b)) =
               forallb (fun mb => (bm_State mb =? "succeeded")%string) (bs_Members b)).
  { apply eq_true_iff_eq. rewrite Z.eqb_eq, count_all, forallb_forall, Forall_forall.
    split; intros H x Hx.
    - apply String.eqb_eq, H. by apply list_elem_of_In.
    - apply String.eqb_eq, H. by apply list_elem_of_In. }
  rewrite Hb. repeat case_decide; try done. by destruct (forallb _ _).
Qed.

(** The members after the two loops, against the refreshed ones. *)
Lemma batchMembers_spec now faults o b m members m1 :
  NoDup (map bm_OperationID (bs_Members b)) ->
  batchMembers recordSize now faults o b m = (members, m1) ->
  Forall2 (launched now (ro_record o) m1) (map (refreshMember (ro_cause o) m) (bs_Members b)) members /\
  map memberKey members = map memberKey (bs_Members b).
Proof.
  intros Hnd E.
  assert (HF : Forall2 (launched now (ro_record o) m1)
    (map (refreshMember (ro_cause o) m) (bs_Members b)) members).
  { unfold batchMembers in E. destruct (ro_cause o) eqn:Hc.
    - injection E as <- <-. apply Forall_Forall2_diag, Forall_forall. intros x _. left. done.
    - pose proof (launch_members recordSize now faults (ro_record o)
        (map (refreshMember None m) (bs_Members b))
        (bs_Running (recount (withMembers (map (refreshMember None m) (bs_Members b)) b)))
        (executingCountLocked m) m) as HF.
      rewrite E in HF. apply HF. by rewrite (keys_operationIDs _ _ (refresh_keys None m (bs_Members b))). }
  split; [done|]. rewrite <- (refresh_keys (ro_cause o) m (bs_Members b)). symmetry.
  clear -HF. revert HF. generalize (map (refreshMember (ro_cause o) m) (bs_Members b)).
  intros l0 HF. induction HF as [|x y l k Hxy _ IH]; simpl; [done|]. rewrite IH. f_equal.
  destruct Hxy as [->|(_ & Ht & Hid & _)]; [done|]. unfold memberKey. by rewrite Ht, Hid.
Qed.

Lemma batch_outcome_spec now faults id m o b m' done :
  mg_inv m -> mg_records m !! id = Some o -> op_Batch (ro_record o) = Some b ->
  NoDup (map bm_OperationID (bs_Members b)) ->
  batchTick recordSize now faults Written id m = (m', done) ->
  exists o' b', mg_records m' !! id = Some o' /\ op_Batch (ro_record o') = Some b' /\
    map memberKey (bs_Members b') = map memberKey (bs_Members b) /\
    (done = true <-> Forall memberSettled (bs_Members b')) /\
    if done
    then ro_cancel o' = false /\ op_State (ro_record o') = batchOutcome (ro_cause o) (bs_Members b')
    else ro_cancel o' = ro_cancel o /\ op_State (ro_record o') = op_State (ro_record o).
Proof.
  intros Hm Ho Hb Hnd E.
  destruct (batchMembers recordSize now faults o b m) as [members m1] eqn:Ebm.
  destruct (batchMembers_spec _ _ _ _ _ _ _ Hnd Ebm) as [_ Hkeys].
  destruct (tick_shape _ _ _ _ _ _ _ _ _ _ Ho Hb Ebm E) as (Hrec & _ & Hdone).
  exists (tickRoot now o b members), (recount (withMembers members b)).
  rewrite Hrec, lookup_insert_eq. split; [done|].
  pose proof (settled_counts members) as Hset.
  assert (Hd : done = true <-> Forall memberSettled members).
  { rewrite <- Hset, Hdone. rewrite Z.eqb_eq. done. }
  unfold tickRoot. cbv zeta. rewrite <- Hdone. destruct done; simpl.
  - split_and!; try done.
    + destruct (finishBatch_spec now (ro_cause o) (recount (withMembers members b))
        (withBatch (recount (withMembers members b)) (ro_record o))) as [Hc _].
      unfold core in Hc. by injection Hc.
    + apply finishBatch_outcome.
  - by split_and!.
Qed.

(** A round of a batch that is not cancelled. *)
Lemma batch_launch_spec now faults id m o b m' done :
  mg_inv m -> mg_records m !! id = Some o -> op_Batch (ro_record o) = Some b -> ro_cause o = None ->
  NoDup (map bm_OperationID (bs_Members b)) ->
  batchTick recordSize now faults Written id m = (m', done) ->
  exists o' b', mg_records m' !! id = Some o' /\ op_Batch (ro_record o') = Some b' /\
    Forall2 (launched now (ro_record o) m') (map (refreshMember None m) (bs_Members b)) (bs_Members b') /\
    bs_Running b' <= Z.max (countState ["running"; "canceling"]%string
                              (map (refreshMember None m) (bs_Members b))) nodeBatchParallelism /\
    executingCountLocked m' <= nodeOperationLimit /\
    ((exists mb, mb ∈ bs_Members b' /\ bm_State mb = "queued"%string) ->
       nodeBatchParallelism <= bs_Running b' \/ executingCountLocked m' = nodeOperationLimit).
Proof.
  intros Hm Ho Hb Hcause Hnd E.
  destruct (batchMembers recordSize now faults o b m) as [members m1] eqn:Ebm.
  destruct (batchMembers_spec _ _ _ _ _ _ _ Hnd Ebm) as [HF Hkeys]. rewrite Hcause in HF.
  destruct (tick_shape _ _ _ _ _ _ _ _ _ _ Ho Hb Ebm E) as (Hrec & Hdisk & _).
  destruct (tick_ok recordSize now faults Written id m Hm) as [Hm' _]. rewrite E in Hm'. simpl in Hm'.
  set (refreshed := map (refreshMember None m) (bs_Members b)) in *.
  assert (Hnew : forall i, queuedAt i refreshed -> mg_records m !! i = None).
  { intros i Hi. destruct (mg_records m !! i) as [oi|] eqn:Hoi; [|done].
    pose proof (refreshed_queued m o b i oi Hm Hoi) as Hn. by rewrite Hcause in Hn. }
  assert (Hex : executingCountLocked m' = executingCountLocked m1).
  { unfold executingCountLocked. rewrite Hrec. f_equal. apply count_insert_out.
    - simpl. intros [_ Hn]. by apply (ev_batch _ _ (proj2 (tickRoot_ok id now o b members
        (inv_records _ Hm _ _ Ho) Hb Hkeys))) in Hn; rewrite Hb in Hn.
    - destruct (batchMembers_ok recordSize now faults o b m id Hm Ho Hb) as [_ Hid].
      rewrite Ebm in Hid. simpl in Hid. intros y Hy. simpl. intros [_ Hn]. congruence. }
  assert (Hl : launchMembers recordSize now faults (ro_record o) refreshed
    (countState ["running"; "canceling"]%string refreshed) (executingCountLocked m) m = (members, m1)).
  { unfold batchMembers in Ebm. by rewrite Hcause in Ebm. }
  assert (Hnd' : NoDup (map bm_OperationID refreshed)).
  { unfold refreshed. by rewrite (keys_operationIDs _ _ (refresh_keys None m (bs_Members b))). }
  pose proof (launch_parallelism recordSize now faults (ro_record o) refreshed
    (countState ["running"; "canceling"]%string refreshed) (executingCountLocked m) m) as Hpar.
  pose proof (launch_work_conserving recordSize now faults (ro_record o) refreshed
    (countState ["running"; "canceling"]%string refreshed) (executingCountLocked m) m) as Hwork.
  pose proof (launch_executing recordSize now faults (ro_record o) refreshed
    (countState ["running"; "canceling"]%string refreshed) (executingCountLocked m) m Hnd' Hnew) as Hexe.
  rewrite Hl in Hpar, Hwork, Hexe. cbv zeta in Hwork. destruct Hwork as [_ Hwork].
  pose proof (inv_executing _ Hm') as Hlimit.
  exists (tickRoot now o b members), (recount (withMembers members b)).
  rewrite Hrec, lookup_insert_eq. split; [done|]. split_and!.
  - unfold tickRoot. cbv zeta. case_match; [|done].
    destruct (finishBatch_spec now (ro_cause o) (recount (withMembers members b))
      (withBatch (recount (withMembers members b)) (ro_record o))) as [Hc _].
    unfold core in Hc. by injection Hc.
  - rewrite (ok_id _ _ (proj1 (tickRoot_ok id now o b members (inv_records _ Hm _ _ Ho) Hb Hkeys))) in Hdisk.
    destruct (batchMembers_ok recordSize now faults o b m id Hm Ho Hb) as [_ Hid].
    rewrite Ebm in Hid. simpl in Hid.
    eapply Forall2_impl; [exact HF|]. intros x y [->|(Hq & Ht & Hi & Hout)]; [by left|]. right.
    split_and!; try done. destruct Hout as [?|(Hrun & Hc & Hcd)]; [by left|]. right.
    assert (Hne : bm_OperationID x <> id).
    { intros Heq. rewrite Heq, Hid in Hc. injection Hc as Hc. by rewrite Hc in Hb. }
    rewrite Hrec, Hdisk, lookup_insert_ne by congruence. done.
  - simpl. lia.
  - done.
  - intros Hq. specialize (Hwork Hq). simpl. rewrite Hex in *. unfold nodeOperationLimit in *. lia.
Qed.

End Batch.

(** A restart from the receipts of a predecessor. *)
Lemma restart_recovers_spec (recordSize : NodeOperation -> Z)
    (validate : EnvironmentTestState -> result unit) now removals writes files order1 order2 m m' :
  mg_inv m -> files ≡ₚ map_to_list (mg_disk m) ->
  (forall i d, mg_disk m !! i = Some d -> pendingCleanup d = false /\ i ∈ order1) ->
  newNodeOperations recordSize validate now removals writes files order1 order2 = Ok m' ->
  mg_inv m' /\ Active m' = false /\
  (forall i d, mg_disk m !! i = Some d -> operationExpired d now = false ->
     is_Some (mg_records m' !! i)) /\
  (forall i o, mg_records m' !! i = Some o ->
     settledAt m' i /\
     exists d, mg_disk m !! i = Some d /\ op_Request (ro_record o) = op_Request d /\
       op_State (ro_record o) = if live (op_State d) then "interrupted"%string else op_State d).
Proof.
  intros Hm Hperm Hd E.
  assert (Hin : forall i d, (i, d) ∈ files <-> mg_disk m !! i = Some d)
    by (intros i d; by rewrite Hperm, elem_of_map_to_list).
  apply restart_ok in E as ((Hm' & Hidle) & Hrec & Hall).
  - split_and!; [done| | |].
    + unfold Active. apply not_true_iff_false. rewrite existsb_exists. intros ([i o] & Hi & Hc).
      apply list_elem_of_In, elem_of_map_to_list in Hi. simpl in Hc. by rewrite (Hidle i o Hi) in Hc.
    + intros i d Hi. apply Hall. by apply Hin.
    + intros i o Ho. destruct (Hrec i o Ho) as ((d & Hi & []) & Hs). split; [done|].
      exists d. split; [by apply Hin|]. done.
  - rewrite Hperm. apply NoDup_fst_map_to_list.
  - intros i d Hi. apply Hin in Hi. split; [by apply (inv_disk _ Hm)|]. by apply (Hd i d).
  - intros i Hi. apply list_elem_of_fmap in Hi as ([j d] & -> & Hi). apply Hin in Hi. by apply (Hd j d).
Qed.

(** ** Properties *)

(** C22: every critical section of the lifecycle manager, submissions, phases,
    completions, batch rounds, cancellations, pruning and closing, in any order,
    preserves its invariant: active operations hold pairwise disjoint resource
    keys, at most 16 active operations are roots and at most 16 execute, an
    operation's state is running or canceling exactly while it is active, at
    most one of its phases runs and none once it has ended, and every retained
    record has a receipt on disk of the same request.  Any write of a receipt
    may fail, before its rename or after it; the identifiers generated for the
    members of a batch are distinct. *)
Theorem lifecycle_invariant (recordSize : NodeOperation -> Z)
    (requestSize : NodeOperationRequest -> Z) (parseUUID : string -> option string)
    (NodeByIDOrSlug NodeByID : string -> result Node) m m' :
  (forall s u, parseUUID s = Some u -> u <> ""%string) ->
  mg_inv m ->
  rtc (fun a b => exists now, mstep recordSize requestSize parseUUID NodeByIDOrSlug NodeByID now a b) m m' ->
  mg_inv m'.
Proof.
  intros Hp Hm Hr. induction Hr as [|a b c [now Hs] _ IH]; [done|]. apply IH.
  by apply (mstep_ok recordSize requestSize parseUUID NodeByIDOrSlug NodeByID Hp now a b Hm Hs).
Qed.

(** C11: a daemon that restarts from the receipts its predecessor left, whatever
    they were doing, as long as none owes the cleanup of an environment test
    (those are resumed instead): it starts without active operations and
    satisfies the invariant again.  Every receipt that has not expired is
    retained with its request; a live one is interrupted and no member of an
    interrupted batch stays queued or running. *)
Theorem restart_recovers (recordSize : NodeOperation -> Z)
    (validate : EnvironmentTestState -> result unit) now removals writes files order1 order2 m m' :
  mg_inv m -> files ≡ₚ map_to_list (mg_disk m) ->
  (forall i d, mg_disk m !! i = Some d -> pendingCleanup d = false /\ i ∈ order1) ->
  newNodeOperations recordSize validate now removals writes files order1 order2 = Ok m' ->
  mg_inv m' /\ Active m' = false /\
  (forall i d, mg_disk m !! i = Some d -> operationExpired d now = false ->
     is_Some (mg_records m' !! i)) /\
  (forall i o, mg_records m' !! i = Some o ->
     settledAt m' i /\
     exists d, mg_disk m !! i = Some d /\ op_Request (ro_record o) = op_Request d /\
       op_State (ro_record o) = if live (op_State d) then "interrupted"%string else op_State d).
Proof. apply restart_recovers_spec. Qed.

(** A submission that was accepted, with new identifiers for its members, can be repeated.  Whatever the manager
    did since, as long as the record has not expired, submitting the same
    request under the same identifier, even with another origin or another
    spelling of the identifier, changes nothing and answers with that
    operation; another request under that identifier is refused. *)
Theorem resubmission (recordSize : NodeOperation -> Z)
    (requestSize : NodeOperationRequest -> Z) (parseUUID : string -> option string)
    (NodeByIDOrSlug NodeByID : string -> result Node)
    now newIDs prepared faults fault request m m1 r m2
    now' newIDs' prepared' faults' fault' request' :
  (forall s u, parseUUID s = Some u -> u <> ""%string) ->
  freshIDs requestSize parseUUID NodeByIDOrSlug NodeByID now newIDs prepared request m ->
  mg_inv m ->
  Submit recordSize requestSize parseUUID NodeByIDOrSlug NodeByID now newIDs prepared faults fault
    request m = (m1, Ok r) ->
  rtc (retaining recordSize requestSize parseUUID NodeByIDOrSlug NodeByID (op_ID r)) m1 m2 ->
  requestSize request' <= Z.shiftl 64 10 -> parseUUID (or_ID request') = parseUUID (or_ID request) ->
  (forall o, mg_records m2 !! op_ID r = Some o -> operationExpired (ro_record o) now' = false) ->
  exists o, mg_records m2 !! op_ID r = Some o /\ op_Request (ro_record o) = op_Request r /\
    Submit recordSize requestSize parseUUID NodeByIDOrSlug NodeByID now' newIDs' prepared' faults' fault'
      request' m2 =
    (m2, if decide (payload (withID "" request') = payload (withID "" request))
         then Ok (ro_record o)
         else Err (preconditionFailed "operation id already belongs to another request")).
Proof. intros Hp. by apply resubmission_spec. Qed.

(** A batch ends exactly when no member is queued or running.  It then is
    canceled or interrupted when its context was, succeeded when every member
    succeeded and failed otherwise, and stops being active; until then its
    state does not change.  The members and their identifiers never do. *)
Theorem batch_outcome (recordSize : NodeOperation -> Z) now faults id m o b m' done :
  (forall r, recordSize r <= Z.shiftl 256 10) -> mg_inv m ->
  mg_records m !! id = Some o -> op_Batch (ro_record o) = Some b ->
  NoDup (map bm_OperationID (bs_Members b)) ->
  batchTick recordSize now faults Written id m = (m', done) ->
  exists o' b', mg_records m' !! id = Some o' /\ op_Batch (ro_record o') = Some b' /\
    map memberKey (bs_Members b') = map memberKey (bs_Members b) /\
    (done = true <-> Forall memberSettled (bs_Members b')) /\
    if done
    then ro_cancel o' = false /\ op_State (ro_record o') = batchOutcome (ro_cause o) (bs_Members b')
    else ro_cancel o' = ro_cancel o /\ op_State (ro_record o') = op_State (ro_record o).
Proof. intros Hf. by apply batch_outcome_spec. Qed.

(** A round of a batch that is not cancelled starts queued members in their
    order.  A member it starts has a receipt and an active child operation of
    its own before the round ends, and otherwise keeps what the refresh gave it
    or fails.  At most 4 members run, unless more did already, at most 16
    operations execute, and a member stays queued only when one of these limits
    is reached. *)
Theorem batch_launch (recordSize : NodeOperation -> Z) now faults id m o b m' done :
  (forall r, recordSize r <= Z.shiftl 256 10) -> mg_inv m ->
  mg_records m !! id = Some o -> op_Batch (ro_record o) = Some b -> ro_cause o = None ->
  NoDup (map bm_OperationID (bs_Members b)) ->
  batchTick recordSize now faults Written id m = (m', done) ->
  exists o' b', mg_records m' !! id = Some o' /\ op_Batch (ro_record o') = Some b' /\
    Forall2 (launched now (ro_record o) m') (map (refreshMember None m) (bs_Members b)) (bs_Members b') /\
    bs_Running b' <= Z.max (countState ["running"; "canceling"]%string
                              (map (refreshMember None m) (bs_Members b))) nodeBatchParallelism /\
    executingCountLocked m' <= nodeOperationLimit /\
    ((exists mb, mb ∈ bs_Members b' /\ bm_State mb = "queued"%string) ->
       nodeBatchParallelism <= bs_Running b' \/ executingCountLocked m' = nodeOperationLimit).
Proof. intros Hf. by apply batch_launch_spec. Qed.

(** ** Witnesses *)

Module Sample.

Definition recordSize (r : NodeOperation) : Z := 100.
Definition requestSize (r : NodeOperationRequest) : Z := 10.
Definition parse (s : string) : option string := if (s =? "")%string then None else Some s.
Definition node (id : string) : result Node := Ok (MkNode id ("s-" +:+ id) "created" false).
Definition noTest : result EnvironmentTestState := Err errNodeOperationsClosed.
Definition noFault (s : string) : option go_error := None.
Definition written (s : string) : writeOutcome := Written.
Definition target (id : string) : NodeBatchTarget := BatchTarget id ("s-" +:+ id) "stop".
Definition batch : NodeOperationRequest :=
  OpRequest "" "cli" "b" "batch" "" None None
    [target "n1"; target "n2"; target "n3"; target "n4"; target "n5"].
Definition ids : list string := ["c1"; "c2"; "c3"; "c4"; "c5"].
Definition empty : nodeOperations := Manager false ∅ ∅.
Definition submitted : nodeOperations * result NodeOperation :=
  Submit recordSize requestSize parse node node 0 ids noTest noFault Written batch empty.
Definition ticked : nodeOperations * bool := batchTick recordSize 1 written Written "b" submitted.1.

Definition root (m : nodeOperations) : runningNodeOperation :=
  default (RunningOp zeroOperation [] false None) (mg_records m !! "b"%string).
Definition state (m : nodeOperations) : NodeBatchState :=
  default (BatchState [] 0 0 0 0 0 0 0) (op_Batch (ro_record (root m))).
Definition files : list (string * NodeOperation) := map_to_list (mg_disk ticked.1).
Definition restarted : result nodeOperations :=
  newNodeOperations recordSize (fun _ => Ok tt) 9 noFault written files files.*1 files.*1.
Definition again : NodeOperationRequest :=
  OpRequest "" "tui" "b" "batch" "" None None (or_Batch batch).

Lemma parse_ok s u : parse s = Some u -> u <> ""%string.
Proof. unfold parse. case_match; [done|]. intros [= <-]. by bool_to_prop. Qed.

Lemma empty_inv : mg_inv empty.
Proof.
  apply quiet_intro; simpl; try done. all: intros i o; unfold empty; simpl; by rewrite lookup_empty.
Qed.

Lemma submitted_fresh : freshIDs requestSize parse node node 0 ids noTest batch empty.
Proof.
  intros su E. vm_compute in E. injection E as <-. intros b [= <-].
  refine (bool_decide_unpack _ _). by vm_compute.
Qed.

Lemma submitted_step : mstep recordSize requestSize parse node node 0 empty submitted.1.
Proof.
  unfold submitted, Submit.
  destruct (submitPrepare _ _ _ _ _ _ _ _ _) as [a|su] eqn:E; [by vm_compute in E|].
  eapply StepSubmit; [exact E|]. by apply submitted_fresh.
Qed.

Lemma ticked_step : mstep recordSize requestSize parse node node 1 submitted.1 ticked.1.
Proof. apply StepTick. vm_compute. by eexists. Qed.

Lemma submitted_inv : mg_inv submitted.1.
Proof.
  eapply mstep_ok; [exact parse_ok|exact empty_inv|exact submitted_step].
Qed.

Lemma ticked_inv : mg_inv ticked.1.
Proof.
  eapply mstep_ok; [exact parse_ok|exact submitted_inv|exact ticked_step].
Qed.

Lemma files_ok i d :
  mg_disk ticked.1 !! i = Some d -> pendingCleanup d = false /\ i ∈ files.*1.
Proof.
  intros Hd. split.
  - assert (Hall : map_Forall (fun _ d => pendingCleanup d = false) (mg_disk ticked.1))
      by (refine (bool_decide_unpack _ _); by vm_compute).
    exact (Hall i d Hd).
  - apply list_elem_of_fmap. exists (i, d). split; [done|]. by apply elem_of_map_to_list.
Qed.

End Sample.

Lemma lifecycle_invariant_witness : mg_inv Sample.ticked.1.
Proof.
  apply (lifecycle_invariant Sample.recordSize Sample.requestSize Sample.parse Sample.node Sample.node
    Sample.empty); [exact Sample.parse_ok|exact Sample.empty_inv|].
  eapply rtc_l; [exists 0; exact Sample.submitted_step|].
  apply rtc_once. exists 1. exact Sample.ticked_step.
Defined.

Lemma restart_recovers_witness :
  match Sample.restarted with
  | Ok m' => mg_inv m' /\ Active m' = false /\ is_Some (mg_records m' !! "c4"%string) /\
      forall o, mg_records m' !! "c4"%string = Some o -> op_State (ro_record o) = "interrupted"%string
  | Err _ => False
  end.
Proof.
  destruct Sample.restarted as [m'|e] eqn:E; [|by vm_compute in E].
  destruct (restart_recovers Sample.recordSize (fun _ => Ok tt) 9 Sample.noFault Sample.written
    Sample.files Sample.files.*1 Sample.files.*1 Sample.ticked.1 m' Sample.ticked_inv ltac:(done))
    as (H1 & H2 & H3 & H4).
  - exact Sample.files_ok.
  - exact E.
  - split_and!; [exact H1|exact H2| |].
    + destruct (mg_disk Sample.ticked.1 !! "c4"%string) as [d|] eqn:Ed; [|by vm_compute in Ed].
      apply (H3 _ d Ed). vm_compute in Ed. by injection Ed as <-.
    + intros o Ho. destruct (H4 _ o Ho) as (_ & d & Hd & _ & Hs).
      vm_compute in Hd. injection Hd as <-. exact Hs.
Defined.

Lemma resubmission_witness :
  exists o, mg_records Sample.ticked.1 !! "b"%string = Some o /\
    Submit Sample.recordSize Sample.requestSize Sample.parse Sample.node Sample.node 5 [] Sample.noTest
      Sample.noFault Written Sample.again Sample.ticked.1 = (Sample.ticked.1, Ok (ro_record o)).
Proof.
  destruct Sample.submitted.2 as [r|e] eqn:Er; [|by vm_compute in Er].
  assert (Hid : op_ID r = "b"%string) by (vm_compute in Er; by injection Er as <-).
  destruct (resubmission Sample.recordSize Sample.requestSize Sample.parse Sample.node Sample.node
    0 Sample.ids Sample.noTest Sample.noFault Written Sample.batch Sample.empty Sample.submitted.1 r
    Sample.ticked.1 5 [] Sample.noTest Sample.noFault Written Sample.again) as (o & Ho & _ & Hs).
  - exact Sample.parse_ok.
  - exact Sample.submitted_fresh.
  - exact Sample.empty_inv.
  - unfold Sample.submitted in *. rewrite <- Er. by destruct (Submit _ _ _ _ _ _ _ _ _ _ _ _).
  - apply rtc_once. exists 1. split; [exact Sample.ticked_step|]. rewrite Hid. intros o Ho.
    vm_compute in Ho. by injection Ho as <-.
  - done.
  - done.
  - rewrite Hid. intros o Ho. vm_compute in Ho. by injection Ho as <-.
  - exists o. rewrite Hid in Ho. split; [exact Ho|]. rewrite Hs. by rewrite decide_True.
Defined.

Lemma batch_outcome_witness :
  exists o' b', mg_records Sample.ticked.1 !! "b"%string = Some o' /\
    op_Batch (ro_record o') = Some b' /\ (Sample.ticked.2 = true <-> Forall memberSettled (bs_Members b')).
Proof.
  destruct (batch_outcome Sample.recordSize 1 Sample.written "b" Sample.submitted.1
    (Sample.root Sample.submitted.1) (Sample.state Sample.submitted.1) Sample.ticked.1 Sample.ticked.2)
    as (o' & b' & H1 & H2 & _ & H3 & _).
  - done.
  - exact Sample.submitted_inv.
  - by vm_compute.
  - by vm_compute.
  - refine (bool_decide_unpack _ _). by vm_compute.
  - unfold Sample.ticked. by destruct (batchTick _ _ _ _ _ _).
  - exists o', b'. split_and!; [exact H1|exact H2|exact H3].
Defined.

Lemma batch_launch_witness :
  exists o' b', mg_records Sample.ticked.1 !! "b"%string = Some o' /\
    op_Batch (ro_record o') = Some b' /\ bs_Running b' <= 4 /\
    executingCountLocked Sample.ticked.1 <= nodeOperationLimit.
Proof.
  destruct (batch_launch Sample.recordSize 1 Sample.written "b" Sample.submitted.1
    (Sample.root Sample.submitted.1) (Sample.state Sample.submitted.1) Sample.ticked.1 Sample.ticked.2)
    as (o' & b' & H1 & H2 & _ & H3 & H4 & _).
  - done.
  - exact Sample.submitted_inv.
  - by vm_compute.
  - by vm_compute.
  - by vm_compute.
  - refine (bool_decide_unpack _ _). by vm_compute.
  - unfold Sample.ticked. by destruct (batchTick _ _ _ _ _ _).
  - exists o', b'. split_and!; [exact H1|exact H2| |exact H4].
    etrans; [exact H3|]. by vm_compute.
Defined.
