(* ===== verification/NodeHistory.v ===== *)
(** * Pages of lifecycle operations

    [List] and [ListPage] of [internal/codelima/node_operations.go]: the summary
    of every retained operation, newest first, and its pages.

    The size of an encoded page is an argument.  The progress summary of a
    listed operation is not modelled. *)

From S2P Require Import Prelude GoText NodeOperations NodeInvariant NodeRecovery.
Local Open Scope Z_scope.

(** [daemon.MaxMessageSize]. *)
Definition MaxMessageSize : Z := Z.shiftl 1 20.

Definition nodeOperationHistoryTime (r : NodeOperation) : time :=
  match op_FinishedAt r with Some t => t | None => op_CreatedAt r end.

(** The projection that [List] copies. *)
Definition listed (r : NodeOperation) : NodeOperation :=
  let q := op_Request r in
  let createStart := (or_Kind q =? "create")%string && request_startsNode q in
  let cloneStart := (or_Kind q =? "clone")%string && request_startsNode q in
  let request :=
    OpRequest "" (or_Origin q) (op_ID r) (or_Kind q) ""
      (if createStart then Some (CreateInput true "" []) else None)
      (if cloneStart then Some (CloneInput "" "" true) else None) [] in
  let test := match op_EnvironmentTest r with
              | Some t => Some (TestState (et_EnvironmentID t) (MkNode "" "" "" false)
                                  (et_CleanupPending t) (et_Outcome t) (et_Error t))
              | None => None
              end in
  Operation (batchSummary r) (op_BatchID r) test (op_ID r) request (op_NodeID r)
    (boundedOperationText (op_NodeSlug r) 1024) (op_State r) (op_CreatedAt r) (op_FinishedAt r)
    (boundedOperationText (op_Error r) 4096) (op_ErrorCode r) (op_ErrorCategory r) None
    (op_CurrentPhase r) [].

(** The order of [List]: [sortedBefore a b] is its less function. *)
Definition sortedBefore (a b : NodeOperation) : bool :=
  let left := nodeOperationHistoryTime a in
  let right := nodeOperationHistoryTime b in
  if left =? right then String.ltb (op_ID b) (op_ID a) else right <? left.

Definition inOrder (a b : NodeOperation) : Prop := sortedBefore b a = false.
#[export] Instance inOrder_dec : RelDecision inOrder.
Proof. intros a b. unfold inOrder. apply _. Defined.

Definition List_ (now : time) (m : nodeOperations) : list NodeOperation :=
  merge_sort inOrder
    (map listed
       (List.filter (fun r => negb (operationExpired r now))
          (map (fun kr => ro_record kr.2) (map_to_list (mg_records m))))).

Record NodeOperationsPage := Page {
  pg_Running : list NodeOperation;
  pg_History : list NodeOperation;
  pg_Next : string;
}.

(** The position after the cursor. *)
Fixpoint cursorStart (before : string) (history : list NodeOperation) : option nat :=
  match history with
  | [] => None
  | r :: history =>
      if (op_ID r =? before)%string then Some 1%nat else S <$> cursorStart before history
  end.

Section Pages.
Context (pageSize : list NodeOperation -> list NodeOperation -> Z).

(** The loop that drops records until the page fits; [n] is its length. *)
Fixpoint fitPage (running history : list NodeOperation) (n : nat) : nat :=
  match n with
  | O | 1%nat => n
  | S n' =>
      if pageSize running (take n history) <? MaxMessageSize / 2 - 1024 then n
      else fitPage running history n'
  end.

Definition pageAt (running history : list NodeOperation) (start limit : nat) : NodeOperationsPage :=
  let rest := drop start history in
  let n := fitPage running rest (Nat.min (length rest) limit) in
  Page running (take n rest)
    (if (start + n <? length history)%nat
     then match history !! (start + n - 1)%nat with Some r => op_ID r | None => "" end
     else "").

Definition ListPage (now : time) (faults : string -> option go_error) (before : string) (limit : Z)
    (m : nodeOperations) : nodeOperations * result NodeOperationsPage :=
  if (limit <? 0) || (100 <? limit)
  then (m, Err (invalidArgument "operation page limit must be between 1 and 100"))
  else
    let limit := if limit =? 0 then 50 else limit in
    match pruneLocked now faults m with
    | (m, Err e) => (m, Err e)
    | (m, Ok _) =>
        let records := List_ now m in
        let running := List.filter (fun r => live (op_State r)) records in
        let history := List.filter (fun r => negb (live (op_State r))) records in
        if (before =? "")%string then (m, Ok (pageAt running history 0 (Z.to_nat limit)))
        else match cursorStart before history with
        | None => (m, Err (notFound "operation page cursor expired; reload history"))
        | Some start => (m, Ok (pageAt running history start (Z.to_nat limit)))
        end
    end.

(** A client that follows the cursors. *)
Fixpoint followPages (fuel : nat) (now : time) (before : string) (limit : Z) (m : nodeOperations)
    : option (list NodeOperation) :=
  match fuel with
  | O => None
  | S fuel =>
      match ListPage now (fun _ => None) before limit m with
      | (m, Ok page) =>
          if (pg_Next page =? "")%string then Some (pg_History page)
          else app (pg_History page) <$> followPages fuel now (pg_Next page) limit m
      | (_, Err _) => None
      end
  end.

End Pages.

(** ** Following the cursors *)

Section Follow.
Context (pageSize : list NodeOperation -> list NodeOperation -> Z).

Lemma fitPage_bounds running history n :
  (fitPage pageSize running history n <= n)%nat /\
  ((0 < n)%nat -> (0 < fitPage pageSize running history n)%nat).
Proof.
  induction n as [|[|n] IH]; [split; simpl; lia|split; simpl; lia|].
  change (fitPage pageSize running history (S (S n))) with
    (if pageSize running (take (S (S n)) history) <? MaxMessageSize / 2 - 1024 then S (S n)
     else fitPage pageSize running history (S n)).
  case_match; [lia|]. destruct IH as [H1 H2]. specialize (H2 ltac:(lia)). lia.
Qed.

Lemma cursorStart_lookup history k r :
  NoDup (map op_ID history) -> history !! k = Some r -> cursorStart (op_ID r) history = Some (S k).
Proof.
  revert k. induction history as [|x history IH]; intros k Hnd Hk; [done|].
  simpl in Hnd. apply NoDup_cons in Hnd as [Hx Hnd]. destruct k as [|k]; simpl in *.
  { injection Hk as ->. by rewrite String.eqb_refl. }
  rewrite (proj2 (String.eqb_neq _ _)); [by rewrite (IH k)|]. intros He. apply Hx. rewrite He.
  apply list_elem_of_In, in_map, list_elem_of_In. by eapply list_elem_of_lookup_2.
Qed.

Lemma prune_idle now m :
  (forall id o, mg_records m !! id = Some o -> operationExpired (ro_record o) now = false) ->
  pruneLocked now (fun _ => None) m = (m, Ok tt).
Proof.
  intros He. unfold pruneLocked.
  assert (Hl : forall id o, (id, o) ∈ map_to_list (mg_records m) -> operationExpired (ro_record o) now = false)
    by (intros id o Hin; apply (He id), elem_of_map_to_list, Hin).
  induction (map_to_list (mg_records m)) as [|[id o] l IH]; [done|]. simpl.
  rewrite (Hl id o) by left. simpl. apply IH. intros i x Hx. apply (Hl i). by right.
Qed.

Definition histories (now : time) (m : nodeOperations) : list NodeOperation :=
  List.filter (fun r => negb (live (op_State r))) (List_ now m).

Lemma follow_from now limit m history running :
  (forall id o, mg_records m !! id = Some o -> operationExpired (ro_record o) now = false) ->
  0 <= limit <= 100 -> history = histories now m ->
  running = List.filter (fun r => live (op_State r)) (List_ now m) ->
  NoDup (map op_ID history) -> (forall r, r ∈ history -> op_ID r <> ""%string) ->
  forall fuel before start,
    (length (drop start history) < fuel)%nat ->
    (before = ""%string /\ start = O \/ before <> ""%string /\ cursorStart before history = Some start) ->
    followPages pageSize fuel now before limit m = Some (drop start history).
Proof.
  intros He Hlim Hh Hr Hnd Hid. set (lim := Z.to_nat (if limit =? 0 then 50 else limit)).
  assert (Hlimpos : (0 < lim)%nat) by (unfold lim; case_match; bool_to_prop; lia).
  induction fuel as [|fuel IH]; intros before start Hfuel Hb; [lia|]. cbn [followPages].
  assert (HL : ListPage pageSize now (fun _ => None) before limit m =
               (m, Ok (pageAt pageSize running history start lim))).
  { unfold ListPage. rewrite (proj2 (Z.ltb_ge limit 0)), (proj2 (Z.ltb_ge 100 limit)) by lia.
    simpl. rewrite prune_idle by done. fold (histories now m). rewrite <- Hh, <- Hr. fold lim.
    destruct Hb as [[-> ->]|[Hne Hc]]; [done|]. rewrite (proj2 (String.eqb_neq _ _) Hne), Hc. done. }
  rewrite HL. unfold pageAt. cbv zeta. cbn [pg_Next pg_History].
  destruct (fitPage_bounds running (drop start history) (Nat.min (length (drop start history)) lim))
    as [Hle Hpos].
  set (n := fitPage _ _ _ _) in *. rewrite length_drop in *.
  destruct (start + n <? length history)%nat eqn:E.
  - apply Nat.ltb_lt in E. specialize (Hpos ltac:(lia)).
    destruct (lookup_lt_is_Some_2 history (start + n - 1)) as [r Hr']; [lia|].
    rewrite Hr'. pose proof (Hid r ltac:(by eapply list_elem_of_lookup_2)) as Hrid.
    rewrite (proj2 (String.eqb_neq _ _) Hrid). rewrite (IH (op_ID r) (start + n)%nat).
    + simpl. f_equal. by rewrite <- drop_drop, take_drop.
    + rewrite length_drop. lia.
    + right. split; [done|]. rewrite (cursorStart_lookup _ _ _ Hnd Hr'). f_equal. lia.
  - apply Nat.ltb_ge in E. rewrite String.eqb_refl. f_equal. apply firstn_all2. rewrite length_drop. lia.
Qed.

Lemma List_elements now m r :
  r ∈ List_ now m <-> exists id o, mg_records m !! id = Some o /\
    operationExpired (ro_record o) now = false /\ r = listed (ro_record o).
Proof.
  unfold List_. rewrite merge_sort_Permutation, list_elem_of_In, in_map_iff. split.
  - intros (x & <- & Hx). apply filter_In in Hx as [Hx He]. apply in_map_iff in Hx as ([id o] & <- & Hin).
    apply list_elem_of_In, elem_of_map_to_list in Hin. exists id, o. bool_to_prop. done.
  - intros (id & o & Ho & He & ->). exists (ro_record o). split; [done|]. apply filter_In.
    rewrite He. split; [|done]. apply in_map_iff. exists (id, o). split; [done|].
    by apply list_elem_of_In, elem_of_map_to_list.
Qed.

Lemma NoDup_filter_map {A B} (f : A -> B) (g : A -> bool) l :
  NoDup (map f l) -> NoDup (map f (List.filter g l)).
Proof.
  induction l as [|x l IH]; simpl; [done|]. intros Hnd. apply NoDup_cons in Hnd as [Hx Hnd].
  case_match; [|by apply IH]. simpl. apply NoDup_cons. split; [|by apply IH]. intros Hin. apply Hx.
  apply list_elem_of_In, in_map_iff in Hin as (y & <- & Hy). apply filter_In in Hy as [Hy _].
  by apply list_elem_of_In, in_map.
Qed.

Lemma List_NoDup now m : mg_inv m -> NoDup (map op_ID (List_ now m)).
Proof.
  intros Hm. unfold List_. rewrite merge_sort_Permutation, map_map.
  rewrite (map_ext _ op_ID) by done. apply NoDup_filter_map. rewrite map_map.
  rewrite (map_ext_in _ fst); [apply NoDup_fst_map_to_list|].
  intros [id o] Hin. apply list_elem_of_In, elem_of_map_to_list in Hin. simpl.
  apply (ok_id _ _ (inv_records _ Hm _ _ Hin)).
Qed.

End Follow.

(** A client that follows the cursors of the history from the first page,
    with any page limit and any encoded sizes, terminates and has every ended
    operation that is retained exactly once, in the order of the list, and
    nothing else. *)
Theorem pages_cover_history pageSize now limit m :
  mg_inv m -> mg_records m !! ""%string = None -> 0 <= limit <= 100 ->
  (forall id o, mg_records m !! id = Some o -> operationExpired (ro_record o) now = false) ->
  exists history,
    followPages pageSize (S (length history)) now "" limit m = Some history /\
    NoDup (map op_ID history) /\
    (forall r, r ∈ history <-> exists id o, mg_records m !! id = Some o /\
       live (op_State (ro_record o)) = false /\ r = listed (ro_record o)).
Proof.
  intros Hm He Hl Hx. exists (histories now m).
  assert (Hel : forall r, r ∈ histories now m <-> exists id o, mg_records m !! id = Some o /\
       live (op_State (ro_record o)) = false /\ r = listed (ro_record o)).
  { intros r. unfold histories. rewrite list_elem_of_In, filter_In, <- list_elem_of_In, List_elements. split.
    - intros [(id & o & Ho & _ & ->) Hn]. exists id, o. bool_to_prop. done.
    - intros (id & o & Ho & Hn & ->). split; [|simpl; by rewrite Hn]. exists id, o. split; [done|]. by split; [eapply Hx|]. }
  assert (Hnd : NoDup (map op_ID (histories now m))) by by apply NoDup_filter_map, List_NoDup.
  split_and!; [|done|done].
  rewrite (follow_from pageSize now limit m (histories now m) _ Hx Hl eq_refl eq_refl Hnd) with (start := O);
    [by rewrite drop_0| |rewrite drop_0; lia|by left].
  intros r Hr. apply Hel in Hr as (id & o & Ho & _ & ->). simpl.
  rewrite (ok_id _ _ (inv_records _ Hm _ _ Ho)). intros ->. congruence.
Qed.

(** What the sample restart leaves, evaluated. *)
Definition restartedReady : bool :=
  match Sample.restarted with
  | Ok m =>
      bool_decide (mg_records m !! ""%string = None) &&
      bool_decide (map_Forall (fun _ o => operationExpired (ro_record o) 9 = false) (mg_records m)) &&
      match mg_records m !! "c4"%string with
      | Some o => negb (live (op_State (ro_record o))) && (op_ID (ro_record o) =? "c4")%string
      | None => false
      end
  | Err _ => false
  end.

Lemma restarted_ready : restartedReady = true.
Proof. vm_compute. reflexivity. Qed.

Lemma pages_cover_history_witness :
  match Sample.restarted with
  | Ok m => exists history,
      followPages (fun _ _ => 0) (S (length history)) 9 "" 2 m = Some history /\
      exists r, r ∈ history /\ op_ID r = "c4"%string
  | Err _ => False
  end.
Proof.
  pose proof restarted_ready as Hr. unfold restartedReady in Hr.
  destruct Sample.restarted as [m|e] eqn:E; [|discriminate].
  assert (Hm : mg_inv m).
  { destruct (restart_recovers_spec Sample.recordSize (fun _ => Ok tt) 9 Sample.noFault Sample.written
      Sample.files Sample.files.*1 Sample.files.*1 Sample.ticked.1 m Sample.ticked_inv ltac:(done)
      Sample.files_ok E) as [H _]. exact H. }
  clear E. destruct (mg_records m !! "c4"%string) as [o|] eqn:Ho; bool_to_prop; [|discriminate].
  destruct (pages_cover_history (fun _ _ => 0) 9 2 m Hm) as (history & Hf & _ & Hall); [done|lia|done|].
  exists history. split; [exact Hf|]. exists (listed (ro_record o)). split; [|done].
  apply Hall. by exists "c4"%string, o.
Defined.
