(* ===== verification/MetricsHistory.v ===== *)
(** * Resource histories

    [internal/codelima/metrics_history.go] and [metrics_cpu_trend.go]: the ring
    of samples a daemon keeps per node, its snapshots, and the minute of CPU
    samples that clients merge.

    A sample's values are opaque: integers stand for the bits of the readings.
    Cutoffs are computed on unbounded times, so a clock within two centuries of
    the ends of Go's time range is not modelled. *)

From S2P Require Import Prelude.
Local Open Scope Z_scope.

(** ** Samples and rings *)

Definition nodeMetricRetention : duration := hour.
Definition maxNodeMetricSamples : nat := Z.to_nat 3600.
Definition maxCPUTrendPoints : nat := 60.

Record NodeMetricPoint := MetricPoint {
  mp_SampledAt : time;
  mp_CPUUsagePercent : option Z;
  mp_MemoryUsedBytes : option Z;
  mp_MemoryTotalBytes : option Z;
  mp_DiskUsedBytes : option Z;
  mp_DiskTotalBytes : option Z;
}.

Definition zeroPoint : NodeMetricPoint := MetricPoint 0 None None None None None.

Record nodeMetricsHistory := History {
  mh_points : list NodeMetricPoint;
  mh_head : nat;
}.

(** [h.points[(h.head+i)%len(h.points)]]. *)
Definition ringAt (h : nodeMetricsHistory) (i : nat) : NodeMetricPoint :=
  nth ((mh_head h + i) mod length (mh_points h)) (mh_points h) zeroPoint.

Definition appendPoint (point : NodeMetricPoint) (h : nodeMetricsHistory) : nodeMetricsHistory :=
  if time_is_zero (mp_SampledAt point) then h
  else
    let n := length (mh_points h) in
    let store :=
      if (n <? maxNodeMetricSamples)%nat then History (mh_points h ++ [point]) (mh_head h)
      else History (<[mh_head h := point]> (mh_points h)) ((mh_head h + 1) mod maxNodeMetricSamples) in
    if (n =? 0)%nat then store
    else
      let last := ((mh_head h + n - 1) mod n)%nat in
      let at_ := mp_SampledAt (nth last (mh_points h) zeroPoint) in
      if mp_SampledAt point <? at_ then h
      else if mp_SampledAt point =? at_ then History (<[last := point]> (mh_points h)) (mh_head h)
      else store.

Definition latestAt (h : nodeMetricsHistory) : time :=
  match mh_points h with
  | [] => time_zero
  | _ => mp_SampledAt (ringAt h (length (mh_points h) - 1))
  end.

Definition retained (now after : time) (p : NodeMetricPoint) : bool :=
  negb ((mp_SampledAt p <? now - nodeMetricRetention) || (now <? mp_SampledAt p) ||
        negb (after <? mp_SampledAt p)).

(** The loop of [after]. *)
Definition after (now after : time) (h : nodeMetricsHistory) : list NodeMetricPoint :=
  List.filter (retained now after) (map (ringAt h) (seq 0 (length (mh_points h)))).

(** ** The histories of a forwarder *)

Record metricsStore := Store {
  ms_history : gmap string nodeMetricsHistory;
  ms_epoch : string;
}.

(** [recordMetricsHistoryLocked]; [newID] is the identifier it would draw. *)
Definition recordMetricsHistoryLocked (newID node : string) (event : NodeMetricPoint)
    (f : metricsStore) : metricsStore :=
  let epoch := if (ms_epoch f =? "")%string then newID else ms_epoch f in
  let history := default (History [] 0) (ms_history f !! node) in
  Store (<[node := appendPoint event history]> (ms_history f)) epoch.

Definition pruneMetricsHistoryLocked (now : time) (f : metricsStore) : metricsStore :=
  Store (filter (fun kh => (latestAt kh.2 <? now - nodeMetricRetention) = false) (ms_history f))
    (ms_epoch f).

(** [metricsSnapshot]: the history after the cursor, and the time of the latest
    event when there is one. *)
Definition metricsSnapshot (newID : string) (now : time) (node epoch : string) (cursor : time)
    (f : metricsStore) : metricsStore * (string * list NodeMetricPoint * option time) :=
  let f := Store (ms_history f) (if (ms_epoch f =? "")%string then newID else ms_epoch f) in
  let f := pruneMetricsHistoryLocked now f in
  let cursor := if (epoch =? ms_epoch f)%string then cursor else time_zero in
  (f, match ms_history f !! node with
      | Some h => (ms_epoch f, after now cursor h, Some (latestAt h))
      | None => (ms_epoch f, [], None)
      end).

(** ** CPU trends *)

Definition cpuOnly (p : NodeMetricPoint) : NodeMetricPoint :=
  MetricPoint (mp_SampledAt p) (mp_CPUUsagePercent p) None None None None.

(** The loop of [recentCPU] from index [i - 1] downwards; [n] points are
    collected. *)
Fixpoint recentLoop (now : time) (h : nodeMetricsHistory) (i n : nat) : list NodeMetricPoint :=
  match i with
  | O => []
  | S i =>
      if (n <? maxCPUTrendPoints)%nat then
        let point := ringAt h i in
        if mp_SampledAt point <? now - minute then []
        else if now <? mp_SampledAt point then recentLoop now h i n
        else cpuOnly point :: recentLoop now h i (S n)
      else []
  end.

Definition recentCPU (now : time) (h : nodeMetricsHistory) : list NodeMetricPoint :=
  rev (recentLoop now h (length (mh_points h)) 0).

Definition addPoint (at_ : time) (byTime : gmap Z NodeMetricPoint) (p : NodeMetricPoint)
    : gmap Z NodeMetricPoint :=
  if (mp_SampledAt p <? at_ - minute) || (at_ <? mp_SampledAt p) then byTime
  else <[mp_SampledAt p := cpuOnly p]> byTime.

Definition earlier (p q : NodeMetricPoint) : Prop := mp_SampledAt p <= mp_SampledAt q.
#[export] Instance earlier_dec : RelDecision earlier.
Proof. intros p q. unfold earlier. apply _. Defined.

Definition trendMap (previous incoming : list NodeMetricPoint) (at_ : time) (cpu : option Z)
    : gmap Z NodeMetricPoint :=
  foldl (addPoint at_) ∅ (previous ++ incoming ++ [MetricPoint at_ cpu None None None None]).

Definition mergeCPUTrend (previous incoming : list NodeMetricPoint) (at_ : time) (cpu : option Z)
    : list NodeMetricPoint :=
  if time_is_zero at_ then []
  else
    let points := merge_sort earlier (map snd (map_to_list (trendMap previous incoming at_ cpu))) in
    drop (length points - maxCPUTrendPoints) points.

(** ** The ring as a list *)

(** The samples from the oldest to the newest. *)
Definition contents (h : nodeMetricsHistory) : list NodeMetricPoint :=
  map (ringAt h) (seq 0 (length (mh_points h))).

(** What appending a sample means for that list. *)
Definition spec_append (c : list NodeMetricPoint) (p : NodeMetricPoint) : list NodeMetricPoint :=
  if time_is_zero (mp_SampledAt p) then c
  else match last c with
  | None => [p]
  | Some newest =>
      if mp_SampledAt p <? mp_SampledAt newest then c
      else if mp_SampledAt p =? mp_SampledAt newest then take (length c - 1) c ++ [p]
      else (if (length c <? maxNodeMetricSamples)%nat then c else drop 1 c) ++ [p]
  end.

Record ring_inv (h : nodeMetricsHistory) : Prop := {
  ri_length : (length (mh_points h) <= maxNodeMetricSamples)%nat;
  ri_partial : (length (mh_points h) < maxNodeMetricSamples)%nat -> mh_head h = O;
  ri_head : (mh_head h < maxNodeMetricSamples)%nat;
}.

Definition ordered (c : list NodeMetricPoint) : Prop :=
  StronglySorted (fun p q => mp_SampledAt p < mp_SampledAt q) c.

Lemma samples_pos : (0 < maxNodeMetricSamples)%nat.
Proof. unfold maxNodeMetricSamples. lia. Qed.

Lemma samples_trend : (maxCPUTrendPoints <= maxNodeMetricSamples)%nat.
Proof. unfold maxCPUTrendPoints, maxNodeMetricSamples. lia. Qed.

#[local] Opaque maxNodeMetricSamples.

Lemma contents_length h : length (contents h) = length (mh_points h).
Proof. unfold contents. by rewrite length_map, length_seq. Qed.

Lemma ring_rotate (l : list NodeMetricPoint) k :
  (k < length l)%nat ->
  map (ringAt (History l k)) (seq 0 (length l)) = drop k l ++ take k l.
Proof.
  intros Hk. apply list_eq. intros i. rewrite list_lookup_fmap.
  destruct (decide (i < length l)%nat) as [Hi|Hi].
  - rewrite lookup_seq_lt by done. simpl. unfold ringAt. simpl.
    destruct (decide (k + i < length l)%nat) as [Hki|Hki].
    + rewrite Nat.mod_small by done. rewrite lookup_app_l by (rewrite length_drop; lia).
      rewrite lookup_drop.
      destruct (lookup_lt_is_Some_2 l (k + i) Hki) as [x Hx]. rewrite Hx.
      by rewrite (nth_lookup_Some _ _ _ _ Hx).
    + replace ((k + i) mod length l)%nat with (k + i - length l)%nat.
      2: { apply Nat.mod_unique with 1%nat; lia. }
      rewrite lookup_app_r by (rewrite length_drop; lia). rewrite length_drop.
      replace (i - (length l - k))%nat with (k + i - length l)%nat by lia.
      rewrite lookup_take_lt by lia.
      destruct (lookup_lt_is_Some_2 l (k + i - length l)) as [x Hx]; [lia|]. rewrite Hx.
      by rewrite (nth_lookup_Some _ _ _ _ Hx).
  - rewrite lookup_seq_ge by lia. simpl. symmetry. apply lookup_ge_None.
    rewrite length_app, length_drop, length_take. lia.
Qed.

Lemma contents_ring h :
  ring_inv h -> contents h = drop (mh_head h) (mh_points h) ++ take (mh_head h) (mh_points h).
Proof.
  intros []. destruct h as [l k]. unfold contents. cbn [mh_points mh_head] in *.
  destruct (decide (length l < maxNodeMetricSamples)%nat) as [Hl|Hl].
  - rewrite (ri_partial0 Hl). destruct l as [|x l]; [done|]. rewrite ring_rotate by (simpl; lia).
    done.
  - apply ring_rotate. lia.
Qed.

Lemma contents_last h :
  (0 < length (mh_points h))%nat -> last (contents h) = Some (ringAt h (length (mh_points h) - 1)).
Proof.
  intros Hn. rewrite last_lookup, contents_length. unfold contents. rewrite list_lookup_fmap.
  rewrite lookup_seq_lt by lia. simpl. do 2 f_equal. lia.
Qed.

Lemma newest_index h :
  (0 < length (mh_points h))%nat ->
  nth ((mh_head h + length (mh_points h) - 1) mod length (mh_points h)) (mh_points h) zeroPoint =
  ringAt h (length (mh_points h) - 1).
Proof. intros Hn. unfold ringAt. do 2 f_equal. lia. Qed.

Lemma take_inserted (l : list NodeMetricPoint) k p :
  (k < length l)%nat -> take (S k) (<[k := p]> l) = take k l ++ [p].
Proof.
  intros Hk. rewrite insert_take_drop by done.
  rewrite take_app_ge by (rewrite length_take; lia). rewrite length_take.
  by replace (S k - k `min` length l)%nat with 1%nat by lia.
Qed.

Lemma drop_inserted (l : list NodeMetricPoint) k p :
  (k < length l)%nat -> drop (S k) (<[k := p]> l) = drop (S k) l.
Proof.
  intros Hk. rewrite insert_take_drop by done.
  rewrite drop_app_ge by (rewrite length_take; lia). rewrite length_take.
  by replace (S k - k `min` length l)%nat with 1%nat by lia.
Qed.

(** Replacing the newest sample. *)
Lemma replace_newest h p :
  ring_inv h -> (0 < length (mh_points h))%nat ->
  let n := length (mh_points h) in
  let h' := History (<[((mh_head h + n - 1) mod n)%nat := p]> (mh_points h)) (mh_head h) in
  ring_inv h' /\ contents h' = take (length (contents h) - 1) (contents h) ++ [p].
Proof.
  intros Hinv Hn n h'.
  assert (Hinv' : ring_inv h').
  { destruct Hinv. split; unfold h'; simpl; by rewrite ?length_insert. }
  split; [done|]. rewrite !contents_ring by done. rewrite length_app, length_drop, length_take.
  destruct Hinv. unfold h', n in *. clear h' n Hinv'. destruct h as [l k]. cbn [mh_points mh_head] in *.
  destruct k as [|k].
  - rewrite !drop_0, !take_0, !app_nil_r. replace ((0 + length l - 1) mod length l)%nat with (length l - 1)%nat
      by (rewrite Nat.mod_small; lia).
    rewrite <- (firstn_all (<[_ := p]> l)), length_insert.
    replace (length l) with (S (length l - 1)) at 1 by lia. rewrite take_inserted by lia. f_equal. f_equal. lia.
  - assert (Hl : length l = maxNodeMetricSamples).
    { destruct (decide (length l < maxNodeMetricSamples)%nat) as [H|H]; [by specialize (ri_partial0 H)|lia]. }
    replace ((S k + length l - 1) mod length l)%nat with k.
    2: { apply Nat.mod_unique with 1%nat; lia. }
    rewrite drop_inserted, take_inserted by lia. rewrite app_assoc. f_equal.
    rewrite take_app_ge by (rewrite length_drop; lia). rewrite length_drop, take_take.
    f_equal. f_equal. lia.
Qed.

(** Storing a sample after the newest one. *)
Lemma store_newest h p :
  ring_inv h ->
  let h' := if (length (mh_points h) <? maxNodeMetricSamples)%nat
            then History (mh_points h ++ [p]) (mh_head h)
            else History (<[mh_head h := p]> (mh_points h)) ((mh_head h + 1) mod maxNodeMetricSamples) in
  ring_inv h' /\
  contents h' = (if (length (contents h) <? maxNodeMetricSamples)%nat then contents h
                 else drop 1 (contents h)) ++ [p].
Proof.
  intros Hinv h'. pose proof samples_pos as Hpos. rewrite contents_length.
  destruct (length (mh_points h) <? maxNodeMetricSamples)%nat eqn:E; unfold h' in *; clear h'.
  - apply Nat.ltb_lt in E. pose proof (contents_ring h Hinv) as Hc. destruct Hinv.
    specialize (ri_partial0 E). destruct h as [l k]. cbn [mh_points mh_head] in *. subst k.
    assert (Hinv' : ring_inv (History (l ++ [p]) 0)) by (split; simpl; rewrite ?length_app; simpl; lia).
    split; [done|]. rewrite contents_ring, Hc by done. simpl. by rewrite !drop_0, !app_nil_r.
  - apply Nat.ltb_ge in E. pose proof (contents_ring h Hinv) as Hc. destruct Hinv.
    destruct h as [l k]. cbn [mh_points mh_head] in *. assert (Hl : length l = maxNodeMetricSamples) by lia.
    assert (Hinv' : ring_inv (History (<[k:=p]> l) ((k + 1) mod maxNodeMetricSamples))).
    { split; simpl; rewrite ?length_insert; try lia. apply Nat.mod_upper_bound. lia. }
    split; [done|]. rewrite contents_ring, Hc by done. cbn [mh_points mh_head].
    destruct (decide (k + 1 = maxNodeMetricSamples)%nat) as [Hk|Hk].
    + rewrite Hk, Nat.Div0.mod_same, drop_0, take_0, app_nil_r.
      rewrite <- (firstn_all (<[k := p]> l)), length_insert. replace (length l) with (S k) by lia.
      rewrite take_inserted by lia. f_equal. rewrite drop_app_ge by (rewrite length_drop; lia).
      rewrite length_drop. by replace (1 - (length l - k))%nat with 0%nat by lia.
    + rewrite Nat.mod_small by lia. replace (k + 1)%nat with (S k) by lia.
      rewrite drop_inserted, take_inserted by lia. rewrite app_assoc. f_equal.
      rewrite drop_app_le by (rewrite length_drop; lia). rewrite drop_drop. do 2 f_equal. lia.
Qed.

Lemma appendPoint_spec h p :
  ring_inv h -> ring_inv (appendPoint p h) /\ contents (appendPoint p h) = spec_append (contents h) p.
Proof.
  intros Hinv. unfold appendPoint, spec_append. cbv zeta. case_match; [done|].
  pose proof (store_newest h p Hinv) as Hstore. cbv zeta in Hstore.
  destruct (length (mh_points h) =? 0)%nat eqn:E0.
  - apply Nat.eqb_eq in E0. assert (Hnil : contents h = []) by (apply nil_length_inv; by rewrite contents_length).
    rewrite Hnil in *. destruct Hstore as [H1 H2]. split; [done|]. rewrite H2. simpl. by case_match.
  - apply Nat.eqb_neq in E0. rewrite contents_last, newest_index by lia.
    destruct (mp_SampledAt p <? _); [done|]. destruct (mp_SampledAt p =? _); [|done].
    apply replace_newest; [done|lia].
Qed.

(** ** Suffixes of ordered samples *)

Lemma ordered_app l k :
  ordered (l ++ k) <-> ordered l /\ ordered k /\
    (forall p q, p ∈ l -> q ∈ k -> mp_SampledAt p < mp_SampledAt q).
Proof.
  unfold ordered. induction l as [|x l IH]; simpl.
  { split; [intros H; split_and!; [constructor|done|]|by intros (_ & ? & _)].
    intros p q Hp. by apply elem_of_nil in Hp. }
  rewrite !StronglySorted_cons, IH, Forall_app, !Forall_forall. split.
  - intros [[H1 H2] (H3 & H4 & H5)]. split_and!; try done. intros p q Hp Hq.
    apply elem_of_cons in Hp as [->|Hp]; auto.
  - intros ((H1 & H2) & H3 & H4). split_and!; try done.
    + intros q Hq. apply H4; [left|done].
    + intros p q Hp Hq. apply H4; [by right|done].
Qed.

Lemma spec_append_ordered c p : ordered c -> ordered (spec_append c p).
Proof.
  intros Hc. unfold spec_append. case_match; [done|].
  destruct (last c) as [q|] eqn:Hl; [|repeat constructor].
  apply last_Some in Hl as (c' & ->).
  destruct (mp_SampledAt p <? mp_SampledAt q) eqn:E1; [done|].
  apply ordered_app in Hc as (H1 & H2 & H3).
  destruct (mp_SampledAt p =? mp_SampledAt q) eqn:E2; bool_to_prop.
  - rewrite length_app, take_app_le by (simpl; lia). rewrite firstn_all2 by (simpl; lia).
    apply ordered_app. split_and!; [done|repeat constructor|]. intros x y Hx Hy.
    apply list_elem_of_singleton in Hy as ->. rewrite E2. apply H3; [done|]. by apply list_elem_of_singleton.
  - assert (Hs : ordered ((c' ++ [q]) ++ [p])).
    { apply ordered_app. split_and!; [by apply ordered_app|repeat constructor|]. intros x y Hx Hy.
      apply list_elem_of_singleton in Hy as ->. apply elem_of_app in Hx as [Hx|Hx].
      - specialize (H3 x q Hx ltac:(by apply list_elem_of_singleton)). lia.
      - apply list_elem_of_singleton in Hx as ->. lia. }
    case_match; [done|]. apply ordered_app in Hs as (Ha & Hb & Hc').
    apply ordered_app. split_and!; [|done|].
    + rewrite <- (take_drop 1 (c' ++ [q])) in Ha. by apply ordered_app in Ha as (_ & ? & _).
    + intros x y Hx. apply Hc'. rewrite <- (take_drop 1 (c' ++ [q])). apply elem_of_app. by right.
Qed.

(** The last [n] elements. *)
Definition lastn {A} (n : nat) (l : list A) : list A := drop (length l - n) l.

(** The samples from a time on are a suffix. *)
Lemma since_suffix t c :
  ordered c -> exists j, (j <= length c)%nat /\
    List.filter (fun p => t <=? mp_SampledAt p) c = drop j c /\
    (forall p, p ∈ take j c -> mp_SampledAt p < t).
Proof.
  induction c as [|x c IH]; intros Hc.
  { exists 0%nat. split_and!; [simpl; lia|done|]. intros p Hp. by apply elem_of_nil in Hp. }
  unfold ordered in Hc. apply StronglySorted_cons in Hc as [Hx Hc]. rewrite Forall_forall in Hx.
  simpl. destruct (t <=? mp_SampledAt x) eqn:E; bool_to_prop.
  - exists 0%nat. split_and!; [lia| |intros p Hp; by apply elem_of_nil in Hp]. rewrite drop_0. f_equal.
    clear IH Hc. induction c as [|y c IH]; [done|]. simpl.
    pose proof (Hx y ltac:(left)). rewrite (proj2 (Z.leb_le t (mp_SampledAt y))) by lia.
    rewrite IH; [done|]. intros z Hz. apply Hx. by right.
  - destruct (IH Hc) as (j & Hj & Hf & Ht). exists (S j). split_and!; [simpl; lia|done|].
    intros p Hp. simpl in Hp. apply elem_of_cons in Hp as [->|Hp]; [lia|auto].
Qed.

Definition inWindow (at_ : time) (p : NodeMetricPoint) : bool :=
  (at_ - minute <=? mp_SampledAt p) && (mp_SampledAt p <=? at_).

(** The minute before [at_] of a history. *)
Definition window (at_ : time) (c : list NodeMetricPoint) : list NodeMetricPoint :=
  lastn maxCPUTrendPoints (map cpuOnly (List.filter (inWindow at_) c)).

Lemma recentLoop_spec now h i n :
  ordered (contents h) -> (i <= length (mh_points h))%nat ->
  recentLoop now h i n =
    take (maxCPUTrendPoints - n) (map cpuOnly (rev (List.filter (inWindow now) (take i (contents h))))).
Proof.
  intros Hord. revert n. induction i as [|i IH]; intros n Hi; simpl recentLoop.
  { simpl. by rewrite take_nil. }
  assert (Hs : take (S i) (contents h) = take i (contents h) ++ [ringAt h i]).
  { apply take_S_r. unfold contents. rewrite list_lookup_fmap, lookup_seq_lt by lia. done. }
  rewrite Hs, List.filter_app, rev_app_distr. simpl List.filter.
  destruct (n <? maxCPUTrendPoints)%nat eqn:En.
  2: { apply Nat.ltb_ge in En. by replace (maxCPUTrendPoints - n)%nat with 0%nat by lia. }
  apply Nat.ltb_lt in En.
  destruct (mp_SampledAt (ringAt h i) <? now - minute) eqn:E1; [|destruct (now <? _) eqn:E2]; bool_to_prop.
  - assert (Hnil : List.filter (inWindow now) (take i (contents h)) = []).
    { rewrite <- (take_drop (S i) (contents h)) in Hord.
      apply ordered_app in Hord as (Hord & _ & _). rewrite Hs in Hord.
      apply ordered_app in Hord as (_ & _ & Hlt). clear IH Hs.
      induction (take i (contents h)) as [|x l IHl]; [done|]. simpl.
      pose proof (Hlt x _ ltac:(left) (proj2 (list_elem_of_singleton _ _) eq_refl)).
      unfold inWindow at 1. rewrite (proj2 (Z.leb_gt _ _)) by lia. simpl.
      apply IHl. intros p q Hp Hq. apply Hlt; [by right|done]. }
    rewrite Hnil. unfold inWindow. rewrite (proj2 (Z.leb_gt _ _)) by lia. simpl. by rewrite take_nil.
  - rewrite IH by lia. unfold inWindow at 2. rewrite (proj2 (Z.leb_gt (mp_SampledAt (ringAt h i)) now)) by lia.
    by rewrite andb_false_r.
  - rewrite IH by lia. unfold inWindow at 2.
    rewrite (proj2 (Z.leb_le (mp_SampledAt (ringAt h i)) now)), (proj2 (Z.leb_le (now - minute) _)) by lia.
    simpl. replace (maxCPUTrendPoints - n)%nat with (S (maxCPUTrendPoints - S n)) by lia. done.
Qed.

Lemma recentCPU_window now h : ordered (contents h) -> recentCPU now h = window now (contents h).
Proof.
  intros Hord. unfold recentCPU, window, lastn. rewrite recentLoop_spec by done.
  rewrite <- contents_length, firstn_all.
  rewrite Nat.sub_0_r, map_rev, firstn_rev.
  by rewrite rev_involutive.
Qed.

(** ** Merging *)

Definition keyed (m : gmap Z NodeMetricPoint) : Prop :=
  forall k p, m !! k = Some p -> mp_SampledAt p = k.

#[export] Instance earlier_trans : Transitive earlier.
Proof. intros p q r. unfold earlier. lia. Qed.
#[export] Instance earlier_total : Total earlier.
Proof. intros p q. unfold earlier. lia. Qed.

Lemma addPoint_filter at_ l m :
  foldl (addPoint at_) m l = foldl (addPoint at_) m (List.filter (inWindow at_) l).
Proof.
  revert m. induction l as [|p l IH]; intros m; [done|]. simpl.
  assert (Ha : inWindow at_ p = false -> addPoint at_ m p = m).
  { unfold inWindow, addPoint. intros H. apply andb_false_iff in H as [H|H].
    - rewrite Z.leb_antisym in H. apply negb_false_iff in H. by rewrite H.
    - rewrite Z.leb_antisym in H. apply negb_false_iff in H. by rewrite H, orb_true_r. }
  destruct (inWindow at_ p); simpl; [apply IH|]. by rewrite Ha.
Qed.

Lemma addPoint_in at_ m p : inWindow at_ p = true -> addPoint at_ m p = <[mp_SampledAt p := cpuOnly p]> m.
Proof.
  unfold inWindow, addPoint. intros H. bool_to_prop.
  by rewrite (proj2 (Z.ltb_ge (mp_SampledAt p) _)), (proj2 (Z.ltb_ge at_ _)) by lia.
Qed.

Lemma addPoint_keyed at_ l m : keyed m -> keyed (foldl (addPoint at_) m l).
Proof.
  revert m. induction l as [|p l IH]; intros m Hm; [done|]. apply IH. unfold addPoint.
  case_match; [done|]. intros k q. rewrite lookup_insert. case_decide; [by intros [= <-]|apply Hm].
Qed.

Lemma keyed_sorted m :
  keyed m -> ordered (merge_sort earlier (map snd (map_to_list m))).
Proof.
  intros Hm. assert (Hnd : NoDup (map mp_SampledAt (map snd (map_to_list m)))).
  { rewrite map_map. rewrite (map_ext_in _ fst); [apply NoDup_fst_map_to_list|].
    intros [k p] Hin. apply list_elem_of_In, elem_of_map_to_list in Hin. by apply Hm. }
  pose proof (merge_sort_Permutation earlier (map snd (map_to_list m))) as Hp.
  assert (Hnd' : NoDup (map mp_SampledAt (merge_sort earlier (map snd (map_to_list m)))))
    by (by rewrite Hp).
  pose proof (StronglySorted_merge_sort earlier (map snd (map_to_list m))) as Hs.
  revert Hnd' Hs. generalize (merge_sort earlier (map snd (map_to_list m))). clear.
  intros l Hnd Hs. induction Hs as [|p l Hs IH Hp]; [constructor|].
  simpl in Hnd. apply NoDup_cons in Hnd as [Hn Hnd]. constructor; [by apply IH|].
  rewrite Forall_forall in *. intros q Hq. specialize (Hp q Hq). unfold earlier in Hp.
  assert (mp_SampledAt p <> mp_SampledAt q); [|lia].
  intros He. apply Hn. rewrite He. by apply list_elem_of_In, in_map, list_elem_of_In.
Qed.

Lemma addPoint_ordered at_ l :
  ordered l -> Forall (fun p => inWindow at_ p = true) l ->
  map snd (map_to_list (foldl (addPoint at_) ∅ l)) ≡ₚ map cpuOnly l /\
  (forall k, is_Some (foldl (addPoint at_) ∅ l !! k) -> exists p, p ∈ l /\ mp_SampledAt p = k).
Proof.
  induction l as [|p l IH] using rev_ind; intros Hl Hw.
  { simpl. rewrite map_to_list_empty. split; [done|]. intros k [x Hx]. by rewrite lookup_empty in Hx. }
  apply ordered_app in Hl as (Hl & _ & Hlt). apply Forall_app in Hw as [Hw Hp].
  apply Forall_cons_1 in Hp as [Hp _]. destruct (IH Hl Hw) as [IH1 IH2].
  rewrite foldl_app. simpl. rewrite (addPoint_in at_ _ p Hp). split.
  - rewrite map_to_list_insert.
    + simpl. rewrite IH1, map_app. simpl. apply Permutation_cons_append.
    + destruct (foldl _ _ _ !! _) as [x|] eqn:Ex; [|done].
      destruct (IH2 (mp_SampledAt p) ltac:(by eexists)) as (q & Hq & He).
      specialize (Hlt q p Hq (proj2 (list_elem_of_singleton _ _) eq_refl)). lia.
  - intros k Hk. rewrite lookup_insert in Hk. case_decide.
    + exists p. split; [|done]. apply elem_of_app. right. by apply list_elem_of_singleton.
    + destruct (IH2 k Hk) as (q & Hq & He). exists q. split; [|done]. apply elem_of_app. by left.
Qed.

Lemma ordered_unique l k : ordered l -> ordered k -> l ≡ₚ k -> l = k.
Proof.
  intros Hl Hk. refine (StronglySorted_unique_strong _ l k _ Hl Hk). intros x y _ _ ? ?. lia.
Qed.

Lemma ordered_cpuOnly l : ordered l -> ordered (map cpuOnly l).
Proof.
  unfold ordered. induction 1 as [|p l _ IH Hp]; [constructor|]. simpl. constructor; [done|].
  rewrite Forall_forall in *. intros q Hq. apply list_elem_of_In, in_map_iff in Hq as (q' & <- & Hq).
  simpl. apply Hp. by apply list_elem_of_In.
Qed.

Lemma ordered_filter f l : ordered l -> ordered (List.filter f l).
Proof.
  unfold ordered. induction 1 as [|p l _ IH Hp]; [constructor|]. simpl. case_match; [|done].
  constructor; [done|]. rewrite Forall_forall in *. intros q Hq.
  apply list_elem_of_In, filter_In in Hq as [Hq _]. apply Hp. by apply list_elem_of_In.
Qed.

(** Merging ordered samples is cutting out their window. *)
Lemma merge_ordered previous incoming at_ cpu :
  at_ <> 0 ->
  ordered (previous ++ incoming ++ [MetricPoint at_ cpu None None None None]) ->
  mergeCPUTrend previous incoming at_ cpu =
    window at_ (previous ++ incoming ++ [MetricPoint at_ cpu None None None None]).
Proof.
  intros Hat Hord. unfold mergeCPUTrend, time_is_zero. rewrite (proj2 (Z.eqb_neq _ _) Hat).
  unfold window, lastn, trendMap. rewrite addPoint_filter.
  set (l := List.filter (inWindow at_) _).
  assert (Hl : ordered l) by by apply ordered_filter.
  destruct (addPoint_ordered at_ l Hl) as [Hp _].
  { apply Forall_forall. intros p Hp. by apply list_elem_of_In, filter_In in Hp as [_ ?]. }
  assert (Hm : merge_sort earlier (map snd (map_to_list (foldl (addPoint at_) ∅ l))) = map cpuOnly l).
  { apply ordered_unique; [|by apply ordered_cpuOnly|by rewrite merge_sort_Permutation].
    apply keyed_sorted, addPoint_keyed. intros k p. by rewrite lookup_empty. }
  cbv zeta. by rewrite Hm.
Qed.

(** ** A trend extended by one sample *)

Lemma filter_keeps {A} (f : A -> bool) l : (forall x, x ∈ l -> f x = true) -> List.filter f l = l.
Proof.
  induction l as [|x l IH]; intros H; [done|]. simpl. rewrite H by left. f_equal. apply IH.
  intros y Hy. apply H. by right.
Qed.

Lemma filter_none {A} (f : A -> bool) l : (forall x, x ∈ l -> f x = false) -> List.filter f l = [].
Proof.
  induction l as [|x l IH]; intros H; [done|]. simpl. rewrite H by left. apply IH.
  intros y Hy. apply H. by right.
Qed.

(** Filtering a suffix, when filtering the list leaves a suffix. *)
Lemma filter_drop {A} (f : A -> bool) c j a :
  List.filter f c = drop j c -> (forall x, x ∈ take j c -> f x = false) ->
  List.filter f (drop a c) = drop (Nat.max a j) c.
Proof.
  intros Hf Ht. assert (Hin : forall x, x ∈ drop j c -> f x = true).
  { intros x Hx. rewrite <- Hf in Hx. by apply list_elem_of_In, filter_In in Hx as [_ ?]. }
  destruct (decide (a <= j)%nat) as [Ha|Ha].
  - rewrite Nat.max_r by done. rewrite <- (take_drop (j - a) (drop a c)), List.filter_app, drop_drop.
    replace (a + (j - a))%nat with j by lia. rewrite (filter_none _ (take _ _)), (filter_keeps _ (drop j c)); [done|done|].
    intros x Hx. apply Ht. rewrite <- (take_drop a (take j c)). apply elem_of_app. right.
    by rewrite skipn_firstn_comm.
  - rewrite Nat.max_l by lia. apply filter_keeps. intros x Hx. apply Hin.
    replace a with (j + (a - j))%nat in Hx by lia. rewrite <- drop_drop in Hx.
    rewrite <- (take_drop (a - j) (drop j c)). apply elem_of_app. by right.
Qed.

Lemma lastn_snoc {A} n x (c : list A) e :
  lastn (S n) (drop x c ++ [e]) = drop (Nat.max x (length c - n)) c ++ [e].
Proof.
  unfold lastn. rewrite length_app, length_drop. simpl.
  rewrite drop_app_le by (rewrite length_drop; lia). rewrite drop_drop. f_equal.
  destruct (decide (x <= length c)%nat) as [Hx|Hx]; [f_equal; lia|].
  rewrite !drop_ge by lia. done.
Qed.

Lemma lastn_map {A B} (f : A -> B) n l : lastn n (map f l) = map f (lastn n l).
Proof. unfold lastn. by rewrite length_map, skipn_map. Qed.

Lemma window_cpuOnly at_ l k : window at_ (map cpuOnly l ++ k) = window at_ (l ++ k).
Proof.
  unfold window. f_equal. rewrite !List.filter_app, !map_app. f_equal.
  induction l as [|p l IH]; [done|]. simpl. change (inWindow at_ (cpuOnly p)) with (inWindow at_ p).
  case_match; simpl; by rewrite IH.
Qed.

(** Only the minute before the newest sample matters for the next window. *)
Lemma window_extend c t0 b ev :
  ordered c -> last (map mp_SampledAt c) = Some t0 -> t0 < mp_SampledAt ev ->
  (b + maxCPUTrendPoints <= length c + 1)%nat \/ b = O ->
  window (mp_SampledAt ev) (window t0 c ++ [ev]) = window (mp_SampledAt ev) (drop b c ++ [ev]).
Proof.
  intros Hord Hlast Hlt Hb.
  assert (Hmax : forall p, p ∈ c -> mp_SampledAt p <= t0).
  { intros p Hp. rewrite last_Some in Hlast. destruct Hlast as (l & Hl).
    destruct c as [|q c' _] using rev_ind; [by apply elem_of_nil in Hp|].
    rewrite map_app in Hl. apply app_inj_tail in Hl as [_ Hq]. simpl in Hq.
    apply ordered_app in Hord as (_ & _ & Hq'). apply elem_of_app in Hp as [Hp|Hp].
    - specialize (Hq' p q Hp (proj2 (list_elem_of_singleton _ _) eq_refl)). lia.
    - apply list_elem_of_singleton in Hp as ->. lia. }
  assert (Hwin : forall t l, (forall p, p ∈ l -> p ∈ c) -> t0 <= t ->
    List.filter (inWindow t) l = List.filter (fun p => t - minute <=? mp_SampledAt p) l).
  { intros t l Hl Ht. apply filter_ext_in. intros p Hp. unfold inWindow.
    specialize (Hmax p (Hl p (proj2 (list_elem_of_In _ _) Hp))).
    rewrite (proj2 (Z.leb_le (mp_SampledAt p) t)) by lia. by rewrite andb_true_r. }
  assert (Hdrop : forall a p, p ∈ drop a c -> p ∈ c).
  { intros a p Hp. rewrite <- (take_drop a c). apply elem_of_app. by right. }
  destruct (since_suffix (t0 - minute) c Hord) as (j0 & Hj0 & Hf0 & Ht0).
  destruct (since_suffix (mp_SampledAt ev - minute) c Hord) as (j1 & Hj1 & Hf1 & Ht1).
  assert (Hj : (j0 <= j1)%nat).
  { destruct (decide (j0 <= j1)%nat) as [?|Hn]; [done|]. exfalso.
    destruct (lookup_lt_is_Some_2 c j1) as [p Hp]; [lia|].
    assert (Hin : p ∈ drop j1 c) by (apply (list_elem_of_lookup_2 _ 0); by rewrite lookup_drop, Nat.add_0_r).
    rewrite <- Hf1 in Hin. apply list_elem_of_In, filter_In in Hin as [_ Hin]. bool_to_prop.
    specialize (Ht0 p ltac:(apply (list_elem_of_lookup_2 _ j1); by rewrite lookup_take_lt by lia)). lia. }
  assert (Hfd : forall a, List.filter (inWindow (mp_SampledAt ev)) (drop a c) = drop (Nat.max a j1) c).
  { intros a. rewrite Hwin by (try lia; apply Hdrop). apply filter_drop; [done|].
    intros p Hp. apply Z.leb_gt. by apply Ht1. }
  assert (Hself : List.filter (inWindow (mp_SampledAt ev)) [ev] = [ev]).
  { apply filter_keeps. intros p Hp. apply list_elem_of_singleton in Hp as ->. unfold inWindow, minute, second.
    rewrite (proj2 (Z.leb_le _ _)), (proj2 (Z.leb_le _ _)) by lia. done. }
  assert (Hw : forall a, window (mp_SampledAt ev) (drop a c ++ [ev]) =
    map cpuOnly (drop (Nat.max (Nat.max a j1) (length c - 59)) c ++ [ev])).
  { intros a. unfold window. rewrite List.filter_app, Hfd, Hself, lastn_map.
    change maxCPUTrendPoints with (S 59). by rewrite lastn_snoc. }
  assert (Ht : window t0 c = map cpuOnly (drop (j0 + (length c - j0 - 60)) c)).
  { unfold window. rewrite Hwin, Hf0 by (done || lia). rewrite lastn_map. unfold lastn.
    by rewrite length_drop, drop_drop. }
  rewrite Ht, window_cpuOnly, !Hw. do 3 f_equal. unfold maxCPUTrendPoints in Hb. lia.
Qed.

Lemma window_ordered at_ c : ordered c -> ordered (window at_ c).
Proof.
  intros Hc. unfold window, lastn.
  set (l := map cpuOnly _). assert (Hl : ordered l) by (apply ordered_cpuOnly; by apply ordered_filter).
  rewrite <- (take_drop (length l - maxCPUTrendPoints) l) in Hl.
  by apply ordered_app in Hl as (_ & ? & _).
Qed.

Lemma window_le at_ c p : p ∈ window at_ c -> mp_SampledAt p <= at_.
Proof.
  unfold window, lastn. set (l := map cpuOnly _). intros Hp.
  assert (Hl : p ∈ l).
  { rewrite <- (take_drop (length l - maxCPUTrendPoints) l). apply elem_of_app. by right. }
  apply list_elem_of_In, in_map_iff in Hl as (q & <- & Hq). apply filter_In in Hq as [_ Hq].
  unfold inWindow in Hq. bool_to_prop. done.
Qed.

Lemma window_snoc at_ l p : window at_ (l ++ [cpuOnly p]) = window at_ (l ++ [p]).
Proof.
  unfold window. f_equal. rewrite !List.filter_app, !map_app. f_equal. simpl.
  change (inWindow at_ (cpuOnly p)) with (inWindow at_ p). by case_match.
Qed.

Lemma extend_spec h ev :
  ring_inv h -> ordered (contents h) -> contents h <> [] -> mp_SampledAt ev <> 0 ->
  latestAt h < mp_SampledAt ev ->
  mergeCPUTrend (recentCPU (latestAt h) h) [] (mp_SampledAt ev) (mp_CPUUsagePercent ev) =
  recentCPU (mp_SampledAt ev) (appendPoint ev h).
Proof.
  intros Hinv Hord Hne Hz Hlt. destruct (appendPoint_spec h ev Hinv) as [_ Hc].
  rewrite !recentCPU_window; [|rewrite Hc; by apply spec_append_ordered|done]. rewrite Hc.
  destruct (last (contents h)) as [q|] eqn:Hq; [|by apply last_None in Hq].
  assert (Hlatest : latestAt h = mp_SampledAt q).
  { unfold latestAt. destruct (mh_points h) as [|x l] eqn:E.
    - exfalso. apply Hne, nil_length_inv. by rewrite contents_length, E.
    - rewrite contents_last in Hq by (rewrite E; simpl; lia). injection Hq as <-. by rewrite E. }
  unfold spec_append. rewrite Hq. unfold time_is_zero. rewrite (proj2 (Z.eqb_neq _ _) Hz).
  rewrite Hlatest in *.
  rewrite (proj2 (Z.ltb_ge _ _)), (proj2 (Z.eqb_neq (mp_SampledAt ev) _)) by lia.
  assert (Hb : exists b, (if (length (contents h) <? maxNodeMetricSamples)%nat then contents h
       else drop 1 (contents h)) = drop b (contents h) /\
     ((b + maxCPUTrendPoints <= length (contents h) + 1)%nat \/ b = O)).
  { pose proof samples_trend. case_match eqn:E; [exists 0%nat; split; [done|by right]|].
    apply Nat.ltb_ge in E. exists 1%nat. split; [done|left; lia]. }
  destruct Hb as (b & -> & Hb).
  rewrite merge_ordered; [|done|].
  - simpl. change (MetricPoint _ _ _ _ _ _) with (cpuOnly ev). rewrite window_snoc.
    apply window_extend; [done| |done|done]. change (map _ _) with (mp_SampledAt <$> contents h).
    by rewrite fmap_last, Hq.
  - simpl. apply ordered_app. split_and!; [by apply window_ordered|repeat constructor|].
    intros x y Hx Hy. apply list_elem_of_singleton in Hy as ->. apply window_le in Hx. simpl. lia.
Qed.

(** ** Properties *)

Definition emptyHistory : nodeMetricsHistory := History [] 0.

Definition recorded (events : list NodeMetricPoint) : nodeMetricsHistory :=
  foldl (fun h p => appendPoint p h) emptyHistory events.

Lemma recorded_spec events :
  ring_inv (recorded events) /\ contents (recorded events) = foldl spec_append [] events /\
  ordered (contents (recorded events)).
Proof.
  unfold recorded. induction events as [|p events IH] using rev_ind.
  { split_and!; [|done|constructor]. pose proof samples_pos. split; simpl; lia. }
  rewrite !foldl_app. destruct IH as (H1 & H2 & H3).
  destruct (appendPoint_spec _ p H1) as [H4 H5]. simpl. rewrite H5, H2.
  split_and!; [done|done|]. rewrite <- H2. by apply spec_append_ordered.
Qed.

(** The ring of samples implements a bounded list in order of time: after
    any sequence of samples, late and repeated ones included, it holds what
    appending them to that list gives, without duplicates and at most 3600, and
    a query returns from it exactly the retained samples after the cursor. *)
Theorem metrics_ring events now cursor :
  let h := recorded events in
  contents h = foldl spec_append [] events /\ ordered (contents h) /\
  (length (contents h) <= maxNodeMetricSamples)%nat /\
  latestAt h = default time_zero (mp_SampledAt <$> last (contents h)) /\
  forall p, p ∈ after now cursor h <->
    p ∈ contents h /\ cursor < mp_SampledAt p /\ now - nodeMetricRetention <= mp_SampledAt p <= now.
Proof.
  intros h. destruct (recorded_spec events) as (H1 & H2 & H3).
  split_and!; try done.
  - rewrite contents_length. apply H1.
  - unfold latestAt. fold h. destruct (mh_points h) as [|x l] eqn:E.
    + assert (Hnil : contents h = []) by (apply nil_length_inv; by rewrite contents_length, E).
      by rewrite Hnil.
    + rewrite contents_last by (rewrite E; simpl; lia). by rewrite E.
  - intros p. unfold after. change (map _ _) with (contents h).
    rewrite list_elem_of_In, filter_In, <- list_elem_of_In. unfold retained. split.
    + intros [Hp Hr]. split; [done|]. bool_to_prop. lia.
    + intros (Hp & Hc & Hlo & Hhi). split; [done|].
      rewrite (proj2 (Z.ltb_ge (mp_SampledAt p) _)), (proj2 (Z.ltb_ge now _)), (proj2 (Z.ltb_lt cursor _)) by lia.
      done.
Qed.

(** A client that extends the daemon's CPU trend with a pushed sample has
    the trend the daemon computes itself once it has recorded that sample, for
    any history and any later sample. *)
Theorem trend_incremental events ev :
  let h := recorded events in
  contents h <> [] -> mp_SampledAt ev <> 0 -> latestAt h < mp_SampledAt ev ->
  mergeCPUTrend (recentCPU (latestAt h) h) [] (mp_SampledAt ev) (mp_CPUUsagePercent ev) =
  recentCPU (mp_SampledAt ev) (appendPoint ev h).
Proof.
  intros h Hne Hz Hlt. destruct (recorded_spec events) as (H1 & _ & H3). fold h in H1, H3.
  apply extend_spec; done.
Qed.

Lemma trend_incremental_witness :
  let a := MetricPoint 5 (Some 1) None None None None in
  let b := MetricPoint 9 (Some 2) None None None None in
  mergeCPUTrend (recentCPU 5 (recorded [a])) [] 9 (Some 2) = recentCPU 9 (recorded [a; b]).
Proof.
  intros a b. apply (trend_incremental [a] b); vm_compute; congruence.
Defined.
