(* ===== verification/Bootstrap.v ===== *)
(** * Recorded bootstrap steps

    [internal/codelima/bootstrap_steps.go] and the part of the node start in
    [service.go] that runs the steps.  Every step's attempt is saved as running
    before its command executes in the guest and its outcome after, so that a
    start that failed or was cut off can resume at the step it stopped at.

    A run yields its effects as a list of events, the saved states and the
    executed commands in order: a crash leaves a prefix of it.  The outcome of
    the clock, the context, the guest commands, the saves and the phase records
    is an argument.  The node's own metadata, its event log and the locks are
    not modelled. *)

From S2P Require Import Prelude GoText.
Local Open Scope Z_scope.

(** ** Data *)

Inductive BootstrapStepState :=
| Pending | Running | Succeeded | Failed | Canceled | Interrupted | Unrecorded.

#[export] Instance BootstrapStepState_eq_dec : EqDecision BootstrapStepState.
Proof. solve_decision. Defined.

Record BootstrapStep := Step {
  st_Kind : string;
  st_SourceKind : string;
  st_SourceID : string;
  st_SourceName : string;
  st_Command : string;
  st_State : BootstrapStepState;
  st_Attempts : Z;
  st_AttemptID : string;
  st_ExecutionNodeID : string;
  st_StartedAt : option time;
  st_FinishedAt : option time;
  st_DurationMillis : option Z;
  st_ExitCode : option Z;
  st_Error : string;
}.

(** The fields of [BootstrapState] that the steps depend on. *)
Record BootstrapState := Bootstrap {
  bo_AgentProfileName : string;
  bo_InstallCommands : list string;
  bo_BootstrapCommands : list string;
  bo_ValidationCommand : string;
  bo_Completed : bool;
  bo_CompletedAt : option time;
  bo_Steps : list BootstrapStep;
}.

Definition withSteps (steps : list BootstrapStep) (b : BootstrapState) : BootstrapState :=
  Bootstrap (bo_AgentProfileName b) (bo_InstallCommands b) (bo_BootstrapCommands b)
    (bo_ValidationCommand b) (bo_Completed b) (bo_CompletedAt b) steps.

Definition withState (state : BootstrapStepState) (s : BootstrapStep) : BootstrapStep :=
  Step (st_Kind s) (st_SourceKind s) (st_SourceID s) (st_SourceName s) (st_Command s) state
    (st_Attempts s) (st_AttemptID s) (st_ExecutionNodeID s) (st_StartedAt s) (st_FinishedAt s)
    (st_DurationMillis s) (st_ExitCode s) (st_Error s).

(** ** Building and repairing the steps *)

Definition appendBootstrapSteps (steps : list BootstrapStep) (commands : list string)
    (kind sourceKind sourceID sourceName : string) : list BootstrapStep :=
  steps ++ map (fun c => Step kind sourceKind sourceID sourceName c Pending 0 "" "" None None None None "")
             (List.filter (fun c => negb (blank c)) commands).

(** The environments and the configuration, of which only these fields matter. *)
Record EnvironmentConfig := Environment {
  en_ID : string;
  en_Slug : string;
  en_Deleted : bool;
  en_BootstrapCommands : list string;
}.

Record Configuration := Config {
  co_ID : string;
  co_Slug : string;
  co_Environments : list string;
  co_BootstrapCommands : list string;
}.

Fixpoint environmentSteps (lookup : string -> result EnvironmentConfig) (slugs : list string)
    (steps : list BootstrapStep) : result (list BootstrapStep) :=
  match slugs with
  | [] => Ok steps
  | slug :: slugs =>
      env ← lookup slug;
      if en_Deleted env then Err (notFound "environment not found")
      else environmentSteps lookup slugs
             (appendBootstrapSteps steps (en_BootstrapCommands env) "bootstrap" "environment"
                (en_ID env) (en_Slug env))
  end.

Definition configurationBootstrapSteps (c : Configuration) (lookup : string -> result EnvironmentConfig)
    : result (list BootstrapStep) :=
  steps ← environmentSteps lookup (co_Environments c) [];
  Ok (appendBootstrapSteps steps (co_BootstrapCommands c) "bootstrap" "template" (co_ID c) (co_Slug c)).

(** The steps that the stored commands call for. *)
Definition fallbackSteps (b : BootstrapState) : list BootstrapStep :=
  let name := bo_AgentProfileName b in
  let steps := appendBootstrapSteps [] (bo_InstallCommands b) "bootstrap" "agent" "" name in
  let steps := appendBootstrapSteps steps (bo_BootstrapCommands b) "bootstrap" "frozen" ""
                 "source unrecorded" in
  appendBootstrapSteps steps [bo_ValidationCommand b] "validation" "agent" "" name.

Definition sameStep (s t : BootstrapStep) : bool :=
  (st_Kind s =? st_Kind t)%string && (st_Command s =? st_Command t)%string.

Fixpoint matchingSteps (fallback steps : list BootstrapStep) : bool :=
  match fallback, steps with
  | [], [] => true
  | s :: fallback, t :: steps => sameStep s t && matchingSteps fallback steps
  | _, _ => false
  end.

Definition ensureSteps (b : BootstrapState) : BootstrapState :=
  let fallback := fallbackSteps b in
  if matchingSteps fallback (bo_Steps b) then b
  else withSteps (if bo_Completed b then map (withState Unrecorded) fallback else fallback) b.

Definition interruptStep (s : BootstrapStep) : BootstrapStep :=
  if decide (st_State s = Running)
  then Step (st_Kind s) (st_SourceKind s) (st_SourceID s) (st_SourceName s) (st_Command s) Interrupted
         (st_Attempts s) (st_AttemptID s) (st_ExecutionNodeID s) (st_StartedAt s) None None None
         "execution ended before completion was recorded"
  else s.

Definition interruptRunningSteps (b : BootstrapState) : BootstrapState :=
  withSteps (map interruptStep (bo_Steps b)) b.

Definition resumable (s : BootstrapStep) : bool :=
  bool_decide (st_State s = Failed) || bool_decide (st_State s = Interrupted).

Fixpoint firstResumable (steps : list BootstrapStep) : option nat :=
  match steps with
  | [] => None
  | s :: steps => if resumable s then Some O else S <$> firstResumable steps
  end.

Definition prepareSteps (resume : bool) (b : BootstrapState) : BootstrapState * result nat :=
  let b := interruptRunningSteps (ensureSteps b) in
  if negb resume then (b, Ok O)
  else match firstResumable (bo_Steps b) with
  | None =>
      (b, Err (preconditionFailed "no recorded failed step; start the node to rerun its incomplete bootstrap"))
  | Some start =>
      if bo_Completed b &&
         negb (match bo_Steps b !! start with Some s => (st_Kind s =? "validation")%string | None => false end)
      then (b, Err (metadataCorruption "completed bootstrap contains a failed bootstrap step"))
      else if existsb (fun s => (st_Kind s =? "bootstrap")%string &&
                                negb (bool_decide (st_State s = Succeeded)) && negb (bo_Completed b))
                (take start (bo_Steps b))
      then (b, Err (preconditionFailed
              "earlier bootstrap steps lack success records; start the node to rerun the full bootstrap"))
      else (b, Ok start)
  end.

Definition resetStep (completed : bool) (s : BootstrapStep) : BootstrapStep :=
  if completed && (st_Kind s =? "bootstrap")%string then s
  else Step (st_Kind s) (st_SourceKind s) (st_SourceID s) (st_SourceName s) (st_Command s) Pending
         (st_Attempts s) "" "" None None None None "".

Definition resetSteps (start : nat) (b : BootstrapState) : BootstrapState :=
  withSteps (imap (fun i s => if (start <=? i)%nat then resetStep (bo_Completed b) s else s) (bo_Steps b)) b.

(** ** Running a step *)

(** A save writes the state or not, and may report an error in either case: the
    event that follows the state can fail on its own. *)
Inductive saveResult := SaveOk | SaveLost (e : go_error) | SaveKept (e : go_error).

(** What the environment decides about one step: the phase record before it, the
    context, the times, the saves, the command's error with its exit code, and
    whether the rollback is saved. *)
Record stepRun := StepRun {
  sr_phase : option go_error;
  sr_ctx : option go_error;
  sr_started : time;
  sr_attemptID : string;
  sr_save1 : saveResult;
  sr_err : option (go_error * option Z);
  sr_finished : time;
  sr_canceled : bool;
  sr_save2 : saveResult;
  sr_rollback : bool;
}.

Inductive bootEvent := Saved (b : BootstrapState) | Executed (index : nat) (command : string).

Definition saveEvents (r : saveResult) (b : BootstrapState) : list bootEvent :=
  match r with SaveLost _ => [] | _ => [Saved b] end.

Definition saveErrors (r : saveResult) : list go_error :=
  match r with SaveOk => [] | SaveLost e | SaveKept e => [e] end.

Definition startedStep (node : string) (x : stepRun) (s : BootstrapStep) : BootstrapStep :=
  Step (st_Kind s) (st_SourceKind s) (st_SourceID s) (st_SourceName s) (st_Command s) Running
    (u64 (st_Attempts s + 1)) (sr_attemptID x) node (Some (sr_started x)) (st_FinishedAt s)
    (st_DurationMillis s) (st_ExitCode s) (st_Error s).

Definition finishedStep (x : stepRun) (s : BootstrapStep) : BootstrapStep :=
  let duration := Z.max 0 (Z.quot (time_sub (sr_finished x) (sr_started x)) millisecond) in
  let state := match sr_err x with
               | None => Succeeded
               | Some _ => if sr_canceled x then Canceled else Failed
               end in
  let code := match sr_err x with
              | None => Some 0
              | Some (_, Some c) => if 0 <=? c then Some c else st_ExitCode s
              | Some (_, None) => st_ExitCode s
              end in
  let text := match sr_err x with
              | None => st_Error s
              | Some (e, _) =>
                  if 4096 <? slen (errorText e)
                  then ToValidUTF8 (sprefix (errorText e) 4096) replacementRune
                  else errorText e
              end in
  Step (st_Kind s) (st_SourceKind s) (st_SourceID s) (st_SourceName s) (st_Command s) state
    (st_Attempts s) (st_AttemptID s) (st_ExecutionNodeID s) (st_StartedAt s) (Some (sr_finished x))
    (Some duration) code text.

Definition setStep (index : nat) (s : BootstrapStep) (b : BootstrapState) : BootstrapState :=
  withSteps (<[index := s]> (bo_Steps b)) b.

(** [runRecordedBootstrapStep]: the state, the events and the joined errors. *)
Definition runRecordedBootstrapStep (node : string) (x : stepRun) (index : nat) (s : BootstrapStep)
    (b : BootstrapState) : BootstrapState * list bootEvent * list go_error :=
  match sr_ctx x with
  | Some e => (b, [], [e])
  | None =>
      let s := startedStep node x s in
      let b := setStep index s b in
      match saveErrors (sr_save1 x) with
      | e :: errs => (b, saveEvents (sr_save1 x) b, e :: errs)
      | [] =>
          let s' := finishedStep x s in
          let b' := setStep index s' b in
          (b', saveEvents (sr_save1 x) b ++ [Executed index (st_Command s)] ++ saveEvents (sr_save2 x) b',
           match sr_err x with Some (e, _) => [e] | None => [] end ++ saveErrors (sr_save2 x))
      end
  end.

(** ** Running the steps of a start *)

(** The save of the rollback of a failed start, by the failed step's branch or by
    the deferred one after a phase record that failed; it may be lost. *)
Definition rollbackEvents (saved : bool) (b : BootstrapState) : list bootEvent :=
  if saved then [Saved b] else [].

(** The loops over the steps of one kind from an index on. *)
Fixpoint runSteps (node kind : string) (runs : nat -> stepRun) (indices : list nat) (b : BootstrapState)
    : BootstrapState * list bootEvent * list go_error :=
  match indices with
  | [] => (b, [], [])
  | index :: indices =>
      match bo_Steps b !! index with
      | None => runSteps node kind runs indices b
      | Some s =>
          if negb (st_Kind s =? kind)%string then runSteps node kind runs indices b
          else
            let x := runs index in
            match (if (kind =? "bootstrap")%string then sr_phase x else None) with
            | Some e => (b, rollbackEvents (sr_rollback x) b, [e])
            | None =>
                let '(b, events, errs) := runRecordedBootstrapStep node x index s b in
                match errs with
                | [] =>
                    let '(b, more, errs) := runSteps node kind runs indices b in
                    (b, events ++ more, errs)
                | _ => (b, events ++ rollbackEvents (sr_rollback x) b, errs)
                end
            end
      end
  end.

(** The bootstrap of a start, from the reset of the steps to the save of the
    completed state; [phases] are the other phase records, with whether the
    rollback that a failed one defers is saved. *)
Definition startBootstrap (node : string) (firstStep : nat) (phases : string -> option (go_error * bool))
    (runs : nat -> stepRun) (completedAt : time) (save : saveResult) (b : BootstrapState)
    : BootstrapState * list bootEvent * list go_error :=
  let b := resetSteps firstStep b in
  let bootstrapRan := negb (bo_Completed b) in
  let indices := seq firstStep (length (bo_Steps b) - firstStep) in
  match phases "bootstrap"%string with
  | Some (e, saved) => (b, rollbackEvents saved b, [e])
  | None =>
      let '(b, events1, errs) :=
        if bootstrapRan then runSteps node "bootstrap" runs indices b else (b, [], []) in
      match errs with
      | _ :: _ => (b, events1, errs)
      | [] =>
          match phases "validation"%string with
          | Some (e, saved) => (b, events1 ++ rollbackEvents saved b, [e])
          | None =>
              let '(b, events2, errs) := runSteps node "validation" runs indices b in
              match errs with
              | _ :: _ => (b, events1 ++ events2, errs)
              | [] =>
                  match phases "ready"%string with
                  | Some (e, saved) => (b, events1 ++ events2 ++ rollbackEvents saved b, [e])
                  | None =>
                      let b := if bootstrapRan
                               then Bootstrap (bo_AgentProfileName b) (bo_InstallCommands b)
                                      (bo_BootstrapCommands b) (bo_ValidationCommand b) true
                                      (Some completedAt) (bo_Steps b)
                               else b in
                      (b, events1 ++ events2 ++ saveEvents save b, saveErrors save)
                  end
              end
          end
      end
  end.

(** ** Matching steps *)

Definition stepKey (s : BootstrapStep) := (st_Kind s, st_Command s).

(** The steps are those the stored commands call for. *)
Definition matched (b : BootstrapState) : Prop :=
  map stepKey (bo_Steps b) = map stepKey (fallbackSteps b).

Lemma matchingSteps_keys f l : matchingSteps f l = true <-> map stepKey l = map stepKey f.
Proof.
  revert l. induction f as [|s f IH]; intros [|t l]; simpl; try (by split).
  rewrite andb_true_iff, IH. unfold sameStep. rewrite andb_true_iff, !String.eqb_eq. split.
  - intros [[H1 H2] H3]. f_equal; [|done]. unfold stepKey. by rewrite H1, H2.
  - intros H. injection H as Hk Hc Hl. by rewrite Hk, Hc.
Qed.

Lemma matched_withSteps steps b :
  matched b -> map stepKey steps = map stepKey (bo_Steps b) -> matched (withSteps steps b).
Proof. unfold matched. intros Hm Hk. simpl. by rewrite Hk. Qed.

Lemma ensure_matched b : matched (ensureSteps b).
Proof.
  unfold ensureSteps. cbv zeta. destruct (matchingSteps _ _) eqn:E; [by apply matchingSteps_keys|].
  unfold matched. simpl. case_match; [|done]. rewrite map_map. by apply map_ext.
Qed.

Lemma ensure_id b : matched b -> ensureSteps b = b.
Proof. intros Hm. unfold ensureSteps. cbv zeta. by rewrite (proj2 (matchingSteps_keys _ _) Hm). Qed.

Lemma interrupt_keys l : map stepKey (map interruptStep l) = map stepKey l.
Proof. rewrite map_map. apply map_ext. intros s. unfold interruptStep. by case_decide. Qed.

Lemma interrupt_idem s : interruptStep (interruptStep s) = interruptStep s.
Proof.
  unfold interruptStep at 2 3. destruct (decide (st_State s = Running)) as [H|H].
  - unfold interruptStep. by rewrite decide_False.
  - unfold interruptStep. by rewrite decide_False.
Qed.

Lemma interrupt_state s :
  st_State (interruptStep s) = if decide (st_State s = Running) then Interrupted else st_State s.
Proof. unfold interruptStep. by case_decide. Qed.

Lemma prepared_fixed b :
  let b' := interruptRunningSteps (ensureSteps b) in interruptRunningSteps (ensureSteps b') = b'.
Proof.
  intros b'. assert (Hm : matched b').
  { apply matched_withSteps; [apply ensure_matched|apply interrupt_keys]. }
  rewrite ensure_id by done. unfold b', interruptRunningSteps, withSteps. simpl. f_equal.
  rewrite map_map. apply map_ext. apply interrupt_idem.
Qed.

Lemma firstResumable_spec l k :
  firstResumable l = Some k ->
  (exists s, l !! k = Some s /\ resumable s = true) /\
  forall i s, (i < k)%nat -> l !! i = Some s -> resumable s = false.
Proof.
  revert k. induction l as [|s l IH]; intros k; simpl; [done|].
  destruct (resumable s) eqn:E.
  - intros [= <-]. split; [by exists s|]. intros i t Hi. lia.
  - destruct (firstResumable l) as [k'|] eqn:Ek; [|done]. intros [= <-].
    destruct (IH k' eq_refl) as [H1 H2]. split; [done|]. intros i t Hi Ht.
    destruct i as [|i]; simpl in Ht; [congruence|]. apply (H2 i); [lia|done].
Qed.

(** ** The point a retry resumes at *)

Definition unfinished (s : BootstrapStep) : bool :=
  bool_decide (st_State s = Failed) || bool_decide (st_State s = Interrupted) ||
  bool_decide (st_State s = Running).

Lemma resumable_interrupt s : resumable (interruptStep s) = unfinished s.
Proof.
  unfold resumable, unfinished. rewrite interrupt_state. by destruct (st_State s).
Qed.

Lemma prepare_result b j :
  (prepareSteps true b).2 = Ok j ->
  firstResumable (bo_Steps (interruptRunningSteps (ensureSteps b))) = Some j /\
  existsb (fun s => (st_Kind s =? "bootstrap")%string && negb (bool_decide (st_State s = Succeeded)) &&
                    negb (bo_Completed (interruptRunningSteps (ensureSteps b)))) (take j (bo_Steps (interruptRunningSteps (ensureSteps b)))) = false /\
  (bo_Completed b = true -> exists s, bo_Steps (interruptRunningSteps (ensureSteps b)) !! j = Some s /\
     st_Kind s = "validation"%string).
Proof.
  assert (Hc : bo_Completed (interruptRunningSteps (ensureSteps b)) = bo_Completed b).
  { unfold ensureSteps. cbv zeta. by case_match. }
  unfold prepareSteps. cbv zeta. revert Hc. generalize (interruptRunningSteps (ensureSteps b)). intros b1 Hc.
  simpl negb. destruct (firstResumable _) as [k|]; [|done].
  rewrite Hc. destruct (bo_Completed b && _) eqn:E1; [done|].
  destruct (existsb _ _) eqn:E2; [done|]. intros [= <-]. split_and!; [done|done|].
  intros Hcb. rewrite Hcb, andb_true_l in E1. apply negb_false_iff in E1.
  revert E1. destruct (bo_Steps b1 !! k) as [s|]; [|done].
  intros E1. exists s. split; [done|]. by apply String.eqb_eq.
Qed.

(** A state in which only step [k] may be unfinished and later ones are pending. *)
Record ok_at (d : BootstrapState) (k : nat) : Prop := {
  oa_matched : matched d;
  oa_others : forall i s, bo_Steps d !! i = Some s -> i <> k -> unfinished s = false;
  oa_later : forall i s, bo_Steps d !! i = Some s -> (k < i)%nat -> st_State s = Pending;
}.

Lemma prepare_point d k j :
  ok_at d k -> (prepareSteps true d).2 = Ok j ->
  j = k /\ (forall i s, (j <= i)%nat -> bo_Steps d !! i = Some s -> st_State s <> Succeeded) /\
  (forall i s, (i < j)%nat -> bo_Steps d !! i = Some s -> st_Kind s = "bootstrap"%string ->
     bo_Completed d = false -> st_State s = Succeeded).
Proof.
  intros [Hm Ho Hl] Hj. apply prepare_result in Hj as (Hf & He & _).
  rewrite ensure_id in Hf, He by done. simpl in Hf, He.
  apply firstResumable_spec in Hf as [(s & Hs & Hr) Hbefore].
  rewrite list_lookup_fmap in Hs. apply fmap_Some in Hs as (s0 & Hs0 & ->).
  rewrite resumable_interrupt in Hr.
  assert (Hjk : j = k).
  { destruct (decide (j = k)) as [?|Hne]; [done|]. by rewrite (Ho j s0 Hs0 Hne) in Hr. }
  split; [done|]. subst j. split.
  - intros i t Hi Ht. destruct (decide (i = k)) as [->|Hne].
    + replace t with s0 by congruence. intros Hst. unfold unfinished in Hr. by rewrite Hst in Hr.
    + rewrite (Hl i t Ht) by lia. done.
  - intros i t Hi Ht Hk Hc. destruct (decide (st_State t = Succeeded)) as [?|Hn]; [done|]. exfalso.
    apply not_true_iff_false in He. apply He. apply existsb_exists. exists (interruptStep t). split.
    + apply list_elem_of_In, (list_elem_of_lookup_2 _ i). rewrite lookup_take_lt by done.
      by rewrite list_lookup_fmap, Ht.
    + assert (Hki : st_Kind (interruptStep t) = st_Kind t) by (unfold interruptStep; by case_decide).
      rewrite Hki, Hk, Hc. simpl. rewrite andb_true_r. apply negb_true_iff, bool_decide_eq_false.
      rewrite interrupt_state. by case_decide.
Qed.

(** ** The events of a run *)

(** The saved state and the commands executed after some events. *)
Definition runEvent (st : BootstrapState * list nat) (e : bootEvent) : BootstrapState * list nat :=
  match e with
  | Saved b => (b, st.2)
  | Executed index _ => (st.1, index :: st.2)
  end.

Definition consistent (st : BootstrapState * list nat) : Prop :=
  exists k, ok_at st.1 k /\ forall i, i ∈ st.2 -> (i <= k)%nat.

(** The events of the step at [k]. *)
Definition goodBlock (k : nat) (events : list bootEvent) : Prop :=
  (forall d, Saved d ∈ events -> ok_at d k) /\
  (forall i c, Executed i c ∈ events -> i = k) /\
  match events with Executed _ _ :: _ => False | _ => True end.

(** Good blocks of increasing steps from [k] below [n]. *)
Inductive goodTrace (n : nat) : nat -> list bootEvent -> Prop :=
| GoodNil k : (k <= n)%nat -> goodTrace n k []
| GoodBlock k k' events rest :
    (k <= k' < n)%nat -> goodBlock k' events -> goodTrace n (S k') rest ->
    goodTrace n k (events ++ rest).

Lemma goodTrace_app a b c e1 e2 : goodTrace b a e1 -> goodTrace c b e2 -> goodTrace c a (e1 ++ e2).
Proof.
  intros H1 H2. assert (Hbc : (b <= c)%nat) by (destruct H2; lia).
  induction H1 as [k Hk|k k' events rest Hk Hb _ IH]; simpl.
  - destruct H2 as [k2 Hk2|k2 k3 ev r Hk2 Hb2 Hr2]; [constructor; lia|].
    apply (GoodBlock c k k3); [lia|done|done].
  - rewrite <- app_assoc. apply (GoodBlock c k k'); [lia|done|done].
Qed.

Lemma block_consistent k events st :
  goodBlock k events -> (forall i, i ∈ st.2 -> (i <= k)%nat) ->
  (forall i, i ∈ (foldl runEvent st events).2 -> (i <= k)%nat) /\
  (events <> [] -> ok_at (foldl runEvent st events).1 k).
Proof.
  intros (Hs & He & Hh) Hx. induction events as [|e events IH] using rev_ind; [done|].
  rewrite foldl_app. simpl.
  assert (IH' : (forall i, i ∈ (foldl runEvent st events).2 -> (i <= k)%nat) /\
                (events <> [] -> ok_at (foldl runEvent st events).1 k)).
  { apply IH.
    - intros d Hd. apply Hs. apply elem_of_app. by left.
    - intros i c Hi. apply (He i c). apply elem_of_app. by left.
    - by destruct events. }
  destruct IH' as [IH1 IH2]. destruct e as [d|i c]; simpl.
  - split; [done|]. intros _. apply Hs. apply elem_of_app. right. by apply list_elem_of_singleton.
  - assert (Hik : i = k).
    { apply (He i c). apply elem_of_app. right. by apply list_elem_of_singleton. }
    split.
    + intros n Hn. apply elem_of_cons in Hn as [->|Hn]; [lia|auto].
    + intros _. apply IH2. intros ->. done.
Qed.

Lemma block_prefix k e1 e2 : goodBlock k (e1 ++ e2) -> goodBlock k e1.
Proof.
  intros (Hs & He & Hh). split_and!.
  - intros d Hd. apply Hs. apply elem_of_app. by left.
  - intros i c Hi. apply (He i c). apply elem_of_app. by left.
  - destruct e1 as [|e e1]; [done|]. by destruct e.
Qed.

(** Every prefix of a good trace that saved something leaves a consistent
    state. *)
Lemma trace_consistent n k events st :
  goodTrace n k events -> (forall i, i ∈ st.2 -> (i <= k)%nat) ->
  forall pre post, events = pre ++ post -> pre <> [] \/ consistent st ->
    consistent (foldl runEvent st pre).
Proof.
  intros Ht. revert st. induction Ht as [k Hkn|k k' events rest Hk Hb Ht IH]; intros st Hx pre post E Hne.
  { symmetry in E. apply app_nil in E as [-> _]. by destruct Hne. }
  assert (Hx' : forall i, i ∈ st.2 -> (i <= k')%nat) by (intros i Hi; specialize (Hx i Hi); lia).
  destruct (block_consistent k' events st Hb Hx') as [H1 H2].
  apply app_eq_inv in E as [(l & -> & E)|(l & -> & E)].
  - destruct (block_consistent k' pre st (block_prefix _ _ _ Hb) Hx') as [H3 H4].
    destruct pre as [|e pre]; [by destruct Hne|]. exists k'. split; [by apply H4|done].
  - rewrite foldl_app. eapply IH; [|exact E|].
    + intros i Hi. specialize (H1 i Hi). lia.
    + destruct events as [|e events]; [|right; exists k'; split; [by apply H2|done]].
      simpl in *. by destruct Hne; [left|right].
Qed.

(** ** Running *)

(** The state in which the loop reaches step [k]. *)
Record entry (b : BootstrapState) (k : nat) : Prop := {
  en_matched : matched b;
  en_before : forall i s, bo_Steps b !! i = Some s -> (i < k)%nat -> unfinished s = false;
  en_pending : forall i s, bo_Steps b !! i = Some s -> (k <= i)%nat -> st_State s = Pending;
}.

Lemma pending_finished s : st_State s = Pending -> unfinished s = false.
Proof. intros H. unfold unfinished. by rewrite H. Qed.

Lemma entry_ok b k : entry b k -> ok_at b k.
Proof.
  intros [Hm Hb Hp]. split; [done| |].
  - intros i s Hs Hne. destruct (decide (i < k)%nat) as [Hi|Hi]; [by eapply Hb|].
    eapply pending_finished, Hp; [done|lia].
  - intros i s Hs Hi. eapply Hp; [done|lia].
Qed.

Lemma setStep_matched k s s' b :
  matched b -> bo_Steps b !! k = Some s -> stepKey s' = stepKey s -> matched (setStep k s' b).
Proof.
  intros Hm Hs Hk. apply matched_withSteps; [done|]. apply list_eq. intros i.
  change (map stepKey) with (fmap (M := list) stepKey). rewrite !list_lookup_fmap.
  destruct (decide (i = k)) as [->|Hne].
  - rewrite Hs, list_lookup_insert_eq by by eapply lookup_lt_Some. simpl. by rewrite Hk.
  - by rewrite list_lookup_insert_ne by done.
Qed.

Lemma setStep_ok k s s' b :
  entry b k -> bo_Steps b !! k = Some s -> stepKey s' = stepKey s ->
  ok_at (setStep k s' b) k /\ (unfinished s' = false -> entry (setStep k s' b) (S k)).
Proof.
  intros He Hs Hk. pose proof (setStep_matched k s s' b (en_matched _ _ He) Hs Hk) as Hm.
  assert (Hne : forall i, i <> k -> bo_Steps (setStep k s' b) !! i = bo_Steps b !! i)
    by (intros i Hi; simpl; by rewrite list_lookup_insert_ne).
  assert (Hkk : bo_Steps (setStep k s' b) !! k = Some s')
    by (simpl; apply list_lookup_insert_eq; by eapply lookup_lt_Some).
  destruct (entry_ok b k He) as [_ Ho Hl]. split.
  - split; [done| |]; intros i t Ht Hi; rewrite Hne in Ht by lia; eauto.
  - intros Hu. split; [done| |]; intros i t Ht Hi.
    + destruct (decide (i = k)) as [->|Hik]; [congruence|]. rewrite Hne in Ht by done. eauto.
    + rewrite Hne in Ht by lia. eapply Hl; [done|lia].
Qed.

(** The indices executed. *)
Definition executed (events : list bootEvent) : list nat :=
  omap (fun e => match e with Executed i _ => Some i | Saved _ => None end) events.

Lemma executed_app e1 e2 : executed (e1 ++ e2) = executed e1 ++ executed e2.
Proof. apply omap_app. Qed.

Lemma executed_cons e l : executed (e :: l) = executed [e] ++ executed l.
Proof. apply (executed_app [e] l). Qed.

Lemma executed_save r b : executed (saveEvents r b) = [].
Proof. by destruct r. Qed.

Lemma setStep_twice k s s' b : setStep k s' (setStep k s b) = setStep k s' b.
Proof. unfold setStep, withSteps. simpl. by rewrite list_insert_insert_eq. Qed.

(** The rollback's save is a block of its own. *)
Lemma rollback_trace n k b saved : entry b k -> (k < n)%nat -> goodTrace n k (rollbackEvents saved b).
Proof.
  intros He Hk. destruct saved; [|constructor; lia].
  apply (GoodBlock n k k [Saved b] []); [lia| |constructor; lia]. split_and!; [|set_solver|done].
  intros d Hd. assert (d = b) as -> by set_solver. by apply entry_ok.
Qed.

(** What a recorded step does to the state. *)
Definition stepDone (b b' : BootstrapState) (k : nat) (s : BootstrapStep) : Prop :=
  exists s', b' = setStep k s' b /\ st_State s' = Succeeded /\ stepKey s' = stepKey s.

Lemma goodBlock_intro k (l : list bootEvent) :
  (forall d, Saved d ∈ l -> ok_at d k) -> (forall i c, Executed i c ∈ l -> i = k) ->
  (forall i c r, l <> Executed i c :: r) -> goodBlock k l.
Proof.
  intros H1 H2 H3. split_and!; [done|done|]. destruct l as [|[d|i c] l]; try done. by eapply H3.
Qed.

Lemma saved_saveEvents d r b : Saved d ∈ saveEvents r b -> d = b.
Proof. destruct r; simpl; intros H; set_solver. Qed.

Lemma executed_saveEvents i c r b : Executed i c ∈ saveEvents r b -> False.
Proof. destruct r; simpl; intros H; set_solver. Qed.

Lemma run_step node x k s b b' events errs rollback :
  entry b k -> bo_Steps b !! k = Some s ->
  runRecordedBootstrapStep node x k s b = (b', events, errs) ->
  goodBlock k (events ++ (if rollback : bool then [Saved b'] else [])) /\
  (errs = [] -> stepDone b b' k s /\ executed events = [k]).
Proof.
  intros He Hs E. unfold runRecordedBootstrapStep in E.
  assert (Hroll : forall d, Saved d ∈ (if rollback then [Saved b'] else []) -> d = b')
    by (intros d Hd; destruct rollback; set_solver).
  assert (Hrollx : forall i c, Executed i c ∈ (if rollback then [Saved b'] else []) -> False)
    by (intros i c Hd; destruct rollback; set_solver).
  destruct (sr_ctx x) as [e|].
  { injection E as <- <- <-. split; [|done]. apply goodBlock_intro; simpl.
    - intros d Hd. apply Hroll in Hd as ->. by apply entry_ok.
    - intros i c Hd. by apply Hrollx in Hd.
    - intros i c r. by destruct rollback. }
  destruct (setStep_ok k s (startedStep node x s) b He Hs eq_refl) as [Hok1 _].
  destruct (setStep_ok k s (finishedStep x (startedStep node x s)) b He Hs eq_refl) as [Hok2 _].
  rewrite setStep_twice in E. destruct (saveErrors (sr_save1 x)) as [|e errs1] eqn:Es1.
  - injection E as <- <- <-. split.
    + revert Es1. destruct (sr_save1 x); intros Es1; [|done|done]. apply goodBlock_intro; simpl.
      * intros d Hd. rewrite !elem_of_cons, !elem_of_app in Hd.
        destruct Hd as [[= ->]|[Hd|[Hd|Hd]]]; [done|done| |].
        -- by apply saved_saveEvents in Hd as ->.
        -- by apply Hroll in Hd as ->.
      * intros i c Hd. rewrite !elem_of_cons, !elem_of_app in Hd.
        destruct Hd as [?|[[= -> _]|[Hd|Hd]]]; [done|done| |].
        -- by apply executed_saveEvents in Hd.
        -- by apply Hrollx in Hd.
      * done.
    + intros Hn. apply app_nil in Hn as [Hn _]. destruct (sr_err x) as [[e c]|] eqn:Ex; [done|]. split.
      * eexists. split; [done|]. split; [|done]. unfold finishedStep. simpl. by rewrite Ex.
      * rewrite executed_app, executed_save. cbn [app]. by rewrite executed_cons, executed_save.
  - injection E as <- <- <-. split; [|done]. apply goodBlock_intro.
    + intros d Hd. apply elem_of_app in Hd as [Hd|Hd].
      * by apply saved_saveEvents in Hd as ->.
      * by apply Hroll in Hd as ->.
    + intros i c Hd. apply elem_of_app in Hd as [Hd|Hd].
      * by apply executed_saveEvents in Hd.
      * by apply Hrollx in Hd.
    + intros i c r. destruct (sr_save1 x), rollback; done.
Qed.

(** What a completed block of steps leaves. *)
Record blockDone (b b' : BootstrapState) (k n : nat) : Prop := {
  bd_entry : entry b' (k + n);
  bd_succeeded : forall i s, bo_Steps b' !! i = Some s -> (k <= i < k + n)%nat -> st_State s = Succeeded;
  bd_others : forall i, ~ (k <= i < k + n)%nat -> bo_Steps b' !! i = bo_Steps b !! i;
  bd_kinds : map st_Kind (bo_Steps b') = map st_Kind (bo_Steps b);
  bd_completed : bo_Completed b' = bo_Completed b;
}.

Lemma keys_kinds l k : map stepKey l = map stepKey k -> map st_Kind l = map st_Kind k.
Proof.
  intros H. apply (f_equal (map fst)) in H. rewrite !map_map in H. done.
Qed.

Lemma setStep_kinds k s s' b :
  bo_Steps b !! k = Some s -> st_Kind s' = st_Kind s ->
  map st_Kind (bo_Steps (setStep k s' b)) = map st_Kind (bo_Steps b).
Proof.
  intros Hs Hk. apply list_eq. intros i. change (map st_Kind) with (fmap (M := list) st_Kind).
  rewrite !list_lookup_fmap. destruct (decide (i = k)) as [->|Hne]; simpl.
  - rewrite Hs, list_lookup_insert_eq by by eapply lookup_lt_Some. simpl. by rewrite Hk.
  - by rewrite list_lookup_insert_ne by done.
Qed.

Lemma runSteps_cons node kind runs index indices b s :
  bo_Steps b !! index = Some s -> st_Kind s = kind ->
  runSteps node kind runs (index :: indices) b =
  match (if (kind =? "bootstrap")%string then sr_phase (runs index) else None) with
  | Some e => (b, rollbackEvents (sr_rollback (runs index)) b, [e])
  | None =>
      let '(b, events, errs) := runRecordedBootstrapStep node (runs index) index s b in
      match errs with
      | [] => let '(b, more, errs) := runSteps node kind runs indices b in (b, events ++ more, errs)
      | _ => (b, events ++ rollbackEvents (sr_rollback (runs index)) b, errs)
      end
  end.
Proof. intros Hs Hk. cbn [runSteps]. rewrite Hs, Hk, String.eqb_refl. done. Qed.

Lemma run_block node kind runs n k b b' events errs :
  entry b k -> (k + n <= length (bo_Steps b))%nat ->
  (forall i s, bo_Steps b !! i = Some s -> (k <= i < k + n)%nat -> st_Kind s = kind) ->
  runSteps node kind runs (seq k n) b = (b', events, errs) ->
  goodTrace (k + n) k events /\ (errs = [] -> blockDone b b' k n /\ executed events = seq k n).
Proof.
  revert k b events. induction n as [|n IH]; intros k b events He Hlen Hkind E; cbn [seq] in E.
  { injection E as <- <- <-. split; [constructor; lia|]. intros _. split; [|done].
    split; [by rewrite Nat.add_0_r|intros; lia|done|done|done]. }
  destruct (lookup_lt_is_Some_2 (bo_Steps b) k) as [s Hs]; [lia|].
  rewrite (runSteps_cons _ _ _ _ _ _ s Hs) in E by (apply (Hkind k s Hs); lia).
  destruct (if (kind =? "bootstrap")%string then _ else _) as [e|].
  { injection E as <- <- <-. split; [apply rollback_trace; [done|lia]|done]. }
  destruct (runRecordedBootstrapStep _ _ _ _ _) as [[b1 ev1] errs1] eqn:E1.
  destruct (run_step node (runs k) k s b b1 ev1 errs1 (sr_rollback (runs k)) He Hs E1) as [Hblock Hdone].
  destruct errs1 as [|e errs1].
  - destruct (Hdone eq_refl) as [(s' & -> & Hst & Hkey) Hex1].
    destruct (runSteps _ _ _ _ _) as [[b2 ev2] errs2] eqn:E2. injection E as <- <- <-.
    destruct (setStep_ok k s s' b He Hs Hkey) as [_ He1].
    assert (Hne : forall i, i <> k -> bo_Steps (setStep k s' b) !! i = bo_Steps b !! i)
      by (intros i Hi; simpl; by rewrite list_lookup_insert_ne).
    apply IH in E2 as [Ht Hd].
    + split.
      * replace (k + S n)%nat with (S k + n)%nat by lia.
        apply (GoodBlock _ k k); [lia| |done]. by apply (block_prefix k ev1 _ Hblock).
      * intros Hn. destruct (Hd Hn) as [[Hent Hsucc Hoth Hki Hco] Hex2]. split.
        -- split.
           ++ by replace (k + S n)%nat with (S k + n)%nat by lia.
           ++ intros i t Ht' Hi. destruct (decide (i = k)) as [->|Hik]; [|eapply Hsucc; [done|lia]].
              rewrite Hoth in Ht' by lia. simpl in Ht'.
              rewrite list_lookup_insert_eq in Ht' by lia. congruence.
           ++ intros i Hi. rewrite Hoth by lia. apply Hne. lia.
           ++ rewrite Hki. apply (setStep_kinds k s); [done|]. by injection Hkey.
           ++ done.
        -- by rewrite executed_app, Hex1, Hex2.
    + apply He1. unfold unfinished. by rewrite Hst.
    + simpl. rewrite length_insert. lia.
    + intros i t Ht Hi. rewrite Hne in Ht by lia. apply (Hkind i t Ht). lia.
  - injection E as <- <- <-. split; [|done].
    rewrite <- (app_nil_r (_ ++ _)). apply (GoodBlock _ k k); [lia|done|constructor; lia].
Qed.

(** Steps of another kind are passed over. *)
Lemma run_skip node kind runs indices b :
  (forall i s, i ∈ indices -> bo_Steps b !! i = Some s -> st_Kind s <> kind) ->
  runSteps node kind runs indices b = (b, [], []).
Proof.
  induction indices as [|i indices IH]; intros H; [done|]. cbn [runSteps].
  destruct (bo_Steps b !! i) as [s|] eqn:Hs.
  - rewrite (proj2 (String.eqb_neq _ _)) by (apply (H i s); [left|done]). simpl. apply IH.
    intros j t Hj. apply H. by right.
  - apply IH. intros j t Hj. apply H. by right.
Qed.

Lemma run_app node kind runs l1 l2 b :
  runSteps node kind runs (l1 ++ l2) b =
  let '(b1, e1, errs1) := runSteps node kind runs l1 b in
  match errs1 with
  | [] => let '(b2, e2, errs2) := runSteps node kind runs l2 b1 in (b2, e1 ++ e2, errs2)
  | _ => (b1, e1, errs1)
  end.
Proof.
  revert b. induction l1 as [|i l1 IH]; intros b; cbn [runSteps app].
  { by destruct (runSteps _ _ _ l2 b) as [[? ?] ?]. }
  destruct (bo_Steps b !! i) as [s|]; [|apply IH]. destruct (negb _); [apply IH|].
  destruct (if (kind =? "bootstrap")%string then _ else _) as [e|]; [done|].
  destruct (runRecordedBootstrapStep _ _ _ _ _) as [[b1 e1] [|e errs]]; [|done].
  rewrite IH. destruct (runSteps _ _ _ l1 b1) as [[b2 e2] [|e errs]]; [|done].
  destruct (runSteps _ _ _ l2 b2) as [[b3 e3] errs3]. by rewrite app_assoc.
Qed.

(** ** A start *)

Lemma append_kind commands kind sk si sn :
  Forall (fun s => st_Kind s = kind) (appendBootstrapSteps [] commands kind sk si sn).
Proof. unfold appendBootstrapSteps. simpl. induction (List.filter _ _); constructor; done. Qed.

Lemma append_app steps commands kind sk si sn :
  appendBootstrapSteps steps commands kind sk si sn =
  steps ++ appendBootstrapSteps [] commands kind sk si sn.
Proof. done. Qed.

Lemma fallback_split b :
  exists l k, fallbackSteps b = l ++ k /\ Forall (fun s => st_Kind s = "bootstrap"%string) l /\
    Forall (fun s => st_Kind s = "validation"%string) k.
Proof.
  unfold fallbackSteps. cbv zeta. rewrite append_app. eexists _, _. split; [done|]. split.
  - rewrite append_app. apply Forall_app. split; apply append_kind.
  - apply append_kind.
Qed.

Lemma matched_kinds b :
  matched b -> exists v, (v <= length (bo_Steps b))%nat /\
    forall i s, bo_Steps b !! i = Some s ->
      ((i < v)%nat -> st_Kind s = "bootstrap"%string) /\ ((v <= i)%nat -> st_Kind s = "validation"%string).
Proof.
  intros Hm. apply keys_kinds in Hm. destruct (fallback_split b) as (l & k & Hlk & Hl & Hk).
  rewrite Hlk in Hm. exists (length l). split.
  { apply (f_equal length) in Hm. rewrite !length_map, length_app in Hm. lia. }
  intros i s Hs.
  assert (Hi : st_Kind <$> (l ++ k) !! i = Some (st_Kind s)).
  { rewrite <- list_lookup_fmap. change (st_Kind <$> l ++ k) with (map st_Kind (l ++ k)). rewrite <- Hm.
    change (map st_Kind) with (fmap (M := list) st_Kind). by rewrite list_lookup_fmap, Hs. }
  split; intros Hil.
  - rewrite lookup_app_l in Hi by done. destruct (l !! i) as [t|] eqn:Ht; simpl in Hi; [|done].
    injection Hi as <-. by apply (Forall_lookup_1 _ _ _ _ Hl Ht).
  - rewrite lookup_app_r in Hi by done. destruct (k !! _) as [t|] eqn:Ht; simpl in Hi; [|done].
    injection Hi as <-. by apply (Forall_lookup_1 _ _ _ _ Hk Ht).
Qed.

Lemma reset_keys f b : map stepKey (bo_Steps (resetSteps f b)) = map stepKey (bo_Steps b).
Proof.
  unfold resetSteps, withSteps. simpl. apply list_eq. intros i.
  change (map stepKey) with (fmap (M := list) stepKey). rewrite !list_lookup_fmap, list_lookup_imap.
  destruct (bo_Steps b !! i) as [s|]; simpl; [|done]. unfold resetStep. by repeat case_match.
Qed.

(** A start begins at the first unfinished step. *)
Lemma reset_entry resume b0 b f :
  prepareSteps resume b0 = (b, Ok f) -> bo_Completed b = false -> entry (resetSteps f b) f.
Proof.
  intros E Hc.
  assert (Hb : b = interruptRunningSteps (ensureSteps b0)).
  { unfold prepareSteps in E. cbv zeta in E. repeat case_match; by injection E. }
  assert (Hm : matched b).
  { rewrite Hb. apply matched_withSteps; [apply ensure_matched|apply interrupt_keys]. }
  split.
  - apply matched_withSteps; [done|]. apply reset_keys.
  - intros i s Hs Hi. simpl in Hs. rewrite list_lookup_imap in Hs.
    destruct (bo_Steps b !! i) as [t|] eqn:Ht; [|done]. simpl in Hs.
    destruct (f <=? i)%nat eqn:El; [apply Nat.leb_le in El; lia|]. injection Hs as <-.
    destruct resume.
    + assert (Hj : (prepareSteps true b0).2 = Ok f) by by rewrite E.
      apply prepare_result in Hj as (Hf & _ & _). rewrite <- Hb in Hf.
      apply firstResumable_spec in Hf as [_ Hbefore]. specialize (Hbefore i t Hi Ht).
      rewrite Hb in Ht. simpl in Ht. rewrite list_lookup_fmap in Ht.
      apply fmap_Some in Ht as (t0 & _ & ->). rewrite resumable_interrupt in Hbefore.
      unfold unfinished in *. rewrite interrupt_state. by destruct (st_State t0).
    + unfold prepareSteps in E. cbv zeta in E. simpl in E. injection E as _ <-. lia.
  - intros i s Hs Hi. simpl in Hs. rewrite list_lookup_imap in Hs.
    destruct (bo_Steps b !! i) as [t|]; [|done]. simpl in Hs. rewrite (proj2 (Nat.leb_le f i)) in Hs by done.
    injection Hs as <-. unfold resetStep. by rewrite Hc.
Qed.

Lemma same_kind b b' i s' :
  map st_Kind (bo_Steps b') = map st_Kind (bo_Steps b) -> bo_Steps b' !! i = Some s' ->
  exists s, bo_Steps b !! i = Some s /\ st_Kind s' = st_Kind s.
Proof.
  intros Hk Hs. assert (Hi : map st_Kind (bo_Steps b') !! i = Some (st_Kind s')).
  { change (map st_Kind) with (fmap (M := list) st_Kind). by rewrite list_lookup_fmap, Hs. }
  rewrite Hk in Hi. change (map st_Kind) with (fmap (M := list) st_Kind) in Hi.
  rewrite list_lookup_fmap in Hi. apply fmap_Some in Hi as (s & ? & ?). by exists s.
Qed.

(** The two loops run two consecutive blocks. *)
Lemma loops_blocks node runs b f :
  entry b f -> (f <= length (bo_Steps b))%nat ->
  let n := length (bo_Steps b) in
  exists w, (f <= w <= n)%nat /\
    (forall i s, bo_Steps b !! i = Some s -> (f <= i < w)%nat -> st_Kind s = "bootstrap"%string) /\
    runSteps node "bootstrap" runs (seq f (n - f)) b = runSteps node "bootstrap" runs (seq f (w - f)) b /\
    forall b1, map st_Kind (bo_Steps b1) = map st_Kind (bo_Steps b) ->
      (forall i s, bo_Steps b1 !! i = Some s -> (w <= i)%nat -> st_Kind s = "validation"%string) /\
      runSteps node "validation" runs (seq f (n - f)) b1 = runSteps node "validation" runs (seq w (n - w)) b1.
Proof.
  intros He Hf n. destruct (matched_kinds b (en_matched _ _ He)) as (v & Hv & Hkind).
  set (w := Nat.max f v). assert (Hw : (f <= w <= n)%nat) by (unfold w, n; lia).
  assert (Hseq : seq f (n - f) = seq f (w - f) ++ seq w (n - w)).
  { replace (n - f)%nat with ((w - f) + (n - w))%nat by lia. rewrite seq_app. do 2 f_equal. lia. }
  exists w. split_and!; try lia.
  - intros i s Hs Hi. apply (Hkind i s Hs). unfold w in Hi. lia.
  - rewrite Hseq, run_app. destruct (runSteps _ _ _ (seq f (w - f)) b) as [[b1 e1] [|e errs]] eqn:E1; [|done].
    rewrite run_skip; [by rewrite app_nil_r|]. intros i s Hi Hs.
    assert (Hki : map st_Kind (bo_Steps b1) = map st_Kind (bo_Steps b)).
    { destruct (run_block node "bootstrap" runs (w - f) f b b1 e1 [] He) as [_ Hd]; [lia| |done|].
      - intros j t Ht Hj. apply (Hkind j t Ht). unfold w in Hj. lia.
      - by apply (Hd eq_refl). }
    destruct (same_kind b b1 i s Hki Hs) as (t & Ht & ->).
    apply elem_of_seq in Hi. rewrite (proj2 (Hkind i t Ht)) by (unfold w in Hi; lia). done.
  - intros b1 Hki. assert (Hk1 : forall i s, bo_Steps b1 !! i = Some s -> exists t, bo_Steps b !! i = Some t /\ st_Kind s = st_Kind t)
      by (intros i s Hs; by apply (same_kind b b1)).
    split.
    + intros i s Hs Hi. destruct (Hk1 i s Hs) as (t & Ht & ->). apply (Hkind i t Ht). unfold w in Hi. lia.
    + rewrite Hseq, run_app. rewrite run_skip; [by destruct (runSteps _ _ _ _ b1) as [[? ?] ?]|].
      intros i s Hi Hs. destruct (Hk1 i s Hs) as (t & Ht & ->). apply elem_of_seq in Hi.
      rewrite (proj1 (Hkind i t Ht)) by (unfold w in Hi; lia). done.
Qed.

Lemma block_length b b' : map st_Kind (bo_Steps b') = map st_Kind (bo_Steps b) ->
  length (bo_Steps b') = length (bo_Steps b).
Proof. intros H. apply (f_equal length) in H. by rewrite !length_map in H. Qed.

Lemma entry_complete b at_ :
  entry b (length (bo_Steps b)) ->
  ok_at (Bootstrap (bo_AgentProfileName b) (bo_InstallCommands b) (bo_BootstrapCommands b)
           (bo_ValidationCommand b) true (Some at_) (bo_Steps b)) (length (bo_Steps b)).
Proof.
  intros [Hm Hb Hp]. split; [exact Hm| |]; simpl; intros i s Hs Hi; pose proof (lookup_lt_Some _ _ _ Hs).
  - eapply Hb; [done|lia].
  - lia.
Qed.

Lemma start_trace node f phases runs at_ save b b' events errs :
  entry (resetSteps f b) f -> bo_Completed b = false -> (f <= length (bo_Steps b))%nat ->
  startBootstrap node f phases runs at_ save b = (b', events, errs) ->
  goodTrace (S (length (bo_Steps b))) f events /\
  (errs = [] ->
     executed events = seq f (length (bo_Steps b) - f) /\ bo_Completed b' = true /\
     forall i s, bo_Steps b' !! i = Some s -> (f <= i)%nat -> st_State s = Succeeded).
Proof.
  intros He Hc Hf E. unfold startBootstrap in E. cbv zeta in E.
  assert (Hlen : length (bo_Steps (resetSteps f b)) = length (bo_Steps b)) by (simpl; apply length_imap).
  change (bo_Completed (resetSteps f b)) with (bo_Completed b) in E. rewrite Hc in E. simpl negb in E.
  set (b0 := resetSteps f b) in *. set (n := length (bo_Steps b)) in *.
  destruct (phases "bootstrap"%string) as [[e saved]|];
    [injection E as <- <- <-; split; [apply rollback_trace; [done|lia]|done]|].
  destruct (loops_blocks node runs b0 f He ltac:(lia)) as (w & Hw & Hkind & Hrun1 & Hrest).
  rewrite Hlen in *. rewrite Hrun1 in E.
  destruct (runSteps node "bootstrap" runs (seq f (w - f)) b0) as [[b1 e1] errs1] eqn:E1.
  destruct (run_block node "bootstrap" runs (w - f) f b0 b1 e1 errs1 He ltac:(lia)) as [Ht1 Hd1].
  { intros i s Hs Hi. apply (Hkind i s Hs). lia. } { done. }
  replace (f + (w - f))%nat with w in * by lia.
  assert (Hup : goodTrace (S n) f e1).
  { rewrite <- (app_nil_r e1). apply (goodTrace_app f w); [done|constructor; lia]. }
  destruct errs1 as [|e errs1]; [|by injection E as <- <- <-].
  destruct (Hd1 eq_refl) as [[Hent1 Hs1 Ho1 Hk1 Hc1] Hx1].
  replace (f + (w - f))%nat with w in * by lia.
  destruct (phases "validation"%string) as [[e saved]|].
  { injection E as <- <- <-. split; [|done]. apply (goodTrace_app f w); [done|].
    apply rollback_trace; [done|lia]. }
  destruct (Hrest b1 Hk1) as [Hval Hrun2]. rewrite Hrun2 in E.
  pose proof (block_length _ _ Hk1) as Hl1. rewrite Hlen in Hl1.
  destruct (runSteps node "validation" runs (seq w (n - w)) b1) as [[b2 e2] errs2] eqn:E2.
  destruct (run_block node "validation" runs (n - w) w b1 b2 e2 errs2 Hent1 ltac:(lia)) as [Ht2 Hd2].
  { intros i s Hs Hi. apply (Hval i s Hs). lia. } { done. }
  replace (w + (n - w))%nat with n in * by lia.
  assert (Hup2 : goodTrace (S n) f (e1 ++ e2)).
  { apply (goodTrace_app f w); [done|]. rewrite <- (app_nil_r e2). apply (goodTrace_app w n); [done|constructor; lia]. }
  destruct errs2 as [|e errs2]; [|by injection E as <- <- <-].
  destruct (Hd2 eq_refl) as [[Hent2 Hs2 Ho2 Hk2 Hc2] Hx2].
  replace (w + (n - w))%nat with n in * by lia.
  destruct (phases "ready"%string) as [[e saved]|].
  { injection E as <- <- <-. split; [|done]. rewrite app_assoc. apply (goodTrace_app f n).
    - by apply (goodTrace_app f w).
    - apply rollback_trace; [done|lia]. }
  pose proof (block_length _ _ Hk2) as Hl2. rewrite Hl1 in Hl2.
  injection E as <- <- <-. pose proof (entry_complete b2 at_) as Hfin. rewrite Hl2 in Hfin.
  specialize (Hfin Hent2). set (bf := Bootstrap _ _ _ _ _ _ _) in *. split.
  - rewrite app_assoc. apply (goodTrace_app f n).
    + apply (goodTrace_app f w); done.
    + rewrite <- (app_nil_r (saveEvents save bf)). apply (GoodBlock _ n n); [lia| |constructor; lia].
      apply goodBlock_intro.
      * intros d Hd. by apply saved_saveEvents in Hd as ->.
      * intros i c Hd. by apply executed_saveEvents in Hd.
      * intros i c r. by destruct save.
  - intros _. split_and!; [|done|].
    + rewrite !executed_app, executed_save, Hx1, Hx2, app_nil_r.
      replace (n - f)%nat with ((w - f) + (n - w))%nat by lia. rewrite seq_app. do 2 f_equal. lia.
    + intros i s Hs Hi. simpl in Hs. pose proof (lookup_lt_Some _ _ _ Hs).
      destruct (decide (i < w)%nat) as [Hiw|Hiw].
      * rewrite Ho2 in Hs by lia. eapply Hs1; [done|lia].
      * eapply Hs2; [done|lia].
Qed.

Lemma prepared_is resume b : (prepareSteps resume b).1 = interruptRunningSteps (ensureSteps b).
Proof. unfold prepareSteps. cbv zeta. by repeat case_match. Qed.

Lemma prepare_idempotent resume b :
  prepareSteps resume (prepareSteps resume b).1 = ((prepareSteps resume b).1, (prepareSteps resume b).2).
Proof.
  rewrite prepared_is. pose proof (prepared_fixed b) as Hfix. cbv zeta in Hfix.
  unfold prepareSteps at 1. cbv zeta. rewrite Hfix. unfold prepareSteps. cbv zeta.
  by repeat case_match.
Qed.

Lemma fresh_steps b : Forall (fun s => st_State s = Pending) (fallbackSteps b).
Proof.
  unfold fallbackSteps, appendBootstrapSteps. cbv zeta. rewrite !Forall_app.
  split_and!; try constructor; apply Forall_forall; intros s Hs;
    apply list_elem_of_In, in_map_iff in Hs as (c & <- & _); done.
Qed.

Lemma prepare_steps_bound resume b :
  match prepareSteps resume b with
  | (b', Ok f) => (f <= length (bo_Steps b'))%nat
  | _ => True
  end.
Proof.
  unfold prepareSteps. cbv zeta. destruct (negb resume); [lia|].
  destruct (firstResumable _) as [k|] eqn:E; [|done].
  apply firstResumable_spec in E as [(s & Hs & _) _].
  destruct (bo_Completed _ && _); [done|]. destruct (existsb _ _); [done|]. apply lookup_lt_Some in Hs. apply Nat.lt_le_incl, Hs.
Qed.

(** ** Properties *)

(** Preparing the steps is idempotent.  The prepared steps are those the
    stored commands call for, none of them running; recorded outcomes are kept
    exactly when the commands have not changed, a running one becoming
    interrupted, and otherwise every step is pending or, after a completed
    bootstrap, unrecorded.  A resumption starts at the first failed or
    interrupted step, a validation when the bootstrap is complete, and with
    every earlier bootstrap step recorded as succeeded when it is not. *)
Theorem prepare_steps resume b :
  let b' := (prepareSteps resume b).1 in
  let r := (prepareSteps resume b).2 in
  prepareSteps resume b' = (b', r) /\ matched b' /\
  (forall i s, bo_Steps b' !! i = Some s -> st_State s <> Running) /\
  (if decide (matched b) then bo_Steps b' = map interruptStep (bo_Steps b)
   else forall i s, bo_Steps b' !! i = Some s ->
     st_State s = if bo_Completed b then Unrecorded else Pending) /\
  (forall start, r = Ok start ->
     if resume
     then (exists s, bo_Steps b' !! start = Some s /\ resumable s = true /\
             (bo_Completed b' = true -> st_Kind s = "validation"%string)) /\
          (forall i s, (i < start)%nat -> bo_Steps b' !! i = Some s ->
             resumable s = false /\
             (st_Kind s = "bootstrap"%string -> bo_Completed b' = false -> st_State s = Succeeded))
     else start = O).
Proof.
  intros b' r. split_and!.
  - apply prepare_idempotent.
  - unfold b'. rewrite prepared_is. apply matched_withSteps; [apply ensure_matched|apply interrupt_keys].
  - unfold b'. rewrite prepared_is. simpl. intros i s Hs. rewrite list_lookup_fmap in Hs.
    apply fmap_Some in Hs as (t & _ & ->). rewrite interrupt_state. by case_decide.
  - unfold b'. rewrite prepared_is. case_decide as Hm; [by rewrite ensure_id|]. simpl.
    unfold ensureSteps. cbv zeta. destruct (matchingSteps _ _) eqn:E.
    { by apply matchingSteps_keys in E. }
    simpl. intros i s Hs. rewrite list_lookup_fmap in Hs. apply fmap_Some in Hs as (t & Ht & ->).
    destruct (bo_Completed b).
    + change (map (withState Unrecorded)) with (fmap (M := list) (withState Unrecorded)) in Ht.
      rewrite list_lookup_fmap in Ht. by apply fmap_Some in Ht as (t' & _ & ->).
    + pose proof (Forall_lookup_1 _ _ _ _ (fresh_steps b) Ht) as Hp. simpl in Hp.
      rewrite interrupt_state. by case_decide; [congruence|].
  - intros start Hr. destruct resume.
    + assert (Hr' : (prepareSteps true b').2 = Ok start).
      { unfold b'. rewrite prepare_idempotent. done. }
      assert (Hfix : interruptRunningSteps (ensureSteps b') = b').
      { unfold b'. rewrite prepared_is. apply prepared_fixed. }
      apply prepare_result in Hr' as (Hf & He & Hv). rewrite Hfix in *.
      apply firstResumable_spec in Hf as [(s & Hs & Hres) Hbefore]. split.
      * exists s. split_and!; [done|done|]. intros Hc. destruct (Hv Hc) as (s' & Hs' & ?). congruence.
      * intros i t Hi Ht. split; [by eapply Hbefore|]. intros Hk Hc.
        destruct (decide (st_State t = Succeeded)) as [?|Hn]; [done|]. exfalso.
        apply not_true_iff_false in He. apply He. apply existsb_exists. exists t. split.
        -- apply list_elem_of_In, (list_elem_of_lookup_2 _ i). by rewrite lookup_take_lt.
        -- rewrite Hk, Hc. simpl. rewrite andb_true_r. by apply negb_true_iff, bool_decide_eq_false.
    + unfold r, prepareSteps in Hr. simpl in Hr. congruence.
Qed.

(** C20: a bootstrap can be cut off after any of its effects, by a crash or by an
    error, and resumed from what it saved last.  The resumption, when it is
    accepted, starts at the one step whose success was not recorded: no command
    recorded as succeeded runs again, every bootstrap step before the start is
    recorded as succeeded and no step from it on is, and of the commands that
    were executed only the one in flight at the cut can run a second time
    (its success record may be what was lost).  A run without errors executes
    every remaining command once, in order, and records its success. *)
Theorem bootstrap_resume_safe resume b0 b f node phases runs at_ save b' events errs :
  prepareSteps resume b0 = (b, Ok f) -> bo_Completed b = false ->
  startBootstrap node f phases runs at_ save b = (b', events, errs) ->
  (forall pre post, events = pre ++ post -> pre <> [] ->
     let '(saved, done) := foldl runEvent (b, []) pre in
     forall j, (prepareSteps true saved).2 = Ok j ->
       (forall i, i ∈ done -> (i <= j)%nat) /\
       (forall i s, (j <= i)%nat -> bo_Steps saved !! i = Some s -> st_State s <> Succeeded) /\
       (forall i s, (i < j)%nat -> bo_Steps saved !! i = Some s -> st_Kind s = "bootstrap"%string ->
          bo_Completed saved = false -> st_State s = Succeeded)) /\
  (errs = [] ->
     executed events = seq f (length (bo_Steps b) - f) /\ bo_Completed b' = true /\
     forall i s, bo_Steps b' !! i = Some s -> (f <= i)%nat -> st_State s = Succeeded).
Proof.
  intros Hp Hc E. pose proof (reset_entry resume b0 b f Hp Hc) as He.
  assert (Hf : (f <= length (bo_Steps b))%nat).
  { pose proof (prepare_steps_bound resume b0) as Hb. by rewrite Hp in Hb. }
  destruct (start_trace _ _ _ _ _ _ _ _ _ _ He Hc Hf E) as [Ht Hok]. split; [|done].
  intros pre post Hpre Hne.
  destruct (trace_consistent _ f events (b, []) Ht ltac:(intros i Hi; by apply elem_of_nil in Hi)
              pre post Hpre ltac:(by left)) as (k & Hk & Hx).
  destruct (foldl runEvent (b, []) pre) as [saved done]. simpl in Hk, Hx. intros j Hj.
  destruct (prepare_point saved k j Hk Hj) as (-> & H1 & H2). done.
Qed.

(** ** Witnesses *)

Module BootSample.

Definition stored : BootstrapState := Bootstrap "agent" [] ["a"; " "; "b"]%string "v" false None [].
Definition good : stepRun := StepRun None None 1 "t" SaveOk None 2 false SaveOk true.
Definition bad : stepRun :=
  StepRun None None 1 "t" SaveOk (Some (ENew "exit status 3", Some 3)) 2 false SaveOk true.
Definition runs (i : nat) : stepRun := if (i =? 1)%nat then bad else good.
Definition prepared : BootstrapState := (prepareSteps false stored).1.
Definition started := startBootstrap "n" 0 (fun _ => None) runs 3 SaveOk prepared.

End BootSample.

Lemma bootstrap_resume_safe_witness :
  let '(saved, done) := foldl runEvent (BootSample.prepared, []) BootSample.started.1.2 in
  (prepareSteps true saved).2 = Ok 1%nat /\ forall i, i ∈ done -> (i <= 1)%nat.
Proof.
  destruct (bootstrap_resume_safe false BootSample.stored BootSample.prepared 0 "n" (fun _ => None)
    BootSample.runs 3 SaveOk BootSample.started.1.1 BootSample.started.1.2 BootSample.started.2)
    as [Hcrash _]; [by vm_compute|by vm_compute|by vm_compute|].
  specialize (Hcrash BootSample.started.1.2 [] ltac:(by rewrite app_nil_r) ltac:(by vm_compute)).
  destruct (foldl _ _ _) as [saved done] eqn:E.
  assert (Hj : (prepareSteps true saved).2 = Ok 1%nat).
  { vm_compute in E. injection E as <- _. vm_compute. reflexivity. }
  split; [exact Hj|]. exact (proj1 (Hcrash 1%nat Hj)).
Defined.
