(* ===== verification/Locks.v ===== *)
(** * Metadata locks

    [internal/codelima/locks.go] with [withLocks] and [seedAndRepair] of
    [service.go].  A request for global domains and nodes becomes an ordered list
    of lock files; processes take the files one by one with a polled [flock],
    may give up or die at any point, and hold the set around a critical section.
    The kernel's table of exclusive locks is [owner].  Each open of a lock file
    is its own lock holder, so a process that opens the same file twice waits for
    itself. *)

From S2P Require Import Prelude GoText.
Local Open Scope Z_scope.

(** ** Names *)

Definition lockNodes : string := "nodes".
Definition lockConfigurations : string := "configurations".
Definition lockEnvironments : string := "environments".
Definition lockSettings : string := "settings".

Inductive lockFile :=
| DomainLock (key : string)
| NodeLock (name : string)
| OperationToken (name : string).

#[export] Instance lockFile_eq_dec : EqDecision lockFile.
Proof. solve_decision. Defined.

#[export] Instance lockFile_countable : Countable lockFile.
Proof.
  refine (inj_countable'
    (fun f => match f with DomainLock k => inl k | NodeLock n => inr (inl n) | OperationToken n => inr (inr n) end)
    (fun s => match s with inl k => DomainLock k | inr (inl n) => NodeLock n | inr (inr n) => OperationToken n end) _).
  by intros [].
Defined.

(** The file below [_locks]; [lockLabel] of its path. *)
Definition lockLabel (f : lockFile) : string :=
  match f with
  | DomainLock key => key +:+ ".lock"
  | NodeLock name => "nodes/" +:+ name +:+ ".lock"
  | OperationToken name => "nodes/" +:+ name +:+ ".op.lock"
  end.

(** [strings.ContainsAny(s, chars)] *)
Fixpoint ContainsAny (s : string) (chars : list Ascii.ascii) : bool :=
  match s with
  | EmptyString => false
  | String c s => existsb (Ascii.eqb c) chars || ContainsAny s chars
  end.

Definition slash : Ascii.ascii := Ascii.ascii_of_nat 47.
Definition backslash : Ascii.ascii := Ascii.ascii_of_nat 92.

Definition nodeLockBaseName (nodeID : string) : result string :=
  let name := TrimSpace nodeID in
  if (name =? "")%string || (name =? ".")%string || (name =? "..")%string
     || ContainsAny name [slash; backslash]
  then Err (invalidArgument "node id is not usable as a lock name")
  else Ok name.

Definition nodeOperationTokenPath (nodeID : string) : result lockFile :=
  OperationToken <$> nodeLockBaseName nodeID.

(** ** The ordered request *)

(** [slices.Compact] *)
Fixpoint Compact (l : list string) : list string :=
  match l with
  | x :: ((y :: _) as r) => if (x =? y)%string then Compact r else x :: Compact r
  | _ => l
  end.

(** [slices.Sort] and [slices.Compact]. *)
Definition sorted (l : list string) : list string := Compact (merge_sort String.le l).

Fixpoint nodePaths (ids : list string) : result (list lockFile) :=
  match ids with
  | [] => Ok []
  | id :: ids => name ← nodeLockBaseName id; cons (NodeLock name) <$> nodePaths ids
  end.

Definition lockPaths (keys nodeIDs : list string) : result (list lockFile) :=
  app (map DomainLock (sorted keys)) <$> nodePaths (sorted nodeIDs).

(** ** Processes *)

(** A process's open [LockSet]s, innermost first; the acquisition it is in, as
    the paths and how many of them it has locked; the tokens it owns; and the
    token file [nodeOperationClaimed] has locked for its probe. *)
Record process := {
  sets : list (list lockFile);
  acquiring : option (list lockFile * nat);
  tokens : gset string;
  probing : option string;
}.

Definition idle : process := {| sets := []; acquiring := None; tokens := ∅; probing := None |}.

Record world := {
  procs : gmap nat process;
  owner : gmap lockFile nat;
}.

Definition initial : world := {| procs := ∅; owner := ∅ |}.

Definition set_acquiring a pr := {| sets := sets pr; acquiring := a; tokens := tokens pr; probing := probing pr |}.
Definition set_sets l pr := {| sets := l; acquiring := acquiring pr; tokens := tokens pr; probing := probing pr |}.
Definition set_tokens t pr := {| sets := sets pr; acquiring := acquiring pr; tokens := t; probing := probing pr |}.
Definition set_probing t pr := {| sets := sets pr; acquiring := acquiring pr; tokens := tokens pr; probing := t |}.

(** [flock(LOCK_EX|LOCK_NB)] *)
Definition Flock (p : nat) (f : lockFile) (o : gmap lockFile nat) : option (gmap lockFile nat) :=
  match o !! f with Some _ => None | None => Some (<[f := p]> o) end.

(** [LockSet.Close]: unlock and close every file. *)
Definition Close (files : list lockFile) (o : gmap lockFile nat) : gmap lockFile nat :=
  foldr (fun f o => delete f o) o files.

Inductive action :=
| Spawn (p : nat)
| Acquire (p : nat) (keys nodeIDs : list string)   (* acquireLockSet begins *)
| Lock (p : nat)                                   (* its next flock succeeds *)
| Acquired (p : nat)                               (* acquireLockSet returns the set *)
| Cancel (p : nat)                                 (* its context ends, or an I/O error *)
| Release (p : nat)                                (* LockSet.release *)
| Claim (p : nat) (nodeID : string)                (* tryAcquireNodeOperation succeeds *)
| Unclaim (p : nat) (name : string)                (* nodeOperationToken.release *)
| Probe (p : nat) (nodeID : string)                (* nodeOperationClaimed locks the file *)
| Unprobe (p : nat)                                (* and unlocks it *)
| Crash (p : nat).                                 (* the kernel drops its locks *)

Definition isDomain (f : lockFile) : bool := match f with DomainLock _ => true | _ => false end.

(** The lock contract: one call takes all that a critical section needs; the
    only nesting is a per-node set inside a global one. *)
Definition permitted (pr : process) (keys : list string) : bool :=
  match sets pr with
  | [] => true
  | [outer] => forallb isDomain outer && match keys with [] => true | _ => false end
  | _ => false
  end.

Definition update (w : world) (p : nat) (pr : process) (o : gmap lockFile nat) : world :=
  {| procs := <[p := pr]> (procs w); owner := o |}.

(** [tryAcquireNodeOperation]: [None] when a live process owns the node. *)
Definition tryAcquireNodeOperation (p : nat) (nodeID : string) (o : gmap lockFile nat)
    : result (option (gmap lockFile nat)) :=
  token ← nodeOperationTokenPath nodeID; Ok (Flock p token o).

(** [nodeOperationClaimed] at the moment of its [flock]; the file itself exists
    once a token was taken. *)
Definition nodeOperationClaimed (nodeID : string) (o : gmap lockFile nat) : result bool :=
  token ← nodeOperationTokenPath nodeID; Ok (bool_decide (is_Some (o !! token))).

Definition step (w : world) (a : action) : option world :=
  match a with
  | Spawn p =>
      match procs w !! p with Some _ => None | None => Some (update w p idle (owner w)) end
  | Acquire p keys nodeIDs =>
      pr ← procs w !! p;
      match acquiring pr, lockPaths keys nodeIDs with
      | None, Ok paths =>
          if permitted pr keys then Some (update w p (set_acquiring (Some (paths, O)) pr) (owner w)) else None
      | _, _ => None
      end
  | Lock p =>
      pr ← procs w !! p;
      '(paths, n) ← acquiring pr;
      f ← paths !! n;
      o ← Flock p f (owner w);
      Some (update w p (set_acquiring (Some (paths, S n)) pr) o)
  | Acquired p =>
      pr ← procs w !! p;
      '(paths, n) ← acquiring pr;
      if (n =? length paths)%nat
      then Some (update w p (set_sets (paths :: sets pr) (set_acquiring None pr)) (owner w))
      else None
  | Cancel p =>
      pr ← procs w !! p;
      '(paths, n) ← acquiring pr;
      if (n <? length paths)%nat
      then Some (update w p (set_acquiring None pr) (Close (take n paths) (owner w)))
      else None
  | Release p =>
      pr ← procs w !! p;
      match acquiring pr, sets pr with
      | None, files :: rest => Some (update w p (set_sets rest pr) (Close files (owner w)))
      | _, _ => None
      end
  | Claim p nodeID =>
      pr ← procs w !! p;
      match nodeLockBaseName nodeID, tryAcquireNodeOperation p nodeID (owner w) with
      | Ok name, Ok (Some o) => Some (update w p (set_tokens ({[name]} ∪ tokens pr) pr) o)
      | _, _ => None
      end
  | Unclaim p name =>
      pr ← procs w !! p;
      if bool_decide (name ∈ tokens pr)
      then Some (update w p (set_tokens (tokens pr ∖ {[name]}) pr) (Close [OperationToken name] (owner w)))
      else None
  | Probe p nodeID =>
      pr ← procs w !! p;
      match probing pr, nodeLockBaseName nodeID, nodeOperationClaimed nodeID (owner w) with
      | None, Ok name, Ok false =>
          Some (update w p (set_probing (Some name) pr) (<[OperationToken name := p]> (owner w)))
      | _, _, _ => None
      end
  | Unprobe p =>
      pr ← procs w !! p;
      name ← probing pr;
      Some (update w p (set_probing None pr) (Close [OperationToken name] (owner w)))
  | Crash p =>
      match procs w !! p with
      | Some _ => Some {| procs := delete p (procs w); owner := filter (fun v => v.2 <> p) (owner w) |}
      | None => None
      end
  end.

Fixpoint run (w : world) (l : list action) : option world :=
  match l with [] => Some w | a :: l => w ← step w a; run w l end.

(** Node identities as [newID] makes them: no surrounding space. *)
Definition trimmed (a : action) : Prop :=
  match a with Acquire _ _ nodeIDs => Forall (fun id => TrimSpace id = id) nodeIDs | _ => True end.

(** What a process holds for its open sets and its current acquisition. *)
Definition locked (pr : process) : list lockFile :=
  match acquiring pr with Some (paths, n) => take n paths | None => [] end ++ concat (sets pr).

(** The lock a process is polling for. *)
Definition next (w : world) (p : nat) : option lockFile :=
  pr ← procs w !! p; '(paths, n) ← acquiring pr; paths !! n.

Definition waits (w : world) (p q : nat) : Prop :=
  exists f, next w p = Some f /\ owner w !! f = Some q.

(** ** The order *)

Definition slt (a b : string) : Prop := String.le a b /\ a <> b.

(** The documented order: global domains before nodes, each by name. *)
Definition before (f g : lockFile) : Prop :=
  match f, g with
  | DomainLock a, DomainLock b => slt a b
  | DomainLock _, NodeLock _ => True
  | NodeLock a, NodeLock b => slt a b
  | _, _ => False
  end.

#[export] Instance slt_dec a b : Decision (slt a b).
Proof. unfold slt. apply _. Defined.
#[export] Instance before_dec f g : Decision (before f g).
Proof. destruct f, g; simpl; apply _. Defined.

Lemma slt_irrefl a : ~ slt a a.
Proof. by intros []. Qed.

Lemma slt_trans a b c : slt a b -> slt b c -> slt a c.
Proof.
  intros [H1 N1] [H2 N2]. split; [by etrans|]. intros ->. apply N2. by apply (anti_symm String.le).
Qed.

Lemma before_irrefl f : ~ before f f.
Proof. destruct f; simpl; auto using slt_irrefl. Qed.

Lemma before_trans f g h : before f g -> before g h -> before f h.
Proof. destruct f, g, h; simpl; try done; apply slt_trans. Qed.

Lemma Compact_elem l z : z ∈ Compact l <-> z ∈ l.
Proof.
  induction l as [|x [|y r] IH]; [done|done|]. change (Compact (x :: y :: r)) with
    (if (x =? y)%string then Compact (y :: r) else x :: Compact (y :: r)).
  destruct (x =? y)%string eqn:E; bool_to_prop; [subst|].
  - rewrite IH, !elem_of_cons. tauto.
  - rewrite elem_of_cons, IH, !elem_of_cons. tauto.
Qed.

Lemma Compact_sorted l : StronglySorted String.le l -> StronglySorted slt (Compact l).
Proof.
  induction l as [|x [|y r] IH]; intros Hs; [constructor|by repeat constructor|].
  change (Compact (x :: y :: r)) with (if (x =? y)%string then Compact (y :: r) else x :: Compact (y :: r)).
  inversion Hs as [|? ? Hs' Hx]; subst.
  destruct (x =? y)%string eqn:E; bool_to_prop; [by apply IH|]. constructor; [by apply IH|].
  rewrite Forall_forall in *. intros z Hz. rewrite Compact_elem in Hz. split; [exact (Hx z Hz)|]. intros ->.
  inversion Hs' as [|? ? _ Hy]; subst. rewrite Forall_forall in Hy. apply E.
  apply elem_of_cons in Hz as [->|Hz]; [done|]. apply (anti_symm String.le); [|by apply Hy].
  apply Hx. by left.
Qed.

Lemma sorted_sorted l : StronglySorted slt (sorted l).
Proof. apply Compact_sorted, StronglySorted_merge_sort; apply _. Qed.

Lemma sorted_elem l z : z ∈ sorted l <-> z ∈ l.
Proof. unfold sorted. rewrite Compact_elem. by rewrite merge_sort_Permutation. Qed.

Lemma nodePaths_trimmed ids paths :
  nodePaths ids = Ok paths -> Forall (fun id => TrimSpace id = id) ids -> paths = map NodeLock ids.
Proof.
  revert paths. induction ids as [|id ids IH]; simpl; intros paths; [by intros [= <-]|].
  unfold nodeLockBaseName. destruct (_ || _); [done|]. simpl. destruct (nodePaths ids) as [ps|e]; [|done].
  simpl. intros [= <-] Hall. inversion Hall as [|? ? Ht Hall']; subst. by rewrite Ht, (IH ps).
Qed.

Lemma StronglySorted_map_before (c : string -> lockFile) l :
  (forall a b, slt a b -> before (c a) (c b)) -> StronglySorted slt l -> StronglySorted before (map c l).
Proof.
  intros Hc. induction 1 as [|a l _ IH Ha]; simpl; constructor; [done|].
  apply Forall_map. eapply Forall_impl; [exact Ha|]. auto.
Qed.

Lemma StronglySorted_app_intro (R : lockFile -> lockFile -> Prop) l k :
  StronglySorted R l -> StronglySorted R k -> (forall x y, x ∈ l -> y ∈ k -> R x y) ->
  StronglySorted R (l ++ k).
Proof.
  intros Hl Hk. induction Hl as [|a l Hl IH Ha]; intros Hlk; simpl; [done|]. constructor.
  - apply IH. intros x y Hx. apply Hlk. by right.
  - apply Forall_app. split; [done|]. rewrite Forall_forall. intros y. apply Hlk. by left.
Qed.

(** A request of trimmed identities is strictly ordered and names exactly the
    domains and nodes asked for. *)
Lemma lockPaths_spec keys nodeIDs paths :
  lockPaths keys nodeIDs = Ok paths -> Forall (fun id => TrimSpace id = id) nodeIDs ->
  StronglySorted before paths /\
  (forall f, f ∈ paths <-> (exists k, f = DomainLock k /\ k ∈ keys) \/ (exists n, f = NodeLock n /\ n ∈ nodeIDs)).
Proof.
  unfold lockPaths. intros E Ht. destruct (nodePaths (sorted nodeIDs)) as [ps|e] eqn:En; [|done].
  simpl in E. injection E as <-. apply nodePaths_trimmed in En as ->.
  2:{ rewrite Forall_forall in *. intros id Hid. apply Ht. by apply sorted_elem. }
  split.
  - apply StronglySorted_app_intro; [by apply StronglySorted_map_before, sorted_sorted..|].
    intros x y (a & -> & _)%list_elem_of_fmap (b & -> & _)%list_elem_of_fmap. done.
  - intros f. rewrite elem_of_app, !list_elem_of_fmap. setoid_rewrite sorted_elem. done.
Qed.

Lemma sorted_before_NoDup l : StronglySorted before l -> NoDup l.
Proof.
  induction 1 as [|a l _ IH Ha]; constructor; [|done]. intros Hin. rewrite Forall_forall in Ha.
  exact (before_irrefl a (Ha a Hin)).
Qed.

(** ** The invariant *)

Definition holdsToken (pr : process) (f : lockFile) : Prop :=
  exists n, f = OperationToken n /\ (n ∈ tokens pr \/ probing pr = Some n).
Definition holds (pr : process) (f : lockFile) : Prop := f ∈ locked pr \/ holdsToken pr f.

(** The kernel's table records exactly what the processes hold. *)
Definition owned (w : world) : Prop :=
  forall f p, owner w !! f = Some p <-> exists pr, procs w !! p = Some pr /\ holds pr f.

Definition isToken (f : lockFile) : bool := match f with OperationToken _ => true | _ => false end.

(** One process: distinct files, locked in order, no token among them. *)
Record disciplined (pr : process) : Prop := {
  d_nodup : NoDup (locked pr);
  d_acquiring : forall paths n, acquiring pr = Some (paths, n) ->
    StronglySorted before paths /\
    (forall f g, f ∈ concat (sets pr) -> g ∈ paths -> before f g) /\
    Forall (fun f => isToken f = false) paths;
  d_sets : Forall (fun f => isToken f = false) (concat (sets pr));
  d_probe : forall n, probing pr = Some n -> n ∉ tokens pr;
  d_count : forall paths n, acquiring pr = Some (paths, n) -> (n <= length paths)%nat;
}.

Record winv (w : world) : Prop := {
  w_owned : owned w;
  w_disciplined : map_Forall (fun _ pr => disciplined pr) (procs w);
}.

Lemma in_sets (ls : list (list lockFile)) files f : files ∈ ls -> f ∈ files -> f ∈ concat ls.
Proof.
  intros Hl Hf. induction ls as [|l ls IH]; [by apply not_elem_of_nil in Hl|]. simpl. apply elem_of_app.
  apply elem_of_cons in Hl as [<-|Hl]; [by left|right; by apply IH].
Qed.

Lemma Close_lookup files o g : Close files o !! g = if decide (g ∈ files) then None else o !! g.
Proof.
  induction files as [|f files IH]; simpl; [done|].
  destruct (decide (f = g)) as [->|Hne]; [rewrite lookup_delete_eq|rewrite lookup_delete_ne, IH by done];
    repeat case_decide; set_solver.
Qed.

(** Updating one process and giving it a free file, or taking files from it. *)
Lemma owned_add w p pr pr' f :
  owned w -> procs w !! p = Some pr -> owner w !! f = None ->
  (forall g, holds pr' g <-> holds pr g \/ g = f) -> owned (update w p pr' (<[f := p]> (owner w))).
Proof.
  intros Hw Hp Hf Hh g q. simpl. destruct (decide (f = g)) as [<-|Hfg].
  - rewrite lookup_insert_eq. split.
    + intros [= <-]. exists pr'. rewrite lookup_insert_eq. split; [done|]. apply Hh. by right.
    + intros (pr1 & Hq & Hg). f_equal. destruct (decide (p = q)) as [|Hpq]; [done|].
      rewrite lookup_insert_ne in Hq by done. exfalso.
      assert (owner w !! f = Some q) by (apply Hw; by exists pr1). congruence.
  - rewrite lookup_insert_ne by done. rewrite (Hw g q). destruct (decide (p = q)) as [<-|Hpq].
    + rewrite lookup_insert_eq, Hp. split; intros (pr1 & [= <-] & Hg); eexists; (split; [done|]).
      * apply Hh. by left.
      * by apply Hh in Hg as [|].
    + by rewrite lookup_insert_ne.
Qed.

Lemma owned_remove w p pr pr' files :
  owned w -> procs w !! p = Some pr -> (forall g, g ∈ files -> holds pr g) ->
  (forall g, holds pr' g <-> holds pr g /\ g ∉ files) -> owned (update w p pr' (Close files (owner w))).
Proof.
  intros Hw Hp Hin Hh g q. simpl. rewrite Close_lookup. destruct (decide (g ∈ files)) as [Hg|Hg].
  - split; [done|]. intros (pr1 & Hq & Hg1). exfalso.
    assert (owner w !! g = Some p) by (apply Hw; exists pr; auto).
    destruct (decide (p = q)) as [<-|Hpq].
    + rewrite lookup_insert_eq in Hq. injection Hq as <-. by apply Hh in Hg1 as [].
    + rewrite lookup_insert_ne in Hq by done.
      assert (owner w !! g = Some q) by (apply Hw; by exists pr1). congruence.
  - rewrite (Hw g q). destruct (decide (p = q)) as [<-|Hpq].
    + rewrite lookup_insert_eq, Hp. split; intros (pr1 & [= <-] & Hg1); eexists; (split; [done|]).
      * by apply Hh.
      * by apply Hh in Hg1 as [].
    + by rewrite lookup_insert_ne.
Qed.

Lemma owned_same w p pr pr' :
  owned w -> procs w !! p = Some pr -> (forall g, holds pr' g <-> holds pr g) ->
  owned (update w p pr' (owner w)).
Proof.
  intros Hw Hp Hh. apply (owned_remove w p pr pr' [] Hw Hp); [set_solver|].
  intros g. rewrite Hh. set_solver.
Qed.

Lemma disciplined_update w p pr' o :
  map_Forall (fun _ pr => disciplined pr) (procs w) -> disciplined pr' ->
  map_Forall (fun _ pr => disciplined pr) (procs (update w p pr' o)).
Proof. intros Hd Hp. simpl. apply map_Forall_insert_2; done. Qed.

Lemma holds_locked pr f : f ∈ locked pr -> holds pr f.
Proof. by left. Qed.

Lemma not_token_of_locked pr f : disciplined pr -> f ∈ locked pr -> isToken f = false.
Proof.
  intros Hd. unfold locked. rewrite elem_of_app. pose proof (d_sets pr Hd) as Hs. rewrite Forall_forall in Hs.
  destruct (acquiring pr) as [[paths n]|] eqn:Ha; [|by intros [Hn|]; [apply not_elem_of_nil in Hn|auto]].
  destruct (d_acquiring pr Hd paths n Ha) as (_ & _ & Ht). rewrite Forall_forall in Ht.
  intros [Hf|Hf]; [|auto]. apply Ht. by eapply subseteq_take.
Qed.

Lemma take_S_locked paths n (f : lockFile) : paths !! n = Some f -> take (S n) paths = take n paths ++ [f].
Proof. apply take_S_r. Qed.

Lemma Acquire_winv w p keys nodeIDs w' :
  winv w -> Forall (fun id => TrimSpace id = id) nodeIDs -> step w (Acquire p keys nodeIDs) = Some w' -> winv w'.
Proof.
  intros [Ho Hd] Ht. simpl. destruct (procs w !! p) as [pr|] eqn:Hp; [simpl|done].
  pose proof (Hd _ _ Hp) as Hpr.
  destruct (acquiring pr) eqn:Ha; [done|]. destruct (lockPaths keys nodeIDs) as [paths|e] eqn:Hl; [|done].
  destruct (permitted pr keys) eqn:Hperm; [|done]. intros [= <-].
  destruct (lockPaths_spec _ _ _ Hl Ht) as [Hs Hin].
  assert (Hlk : locked (set_acquiring (Some (paths, O)) pr) = locked pr) by (unfold locked; by rewrite Ha).
  split.
  - apply (owned_same _ _ _ _ Ho Hp). intros g. unfold holds. by rewrite Hlk.
  - apply disciplined_update; [done|]. split; [rewrite Hlk; apply Hpr| |apply Hpr|apply Hpr|intros ? ? [= <- <-]; lia].
    intros paths' n [= <- <-]. split; [done|]. split.
    + intros f g Hf Hg. simpl in Hf. unfold permitted in Hperm. destruct (sets pr) as [|outer [|]]; [|bool_to_prop|done].
      { by apply not_elem_of_nil in Hf. }
      destruct keys; [|done]. simpl in Hf. rewrite app_nil_r in Hf.
      match goal with Hb : forallb isDomain outer = true |- _ =>
        apply Is_true_true_2, forallb_True in Hb; rewrite Forall_forall in Hb; apply Hb in Hf end.
      apply Hin in Hg as [(k & _ & Hk)|(n & -> & _)]; [by apply not_elem_of_nil in Hk|]. by destruct f.
    + rewrite Forall_forall. intros f Hf. by apply Hin in Hf as [(k & -> & _)|(n & -> & _)].
Qed.

Lemma Lock_winv w p w' : winv w -> step w (Lock p) = Some w' -> winv w'.
Proof.
  intros [Ho Hd]. simpl. destruct (procs w !! p) as [pr|] eqn:Hp; [simpl|done]. pose proof (Hd _ _ Hp) as Hpr.
  destruct (acquiring pr) as [[paths n]|] eqn:Ha; [simpl|done]. destruct (paths !! n) as [f|] eqn:Hf; [simpl|done].
  unfold Flock. destruct (owner w !! f) eqn:Hof; [done|]. intros [= <-].
  assert (Hlk : locked (set_acquiring (Some (paths, S n)) pr) ≡ₚ f :: locked pr).
  { unfold locked. simpl. rewrite Ha, (take_S_locked _ _ _ Hf), <- app_assoc. simpl. by rewrite Permutation_middle. }
  assert (Hnf : f ∉ locked pr).
  { intros Hin. assert (owner w !! f = Some p) by (apply Ho; exists pr; split; [done|by left]). congruence. }
  split.
  - apply (owned_add _ _ _ _ _ Ho Hp Hof). intros g. unfold holds. rewrite Hlk, elem_of_cons. 
    change (holdsToken (set_acquiring (Some (paths, S n)) pr) g) with (holdsToken pr g). tauto.
  - apply disciplined_update; [done|]. split; [|simpl|apply Hpr|apply Hpr|].
    + rewrite Hlk. constructor; [done|apply Hpr].
    + intros paths' n' [= <- <-]. by apply (d_acquiring pr Hpr paths n).
    + intros paths' n' [= <- <-]. by apply lookup_lt_Some in Hf.
Qed.

Lemma Acquired_winv w p w' : winv w -> step w (Acquired p) = Some w' -> winv w'.
Proof.
  intros [Ho Hd]. simpl. destruct (procs w !! p) as [pr|] eqn:Hp; [simpl|done]. pose proof (Hd _ _ Hp) as Hpr.
  destruct (acquiring pr) as [[paths n]|] eqn:Ha; [simpl|done].
  destruct (n =? length paths)%nat eqn:Hn; [|done]. apply Nat.eqb_eq in Hn. intros [= <-].
  set (pr' := set_sets _ _). destruct (d_acquiring pr Hpr paths n Ha) as (_ & _ & Htok).
  assert (Hlk : locked pr' = locked pr).
  { unfold locked. simpl. by rewrite Ha, firstn_all2 by lia. }
  split.
  - apply (owned_same _ _ _ _ Ho Hp). intros g. unfold holds. by rewrite Hlk.
  - apply disciplined_update; [done|]. split; [rewrite Hlk; apply Hpr|done| |apply Hpr|done].
    simpl. apply Forall_app. split; [done|apply Hpr].
Qed.

(** Giving up a part of what is locked. *)
Lemma drop_locked w p pr pr' files :
  winv w -> procs w !! p = Some pr -> locked pr = files ++ locked pr' -> acquiring pr' = None ->
  tokens pr' = tokens pr -> probing pr' = probing pr ->
  winv (update w p pr' (Close files (owner w))).
Proof.
  intros [Ho Hd] Hp Hl Ha Ht Hb. pose proof (Hd _ _ Hp) as Hpr.
  pose proof (d_nodup pr Hpr) as Hnd. rewrite Hl in Hnd. apply NoDup_app in Hnd as (_ & Hdis & Hnd).
  assert (Htok : forall f, f ∈ files -> isToken f = false).
  { intros f Hf. apply (not_token_of_locked pr f Hpr). rewrite Hl. apply elem_of_app. by left. }
  split.
  - apply (owned_remove _ _ _ _ _ Ho Hp).
    + intros g Hg. left. rewrite Hl. apply elem_of_app. by left.
    + intros g. unfold holds, holdsToken. rewrite Hl, Ht, Hb, elem_of_app. split.
      * intros [Hg|(n & -> & Hn)].
        { split; [auto|]. intros Hf. exact (Hdis g Hf Hg). }
        split; [eauto|]. intros Hf. by apply Htok in Hf.
      * intros [[[Hg|Hg]|Hg] Hf]; [done|auto..].
  - apply disciplined_update; [done|]. split; [done|by rewrite Ha| |rewrite Ht, Hb; apply Hpr|by rewrite Ha].
    rewrite Forall_forall. intros f Hf. apply (not_token_of_locked pr f Hpr). rewrite Hl.
    apply elem_of_app. right. unfold locked. rewrite Ha. done.
Qed.

Lemma Cancel_winv w p w' : winv w -> step w (Cancel p) = Some w' -> winv w'.
Proof.
  intros Hw. simpl. destruct (procs w !! p) as [pr|] eqn:Hp; [simpl|done].
  destruct (acquiring pr) as [[paths n]|] eqn:Ha; [simpl|done]. destruct (n <? length paths)%nat; [|done].
  intros [= <-]. apply (drop_locked w p pr _ (take n paths) Hw Hp); try done. unfold locked. by rewrite Ha.
Qed.

Lemma Release_winv w p w' : winv w -> step w (Release p) = Some w' -> winv w'.
Proof.
  intros Hw. simpl. destruct (procs w !! p) as [pr|] eqn:Hp; [simpl|done].
  destruct (acquiring pr) eqn:Ha; [done|]. destruct (sets pr) as [|files rest] eqn:Hs; [done|].
  intros [= <-]. apply (drop_locked w p pr _ files Hw Hp); try done. unfold locked. simpl. by rewrite Ha, Hs.
Qed.

(** Changing tokens alone keeps a process disciplined. *)
Lemma disciplined_tokens pr pr' :
  disciplined pr -> sets pr' = sets pr -> acquiring pr' = acquiring pr ->
  (forall n, probing pr' = Some n -> n ∉ tokens pr') -> disciplined pr'.
Proof.
  intros Hd Hs Ha Hp. split; [|rewrite Ha, Hs; apply Hd|rewrite Hs; apply Hd|done|rewrite Ha; apply Hd].
  unfold locked. rewrite Ha, Hs. apply Hd.
Qed.

Lemma locked_tokens pr pr' : sets pr' = sets pr -> acquiring pr' = acquiring pr -> locked pr' = locked pr.
Proof. unfold locked. by intros -> ->. Qed.

Lemma token_free w p pr n :
  owned w -> procs w !! p = Some pr -> owner w !! OperationToken n = None -> (n ∉ tokens pr) /\ probing pr <> Some n.
Proof.
  intros Ho Hp Hf. split; intros Hn;
    (assert (owner w !! OperationToken n = Some p)
      by (apply Ho; exists pr; split; [done|right; exists n; auto])); congruence.
Qed.

Lemma Claim_winv w p nodeID w' : winv w -> step w (Claim p nodeID) = Some w' -> winv w'.
Proof.
  intros [Ho Hd]. simpl. destruct (procs w !! p) as [pr|] eqn:Hp; [simpl|done]. pose proof (Hd _ _ Hp) as Hpr.
  unfold tryAcquireNodeOperation, nodeOperationTokenPath. destruct (nodeLockBaseName nodeID) as [n|e]; [simpl|done].
  unfold Flock. destruct (owner w !! OperationToken n) eqn:Hof; [done|]. intros [= <-].
  destruct (token_free _ _ _ _ Ho Hp Hof) as [Hnt Hnp]. split.
  - apply (owned_add _ _ _ _ _ Ho Hp Hof). intros g. unfold holds, holdsToken.
    rewrite (locked_tokens pr) by done. simpl. setoid_rewrite elem_of_union. setoid_rewrite elem_of_singleton.
    split; [intros [|(m & -> & [[->|]|])]; eauto 6|intros [[|(m & -> & [|])]| ->]; eauto 7].
  - apply disciplined_update; [done|]. apply (disciplined_tokens pr); try done. simpl. intros m Hm.
    rewrite elem_of_union, elem_of_singleton. intros [->|Hin]; [by apply Hnp|by apply (d_probe pr Hpr m)].
Qed.

Lemma Unclaim_winv w p n w' : winv w -> step w (Unclaim p n) = Some w' -> winv w'.
Proof.
  intros [Ho Hd]. simpl. destruct (procs w !! p) as [pr|] eqn:Hp; [simpl|done]. pose proof (Hd _ _ Hp) as Hpr.
  case_bool_decide as Hn; [|done]. intros [= <-]. split.
  - apply (owned_remove _ _ _ _ [OperationToken n] Ho Hp).
    + intros g ->%list_elem_of_singleton. right. exists n. auto.
    + intros g. unfold holds, holdsToken. rewrite (locked_tokens pr) by done. simpl.
      rewrite list_elem_of_singleton. setoid_rewrite elem_of_difference. setoid_rewrite elem_of_singleton. split.
      * intros [Hg|(m & -> & [[Hm Hne]|Hm])].
        { split; [auto|]. intros ->. by apply (not_token_of_locked pr _ Hpr) in Hg. }
        { split; [eauto 6|]. congruence. }
        split; [eauto 6|]. intros [= ->]. by apply (d_probe pr Hpr n) in Hm.
      * intros [[Hg|(m & -> & [Hm|Hm])] Hne]; [auto|right; exists m|right; exists m]; split; auto.
        left. split; [done|]. congruence.
  - apply disciplined_update; [done|]. apply (disciplined_tokens pr); try done. simpl. intros m Hm.
    rewrite elem_of_difference. intros [Hin _]. by apply (d_probe pr Hpr m).
Qed.

Lemma Probe_winv w p nodeID w' : winv w -> step w (Probe p nodeID) = Some w' -> winv w'.
Proof.
  intros [Ho Hd]. simpl. destruct (procs w !! p) as [pr|] eqn:Hp; [simpl|done]. pose proof (Hd _ _ Hp) as Hpr.
  unfold nodeOperationClaimed, nodeOperationTokenPath. destruct (probing pr) eqn:Hpb; [done|].
  destruct (nodeLockBaseName nodeID) as [n|e]; [simpl|done]. case_bool_decide as Hf; [done|]. intros [= <-].
  apply eq_None_not_Some in Hf. destruct (token_free _ _ _ _ Ho Hp Hf) as [Hnt _]. split.
  - apply (owned_add _ _ _ _ _ Ho Hp Hf). intros g. unfold holds, holdsToken.
    rewrite (locked_tokens pr) by done. simpl. rewrite Hpb. split.
    + intros [|(m & -> & [|[= <-]])]; eauto 6.
    + intros [[|(m & -> & [|[=]])]| ->]; eauto 7.
  - apply disciplined_update; [done|]. apply (disciplined_tokens pr); try done. simpl. by intros m [= <-].
Qed.

Lemma Unprobe_winv w p w' : winv w -> step w (Unprobe p) = Some w' -> winv w'.
Proof.
  intros [Ho Hd]. simpl. destruct (procs w !! p) as [pr|] eqn:Hp; [simpl|done]. pose proof (Hd _ _ Hp) as Hpr.
  destruct (probing pr) as [n|] eqn:Hpb; [|done]. simpl. intros [= <-]. split.
  - apply (owned_remove _ _ _ _ [OperationToken n] Ho Hp).
    + intros g ->%list_elem_of_singleton. right. exists n. auto.
    + intros g. unfold holds, holdsToken. rewrite (locked_tokens pr) by done. simpl. rewrite Hpb.
      rewrite list_elem_of_singleton. split.
      * intros [Hg|(m & -> & [Hm|[=]])].
        { split; [auto|]. intros ->. by apply (not_token_of_locked pr _ Hpr) in Hg. }
        split; [eauto 6|]. intros [= ->]. by apply (d_probe pr Hpr n) in Hm.
      * intros [[Hg|(m & -> & [Hm|[= <-]])] Hne]; [auto|eauto 6|done].
  - apply disciplined_update; [done|]. by apply (disciplined_tokens pr).
Qed.

Lemma Spawn_winv w p w' : winv w -> step w (Spawn p) = Some w' -> winv w'.
Proof.
  intros [Ho Hd]. simpl. destruct (procs w !! p) as [pr|] eqn:Hp; [done|]. intros [= <-]. split.
  - intros f q. simpl. rewrite (Ho f q). destruct (decide (p = q)) as [<-|Hpq]; [|by rewrite lookup_insert_ne].
    rewrite Hp, lookup_insert_eq. split; [by intros (? & [=] & _)|]. intros (pr & [= <-] & [Hf|(n & _ & [Hn|[=]])]).
    + by apply not_elem_of_nil in Hf.
    + by apply not_elem_of_empty in Hn.
  - apply disciplined_update; [done|]. split; simpl; [constructor|done|constructor|done|done].
Qed.

Lemma Crash_winv w p w' : winv w -> step w (Crash p) = Some w' -> winv w'.
Proof.
  intros [Ho Hd]. simpl. destruct (procs w !! p) as [pr|] eqn:Hp; [|done]. intros [= <-]. split.
  - intros f q. simpl. rewrite map_lookup_filter_Some. simpl. rewrite (Ho f q).
    destruct (decide (p = q)) as [<-|Hpq].
    + rewrite lookup_delete_eq. split; [by intros [_ []]|by intros (? & [=] & _)].
    + rewrite lookup_delete_ne by done. split; [by intros [? _]|]. intros Hq. split; [done|]. congruence.
  - simpl. by apply map_Forall_delete.
Qed.

Lemma step_winv w a w' : winv w -> trimmed a -> step w a = Some w' -> winv w'.
Proof.
  intros Hw Ht.
  destruct a; [eapply Spawn_winv|eapply Acquire_winv|eapply Lock_winv|eapply Acquired_winv|eapply Cancel_winv|
    eapply Release_winv|eapply Claim_winv|eapply Unclaim_winv|eapply Probe_winv|eapply Unprobe_winv|
    eapply Crash_winv]; eassumption.
Qed.

Lemma initial_winv : winv initial.
Proof.
  split; [|apply map_Forall_empty]. intros f p. simpl. rewrite lookup_empty. split; [done|].
  intros (pr & Hp & _). by rewrite lookup_empty in Hp.
Qed.

Lemma run_winv w l w' : winv w -> Forall trimmed l -> run w l = Some w' -> winv w'.
Proof.
  intros Hw Hl. revert w Hw. induction Hl as [|a l Ha _ IH]; intros w Hw; simpl; [by intros [= <-]|].
  destruct (step w a) as [w1|] eqn:E; [|done]. simpl. apply IH. by eapply step_winv.
Qed.

(** ** Progress *)

(** The locks that come after [f] and are taken. *)
Definition later (w : world) (f : lockFile) : gset lockFile := filter (before f) (dom (owner w)).

Lemma next_after w p pr f g :
  winv w -> procs w !! p = Some pr -> f ∈ locked pr -> next w p = Some g -> before f g.
Proof.
  intros [_ Hd] Hp Hf. unfold next. rewrite Hp. simpl. pose proof (Hd _ _ Hp) as Hpr.
  unfold locked in Hf. destruct (acquiring pr) as [[paths n]|] eqn:Ha; [simpl|done].
  intros Hn. destruct (d_acquiring pr Hpr paths n Ha) as (Hs & Hb & _).
  apply elem_of_app in Hf as [Hf|Hf]; [|apply Hb; [done|by eapply list_elem_of_lookup_2]].
  rewrite <- (take_drop_middle _ _ _ Hn) in Hs.
  clear -Hs Hf. induction (take n paths) as [|x l IH]; simpl in *; [by apply not_elem_of_nil in Hf|].
  inversion Hs as [|? ? Hs' Hx]; subst. apply elem_of_cons in Hf as [->|Hf]; [|by apply IH].
  rewrite Forall_forall in Hx. apply Hx. apply elem_of_app. right. by left.
Qed.

Lemma next_not_token w p f : winv w -> next w p = Some f -> isToken f = false.
Proof.
  intros [_ Hd]. unfold next. destruct (procs w !! p) as [pr|] eqn:Hp; [simpl|done].
  destruct (acquiring pr) as [[paths n]|] eqn:Ha; [simpl|done]. intros Hn.
  destruct (d_acquiring pr (Hd _ _ Hp) paths n Ha) as (_ & _ & Ht). rewrite Forall_forall in Ht.
  apply Ht. by eapply list_elem_of_lookup_2.
Qed.

Lemma waits_before w p q f g :
  winv w -> next w p = Some f -> owner w !! f = Some q -> next w q = Some g -> before f g.
Proof.
  intros Hw Hf Ho Hg. apply (w_owned w Hw) in Ho as (pr & Hq & [Hl|(n & -> & _)]).
  - by eapply next_after.
  - by apply (next_not_token w p) in Hf.
Qed.

Lemma progress_spec w p f :
  winv w -> next w p = Some f ->
  exists q, rtc (waits w) p q /\ forall g, next w q = Some g -> owner w !! g = None.
Proof.
  intros Hw. remember (size (later w f)) as m eqn:Hm. revert p f Hm.
  induction (lt_wf m) as [m _ IH]. intros p f -> Hf.
  destruct (owner w !! f) as [q|] eqn:Ho.
  2:{ exists p. split; [done|]. intros g Hg. congruence. }
  destruct (next w q) as [g|] eqn:Hg.
  2:{ exists q. split; [|congruence]. apply rtc_once. by exists f. }
  pose proof (waits_before w p q f g Hw Hf Ho Hg) as Hfg.
  destruct (owner w !! g) as [q'|] eqn:Hog.
  2:{ exists q. split; [apply rtc_once; by exists f|]. intros h Hh. congruence. }
  destruct (IH (size (later w g))) with q g as (r & Hr & Hend); [|done|done|].
  - apply subset_size. unfold later. split.
    + intros h. rewrite !elem_of_filter. intros [Hgh Hd]. split; [by eapply before_trans|done].
    + intros Hsub. assert (Hin : g ∈ filter (before f) (dom (owner w))).
      { apply elem_of_filter. split; [done|]. by apply elem_of_dom. }
      apply Hsub, elem_of_filter in Hin as [Hgg _]. by apply before_irrefl in Hgg.
  - exists r. split; [|done]. eapply rtc_l; [|exact Hr]. by exists f.
Qed.

Lemma waits_next w p q : tc (waits w) p q -> exists f, next w p = Some f.
Proof. induction 1 as [p q (f & Hf & _)|p q r (f & Hf & _) _ _]; by exists f. Qed.

Lemma tc_waits_before w p q f g :
  winv w -> tc (waits w) p q -> next w p = Some f -> next w q = Some g -> before f g.
Proof.
  intros Hw Ht. revert f. induction Ht as [p q (f' & Hf' & Ho)|p q r (f' & Hf' & Ho) Ht IH]; intros f Hf Hg;
    assert (f' = f) as -> by congruence.
  - by eapply waits_before.
  - destruct (waits_next w q r Ht) as (h & Hh). eapply before_trans; [|by apply (IH h)].
    by eapply waits_before.
Qed.

(** ** Names and paths *)

Lemma chars_app a b : String.list_ascii_of_string (a +:+ b) =
  String.list_ascii_of_string a ++ String.list_ascii_of_string b.
Proof.
  induction a as [|x a IH]; [done|].
  change (x :: String.list_ascii_of_string (a +:+ b) = x :: (String.list_ascii_of_string a ++ String.list_ascii_of_string b)).
  by rewrite IH.
Qed.

Lemma append_inj_r a b s : a +:+ s = b +:+ s -> a = b.
Proof.
  intros H. apply (f_equal String.list_ascii_of_string) in H. rewrite !chars_app in H.
  apply app_inv_tail in H. apply (f_equal String.string_of_list_ascii) in H.
  by rewrite !String.string_of_list_ascii_of_string in H.
Qed.

Lemma append_assoc a b c : (a +:+ b) +:+ c = a +:+ b +:+ c.
Proof. induction a as [|x a IH]; [done|]. change (String x ((a +:+ b) +:+ c) = String x (a +:+ b +:+ c)). by rewrite IH. Qed.

(** Domains have no slash, and no node is named like another's token. *)
Definition properName (f : lockFile) : Prop :=
  match f with
  | DomainLock key => ContainsAny key [slash] = false
  | NodeLock name => forall m, name <> m +:+ ".op"
  | OperationToken _ => True
  end.

Lemma lockLabel_inj f g : properName f -> properName g -> lockLabel f = lockLabel g -> f = g.
Proof.
  assert (Hdn : forall k n s, ContainsAny k [slash] = false -> k +:+ ".lock" <> "nodes/" +:+ n +:+ s +:+ ".lock").
  { intros k n s Hk H. rewrite <- !append_assoc in H. apply append_inj_r in H. subst k. discriminate. }
  assert (Hnt : forall n m, (forall x, n <> x +:+ ".op") -> "nodes/" +:+ n +:+ ".lock" <> "nodes/" +:+ m +:+ ".op.lock").
  { intros n m Hn H. apply (inj (String.append "nodes/")) in H.
    change ".op.lock" with (".op" +:+ ".lock") in H. rewrite <- append_assoc in H. apply append_inj_r in H.
    by apply (Hn m). }
  destruct f as [k|n|n], g as [k'|n'|n']; simpl properName; unfold lockLabel; intros Hf Hg H.
  - apply append_inj_r in H. by subst.
  - by apply (Hdn k n' "") in H.
  - by apply (Hdn k n' ".op") in H.
  - symmetry in H. by apply (Hdn k' n "") in H.
  - apply (inj (String.append "nodes/")), append_inj_r in H. by subst.
  - by apply Hnt in H.
  - symmetry in H. by apply (Hdn k' n ".op") in H.
  - symmetry in H. by apply Hnt in H.
  - apply (inj (String.append "nodes/")), append_inj_r in H. by subst.
Qed.

Lemma unblocked_acts w p q :
  winv w -> (exists f, next w p = Some f) -> rtc (waits w) p q ->
  (forall g, next w q = Some g -> owner w !! g = None) ->
  exists a w', (a = Lock q \/ a = Acquired q \/ a = Release q) /\ step w a = Some w'.
Proof.
  intros Hw [f Hf] Hr Hfree.
  assert (Hq : exists pr, procs w !! q = Some pr /\ (is_Some (acquiring pr) \/ sets pr <> [])).
  { apply rtc_inv_r in Hr as [<-|(r & _ & g & Hg & Ho)].
    - unfold next in Hf. destruct (procs w !! p) as [pr|]; [|done]. simpl in Hf. exists pr. split; [done|]. left.
      by destruct (acquiring pr).
    - apply (w_owned w Hw) in Ho as (pr & Hq & [Hl|(n & -> & _)]); [|by apply (next_not_token w r) in Hg].
      exists pr. split; [done|]. unfold locked in Hl. destruct (acquiring pr); [by left|]. right.
      intros Hs. rewrite Hs in Hl. by apply not_elem_of_nil in Hl. }
  destruct Hq as (pr & Hq & Hpr). unfold next in Hfree. rewrite Hq in Hfree. simpl in Hfree.
  destruct (acquiring pr) as [[paths n]|] eqn:Ha; simpl in Hfree.
  - destruct (paths !! n) as [g|] eqn:Hn.
    + eexists (Lock q), _. split; [auto|]. simpl. rewrite Hq. simpl. rewrite Ha. simpl. rewrite Hn. simpl.
      unfold Flock. by rewrite (Hfree g eq_refl).
    + eexists (Acquired q), _. split; [auto|]. simpl. rewrite Hq. simpl. rewrite Ha. simpl.
      pose proof (d_count pr (w_disciplined w Hw _ _ Hq) _ _ Ha). apply lookup_ge_None in Hn.
      rewrite (proj2 (Nat.eqb_eq _ _)) by lia. done.
  - destruct Hpr as [[? [=]]|Hs]. destruct (sets pr) as [|files rest] eqn:Es; [done|].
    eexists (Release q), _. split; [auto|]. simpl. rewrite Hq. simpl. by rewrite Ha, Es.
Qed.

(** ** Schedules *)

Module Traces.

(** The seed pass holds its global locks and waits for the node that a metadata
    update holds; a third process waits for the global lock. *)
Definition contended : list action :=
  [Spawn 0; Spawn 1; Spawn 2;
   Acquire 1 [] ["n2"]; Lock 1; Acquired 1;
   Acquire 0 [lockNodes; lockConfigurations; lockNodes] []; Lock 0; Lock 0; Acquired 0;
   Acquire 0 [] ["n2"; "n1"; "n2"]; Lock 0;
   Acquire 2 [lockNodes] ["n1"]; Claim 2 "n1"].

(** One request naming a node twice, once with a space. *)
Definition untrimmed : list action := [Spawn 0; Acquire 0 [] ["n1"; " n1"]; Lock 0].

(** A reader's probe of a node that nobody operates. *)
Definition probed : list action := [Spawn 0; Spawn 1; Probe 0 "n1"].

Definition after (l : list action) : world :=
  match run initial l with Some w => w | None => initial end.

End Traces.

(** A node directory with a space in its name makes the pass that locks every
    node wait for itself. *)
Lemma untrimmed_waits_for_itself :
  run initial Traces.untrimmed = Some (Traces.after Traces.untrimmed) /\
  waits (Traces.after Traces.untrimmed) 0 0.
Proof. split; [by vm_compute|]. exists (NodeLock "n1"). by vm_compute. Qed.

(** While a reader probes, an idle node refuses its lifecycle token. *)
Lemma probe_refuses_token :
  run initial Traces.probed = Some (Traces.after Traces.probed) /\
  tokens <$> procs (Traces.after Traces.probed) !! 0%nat = Some ∅ /\
  tokens <$> procs (Traces.after Traces.probed) !! 1%nat = Some ∅ /\
  tryAcquireNodeOperation 1 "n1" (owner (Traces.after Traces.probed)) = Ok None.
Proof. split_and!; by vm_compute. Qed.

(** ** Properties *)

(** C31: Over every interleaving of processes that acquire lock sets, nest the
    permitted way, claim and probe tokens, give up and die, and whose node
    identities carry no surrounding space ([trimmed]): a lock file is held by at
    most one process and once, a process inside a critical section holds every
    file of its open sets, finishing an acquisition means owning all of it, and
    no lock outlives its holder. *)
Theorem lock_exclusion l w :
  Forall trimmed l -> run initial l = Some w ->
  (forall p q pr qr f, procs w !! p = Some pr -> procs w !! q = Some qr -> holds pr f -> holds qr f -> p = q) /\
  (forall p pr, procs w !! p = Some pr -> NoDup (locked pr) /\
    forall files f, files ∈ sets pr -> f ∈ files -> owner w !! f = Some p) /\
  (forall p pr paths n w', procs w !! p = Some pr -> acquiring pr = Some (paths, n) ->
    step w (Acquired p) = Some w' -> forall f, f ∈ paths -> owner w' !! f = Some p) /\
  (forall f p, owner w !! f = Some p -> is_Some (procs w !! p)).
Proof.
  intros Hl Hr. pose proof (run_winv _ _ _ initial_winv Hl Hr) as Hw.
  assert (Hsets : forall w p pr files f, winv w -> procs w !! p = Some pr -> files ∈ sets pr -> f ∈ files ->
    owner w !! f = Some p).
  { intros w1 p pr files f Hw1 Hp Hfs Hf. apply (w_owned w1 Hw1). exists pr. split; [done|]. left. unfold locked.
    apply elem_of_app. right. by apply (in_sets _ files). }
  split_and!.
  - intros p q pr qr f Hp Hq Hf Hg. assert (owner w !! f = Some p) by (apply (w_owned w Hw); by exists pr).
    assert (owner w !! f = Some q) by (apply (w_owned w Hw); by exists qr). congruence.
  - intros p pr Hp. split; [by apply (w_disciplined w Hw _ _ Hp)|]. eauto.
  - intros p pr paths n w' Hp Ha Hst f Hf. pose proof (step_winv w (Acquired p) w' Hw I Hst) as Hw'.
    simpl in Hst. rewrite Hp in Hst. simpl in Hst. rewrite Ha in Hst. simpl in Hst.
    destruct (n =? length paths)%nat; [|done]. injection Hst as <-.
    eapply (Hsets _ p _ paths f Hw'); [apply lookup_insert_eq|by left|done].
  - intros f p Ho. apply (w_owned w Hw) in Ho as (pr & -> & _). eauto.
Qed.

(** C19: Processes whose node identities carry no surrounding space ([trimmed])
    never deadlock: in every reachable state no process waits, through any chain
    of holders, for itself, and every chain of waiting processes ends with one
    that can take its next lock, finish acquiring or leave its critical section.
    With such a space a process can wait for itself
    ([untrimmed_waits_for_itself]). *)
Theorem lock_progress l w p f :
  Forall trimmed l -> run initial l = Some w -> next w p = Some f ->
  ~ tc (waits w) p p /\
  exists q a w', rtc (waits w) p q /\ (a = Lock q \/ a = Acquired q \/ a = Release q) /\ step w a = Some w'.
Proof.
  intros Hl Hr Hf. pose proof (run_winv _ _ _ initial_winv Hl Hr) as Hw. split.
  - intros Ht. exact (before_irrefl f (tc_waits_before w p p f f Hw Ht Hf Hf)).
  - destruct (progress_spec w p f Hw Hf) as (q & Hq & Hfree).
    destruct (unblocked_acts w p q Hw (ex_intro _ f Hf) Hq Hfree) as (a & w' & Ha & Hst). eauto 6.
Qed.

Lemma lock_exclusion_witness :
  NoDup (locked (default idle (procs (Traces.after Traces.contended) !! 0%nat))) /\
  owner (Traces.after Traces.contended) !! DomainLock lockNodes = Some 0%nat.
Proof.
  destruct (lock_exclusion Traces.contended (Traces.after Traces.contended)) as (_ & H & _).
  - by repeat constructor.
  - by vm_compute.
  - split.
    + destruct (procs (Traces.after Traces.contended) !! 0%nat) as [pr|] eqn:E; [exact (proj1 (H _ _ E))|constructor].
    + by vm_compute.
Defined.

Lemma lock_progress_witness :
  ~ tc (waits (Traces.after Traces.contended)) 0%nat 0%nat /\
  exists q a w', rtc (waits (Traces.after Traces.contended)) 0%nat q /\
    (a = Lock q \/ a = Acquired q \/ a = Release q) /\ step (Traces.after Traces.contended) a = Some w'.
Proof.
  apply (lock_progress Traces.contended _ 0%nat (NodeLock "n2")).
  - by repeat constructor.
  - by vm_compute.
  - by vm_compute.
Defined.
