(* ===== verification/Forwarding.v ===== *)
(** * Dynamic port forwarding

    [internal/codelima/dynamic_forwarding.go] and [forwarding_policy.go]: the
    daemon's table of HTTP routes to guest listeners, the choice of the node
    that owns a bare port, and the durable routing preferences.  Every operation
    is one critical section of the forwarder; peers are opaque identities, and
    sockets, proxies, telemetry and logs are not modelled.  A loop over a Go map
    is a fold over its pairs. *)

From S2P Require Import Prelude GoText.
Local Open Scope Z_scope.

(** ** Parameters of the implementation *)

Definition forwardingRouteGrace : duration := 15 * second.
Definition forwardingStopGrace : duration := 15 * second.
Definition forwardingBackoffInitial : duration := second.
Definition forwardingBackoffMaximum : duration := 30 * second.
Definition forwardingWarnInterval : duration := 30 * second.
Definition forwardingClaimMemory : duration := 2 * minute.
Definition codexLoginCallbackPort : Z := 1455.
Definition routingPolicyLimit : Z := 16777216.

(** ** Data *)

Record Node := {
  ID : string;
  SandboxName : string;
  BootstrapCompleted : bool;
  Status : string;
  Observed : bool;   (* the last runtime observation says running *)
}.

Abbreviation dynamicRouteKey := (string * Z)%type.

Record routeDiscoveryMemory := Memory {
  m_nodeID : string;
  m_discoveredAt : time;
  m_removedAt : time;
}.

Record dynamicForwardingRoute := Route {
  r_nodeID : string;
  r_discoveredAt : time;
  r_seenAt : time;
  r_lapsedAt : time;
  r_lapsed : bool;
  r_peer : option Z;
}.

Record forwardingNodeState := NodeState {
  n_node : Node;
  n_peer : option Z;
  lastHealthyAt : time;
  failures : Z;
  firstFailureAt : time;
  notRunningSince : time;
  routesLapsed : bool;
  backoff : duration;
  backoffUntil : time;
}.

Record dynamicPortServer := PortServer { defaultNode : string; serving : bool }.

(** The routing maps of the forwarder. *)
Record table := {
  pins : gmap Z string;
  restored : gmap dynamicRouteKey routeDiscoveryMemory;
  nodes : gmap string forwardingNodeState;
  routes : gmap dynamicRouteKey dynamicForwardingRoute;
  discovered : gmap dynamicRouteKey routeDiscoveryMemory;
}.

Definition set_pins x t := {| pins := x; restored := restored t; nodes := nodes t; routes := routes t; discovered := discovered t |}.
Definition set_restored x t := {| pins := pins t; restored := x; nodes := nodes t; routes := routes t; discovered := discovered t |}.
Definition set_nodes x t := {| pins := pins t; restored := restored t; nodes := x; routes := routes t; discovered := discovered t |}.
Definition set_routes x t := {| pins := pins t; restored := restored t; nodes := nodes t; routes := x; discovered := discovered t |}.
Definition set_discovered x t := {| pins := pins t; restored := restored t; nodes := nodes t; routes := routes t; discovered := x |}.

Definition freshNode (node : Node) : forwardingNodeState := {|
  n_node := node; n_peer := None; lastHealthyAt := time_zero; failures := 0; firstFailureAt := time_zero;
  notRunningSince := time_zero; routesLapsed := false; backoff := 0; backoffUntil := time_zero |}.

Definition applicationRoutesReady (node : Node) : bool :=
  if negb (BootstrapCompleted node) then false
  else (Status node =? "running")%string || (Status node =? "stopped")%string.

(** ** Removing routes *)

(** [if f.pins[port] == id { delete(f.pins, port) }] *)
Definition dropPin (port : Z) (id : string) (t : table) : table :=
  if bool_decide (pins t !! port = Some id) then set_pins (delete port (pins t)) t else t.

Definition removeRouteLocked (now : time) (t : table) (kr : dynamicRouteKey * dynamicForwardingRoute) : table :=
  let '(key, route) := kr in
  let t := set_discovered (<[key := Memory (r_nodeID route) (r_discoveredAt route) now]> (discovered t)) t in
  let t := dropPin key.2 (r_nodeID route) t in
  set_routes (delete key (routes t)) t.

Definition removeNodeRoutesLocked (nodeID : string) (now : time) (t : table) : table :=
  let t := set_pins (filter (fun v => v.2 <> nodeID) (pins t)) t in
  let t := set_restored (filter (fun v => m_nodeID v.2 <> nodeID) (restored t)) t in
  foldl (removeRouteLocked now) t
    (filter (fun v => r_nodeID v.2 = nodeID) (map_to_list (routes t))).

Definition retireNodeLocked (nodeID : string) (now : time) (t : table) : table :=
  removeNodeRoutesLocked nodeID now (set_nodes (delete nodeID (nodes t)) t).

Definition pruneDiscoveryMemoryLocked (now : time) (t : table) : table :=
  set_discovered
    (filter (fun v => time_is_zero (m_removedAt v.2) = true \/
                      time_sub now (m_removedAt v.2) <= forwardingClaimMemory) (discovered t)) t.

(** ** A successful inventory read *)

Definition presentNodes (inventory : list Node) : gmap string Node :=
  foldl (fun m node => <[ID node := node]> m) ∅ inventory.

(** One saved claim. *)
Definition restoreClaim (present : gmap string Node) (now : time) (t : table)
    (kc : dynamicRouteKey * routeDiscoveryMemory) : table :=
  let '(key, claim) := kc in
  let drop := dropPin key.2 (m_nodeID claim) (set_restored (delete key (restored t)) t) in
  match present !! m_nodeID claim with
  | None => drop
  | Some node =>
      if negb (key.1 =? ToLower (SandboxName node))%string then drop
      else
        let t := match nodes t !! m_nodeID claim with
                 | None => set_nodes (<[m_nodeID claim := freshNode node]> (nodes t)) t
                 | Some _ => t
                 end in
        if applicationRoutesReady node then
          let t := match routes t !! key with
                   | None => set_routes (<[key := Route (ID node) (m_discoveredAt claim) time_zero now true None]> (routes t)) t
                   | Some _ => t
                   end in
          set_restored (delete key (restored t)) t
        else t
  end.

Definition confirmedStopped (s : forwardingNodeState) (now : time) (grace : duration) : bool :=
  if time_is_zero (notRunningSince s) || (time_sub now (notRunningSince s) <? grace) then false
  else match n_peer s with None => true | Some _ => routesLapsed s end.

Definition set_node node since s := {|
  n_node := node; n_peer := n_peer s; lastHealthyAt := lastHealthyAt s; failures := failures s;
  firstFailureAt := firstFailureAt s; notRunningSince := since; routesLapsed := routesLapsed s;
  backoff := backoff s; backoffUntil := backoffUntil s |}.

(** One known node. *)
Definition syncNode (present : gmap string Node) (now : time) (acc : table * list Node)
    (v : string * forwardingNodeState) : table * list Node :=
  let '(t, targets) := acc in
  let '(id, state) := v in
  match present !! id with
  | None => (retireNodeLocked id now t, targets)
  | Some node =>
      let t := if negb (applicationRoutesReady node) then removeNodeRoutesLocked id now t else t in
      if Observed node then
        (set_nodes (<[id := set_node node time_zero state]> (nodes t)) t, targets)
      else
        let since := if time_is_zero (notRunningSince state) then now else notRunningSince state in
        let state := set_node node since state in
        let t := set_nodes (<[id := state]> (nodes t)) t in
        if confirmedStopped state now forwardingStopGrace then (retireNodeLocked id now t, targets)
        else (t, match n_peer state with Some _ => targets ++ [node] | None => targets end)
  end.

(** One running node. *)
Definition admitNode (acc : table * list Node) (v : string * Node) : table * list Node :=
  let '(t, targets) := acc in
  let '(id, node) := v in
  (match nodes t !! id with
   | None => set_nodes (<[id := freshNode node]> (nodes t)) t
   | Some _ => t
   end, targets ++ [node]).

Definition syncMembership (inventory : list Node) (now : time) (t : table) : table * list Node :=
  let present := presentNodes inventory in
  let running := filter (fun v => Observed v.2 = true) present in
  let t := foldl (restoreClaim present now) t (map_to_list (restored t)) in
  let '(t, targets) := foldl (syncNode present now) (t, []) (map_to_list (nodes t)) in
  let '(t, targets) := foldl admitNode (t, targets) (map_to_list running) in
  (pruneDiscoveryMemoryLocked now t, targets).

(** ** A successful scan *)

Definition noteHealthy (now : time) (s : forwardingNodeState) : forwardingNodeState := {|
  n_node := n_node s; n_peer := n_peer s; lastHealthyAt := now; failures := 0; firstFailureAt := time_zero;
  notRunningSince := notRunningSince s; routesLapsed := false; backoff := 0; backoffUntil := time_zero |}.

Definition discoveryTimeLocked (nodeID : string) (key : dynamicRouteKey) (now : time) (t : table) : time * table :=
  let remembered (t : table) :=
    if key.2 =? codexLoginCallbackPort then now
    else
      match discovered t !! key with
      | None => now
      | Some memory =>
          if negb (m_nodeID memory =? nodeID)%string || time_is_zero (m_removedAt memory)
             || (forwardingClaimMemory <? time_sub now (m_removedAt memory))
          then now else m_discoveredAt memory
      end in
  match restored t !! key with
  | Some saved =>
      let t := set_restored (delete key (restored t)) t in
      if (m_nodeID saved =? nodeID)%string then (m_discoveredAt saved, t) else (remembered t, t)
  | None => (remembered t, t)
  end.

(** [setPeer]: a nil peer changes nothing. *)
Definition setPeer (peer : option Z) (r : dynamicForwardingRoute) : dynamicForwardingRoute :=
  match peer with
  | None => r
  | Some p => Route (r_nodeID r) (r_discoveredAt r) (r_seenAt r) (r_lapsedAt r) (r_lapsed r) (Some p)
  end.

Definition refresh (peer : option Z) (now : time) (r : dynamicForwardingRoute) : dynamicForwardingRoute :=
  setPeer peer (Route (r_nodeID r) (r_discoveredAt r) now
                  (if r_lapsed r then time_zero else r_lapsedAt r) false (r_peer r)).

(** One scanned port. *)
Definition scanPort (node : Node) (peer : option Z) (now : time) (t : table) (port : Z) : table :=
  let key := (ToLower (SandboxName node), port) in
  match routes t !! key with
  | Some route => set_routes (<[key := refresh peer now route]> (routes t)) t
  | None =>
      let '(discoveredAt, t) := discoveryTimeLocked (ID node) key now t in
      set_routes (<[key := Route (ID node) discoveredAt now time_zero false peer]> (routes t)) t
  end.

(** One saved claim the scan did not confirm. *)
Definition expireClaim (nodeID : string) (t : table) (kc : dynamicRouteKey * routeDiscoveryMemory) : table :=
  dropPin kc.1.2 nodeID (set_restored (delete kc.1 (restored t)) t).

Definition applyScanResult (node : Node) (peer : option Z) (ports : list Z) (now : time) (t : table) : table :=
  let '(node, t) :=
    match nodes t !! ID node with
    | Some state => (n_node state, set_nodes (<[ID node := noteHealthy now state]> (nodes t)) t)
    | None => (node, t)
    end in
  let ports := if applicationRoutesReady node then ports else [] in
  let wanted : gset dynamicRouteKey := list_to_set (map (fun port => (ToLower (SandboxName node), port)) ports) in
  let t := foldl (scanPort node peer now) t ports in
  let t := foldl (removeRouteLocked now) t
    (filter (fun v => r_nodeID v.2 = ID node /\ v.1 ∉ wanted) (map_to_list (routes t))) in
  foldl (expireClaim (ID node)) t
    (filter (fun v => m_nodeID v.2 = ID node /\ v.1 ∉ wanted) (map_to_list (restored t))).

(** ** Failures and peers *)

Definition nextForwardingBackoff (current : duration) : duration :=
  if current <=? 0 then forwardingBackoffInitial else Z.min (i64 (current * 2)) forwardingBackoffMaximum.

Definition lapse (nodeID : string) (now : time) (r : dynamicForwardingRoute) : dynamicForwardingRoute :=
  if negb (r_nodeID r =? nodeID)%string || r_lapsed r then r
  else Route (r_nodeID r) (r_discoveredAt r) (r_seenAt r) now true (r_peer r).

Definition lapseNodeRoutesLocked (nodeID : string) (now : time) (t : table) : table :=
  set_routes (lapse nodeID now <$> routes t) t.

Definition recordNodeFailure (nodeID : string) (now : time) (t : table) : table :=
  match nodes t !! nodeID with
  | None => t
  | Some s =>
      let failures := i64 (failures s + 1) in
      let first := if time_is_zero (firstFailureAt s) then now else firstFailureAt s in
      let backoff := nextForwardingBackoff (backoff s) in
      let lapse := negb (routesLapsed s) && (2 <=? failures) && (forwardingRouteGrace <=? time_sub now first) in
      let t := if lapse then lapseNodeRoutesLocked nodeID now t else t in
      set_nodes (<[nodeID := {|
        n_node := n_node s; n_peer := if lapse then None else n_peer s; lastHealthyAt := lastHealthyAt s;
        failures := failures; firstFailureAt := first; notRunningSince := notRunningSince s;
        routesLapsed := routesLapsed s || lapse; backoff := backoff; backoffUntil := now + backoff |}]> (nodes t)) t
  end.

Definition set_peer peer s := {|
  n_node := n_node s; n_peer := peer; lastHealthyAt := lastHealthyAt s; failures := failures s;
  firstFailureAt := firstFailureAt s; notRunningSince := notRunningSince s; routesLapsed := routesLapsed s;
  backoff := backoff s; backoffUntil := backoffUntil s |}.

Definition adoptPeer (nodeID : string) (peer : Z) (t : table) : table :=
  match nodes t !! nodeID with
  | None => t
  | Some s =>
      set_routes ((fun r => if (r_nodeID r =? nodeID)%string then setPeer (Some peer) r else r) <$> routes t)
        (set_nodes (<[nodeID := set_peer (Some peer) s]> (nodes t)) t)
  end.

Definition retirePeer (nodeID : string) (t : table) : table :=
  match nodes t !! nodeID with
  | None => t
  | Some s =>
      match n_peer s with
      | None => t
      | Some _ => set_nodes (<[nodeID := set_peer None s]> (nodes t)) t
      end
  end.

(** ** The owner of a bare port *)

Abbreviation routePair := (dynamicRouteKey * dynamicForwardingRoute)%type.

(** The comparison of the selection loop. *)
Definition betterClaim (newest : bool) (a b : routePair) : bool :=
  (if newest then r_discoveredAt b.2 <? r_discoveredAt a.2 else r_discoveredAt a.2 <? r_discoveredAt b.2)
  || ((r_discoveredAt a.2 =? r_discoveredAt b.2) && String.ltb a.1.1 b.1.1).

(** The loop over the routes, in the order the map yields them. *)
Definition claimCandidate (port : Z) (newest includeLapsed : bool) (selected : option routePair) (v : routePair)
    : option routePair :=
  if negb (v.1.2 =? port) || (r_lapsed v.2 && negb includeLapsed) then selected
  else match selected with
       | None => Some v
       | Some s => if betterClaim newest v s then Some v else selected
       end.

Definition selectClaimantLocked (order : list routePair) (port : Z) (newest includeLapsed : bool) : string :=
  match foldl (claimCandidate port newest includeLapsed) None order with
  | None => ""
  | Some v => v.1.1
  end.

Definition preferredClaimantLocked (order : list routePair) (pins : gmap Z string) (port : Z) : string :=
  let pinned :=
    match pins !! port with
    | None => None
    | Some id =>
        if (id =? "")%string then None
        else find (fun v => (v.1.2 =? port) && (r_nodeID v.2 =? id)%string) order
    end in
  match pinned with
  | Some v => v.1.1
  | None =>
      let newest := port =? codexLoginCallbackPort in
      let node := selectClaimantLocked order port newest false in
      if negb (node =? "")%string then node else selectClaimantLocked order port newest true
  end.

(** ** The forwarder *)

Record dynamicForwarder := {
  tbl : table;
  known : gset string;
  servers : gmap Z dynamicPortServer;
  tcpServers : gset Z;
  policyClosed : bool;
  policyHandoff : bool;
  policyPath : string;
  policyErr : option go_error;
  policyWriteErr : string;
  policySaved : bytes;
}.

Definition set_tbl t f := {|
  tbl := t; known := known f; servers := servers f; tcpServers := tcpServers f; policyClosed := policyClosed f;
  policyHandoff := policyHandoff f; policyPath := policyPath f; policyErr := policyErr f;
  policyWriteErr := policyWriteErr f; policySaved := policySaved f |}.
Definition set_known k f := {|
  tbl := tbl f; known := k; servers := servers f; tcpServers := tcpServers f; policyClosed := policyClosed f;
  policyHandoff := policyHandoff f; policyPath := policyPath f; policyErr := policyErr f;
  policyWriteErr := policyWriteErr f; policySaved := policySaved f |}.
Definition set_servers s f := {|
  tbl := tbl f; known := known f; servers := s; tcpServers := tcpServers f; policyClosed := policyClosed f;
  policyHandoff := policyHandoff f; policyPath := policyPath f; policyErr := policyErr f;
  policyWriteErr := policyWriteErr f; policySaved := policySaved f |}.
Definition set_policy closed handoff err f := {|
  tbl := tbl f; known := known f; servers := servers f; tcpServers := tcpServers f; policyClosed := closed;
  policyHandoff := handoff; policyPath := policyPath f; policyErr := err;
  policyWriteErr := policyWriteErr f; policySaved := policySaved f |}.
Definition set_written text saved f := {|
  tbl := tbl f; known := known f; servers := servers f; tcpServers := tcpServers f; policyClosed := policyClosed f;
  policyHandoff := policyHandoff f; policyPath := policyPath f; policyErr := policyErr f;
  policyWriteErr := text; policySaved := saved |}.

Definition emptyTable : table := {| pins := ∅; restored := ∅; nodes := ∅; routes := ∅; discovered := ∅ |}.

Definition newDynamicForwarder (path : string) : dynamicForwarder := {|
  tbl := emptyTable; known := ∅; servers := ∅; tcpServers := ∅; policyClosed := false; policyHandoff := false;
  policyPath := path; policyErr := None; policyWriteErr := ""; policySaved := [] |}.

Definition preferred (t : table) (port : Z) : string :=
  preferredClaimantLocked (map_to_list (routes t)) (pins t) port.

(** The critical section of [syncMembership]; nothing during a handoff. *)
Definition syncSection (inventory : list Node) (now : time) (f : dynamicForwarder) : dynamicForwarder :=
  if policyHandoff f then f
  else
    let t := (syncMembership inventory now (tbl f)).1 in
    set_known (list_to_set (map (fun v => ToLower (SandboxName (n_node v.2))) (map_to_list (nodes t))))
      (set_tbl t f).

Definition scanSection (node : Node) (peer : option Z) (ports : list Z) (now : time) (f : dynamicForwarder)
    : dynamicForwarder :=
  if policyHandoff f then f else set_tbl (applyScanResult node peer ports now (tbl f)) f.

(** ** Host listeners *)

Definition wantedPorts (t : table) : gset Z := list_to_set (map (fun v => v.1.2) (map_to_list (routes t))).

(** One port that some route wants; [listen] tells whether its loopback
    listeners can be opened. *)
Definition openServer (listen : Z -> bool) (f : dynamicForwarder) (s : gmap Z dynamicPortServer) (port : Z)
    : gmap Z dynamicPortServer :=
  if bool_decide (port ∈ tcpServers f) then <[port := PortServer "" false]> s
  else
    match s !! port with
    | Some server => if serving server then s
        else if listen port then <[port := PortServer (preferred (tbl f) port) true]> s
             else <[port := PortServer "" false]> s
    | None => if listen port then <[port := PortServer (preferred (tbl f) port) true]> s
              else <[port := PortServer "" false]> s
    end.

Definition reconcileServers (listen : Z -> bool) (f : dynamicForwarder) : dynamicForwarder :=
  let wanted := wantedPorts (tbl f) in
  let kept := map_imap (fun port server =>
    if bool_decide (port ∈ wanted) && serving server
    then Some (PortServer (preferred (tbl f) port) true)
    else if bool_decide (port ∈ wanted) then Some server else None) (servers f) in
  set_servers (foldl (openServer listen f) kept (elements wanted)) f.

(** ** Requests *)

Inductive response :=
| Misdirected       (* 421 *)
| NotFound          (* 404 *)
| BadGateway        (* 502, retryable *)
| Proxied (peer : option Z).

(** [nodeName] is [nodeNameFromLocalhost] of the request's host and [generic] is
    [isGenericForwardingHost] of it. *)
Definition ServeHTTP (nodeName : option string) (generic : bool) (port : Z) (f : dynamicForwarder) : response :=
  let target :=
    match nodeName with
    | Some node => Some node
    | None =>
        if generic then
          match servers f !! port with
          | Some server => if (defaultNode server =? "")%string then None else Some (defaultNode server)
          | None => None
          end
        else None
    end in
  match target with
  | None => Misdirected
  | Some node =>
      match routes (tbl f) !! (node, port) with
      | None => if bool_decide (node ∈ known f) then NotFound else Misdirected
      | Some route => if r_lapsed route then BadGateway else Proxied (r_peer route)
      end
  end.

(** ** Routing preferences *)

Record routingClaim := {
  c_NodeID : string;
  c_Node : string;
  c_Port : Z;
  c_DiscoveredAt : time;
  c_RemovedAt : time;
}.

Record routingPin := { p_Port : Z; p_NodeID : string }.

Record routingPolicy := { Version : Z; Claims : list routingClaim; Pins : list routingPin }.

#[export] Instance routingPin_eq_dec : EqDecision routingPin.
Proof. solve_decision. Defined.
#[export] Instance routingPin_countable : Countable routingPin.
Proof. by refine (inj_countable' (fun p => (p_Port p, p_NodeID p)) (fun v => {| p_Port := v.1; p_NodeID := v.2 |}) _); intros []. Defined.

Definition claimKey (c : routingClaim) : dynamicRouteKey := (c_Node c, c_Port c).

(** [validSandboxNamePattern] without spaces, and the length. *)
Definition alnum (a : Ascii.ascii) : bool :=
  let n := Z.of_nat (Ascii.nat_of_ascii a) in
  within 48 57 n || within 65 90 n || within 97 122 n.
Definition nameChar (a : Ascii.ascii) : bool :=
  let n := Z.of_nat (Ascii.nat_of_ascii a) in
  alnum a || (n =? 46) || (n =? 95) || (n =? 45).
Definition validateSandboxName (name : string) : bool :=
  match String.list_ascii_of_string name with
  | [] => false
  | a :: l => (zlen (a :: l) <=? 128) && alnum a && forallb nameChar l
  end.

(** The preferred order of the file. *)
Definition claim_le (a b : routingClaim) : Prop :=
  (c_Node a <> c_Node b /\ String.le (c_Node a) (c_Node b)) \/ (c_Node a = c_Node b /\ c_Port a <= c_Port b).
#[export] Instance claim_le_dec : RelDecision claim_le.
Proof. intros a b. unfold claim_le. apply _. Defined.
Definition pin_le (a b : routingPin) : Prop := p_Port a <= p_Port b.
#[export] Instance pin_le_dec : RelDecision pin_le.
Proof. intros a b. unfold pin_le. apply _. Defined.

Definition routeMemory (r : dynamicForwardingRoute) : routeDiscoveryMemory :=
  Memory (r_nodeID r) (r_discoveredAt r) time_zero.

Definition claimOf (v : dynamicRouteKey * routeDiscoveryMemory) : routingClaim := {|
  c_NodeID := m_nodeID v.2; c_Node := v.1.1; c_Port := v.1.2;
  c_DiscoveredAt := m_discoveredAt v.2; c_RemovedAt := m_removedAt v.2 |}.
Definition pinOf (v : Z * string) : routingPin := {| p_Port := v.1; p_NodeID := v.2 |}.

(** Routes over saved claims over remembered ones. *)
Definition currentClaims (t : table) : gmap dynamicRouteKey routeDiscoveryMemory :=
  (routeMemory <$> routes t) ∪ restored t ∪ discovered t.

Definition policyOf (claims : gmap dynamicRouteKey routeDiscoveryMemory) (pins : gmap Z string) : routingPolicy := {|
  Version := 1;
  Claims := merge_sort claim_le (map claimOf (map_to_list claims));
  Pins := merge_sort pin_le (map pinOf (map_to_list pins)) |}.

Definition routingPolicySnapshot (newPins : option (gmap Z string)) (f : dynamicForwarder) : result routingPolicy :=
  match policyErr f with
  | Some e => Err e
  | None => Ok (policyOf (currentClaims (tbl f)) (default (pins (tbl f)) newPins))
  end.

Section Policy.
(** github.com/google/uuid's [Parse] succeeds. *)
Context (uuidParse : string -> bool).
Context (Marshal : routingPolicy -> result bytes) (Unmarshal : bytes -> result routingPolicy).

Fixpoint validateClaims (claims : gset dynamicRouteKey) (active : gset routingPin) (l : list routingClaim)
    : result (gset routingPin) :=
  match l with
  | [] => Ok active
  | claim :: l =>
      if negb (uuidParse (c_NodeID claim)) then Err (ENew "invalid claim node ID")
      else if negb (validateSandboxName (c_Node claim)) || (c_Port claim <? 1024) || (65535 <? c_Port claim)
              || time_is_zero (c_DiscoveredAt claim) || bool_decide (claimKey claim ∈ claims)
      then Err (ENew "invalid or duplicate routing claim")
      else validateClaims ({[claimKey claim]} ∪ claims)
             (if time_is_zero (c_RemovedAt claim)
              then {[ {| p_Port := c_Port claim; p_NodeID := c_NodeID claim |} ]} ∪ active else active) l
  end.

Fixpoint validatePins (active : gset routingPin) (pins : gset Z) (l : list routingPin) : result unit :=
  match l with
  | [] => Ok tt
  | pin :: l =>
      if bool_decide (pin ∉ active) || bool_decide (p_Port pin ∈ pins)
      then Err (ENew "pin has no unique active claim")
      else validatePins active ({[p_Port pin]} ∪ pins) l
  end.

Definition validateRoutingPolicy (saved : routingPolicy) : result unit :=
  if negb (Version saved =? 1) then Err (ENew "unsupported routing preferences version")
  else active ← validateClaims ∅ ∅ (Claims saved); validatePins active ∅ (Pins saved).

(** [readDiagnosticFile]: the bounded content and whether it was cut. *)
Definition readDiagnosticFile (content : bytes) (limit : Z) : bytes * bool :=
  (take (Z.to_nat limit) content, limit <? zlen content).

(** The loops of [loadRoutingPolicy] over the validated file. *)
Definition loadClaim (t : table) (claim : routingClaim) : table :=
  let memory := Memory (c_NodeID claim) (c_DiscoveredAt claim) (c_RemovedAt claim) in
  if time_is_zero (c_RemovedAt claim)
  then set_restored (<[claimKey claim := memory]> (restored t)) t
  else set_discovered (<[claimKey claim := memory]> (discovered t)) t.
Definition loadPin (t : table) (pin : routingPin) : table :=
  set_pins (<[p_Port pin := p_NodeID pin]> (pins t)) t.

(** [disk] is the file's content, or why it cannot be read ([None] when it does
    not exist). *)
Definition loadRoutingPolicy (disk : option (result bytes)) (f : dynamicForwarder) : dynamicForwarder :=
  if (policyPath f =? "")%string then f
  else
    match disk with
    | None => f
    | Some r =>
        let saved :=
          content ← r;
          let '(data, truncated) := readDiagnosticFile content routingPolicyLimit in
          if truncated then Err (ENew "routing preferences exceed the size limit")
          else
            saved ← Unmarshal data;
            _ ← validateRoutingPolicy saved;
            Ok saved in
        match saved with
        | Err e => set_policy (policyClosed f) (policyHandoff f)
                     (Some (ENew ("read routing preferences: " +:+ errorText e))) f
        | Ok saved =>
            set_tbl (foldl loadPin
              (foldl loadClaim (set_pins ∅ (set_restored ∅ (tbl f))) (Claims saved)) (Pins saved)) f
        end
    end.

(** [writeRoutingPolicy] with what the atomic write would do; the result,
    the forwarder and the file it leaves. *)
Definition writeRoutingPolicy (saved : routingPolicy) (io : writeOutcome) (disk : option (result bytes))
    (f : dynamicForwarder) : result unit * dynamicForwarder * option (result bytes) :=
  if (policyPath f =? "")%string then (Ok tt, set_written "" (policySaved f) f, disk)
  else
    let failed e := (Err e, set_written (errorText e) (policySaved f) f, disk) in
    match Marshal saved with
    | Err e => failed e
    | Ok data =>
        if routingPolicyLimit <? zlen data then failed (ENew "routing preferences exceed the size limit")
        else if bool_decide (data = policySaved f) then (Ok tt, set_written "" (policySaved f) f, disk)
        else
          let wrapped e := ENew ("save routing preferences: " +:+ errorText e) in
          let written := Some (Ok (data ++ [10])) in
          match io with
          | NotWritten e => failed (wrapped e)
          | Unsynced e =>
              (Err (wrapped e), set_written (errorText (wrapped e)) (policySaved f) f, written)
          | Written => (Ok tt, set_written "" data f, written)
          end
    end.

Definition persistRoutingPolicy (io : writeOutcome) (disk : option (result bytes)) (f : dynamicForwarder)
    : result unit * dynamicForwarder * option (result bytes) :=
  if policyClosed f then (Ok tt, f, disk)
  else
    match routingPolicySnapshot None f with
    | Err e => (Err e, f, disk)
    | Ok saved => writeRoutingPolicy saved io disk f
    end.

Definition unavailable : go_error := EApp "Unavailable" "port forwarding is shutting down" 3.

Definition prepareRoutingHandoff (io : writeOutcome) (disk : option (result bytes)) (f : dynamicForwarder)
    : result unit * dynamicForwarder * option (result bytes) :=
  if policyClosed f then (Err unavailable, f, disk)
  else
    match routingPolicySnapshot None f with
    | Err e => (Err e, f, disk)
    | Ok saved =>
        match writeRoutingPolicy saved io disk f with
        | (Err e, f, disk) => (Err e, f, disk)
        | (Ok _, f, disk) => (Ok tt, set_policy (policyClosed f) true (policyErr f) f, disk)
        end
    end.

Definition resumeRoutingAfterHandoff (f : dynamicForwarder) : dynamicForwarder :=
  set_policy (policyClosed f) false (policyErr f) f.

Definition pinBarePort (nodeID : string) (port : Z) (io : writeOutcome) (disk : option (result bytes))
    (f : dynamicForwarder) : result unit * dynamicForwarder * option (result bytes) :=
  if policyClosed f then (Err unavailable, f, disk)
  else
    let key := find (fun v => (r_nodeID v.2 =? nodeID)%string && (v.1.2 =? port)) (map_to_list (routes (tbl f))) in
    let available :=
      match key, servers f !! port with
      | Some v, Some server => negb (v.1.1 =? "")%string && serving server
      | _, _ => false
      end in
    if negb available then
      (Err (preconditionFailed "the selected HTTP route is no longer available; refresh Ports"), f, disk)
    else
      let newPins := <[port := nodeID]> (pins (tbl f)) in
      match routingPolicySnapshot (Some newPins) f with
      | Err e => (Err e, f, disk)
      | Ok saved =>
          match writeRoutingPolicy saved io disk f with
          | (Err e, f, disk) => (Err e, f, disk)
          | (Ok _, f, disk) =>
              let t := set_pins newPins (tbl f) in
              (Ok tt,
               set_servers
                 (alter (fun server => PortServer (preferred t port) (serving server)) port (servers f))
                 (set_tbl t f), disk)
          end
      end.

(** ** Steps

    The critical sections the daemon interleaves: [Scan] is reached only for a
    node the last inventory read admitted, [Load] only before the first. *)

Inductive action :=
| Load
| Sync (inventory : list Node) (now : time)
| Scan (node : Node) (peer : option Z) (ports : list Z) (now : time)
| Fail (nodeID : string) (now : time)
| Adopt (nodeID : string) (peer : Z)
| Retire (nodeID : string)
| Servers (listen : Z -> bool)
| Pin (nodeID : string) (port : Z) (io : writeOutcome)
| Persist (io : writeOutcome)
| Freeze (io : writeOutcome)
| Resume
| CloseForwarder (io : writeOutcome).

(** Nothing was discovered or restored yet. *)
Definition unstarted (t : table) : bool :=
  bool_decide (dom (pins t) = ∅) && bool_decide (dom (restored t) = ∅) && bool_decide (dom (nodes t) = ∅)
  && bool_decide (dom (routes t) = ∅) && bool_decide (dom (discovered t) = ∅).

Definition world : Type := dynamicForwarder * option (result bytes).

Definition step (w : world) (a : action) : option world :=
  let '(f, disk) := w in
  match a with
  | Load =>
      if unstarted (tbl f) && negb (policyClosed f) then Some (loadRoutingPolicy disk f, disk) else None
  | Sync inventory now => if policyClosed f then None else Some (syncSection inventory now f, disk)
  | Scan node peer ports now =>
      if bool_decide (is_Some (nodes (tbl f) !! ID node)) && negb (policyClosed f)
      then Some (scanSection node peer ports now f, disk) else None
  | Fail nodeID now => Some (set_tbl (recordNodeFailure nodeID now (tbl f)) f, disk)
  | Adopt nodeID peer => Some (set_tbl (adoptPeer nodeID peer (tbl f)) f, disk)
  | Retire nodeID => Some (set_tbl (retirePeer nodeID (tbl f)) f, disk)
  | Servers listen => Some (reconcileServers listen f, disk)
  | Pin nodeID port io => let '(_, f, disk) := pinBarePort nodeID port io disk f in Some (f, disk)
  | Persist io => let '(_, f, disk) := persistRoutingPolicy io disk f in Some (f, disk)
  | Freeze io => let '(_, f, disk) := prepareRoutingHandoff io disk f in Some (f, disk)
  | Resume => Some (resumeRoutingAfterHandoff f, disk)
  | CloseForwarder io =>
      let '(_, f, disk) := persistRoutingPolicy io disk f in
      let f := set_policy true (policyHandoff f) (policyErr f) f in
      Some (set_servers ∅ (set_tbl (set_routes ∅ (set_nodes ∅ (tbl f))) f), disk)
  end.

Fixpoint run (w : world) (l : list action) : option world :=
  match l with [] => Some w | a :: l => w ← step w a; run w l end.
End Policy.
