(* ===== verification/ForwardingInvariant.v ===== *)
(** * The invariant of the forwarding table

    What every critical section of [Forwarding] keeps: claims that pass the
    file's validation and pins that name an active claim. *)

From S2P Require Import Prelude GoText Forwarding.
Local Open Scope Z_scope.

(** ** Removing a list of routes *)

Lemma dropPin_other t port id :
  restored (dropPin port id t) = restored t /\ nodes (dropPin port id t) = nodes t /\
  routes (dropPin port id t) = routes t /\ discovered (dropPin port id t) = discovered t.
Proof. unfold dropPin. by case_bool_decide. Qed.

Lemma dropPin_lookup t port id q i :
  pins (dropPin port id t) !! q = Some i <-> pins t !! q = Some i /\ (q <> port \/ i <> id).
Proof.
  unfold dropPin. case_bool_decide as H; simpl.
  - rewrite lookup_delete_Some. split; [intros [? ?]; auto|]. intros [Hq [|Hi]]; [auto|].
    split; [|done]. intros ->. congruence.
  - split; [|by intros [? _]]. intros Hq. split; [done|]. destruct (decide (q = port)) as [->|]; [|auto].
    right. congruence.
Qed.

Section Removal.
Context (now : time).

Lemma removeRoute_routes t kr : routes (removeRouteLocked now t kr) = delete kr.1 (routes t).
Proof. destruct kr as [key r]. simpl. by rewrite (proj1 (proj2 (proj2 (dropPin_other _ _ _)))). Qed.
Lemma removeRoute_restored t kr : restored (removeRouteLocked now t kr) = restored t.
Proof. destruct kr as [key r]. simpl. by rewrite (proj1 (dropPin_other _ _ _)). Qed.
Lemma removeRoute_nodes t kr : nodes (removeRouteLocked now t kr) = nodes t.
Proof. destruct kr as [key r]. simpl. by rewrite (proj1 (proj2 (dropPin_other _ _ _))). Qed.
Lemma removeRoute_discovered t kr :
  discovered (removeRouteLocked now t kr) =
  <[kr.1 := Memory (r_nodeID kr.2) (r_discoveredAt kr.2) now]> (discovered t).
Proof. destruct kr as [key r]. simpl. by rewrite (proj2 (proj2 (proj2 (dropPin_other _ _ _)))). Qed.
Lemma removeRoute_pins t kr q i :
  pins (removeRouteLocked now t kr) !! q = Some i <->
  pins t !! q = Some i /\ (q <> kr.1.2 \/ i <> r_nodeID kr.2).
Proof. destruct kr as [key r]. simpl. by rewrite dropPin_lookup. Qed.

Lemma removeAll_restored t l : restored (foldl (removeRouteLocked now) t l) = restored t.
Proof. revert t. induction l as [|kr l IH]; intros t; cbn [foldl]; [done|]. by rewrite IH, removeRoute_restored. Qed.
Lemma removeAll_nodes t l : nodes (foldl (removeRouteLocked now) t l) = nodes t.
Proof. revert t. induction l as [|kr l IH]; intros t; cbn [foldl]; [done|]. by rewrite IH, removeRoute_nodes. Qed.
Lemma removeAll_routes t l key :
  routes (foldl (removeRouteLocked now) t l) !! key = if decide (key ∈ l.*1) then None else routes t !! key.
Proof.
  revert t. induction l as [|kr l IH]; intros t; cbn [foldl]; [done|].
  rewrite IH, removeRoute_routes. change ((kr :: l).*1) with (kr.1 :: l.*1).
  destruct (decide (key = kr.1)) as [->|Hne].
  - rewrite lookup_delete_eq. repeat case_decide; set_solver.
  - rewrite lookup_delete_ne by done. repeat case_decide; set_solver.
Qed.
Lemma removeAll_pins t l q i :
  pins (foldl (removeRouteLocked now) t l) !! q = Some i <->
  pins t !! q = Some i /\ forall kr, kr ∈ l -> q <> kr.1.2 \/ i <> r_nodeID kr.2.
Proof.
  revert t. induction l as [|kr l IH]; intros t; cbn [foldl].
  - split; [intros H; split; [done|set_solver]|by intros [? _]].
  - rewrite IH, removeRoute_pins. setoid_rewrite elem_of_cons. split.
    + intros [[H1 H2] H3]. split; [done|]. intros kr' [->|]; auto.
    + intros [H1 H2]. split; [split; [done|]|]; auto.
Qed.
Lemma removeAll_discovered t l key m :
  discovered (foldl (removeRouteLocked now) t l) !! key = Some m ->
  discovered t !! key = Some m \/
  exists r, (key, r) ∈ l /\ m = Memory (r_nodeID r) (r_discoveredAt r) now.
Proof.
  revert t. induction l as [|kr l IH]; intros t; cbn [foldl]; [auto|]. intros H.
  apply IH in H as [H|(r & Hr & ->)]; [|right; exists r; split; [by right|done]].
  rewrite removeRoute_discovered in H. apply lookup_insert_Some in H as [[<- <-]|[_ H]]; [|auto].
  right. exists kr.2. split; [|done]. destruct kr. left.
Qed.
End Removal.

(** ** Valid tables *)

Section Valid.
Context (uuidParse : string -> bool).

Definition validEntry (key : dynamicRouteKey) (id : string) (discoveredAt : time) : Prop :=
  uuidParse id = true /\ validateSandboxName key.1 = true /\ 1024 <= key.2 <= 65535 /\ discoveredAt <> time_zero.
Definition validRoute (key : dynamicRouteKey) (r : dynamicForwardingRoute) : Prop :=
  validEntry key (r_nodeID r) (r_discoveredAt r).
Definition validMemory (key : dynamicRouteKey) (m : routeDiscoveryMemory) : Prop :=
  validEntry key (m_nodeID m) (m_discoveredAt m).
Definition validNode (node : Node) : Prop :=
  uuidParse (ID node) = true /\ validateSandboxName (SandboxName node) = true.

(** A live route or a restored claim of the node on the port. *)
Definition claimed (t : table) (key : dynamicRouteKey) (id : string) : Prop :=
  (exists r, routes t !! key = Some r /\ r_nodeID r = id) \/
  (routes t !! key = None /\ exists m, restored t !! key = Some m /\ m_nodeID m = id).

Record tinv (t : table) : Prop := {
  ti_routes : map_Forall validRoute (routes t);
  ti_restored : map_Forall (fun key m => validMemory key m /\ m_removedAt m = time_zero) (restored t);
  ti_discovered : map_Forall (fun key m => validMemory key m /\ m_removedAt m <> time_zero) (discovered t);
  ti_pins : forall port id, pins t !! port = Some id -> exists name, claimed t (name, port) id;
  ti_nodes : map_Forall (fun id s => validNode (n_node s) /\ ID (n_node s) = id) (nodes t);
}.

(** Fewer pins, and the rest as it was. *)
Lemma tinv_fewer t t' :
  tinv t -> restored t' = restored t -> nodes t' = nodes t -> routes t' = routes t -> discovered t' = discovered t ->
  (forall port id, pins t' !! port = Some id -> pins t !! port = Some id) -> tinv t'.
Proof.
  intros [H1 H2 H3 H4 H5] E1 E2 E3 E4 Hp. split; rewrite ?E1, ?E2, ?E3, ?E4; try done.
  intros port id Hpin. destruct (H4 port id (Hp _ _ Hpin)) as (name & Hc). exists name.
  unfold claimed in *. by rewrite E1, E3.
Qed.

Lemma tinv_removeAll now t l :
  now <> time_zero -> tinv t -> (forall kr, kr ∈ l -> routes t !! kr.1 = Some kr.2) ->
  tinv (foldl (removeRouteLocked now) t l).
Proof.
  intros Hnow [H1 H2 H3 H4 H5] Hl. split.
  - intros key r. rewrite removeAll_routes. case_decide; [done|apply H1].
  - by rewrite removeAll_restored.
  - intros key m Hm. apply removeAll_discovered in Hm as [Hm|(r & Hr & ->)]; [by apply H3|].
    apply Hl in Hr. simpl in Hr. split; [exact (H1 key r Hr)|done].
  - intros port id Hp. apply removeAll_pins in Hp as [Hp Hno]. destruct (H4 port id Hp) as (name & Hc).
    exists name. unfold claimed. rewrite removeAll_routes, removeAll_restored. case_decide as Hin.
    + apply list_elem_of_fmap in Hin as ([key r] & He & Hin). simpl in He. subst key.
      pose proof (Hl _ Hin) as Hr. simpl in Hr. exfalso.
      destruct Hc as [(r' & Hr' & Hid)|(Hnone & _)]; [|congruence].
      destruct (Hno _ Hin) as [Hne|Hne]; simpl in Hne; [done|congruence].
    + exact Hc.
  - by rewrite removeAll_nodes.
Qed.

Lemma routes_pair (P : dynamicRouteKey * dynamicForwardingRoute -> Prop) `{!forall v, Decision (P v)} t kr :
  kr ∈ filter P (map_to_list (routes t)) -> routes t !! kr.1 = Some kr.2.
Proof. intros [_ Hin]%list_elem_of_filter. destruct kr. by apply elem_of_map_to_list in Hin. Qed.

Lemma tinv_removeNodeRoutes nodeID now t :
  now <> time_zero -> tinv t -> tinv (removeNodeRoutesLocked nodeID now t).
Proof.
  intros Hnow [H1 H2 H3 H4 H5]. unfold removeNodeRoutesLocked. apply tinv_removeAll; [done| |].
  - split; simpl; [done| |done| |done].
    + intros key m Hm. apply map_lookup_filter_Some in Hm as [Hm _]. by apply H2.
    + intros port id Hp. apply map_lookup_filter_Some in Hp as [Hp Hne]. simpl in Hne.
      destruct (H4 port id Hp) as (name & [Hr|(Hn & m & Hm & Hid)]); exists name; [by left|right].
      split; [done|]. exists m. split; [|done]. apply map_lookup_filter_Some. simpl. split; [done|congruence].
  - intros kr Hk. simpl in Hk. exact (routes_pair _ t kr Hk).
Qed.

Lemma tinv_set_nodes t n :
  tinv t -> map_Forall (fun id s => validNode (n_node s) /\ ID (n_node s) = id) n -> tinv (set_nodes n t).
Proof. intros [H1 H2 H3 H4 H5] Hn. by split. Qed.

Lemma tinv_retireNode nodeID now t : now <> time_zero -> tinv t -> tinv (retireNodeLocked nodeID now t).
Proof.
  intros Hnow Ht. apply tinv_removeNodeRoutes; [done|]. apply tinv_set_nodes; [done|].
  by apply map_Forall_delete, (ti_nodes t Ht).
Qed.

Lemma tinv_prune now t : tinv t -> tinv (pruneDiscoveryMemoryLocked now t).
Proof.
  intros [H1 H2 H3 H4 H5]. split; simpl; try done.
  intros key m Hm. apply map_lookup_filter_Some in Hm as [Hm _]. by apply H3.
Qed.

(** ** Saved claims *)

(** Dropping a saved claim together with its pin. *)
Lemma tinv_dropClaim t key m :
  tinv t -> restored t !! key = Some m ->
  tinv (dropPin key.2 (m_nodeID m) (set_restored (delete key (restored t)) t)).
Proof.
  intros [H1 H2 H3 H4 H5] Hm.
  set (t1 := set_restored (delete key (restored t)) t).
  pose proof (dropPin_other t1 key.2 (m_nodeID m)) as (E1 & E2 & E3 & E4).
  split; rewrite ?E1, ?E2, ?E3, ?E4; try done.
  - simpl. by apply map_Forall_delete.
  - intros port id Hp. apply dropPin_lookup in Hp as [Hp Hne]. simpl in Hp.
    destruct (H4 port id Hp) as (name & Hc). exists name. unfold claimed. rewrite E1, E3. simpl.
    destruct Hc as [Hc|(Hn & m' & Hm' & Hid)]; [by left|]. right. split; [done|]. exists m'. split; [|done].
    rewrite lookup_delete_ne; [done|]. intros ->. simpl in Hne. assert (m' = m) as -> by congruence.
    by destruct Hne.
Qed.

(** Turning a saved claim into a route of the same node, if none is there. *)
Lemma tinv_adoptClaim t key m r :
  tinv t -> restored t !! key = Some m -> validRoute key r -> r_nodeID r = m_nodeID m ->
  tinv (set_restored (delete key (restored t))
    (match routes t !! key with None => set_routes (<[key := r]> (routes t)) t | Some _ => t end)).
Proof.
  intros [H1 H2 H3 H4 H5] Hm Hv Hid. destruct (routes t !! key) as [r'|] eqn:Er; split; simpl; try done.
  - by apply map_Forall_delete.
  - intros port id Hp. destruct (H4 port id Hp) as (name & [Hc|(Hn & m' & Hm' & Hi)]); exists name; [by left|right].
    split; [done|]. exists m'. simpl. rewrite lookup_delete_ne; [done|]. intros ->. congruence.
  - by apply map_Forall_insert_2.
  - by apply map_Forall_delete.
  - intros port id Hp. destruct (H4 port id Hp) as (name & Hc). exists name. unfold claimed. simpl.
    destruct (decide (key = (name, port))) as [->|Hne].
    + left. exists r. rewrite lookup_insert_eq. split; [done|].
      destruct Hc as [(r' & Hr' & _)|(_ & m' & Hm' & <-)]; congruence.
    + rewrite lookup_insert_ne, lookup_delete_ne by done. exact Hc.
Qed.

Lemma tinv_restoreClaim present now t key m :
  now <> time_zero -> map_Forall (fun id node => validNode node /\ ID node = id) present ->
  tinv t -> restored t !! key = Some m -> tinv (restoreClaim present now t (key, m)).
Proof.
  intros Hnow Hpres Ht Hm. unfold restoreClaim.
  destruct (present !! m_nodeID m) as [node|] eqn:Ep; [|by apply tinv_dropClaim].
  destruct (negb _); [by apply tinv_dropClaim|]. destruct (Hpres _ _ Ep) as [Hnode Hid].
  set (t1 := match nodes t !! m_nodeID m with None => _ | Some _ => t end).
  assert (Ht1 : tinv t1 /\ restored t1 = restored t /\ routes t1 = routes t).
  { unfold t1. destruct (nodes t !! m_nodeID m); [done|]. split; [|done]. apply tinv_set_nodes; [done|].
    apply map_Forall_insert_2; [done|apply Ht]. }
  destruct Ht1 as (Ht1 & E1 & E2). destruct (applicationRoutesReady node); [|done].
  destruct (ti_restored t Ht key m Hm) as [Hv _].
  assert (Hr : restored (match routes t1 !! key with
    | None => set_routes (<[key := Route (ID node) (m_discoveredAt m) time_zero now true None]> (routes t1)) t1
    | Some _ => t1 end) = restored t1) by by destruct (routes t1 !! key).
  rewrite Hr. apply (tinv_adoptClaim t1 key m); [done|by rewrite E1| |done].
  unfold validRoute. simpl. by rewrite Hid.
Qed.

(** What handling one saved claim leaves of the others. *)
Lemma restoreClaim_restored present now t key m :
  restored (restoreClaim present now t (key, m)) = delete key (restored t) \/
  (restored (restoreClaim present now t (key, m)) = restored t /\
   is_Some (nodes (restoreClaim present now t (key, m)) !! m_nodeID m) /\
   exists node, present !! m_nodeID m = Some node /\ applicationRoutesReady node = false).
Proof.
  unfold restoreClaim. destruct (present !! m_nodeID m) as [node|] eqn:Ep.
  2:{ left. by rewrite (proj1 (dropPin_other _ _ _)). }
  destruct (negb _). { left. by rewrite (proj1 (dropPin_other _ _ _)). }
  set (t1 := match nodes t !! m_nodeID m with None => _ | Some _ => t end).
  assert (E : restored t1 = restored t /\ is_Some (nodes t1 !! m_nodeID m)).
  { unfold t1. destruct (nodes t !! m_nodeID m) eqn:En; [split; [done|by rewrite En]|]. simpl.
    split; [done|]. rewrite lookup_insert_eq. eauto. }
  destruct E as [E1 E2]. destruct (applicationRoutesReady node) eqn:Er.
  - left. simpl. destruct (routes t1 !! key); simpl; by rewrite E1.
  - right. split; [done|]. split; [done|]. by exists node.
Qed.

Lemma restoreClaim_nodes present now t kc id :
  is_Some (nodes t !! id) -> is_Some (nodes (restoreClaim present now t kc) !! id).
Proof.
  destruct kc as [key m]. unfold restoreClaim. intros Hi.
  destruct (present !! m_nodeID m) as [node|]; [|by rewrite (proj1 (proj2 (dropPin_other _ _ _)))].
  destruct (negb _); [by rewrite (proj1 (proj2 (dropPin_other _ _ _)))|].
  set (t1 := match nodes t !! m_nodeID m with None => _ | Some _ => t end).
  assert (is_Some (nodes t1 !! id)).
  { unfold t1. destruct (nodes t !! m_nodeID m); [done|]. simpl.
    destruct (decide (m_nodeID m = id)) as [->|]; [rewrite lookup_insert_eq; eauto|by rewrite lookup_insert_ne]. }
  destruct (applicationRoutesReady node); [simpl; by destruct (routes t1 !! key)|done].
Qed.

(** The claims still saved after the loop belong to known nodes that are not
    ready. *)
Definition unready (present : gmap string Node) (t : table) : Prop :=
  map_Forall (fun _ m => is_Some (nodes t !! m_nodeID m) /\
    exists node, present !! m_nodeID m = Some node /\ applicationRoutesReady node = false) (restored t).

Lemma restoreClaims_spec present now l t :
  now <> time_zero -> map_Forall (fun id node => validNode node /\ ID node = id) present ->
  NoDup l.*1 -> tinv t -> (forall v, v ∈ l -> restored t !! v.1 = Some v.2) ->
  (forall key m, restored t !! key = Some m -> (key, m) ∈ l \/
     (is_Some (nodes t !! m_nodeID m) /\
      exists node, present !! m_nodeID m = Some node /\ applicationRoutesReady node = false)) ->
  tinv (foldl (restoreClaim present now) t l) /\ unready present (foldl (restoreClaim present now) t l).
Proof.
  intros Hnow Hpres. revert t. induction l as [|[key m] l IH]; intros t Hnd Ht Hl Hrest; cbn [foldl].
  - split; [done|]. intros key m Hm. destruct (Hrest key m Hm) as [Hin|]; [by apply not_elem_of_nil in Hin|done].
  - inversion Hnd as [|? ? Hk Hnd']; subst.
    pose proof (Hl (key, m) ltac:(left)) as Hm. simpl in Hm.
    pose proof (restoreClaim_restored present now t key m) as Hr. apply IH; [done| | |].
    + by apply tinv_restoreClaim.
    + intros [key' m'] Hin. cbn [fst snd]. assert (key' <> key).
      { intros ->. apply Hk. apply list_elem_of_fmap. by exists (key, m'). }
      pose proof (Hl (key', m') ltac:(by right)) as Hm'. simpl in Hm'.
      destruct Hr as [->|(-> & _)]; [by rewrite lookup_delete_ne|done].
    + intros key' m' Hm'. destruct Hr as [E|(E & Hn & Hp)]; rewrite E in Hm'.
      * apply lookup_delete_Some in Hm' as [Hne Hm']. destruct (Hrest key' m' Hm') as [Hin|(Hs & Hx)].
        { left. apply elem_of_cons in Hin as [[= -> _]|Hin]; [done|exact Hin]. }
        right. split; [by apply restoreClaim_nodes|done].
      * destruct (decide (key' = key)) as [->|Hne].
        { assert (m' = m) as -> by congruence. right. split; [exact Hn|exact Hp]. }
        destruct (Hrest key' m' Hm') as [Hin|(Hs & Hx)].
        { left. apply elem_of_cons in Hin as [[= -> _]|Hin]; [done|exact Hin]. }
        right. split; [by apply restoreClaim_nodes|done].
Qed.

(** ** Known and running nodes *)

Lemma removeNodeRoutes_nodes id now t : nodes (removeNodeRoutesLocked id now t) = nodes t.
Proof. unfold removeNodeRoutesLocked. by rewrite removeAll_nodes. Qed.

Lemma removeNodeRoutes_restored id now t :
  restored (removeNodeRoutesLocked id now t) = filter (fun v => m_nodeID v.2 <> id) (restored t).
Proof. unfold removeNodeRoutesLocked. by rewrite removeAll_restored. Qed.

Lemma tinv_syncNode present now acc id s :
  now <> time_zero -> map_Forall (fun id node => validNode node /\ ID node = id) present ->
  tinv acc.1 -> tinv (syncNode present now acc (id, s)).1.
Proof.
  destruct acc as [t targets]. cbn [fst]. intros Hnow Hpres Ht. unfold syncNode.
  destruct (present !! id) as [node|] eqn:Ep; [|by apply tinv_retireNode].
  destruct (Hpres _ _ Ep) as [Hv Hid].
  set (t1 := if negb (applicationRoutesReady node) then _ else t).
  assert (Ht1 : tinv t1) by (unfold t1; destruct (negb _); [by apply tinv_removeNodeRoutes|done]).
  assert (Hset : forall s', n_node s' = node -> tinv (set_nodes (<[id := s']> (nodes t1)) t1)).
  { intros s' Hs'. apply tinv_set_nodes; [done|]. apply map_Forall_insert_2; [by rewrite Hs'|apply Ht1]. }
  destruct (Observed node); [by apply Hset|]. destruct (confirmedStopped _ _ _); [|by apply Hset].
  apply tinv_retireNode; [done|by apply Hset].
Qed.

Lemma retireNode_restored id now t :
  restored (retireNodeLocked id now t) = filter (fun v => m_nodeID v.2 <> id) (restored t).
Proof. unfold retireNodeLocked. by rewrite removeNodeRoutes_restored. Qed.

(** A known node that is not ready loses its saved claims. *)
Lemma syncNode_restored present now acc id s key m :
  restored (syncNode present now acc (id, s)).1 !! key = Some m ->
  restored acc.1 !! key = Some m /\
  (m_nodeID m = id -> exists node, present !! id = Some node /\ applicationRoutesReady node = true).
Proof.
  destruct acc as [t targets]. unfold syncNode. cbn [fst].
  assert (Hret : forall t', restored (retireNodeLocked id now t') !! key = Some m ->
    restored t' !! key = Some m /\ m_nodeID m <> id).
  { intros t'. rewrite retireNode_restored. intros [? ?]%map_lookup_filter_Some. done. }
  destruct (present !! id) as [node|] eqn:Ep.
  2:{ cbn [fst]. intros [? ?]%Hret. split; [done|]. done. }
  set (t1 := if negb (applicationRoutesReady node) then _ else t).
  assert (Ht1' : restored t1 !! key = Some m -> restored t !! key = Some m /\
    (m_nodeID m = id -> exists node', Some node = Some node' /\ applicationRoutesReady node' = true)).
  { unfold t1. destruct (applicationRoutesReady node) eqn:Er; cbn [negb].
    - intros H. split; [done|]. intros _. by exists node.
    - rewrite removeNodeRoutes_restored. intros [? ?]%map_lookup_filter_Some. split; [done|]. done. }
  destruct (Observed node); [exact Ht1'|]. destruct (confirmedStopped _ _ _); cbn [fst]; [|exact Ht1'].
  intros [H Hne]%Hret. simpl in H. split; [by apply Ht1' in H as [? _]|done].
Qed.

Lemma syncNodes_spec present now l acc :
  now <> time_zero -> map_Forall (fun id node => validNode node /\ ID node = id) present ->
  tinv acc.1 ->
  let acc' := foldl (syncNode present now) acc l in
  tinv acc'.1 /\
  forall key m, restored acc'.1 !! key = Some m -> restored acc.1 !! key = Some m /\
    (m_nodeID m ∈ l.*1 -> exists node, present !! m_nodeID m = Some node /\ applicationRoutesReady node = true).
Proof.
  intros Hnow Hpres. revert acc. induction l as [|[id s] l IH]; intros acc Ht; cbn [foldl].
  - split; [done|]. intros key m Hm. split; [done|]. intros Hin. by apply not_elem_of_nil in Hin.
  - destruct (IH (syncNode present now acc (id, s))) as [Ht' Hrest]; [by apply tinv_syncNode|].
    split; [exact Ht'|]. intros key m Hm. apply Hrest in Hm as [Hm Hin].
    apply syncNode_restored in Hm as [Hm Hid]. split; [done|].
    change (((id, s) :: l).*1) with (id :: l.*1). rewrite elem_of_cons. intros [He|He]; [|auto].
    rewrite He. by apply Hid.
Qed.

Lemma admitNodes_spec l acc :
  Forall (fun v => validNode v.2 /\ ID v.2 = v.1) l -> tinv acc.1 ->
  tinv (foldl admitNode acc l).1 /\ restored (foldl admitNode acc l).1 = restored acc.1 /\
  routes (foldl admitNode acc l).1 = routes acc.1.
Proof.
  intros Hl. revert acc. induction Hl as [|[id node] l [Hv Hid] _ IH]; intros [t targets] Ht; cbn [foldl]; [done|].
  cbn [fst] in *. destruct (IH (admitNode (t, targets) (id, node))) as (H1 & H2 & H3).
  { unfold admitNode. cbn [fst]. destruct (nodes t !! id); [done|]. apply tinv_set_nodes; [done|].
    apply map_Forall_insert_2; [done|apply Ht]. }
  split; [exact H1|]. rewrite H2, H3. unfold admitNode. cbn [fst]. by destruct (nodes t !! id).
Qed.

Lemma presentNodes_valid inventory :
  Forall validNode inventory -> map_Forall (fun id node => validNode node /\ ID node = id) (presentNodes inventory).
Proof.
  unfold presentNodes. intros Hl.
  assert (H : forall m : gmap string Node, map_Forall (fun id node => validNode node /\ ID node = id) m ->
    map_Forall (fun id node => validNode node /\ ID node = id) (foldl (fun m node => <[ID node := node]> m) m inventory)).
  { induction Hl as [|node l Hv _ IH]; intros m Hm; cbn [foldl]; [done|]. apply IH. by apply map_Forall_insert_2. }
  apply H, map_Forall_empty.
Qed.

(** A successful inventory read keeps the table valid and settles every saved
    claim. *)
Lemma syncMembership_spec inventory now t :
  now <> time_zero -> Forall validNode inventory -> tinv t ->
  tinv (syncMembership inventory now t).1 /\ restored (syncMembership inventory now t).1 = ∅.
Proof.
  intros Hnow Hinv Ht. unfold syncMembership. pose proof (presentNodes_valid inventory Hinv) as Hpres.
  set (present := presentNodes inventory) in *.
  destruct (restoreClaims_spec present now (map_to_list (restored t)) t) as [Ht1 Hun]; try done.
  { apply NoDup_fst_map_to_list. }
  { intros [key m] Hin. by apply elem_of_map_to_list in Hin. }
  { intros key m Hm. left. by apply elem_of_map_to_list. }
  set (t1 := foldl (restoreClaim present now) t _) in *.
  pose proof (syncNodes_spec present now (map_to_list (nodes t1)) (t1, []) Hnow Hpres Ht1) as [Ht2 Hr2].
  destruct (foldl (syncNode present now) (t1, []) _) as [t2 targets] eqn:E2. cbn [fst] in *.
  pose proof (admitNodes_spec (map_to_list (filter (fun v => Observed v.2 = true) present)) (t2, targets)) as Had.
  destruct (foldl admitNode (t2, targets) _) as [t3 targets'] eqn:E3. cbn [fst] in *.
  destruct Had as (Ht3 & Hr3 & _).
  { rewrite Forall_forall. intros [id node] Hin. apply elem_of_map_to_list, map_lookup_filter_Some in Hin as [Hin _].
    by apply Hpres in Hin. }
  { done. }
  split; [by apply tinv_prune|]. simpl. rewrite Hr3. apply map_eq. intros key. rewrite lookup_empty.
  destruct (restored t2 !! key) as [m|] eqn:Em; [exfalso|done].
  apply Hr2 in Em as [Em Hready]. destruct (Hun key m Em) as (Hs & node & Hp & Hnr).
  destruct Hready as (node' & Hp' & Hr').
  { destruct Hs as [s Hs]. apply list_elem_of_fmap. exists (m_nodeID m, s). split; [done|].
    by apply elem_of_map_to_list. }
  congruence.
Qed.

(** ** Scans *)

Lemma lower_alnum a : alnum (lower a) = alnum a.
Proof. destruct a as [[] [] [] [] [] [] [] []]; reflexivity. Qed.
Lemma lower_nameChar a : nameChar (lower a) = nameChar a.
Proof. destruct a as [[] [] [] [] [] [] [] []]; reflexivity. Qed.

Lemma ToLower_chars s : String.list_ascii_of_string (ToLower s) = map lower (String.list_ascii_of_string s).
Proof. induction s; simpl; congruence. Qed.

Lemma validateSandboxName_lower s : validateSandboxName (ToLower s) = validateSandboxName s.
Proof.
  unfold validateSandboxName. rewrite ToLower_chars. destruct (String.list_ascii_of_string s) as [|a l]; [done|].
  cbn [map]. rewrite lower_alnum, !zlen_cons, zlen_map. f_equal.
  induction l as [|b l IH]; [done|]. cbn [map forallb]. by rewrite lower_nameChar, IH.
Qed.

(** A new route where there was none and no other node's saved claim. *)
Lemma tinv_addRoute t key r :
  tinv t -> routes t !! key = None -> validRoute key r ->
  (forall m, restored t !! key = Some m -> m_nodeID m = r_nodeID r) ->
  tinv (set_routes (<[key := r]> (routes t)) t).
Proof.
  intros [H1 H2 H3 H4 H5] Hn Hv Hm. split; simpl; try done; [by apply map_Forall_insert_2|].
  intros port id Hp. destruct (H4 port id Hp) as (name & Hc). exists name. unfold claimed. simpl.
  destruct (decide (key = (name, port))) as [->|Hne]; [|by rewrite lookup_insert_ne].
  left. exists r. rewrite lookup_insert_eq. split; [done|].
  destruct Hc as [(r' & Hr' & _)|(_ & m & Hr & <-)]; [congruence|]. symmetry. by apply Hm.
Qed.

(** A route replaced by one of the same node and age. *)
Lemma tinv_replaceRoutes t (g : dynamicForwardingRoute -> dynamicForwardingRoute) :
  tinv t -> (forall r, r_nodeID (g r) = r_nodeID r /\ r_discoveredAt (g r) = r_discoveredAt r) ->
  tinv (set_routes (g <$> routes t) t).
Proof.
  intros [H1 H2 H3 H4 H5] Hg. split; simpl; try done.
  - intros key r Hr. apply lookup_fmap_Some in Hr as (r0 & <- & Hr). unfold validRoute.
    destruct (Hg r0) as [-> ->]. by apply H1.
  - intros port id Hp. destruct (H4 port id Hp) as (name & Hc). exists name. unfold claimed. simpl.
    rewrite lookup_fmap. destruct Hc as [(r & -> & <-)|(-> & Hm)]; [left|by right].
    exists (g r). split; [done|]. apply Hg.
Qed.

Lemma tinv_refreshRoute t key r r' :
  tinv t -> routes t !! key = Some r -> r_nodeID r' = r_nodeID r -> r_discoveredAt r' = r_discoveredAt r ->
  tinv (set_routes (<[key := r']> (routes t)) t).
Proof.
  intros [H1 H2 H3 H4 H5] Hr Hid Hd. split; simpl; try done.
  - apply map_Forall_insert_2; [|done]. unfold validRoute. rewrite Hid, Hd. by apply H1.
  - intros port id Hp. destruct (H4 port id Hp) as (name & Hc). exists name. unfold claimed. simpl.
    destruct (decide (key = (name, port))) as [->|Hne]; [|by rewrite lookup_insert_ne].
    left. exists r'. rewrite lookup_insert_eq. split; [done|].
    destruct Hc as [(r0 & Hr0 & <-)|(Hno & _)]; congruence.
Qed.

Lemma refresh_same peer now r :
  r_nodeID (refresh peer now r) = r_nodeID r /\ r_discoveredAt (refresh peer now r) = r_discoveredAt r.
Proof. unfold refresh. by destruct peer. Qed.

Lemma scanPort_spec node peer now t port :
  now <> time_zero -> validNode node -> 1024 <= port <= 65535 -> tinv t -> restored t = ∅ ->
  tinv (scanPort node peer now t port) /\ restored (scanPort node peer now t port) = ∅ /\
  nodes (scanPort node peer now t port) = nodes t.
Proof.
  intros Hnow [Hu Hs] Hport Ht Hr. unfold scanPort. set (key := (ToLower (SandboxName node), port)).
  destruct (routes t !! key) as [r|] eqn:Er.
  - destruct (refresh_same peer now r) as [? ?]. split; [by eapply tinv_refreshRoute|done].
  - unfold discoveryTimeLocked. rewrite Hr, lookup_empty. simpl. split; [|done].
    apply tinv_addRoute; [done|done| |by intros m; rewrite Hr, lookup_empty].
    assert (Hkey : validateSandboxName key.1 = true) by (simpl; by rewrite validateSandboxName_lower).
    split; [done|]. split; [done|]. split; [done|]. simpl.
    destruct (port =? codexLoginCallbackPort); [done|].
    destruct (discovered t !! key) as [m|] eqn:Em; [|done].
    destruct (negb _ || _ || _); [done|]. by apply (ti_discovered t Ht key m Em).
Qed.

Lemma scanPorts_spec node peer now l t :
  now <> time_zero -> validNode node -> Forall (fun port => 1024 <= port <= 65535) l -> tinv t -> restored t = ∅ ->
  tinv (foldl (scanPort node peer now) t l) /\ restored (foldl (scanPort node peer now) t l) = ∅ /\
  nodes (foldl (scanPort node peer now) t l) = nodes t.
Proof.
  intros Hnow Hv Hl. revert t. induction Hl as [|port l Hp _ IH]; intros t Ht Hr; cbn [foldl]; [done|].
  destruct (scanPort_spec node peer now t port Hnow Hv Hp Ht Hr) as (H1 & H2 & H3).
  destruct (IH _ H1 H2) as (H4 & H5 & H6). rewrite H6, H3. done.
Qed.

Lemma applyScanResult_spec node peer ports now t :
  now <> time_zero -> validNode node -> Forall (fun port => 1024 <= port <= 65535) ports -> tinv t -> restored t = ∅ ->
  tinv (applyScanResult node peer ports now t) /\ restored (applyScanResult node peer ports now t) = ∅.
Proof.
  intros Hnow Hv Hports Ht Hr. unfold applyScanResult.
  set (pair := match nodes t !! ID node with Some _ => _ | None => _ end).
  assert (Hpair : validNode pair.1 /\ tinv pair.2 /\ restored pair.2 = ∅).
  { unfold pair. destruct (nodes t !! ID node) as [s|] eqn:En; [|done]. cbn [fst snd].
    destruct (ti_nodes t Ht _ _ En) as [Hs Hid]. split; [done|]. split; [|done].
    apply tinv_set_nodes; [done|]. apply map_Forall_insert_2; [done|apply Ht]. }
  destruct pair as [node' t1]. cbn [fst snd] in Hpair. destruct Hpair as (Hv' & Ht1 & Hr1).
  set (ports' := if applicationRoutesReady node' then ports else []).
  assert (Hports' : Forall (fun port => 1024 <= port <= 65535) ports') by (unfold ports'; by destruct (applicationRoutesReady node')).
  destruct (scanPorts_spec node' peer now ports' t1 Hnow Hv' Hports' Ht1 Hr1) as (Ht2 & Hr2 & _).
  set (t2 := foldl (scanPort node' peer now) t1 ports') in *.
  assert (Ht3 : forall P `{!forall v, Decision (P v)},
    tinv (foldl (removeRouteLocked now) t2 (filter P (map_to_list (routes t2))))).
  { intros P HP. apply tinv_removeAll; [done|done|]. intros kr Hin. exact (routes_pair P t2 kr Hin). }
  assert (Hr3 : forall l, restored (foldl (removeRouteLocked now) t2 l) = ∅) by (intros; by rewrite removeAll_restored).
  rewrite Hr3, map_to_list_empty. cbn [filter list_filter foldl]. split; [apply Ht3|apply Hr3].
Qed.

(** ** Failures and peers *)

Lemma tinv_recordNodeFailure nodeID now t : tinv t -> tinv (recordNodeFailure nodeID now t).
Proof.
  intros Ht. unfold recordNodeFailure. destruct (nodes t !! nodeID) as [s|] eqn:En; [|done].
  destruct (ti_nodes t Ht _ _ En) as [Hv Hid]. cbv zeta. set (lp := (_ && _)%bool).
  assert (Hl : tinv (if lp then lapseNodeRoutesLocked nodeID now t else t) /\
    nodes (if lp then lapseNodeRoutesLocked nodeID now t else t) = nodes t).
  { destruct lp; [|done]. split; [|done]. apply tinv_replaceRoutes; [done|]. intros r. unfold lapse.
    by destruct (_ || _). }
  destruct Hl as [Hl Hn]. apply tinv_set_nodes; [done|]. apply map_Forall_insert_2; [done|]. rewrite Hn. apply Ht.
Qed.

Lemma tinv_adoptPeer nodeID peer t : tinv t -> tinv (adoptPeer nodeID peer t).
Proof.
  intros Ht. unfold adoptPeer. destruct (nodes t !! nodeID) as [s|] eqn:En; [|done].
  destruct (ti_nodes t Ht _ _ En) as [Hv Hid].
  assert (Ht' : tinv (set_nodes (<[nodeID := set_peer (Some peer) s]> (nodes t)) t)).
  { apply tinv_set_nodes; [done|]. apply map_Forall_insert_2; [done|apply Ht]. }
  apply (tinv_replaceRoutes _ _ Ht'). intros r. by destruct (_ =? _)%string.
Qed.

Lemma tinv_retirePeer nodeID t : tinv t -> tinv (retirePeer nodeID t).
Proof.
  intros Ht. unfold retirePeer. destruct (nodes t !! nodeID) as [s|] eqn:En; [|done].
  destruct (ti_nodes t Ht _ _ En) as [Hv Hid]. destruct (n_peer s); [|done].
  apply tinv_set_nodes; [done|]. apply map_Forall_insert_2; [done|apply Ht].
Qed.
End Valid.
