(* ===== verification/ForwardingPolicy.v ===== *)
(** * Routing preferences: validation, snapshot and loading

    The validation of the preferences file as a condition on claims and pins, the
    snapshot of a table as a preferences value that satisfies it, and the effect of
    loading claims and pins on a table.  The properties of whole runs that follow
    are in [ForwardingRestart] and [ForwardingRoutes]. *)

From S2P Require Import Prelude GoText Forwarding ForwardingInvariant.
Local Open Scope Z_scope.

(** ** Validation *)

Section Validation.
Context (uuidParse : string -> bool).

Definition claimOk (c : routingClaim) : Prop :=
  uuidParse (c_NodeID c) = true /\ validateSandboxName (c_Node c) = true /\ 1024 <= c_Port c <= 65535 /\
  c_DiscoveredAt c <> time_zero.
Definition activePin (c : routingClaim) (p : routingPin) : Prop :=
  c_RemovedAt c = time_zero /\ p_Port p = c_Port c /\ p_NodeID p = c_NodeID c.

Lemma time_is_zero_true t : time_is_zero t = true <-> t = time_zero.
Proof. unfold time_is_zero. apply Z.eqb_eq. Qed.
Lemma time_is_zero_false t : time_is_zero t = false <-> t <> time_zero.
Proof. unfold time_is_zero. apply Z.eqb_neq. Qed.

Lemma validateClaims_ok claims active l :
  Forall claimOk l -> NoDup (map claimKey l) -> (forall c, c ∈ l -> claimKey c ∉ claims) ->
  exists active', validateClaims uuidParse claims active l = Ok active' /\
    forall p, p ∈ active' <-> p ∈ active \/ exists c, c ∈ l /\ activePin c p.
Proof.
  intros Hl. revert claims active. induction Hl as [|c l (Hu & Hn & Hp & Hd) _ IH]; intros claims active Hnd Hnew.
  - exists active. split; [done|]. intros p. set_solver.
  - inversion Hnd as [|? ? Hc Hnd']; subst. cbn [validateClaims]. rewrite Hu, Hn. cbn [negb orb].
    rewrite (proj2 (Z.ltb_ge _ 1024)), (proj2 (Z.ltb_ge 65535 _)) by lia.
    rewrite (proj2 (time_is_zero_false _) Hd), bool_decide_eq_false_2 by (apply Hnew; left). cbn [orb].
    set (active1 := if time_is_zero (c_RemovedAt c) then _ else active).
    destruct (IH ({[claimKey c]} ∪ claims) active1 Hnd') as (active' & E & Hin).
    { intros c' Hc'. rewrite elem_of_union, elem_of_singleton. intros [He|He].
      - apply Hc. apply list_elem_of_fmap. by exists c'.
      - by apply (Hnew c'); [right|]. }
    exists active'. split; [exact E|]. intros p. rewrite Hin. unfold active1.
    destruct (time_is_zero (c_RemovedAt c)) eqn:Ez.
    + apply time_is_zero_true in Ez. rewrite elem_of_union, elem_of_singleton. split.
      * intros [[->|Ha]|(c' & Hc' & Ha)]; [right|auto|right].
        { exists c. split; [by left|]. done. }
        { exists c'. split; [by right|done]. }
      * intros [Ha|(c' & [->|Hc']%elem_of_cons & Ha)]; [auto|left; left|right; eauto].
        destruct p, Ha as (_ & He1 & He2). simpl in *. by subst.
    + apply time_is_zero_false in Ez. split.
      * intros [Ha|(c' & Hc' & Ha)]; [auto|right]. exists c'. split; [by right|done].
      * intros [Ha|(c' & [->|Hc']%elem_of_cons & Ha)]; [auto| |right; eauto]. by destruct Ha.
Qed.

Lemma validateClaims_sound claims active l active' :
  validateClaims uuidParse claims active l = Ok active' ->
  Forall claimOk l /\ NoDup (map claimKey l) /\ (forall c, c ∈ l -> claimKey c ∉ claims).
Proof.
  revert claims active. induction l as [|c l IH]; intros claims active; cbn [validateClaims].
  { intros _. split; [constructor|]. split; [constructor|]. set_solver. }
  destruct (uuidParse (c_NodeID c)) eqn:Hu; [|done]. cbn [negb].
  destruct (_ || _) eqn:Hb; [done|]. intros E. bool_to_prop.
  apply IH in E as (Hall & Hnd & Hnew). split; [|split].
  - constructor; [|done]. unfold claimOk. split; [done|]. split; [done|]. split; [lia|]. by apply time_is_zero_false.
  - cbn [map]. constructor; [|done]. intros (c' & He & Hc')%list_elem_of_fmap. apply (Hnew c' Hc').
    rewrite He. by apply elem_of_union_l, elem_of_singleton.
  - intros c' [->|Hc']%elem_of_cons; [done|]. specialize (Hnew c' Hc').
    intros Hin. apply Hnew. by apply elem_of_union_r.
Qed.

Lemma validatePins_spec active ports l :
  validatePins active ports l = Ok tt <->
  NoDup (map p_Port l) /\ forall p, p ∈ l -> p ∈ active /\ p_Port p ∉ ports.
Proof.
  revert ports. induction l as [|p l IH]; intros ports; cbn [validatePins].
  { split; [intros _; split; [constructor|set_solver]|done]. }
  destruct (_ || _) eqn:Hb.
  - split; [done|]. intros [_ Hall]. destruct (Hall p ltac:(left)) as [H1 H2].
    apply orb_true_iff in Hb as [Hb|Hb]; apply bool_decide_eq_true in Hb; done.
  - apply orb_false_iff in Hb as [H1%bool_decide_eq_false H2%bool_decide_eq_false]. rewrite IH. cbn [map].
    assert (Hp : p ∈ active) by (by apply dec_stable). split.
    + intros [Hnd Hall]. split.
      * constructor; [|done]. intros (p' & He & Hp')%list_elem_of_fmap. destruct (Hall p' Hp') as [_ Hn].
        apply Hn. rewrite He. by apply elem_of_union_l, elem_of_singleton.
      * intros p' [->|Hp']%elem_of_cons; [done|]. destruct (Hall p' Hp') as [Ha Hn]. split; [done|].
        intros Hin. apply Hn. by apply elem_of_union_r.
    + intros [Hnd Hall]. inversion Hnd as [|? ? Hn Hnd']; subst. split; [done|]. intros p' Hp'.
      destruct (Hall p' ltac:(by right)) as [Ha Hq]. split; [done|].
      rewrite elem_of_union, elem_of_singleton. intros [He|He]; [|done].
      apply Hn. apply list_elem_of_fmap. by exists p'.
Qed.

(** ** Snapshots *)

Lemma merge_sort_elem {A} (R : A -> A -> Prop) `{!RelDecision R} l x : x ∈ merge_sort R l <-> x ∈ l.
Proof. by rewrite merge_sort_Permutation. Qed.

Lemma policyOf_claims claims pins c :
  c ∈ Claims (policyOf claims pins) <->
  exists key m, claims !! key = Some m /\ c = claimOf (key, m).
Proof.
  simpl. rewrite merge_sort_elem, list_elem_of_fmap. split.
  - intros ([key m] & -> & Hin). apply elem_of_map_to_list in Hin. eauto.
  - intros (key & m & Hm & ->). exists (key, m). split; [done|]. by apply elem_of_map_to_list.
Qed.

Lemma claimKey_claimOf v : claimKey (claimOf v) = v.1.
Proof. by destruct v as [[] []]. Qed.

Lemma policyOf_keys claims pins : NoDup (map claimKey (Claims (policyOf claims pins))).
Proof.
  simpl. rewrite merge_sort_Permutation, map_map. rewrite (map_ext _ fst) by (intros; apply claimKey_claimOf).
  apply NoDup_fst_map_to_list.
Qed.

Lemma policyOf_pins claims pins p :
  p ∈ Pins (policyOf claims pins) <-> pins !! p_Port p = Some (p_NodeID p).
Proof.
  simpl. rewrite merge_sort_elem, list_elem_of_fmap. split.
  - intros ([port id] & -> & Hin). by apply elem_of_map_to_list in Hin.
  - intros Hp. exists (p_Port p, p_NodeID p). split; [by destruct p|]. by apply elem_of_map_to_list.
Qed.

Lemma policyOf_ports claims pins : NoDup (map p_Port (Pins (policyOf claims pins))).
Proof.
  simpl. rewrite merge_sort_Permutation, map_map. rewrite (map_ext _ fst) by done. apply NoDup_fst_map_to_list.
Qed.

(** Claims and pins that validate. *)
Definition policyGood (claims : gmap dynamicRouteKey routeDiscoveryMemory) (pins : gmap Z string) : Prop :=
  map_Forall (validMemory uuidParse) claims /\
  forall port id, pins !! port = Some id ->
    exists name m, claims !! (name, port) = Some m /\ m_nodeID m = id /\ m_removedAt m = time_zero.

Lemma policyOf_valid claims pins :
  policyGood claims pins -> validateRoutingPolicy uuidParse (policyOf claims pins) = Ok tt.
Proof.
  intros [Hc Hp]. unfold validateRoutingPolicy. change (Version (policyOf claims pins) =? 1) with true. cbn [negb].
  destruct (validateClaims_ok ∅ ∅ (Claims (policyOf claims pins))) as (active & E & Hin).
  - rewrite Forall_forall. intros c Hin. apply policyOf_claims in Hin as ([name port] & m & Hm & ->).
    exact (Hc _ _ Hm).
  - apply policyOf_keys.
  - intros c _. apply not_elem_of_empty.
  - rewrite E. cbn [mbind result_bind]. apply validatePins_spec. split; [apply policyOf_ports|].
    intros p Hpin. split; [|apply not_elem_of_empty]. apply Hin. right.
    apply policyOf_pins, Hp in Hpin as (name & m & Hm & Hid & Hz).
    exists (claimOf ((name, p_Port p), m)). split; [apply policyOf_claims; eauto|]. split; [done|]. split; [done|].
    by rewrite <- Hid.
Qed.

Lemma currentClaims_lookup t key :
  currentClaims t !! key =
    match routes t !! key with
    | Some r => Some (routeMemory r)
    | None => match restored t !! key with Some m => Some m | None => discovered t !! key end
    end.
Proof.
  unfold currentClaims. rewrite !lookup_union, lookup_fmap.
  destruct (routes t !! key), (restored t !! key), (discovered t !! key); done.
Qed.

Lemma tinv_policyGood t : tinv uuidParse t -> policyGood (currentClaims t) (pins t).
Proof.
  intros Ht. split.
  - intros key m. rewrite currentClaims_lookup. destruct (routes t !! key) as [r|] eqn:Er.
    { intros [= <-]. exact (ti_routes _ t Ht key r Er). }
    destruct (restored t !! key) as [m'|] eqn:Em; [intros [= <-]; by apply (ti_restored _ t Ht key m')|].
    intros Hd. by apply (ti_discovered _ t Ht key m).
  - intros port id Hp. destruct (ti_pins _ t Ht port id Hp) as (name & Hc). exists name.
    destruct Hc as [(r & Hr & Hid)|(Hn & m & Hm & Hid)].
    + exists (routeMemory r). by rewrite currentClaims_lookup, Hr.
    + exists m. rewrite currentClaims_lookup, Hn, Hm. split; [done|]. split; [done|]. by apply (ti_restored _ t Ht (name, port) m).
Qed.

End Validation.

(** ** Loading *)

Definition memoryOf (c : routingClaim) : routeDiscoveryMemory :=
  Memory (c_NodeID c) (c_DiscoveredAt c) (c_RemovedAt c).

Lemma loadClaims_other t l :
  routes (foldl loadClaim t l) = routes t /\ nodes (foldl loadClaim t l) = nodes t /\ pins (foldl loadClaim t l) = pins t.
Proof.
  revert t. induction l as [|c l IH]; intros t; cbn [foldl]; [done|].
  destruct (IH (loadClaim t c)) as (-> & -> & ->). unfold loadClaim. by destruct (time_is_zero _).
Qed.

Lemma loadClaims_restored t l key m :
  NoDup (map claimKey l) ->
  restored (foldl loadClaim t l) !! key = Some m <->
  (exists c, c ∈ l /\ claimKey c = key /\ c_RemovedAt c = time_zero /\ m = memoryOf c) \/
  (restored t !! key = Some m /\ forall c, c ∈ l -> claimKey c = key -> c_RemovedAt c <> time_zero).
Proof.
  revert t. induction l as [|c l IH]; intros t Hnd; cbn [foldl].
  { split; [intros H; right; split; [done|set_solver]|]. intros [(c & Hc & _)|[H _]]; [by apply not_elem_of_nil in Hc|done]. }
  inversion Hnd as [|? ? Hc Hnd']; subst. rewrite IH by done.
  assert (Hfresh : forall c', c' ∈ l -> claimKey c' <> claimKey c).
  { intros c' Hc' He. apply Hc. apply list_elem_of_fmap. by exists c'. }
  setoid_rewrite elem_of_cons. unfold loadClaim. destruct (time_is_zero (c_RemovedAt c)) eqn:Ez; cbn [restored set_restored set_discovered].
  - apply time_is_zero_true in Ez. destruct (decide (claimKey c = key)) as [<-|Hne].
    + rewrite lookup_insert_eq. split.
      * intros [(c' & Hc' & He & _)|[[= <-] _]]; [by apply Hfresh in He|]. left. exists c. auto.
      * intros [(c' & [->|Hc'] & He & Hz & ->)|[_ Hno]]; [right|by apply Hfresh in He|by destruct (Hno c (or_introl eq_refl) eq_refl)].
        split; [done|]. intros c'' Hc'' He'. by apply Hfresh in He'.
    + rewrite lookup_insert_ne by done. split.
      * intros [(c' & Hc' & H)|[Hr Hno]]; [left; exists c'; auto|right]. split; [done|]. intros c' [->|Hc'] He; [done|auto].
      * intros [(c' & [->|Hc'] & He & H)|[Hr Hno]]; [done|left; exists c'; auto|right]. split; auto.
  - apply time_is_zero_false in Ez. split.
    + intros [(c' & Hc' & H)|[Hr Hno]]; [left; exists c'; auto|right]. split; [done|]. intros c' [->|Hc'] He; auto.
    + intros [(c' & [->|Hc'] & He & Hz & H)|[Hr Hno]]; [done|left; exists c'; auto|right]. split; auto.
Qed.

Lemma loadClaims_discovered t l key m :
  NoDup (map claimKey l) ->
  discovered (foldl loadClaim t l) !! key = Some m <->
  (exists c, c ∈ l /\ claimKey c = key /\ c_RemovedAt c <> time_zero /\ m = memoryOf c) \/
  (discovered t !! key = Some m /\ forall c, c ∈ l -> claimKey c = key -> c_RemovedAt c = time_zero).
Proof.
  revert t. induction l as [|c l IH]; intros t Hnd; cbn [foldl].
  { split; [intros H; right; split; [done|set_solver]|]. intros [(c & Hc & _)|[H _]]; [by apply not_elem_of_nil in Hc|done]. }
  inversion Hnd as [|? ? Hc Hnd']; subst. rewrite IH by done.
  assert (Hfresh : forall c', c' ∈ l -> claimKey c' <> claimKey c).
  { intros c' Hc' He. apply Hc. apply list_elem_of_fmap. by exists c'. }
  setoid_rewrite elem_of_cons. unfold loadClaim. destruct (time_is_zero (c_RemovedAt c)) eqn:Ez; cbn [discovered set_restored set_discovered].
  - apply time_is_zero_true in Ez. split.
    + intros [(c' & Hc' & H)|[Hr Hno]]; [left; exists c'; auto|right]. split; [done|]. intros c' [->|Hc'] He; auto.
    + intros [(c' & [->|Hc'] & He & Hz & H)|[Hr Hno]]; [done|left; exists c'; auto|right]. split; auto.
  - apply time_is_zero_false in Ez. destruct (decide (claimKey c = key)) as [<-|Hne].
    + rewrite lookup_insert_eq. split.
      * intros [(c' & Hc' & He & _)|[[= <-] _]]; [by apply Hfresh in He|]. left. exists c. auto.
      * intros [(c' & [->|Hc'] & He & Hz & ->)|[_ Hno]]; [right|by apply Hfresh in He|by destruct Ez; apply (Hno c (or_introl eq_refl) eq_refl)].
        split; [done|]. intros c'' Hc'' He'. by apply Hfresh in He'.
    + rewrite lookup_insert_ne by done. split.
      * intros [(c' & Hc' & H)|[Hr Hno]]; [left; exists c'; auto|right]. split; [done|]. intros c' [->|Hc'] He; [done|auto].
      * intros [(c' & [->|Hc'] & He & H)|[Hr Hno]]; [done|left; exists c'; auto|right]. split; auto.
Qed.

Lemma loadPins_other t l :
  routes (foldl loadPin t l) = routes t /\ nodes (foldl loadPin t l) = nodes t /\
  restored (foldl loadPin t l) = restored t /\ discovered (foldl loadPin t l) = discovered t.
Proof. revert t. induction l as [|p l IH]; intros t; cbn [foldl]; [done|]. by destruct (IH (loadPin t p)) as (-> & -> & -> & ->). Qed.

Lemma loadPins_lookup t l port id :
  NoDup (map p_Port l) ->
  pins (foldl loadPin t l) !! port = Some id <->
  {| p_Port := port; p_NodeID := id |} ∈ l \/ (pins t !! port = Some id /\ port ∉ map p_Port l).
Proof.
  revert t. induction l as [|p l IH]; intros t Hnd; cbn [foldl].
  { split; [intros H; right; split; [done|apply not_elem_of_nil]|]. intros [H|[H _]]; [by apply not_elem_of_nil in H|done]. }
  inversion Hnd as [|? ? Hp Hnd']; subst. rewrite IH by done. cbn [map loadPin pins set_pins].
  rewrite !elem_of_cons. destruct (decide (p_Port p = port)) as [<-|Hne].
  - rewrite lookup_insert_eq. split.
    + intros [Hin|[[= <-] _]]; [auto|]. left. left. by destruct p.
    + intros [[He|Hin]|[_ Hn]]; [right|auto|tauto]. split; [|done]. f_equal. by destruct p; injection He.
  - rewrite lookup_insert_ne by done. split.
    + intros [Hin|[Hq Hn]]; [auto|right]. split; [done|]. intros [He|He]; congruence.
    + intros [[He|Hin]|[Hq Hn]]; [|auto|right; split; [done|tauto]]. destruct p; injection He as <- <-. done.
Qed.
