(* ===== verification/ForwardingCorrect.v ===== *)
(** * Dynamic forwarding: runs

    The forwarder's run from an empty table over any interleaving of its critical
    sections, with the invariants every step keeps: of the table ([finv]) and of
    the preferences file ([diskinv]).  [ForwardingRestart] and [ForwardingRoutes]
    draw the properties from it. *)

From S2P Require Import Prelude GoText Forwarding ForwardingInvariant ForwardingPolicy.
Local Open Scope Z_scope.

Section Run.
Context (uuidParse : string -> bool).
Context (Marshal : routingPolicy -> result bytes) (Unmarshal : bytes -> result routingPolicy).

(** Inventory records and clocks as the code produces them. *)
Definition sane (a : action) : Prop :=
  match a with
  | Sync inventory now => Forall (validNode uuidParse) inventory /\ now <> time_zero
  | Scan node _ ports now =>
      validNode uuidParse node /\ Forall (fun port => 1024 <= port <= 65535) ports /\ now <> time_zero
  | _ => True
  end.

(** Saved claims wait only for the first successful inventory read. *)
Definition settled (t : table) : Prop := nodes t = ∅ \/ restored t = ∅.

Definition finv (f : dynamicForwarder) : Prop :=
  policyClosed f = false -> tinv uuidParse (tbl f) /\ settled (tbl f).

(** What was saved last is what is on disk. *)
Definition diskinv (w : world) : Prop :=
  policySaved w.1 = [] \/ w.2 = Some (Ok (policySaved w.1 ++ [10])).

Lemma emptyTable_tinv : tinv uuidParse emptyTable.
Proof.
  split; simpl; [apply map_Forall_empty..|intros port id; by rewrite lookup_empty|apply map_Forall_empty].
Qed.

(** ** Loading *)

Definition loaded (saved : routingPolicy) (t : table) : table :=
  foldl loadPin (foldl loadClaim (set_pins ∅ (set_restored ∅ t)) (Claims saved)) (Pins saved).

Lemma unstarted_empty t :
  unstarted t = true -> pins t = ∅ /\ restored t = ∅ /\ nodes t = ∅ /\ routes t = ∅ /\ discovered t = ∅.
Proof. unfold unstarted. intros H. bool_to_prop. by rewrite <- !dom_empty_iff_L. Qed.

Lemma validateRoutingPolicy_sound saved :
  validateRoutingPolicy uuidParse saved = Ok tt ->
  Forall (claimOk uuidParse) (Claims saved) /\ NoDup (map claimKey (Claims saved)) /\
  NoDup (map p_Port (Pins saved)) /\
  forall p, p ∈ Pins saved -> exists c, c ∈ Claims saved /\ activePin c p.
Proof.
  unfold validateRoutingPolicy. destruct (negb _); [done|].
  destruct (validateClaims uuidParse ∅ ∅ (Claims saved)) as [active|e] eqn:E; [|done]. simpl. intros Hp.
  apply validatePins_spec in Hp as [Hnd Hp].
  pose proof (validateClaims_sound uuidParse _ _ _ _ E) as (Hc & Hk & _).
  split; [done|]. split; [done|]. split; [done|]. intros p Hin. destruct (Hp p Hin) as [Ha _].
  destruct (validateClaims_ok uuidParse ∅ ∅ (Claims saved) Hc Hk) as (active' & E' & Hact); [set_solver|].
  assert (active' = active) as -> by congruence. apply Hact in Ha as [Ha|Ha]; [set_solver|done].
Qed.

Lemma loaded_tinv saved t :
  unstarted t = true -> validateRoutingPolicy uuidParse saved = Ok tt ->
  tinv uuidParse (loaded saved t) /\ nodes (loaded saved t) = ∅ /\ routes (loaded saved t) = ∅.
Proof.
  intros Hu Hv. apply unstarted_empty in Hu as (_ & _ & Hn & Hr & Hd).
  destruct (validateRoutingPolicy_sound saved Hv) as (Hc & Hk & Hpk & Hp). unfold loaded.
  set (t0 := set_pins ∅ (set_restored ∅ t)). rewrite Forall_forall in Hc.
  destruct (loadPins_other (foldl loadClaim t0 (Claims saved)) (Pins saved)) as (E1 & E2 & E3 & E4).
  destruct (loadClaims_other t0 (Claims saved)) as (F1 & F2 & F3).
  split; [|rewrite E1, E2, F1, F2; done]. split; rewrite ?E1, ?E2, ?E3, ?E4, ?F1, ?F2.
  - simpl. rewrite Hr. apply map_Forall_empty.
  - intros key m Hm. apply (loadClaims_restored _ _ _ _ Hk) in Hm as [(c & Hin & <- & Hz & ->)|[Hm _]].
    + split; [exact (Hc c Hin)|done].
    + simpl in Hm. by rewrite lookup_empty in Hm.
  - intros key m Hm. apply (loadClaims_discovered _ _ _ _ Hk) in Hm as [(c & Hin & <- & Hz & ->)|[Hm _]].
    + split; [exact (Hc c Hin)|done].
    + simpl in Hm. by rewrite Hd, lookup_empty in Hm.
  - intros port id Hpin. rewrite (loadPins_lookup _ _ port id Hpk) in Hpin; destruct Hpin as [Hin|[Hpin _]].
    2:{ rewrite F3 in Hpin. simpl in Hpin. by rewrite lookup_empty in Hpin. }
    destruct (Hp _ Hin) as (c & Hcin & Hz & Hport & Hid). simpl in Hport, Hid. exists (c_Node c). right.
    rewrite E1, F1, E3. simpl. rewrite Hr, lookup_empty. split; [done|]. exists (memoryOf c). split; [|done].
    apply (loadClaims_restored _ _ _ _ Hk). left. exists c. subst port. done.
  - simpl. rewrite Hn. apply map_Forall_empty.
Qed.

Lemma loadRoutingPolicy_cases disk f :
  loadRoutingPolicy uuidParse Unmarshal disk f = f \/
  (exists e, loadRoutingPolicy uuidParse Unmarshal disk f = set_policy (policyClosed f) (policyHandoff f) (Some e) f) \/
  (exists saved, validateRoutingPolicy uuidParse saved = Ok tt /\
     loadRoutingPolicy uuidParse Unmarshal disk f = set_tbl (loaded saved (tbl f)) f).
Proof.
  unfold loadRoutingPolicy. destruct (_ =? _)%string; [auto|]. destruct disk as [[content|e]|]; [|eauto|auto].
  simpl. destruct (routingPolicyLimit <? zlen content); [eauto|].
  destruct (Unmarshal _) as [saved|e]; [simpl|eauto].
  destruct (validateRoutingPolicy uuidParse saved) as [[]|e] eqn:Hv; [|eauto]. simpl. right. right. by exists saved.
Qed.

(** ** Writing *)

(** A write that fails after its rename. *)
Definition is_unsynced (io : writeOutcome) : Prop := exists e, io = Unsynced e.

(** A write leaves the table alone; what reaches the disk is the encoding. *)
Lemma writeRoutingPolicy_spec saved io disk f r f' disk' :
  writeRoutingPolicy Marshal saved io disk f = (r, f', disk') ->
  tbl f' = tbl f /\ policyClosed f' = policyClosed f /\ policyErr f' = policyErr f /\ servers f' = servers f /\
  policyPath f' = policyPath f /\
  ((disk' = disk /\ policySaved f' = policySaved f) \/
   exists data, Marshal saved = Ok data /\ zlen data <= routingPolicyLimit /\
     disk' = Some (Ok (data ++ [10])) /\
     (policySaved f' = data /\ r = Ok tt \/ is_unsynced io)) /\
  (policyPath f <> "" -> r = Ok tt -> exists data, Marshal saved = Ok data /\ zlen data <= routingPolicyLimit /\
     policySaved f' = data /\ (disk' = Some (Ok (data ++ [10])) \/ disk' = disk /\ policySaved f = data)).
Proof.
  unfold writeRoutingPolicy. destruct (policyPath f =? "")%string eqn:Ep.
  { intros [= <- <- <-]. apply String.eqb_eq in Ep. split_and!; try done. by left. }
  destruct (Marshal saved) as [data|e] eqn:EM.
  2:{ intros [= <- <- <-]. split_and!; try done. by left. }
  destruct (routingPolicyLimit <? zlen data) eqn:El.
  { intros [= <- <- <-]. split_and!; try done. by left. }
  apply Z.ltb_ge in El. case_bool_decide as Hs.
  { intros [= <- <- <-]. split_and!; try done; [by left|]. intros _ _. exists data. split; [done|]. split; [lia|]. split; [done|]. by right. }
  destruct io as [|e|e]; intros [= <- <- <-]; repeat (split; [done|]).
  - split; [right; exists data; split_and!; try done; by left|]. intros _ _. exists data. split; [done|]. split; [done|]. split; [done|]. by left.
  - split; [by left|done].
  - split; [|done]. right. exists data. split; [done|]. split; [done|]. split; [done|]. right. by exists e.
Qed.

(** The sections that may write: pins, saves and the handoff's cut. *)
Definition wrote (torn : Prop) (w w' : world) : Prop :=
  w'.2 = w.2 /\ policySaved w'.1 = policySaved w.1 \/
  exists p data, validateRoutingPolicy uuidParse p = Ok tt /\ Marshal p = Ok data /\
    zlen data <= routingPolicyLimit /\ w'.2 = Some (Ok (data ++ [10])) /\
    (policySaved w'.1 = data \/ torn).

Lemma write_wrote p io disk f r f' disk' :
  validateRoutingPolicy uuidParse p = Ok tt ->
  writeRoutingPolicy Marshal p io disk f = (r, f', disk') -> wrote (is_unsynced io) (f, disk) (f', disk').
Proof.
  intros Hv E. apply writeRoutingPolicy_spec in E as (_ & _ & _ & _ & _ & Hd & _).
  destruct Hd as [Hd|(data & HM & Hl & Hs & Hdk)]; [by left|right].
  exists p, data. destruct Hdk as [[Hdk _]|Hdk]; auto 10.
Qed.

Lemma snapshot_valid newPins f p :
  policyGood uuidParse (currentClaims (tbl f)) (default (pins (tbl f)) newPins) ->
  routingPolicySnapshot newPins f = Ok p -> validateRoutingPolicy uuidParse p = Ok tt.
Proof.
  unfold routingPolicySnapshot. destruct (policyErr f); [done|]. intros Hg [= <-]. by apply policyOf_valid.
Qed.

Lemma persist_spec io disk f r f' disk' :
  finv f -> persistRoutingPolicy Marshal io disk f = (r, f', disk') ->
  tbl f' = tbl f /\ policyClosed f' = policyClosed f /\ servers f' = servers f /\
  wrote (is_unsynced io) (f, disk) (f', disk').
Proof.
  unfold persistRoutingPolicy. intros Hf. destruct (policyClosed f) eqn:Ec.
  { intros [= <- <- <-]. split_and!; try done. by left. }
  destruct (Hf Ec) as [Ht _]. destruct (routingPolicySnapshot None f) as [p|e] eqn:Es.
  2:{ intros [= <- <- <-]. split_and!; try done. by left. }
  intros E. pose proof E as Hw. apply write_wrote in Hw; [|by apply (snapshot_valid None f p); [apply tinv_policyGood|]].
  apply writeRoutingPolicy_spec in E as (E1 & E2 & _ & E4 & _). split; [done|].
  split; [congruence|]. by split.
Qed.

Lemma freeze_spec io disk f r f' disk' :
  finv f -> prepareRoutingHandoff Marshal io disk f = (r, f', disk') ->
  tbl f' = tbl f /\ policyClosed f' = policyClosed f /\ servers f' = servers f /\
  wrote (is_unsynced io) (f, disk) (f', disk').
Proof.
  unfold prepareRoutingHandoff. intros Hf. destruct (policyClosed f) eqn:Ec.
  { intros [= <- <- <-]. split_and!; try done. by left. }
  destruct (Hf Ec) as [Ht _]. destruct (routingPolicySnapshot None f) as [p|e] eqn:Es.
  2:{ intros [= <- <- <-]. split_and!; try done. by left. }
  assert (Hv : validateRoutingPolicy uuidParse p = Ok tt)
    by (by apply (snapshot_valid None f p); [apply tinv_policyGood|]).
  destruct (writeRoutingPolicy Marshal p io disk f) as [[[u|e] f1] d1] eqn:E;
    pose proof (write_wrote _ _ _ _ _ _ _ Hv E) as Hw;
    apply writeRoutingPolicy_spec in E as (E1 & E2 & _ & E4 & _); intros [= <- <- <-];
    (split; [done|]; split; [simpl; congruence|]; by split).
Qed.

(** Pinning a live route of the node. *)
Lemma pinned_good t port nodeID name r :
  tinv uuidParse t -> routes t !! (name, port) = Some r -> r_nodeID r = nodeID ->
  tinv uuidParse (set_pins (<[port := nodeID]> (pins t)) t).
Proof.
  intros [H1 H2 H3 H4 H5] Hr Hid. split; simpl; try done.
  intros q id Hq. apply lookup_insert_Some in Hq as [[<- <-]|[_ Hq]].
  - exists name. left. by exists r.
  - destruct (H4 q id Hq) as (name' & Hc). by exists name'.
Qed.

Lemma find_route (P : dynamicRouteKey * dynamicForwardingRoute -> bool) t v :
  find P (map_to_list (routes t)) = Some v -> routes t !! v.1 = Some v.2 /\ P v = true.
Proof.
  intros Hf. apply find_some in Hf as [Hin HP]. apply list_elem_of_In in Hin. destruct v as [key r].
  by apply elem_of_map_to_list in Hin.
Qed.

Lemma pin_spec nodeID port io disk f r f' disk' :
  finv f -> pinBarePort Marshal nodeID port io disk f = (r, f', disk') ->
  finv f' /\ policyClosed f' = policyClosed f /\ wrote (is_unsynced io) (f, disk) (f', disk') /\
  routes (tbl f') = routes (tbl f) /\
  (r = Ok tt -> policyClosed f = false /\ pins (tbl f') = <[port := nodeID]> (pins (tbl f))).
Proof.
  unfold pinBarePort. intros Hf. destruct (policyClosed f) eqn:Ec.
  { intros [= <- <- <-]. split_and!; try done. by left. }
  destruct (find _ _) as [[[name q] route]|] eqn:Ef; destruct (servers f !! port) as [server|] eqn:Es;
    cbn [fst snd negb andb]; try (intros [= <- <- <-]; split_and!; try done; by left).
  apply find_route in Ef as [Hr HP]. cbn [fst snd] in *. bool_to_prop.
  destruct (negb _) eqn:Hav; [intros [= <- <- <-]; split_and!; try done; by left|].
  destruct (Hf Ec) as [Ht Hset].
  assert (Hq : q = port) by done. subst q.
  pose proof (pinned_good (tbl f) port nodeID name route Ht Hr ltac:(done)) as Ht'.
  set (newPins := <[port := nodeID]> (pins (tbl f))) in *.
  destruct (routingPolicySnapshot (Some newPins) f) as [p|e] eqn:Esn;
    [|intros [= <- <- <-]; split_and!; try done; by left].
  assert (Hv : validateRoutingPolicy uuidParse p = Ok tt).
  { apply (snapshot_valid (Some newPins) f p); [|done]. exact (tinv_policyGood uuidParse _ Ht'). }
  destruct (writeRoutingPolicy Marshal p io disk f) as [[[u|e] f1] d1] eqn:E;
    pose proof (write_wrote _ _ _ _ _ _ _ Hv E) as Hw;
    apply writeRoutingPolicy_spec in E as (E1 & E2 & _ & E4 & _); intros [= <- <- <-].
  - split_and!; simpl; [|congruence|exact Hw|by rewrite E1|done].
    intros _. simpl. rewrite E1. split; [exact Ht'|exact Hset].
  - split_and!; simpl; [|congruence|exact Hw|by rewrite E1|done].
    intros _. rewrite E1. done.
Qed.

(** ** Every step *)

Lemma syncSection_spec inventory now f :
  finv f -> policyClosed f = false -> Forall (validNode uuidParse) inventory -> now <> time_zero ->
  finv (syncSection inventory now f).
Proof.
  intros Hf Hc Hi Hn. unfold syncSection. destruct (policyHandoff f); [done|]. intros _.
  destruct (Hf Hc) as [Ht _]. destruct (syncMembership_spec uuidParse inventory now (tbl f) Hn Hi Ht) as [Ht' Hr].
  split; [exact Ht'|by right].
Qed.

Lemma scanSection_spec node peer ports now f :
  finv f -> policyClosed f = false -> is_Some (nodes (tbl f) !! ID node) -> validNode uuidParse node ->
  Forall (fun port => 1024 <= port <= 65535) ports -> now <> time_zero ->
  finv (scanSection node peer ports now f).
Proof.
  intros Hf Hc [s Hs] Hv Hp Hn. unfold scanSection. destruct (policyHandoff f); [done|]. intros _.
  destruct (Hf Hc) as [Ht [He|Hr]]; [by rewrite He, lookup_empty in Hs|].
  destruct (applyScanResult_spec uuidParse node peer ports now (tbl f) Hn Hv Hp Ht Hr) as [Ht' Hr'].
  split; [exact Ht'|by right].
Qed.

(** A section that keeps the saved claims and adds no node. *)
Lemma finv_set_tbl f t :
  finv f -> (tinv uuidParse (tbl f) -> tinv uuidParse t) -> restored t = restored (tbl f) ->
  (nodes (tbl f) = ∅ -> nodes t = ∅) -> finv (set_tbl t f).
Proof.
  intros Hf Ht Hr Hn Hc. destruct (Hf Hc) as [H [He|He]]; (split; [by apply Ht|]); [left|right]; simpl; [by apply Hn|].
  by rewrite Hr.
Qed.

Lemma fail_other nodeID now t :
  restored (recordNodeFailure nodeID now t) = restored t /\ (nodes t = ∅ -> nodes (recordNodeFailure nodeID now t) = ∅).
Proof.
  unfold recordNodeFailure. destruct (nodes t !! nodeID) eqn:En; [|done]. cbv zeta. split.
  - simpl. by destruct (_ && _).
  - intros He. by rewrite He, lookup_empty in En.
Qed.
Lemma adopt_other nodeID peer t :
  restored (adoptPeer nodeID peer t) = restored t /\ (nodes t = ∅ -> nodes (adoptPeer nodeID peer t) = ∅).
Proof.
  unfold adoptPeer. destruct (nodes t !! nodeID) eqn:En; [|done]. split; [done|].
  intros He. by rewrite He, lookup_empty in En.
Qed.
Lemma retire_other nodeID t :
  restored (retirePeer nodeID t) = restored t /\ (nodes t = ∅ -> nodes (retirePeer nodeID t) = ∅).
Proof.
  unfold retirePeer. destruct (nodes t !! nodeID) as [s|] eqn:En; [|done]. destruct (n_peer s); [|done]. split; [done|].
  intros He. by rewrite He, lookup_empty in En.
Qed.

Lemma finv_table f f' :
  tbl f' = tbl f -> policyClosed f' = policyClosed f -> finv f -> finv f'.
Proof. unfold finv. intros -> ->. done. Qed.

Lemma load_spec disk f :
  finv f -> unstarted (tbl f) = true ->
  finv (loadRoutingPolicy uuidParse Unmarshal disk f) /\
  policySaved (loadRoutingPolicy uuidParse Unmarshal disk f) = policySaved f.
Proof.
  intros Hf Hu. destruct (loadRoutingPolicy_cases disk f) as [->|[(e & ->)|(saved & Hv & ->)]]; [done|done|].
  split; [|done]. intros _. destruct (loaded_tinv saved (tbl f) Hu Hv) as (Ht & Hn & _).
  split; [exact Ht|by left].
Qed.

Abbreviation step := (step uuidParse Marshal Unmarshal).
Abbreviation run := (run uuidParse Marshal Unmarshal).

(** The step's write fails after its rename. *)
Definition torn (a : action) : Prop :=
  match a with
  | Pin _ _ io | Persist io | Freeze io | CloseForwarder io => is_unsynced io
  | _ => False
  end.

Lemma step_spec w a w' :
  finv w.1 -> sane a -> step w a = Some w' -> finv w'.1 /\ wrote (torn a) w w'.
Proof.
  destruct w as [f disk]. cbn [fst]. intros Hf Ha.
  assert (Hkeep : forall g, policySaved g = policySaved f -> wrote (torn a) (f, disk) (g, disk)) by (by left).
  destruct a as [|inventory now|node peer ports now|nodeID now|nodeID peer|nodeID|listen|nodeID port io|io|io| |io];
    cbn [Forwarding.step sane torn] in *.
  - destruct (unstarted _ && _) eqn:E; [|done]. apply andb_true_iff in E as [Hu Hc]. intros [= <-].
    destruct (load_spec disk f Hf Hu) as [H1 H2]. auto.
  - destruct (policyClosed f) eqn:Hc; [done|]. intros [= <-]. destruct Ha as [Hi Hn].
    split; [by apply syncSection_spec|]. apply Hkeep. unfold syncSection. by destruct (policyHandoff f).
  - destruct (_ && _) eqn:E; [|done]. apply andb_true_iff in E as [Hs%bool_decide_eq_true Hc%negb_true_iff].
    intros [= <-]. destruct Ha as (Hv & Hp & Hn).
    split; [by apply scanSection_spec|]. apply Hkeep. unfold scanSection. by destruct (policyHandoff f).
  - intros [= <-]. destruct (fail_other nodeID now (tbl f)). split; [|by apply Hkeep].
    apply finv_set_tbl; auto. apply tinv_recordNodeFailure.
  - intros [= <-]. destruct (adopt_other nodeID peer (tbl f)). split; [|by apply Hkeep].
    apply finv_set_tbl; auto. apply tinv_adoptPeer.
  - intros [= <-]. destruct (retire_other nodeID (tbl f)). split; [|by apply Hkeep].
    apply finv_set_tbl; auto. apply tinv_retirePeer.
  - intros [= <-]. split; [exact Hf|by apply Hkeep].
  - destruct (pinBarePort Marshal nodeID port io disk f) as [[r f'] disk'] eqn:E. intros [= <-].
    by apply pin_spec in E as (H1 & _ & H2 & _).
  - destruct (persistRoutingPolicy Marshal io disk f) as [[r f'] disk'] eqn:E. intros [= <-].
    apply persist_spec in E as (H1 & H2 & _ & H3); [|done]. split; [by apply (finv_table f)|done].
  - destruct (prepareRoutingHandoff Marshal io disk f) as [[r f'] disk'] eqn:E. intros [= <-].
    apply freeze_spec in E as (H1 & H2 & _ & H3); [|done]. split; [by apply (finv_table f)|done].
  - intros [= <-]. split; [by apply (finv_table f)|by apply Hkeep].
  - destruct (persistRoutingPolicy Marshal io disk f) as [[r f'] disk'] eqn:E. intros [= <-].
    apply persist_spec in E as (_ & _ & _ & H3); [|done]. split; [by intros|].
    exact H3.
Qed.

Definition onDisk (disk disk' : option (result bytes)) : Prop :=
  disk' = disk \/
  exists p data, validateRoutingPolicy uuidParse p = Ok tt /\ Marshal p = Ok data /\
    zlen data <= routingPolicyLimit /\ disk' = Some (Ok (data ++ [10])).

Lemma run_spec w l w' :
  finv w.1 -> Forall sane l -> run w l = Some w' ->
  finv w'.1 /\ (diskinv w -> Forall (fun a => ~ torn a) l -> diskinv w') /\ onDisk w.2 w'.2.
Proof.
  intros Hf Hl. revert w Hf. induction Hl as [|a l Ha _ IH]; intros w Hf; cbn [Forwarding.run].
  { intros [= <-]. split; [done|]. split; [done|by left]. }
  destruct (step w a) as [w1|] eqn:E; [simpl|done]. intros Hrun. apply step_spec in E as [Hf1 Hw]; [|done..].
  assert (Hd1 : (diskinv w -> ~ torn a -> diskinv w1) /\ onDisk w.2 w1.2).
  { unfold diskinv in *. destruct Hw as [(-> & ->)|(p & data & Hv & HM & Hl & -> & Hs)].
    - split; [done|by left].
    - split; [|right; by exists p, data]. intros _ Hn. destruct Hs as [->|Hs]; [by right|done]. }
  destruct Hd1 as [Hd1 Ho1]. destruct (IH w1 Hf1 Hrun) as (H1 & H2 & H3). split; [done|]. split.
  - intros Hd [Hna Hnl]%Forall_cons. auto.
  - destruct H3 as [->|H3]; [done|by right].
Qed.

Lemma start_finv path : finv (newDynamicForwarder path).
Proof. intros _. split; [apply emptyTable_tinv|by left]. Qed.

Lemma start_spec path disk l w :
  Forall sane l -> run (newDynamicForwarder path, disk) l = Some w ->
  finv w.1 /\ (Forall (fun a => ~ torn a) l -> diskinv w) /\ onDisk disk w.2.
Proof.
  intros Hl Hr. destruct (run_spec (newDynamicForwarder path, disk) l w (start_finv path) Hl Hr) as (H1 & H2 & H3).
  split; [done|]. split; [|done]. apply H2. by left.
Qed.
End Run.
