(* ===== verification/ForwardingRestart.v ===== *)
(** * Dynamic forwarding: what is saved and what a restart finds

    In every state the forwarder reaches, the preferences it would save pass the
    validation the next daemon applies ([saved_policy_valid]); after a
    successful save the next daemon holds the same claims and pins
    ([policy_survives_restart]), except for an encoding of exactly the size
    limit, which is written and then refused ([exact_limit_unreadable]). *)

From S2P Require Import Prelude SampleCodec GoText Forwarding ForwardingInvariant ForwardingPolicy ForwardingCorrect.
Local Open Scope Z_scope.

(** ** Loading a snapshot *)

Lemma claimOf_memory key m : claimKey (claimOf (key, m)) = key /\ memoryOf (claimOf (key, m)) = m.
Proof. by destruct key, m. Qed.

(** A fresh table that loads a snapshot has its claims and its pins. *)
Lemma loaded_policyOf t0 claims ps :
  restored t0 = ∅ -> routes t0 = ∅ -> discovered t0 = ∅ ->
  currentClaims (loaded (policyOf claims ps) t0) = claims /\ pins (loaded (policyOf claims ps) t0) = ps.
Proof.
  intros Hr Hro Hd. set (p := policyOf claims ps). unfold loaded. set (t := set_pins ∅ (set_restored ∅ t0)).
  pose proof (policyOf_keys claims ps) as Hk. pose proof (policyOf_ports claims ps) as Hpk. fold p in Hk, Hpk.
  destruct (loadPins_other (foldl loadClaim t (Claims p)) (Pins p)) as (E1 & _ & E3 & E4).
  destruct (loadClaims_other t (Claims p)) as (F1 & _ & F3). split.
  - apply map_eq. intros key. rewrite currentClaims_lookup, E1, E3, E4, F1.
    change (routes t) with (routes t0). rewrite Hro, lookup_empty.
    apply option_eq. intros m.
    assert (Hin : forall m, claims !! key = Some m <-> exists c, c ∈ Claims p /\ claimKey c = key /\ m = memoryOf c).
    { clear m. intros m. split.
      - intros Hm. exists (claimOf (key, m)). destruct (claimOf_memory key m) as [H1 H2].
        split; [|done]. apply policyOf_claims. eauto.
      - intros (c & Hc & <- & ->). apply policyOf_claims in Hc as (key & m & Hm & ->).
        by destruct (claimOf_memory key m) as [-> ->]. }
    rewrite Hin. destruct (restored (foldl loadClaim t (Claims p)) !! key) as [m'|] eqn:Er.
    + apply (loadClaims_restored _ _ _ _ Hk) in Er as [(c & Hc & Hkey & Hz & ->)|[Er _]]; [|simpl in Er; by rewrite lookup_empty in Er].
      split; [intros [= <-]; by exists c|]. intros (c' & Hc' & Hkey' & ->).
      apply (transitivity (y := claims !! key)); [symmetry|]; apply Hin; eauto.
    + rewrite (loadClaims_discovered _ _ _ _ Hk). split.
      * intros [(c & Hc & Hkey & _ & ->)|[Hx _]]; [by exists c|]. simpl in Hx. by rewrite Hd, lookup_empty in Hx.
      * intros (c & Hc & Hkey & ->). left. exists c. split; [done|]. split; [done|]. split; [|done]. intros Hz.
        assert (Hsome : restored (foldl loadClaim t (Claims p)) !! key = Some (memoryOf c)).
        { apply (loadClaims_restored _ _ _ _ Hk). left. by exists c. }
        congruence.
  - apply map_eq. intros port. apply option_eq. intros id. rewrite (loadPins_lookup _ _ _ _ Hpk). unfold p at 1. rewrite policyOf_pins, F3.
    cbn [p_Port p_NodeID]. split; [|by left]. intros [H|[H _]]; [done|]. simpl in H. by rewrite lookup_empty in H.
Qed.

Section Restart.
Context (uuidParse : string -> bool).
Context (Marshal : routingPolicy -> result bytes) (Unmarshal : bytes -> result routingPolicy).

(** [encoding/json] reads back what it wrote, a trailing newline included. *)
Definition jsonLaw : Prop :=
  forall p data, Marshal p = Ok data -> data <> [] /\ Unmarshal (data ++ [10]) = Ok p.

Lemma reader_spec content :
  readDiagnosticFile content routingPolicyLimit =
    (take (Z.to_nat routingPolicyLimit) content, routingPolicyLimit <? zlen content).
Proof. done. Qed.

Lemma zlen_snoc (l : bytes) x : zlen (l ++ [x]) = zlen l + 1.
Proof. unfold zlen. rewrite length_app. simpl. lia. Qed.

Lemma take_all_zlen (l : bytes) n : zlen l <= n -> take (Z.to_nat n) l = l.
Proof. unfold zlen. intros Hl. apply take_ge. lia. Qed.

(** A file below the limit is read whole. *)
Lemma load_file saved data path :
  jsonLaw -> path <> "" -> Marshal saved = Ok data -> zlen data < routingPolicyLimit ->
  validateRoutingPolicy uuidParse saved = Ok tt ->
  loadRoutingPolicy uuidParse Unmarshal (Some (Ok (data ++ [10]))) (newDynamicForwarder path) =
  set_tbl (loaded saved emptyTable) (newDynamicForwarder path).
Proof.
  intros Hlaw Hp HM Hl Hv. unfold loadRoutingPolicy. cbn [policyPath newDynamicForwarder].
  apply String.eqb_neq in Hp as ->. cbn [mbind result_bind]. rewrite reader_spec, zlen_snoc.
  rewrite (proj2 (Z.ltb_ge _ _)) by lia.
  rewrite take_all_zlen by (rewrite zlen_snoc; lia).
  destruct (Hlaw saved data HM) as [_ ->]. cbn [mbind result_bind]. by rewrite Hv.
Qed.

(** One byte too many: the newline is not counted when the file is written. *)
Lemma exact_limit_unreadable saved data io disk f path :
  io = Written -> policyPath f = path -> path <> "" -> Marshal saved = Ok data -> zlen data = routingPolicyLimit ->
  data <> policySaved f ->
  exists f', writeRoutingPolicy Marshal saved io disk f = (Ok tt, f', Some (Ok (data ++ [10]))) /\
    policyErr (loadRoutingPolicy uuidParse Unmarshal (Some (Ok (data ++ [10]))) (newDynamicForwarder path)) =
      Some (ENew "read routing preferences: routing preferences exceed the size limit").
Proof.
  intros -> Hpath Hp HM Hl Hne. apply String.eqb_neq in Hp. exists (set_written "" data f). split.
  - unfold writeRoutingPolicy. rewrite Hpath, Hp, HM. rewrite (proj2 (Z.ltb_ge _ _)) by lia.
    by rewrite bool_decide_eq_false_2.
  - unfold loadRoutingPolicy. cbn [policyPath newDynamicForwarder]. rewrite Hp. cbn [mbind result_bind].
    rewrite reader_spec, zlen_snoc. by rewrite (proj2 (Z.ltb_lt _ _)) by lia.
Qed.

(** ** Properties *)

(** C32: whatever inventory reads, scans, failures, pins, saves, handoffs and
    restarts of its peers a forwarder went through, in whatever order, the
    preferences it would save pass the validation of the file format (valid node
    IDs, names and ports, no duplicate claim, every pin on one active claim), and
    the file on disk is either the one it found or the encoding of such
    preferences within the size limit. *)
Theorem saved_policy_valid path disk l w :
  Forall (sane uuidParse) l ->
  run uuidParse Marshal Unmarshal (newDynamicForwarder path, disk) l = Some w ->
  (policyClosed w.1 = false -> policyErr w.1 = None ->
     exists p, routingPolicySnapshot None w.1 = Ok p /\ validateRoutingPolicy uuidParse p = Ok tt) /\
  (w.2 = disk \/
   exists p data, validateRoutingPolicy uuidParse p = Ok tt /\ Marshal p = Ok data /\
     zlen data <= routingPolicyLimit /\ w.2 = Some (Ok (data ++ [10]))).
Proof.
  intros Hl Hrun. destruct (start_spec _ _ _ path disk l w Hl Hrun) as (Hf & _ & Hd). split; [|exact Hd].
  intros Hc He. destruct (Hf Hc) as [Ht _].
  assert (Hs : routingPolicySnapshot None w.1 = Ok (policyOf (currentClaims (tbl w.1)) (pins (tbl w.1)))).
  { unfold routingPolicySnapshot. by rewrite He. }
  eexists. split; [exact Hs|]. by eapply policyOf_valid, tinv_policyGood.
Qed.

(** C21: a save that succeeds is a save the next daemon can use: once
    [persistRoutingPolicy] answers without error, the encoding is below the size
    limit and no earlier write failed after its rename ([torn]; after one, a save
    can be taken for done while the file holds other preferences,
    [torn_save_lost]), a new forwarder that reads the file reports no error and
    holds the claims (live, saved or remembered) and the pins of the one that
    saved. *)
Theorem policy_survives_restart path disk l w p data io f' disk' :
  jsonLaw -> Forall (sane uuidParse) l -> Forall (fun a => ~ torn a) l ->
  run uuidParse Marshal Unmarshal (newDynamicForwarder path, disk) l = Some w ->
  policyClosed w.1 = false -> policyPath w.1 <> "" ->
  routingPolicySnapshot None w.1 = Ok p -> Marshal p = Ok data -> zlen data < routingPolicyLimit ->
  persistRoutingPolicy Marshal io w.2 w.1 = (Ok tt, f', disk') ->
  let g := loadRoutingPolicy uuidParse Unmarshal disk' (newDynamicForwarder (policyPath w.1)) in
  policyErr g = None /\ currentClaims (tbl g) = currentClaims (tbl w.1) /\ pins (tbl g) = pins (tbl w.1) /\
  routingPolicySnapshot None g = Ok p.
Proof.
  intros Hlaw Hl Hnt Hrun Hc Hp Hs HM Hlen Hpersist.
  destruct (start_spec _ _ _ path disk l w Hl Hrun) as (Hf & Hd & _). specialize (Hd Hnt). destruct (Hf Hc) as [Ht _].
  assert (Hv : validateRoutingPolicy uuidParse p = Ok tt) by (apply (snapshot_valid uuidParse None w.1 p); [exact (tinv_policyGood _ _ Ht)|done]).
  assert (Hdisk : disk' = Some (Ok (data ++ [10]))).
  { revert Hpersist. unfold persistRoutingPolicy. rewrite Hc, Hs. intros Hw.
    apply writeRoutingPolicy_spec in Hw as (_ & _ & _ & _ & _ & _ & Hw).
    destruct (Hw Hp eq_refl) as (data' & HM' & _ & _ & Hdk). assert (data' = data) as -> by congruence.
    destruct Hdk as [->|[-> Hsaved]]; [done|]. destruct Hd as [Hd|Hd]; [|congruence].
    destruct (Hlaw p data HM) as [Hne _]. congruence. }
  assert (Hpolicy : p = policyOf (currentClaims (tbl w.1)) (pins (tbl w.1))).
  { revert Hs. unfold routingPolicySnapshot. destruct (policyErr w.1); [done|]. by intros [= <-]. }
  cbv zeta. subst disk'. rewrite (load_file p data (policyPath w.1) Hlaw Hp HM Hlen Hv). cbn [tbl set_tbl policyErr newDynamicForwarder].
  destruct (loaded_policyOf emptyTable (currentClaims (tbl w.1)) (pins (tbl w.1))) as [H1 H2]; [done..|].
  rewrite <- Hpolicy in H1, H2. split; [done|]. split; [done|]. split; [done|].
  unfold routingPolicySnapshot. cbn [policyErr set_tbl newDynamicForwarder tbl]. rewrite H1. cbn [default].
  by rewrite H2, <- Hpolicy.
Qed.
End Restart.

(** ** A sample run *)

Module Sample.

Definition tuple (p : routingPolicy) : Z * list (string * string * Z * Z * Z) * list (Z * string) :=
  (Version p,
   map (fun c => (c_NodeID c, c_Node c, c_Port c, c_DiscoveredAt c, c_RemovedAt c)) (Claims p),
   map (fun q => (p_Port q, p_NodeID q)) (Pins p)).
Definition untuple (v : Z * list (string * string * Z * Z * Z) * list (Z * string)) : routingPolicy := {|
  Version := v.1.1;
  Claims := map (fun '(id, node, port, d, r) =>
    {| c_NodeID := id; c_Node := node; c_Port := port; c_DiscoveredAt := d; c_RemovedAt := r |}) v.1.2;
  Pins := map (fun q => {| p_Port := q.1; p_NodeID := q.2 |}) v.2 |}.

Lemma untuple_tuple p : untuple (tuple p) = p.
Proof.
  destruct p as [v cs ps]. unfold untuple, tuple. cbn [Version Claims Pins fst snd]. f_equal; rewrite map_map.
  - rewrite <- (map_id cs) at 2. apply map_ext. by intros [].
  - rewrite <- (map_id ps) at 2. apply map_ext. by intros [].
Qed.

Definition uuidParse (s : string) : bool := (String.length s =? 4)%nat.
Definition Marshal (p : routingPolicy) : result bytes := Ok (put tuple p).
Definition Unmarshal (data : bytes) : result routingPolicy :=
  match get untuple data with Some p => Ok p | None => Err (ENew "invalid JSON") end.

Lemma json_law : jsonLaw Marshal Unmarshal.
Proof. intros p data [= <-]. split; [done|]. unfold Unmarshal. by rewrite (get_put_newline tuple untuple untuple_tuple). Qed.

Definition web : Node :=
  {| ID := "n001"; SandboxName := "Web"; BootstrapCompleted := true; Status := "running"; Observed := true |}.
Definition api : Node :=
  {| ID := "n002"; SandboxName := "api"; BootstrapCompleted := true; Status := "running"; Observed := true |}.

(** Two nodes serve port 3000; the user picks the younger one, whose listener
    on 4000 then goes away. *)
Definition actions : list action :=
  [Load; Sync [web; api] 1000; Scan web (Some 7) [3000; 4000] 2000; Scan api (Some 8) [3000; 4000] 3000;
   Servers (fun _ => true); Pin "n002" 3000 Written; Scan api (Some 8) [3000] 4000].

Definition final : option world :=
  run uuidParse Marshal Unmarshal (newDynamicForwarder "routing.json", None) actions.
Definition last : world := default (newDynamicForwarder "", None) final.
Definition saved : routingPolicy :=
  policyOf (currentClaims (tbl last.1)) (pins (tbl last.1)).
Definition written : result unit * dynamicForwarder * option (result bytes) :=
  persistRoutingPolicy Marshal Written last.2 last.1.

Lemma actions_sane : Forall (sane uuidParse) actions.
Proof. repeat constructor; by vm_compute. Qed.
Lemma actions_whole : Forall (fun a => ~ torn a) actions.
Proof. repeat constructor; by intros []. Qed.
Lemma final_last : run uuidParse Marshal Unmarshal (newDynamicForwarder "routing.json", None) actions = Some last.
Proof. vm_compute. reflexivity. Qed.
Lemma written_ok : written = (Ok tt, written.1.2, written.2).
Proof. vm_compute. reflexivity. Qed.
Definition encoded : bytes := put tuple saved.
Lemma saved_short : zlen encoded < routingPolicyLimit.
Proof. apply Z.ltb_lt. vm_compute. reflexivity. Qed.
Lemma saved_encoded : Marshal saved = Ok encoded.
Proof. unfold Marshal, encoded. reflexivity. Qed.
Lemma last_open : policyClosed last.1 = false.
Proof. vm_compute. reflexivity. Qed.

(** The user pins the second node, and the write of that fails after its rename;
    the next save, of the preferences without the pin, is skipped as already
    done, and the next daemon restores the pin. *)
Definition tornSave : option world :=
  run uuidParse Marshal Unmarshal (newDynamicForwarder "routing.json", None)
    [Load; Sync [web; api] 1000; Scan web (Some 7) [3000] 2000; Scan api (Some 8) [3000] 3000;
     Servers (fun _ => true); Persist Written; Pin "n002" 3000 (Unsynced (ENew "input/output error"))].

Lemma torn_save_lost :
  match tornSave with
  | Some (f, disk) =>
      let '(r, f', disk') := persistRoutingPolicy Marshal Written disk f in
      let g := loadRoutingPolicy uuidParse Unmarshal disk' (newDynamicForwarder "routing.json") in
      r = Ok tt /\ pins (tbl f') !! 3000 <> Some "n002" /\ pins (tbl g) !! 3000 = Some "n002"
  | None => False
  end.
Proof. vm_compute. repeat split. discriminate. Qed.

Lemma last_noerr : policyErr last.1 = None.
Proof. vm_compute. reflexivity. Qed.
Lemma last_path : policyPath last.1 <> "".
Proof. vm_compute. discriminate. Qed.
Lemma last_saved : routingPolicySnapshot None last.1 = Ok saved.
Proof. unfold routingPolicySnapshot. rewrite last_noerr. reflexivity. Qed.
End Sample.

Theorem saved_policy_valid_witness :
  exists p, routingPolicySnapshot None Sample.last.1 = Ok p /\ validateRoutingPolicy Sample.uuidParse p = Ok tt.
Proof.
  pose proof (saved_policy_valid Sample.uuidParse Sample.Marshal Sample.Unmarshal "routing.json" None Sample.actions
    Sample.last Sample.actions_sane Sample.final_last) as [H _].
  exact (H Sample.last_open Sample.last_noerr).
Defined.

Theorem policy_survives_restart_witness :
  let g := loadRoutingPolicy Sample.uuidParse Sample.Unmarshal Sample.written.2
             (newDynamicForwarder (policyPath Sample.last.1)) in
  pins (tbl g) !! 3000 = Some "n002" /\ currentClaims (tbl g) = currentClaims (tbl Sample.last.1).
Proof.
  pose proof (policy_survives_restart Sample.uuidParse Sample.Marshal Sample.Unmarshal "routing.json" None
    Sample.actions Sample.last Sample.saved Sample.encoded Written Sample.written.1.2 Sample.written.2 Sample.json_law
    Sample.actions_sane Sample.actions_whole Sample.final_last Sample.last_open Sample.last_path Sample.last_saved Sample.saved_encoded
    Sample.saved_short Sample.written_ok) as (_ & H1 & H2 & _).
  cbv zeta in *. split; [|exact H1]. rewrite H2. vm_compute. reflexivity.
Defined.
