(* ===== verification/ForwardingRoutes.v ===== *)
(** * Dynamic forwarding: bare ports and the life of a route

    The owner of a bare port is the one the rules name, whatever order Go's maps
    yield their routes in ([claimant_correct]); and a discovered route stays in
    the table, with its node and its age, until a successful scan, a successful
    inventory read or the shutdown takes it away ([routes_survive]). *)

From S2P Require Import Prelude GoText Forwarding ForwardingInvariant ForwardingCorrect ForwardingRestart.
Local Open Scope Z_scope.

(** ** The order of claims *)

(** Older first (newer first for the login callback), then by name. *)
Definition precedes (newest : bool) (a b : routePair) : Prop :=
  (if newest then r_discoveredAt b.2 < r_discoveredAt a.2 else r_discoveredAt a.2 < r_discoveredAt b.2) \/
  (r_discoveredAt a.2 = r_discoveredAt b.2 /\ String.le a.1.1 b.1.1).

Lemma ltb_le a b : String.ltb a b = true -> String.le a b.
Proof. unfold String.ltb, String.le, String.leb. by destruct (String.compare a b). Qed.
Lemma ltb_false_le a b : String.ltb a b = false -> String.le b a.
Proof.
  unfold String.ltb, String.le, String.leb. rewrite (String.compare_antisym b a).
  by destruct (String.compare a b).
Qed.

Lemma precedes_refl newest a : precedes newest a a.
Proof. right. split; [done|]. apply reflexivity. Qed.

Lemma precedes_trans newest a b c : precedes newest a b -> precedes newest b c -> precedes newest a c.
Proof.
  unfold precedes. intros [Hab|[Hab Hn]] [Hbc|[Hbc Hm]]; destruct newest; try (left; lia);
    right; (split; [lia|by transitivity b.1.1]).
Qed.

Lemma better_precedes newest a b : betterClaim newest a b = true -> precedes newest a b.
Proof.
  unfold betterClaim, precedes. intros [H|[H1 H2]%andb_true_iff]%orb_true_iff.
  - left. destruct newest; by apply Z.ltb_lt.
  - right. split; [by apply Z.eqb_eq|by apply ltb_le].
Qed.

Lemma not_better_precedes newest a b : betterClaim newest a b = false -> precedes newest b a.
Proof.
  unfold betterClaim, precedes. intros [H1 H2]%orb_false_iff.
  destruct (decide (r_discoveredAt a.2 = r_discoveredAt b.2)) as [He|Hne].
  - right. split; [done|]. rewrite He, Z.eqb_refl in H2. by apply ltb_false_le.
  - left. destruct newest; apply Z.ltb_ge in H1; lia.
Qed.

Definition candidate (port : Z) (includeLapsed : bool) (v : routePair) : Prop :=
  v.1.2 = port /\ (r_lapsed v.2 = true -> includeLapsed = true).

#[export] Instance candidate_dec port includeLapsed v : Decision (candidate port includeLapsed v).
Proof. unfold candidate. apply _. Defined.

Lemma claimCandidate_spec port newest includeLapsed sel v :
  claimCandidate port newest includeLapsed sel v =
    if decide (candidate port includeLapsed v)
    then match sel with None => Some v | Some s => if betterClaim newest v s then Some v else sel end
    else sel.
Proof.
  unfold claimCandidate. case_decide as Hd; unfold candidate in Hd.
  - destruct Hd as [Hp Hl]. rewrite (proj2 (Z.eqb_eq _ _) Hp). cbn [negb orb].
    destruct (r_lapsed v.2); [by rewrite Hl|done].
  - destruct (Z.eqb_spec v.1.2 port) as [He|Hne]; [cbn [negb orb]|done].
    destruct (r_lapsed v.2), includeLapsed; (done || (exfalso; by apply Hd)).
Qed.

(** The loop keeps the first claim of the order. *)
Lemma select_spec port newest includeLapsed order sel :
  match foldl (claimCandidate port newest includeLapsed) sel order with
  | None => sel = None /\ forall u, u ∈ order -> ~ candidate port includeLapsed u
  | Some v =>
      (sel = Some v \/ (v ∈ order /\ candidate port includeLapsed v)) /\
      (forall s, sel = Some s -> precedes newest v s) /\
      forall u, u ∈ order -> candidate port includeLapsed u -> precedes newest v u
  end.
Proof.
  revert sel. induction order as [|x order IH]; intros sel; cbn [foldl].
  - destruct sel as [s|]; [|by split; [|intros u Hu%not_elem_of_nil]]. split; [by left|].
    split; [intros s' [= <-]; apply precedes_refl|by intros u Hu%not_elem_of_nil].
  - set (sel' := claimCandidate port newest includeLapsed sel x). specialize (IH sel').
    pose proof (claimCandidate_spec port newest includeLapsed sel x) as Hs. fold sel' in Hs.
    destruct (foldl _ sel' order) as [v|].
    + destruct IH as (Hv & Hp & Hall). case_decide as Hc.
      * assert (Hx : precedes newest v x /\ forall s, sel = Some s -> precedes newest v s).
        { destruct sel as [s|]; [|split; [by apply Hp|done]].
          destruct (betterClaim newest x s) eqn:Hb; specialize (Hp _ Hs).
          - split; [done|]. intros s' [= <-]. apply better_precedes in Hb. by eapply precedes_trans.
          - apply not_better_precedes in Hb. split; [by eapply precedes_trans|by intros s' [= <-]]. }
        split; [|split; [exact (proj2 Hx)|]].
        { destruct Hv as [Hv|[Hv1 Hv2]]; [|right; split; [by right|done]]. rewrite Hs in Hv.
          destruct sel as [s|]; [destruct (betterClaim newest x s)|]; simplify_eq;
            first [by left|right; split; [left|done]]. }
        intros u [->|Hu]%elem_of_cons Hcu; [exact (proj1 Hx)|by apply Hall].
      * rewrite Hs in Hv, Hp. split; [|split; [done|]].
        { destruct Hv as [Hv|[Hv1 Hv2]]; [by left|right; split; [by right|done]]. }
        intros u [->|Hu]%elem_of_cons Hcu; [done|by apply Hall].
    + destruct IH as [Hn Hall]. rewrite Hn in Hs. case_decide as Hc.
      { destruct sel as [s|]; [|done]. by destruct (betterClaim newest x s). }
      split; [done|]. intros u [->|Hu]%elem_of_cons; [done|by apply Hall].
Qed.

(** The same for the name the selection answers. *)
Lemma selectClaimant_spec port newest includeLapsed order name :
  (forall v, v ∈ order -> v.1.1 <> "") ->
  selectClaimantLocked order port newest includeLapsed = name ->
  (name = "" /\ forall u, u ∈ order -> ~ candidate port includeLapsed u) \/
  exists v, v.1.1 = name /\ name <> "" /\ v ∈ order /\ candidate port includeLapsed v /\
    forall u, u ∈ order -> candidate port includeLapsed u -> precedes newest v u.
Proof.
  unfold selectClaimantLocked. intros Hne <-. pose proof (select_spec port newest includeLapsed order None) as Hs.
  destruct (foldl _ None order) as [v|]; [right|left; by destruct Hs].
  destruct Hs as ([Hv|[Hin Hc]] & _ & Hall); [done|]. exists v. split; [done|]. split; [by apply Hne|]. done.
Qed.

(** ** The owner of a port *)

(** Live before lapsed, then the order of claims. *)
Definition outranks (port : Z) (a b : routePair) : Prop :=
  (r_lapsed a.2 = false /\ r_lapsed b.2 = true) \/
  (r_lapsed a.2 = r_lapsed b.2 /\ precedes (port =? codexLoginCallbackPort) a b).

(** No route of the pinned node serves the port. *)
Definition unpinned (t : table) (port : Z) : Prop :=
  forall id name r, pins t !! port = Some id -> id <> "" -> routes t !! (name, port) = Some r -> r_nodeID r <> id.

Definition named (t : table) : Prop := forall key, is_Some (routes t !! key) -> key.1 <> "".

Lemma outranks_antisym port name name' r r' :
  outranks port ((name, port), r) ((name', port), r') -> outranks port ((name', port), r') ((name, port), r) ->
  name = name'.
Proof.
  unfold outranks, precedes. cbn [fst snd].
  intros [[H1 H2]|[H1 H2]] [[H3 H4]|[H3 H4]]; try congruence.
  destruct (port =? codexLoginCallbackPort), H2 as [H2|[H6 H2]], H4 as [H4|[H5 H4]]; try lia;
    exact (anti_symm String.le _ _ H2 H4).
Qed.

Section Owner.
Context (t : table) (port : Z) (order : list routePair).
Context (Horder : order ≡ₚ map_to_list (routes t)) (Hnamed : named t).

Lemma order_elem v : v ∈ order <-> routes t !! v.1 = Some v.2.
Proof. rewrite Horder. destruct v. apply elem_of_map_to_list. Qed.

Lemma order_named v : v ∈ order -> v.1.1 <> "".
Proof. rewrite order_elem. intros Hv. apply Hnamed. eauto. Qed.

Lemma find_some_spec (P : routePair -> bool) :
  match find P order with
  | Some v => v ∈ order /\ P v = true
  | None => forall v, v ∈ order -> P v = false
  end.
Proof.
  destruct (find P order) as [v|] eqn:E.
  - apply find_some in E as [Hin HP]. split; [by apply list_elem_of_In|done].
  - intros v Hv. eapply find_none; [exact E|]. by apply list_elem_of_In.
Qed.

Abbreviation owner := (preferredClaimantLocked order (pins t) port).

(** A pin with a route of its node on the port decides. *)
Lemma owner_pinned id name r :
  pins t !! port = Some id -> id <> "" -> routes t !! (name, port) = Some r -> r_nodeID r = id ->
  exists r', routes t !! (owner, port) = Some r' /\ r_nodeID r' = id.
Proof.
  intros Hp Hid Hr Hn. unfold preferredClaimantLocked. rewrite Hp. apply String.eqb_neq in Hid as ->.
  pose proof (find_some_spec (fun v => (v.1.2 =? port) && (r_nodeID v.2 =? id)%string)) as Hf.
  destruct (find _ order) as [[[name' port'] r']|].
  - destruct Hf as [Hin HP]. apply order_elem in Hin. cbn [fst snd] in *.
    apply andb_true_iff in HP as [He%Z.eqb_eq Hi%String.eqb_eq]. subst port'. eauto.
  - specialize (Hf ((name, port), r)). rewrite order_elem in Hf. specialize (Hf Hr). cbn [fst snd] in Hf.
    rewrite Z.eqb_refl in Hf. apply String.eqb_eq in Hn. by rewrite Hn in Hf.
Qed.

Lemma unpinned_or :
  unpinned t port \/
  exists id name r, pins t !! port = Some id /\ id <> "" /\ routes t !! (name, port) = Some r /\ r_nodeID r = id.
Proof.
  unfold unpinned. destruct (pins t !! port) as [id|] eqn:Ep; [|by left].
  destruct (decide (id = "")) as [->|Hid]; [left; by intros id name r [= <-]|].
  pose proof (find_some_spec (fun v => (v.1.2 =? port) && (r_nodeID v.2 =? id)%string)) as Hf.
  destruct (find _ order) as [[[name q] r]|].
  - right. destruct Hf as [Hin HP]. apply order_elem in Hin. cbn [fst snd] in *.
    apply andb_true_iff in HP as [He%Z.eqb_eq Hi%String.eqb_eq]. subst q. by exists id, name, r.
  - left. intros id' name r [= <-] _ Hr Hn. specialize (Hf ((name, port), r)). rewrite order_elem in Hf.
    specialize (Hf Hr). cbn [fst snd] in Hf. apply String.eqb_eq in Hn. by rewrite Z.eqb_refl, Hn in Hf.
Qed.

(** Without one, the live claim that comes first, or the lapsed one. *)
Lemma owner_unpinned :
  unpinned t port ->
  (owner = "" /\ forall name, routes t !! (name, port) = None) \/
  exists r, routes t !! (owner, port) = Some r /\
    forall name r', routes t !! (name, port) = Some r' -> outranks port ((owner, port), r) ((name, port), r').
Proof.
  intros Hun. unfold preferredClaimantLocked.
  assert (Hpin : match pins t !! port with
    | None => None
    | Some id => if (id =? "")%string then None else find (fun v => (v.1.2 =? port) && (r_nodeID v.2 =? id)%string) order
    end = None).
  { destruct (pins t !! port) as [id|] eqn:Ep; [|done]. destruct (String.eqb_spec id ""); [done|].
    pose proof (find_some_spec (fun v => (v.1.2 =? port) && (r_nodeID v.2 =? id)%string)) as Hf.
    destruct (find _ order) as [[[name' port'] r']|]; [|done]. exfalso. destruct Hf as [Hin HP].
    apply order_elem in Hin. cbn [fst snd] in *. apply andb_true_iff in HP as [He%Z.eqb_eq Hi%String.eqb_eq].
    subst port'. by apply (Hun id name' r'). }
  rewrite Hpin. cbv zeta. set (newest := port =? codexLoginCallbackPort).
  destruct (selectClaimant_spec port newest false order _ order_named eq_refl) as [[-> Hnone]|(v & <- & Hne & Hin & Hc & Hall)].
  - cbn [negb String.eqb].
    destruct (selectClaimant_spec port newest true order _ order_named eq_refl) as [[-> Hnone']|(v & <- & Hne & Hin & Hc & Hall)].
    + left. split; [done|]. intros name. destruct (routes t !! (name, port)) as [r|] eqn:Er; [exfalso|done].
      apply (Hnone' ((name, port), r)); [by apply order_elem|done].
    + right. apply order_elem in Hin. destruct v as [[name q] r], Hc as [Hq _]. cbn [fst snd] in *. subst q.
      exists r. split; [done|]. intros name' r' Hr'.
      assert (Hlapsed : forall n x, routes t !! (n, port) = Some x -> r_lapsed x = true).
      { intros n x Hx. destruct (r_lapsed x) eqn:El; [done|exfalso]. apply (Hnone ((n, port), x)); [by apply order_elem|].
        split; [done|]. cbn. by rewrite El. }
      right. cbn [fst snd]. rewrite (Hlapsed _ _ Hin), (Hlapsed _ _ Hr'). split; [done|].
      apply Hall; [by apply order_elem|done].
  - apply String.eqb_neq in Hne as ->. cbn [negb]. right. apply order_elem in Hin.
    destruct v as [[name q] r], Hc as [Hq Hl]. cbn [fst snd] in *. subst q. exists r. split; [done|].
    assert (El : r_lapsed r = false) by (destruct (r_lapsed r); [by specialize (Hl eq_refl)|done]).
    intros name' r' Hr'. unfold outranks. cbn [fst snd]. rewrite El. destruct (r_lapsed r') eqn:El'; [by left|right].
    split; [done|]. apply Hall; [by apply order_elem|]. split; [done|]. cbn. by rewrite El'.
Qed.
End Owner.

(** The owner of a bare port, in whatever order the route map is walked:
    none exactly when no route serves the port; a route of the pinned node if it
    has one there; and otherwise the one claim that outranks every other (live
    before lapsed, then the earliest discovery, the latest for the login
    callback, then the name), the same for every order of the map. *)
Theorem claimant_correct t port order order' :
  order ≡ₚ map_to_list (routes t) -> order' ≡ₚ map_to_list (routes t) -> named t ->
  let owner := preferredClaimantLocked order (pins t) port in
  (owner = "" <-> forall name, routes t !! (name, port) = None) /\
  (forall id name r, pins t !! port = Some id -> id <> "" -> routes t !! (name, port) = Some r -> r_nodeID r = id ->
     exists r', routes t !! (owner, port) = Some r' /\ r_nodeID r' = id) /\
  (unpinned t port ->
     preferredClaimantLocked order' (pins t) port = owner /\
     forall name r, routes t !! (name, port) = Some r ->
       exists r', routes t !! (owner, port) = Some r' /\ outranks port ((owner, port), r') ((name, port), r)).
Proof.
  intros Ho Ho' Hn. cbv zeta.
  pose proof (owner_pinned t port order Ho) as Hpin. pose proof (owner_unpinned t port order Ho Hn) as Hun.
  pose proof (owner_unpinned t port order' Ho' Hn) as Hun'.
  set (owner := preferredClaimantLocked order (pins t) port) in *.
  set (owner' := preferredClaimantLocked order' (pins t) port) in *. split; [|split; [exact Hpin|]].
  - split.
    + intros He. destruct (unpinned_or t port order Ho) as [Hu|(id & name & r & H1 & H2 & H3 & H4)].
      * destruct (Hun Hu) as [[_ Hnone]|(r & Hr & _)]; [done|]. exfalso.
        apply (Hn (owner, port)); [by exists r|done].
      * destruct (Hpin id name r H1 H2 H3 H4) as (r' & Hr & _). exfalso. apply (Hn (owner, port)); [by exists r'|done].
    + intros Hnone. destruct (unpinned_or t port order Ho) as [Hu|(id & name & r & _ & _ & Hr & _)]; [|by rewrite Hnone in Hr].
      destruct (Hun Hu) as [[He _]|(r & Hr & _)]; [done|by rewrite Hnone in Hr].
  - intros Hu. split.
    + destruct (Hun Hu) as [[He Hnone]|(r & Hr & Hbest)], (Hun' Hu) as [[He' Hnone']|(r' & Hr' & Hbest')]; try congruence.
      eapply outranks_antisym; [by apply Hbest'|by apply Hbest].
    + intros name r Hr. destruct (Hun Hu) as [[_ Hnone]|(r' & Hr' & Hbest)]; [by rewrite Hnone in Hr|].
      exists r'. split; [done|by apply Hbest].
Qed.

(** ** The life of a route *)

(** The same claim: node and age. *)
Definition sameClaim (r r' : dynamicForwardingRoute) : Prop :=
  r_nodeID r' = r_nodeID r /\ r_discoveredAt r' = r_discoveredAt r.

Definition keeps (t t' : table) (key : dynamicRouteKey) (r : dynamicForwardingRoute) : Prop :=
  exists r', routes t' !! key = Some r' /\ sameClaim r r'.

(** A successful inventory read that takes the routes of a node away: it left
    the inventory, cannot serve yet, or has been stopped for the grace period. *)
Definition leaves (inventory : list Node) (now : time) (t : table) (id : string) : Prop :=
  match presentNodes inventory !! id with
  | None => True
  | Some node =>
      applicationRoutesReady node = false \/
      (Observed node = false /\ exists s, nodes t !! id = Some s /\ notRunningSince s <> time_zero /\
         forwardingStopGrace <= time_sub now (notRunningSince s))
  end.

(** A successful scan that takes the route away: the scanned node has it and
    does not serve the port under that name, or cannot serve at all. *)
Definition scanned (t : table) (node : Node) : Node :=
  match nodes t !! ID node with Some s => n_node s | None => node end.
Definition unlisted (t : table) (node : Node) (ports : list Z) (key : dynamicRouteKey) (r : dynamicForwardingRoute)
    : Prop :=
  r_nodeID r = ID (scanned t node) /\
  (applicationRoutesReady (scanned t node) = false \/ key.1 <> ToLower (SandboxName (scanned t node)) \/ key.2 ∉ ports).

Lemma keeps_refl t t' key r : routes t !! key = Some r -> routes t' !! key = routes t !! key -> keeps t t' key r.
Proof. intros Hr E. exists r. by rewrite E. Qed.

Lemma removeNodeRoutes_keeps id now t key r :
  routes t !! key = Some r -> r_nodeID r <> id -> routes (removeNodeRoutesLocked id now t) !! key = Some r.
Proof.
  intros Hr Hne. unfold removeNodeRoutesLocked. rewrite removeAll_routes. case_decide as Hin; [exfalso|exact Hr].
  apply list_elem_of_fmap in Hin as ([k x] & He & [Hx Hk]%list_elem_of_filter). simpl in *. subst k.
  apply elem_of_map_to_list in Hk. congruence.
Qed.

Lemma retireNode_keeps id now t key r :
  routes t !! key = Some r -> r_nodeID r <> id -> routes (retireNodeLocked id now t) !! key = Some r.
Proof. unfold retireNodeLocked. intros Hr. by apply removeNodeRoutes_keeps. Qed.

Lemma stopped_since s now node :
  confirmedStopped (set_node node (if time_is_zero (notRunningSince s) then now else notRunningSince s) s) now
    forwardingStopGrace = true ->
  notRunningSince s <> time_zero /\ forwardingStopGrace <= time_sub now (notRunningSince s).
Proof.
  unfold confirmedStopped. cbn [notRunningSince set_node]. destruct (time_is_zero (notRunningSince s)) eqn:Ez.
  - assert (Hz : time_sub now now = 0) by (unfold time_sub, clamp63; lia). rewrite Hz.
    change (0 <? forwardingStopGrace) with true. by rewrite orb_true_r.
  - rewrite Ez. cbn [orb]. destruct (_ <? _) eqn:El; [done|]. intros _. apply Z.ltb_ge in El. split; [|done].
    unfold time_is_zero in Ez. by apply Z.eqb_neq.
Qed.

Section Sync.
Context (inventory : list Node) (now : time).
Abbreviation present := (presentNodes inventory).

Lemma restoreClaims_keeps l t key r :
  routes t !! key = Some r -> routes (foldl (restoreClaim present now) t l) !! key = Some r.
Proof.
  revert t. induction l as [|[k m] l IH]; intros t Hr; cbn [foldl]; [done|]. apply IH. unfold restoreClaim.
  destruct (present !! m_nodeID m) as [node|]; [|by rewrite (proj1 (proj2 (proj2 (dropPin_other _ _ _))))].
  destruct (negb _); [by rewrite (proj1 (proj2 (proj2 (dropPin_other _ _ _))))|].
  set (t1 := match nodes t !! m_nodeID m with None => _ | Some _ => t end).
  assert (E : routes t1 = routes t) by (unfold t1; by destruct (nodes t !! m_nodeID m)).
  destruct (applicationRoutesReady node); [|by rewrite E]. cbn [routes set_restored].
  destruct (routes t1 !! k) eqn:Ek; [by rewrite E|]. cbn [routes set_routes].
  rewrite lookup_insert_ne; [by rewrite E|]. intros ->. congruence.
Qed.

(** The nodes the claims add are not stopped. *)
Lemma restoreClaims_nodes l t id s :
  nodes (foldl (restoreClaim present now) t l) !! id = Some s ->
  nodes t !! id = Some s \/ notRunningSince s = time_zero.
Proof.
  revert t. induction l as [|[k m] l IH]; intros t; cbn [foldl]; [by left|]. intros Hs.
  apply IH in Hs as [Hs|Hs]; [|by right]. revert Hs. unfold restoreClaim.
  destruct (present !! m_nodeID m) as [node|]; [|rewrite (proj1 (proj2 (dropPin_other _ _ _))); by left].
  destruct (negb _); [rewrite (proj1 (proj2 (dropPin_other _ _ _))); by left|].
  set (t1 := match nodes t !! m_nodeID m with None => _ | Some _ => t end).
  assert (Ht1 : nodes t1 !! id = Some s -> nodes t !! id = Some s \/ notRunningSince s = time_zero).
  { unfold t1. destruct (nodes t !! m_nodeID m); [by left|]. cbn [nodes set_nodes].
    intros [[_ <-]|[_ H]]%lookup_insert_Some; [by right|by left]. }
  destruct (applicationRoutesReady node); [cbn [nodes set_restored]|exact Ht1].
  by destruct (routes t1 !! k).
Qed.

Lemma syncNode_keeps t0 acc id s key r :
  (nodes t0 !! id = Some s \/ notRunningSince s = time_zero) -> routes acc.1 !! key = Some r ->
  routes (syncNode present now acc (id, s)).1 !! key = Some r \/ (r_nodeID r = id /\ leaves inventory now t0 id).
Proof.
  destruct acc as [t targets]. cbn [fst]. intros Hs Hr. unfold syncNode, leaves.
  destruct (decide (r_nodeID r = id)) as [He|Hne].
  - destruct (present !! id) as [node|]; [|by right].
    destruct (applicationRoutesReady node) eqn:Ea; [cbn [negb]|by right; split; [|left]].
    destruct (Observed node) eqn:Eo; [by left|]. destruct (confirmedStopped _ _ _) eqn:Ec; [|by left].
    right. split; [done|]. right. split; [done|]. apply stopped_since in Ec as [H1 H2].
    destruct Hs as [Hs|Hs]; [|done]. by exists s.
  - left. destruct (present !! id) as [node|]; [|by apply retireNode_keeps].
    set (t1 := if negb _ then _ else t).
    assert (H1 : routes t1 !! key = Some r) by (unfold t1; destruct (negb _); [by apply removeNodeRoutes_keeps|done]).
    destruct (Observed node); [done|]. destruct (confirmedStopped _ _ _); [|done]. by apply retireNode_keeps.
Qed.

Lemma syncNodes_keeps t0 l acc key r :
  (forall id s, (id, s) ∈ l -> nodes t0 !! id = Some s \/ notRunningSince s = time_zero) ->
  routes acc.1 !! key = Some r ->
  routes (foldl (syncNode present now) acc l).1 !! key = Some r \/ leaves inventory now t0 (r_nodeID r).
Proof.
  revert acc. induction l as [|[id s] l IH]; intros acc Hl Hr; cbn [foldl]; [by left|].
  destruct (syncNode_keeps t0 acc id s key r) as [H|[<- H]]; [apply Hl; left|done| |by right].
  apply IH; [|done]. intros id' s' Hin. apply Hl. by right.
Qed.

Lemma admitNodes_keeps l acc : routes (foldl admitNode acc l).1 = routes acc.1.
Proof.
  revert acc. induction l as [|[id node] l IH]; intros [t targets]; cbn [foldl]; [done|].
  rewrite IH. unfold admitNode. cbn [fst]. by destruct (nodes t !! id).
Qed.

Lemma syncMembership_keeps t key r :
  routes t !! key = Some r ->
  routes (syncMembership inventory now t).1 !! key = Some r \/ leaves inventory now t (r_nodeID r).
Proof.
  intros Hr. unfold syncMembership. set (t1 := foldl (restoreClaim present now) t _).
  pose proof (syncNodes_keeps t (map_to_list (nodes t1)) (t1, []) key r) as Hs.
  destruct Hs as [Hs|Hs]; [|by apply restoreClaims_keeps| |by right].
  { intros id s Hin. apply elem_of_map_to_list in Hin. by eapply restoreClaims_nodes. }
  left. destruct (foldl (syncNode present now) (t1, []) _) as [t2 targets].
  pose proof (admitNodes_keeps (map_to_list (filter (fun v => Observed v.2 = true) present)) (t2, targets)) as Ha.
  destruct (foldl admitNode (t2, targets) _) as [t3 targets']. cbn [fst] in *. simpl. by rewrite Ha.
Qed.
End Sync.

Lemma keeps_same t t' t'' key r : keeps t t' key r -> routes t'' = routes t' -> keeps t t'' key r.
Proof. unfold keeps. by intros H ->. Qed.

Lemma sameClaim_trans a b c : sameClaim a b -> sameClaim b c -> sameClaim a c.
Proof. unfold sameClaim. intros [-> ->] [-> ->]. done. Qed.

Lemma scanPort_keeps node peer now t port key r :
  routes t !! key = Some r -> keeps t (scanPort node peer now t port) key r.
Proof.
  intros Hr. unfold scanPort, keeps. set (k := (ToLower (SandboxName node), port)).
  destruct (routes t !! k) as [x|] eqn:Ek.
  - cbn [routes set_routes]. destruct (decide (k = key)) as [<-|Hne].
    + rewrite lookup_insert_eq. eexists. split; [done|]. assert (x = r) as -> by congruence.
      exact (refresh_same peer now r).
    + rewrite lookup_insert_ne by done. by exists r.
  - destruct (discoveryTimeLocked (ID node) k now t) as [d t'] eqn:Ed.
    assert (E : routes t' = routes t).
    { revert Ed. unfold discoveryTimeLocked. destruct (restored t !! k); [destruct (_ =? _)%string|]; by intros [= <- <-]. }
    cbn [routes set_routes]. rewrite E, lookup_insert_ne; [by exists r|]. intros ->. congruence.
Qed.

Lemma scanPorts_keeps node peer now l t key r :
  routes t !! key = Some r -> keeps t (foldl (scanPort node peer now) t l) key r.
Proof.
  revert t r. induction l as [|port l IH]; intros t r Hr; cbn [foldl]; [by exists r|].
  destruct (scanPort_keeps node peer now t port key r Hr) as (r1 & Hr1 & H1).
  destruct (IH _ r1 Hr1) as (r2 & Hr2 & H2). exists r2. split; [done|]. by eapply sameClaim_trans.
Qed.

Lemma expireClaims_routes id l t : routes (foldl (expireClaim id) t l) = routes t.
Proof.
  revert t. induction l as [|kc l IH]; intros t; cbn [foldl]; [done|]. rewrite IH. unfold expireClaim.
  by rewrite (proj1 (proj2 (proj2 (dropPin_other _ _ _)))).
Qed.

Lemma applyScanResult_keeps node peer ports now t key r :
  routes t !! key = Some r -> keeps t (applyScanResult node peer ports now t) key r \/ unlisted t node ports key r.
Proof.
  intros Hr. unfold applyScanResult, unlisted, scanned.
  set (pair := match nodes t !! ID node with Some _ => _ | None => _ end).
  assert (Hpair : pair.1 = scanned t node /\ routes pair.2 = routes t).
  { unfold pair, scanned. by destruct (nodes t !! ID node). }
  fold (scanned t node). destruct pair as [n t1]. cbn [fst snd] in Hpair. destruct Hpair as [-> E1].
  set (n := scanned t node) in *. set (ports' := if applicationRoutesReady n then ports else []).
  set (wanted := list_to_set _ : gset dynamicRouteKey).
  assert (Hr1 : routes t1 !! key = Some r) by by rewrite E1.
  destruct (scanPorts_keeps n peer now ports' t1 key r Hr1) as (r2 & Hr2 & Hsame).
  set (t2 := foldl (scanPort n peer now) t1 ports') in *. cbv zeta.
  destruct (decide (r_nodeID r = ID n /\ key ∉ wanted)) as [[Hid Hw]|Hno].
  - right. split; [done|]. destruct (applicationRoutesReady n) eqn:Ea; [right|by left].
    destruct (decide (key.1 = ToLower (SandboxName n))) as [He|Hne]; [right|by left]. intros Hin. apply Hw.
    unfold wanted, ports'. apply elem_of_list_to_set, list_elem_of_fmap. exists key.2. split; [|done].
    rewrite <- He. by destruct key.
  - left. exists r2. split; [|done]. rewrite expireClaims_routes, removeAll_routes. case_decide as Hin; [exfalso|done].
    apply list_elem_of_fmap in Hin as ([k x] & He & [[Hx Hk] Hin]%list_elem_of_filter). cbn [fst snd] in *. subst k.
    apply elem_of_map_to_list in Hin. assert (x = r2) as -> by congruence. apply Hno. destruct Hsame as [<- _]. done.
Qed.

(** Sections that rewrite the routes one by one. *)
Lemma fmap_keeps t t' (g : dynamicForwardingRoute -> dynamicForwardingRoute) key r :
  routes t' = g <$> routes t -> (forall x, sameClaim x (g x)) -> routes t !! key = Some r -> keeps t t' key r.
Proof. intros E Hg Hr. exists (g r). rewrite E, lookup_fmap, Hr. split; [done|apply Hg]. Qed.

Lemma fail_keeps nodeID now t key r : routes t !! key = Some r -> keeps t (recordNodeFailure nodeID now t) key r.
Proof.
  intros Hr. unfold recordNodeFailure. destruct (nodes t !! nodeID) as [s|]; [|by exists r]. cbv zeta.
  destruct (_ && _); cbn [routes set_nodes]; [|by exists r].
  apply (fmap_keeps t _ (lapse nodeID now)); [done| |done]. intros x. unfold lapse. by destruct (_ || _).
Qed.

Lemma adopt_keeps nodeID peer t key r : routes t !! key = Some r -> keeps t (adoptPeer nodeID peer t) key r.
Proof.
  intros Hr. unfold adoptPeer. destruct (nodes t !! nodeID) as [s|]; [|by exists r].
  eapply (fmap_keeps t _ _); [done| |done]. intros x. cbv beta.
  by destruct (r_nodeID x =? nodeID)%string.
Qed.

Lemma retirePeer_routes nodeID t : routes (retirePeer nodeID t) = routes t.
Proof. unfold retirePeer. destruct (nodes t !! nodeID) as [s|]; [|done]. by destruct (n_peer s). Qed.

Section Steps.
Context (uuidParse : string -> bool).
Context (Marshal : routingPolicy -> result bytes) (Unmarshal : bytes -> result routingPolicy).

Lemma write_table saved io disk f r f' disk' :
  writeRoutingPolicy Marshal saved io disk f = (r, f', disk') -> tbl f' = tbl f.
Proof.
  unfold writeRoutingPolicy. destruct (_ =? _)%string; [by intros [= <- <- <-]|].
  destruct (Marshal saved) as [data|e]; [|by intros [= <- <- <-]]. destruct (_ <? _); [by intros [= <- <- <-]|].
  case_bool_decide; [by intros [= <- <- <-]|]. destruct io; by intros [= <- <- <-].
Qed.

Lemma persist_table io disk f r f' disk' :
  persistRoutingPolicy Marshal io disk f = (r, f', disk') -> tbl f' = tbl f.
Proof.
  unfold persistRoutingPolicy. destruct (policyClosed f); [by intros [= <- <- <-]|].
  destruct (routingPolicySnapshot None f); [apply write_table|by intros [= <- <- <-]].
Qed.

Lemma freeze_table io disk f r f' disk' :
  prepareRoutingHandoff Marshal io disk f = (r, f', disk') -> tbl f' = tbl f.
Proof.
  unfold prepareRoutingHandoff. destruct (policyClosed f); [by intros [= <- <- <-]|].
  destruct (routingPolicySnapshot None f) as [p|e]; [|by intros [= <- <- <-]].
  destruct (writeRoutingPolicy Marshal p io disk f) as [[[u|e] f1] d1] eqn:E; apply write_table in E;
    by intros [= <- <- <-].
Qed.

Lemma pin_routes nodeID port io disk f r f' disk' :
  pinBarePort Marshal nodeID port io disk f = (r, f', disk') -> routes (tbl f') = routes (tbl f).
Proof.
  unfold pinBarePort. destruct (policyClosed f); [by intros [= <- <- <-]|]. cbv zeta.
  destruct (negb _); [by intros [= <- <- <-]|]. destruct (routingPolicySnapshot _ f) as [p|e]; [|by intros [= <- <- <-]].
  destruct (writeRoutingPolicy Marshal p io disk f) as [[[u|e] f1] d1] eqn:E; apply write_table in E;
    intros [= <- <- <-]; [|by rewrite E]. cbn [tbl set_servers set_tbl routes set_pins]. by rewrite E.
Qed.

(** C27: a discovered route stays in the table as the same claim (same node, same
    discovery time) through every step of the forwarder, except a successful
    inventory read outside a handoff after which its node is gone, not ready or
    stopped for the grace period; a successful scan outside a handoff that does
    not confirm it; and the shutdown.  Failures, outages, peer changes, pins, saves
    and the handoff itself never drop one. *)
Theorem routes_survive w a w' key r :
  step uuidParse Marshal Unmarshal w a = Some w' -> routes (tbl w.1) !! key = Some r ->
  keeps (tbl w.1) (tbl w'.1) key r \/
  match a with
  | Sync inventory now => policyHandoff w.1 = false /\ leaves inventory now (tbl w.1) (r_nodeID r)
  | Scan node _ ports _ => policyHandoff w.1 = false /\ unlisted (tbl w.1) node ports key r
  | CloseForwarder _ => True
  | _ => False
  end.
Proof.
  destruct w as [f disk]. cbn [fst]. intros Hstep Hr.
  assert (Hkeep : forall t, routes t = routes (tbl f) -> keeps (tbl f) t key r) by (intros t E; exists r; by rewrite E).
  destruct a as [|inventory now|node peer ports now|nodeID now|nodeID peer|nodeID|listen|nodeID port io|io|io| |io];
    cbn [step] in Hstep.
  - destruct (unstarted (tbl f)) eqn:Eu; [exfalso|done]. apply unstarted_empty in Eu as (_ & _ & _ & E & _).
    by rewrite E, lookup_empty in Hr.
  - destruct (policyClosed f); [done|]. injection Hstep as <-. unfold syncSection. cbn [fst].
    destruct (policyHandoff f); [left; by apply Hkeep|]. cbn [tbl set_known set_tbl].
    destruct (syncMembership_keeps inventory now (tbl f) key r Hr) as [H|H]; [left; by exists r|by right].
  - destruct (_ && _); [|done]. injection Hstep as <-. unfold scanSection. cbn [fst].
    destruct (policyHandoff f); [left; by apply Hkeep|]. cbn [tbl set_tbl].
    destruct (applyScanResult_keeps node peer ports now (tbl f) key r Hr) as [H|H]; [by left|by right].
  - injection Hstep as <-. left. by apply fail_keeps.
  - injection Hstep as <-. left. by apply adopt_keeps.
  - injection Hstep as <-. left. apply Hkeep. apply retirePeer_routes.
  - injection Hstep as <-. left. by apply Hkeep.
  - destruct (pinBarePort Marshal nodeID port io disk f) as [[x f'] disk'] eqn:E. injection Hstep as <-. left.
    apply Hkeep. exact (pin_routes _ _ _ _ _ _ _ _ E).
  - destruct (persistRoutingPolicy Marshal io disk f) as [[x f'] disk'] eqn:E. injection Hstep as <-. left.
    apply Hkeep. cbn [fst]. by rewrite (persist_table _ _ _ _ _ _ E).
  - destruct (prepareRoutingHandoff Marshal io disk f) as [[x f'] disk'] eqn:E. injection Hstep as <-. left.
    apply Hkeep. cbn [fst]. by rewrite (freeze_table _ _ _ _ _ _ E).
  - injection Hstep as <-. left. by apply Hkeep.
  - by right.
Qed.
End Steps.

(** ** A sample *)

(** The world the sample of [ForwardingRestart] ends in. *)
Module Sample.
Import ForwardingRestart.Sample.

Definition t : table := tbl last.1.

Definition servedBy (key : dynamicRouteKey) (id : string) : bool :=
  match routes t !! key with Some r => (r_nodeID r =? id)%string | None => false end.

Lemma servedBy_route key id : servedBy key id = true -> exists r, routes t !! key = Some r /\ r_nodeID r = id.
Proof. unfold servedBy. destruct (routes t !! key) as [r|]; [|done]. intros H%String.eqb_eq. eauto. Qed.

Lemma api_route : exists r, routes t !! ("api", 3000) = Some r /\ r_nodeID r = "n002".
Proof. apply servedBy_route. vm_compute. reflexivity. Qed.
Lemma web_route : exists r, routes t !! ("web", 3000) = Some r /\ r_nodeID r = "n001".
Proof. apply servedBy_route. vm_compute. reflexivity. Qed.
Lemma t_pin : pins t !! 3000 = Some "n002".
Proof. vm_compute. reflexivity. Qed.
Lemma t_owner : preferredClaimantLocked (map_to_list (routes t)) (pins t) 3000 = "api".
Proof. vm_compute. reflexivity. Qed.
Lemma t_named : named t.
Proof.
  assert (Hall : map_Forall (fun key _ => key.1 <> "") (routes t)) by (apply (bool_decide_unpack _); vm_compute; exact I).
  intros key [r Hr]. exact (Hall key r Hr).
Qed.
End Sample.

Theorem claimant_correct_witness :
  exists r, routes Sample.t !! (preferredClaimantLocked (map_to_list (routes Sample.t)) (pins Sample.t) 3000, 3000) = Some r
    /\ r_nodeID r = "n002".
Proof.
  destruct (claimant_correct Sample.t 3000 (map_to_list (routes Sample.t)) (map_to_list (routes Sample.t))
    (Permutation_refl _) (Permutation_refl _) Sample.t_named) as (_ & Hpin & _).
  destruct Sample.api_route as (r & Hr & Hid).
  exact (Hpin "n002" "api" r Sample.t_pin ltac:(discriminate) Hr Hid).
Defined.

(** A failed node keeps its routes. *)
Theorem routes_survive_witness :
  exists w' r, step ForwardingRestart.Sample.uuidParse ForwardingRestart.Sample.Marshal
      ForwardingRestart.Sample.Unmarshal ForwardingRestart.Sample.last (Fail "n001" 5000) = Some w' /\
    keeps Sample.t (tbl w'.1) ("web", 3000) r.
Proof.
  destruct Sample.web_route as (r & Hr & _).
  assert (Hs : exists w', step ForwardingRestart.Sample.uuidParse ForwardingRestart.Sample.Marshal
    ForwardingRestart.Sample.Unmarshal ForwardingRestart.Sample.last (Fail "n001" 5000) = Some w').
  { unfold step. destruct ForwardingRestart.Sample.last as [f disk]. by eexists. }
  destruct Hs as [w' Hs]. exists w', r. split; [exact Hs|].
  destruct (routes_survive ForwardingRestart.Sample.uuidParse ForwardingRestart.Sample.Marshal
    ForwardingRestart.Sample.Unmarshal ForwardingRestart.Sample.last (Fail "n001" 5000) w' ("web", 3000) r Hs Hr)
    as [H|[]].
  exact H.
Defined.
