(* ===== verification/ActivityText.v ===== *)
(** * Activity messages: their text

    [plainLogText] of [internal/codelima/node_log_source.go] and
    [normalizeActivityMessage] of [activity_journal.go] with
    [validateActivityAction] of [activity_action.go].  What the normalisation
    answers it accepts again unchanged ([normalize_idempotent]), which the
    journal relies on when it reads its records back. *)

From S2P Require Import Prelude GoText VTBoundary.
Local Open Scope Z_scope.

(** ** Plain text *)

(** The zero-width joiners [plainLogText] keeps. *)
Definition zeroWidthNonJoiner : bytes := [0xe2; 0x80; 0x8c].
Definition zeroWidthJoiner : bytes := [0xe2; 0x80; 0x8d].

Section Text.
(** [unicode.IsPrint] of the runes beyond ASCII, by their encoding. *)
Context (printable : bytes -> bool).

Definition IsPrint (r : bytes) : bool :=
  match r with [b] => within 0x20 0x7e b | _ => printable r end.

(** What one rune at a boundary writes. *)
Definition shown (r : bytes) : bytes :=
  if bool_decide (r = [9]) then [32; 32; 32; 32]
  else if bool_decide (r = [10]) || bool_decide (r = [13]) then [32]
  else if IsPrint r || bool_decide (r = zeroWidthNonJoiner) || bool_decide (r = zeroWidthJoiner) then r
  else [].

(** The loop over the runes; every round takes a byte at least. *)
Fixpoint plainLoop (fuel : nat) (boundary : VTBoundary) (l : bytes) : bytes :=
  match fuel with
  | O => []
  | S fuel =>
      match l with
      | [] => []
      | _ =>
          let w := Nat.max 1 (runeWidth l) in
          let boundary' := Feed boundary (take w l) in
          (if Ground boundary && Ground boundary' then shown (take w l) else [])
          ++ plainLoop fuel boundary' (drop w l)
      end
  end.

Definition plainBytes (l : bytes) : bytes :=
  let valid := toValid (length l) (bytes_of replacementRune) l false in
  plainLoop (length valid) vtZero valid.

Definition plainLogText (text : string) : string := string_of (plainBytes (bytes_of text)).

(** ** Requests *)

Record activityMessageRequest := MessageRequest {
  Action : string;
  TerminalID : string;
  Success : bool;
  am_ID : string;
  Source : string;
  Level : Z;
  Text : string;
  NodeID : string;
  NodeSlug : string;
}.

Definition LevelInfo : Z := 0.
Definition LevelWarn : Z := 4.
Definition LevelError : Z := 8.

Definition utf8ValidString (s : string) : bool := validUTF8 (length (bytes_of s)) (bytes_of s).

Definition terminalIDChar (b : Z) : bool :=
  within 97 122 b || within 65 90 b || within 48 57 b || (b =? 45) || (b =? 95).

Definition validateActivityAction (request : activityMessageRequest) : result unit :=
  let invalid := Err (invalidArgument "invalid Activity navigation target") in
  if existsb (String.eqb (Action request)) [""; "host"; "ports"; "daemon"]%string then
    if (TerminalID request =? "")%string then Ok tt else invalid
  else if (Action request =? "terminal")%string then
    let id := bytes_of (TerminalID request) in
    if negb (NodeID request =? "")%string && (0 <? zlen id) && (zlen id <=? 128) && forallb terminalIDChar id
    then Ok tt else invalid
  else invalid.

(** github.com/google/uuid's [Parse] succeeds. *)
Context (uuidParse : string -> bool).

(** One field of the loop: its length and its encoding. *)
Definition fieldOk (value : string) (limit : Z) : bool := (slen value <=? limit) && utf8ValidString value.

Definition normalText (s : string) : string := TrimSpace (plainLogText s).

Definition normalizeActivityMessage (request : activityMessageRequest) : result activityMessageRequest :=
  if negb (uuidParse (am_ID request)) then Err (invalidArgument "activity message ID must be a UUID")
  else if negb (NodeID request =? "")%string && negb (uuidParse (NodeID request))
  then Err (invalidArgument "activity node ID must be a UUID")
  else if negb (Level request =? LevelInfo) && negb (Level request =? LevelWarn) && negb (Level request =? LevelError)
  then Err (invalidArgument "activity level must be info, warn or error")
  else
    _ ← validateActivityAction request;
    if negb (fieldOk (Text request) 4096 && fieldOk (Source request) 64 && fieldOk (NodeSlug request) 128)
    then Err (invalidArgument "activity message field is oversized or invalid UTF-8")
    else
      let text := normalText (Text request) in
      let source := normalText (Source request) in
      let slug := normalText (NodeSlug request) in
      if (text =? "")%string || (source =? "")%string
      then Err (invalidArgument "activity source and text are required")
      else if (4096 <? slen text) || (64 <? slen source) || (128 <? slen slug)
      then Err (invalidArgument "normalized activity message exceeds its field limit")
      else Ok {| Action := Action request; TerminalID := TerminalID request; Success := Success request;
                 am_ID := am_ID request; Source := source; Level := Level request; Text := text;
                 NodeID := NodeID request; NodeSlug := slug |}.

End Text.

(** ** Runes *)

Definition rune (r : bytes) : Prop := r <> [] /\ runeWidth r = length r.

Lemma within_spec lo hi b : within lo hi b = true <-> lo <= b <= hi.
Proof. unfold within. rewrite andb_true_iff, !Z.leb_le. lia. Qed.

Lemma runeWidth_app r k : rune r -> runeWidth (r ++ k) = length r.
Proof.
  intros [Hne Hw]. destruct r as [|b [|c [|d [|e [|f r]]]]]; [done|..]; revert Hw; unfold runeWidth; simpl;
    repeat (case_match; simpl; try lia).
Qed.

Lemma runeWidth_take l : rune (take (runeWidth l) l) \/ runeWidth l = 0%nat.
Proof.
  destruct (runeWidth l) as [|w] eqn:Hw; [by right|left]. pose proof (runeWidth_le l) as Hle. rewrite Hw in Hle.
  split; [by destruct l|]. rewrite length_take, Nat.min_l by done. revert Hw. clear Hle.
  destruct l as [|b l]; [done|]. unfold runeWidth at 1. destruct (within 0 0x7f b) eqn:E1.
  { intros [= <-]. simpl. by rewrite E1. }
  destruct l as [|c l]; [done|]. destruct (within 0xc2 0xdf b) eqn:E2.
  { destruct (within 0x80 0xbf c) eqn:E3; [|done]. intros [= <-]. simpl. by rewrite E1, E2, E3. }
  destruct l as [|d l]; [done|]. destruct (within 0xe0 0xef b) eqn:E3.
  { destruct (_ && _) eqn:E4; [|done]. intros [= <-]. simpl. by rewrite E1, E2, E3, E4. }
  destruct l as [|e l]; [done|]. destruct (_ && _) eqn:E4; [|done]. intros [= <-]. simpl.
  by rewrite E1, E2, E3, E4.
Qed.

Lemma rune_bytes r : rune r -> Forall (fun b => 0 <= b < 256) r.
Proof.
  intros [_ Hw]. destruct r as [|b [|c [|d [|e [|f r]]]]]; revert Hw; unfold runeWidth; simpl; [by constructor|..];
    repeat (case_match; try done); intros _;
    repeat match goal with
    | H : (_ && _)%bool = true |- _ => apply andb_true_iff in H as [? ?]
    | H : within _ _ _ = true |- _ => apply within_spec in H
    end; repeat (case_match || constructor; try lia).
Qed.

(** UTF-8 is self-synchronising: a rune starts where the lead byte is. *)
Definition continuation (b : Z) : bool := within 0x80 0xbf b.

Lemma rune_shape r : rune r -> exists b t, r = b :: t /\ continuation b = false /\ forallb continuation t = true.
Proof.
  intros [Hne Hw]. destruct r as [|b t]; [done|]. exists b, t. split; [done|]. revert Hw. unfold continuation.
  unfold runeWidth. destruct (within 0 0x7f b) eqn:E1.
  { destruct t; [|done]. intros _. split; [|done]. apply within_spec in E1. apply not_true_iff_false. rewrite within_spec. lia. }
  destruct t as [|c t]; [done|]. destruct (within 0xc2 0xdf b) eqn:E2.
  { destruct (within 0x80 0xbf c) eqn:E3; [|done]. destruct t; [|done]. intros _. simpl. rewrite E3. split; [|done].
    apply within_spec in E2. apply not_true_iff_false. rewrite within_spec. lia. }
  assert (Hcont : forall lo hi, 0x80 <= lo -> hi <= 0xbf -> within lo hi c = true -> within 0x80 0xbf c = true).
  { intros lo hi Hlo Hhi. rewrite !within_spec. lia. }
  destruct t as [|d t]; [done|]. destruct (within 0xe0 0xef b) eqn:E3.
  { destruct (_ && _) eqn:E4; [|done]. destruct t; [|done]. intros _. apply andb_true_iff in E4 as [E4 E5]. simpl. rewrite E5.
    assert (within 0x80 0xbf c = true) as -> by (eapply Hcont; [| |exact E4]; [destruct (b =? 0xe0)|destruct (b =? 0xed)]; lia). split; [|done].
    apply within_spec in E3. apply not_true_iff_false. rewrite within_spec. lia. }
  destruct t as [|e t]; [done|]. destruct (_ && _) eqn:E4; [|done]. destruct t; [|done]. intros _. bool_to_prop. simpl.
  assert (within 0x80 0xbf c = true) as -> by (eapply Hcont; [| |eassumption]; [destruct (b =? 0xf0)|destruct (b =? 0xf4)]; lia).
  match goal with H : within 0x80 0xbf d = true |- _ => rewrite H end.
  match goal with H : within 0x80 0xbf e = true |- _ => rewrite H end. split; [|done].
  match goal with H : within 0xf0 0xf4 b = true |- _ => apply within_spec in H end.
  apply not_true_iff_false. rewrite within_spec. lia.
Qed.

(** The rune a text starts with. *)
Lemma rune_head p r l k : rune p -> rune r -> p ++ l = r ++ k -> p = r /\ l = k.
Proof.
  intros Hp Hr E. pose proof (runeWidth_app p l Hp) as H1. pose proof (runeWidth_app r k Hr) as H2.
  apply app_inj_1; [|done]. rewrite E in H1. congruence.
Qed.

(** The rune a text ends with. *)
Lemma rune_last p r l k : rune p -> rune r -> l ++ p = k ++ r -> p = r /\ l = k.
Proof.
  intros Hp Hr E.
  destruct (rune_shape p Hp) as (b & t & -> & Hb & Ht). destruct (rune_shape r Hr) as (c & u & -> & Hc & Hu).
  assert (Hlen : length t = length u).
  { assert (Hlt : forall b (t : bytes) l c u k, continuation b = false -> forallb continuation u = true ->
      l ++ b :: t = k ++ c :: u -> ~ (length t < length u)%nat).
    { clear. intros b t l c u k Hb Hu E Hlt. apply (f_equal (@rev Z)) in E. rewrite !rev_app_distr in E. simpl in E.
      rewrite <- !app_assoc in E. simpl in E. apply (f_equal (lookup (length (rev t)))) in E.
      rewrite list_lookup_middle in E by done. rewrite lookup_app_l in E by (rewrite !length_rev; lia).
      apply eq_sym, list_elem_of_lookup_2 in E. apply list_elem_of_In, in_rev in E.
      rewrite forallb_forall in Hu. apply Hu in E. congruence. }
    pose proof (Hlt b t l c u k Hb Hu E). pose proof (Hlt c u k b t l Hc Ht (eq_sym E)). lia. }
  apply app_inj_2 in E as [-> E]; [|simpl; lia]. done.
Qed.

(** ** Clean text *)

Section Clean.
Context (printable : bytes -> bool).

(** A rune that is shown as it is. *)
Definition cleanRune (r : bytes) : Prop :=
  rune r /\ (IsPrint printable r = true \/ r = zeroWidthNonJoiner \/ r = zeroWidthJoiner).

Lemma clean_shown r : cleanRune r -> shown printable r = r.
Proof.
  intros [_ Hr]. unfold shown.
  assert (Hne : forall b, b < 32 -> r <> [b]).
  { intros b Hb ->. destruct Hr as [Hr|[Hr|Hr]]; [|done|done]. apply within_spec in Hr. lia. }
  rewrite !bool_decide_eq_false_2 by (apply Hne; lia). cbn [orb].
  destruct Hr as [Hr|Hr]; [by rewrite Hr|]. destruct Hr as [Hr|Hr]; subst r.
  - by rewrite (bool_decide_eq_true_2 (zeroWidthNonJoiner = zeroWidthNonJoiner)), orb_true_r.
  - by rewrite (bool_decide_eq_true_2 (zeroWidthJoiner = zeroWidthJoiner)), orb_true_r.
Qed.

(** What a rune writes is clean. *)
Lemma shown_clean l :
  exists rs, Forall cleanRune rs /\ shown printable (take (Nat.max 1 (runeWidth l)) l) = concat rs.
Proof.
  assert (Hspace : cleanRune [32]) by (split; [done|by left]). set (r := take _ l). unfold shown.
  case_bool_decide; [exists [[32]; [32]; [32]; [32]]; by repeat constructor|].
  destruct (_ || bool_decide (r = [13])); [exists [[32]]; by repeat constructor|].
  destruct (IsPrint printable r || _ || _) eqn:Hp; [|by exists []].
  assert (Hr : IsPrint printable r = true \/ r = zeroWidthNonJoiner \/ r = zeroWidthJoiner).
  { rewrite !orb_true_iff, !bool_decide_eq_true in Hp. tauto. }
  destruct l as [|b l]; [by exists []|].
  exists [r]. split; [|by rewrite concat_cons, app_nil_r]. constructor; [|constructor]. split; [|done].
  unfold r. destruct (runeWidth_take (b :: l)) as [Hw|Hw].
  - destruct (runeWidth (b :: l)) as [|w] eqn:E; [by destruct Hw|]. by replace (Nat.max 1 (S w)) with (S w) by lia.
  - (* an invalid byte is shown only if it is printable, but then it is no invalid byte *)
    rewrite Hw. simpl. assert (Hb : within 0x20 0x7e b = true).
    { unfold r in Hr. rewrite Hw in Hr. simpl in Hr. by destruct Hr as [Hr|[Hr|Hr]]. }
    apply within_spec in Hb. split; [done|]. unfold runeWidth.
    assert (within 0 0x7f b = true) as -> by (apply within_spec; lia). done.
Qed.

Lemma plainLoop_clean fuel v l :
  exists rs, Forall cleanRune rs /\ plainLoop printable fuel v l = concat rs.
Proof.
  revert v l. induction fuel as [|fuel IH]; intros v l; cbn [plainLoop]; [by exists []|].
  destruct l as [|b l]; [by exists []|].
  set (w := Nat.max 1 _). destruct (IH (Feed v (take w (b :: l))) (drop w (b :: l))) as (rs & Hrs & ->).
  destruct (_ && _); [|by exists rs]. destruct (shown_clean (b :: l)) as (rs' & Hrs' & E). fold w in E. rewrite E.
  exists (rs' ++ rs). split; [by apply Forall_app|]. by rewrite concat_app.
Qed.

(** A clean rune leaves the boundary at ground. *)
Lemma clean_ground v r : Ground v = true -> cleanRune r -> Ground (Feed v r) = true.
Proof.
  intros Hv [Hr Hp].
  assert (Hc : exists c, char_ok c = true /\ char_bytes c = r).
  { destruct Hr as [Hne Hw]. destruct r as [|b t]; [done|]. destruct (within 0 0x7f b) eqn:E1.
    - unfold runeWidth in Hw. rewrite E1 in Hw. destruct t; [|done]. exists (CAscii b). split; [|done].
      destruct Hp as [Hp|[Hp|Hp]]; [exact Hp|done|done].
    - exists (CUtf8 b t). split; [|done].
      destruct (rune_shape (b :: t)) as (b' & t' & [= <- <-] & _ & Ht); [by split|]. unfold char_ok.
      change (forallb (between 128 191) t) with (forallb continuation t). rewrite Ht, andb_true_r.
      revert Hw. unfold runeWidth. rewrite E1. destruct t as [|c t]; [done|].
      destruct (within 0xc2 0xdf b) eqn:E2.
      { destruct (within _ _ c); [|done]. intros Hw. unfold utf8_tail. change (between 194 223 b) with (within 194 223 b).
        rewrite E2. apply within_spec in E2. apply andb_true_iff. split; [apply within_spec; lia|].
        apply Nat.eqb_eq. simpl in *. lia. }
      destruct t as [|d t]; [done|]. destruct (within 0xe0 0xef b) eqn:E3.
      { destruct (_ && _); [|done]. intros Hw. unfold utf8_tail. change (between 194 223 b) with (within 194 223 b).
        change (between 224 239 b) with (within 224 239 b). rewrite E2, E3. apply within_spec in E3.
        apply andb_true_iff. split; [apply within_spec; lia|]. apply Nat.eqb_eq. simpl in *. lia. }
      destruct t as [|e t]; [done|]. destruct (_ && _) eqn:E4; [|done]. intros Hw. bool_to_prop.
      unfold utf8_tail. change (between 194 223 b) with (within 194 223 b).
      change (between 224 239 b) with (within 224 239 b). rewrite E2, E3.
      match goal with H : within 0xf0 0xf4 b = true |- _ => apply within_spec in H end.
      apply andb_true_iff. split; [apply within_spec; lia|]. apply Nat.eqb_eq. simpl in *. lia. }
  destruct Hc as (c & Hc & <-). by destruct (char_atomic v c Hv Hc).
Qed.

Lemma concat_head r rs : rune r -> runeWidth (concat (r :: rs)) = length r.
Proof. intros Hr. rewrite concat_cons. by apply runeWidth_app. Qed.

Lemma plainLoop_id fuel v rs :
  Ground v = true -> Forall cleanRune rs -> (length (concat rs) <= fuel)%nat ->
  plainLoop printable fuel v (concat rs) = concat rs.
Proof.
  revert v rs. induction fuel as [|fuel IH]; intros v rs Hv Hrs Hf; cbn [plainLoop].
  { symmetry. apply nil_length_inv. lia. }
  destruct Hrs as [|r rs Hr Hrs]; [done|]. pose proof (concat_head r rs (proj1 Hr)) as Hw.
  rewrite concat_cons in *. destruct (proj1 Hr) as [Hne _].
  assert (Hlen : (1 <= length r)%nat) by (destruct r; [done|simpl; lia]).
  destruct (r ++ concat rs) as [|b l] eqn:E; [by destruct r|]. rewrite <- E in *. clear E.
  rewrite Hw, Nat.max_r, take_app_length, drop_app_length by lia.
  rewrite Hv, (clean_ground v r Hv Hr). cbn [andb]. rewrite clean_shown by done. f_equal.
  rewrite length_app in Hf. apply IH; [by apply clean_ground|done|lia].
Qed.

Lemma validUTF8_runes fuel rs :
  Forall rune rs -> (length (concat rs) <= fuel)%nat -> validUTF8 fuel (concat rs) = true.
Proof.
  revert rs. induction fuel as [|fuel IH]; intros rs Hrs Hf; cbn [validUTF8].
  { by destruct (concat rs); [|simpl in Hf; lia]. }
  destruct Hrs as [|r rs Hr Hrs]; [done|]. pose proof (concat_head r rs Hr) as Hw. rewrite concat_cons in *.
  destruct Hr as [Hne _]. assert (Hlen : (1 <= length r)%nat) by (destruct r; [done|simpl; lia]).
  destruct (r ++ concat rs) as [|b l] eqn:E; [by destruct r|]. rewrite <- E in *. clear E. rewrite Hw.
  destruct (length r) as [|n] eqn:En; [lia|]. rewrite <- En, drop_app_length. apply IH; [done|].
  rewrite length_app in Hf. lia.
Qed.

Lemma clean_runes rs : Forall cleanRune rs -> Forall rune rs.
Proof. intros H. eapply Forall_impl; [exact H|]. by intros r [? _]. Qed.

Lemma plainBytes_id rs : Forall cleanRune rs -> plainBytes printable (concat rs) = concat rs.
Proof.
  intros Hrs. unfold plainBytes. rewrite toValid_valid by (apply validUTF8_runes; [by apply clean_runes|done]).
  by apply plainLoop_id.
Qed.

Lemma clean_bytes rs : Forall cleanRune rs -> Forall (fun b => 0 <= b < 256) (concat rs).
Proof.
  induction 1 as [|r rs [Hr _] _ IH]; [by constructor|]. rewrite concat_cons. apply Forall_app. split; [|done].
  by apply rune_bytes.
Qed.
End Clean.

(** ** Trimming *)

Lemma spaces_runes : Forall rune spaceEncodings.
Proof. repeat constructor; discriminate. Qed.

Lemma stripSpace_some es l p r : p ∈ es -> l = p ++ r -> stripSpace es l <> None.
Proof.
  induction es as [|q es IH]; intros Hp ->; [by apply not_elem_of_nil in Hp|]. simpl.
  assert (Hq : forall q r, stripPrefix q (q ++ r) = Some r).
  { clear. induction q as [|a q IH]; intros r; simpl; [done|]. by rewrite Z.eqb_refl. }
  apply elem_of_cons in Hp as [->|Hp]; [by rewrite Hq|].
  destruct (stripPrefix q (p ++ r)); [done|]. by apply IH.
Qed.

Lemma stripSpace_clean rs l :
  Forall rune rs -> stripSpace spaceEncodings (concat rs) = Some l ->
  exists r rs', rs = r :: rs' /\ l = concat rs'.
Proof.
  intros Hrs H. apply stripSpace_spec in H as (p & Hp & E).
  assert (Hrune : rune p) by (pose proof spaces_runes as Hs; rewrite Forall_forall in Hs; by apply Hs).
  destruct Hrs as [|r rs Hr Hrs]; [by destruct p, Hrune|]. exists r, rs. split; [done|].
  rewrite concat_cons in E. by destruct (rune_head p r l (concat rs) Hrune Hr (eq_sym E)).
Qed.

Lemma stripSpace_clean_rev rs l :
  Forall rune rs -> stripSpace (map (@rev Z) spaceEncodings) (rev (concat rs)) = Some l ->
  exists r rs', rs = rs' ++ [r] /\ l = rev (concat rs').
Proof.
  intros Hrs H. apply stripSpace_spec in H as (q & Hq & E).
  apply list_elem_of_In, in_map_iff in Hq as (p & <- & Hp). apply list_elem_of_In in Hp.
  assert (Hrune : rune p) by (pose proof spaces_runes as Hs; rewrite Forall_forall in Hs; by apply Hs).
  apply (f_equal (@rev Z)) in E. rewrite rev_involutive, rev_app_distr, rev_involutive in E.
  destruct rs as [|r rs _] using rev_ind.
  { destruct Hrune as [Hne _]. destruct (rev l); [by destruct p|done]. }
  exists r, rs. split; [done|]. apply Forall_app in Hrs as [Hrs Hr]. inversion Hr; subst.
  rewrite concat_app, concat_cons, app_nil_r in E.
  destruct (rune_last p r (rev l) (concat rs)) as [_ He]; [done|done|done|]. by rewrite <- He, rev_involutive.
Qed.

(** Trimming from the left leaves a suffix of the runes and nothing to strip. *)
Lemma trimRun_clean fuel rs :
  Forall rune rs -> (length (concat rs) <= fuel)%nat ->
  exists rs1 rs2, rs = rs1 ++ rs2 /\ trimRun fuel spaceEncodings (concat rs) = concat rs2 /\
    stripSpace spaceEncodings (concat rs2) = None.
Proof.
  revert rs. induction fuel as [|fuel IH]; intros rs Hrs Hf; cbn [trimRun].
  { exists [], rs. split; [done|]. split; [done|]. by destruct (concat rs); [|simpl in Hf; lia]. }
  destruct (stripSpace spaceEncodings (concat rs)) as [l|] eqn:E; [|by exists [], rs].
  apply stripSpace_clean in E as (r & rs' & -> & ->); [|done]. inversion Hrs as [|? ? [Hne Hr] Hrs']; subst.
  destruct (IH rs' Hrs') as (rs1 & rs2 & -> & Ht & Hn).
  { rewrite concat_cons, length_app in Hf. destruct r; [done|]. simpl in Hf. lia. }
  by exists (r :: rs1), rs2.
Qed.

Lemma trimRun_clean_rev fuel rs :
  Forall rune rs -> (length (concat rs) <= fuel)%nat ->
  exists rs1 rs2, rs = rs1 ++ rs2 /\ trimRun fuel (map (@rev Z) spaceEncodings) (rev (concat rs)) = rev (concat rs1) /\
    stripSpace (map (@rev Z) spaceEncodings) (rev (concat rs1)) = None.
Proof.
  revert rs. induction fuel as [|fuel IH]; intros rs Hrs Hf; cbn [trimRun].
  { exists rs, []. split; [by rewrite app_nil_r|]. split; [done|]. by destruct (concat rs); [|simpl in Hf; lia]. }
  destruct (stripSpace _ (rev (concat rs))) as [l|] eqn:E.
  2:{ exists rs, []. split; [by rewrite app_nil_r|done]. }
  apply stripSpace_clean_rev in E as (r & rs' & -> & ->); [|done]. apply Forall_app in Hrs as [Hrs' Hr].
  destruct (IH rs' Hrs') as (rs1 & rs2 & -> & Ht & Hn).
  { rewrite concat_app, length_app in Hf. inversion Hr as [|? ? [Hne _]]; subst.
    rewrite concat_cons, length_app in Hf. destruct r; [done|]. simpl in Hf. lia. }
  exists rs1, (rs2 ++ [r]). split; [by rewrite app_assoc|done].
Qed.

Lemma trimRun_none fuel es l : stripSpace es l = None -> trimRun fuel es l = l.
Proof. intros H. destruct fuel; simpl; [done|]. by rewrite H. Qed.

(** Trimming clean text leaves clean text that trimming leaves alone. *)
Definition trimBytes (l : bytes) : bytes := trimRight (trimLeft l).

Lemma trimBytes_spec rs :
  Forall rune rs ->
  exists rs1 rs2 rs3, rs = rs1 ++ rs2 ++ rs3 /\ trimBytes (concat rs) = concat rs2 /\
    trimBytes (concat rs2) = concat rs2.
Proof.
  intros Hrs. unfold trimBytes, trimLeft, trimRight.
  destruct (trimRun_clean (length (concat rs)) rs Hrs) as (rs1 & rs' & -> & -> & Hn); [done|].
  apply Forall_app in Hrs as [_ Hrs'].
  destruct (trimRun_clean_rev (length (concat rs')) rs' Hrs') as (rs2 & rs3 & -> & -> & Hn'); [done|].
  exists rs1, rs2, rs3. split; [done|]. rewrite rev_involutive. split; [done|].
  assert (Hl : stripSpace spaceEncodings (concat rs2) = None).
  { destruct (stripSpace spaceEncodings (concat rs2)) as [l|] eqn:E; [exfalso|done].
    apply stripSpace_spec in E as (p & Hp & E). rewrite concat_app, E, <- app_assoc in Hn.
    by eapply stripSpace_some in Hn. }
  rewrite (trimRun_none _ _ _ Hl), (trimRun_none _ _ _ Hn'). apply rev_involutive.
Qed.

(** ** Normalised requests *)

Lemma byte_of_ascii b : 0 <= b < 256 -> byte_of (ascii_of b) = b.
Proof. intros Hb. unfold byte_of, ascii_of. rewrite Ascii.nat_ascii_embedding; lia. Qed.

Lemma bytes_string l : Forall (fun b => 0 <= b < 256) l -> bytes_of (string_of l) = l.
Proof. induction 1 as [|b l Hb _ IH]; simpl; [done|]. by rewrite byte_of_ascii, IH. Qed.

Section Normal.
Context (printable : bytes -> bool) (uuidParse : string -> bool).

(** Text a terminal shows as it is: complete runes, none of them a control. *)
Definition plain (s : string) : Prop := exists rs, Forall (cleanRune printable) rs /\ bytes_of s = concat rs.

Lemma plain_controls s b : plain s -> b ∈ bytes_of s -> 0x20 <= b /\ b <> 0x7f.
Proof.
  intros (rs & Hrs & ->) Hb. induction Hrs as [|r rs Hr _ IH]; [by apply not_elem_of_nil in Hb|].
  rewrite concat_cons in Hb. apply elem_of_app in Hb as [Hb|Hb]; [|by apply IH]. clear IH.
  destruct Hr as [Hr Hp]. pose proof (rune_shape r Hr) as (c & t & -> & Hc & Ht).
  destruct t as [|d t].
  - apply list_elem_of_singleton in Hb as ->. destruct Hp as [Hp|[Hp|Hp]]; [|done|done]. apply within_spec in Hp. lia.
  - apply elem_of_cons in Hb as [->|Hb].
    + pose proof (rune_bytes _ Hr) as Hby. inversion Hby as [|? ? Hcb _]; subst. destruct Hr as [_ Hw]. revert Hw.
      unfold runeWidth. destruct (within 0 0x7f c) eqn:E1; [done|]. intros _.
      apply not_true_iff_false in E1. rewrite within_spec in E1. lia.
    + apply list_elem_of_In in Hb. rewrite forallb_forall in Ht. apply Ht, within_spec in Hb. lia.
Qed.

Lemma normal_shape s :
  exists rs, Forall (cleanRune printable) rs /\ normalText printable s = string_of (concat rs) /\
    trimBytes (concat rs) = concat rs.
Proof.
  unfold normalText, plainLogText, plainBytes. set (l := toValid _ _ _ _).
  destruct (plainLoop_clean printable (length l) vtZero l) as (rs & Hrs & ->).
  destruct (trimBytes_spec rs) as (rs1 & rs2 & rs3 & -> & E & Ht); [by eapply clean_runes|].
  exists rs2. apply Forall_app in Hrs as [H1 Hrs]. apply Forall_app in Hrs as [Hrs H3].
  split; [done|]. split; [|done]. unfold TrimSpace.
  rewrite bytes_string; [by rewrite <- E|]. eapply clean_bytes, Forall_app. split; [exact H1|]. by apply Forall_app.
Qed.

Lemma normal_spec s :
  plain (normalText printable s) /\ utf8ValidString (normalText printable s) = true /\
  normalText printable (normalText printable s) = normalText printable s.
Proof.
  destruct (normal_shape s) as (rs & Hrs & E & Ht).
  assert (Hb : bytes_of (string_of (concat rs)) = concat rs) by (by eapply bytes_string, clean_bytes).
  rewrite E. unfold plain, utf8ValidString. rewrite Hb. split; [by exists rs|].
  split; [apply validUTF8_runes; [by eapply clean_runes|done]|].
  unfold normalText, plainLogText, TrimSpace. rewrite Hb, (plainBytes_id printable rs Hrs), Hb.
  unfold trimBytes in Ht. by rewrite Ht.
Qed.

Abbreviation normalize := (normalizeActivityMessage printable uuidParse).

(** What an accepted request satisfies, and its answer. *)
Definition normalized (request : activityMessageRequest) : activityMessageRequest := {|
  Action := Action request; TerminalID := TerminalID request; Success := Success request; am_ID := am_ID request;
  Source := normalText printable (Source request); Level := Level request;
  Text := normalText printable (Text request); NodeID := NodeID request;
  NodeSlug := normalText printable (NodeSlug request) |}.

Lemma normalize_inv request message :
  normalize request = Ok message ->
  message = normalized request /\ negb (uuidParse (am_ID request)) = false /\
  negb (NodeID request =? "")%string && negb (uuidParse (NodeID request)) = false /\
  negb (Level request =? LevelInfo) && negb (Level request =? LevelWarn) && negb (Level request =? LevelError) = false /\
  validateActivityAction request = Ok tt /\
  Text message <> "" /\ Source message <> "" /\
  slen (Text message) <= 4096 /\ slen (Source message) <= 64 /\ slen (NodeSlug message) <= 128.
Proof.
  unfold normalizeActivityMessage. destruct (negb (uuidParse (am_ID request))); [done|].
  destruct (_ && negb (uuidParse (NodeID request))); [done|].
  destruct (negb (Level request =? LevelInfo) && _ && _); [done|].
  destruct (validateActivityAction request) as [[]|e]; [|done]. cbn [mbind result_bind].
  destruct (negb (_ && _)); [done|]. cbv zeta. destruct ((_ =? "")%string || _) eqn:H6; [done|].
  destruct ((4096 <? _) || _ || _) eqn:H7; [done|]. intros E. assert (message = normalized request) as -> by (unfold normalized; congruence). unfold normalized. cbn [Text Source NodeSlug].
  apply orb_false_iff in H7 as [[H71%Z.ltb_ge H72%Z.ltb_ge]%orb_false_iff H73%Z.ltb_ge].
  apply orb_false_iff in H6 as [H61%String.eqb_neq H62%String.eqb_neq]. done.
Qed.

Lemma normalizeMessage_spec request message :
  normalize request = Ok message ->
  normalize message = Ok message /\ am_ID message = am_ID request /\ NodeID message = NodeID request /\
  TerminalID message = TerminalID request /\
  slen (Text message) <= 4096 /\ slen (Source message) <= 64 /\ slen (NodeSlug message) <= 128 /\
  Text message <> "" /\ Source message <> "" /\
  forall b, b ∈ bytes_of (Text message) \/ b ∈ bytes_of (Source message) \/ b ∈ bytes_of (NodeSlug message) ->
    0x20 <= b /\ b <> 0x7f.
Proof.
  intros H. apply normalize_inv in H as (-> & H1 & H2 & H3 & H4 & Ht & Hs & Hl1 & Hl2 & Hl3).
  destruct (normal_spec (Text request)) as (Hp1 & Hv1 & E1). destruct (normal_spec (Source request)) as (Hp2 & Hv2 & E2).
  destruct (normal_spec (NodeSlug request)) as (Hp3 & Hv3 & E3).
  unfold normalized in *. cbn [am_ID NodeID Level Text Source NodeSlug TerminalID] in *. split_and!; try done.
  - unfold normalizeActivityMessage. cbn [am_ID NodeID Level Text Source NodeSlug]. rewrite H1, H2, H3.
    unfold validateActivityAction in *. cbn [Action TerminalID NodeID]. rewrite H4. cbn [mbind result_bind].
    unfold fieldOk. rewrite Hv1, Hv2, Hv3, !andb_true_r, !(proj2 (Z.leb_le _ _)) by done. cbn [negb andb].
    apply String.eqb_neq in Ht, Hs. rewrite E1, E2, E3, Ht, Hs, !(proj2 (Z.ltb_ge _ _)) by done. done.
  - intros b [Hb|[Hb|Hb]]; [exact (plain_controls _ b Hp1 Hb)|exact (plain_controls _ b Hp2 Hb)|exact (plain_controls _ b Hp3 Hb)].
Qed.

(** What the normalisation of a message accepts, its answer is accepted
    again and unchanged, so a record read back from disk passes the check it was
    written under; the answer keeps the identity and the targets of the request,
    its fields are within their limits, its text and source are not empty, and
    neither holds a control character or an incomplete rune. *)
Theorem normalize_fixpoint request message :
  normalize request = Ok message ->
  normalize message = Ok message /\ am_ID message = am_ID request /\ NodeID message = NodeID request /\
  TerminalID message = TerminalID request /\
  slen (Text message) <= 4096 /\ slen (Source message) <= 64 /\ slen (NodeSlug message) <= 128 /\
  Text message <> "" /\ Source message <> "" /\
  forall b, b ∈ bytes_of (Text message) \/ b ∈ bytes_of (Source message) \/ b ∈ bytes_of (NodeSlug message) ->
    0x20 <= b /\ b <> 0x7f.
Proof. apply normalizeMessage_spec. Qed.
End Normal.

(** A message with a tab, an escape sequence and surrounding space. *)
Definition sampleRequest : activityMessageRequest := {|
  Action := "terminal"; TerminalID := "t-1"; Success := true; am_ID := "m001"; Source := "cli"; Level := LevelWarn;
  Text := string_of ([32; 9] ++ [0x1b; 0x5b; 0x31; 0x6d] ++ bytes_of "disk full"); NodeID := "n001"; NodeSlug := "" |}.
Definition sampleMessage : activityMessageRequest := {|
  Action := "terminal"; TerminalID := "t-1"; Success := true; am_ID := "m001"; Source := "cli"; Level := LevelWarn;
  Text := "disk full"; NodeID := "n001"; NodeSlug := "" |}.

Theorem normalize_fixpoint_witness :
  normalizeActivityMessage (fun _ => true) (fun s => (String.length s =? 4)%nat) sampleMessage = Ok sampleMessage.
Proof. apply (normalize_fixpoint (fun _ => true) (fun s => (String.length s =? 4)%nat) sampleRequest). vm_compute. reflexivity. Defined.
