(* ===== verification/ActivityJournal.v ===== *)
(** * The activity journal

    [internal/codelima/activity_journal.go]: one file per message in a private
    directory, an in-memory index, and the loop that reads the directory back.
    The directory is a map from message identifiers to file contents; a write
    can fail before or after its file is published, a removal can fail.  The
    encoding is an argument; the random epoch of a journal is not modelled. *)

From S2P Require Import Prelude GoText VTBoundary ActivityText.
Local Open Scope Z_scope.

Definition activityMessageRetention : duration := 7 * 24 * hour.
Definition activityMessageLimit : Z := 10000.
Definition activityMessageFileLimit : Z := Z.shiftl 32 10.

Record ActivityMessage := Message {
  m_request : activityMessageRequest;
  Sequence : Z;
  Time : time;
}.

#[export] Instance activityMessageRequest_eq_dec : EqDecision activityMessageRequest.
Proof. solve_decision. Defined.

Definition message_ID (m : ActivityMessage) : string := am_ID (m_request m).

Record activityJournal := Journal {
  j_through : Z;
  j_limit : Z;
  j_records : gmap string ActivityMessage;
}.

Definition set_j_records r j := {| j_through := j_through j; j_limit := j_limit j; j_records := r |}.

(** The directory. *)
Abbreviation directory := (gmap string bytes).

(** A message, with the error of the pruning that followed, or a refusal. *)
Inductive appendAnswer :=
| Refused (e : go_error)
| Answered (m : ActivityMessage) (pruned : option go_error).

Definition expired (now : time) (m : ActivityMessage) : bool :=
  activityMessageRetention <? time_sub now (Time m).

(** The order of the pruning: the oldest sequence first. *)
Definition seq_le (a b : string * ActivityMessage) : Prop := Sequence a.2 <= Sequence b.2.
#[export] Instance seq_le_dec : RelDecision seq_le.
Proof. intros a b. unfold seq_le. apply _. Defined.
(** The order of a snapshot: the newest sequence first. *)
Definition seq_ge (a b : ActivityMessage) : Prop := Sequence b <= Sequence a.
#[export] Instance seq_ge_dec : RelDecision seq_ge.
Proof. intros a b. unfold seq_ge. apply _. Defined.

Section Journal.
Context (printable : bytes -> bool) (uuidParse : string -> bool).
Context (Marshal : ActivityMessage -> result bytes) (Unmarshal : bytes -> result ActivityMessage).
(** The order in which a loop over the record map visits it. *)
Context (visit : gmap string ActivityMessage -> list (string * ActivityMessage)).

Abbreviation normalize := (normalizeActivityMessage printable uuidParse).

(** ** Pruning *)

(** The closure [remove] over a list of records; it stops at the first file it
    cannot remove. *)
Fixpoint removeAll (faults : string -> option go_error) (l : list (string * ActivityMessage))
    (records : gmap string ActivityMessage) (dir : directory)
    : gmap string ActivityMessage * directory * option go_error :=
  match l with
  | [] => (records, dir, None)
  | v :: l =>
      match faults v.1 with
      | Some e => (records, dir, Some e)
      | None => removeAll faults l (delete v.1 records) (delete v.1 dir)
      end
  end.

Definition pruneLocked (now : time) (faults : string -> option go_error) (j : activityJournal) (dir : directory)
    : activityJournal * directory * option go_error :=
  match removeAll faults (filter (fun v => expired now v.2 = true) (visit (j_records j))) (j_records j) dir with
  | (records, dir, Some e) => (set_j_records records j, dir, Some e)
  | (records, dir, None) =>
      let limit := Z.max 1 (j_limit j) in
      let n := Z.of_nat (size records) in
      if n <=? limit then (set_j_records records j, dir, None)
      else
        let oldest := take (Z.to_nat (n - limit)) (merge_sort seq_le (map_to_list records)) in
        let '(records, dir, e) := removeAll faults oldest records dir in
        (set_j_records records j, dir, e)
  end.

Definition Prune := pruneLocked.

(** ** Appending *)

(** The clock is read by the first pruning, for the record and by the second
    pruning. *)
Definition Append (before now after : time) (write : writeOutcome) (faults : string -> option go_error)
    (request : activityMessageRequest) (j : activityJournal) (dir : directory)
    : activityJournal * directory * appendAnswer :=
  match normalize request with
  | Err e => (j, dir, Refused e)
  | Ok request =>
      match pruneLocked before faults j dir with
      | (j, dir, Some e) => (j, dir, Refused e)
      | (j, dir, None) =>
          match j_records j !! am_ID request with
          | Some existing =>
              if bool_decide (m_request existing = request) then (j, dir, Answered existing None)
              else (j, dir, Refused (preconditionFailed "activity message ID already belongs to different content"))
          | None =>
              let record := Message request (u64 (j_through j + 1)) now in
              if Sequence record =? 0 then (j, dir, Refused (metadataCorruption "activity sequence exhausted"))
              else
                match Marshal record with
                | Err e => (j, dir, Refused e)
                | Ok data =>
                    if activityMessageFileLimit <? zlen data
                    then (j, dir, Refused (invalidArgument "activity message exceeds its storage limit"))
                    else
                      match write with
                      | NotWritten e => (j, dir, Refused e)
                      | Unsynced e => (j, <[message_ID record := data]> dir, Refused e)
                      | Written =>
                          let dir := <[message_ID record := data]> dir in
                          let j := {| j_through := Sequence record; j_limit := j_limit j;
                                      j_records := <[message_ID record := record]> (j_records j) |} in
                          let '(j, dir, e) := pruneLocked after faults j dir in
                          (j, dir, Answered record e)
                      end
                end
          end
      end
  end.

(** ** Reading *)

Definition Snapshot (now : time) (j : activityJournal) : list ActivityMessage * Z :=
  (merge_sort seq_ge (filter (fun m => expired now m = false) (visit (j_records j)).*2), j_through j).

(** One file of the directory. *)
Definition readMessage (id : string) (data : bytes) (sequences : gset Z) : result ActivityMessage :=
  if activityMessageFileLimit <? zlen data
  then Err (ENew ("read activity message " +:+ id +:+ ": message unavailable or oversized"))
  else
    record ← Unmarshal data;
    match normalize (m_request record) with
    | Ok request =>
        if negb (bool_decide (request = m_request record)) || negb (message_ID record =? id)%string
           || (Sequence record =? 0) || time_is_zero (Time record) || bool_decide (Sequence record ∈ sequences)
        then Err (ENew ("invalid activity message " +:+ id)) else Ok record
    | Err _ => Err (ENew ("invalid activity message " +:+ id))
    end.

Fixpoint loadFiles (files : list (string * bytes)) (sequences : gset Z) (j : activityJournal) : result activityJournal :=
  match files with
  | [] => Ok j
  | (id, data) :: files =>
      if negb (uuidParse id) then loadFiles files sequences j
      else
        record ← readMessage id data sequences;
        loadFiles files ({[Sequence record]} ∪ sequences)
          {| j_through := Z.max (j_through j) (Sequence record); j_limit := j_limit j;
             j_records := <[id := record]> (j_records j) |}
  end.

Definition emptyJournal (limit : Z) : activityJournal := {| j_through := 0; j_limit := limit; j_records := ∅ |}.

(** [files] is the directory as it is listed; the journal and what its pruning
    left of the directory. *)
Definition newActivityJournal (limit : Z) (now : time) (faults : string -> option go_error)
    (files : list (string * bytes)) (dir : directory) : result activityJournal * directory :=
  match loadFiles files ∅ (emptyJournal limit) with
  | Err e => (Err e, dir)
  | Ok j =>
      match pruneLocked now faults j dir with
      | (_, dir, Some e) => (Err e, dir)
      | (j, dir, None) => (Ok j, dir)
      end
  end.

(** ** Steps

    The journal's critical sections, and the death of the daemon between them or
    after an append has published its file. *)

Inductive journalAction :=
| DoAppend (before now after : time) (write : writeOutcome) (faults : string -> option go_error) (request : activityMessageRequest)
| DoPrune (now : time) (faults : string -> option go_error)
| Die (before now : time) (interrupted : option (activityMessageRequest * (string -> option go_error)))
| Restart (now : time) (faults : string -> option go_error) (files : list (string * bytes)).

(** The journal of the running daemon, if it has one, and the directory. *)
Definition world : Type := option activityJournal * directory.

Definition journalStep (limit : Z) (w : world) (a : journalAction) : option (world * option appendAnswer) :=
  match a, w with
  | DoAppend before now after write faults request, (Some j, dir) =>
      let '(j, dir, answer) := Append before now after write faults request j dir in Some ((Some j, dir), Some answer)
  | DoPrune now faults, (Some j, dir) =>
      let '(j, dir, _) := pruneLocked now faults j dir in Some ((Some j, dir), None)
  | Die _ _ None, (_, dir) => Some ((None, dir), None)
  | Die before now (Some (request, faults)), (Some j, dir) =>
      (* the file is there, the answer never comes *)
      let '(_, dir, _) := Append before now now (Unsynced (ENew "killed")) faults request j dir in Some ((None, dir), None)
  | Restart now faults files, (None, dir) =>
      if bool_decide (files ≡ₚ map_to_list dir) then
        match newActivityJournal limit now faults files dir with
        | (Ok j, dir) => Some ((Some j, dir), None)
        | (Err _, dir) => Some ((None, dir), None)
        end
      else None
  | _, _ => None
  end.

Fixpoint journalRun (limit : Z) (w : world) (l : list journalAction) : option world :=
  match l with [] => Some w | a :: l => '(w, _) ← journalStep limit w a; journalRun limit w l end.
End Journal.
