(* ===== verification/ActivityDurable.v ===== *)
(** * The activity journal: theorems

    Whatever fails and whenever the daemon dies, the directory can be read back
    and holds what the journal held; a stored message goes away only when its
    retention is over or newer ones fill the limit ([messages_survive]), and a
    repeated submission is answered with the message it made ([append_once]).  A
    write that is published and then reported as failed is the exception: it can
    leave two files with one sequence, which the next start refuses
    ([unsynced_write_blocks_restart]). *)

From S2P Require Import Prelude SampleCodec GoText VTBoundary ActivityText ActivityJournal.
Local Open Scope Z_scope.

Section Durable.
Context (printable : bytes -> bool) (uuidParse : string -> bool).
Context (Marshal : ActivityMessage -> result bytes) (Unmarshal : bytes -> result ActivityMessage).
Context (visit : gmap string ActivityMessage -> list (string * ActivityMessage)).
(** [encoding/json] reads back what it wrote. *)
Context (json_law : forall m data, Marshal m = Ok data -> Unmarshal data = Ok m).
(** A loop over a map visits its pairs once each. *)
Context (visit_law : forall m, visit m ≡ₚ map_to_list m).

Abbreviation normalize := (normalizeActivityMessage printable uuidParse).
Implicit Types (r : gmap string ActivityMessage) (dir : gmap string bytes) (j : activityJournal).

(** ** The invariant *)

Record goodMessage (id : string) (m : ActivityMessage) : Prop := {
  gm_id : message_ID m = id;
  gm_uuid : uuidParse id = true;
  gm_normal : normalize (m_request m) = Ok (m_request m);
  gm_seq : 1 <= Sequence m < two64;
  gm_time : Time m <> time_zero;
}.

(** The file holds the record. *)
Definition filed (m : ActivityMessage) (data : bytes) : Prop :=
  Marshal m = Ok data /\ zlen data <= activityMessageFileLimit.

Record good (r : gmap string ActivityMessage) (dir : gmap string bytes) : Prop := {
  g_messages : map_Forall goodMessage r;
  g_files : forall id, match r !! id, dir !! id with
                       | Some m, Some data => filed m data
                       | None, None => True
                       | _, _ => False
                       end;
  g_unique : forall i k m n, r !! i = Some m -> r !! k = Some n -> Sequence m = Sequence n -> i = k;
}.

Record live (limit : Z) (j : activityJournal) (dir : gmap string bytes) : Prop := {
  lv_good : good (j_records j) dir;
  lv_limit : j_limit j = limit;
  lv_through : 0 <= j_through j < two64 /\ forall id m, j_records j !! id = Some m -> Sequence m <= j_through j;
  lv_size : Z.of_nat (size (j_records j)) <= Z.max 1 limit + 1;
}.

(** Either way the directory is that of some good records. *)
Definition winv (limit : Z) (w : world) : Prop :=
  match w.1 with
  | Some j => live limit j w.2
  | None => exists r, good r w.2 /\ Z.of_nat (size r) <= Z.max 1 limit + 1
  end.

(** ** Removing *)

Lemma removeAll_spec faults l r dir r' dir' e :
  removeAll faults l r dir = (r', dir', e) ->
  exists l1 l2, l = l1 ++ l2 /\ (e = None -> l2 = []) /\
    (forall id, r' !! id = if decide (id ∈ l1.*1) then None else r !! id) /\
    (forall id, dir' !! id = if decide (id ∈ l1.*1) then None else dir !! id).
Proof.
  revert r dir. induction l as [|v l IH]; intros r dir; cbn [removeAll].
  { intros [= <- <- <-]. by exists [], []. }
  destruct (faults v.1) as [e'|].
  { intros [= <- <- <-]. exists [], (v :: l). split; [done|]. split; [done|]. split; by intros id. }
  intros H. apply IH in H as (l1 & l2 & -> & He & Hr & Hd). exists (v :: l1), l2. split; [done|]. split; [done|].
  assert (Hdel : forall A (m m' : gmap string A), (forall id, m' !! id = if decide (id ∈ l1.*1) then None else delete v.1 m !! id) ->
    forall id, m' !! id = if decide (id ∈ (v :: l1).*1) then None else m !! id).
  { intros A m m' Hm id. rewrite Hm. change ((v :: l1).*1) with (v.1 :: l1.*1).
    destruct (decide (id = v.1)) as [->|Hne].
    - rewrite lookup_delete_eq. repeat case_decide; (done || set_solver).
    - rewrite lookup_delete_ne by done. repeat case_decide; set_solver. }
  split; by apply Hdel.
Qed.

Lemma good_fewer (P : string -> bool) r dir r' dir' :
  good r dir -> (forall id, r' !! id = if P id then None else r !! id) ->
  (forall id, dir' !! id = if P id then None else dir !! id) -> good r' dir'.
Proof.
  intros [H1 H2 H3] Hr Hd.
  assert (Hsub : forall id m, r' !! id = Some m -> r !! id = Some m) by (intros id m; rewrite Hr; by destruct (P id)).
  split.
  - intros id m Hm. apply H1. by apply Hsub.
  - intros id. rewrite Hr, Hd. destruct (P id); [done|apply H2].
  - intros i k m n Hm Hn. apply H3; by apply Hsub.
Qed.

(** Enough newer messages to fill the limit. *)
Definition outlived (limit : Z) (known : ActivityMessage -> Prop) (m : ActivityMessage) : Prop :=
  exists newer : list ActivityMessage, NoDup newer /\ Z.of_nat (length newer) = Z.max 1 limit /\
    forall n, n ∈ newer -> known n /\ Sequence m < Sequence n.

(** ** Pruning *)

#[local] Instance seq_le_total : Total seq_le.
Proof. intros a b. unfold seq_le. lia. Qed.
#[local] Instance seq_le_trans : Transitive seq_le.
Proof. intros a b c. unfold seq_le. lia. Qed.

Lemma oldest_outlived limit r l m :
  (forall i k m n, r !! i = Some m -> r !! k = Some n -> Sequence m = Sequence n -> i = k) ->
  (forall id m, r !! id = Some m -> message_ID m = id) ->
  l = take (Z.to_nat (Z.of_nat (size r) - Z.max 1 limit)) (merge_sort seq_le (map_to_list r)) ->
  Z.max 1 limit < Z.of_nat (size r) -> m ∈ l.*2 ->
  outlived limit (fun n => exists id, r !! id = Some n) m.
Proof.
  intros Hu Hid -> Hsize Hm. set (s := merge_sort seq_le (map_to_list r)) in *.
  set (k := Z.to_nat _) in *.
  assert (Hperm : s ≡ₚ map_to_list r) by apply merge_sort_Permutation.
  assert (Hlen : length s = size r) by (by rewrite Hperm, length_map_to_list).
  assert (Hin : forall v, v ∈ s -> r !! v.1 = Some v.2).
  { intros v. rewrite Hperm. destruct v. apply elem_of_map_to_list. }
  assert (Hnd : NoDup s) by (rewrite Hperm; apply NoDup_map_to_list).
  assert (Hsub : forall v, v ∈ drop k s -> v ∈ s) by (intros v Hv; rewrite <- (take_drop k s); by apply elem_of_app; right).
  assert (Hsorted : StronglySorted seq_le (take k s ++ drop k s)).
  { rewrite take_drop. apply (StronglySorted_merge_sort _). }
  exists (drop k s).*2. split; [|split].
  - apply NoDup_fmap_2_strong; [|eapply sublist_NoDup; [exact Hnd|apply sublist_drop]].
    intros [i x] [i' x'] Hx Hx' He. simpl in He. subst x'. apply Hsub, Hin in Hx, Hx'. simpl in *. f_equal.
    by rewrite <- (Hid _ _ Hx), <- (Hid _ _ Hx').
  - rewrite length_fmap, length_drop, Hlen. unfold k. lia.
  - intros n Hn. apply list_elem_of_fmap in Hn as ([i x] & -> & Hn). apply list_elem_of_fmap in Hm as ([i' x'] & -> & Hm).
    pose proof (Hin _ (Hsub _ Hn)) as Hx. simpl in *. split; [by exists i|].
    pose proof (StronglySorted_app_1_elem_of seq_le _ _ _ _ Hsorted Hm Hn) as Hle. unfold seq_le in Hle. simpl in Hle.
    apply Z.le_neq. split; [done|]. intros He.
    assert (Hx' : r !! i' = Some x').
    { apply (Hin (i', x')). rewrite <- (take_drop k s). by apply elem_of_app; left. }
    pose proof (Hu _ _ _ _ Hx' Hx He) as ->. assert (x = x') as -> by congruence.
    rewrite <- (take_drop k s) in Hnd. apply NoDup_app in Hnd as (_ & Hnd & _). by apply (Hnd _ Hm).
Qed.

(** What is left when the head of a listing of a map is removed. *)
Lemma removed_size r r' (l : list (string * ActivityMessage)) k :
  l ≡ₚ map_to_list r -> (forall id, r' !! id = if decide (id ∈ (take k l).*1) then None else r !! id) ->
  size r' = (length l - k)%nat.
Proof.
  intros Hl Hr.
  assert (Hnd : NoDup (take k l ++ drop k l).*1) by (rewrite take_drop, Hl; apply NoDup_fst_map_to_list).
  rewrite fmap_app in Hnd. apply NoDup_app in Hnd as (_ & Hdisj & Hnd).
  rewrite <- length_drop, <- (map_size_list_to_map (M:=gmap string)) by exact Hnd. f_equal.
  apply map_eq. intros id. apply option_eq. intros m.
  rewrite <- (elem_of_list_to_map (M:=gmap string)) by exact Hnd. rewrite Hr. case_decide as Hin.
  - split; [done|]. intros Hd. exfalso. apply (Hdisj id Hin). apply list_elem_of_fmap. by exists (id, m).
  - rewrite <- elem_of_map_to_list, <- Hl, <- (take_drop k l) at 1. rewrite elem_of_app. split; [|by right].
    intros [Ht|Hd]; [|done]. exfalso. apply Hin. apply list_elem_of_fmap. by exists (id, m).
Qed.

Definition known r : ActivityMessage -> Prop := fun n => exists id, r !! id = Some n.

Lemma pruneLocked_spec now faults j dir j' dir' e :
  good (j_records j) dir -> pruneLocked visit now faults j dir = (j', dir', e) ->
  good (j_records j') dir' /\ j_through j' = j_through j /\ j_limit j' = j_limit j /\
  (forall id m, j_records j' !! id = Some m -> j_records j !! id = Some m) /\
  (forall id m, j_records j !! id = Some m ->
     j_records j' !! id = Some m \/ expired now m = true \/ outlived (j_limit j) (known (j_records j)) m) /\
  (e = None -> Z.of_nat (size (j_records j')) <= Z.max 1 (j_limit j)) /\
  (e = None -> forall id m, j_records j' !! id = Some m -> expired now m = false).
Proof.
  intros Hg. unfold pruneLocked.
  destruct (removeAll faults _ (j_records j) dir) as [[r1 d1] e1] eqn:E1.
  apply removeAll_spec in E1 as (l1 & l2 & El & He1 & Hr1 & Hd1).
  assert (Hexp : forall id m, id ∈ l1.*1 -> j_records j !! id = Some m -> expired now m = true).
  { intros id m Hin Hm. apply list_elem_of_fmap in Hin as ([k x] & -> & Hin).
    assert (Hf : (k, x) ∈ filter (fun v => expired now v.2 = true) (visit (j_records j))).
    { rewrite El. apply elem_of_app. by left. }
    apply list_elem_of_filter in Hf as [Hx Hf]. rewrite visit_law in Hf. apply elem_of_map_to_list in Hf.
    simpl in *. congruence. }
  assert (Hall : e1 = None -> forall id m, r1 !! id = Some m -> expired now m = false).
  { intros He id m. rewrite Hr1. case_decide as Hin; [done|]. intros Hm. apply not_true_iff_false. intros Hx. apply Hin.
    rewrite (He1 He), app_nil_r in El. rewrite <- El. apply list_elem_of_fmap. exists (id, m). split; [done|].
    apply list_elem_of_filter. split; [done|]. rewrite visit_law. by apply elem_of_map_to_list. }
  assert (Hg1 : good r1 d1).
  { apply (good_fewer (fun id => bool_decide (id ∈ l1.*1)) (j_records j) dir); [done| |]; intros id;
      [rewrite Hr1|rewrite Hd1]; by destruct (decide (id ∈ l1.*1)); [rewrite bool_decide_eq_true_2|rewrite bool_decide_eq_false_2]. }
  assert (Hsub1 : forall id m, r1 !! id = Some m -> j_records j !! id = Some m) by (intros id m; rewrite Hr1; by case_decide).
  assert (Hkeep1 : forall id m, j_records j !! id = Some m -> r1 !! id = Some m \/ expired now m = true).
  { intros id m Hm. rewrite Hr1. case_decide as Hin; [right; by eapply Hexp|by left]. }
  destruct e1 as [e1|].
  { intros [= <- <- <-]. cbn [j_records set_j_records j_through j_limit]. split_and!; try done.
    intros id m Hm. destruct (Hkeep1 id m Hm); auto. }
  cbv zeta. destruct (_ <=? _) eqn:Hle.
  { intros [= <- <- <-]. cbn [j_records set_j_records j_through j_limit]. apply Z.leb_le in Hle. split_and!; try done.
    intros id m Hm. destruct (Hkeep1 id m Hm); auto. }
  apply Z.leb_gt in Hle. set (k := Z.to_nat _). set (s := merge_sort seq_le (map_to_list r1)).
  destruct (removeAll faults (take k s) r1 d1) as [[r2 d2] e2] eqn:E2. intros [= <- <- <-].
  apply removeAll_spec in E2 as (k1 & k2 & Ek & He2 & Hr2 & Hd2). cbn [j_records set_j_records j_through j_limit].
  assert (Hsub2 : forall id m, r2 !! id = Some m -> r1 !! id = Some m) by (intros id m; rewrite Hr2; by case_decide).
  split.
  { apply (good_fewer (fun id => bool_decide (id ∈ k1.*1)) r1 d1); [done| |]; intros id;
      [rewrite Hr2|rewrite Hd2]; by destruct (decide (id ∈ k1.*1)); [rewrite bool_decide_eq_true_2|rewrite bool_decide_eq_false_2]. }
  split; [done|]. split; [done|]. split; [by auto|]. split; [|split].
  - intros id m Hm. destruct (Hkeep1 id m Hm) as [H1|H1]; [|by auto]. rewrite Hr2. case_decide as Hin; [|by left].
    right. right.
    destruct (oldest_outlived (j_limit j) r1 (take k s) m) as (newer & Hn1 & Hn2 & Hn3).
    + apply (g_unique _ _ Hg1).
    + intros i x Hx. by apply (gm_id i), (g_messages _ _ Hg1).
    + done.
    + done.
    + rewrite Ek. apply list_elem_of_fmap in Hin as ([i x] & -> & Hin). apply list_elem_of_fmap. exists (i, x).
      assert (Hx : r1 !! i = Some x).
      { assert (Hs : (i, x) ∈ s) by (rewrite <- (take_drop k s), Ek; apply elem_of_app; left; by apply elem_of_app; left).
        unfold s in Hs. rewrite merge_sort_Permutation in Hs. by apply elem_of_map_to_list in Hs. }
      simpl in *. split; [congruence|]. by apply elem_of_app; left.
    + exists newer. split; [done|]. split; [done|]. intros n Hn. destruct (Hn3 n Hn) as [[i Hi] Hlt].
      split; [exists i; by apply Hsub1|done].
  - intros He. rewrite (He2 He), app_nil_r in Ek. rewrite (removed_size r1 r2 s k).
    + unfold s. rewrite (Permutation_length (merge_sort_Permutation _ _)), length_map_to_list. unfold k. lia.
    + apply merge_sort_Permutation.
    + by rewrite Ek.
  - intros _ id m Hm. eapply Hall; [done|]. by apply Hsub2.
Qed.

(** ** Appending *)

Abbreviation Append := (Append printable uuidParse Marshal visit).

Definition added (m : ActivityMessage) (j : activityJournal) : activityJournal := {|
  j_through := Sequence m; j_limit := j_limit j; j_records := <[message_ID m := m]> (j_records j) |}.

Lemma append_inv before now after write faults request j dir j' dir' ans :
  Append before now after write faults request j dir = (j', dir', ans) ->
  (exists e, normalize request = Err e /\ j' = j /\ dir' = dir /\ ans = Refused e) \/
  exists q j1 dir1 e1, normalize request = Ok q /\ pruneLocked visit before faults j dir = (j1, dir1, e1) /\
    ((j' = j1 /\ dir' = dir1 /\ exists e, ans = Refused e) \/
     (e1 = None /\ exists m, j_records j1 !! am_ID q = Some m /\ j' = j1 /\ dir' = dir1 /\
        ans = if bool_decide (m_request m = q) then Answered m None
              else Refused (preconditionFailed "activity message ID already belongs to different content")) \/
     (e1 = None /\ exists m data, m = Message q (u64 (j_through j1 + 1)) now /\ j_records j1 !! am_ID q = None /\
        Sequence m <> 0 /\ filed m data /\
        ((exists e, write = Unsynced e /\ j' = j1 /\ dir' = <[am_ID q := data]> dir1 /\ ans = Refused e) \/
         (write = Written /\ exists e, pruneLocked visit after faults (added m j1) (<[am_ID q := data]> dir1) = (j', dir', e) /\
            ans = Answered m e)))).
Proof.
  unfold ActivityJournal.Append. intros H.
  destruct (normalize request) as [q|e]; [right|left; injection H as <- <- <-; by exists e].
  destruct (pruneLocked visit before faults j dir) as [[j1 dir1] e1]. exists q, j1, dir1, e1.
  split; [done|]. split; [done|].
  destruct e1 as [e|]; [left; injection H as <- <- <-; eauto|].
  destruct (j_records j1 !! am_ID q) as [m|] eqn:Em.
  { right. left. split; [done|]. exists m. case_bool_decide; by injection H as <- <- <-. }
  cbv zeta in H. set (m := Message q _ now) in *.
  destruct (Sequence m =? 0) eqn:E0; [left; injection H as <- <- <-; eauto|].
  destruct (Marshal m) as [data|e] eqn:EM; [|left; injection H as <- <- <-; eauto].
  destruct (activityMessageFileLimit <? zlen data) eqn:El; [left; injection H as <- <- <-; eauto|].
  apply Z.eqb_neq in E0. apply Z.ltb_ge in El. change (message_ID m) with (am_ID q) in *.
  destruct write as [|e|e]; [|left; injection H as <- <- <-; eauto|]; right; right; (split; [done|]);
    exists m, data; do 4 (split; [done|]).
  - right. destruct (pruneLocked visit after faults _ _) as [[j2 dir2] e2] eqn:E2. injection H as <- <- <-.
    split; [done|]. by exists e2.
  - left. injection H as <- <- <-. by exists e.
Qed.

Lemma fresh_good limit j dir q now m data :
  live limit j dir -> normalize q = Ok q -> now <> time_zero ->
  m = Message q (u64 (j_through j + 1)) now -> j_records j !! am_ID q = None -> Sequence m <> 0 -> filed m data ->
  good (<[am_ID q := m]> (j_records j)) (<[am_ID q := data]> dir) /\
  (forall id n, j_records j !! id = Some n -> Sequence n < Sequence m) /\ 0 <= Sequence m < two64.
Proof.
  intros [Hg _ [Ht Hle] _] Hq Hnow -> Hnone Hs Hf. set (m := Message q _ now) in *.
  assert (Hseq : Sequence m = j_through j + 1).
  { unfold m in *. cbn [Sequence] in *. destruct (decide (j_through j + 1 = two64)) as [He|Hne].
    - exfalso. apply Hs. rewrite He. done.
    - apply u64_small. lia. }
  assert (Hlt : forall id n, j_records j !! id = Some n -> Sequence n < Sequence m).
  { intros id n Hn. specialize (Hle id n Hn). lia. }
  assert (Hu : uuidParse (am_ID q) = true).
  { apply normalize_inv in Hq as (_ & Hu & _). by apply negb_false_iff in Hu. }
  split; [|split; [done|]].
  - split.
    + apply map_Forall_insert_2; [|apply Hg]. split; try done.
      split; [lia|]. unfold m. cbn [Sequence]. apply u64_range.
    + intros id. destruct (decide (am_ID q = id)) as [<-|Hne]; [by rewrite !lookup_insert_eq|].
      rewrite !lookup_insert_ne by done. apply Hg.
    + intros i k x y Hx Hy He. apply lookup_insert_Some in Hx as [[<- <-]|[Hi Hx]], Hy as [[<- <-]|[Hk Hy]].
      * done.
      * apply Hlt in Hy. lia.
      * apply Hlt in Hx. lia.
      * by eapply (g_unique _ _ Hg).
  - split; [lia|]. unfold m. cbn [Sequence]. apply u64_range.
Qed.

Lemma fresh_live limit j dir q now m data :
  live limit j dir -> normalize q = Ok q -> now <> time_zero ->
  Z.of_nat (size (j_records j)) <= Z.max 1 limit ->
  m = Message q (u64 (j_through j + 1)) now -> j_records j !! am_ID q = None -> Sequence m <> 0 -> filed m data ->
  live limit (added m j) (<[am_ID q := data]> dir).
Proof.
  intros Hl Hq Hnow Hsize Hm Hnone Hs Hf.
  destruct (fresh_good limit j dir q now m data Hl Hq Hnow Hm Hnone Hs Hf) as (Hg & Hlt & Hrange).
  assert (Hid : message_ID m = am_ID q) by by subst m.
  split; cbn [j_records j_through j_limit added]; rewrite ?Hid; [done|apply Hl| |].
  - split; [done|]. intros id n [[_ <-]|[_ Hn]]%lookup_insert_Some; [lia|]. apply Hlt in Hn. lia.
  - rewrite map_size_insert_None by done. lia.
Qed.

Lemma prune_live limit now faults j dir j' dir' e :
  live limit j dir -> pruneLocked visit now faults j dir = (j', dir', e) ->
  live limit j' dir' /\ (e = None -> Z.of_nat (size (j_records j')) <= Z.max 1 limit) /\
  (forall id m, j_records j' !! id = Some m -> j_records j !! id = Some m) /\
  (forall id m, j_records j !! id = Some m ->
     j_records j' !! id = Some m \/ expired now m = true \/ outlived limit (known (j_records j)) m).
Proof.
  intros [Hg Hlim [Ht Hle] Hsize] E. apply pruneLocked_spec in E as (H1 & H2 & H3 & H4 & H5 & H6 & _); [|done].
  rewrite Hlim in *. split; [|done]. split; [done|done| |].
  - rewrite H2. split; [done|]. intros id m Hm. eapply Hle. by apply H4.
  - assert (Hsub : j_records j' ⊆ j_records j) by (apply map_subseteq_spec; exact H4).
    apply map_subseteq_size in Hsub. lia.
Qed.

(** ** Reading the directory back *)

Abbreviation loadFiles := (loadFiles printable uuidParse Unmarshal).

Lemma readMessage_good id m data (sequences : gset Z) :
  goodMessage id m -> filed m data -> Sequence m ∉ sequences ->
  readMessage printable uuidParse Unmarshal id data sequences = Ok m.
Proof.
  intros [Hid Hu Hn Hs Ht] [HM Hl] Hseq. unfold readMessage. rewrite (proj2 (Z.ltb_ge _ _)) by done.
  rewrite (json_law m data HM). cbn [mbind result_bind]. rewrite Hn, Hid, String.eqb_refl.
  rewrite bool_decide_eq_true_2 by done. rewrite (proj2 (Z.eqb_neq _ _)) by lia.
  unfold time_is_zero. rewrite (proj2 (Z.eqb_neq _ _)) by done. by rewrite bool_decide_eq_false_2.
Qed.

Lemma loadFiles_spec r dir files (sequences : gset Z) j :
  good r dir -> NoDup files.*1 -> (forall v, v ∈ files -> dir !! v.1 = Some v.2 /\ j_records j !! v.1 = None) ->
  (forall id m, j_records j !! id = Some m -> r !! id = Some m /\ Sequence m <= j_through j) ->
  (forall z, z ∈ sequences -> exists id m, j_records j !! id = Some m /\ Sequence m = z) -> 0 <= j_through j < two64 ->
  exists j', loadFiles files sequences j = Ok j' /\ j_limit j' = j_limit j /\ 0 <= j_through j' < two64 /\
    (forall id m, j_records j' !! id = Some m <-> j_records j !! id = Some m \/ (r !! id = Some m /\ id ∈ files.*1)) /\
    (forall id m, j_records j' !! id = Some m -> Sequence m <= j_through j').
Proof.
  intros Hg. revert sequences j. induction files as [|[id data] files IH]; intros sequences j Hnd Hf Hj Hs Ht;
    cbn [ActivityJournal.loadFiles].
  { exists j. split; [done|]. split; [done|]. split; [done|]. split; [|intros id m Hm; by apply Hj in Hm as [_ Hm]].
    intros id m. split; [by left|]. intros [H|[_ H]]; [done|]. by apply not_elem_of_nil in H. }
  inversion Hnd as [|? ? Hnew Hnd']; subst. destruct (Hf (id, data) ltac:(left)) as [Hd Hjn]. simpl in Hd, Hjn.
  pose proof (g_files _ _ Hg id) as Hrd. rewrite Hd in Hrd. destruct (r !! id) as [m|] eqn:Er; [|done].
  pose proof (g_messages _ _ Hg id m Er) as Hgm. rewrite (gm_uuid _ _ Hgm). cbn [negb].
  assert (Hseq : Sequence m ∉ sequences).
  { intros Hin. apply Hs in Hin as (k & n & Hn & He). destruct (Hj k n Hn) as [Hrn _].
    pose proof (g_unique _ _ Hg _ _ _ _ Hrn Er He) as ->. congruence. }
  rewrite (readMessage_good id m data sequences Hgm Hrd Hseq). cbn [mbind result_bind].
  destruct (gm_seq _ _ Hgm) as [Hs1 Hs2].
  set (j1 := {| j_through := Z.max (j_through j) (Sequence m); j_limit := j_limit j; j_records := <[id:=m]> (j_records j) |}).
  destruct (IH ({[Sequence m]} ∪ sequences) j1 Hnd') as (j' & E & Hlim & Hthr & Hrec & Hle).
  - intros v Hv. destruct (Hf v ltac:(by right)) as [H1 H2]. split; [done|]. cbn [j_records j1].
    rewrite lookup_insert_ne; [done|]. intros ->. apply Hnew. apply list_elem_of_fmap. by exists v.
  - intros k n Hn. cbn [j_records j1] in Hn.
    apply lookup_insert_Some in Hn as [[<- <-]|[_ Hn]]; [split; [done|cbn [j_through j1]; lia]|].
    apply Hj in Hn as [Hn1 Hn2]. split; [done|]. cbn [j_through j1]. lia.
  - intros z [Hz%elem_of_singleton|Hz]%elem_of_union.
    + subst z. exists id, m. cbn [j_records j1]. by rewrite lookup_insert_eq.
    + destruct (Hs z Hz) as (k & n & Hn & He). exists k, n. split; [|done]. cbn [j_records j1].
      rewrite lookup_insert_ne; [done|]. intros ->. congruence.
  - cbn [j_through j1]. lia.
  - exists j'. split; [exact E|]. split; [done|]. split; [done|]. split; [|exact Hle]. intros k n. rewrite Hrec.
    cbn [j_records j1]. change (((id, data) :: files).*1) with (id :: files.*1). rewrite lookup_insert_Some, elem_of_cons.
    split.
    + intros [[[<- <-]|[_ Hn]]|[Hn Hin]]; [right; split; [done|by left]|by left|right; split; [done|by right]].
    + intros [Hn|[Hn [->|Hin]]]; [left; right|left; left|right; done].
      * split; [|done]. intros ->. congruence.
      * split; [done|congruence].
Qed.

Abbreviation newActivityJournal := (newActivityJournal printable uuidParse Unmarshal visit).

Lemma loadDir_spec limit files r dir :
  good r dir -> Z.of_nat (size r) <= Z.max 1 limit + 1 -> files ≡ₚ map_to_list dir ->
  exists j0, loadFiles files ∅ (emptyJournal limit) = Ok j0 /\ live limit j0 dir /\ j_records j0 = r.
Proof.
  intros Hg Hsize Hfiles.
  destruct (loadFiles_spec r dir files ∅ (emptyJournal limit) Hg) as (j0 & E & Hlim & Hthr & Hrec & Hle).
  - rewrite Hfiles. apply NoDup_fst_map_to_list.
  - intros v Hv. rewrite Hfiles in Hv. destruct v. apply elem_of_map_to_list in Hv. split; [done|]. apply lookup_empty.
  - intros id m Hm. simpl in Hm. by rewrite lookup_empty in Hm.
  - intros z Hz. by apply not_elem_of_empty in Hz.
  - done.
  - assert (Er : j_records j0 = r).
    { apply map_eq. intros id. apply option_eq. intros m. rewrite Hrec. simpl. rewrite lookup_empty.
      split; [by intros [|[? _]]|]. intros Hm. right. split; [done|]. rewrite Hfiles.
      pose proof (g_files _ _ Hg id) as Hf. rewrite Hm in Hf. destruct (dir !! id) as [data|] eqn:Ed; [|done].
      apply list_elem_of_fmap. exists (id, data). split; [done|]. by apply elem_of_map_to_list. }
    exists j0. split; [exact E|]. split; [|done]. split; rewrite ?Er; [done|exact Hlim| |done].
    split; [done|]. rewrite <- Er. exact Hle.
Qed.

(** ** Steps *)

Abbreviation journalStep := (journalStep printable uuidParse Marshal Unmarshal visit).
Abbreviation journalRun := (journalRun printable uuidParse Marshal Unmarshal visit).

(** A clock that was set, and no write reported as failed after its file was
    published. *)
Definition synced (a : journalAction) : Prop :=
  match a with
  | DoAppend _ now _ write _ _ => now <> time_zero /\ forall e, write <> Unsynced e
  | Die _ now _ => now <> time_zero
  | _ => True
  end.

(** The message is in the directory. *)
Definition stored (dir : gmap string bytes) (m : ActivityMessage) : Prop :=
  exists data, dir !! message_ID m = Some data /\ Marshal m = Ok data.

Lemma good_stored r dir m : good r dir -> stored dir m <-> r !! message_ID m = Some m.
Proof.
  intros Hg. pose proof (g_files _ _ Hg (message_ID m)) as Hf. unfold stored. split.
  - intros (data & Hd & HM). rewrite Hd in Hf. destruct (r !! message_ID m) as [n|]; [|done].
    destruct Hf as [HM' _]. apply json_law in HM, HM'. congruence.
  - intros Hm. rewrite Hm in Hf. destruct (dir !! message_ID m) as [data|]; [|done]. destruct Hf as [HM _]. eauto.
Qed.

Lemma known_stored r dir m : good r dir -> known r m <-> stored dir m.
Proof.
  intros Hg. rewrite (good_stored _ _ _ Hg). split; [|by exists (message_ID m)].
  intros (id & Hm). by rewrite (gm_id _ _ (g_messages _ _ Hg id m Hm)).
Qed.

(** The times an action prunes at. *)
Definition pruneTimes (a : journalAction) : list time :=
  match a with
  | DoAppend before _ after _ _ _ => [before; after]
  | DoPrune now _ => [now]
  | Die before _ (Some _) => [before]
  | Die _ _ None => []
  | Restart now _ _ => [now]
  end.

(** Why a stored message may go away in a step: its retention was over, or newer
    messages fill the limit, the one just accepted among them. *)
Definition released (limit : Z) (a : journalAction) (dir : gmap string bytes) (answer : option appendAnswer)
    (m : ActivityMessage) : Prop :=
  (exists t, t ∈ pruneTimes a /\ expired t m = true) \/
  outlived limit (fun n => stored dir n \/ exists e, answer = Some (Answered n e)) m.

Lemma outlived_mono limit (P Q : ActivityMessage -> Prop) m :
  (forall n, P n -> Q n) -> outlived limit P m -> outlived limit Q m.
Proof. intros HPQ (l & H1 & H2 & H3). exists l. split; [done|]. split; [done|]. intros n Hn. destruct (H3 n Hn). auto. Qed.

Lemma outlived_known limit r dir m answer :
  good r dir -> outlived limit (known r) m -> outlived limit (fun n => stored dir n \/ exists e, answer = Some (Answered n e)) m.
Proof. intros Hg. apply outlived_mono. intros n Hn. left. by apply (known_stored r dir). Qed.

(** A pruning of a live journal, as the directory sees it. *)
Lemma prune_released limit now faults j dir j' dir' e m :
  live limit j dir -> pruneLocked visit now faults j dir = (j', dir', e) -> stored dir m ->
  stored dir' m \/ expired now m = true \/ outlived limit (known (j_records j)) m.
Proof.
  intros Hl E Hm. pose proof (prune_live _ _ _ _ _ _ _ _ Hl E) as (Hl' & _ & _ & Hkeep).
  apply (good_stored _ _ _ (lv_good _ _ _ Hl)) in Hm. destruct (Hkeep _ _ Hm) as [H|H]; [left|by right].
  by apply (good_stored _ _ _ (lv_good _ _ _ Hl')).
Qed.

Lemma removeAll_nofault l r dir : (removeAll (fun _ => None) l r dir).2 = None.
Proof. revert r dir. induction l as [|v l IH]; intros r dir; cbn [removeAll]; [done|apply IH]. Qed.

Lemma prune_nofault now j dir : (pruneLocked visit now (fun _ => None) j dir).2 = None.
Proof.
  unfold pruneLocked. pose proof (removeAll_nofault (filter (fun v => expired now v.2 = true) (visit (j_records j))) (j_records j) dir) as H.
  destruct (removeAll _ _ _ dir) as [[r1 d1] e1]. simpl in H. subst e1. cbv zeta. destruct (_ <=? _); [done|].
  pose proof (removeAll_nofault (take (Z.to_nat (Z.of_nat (size r1) - Z.max 1 (j_limit j))) (merge_sort seq_le (map_to_list r1))) r1 d1) as H.
  by destruct (removeAll _ _ r1 d1) as [[r2 d2] e2].
Qed.

(** The file of a fresh record leaves the others alone. *)
Lemma stored_insert dir q data m :
  dir !! q = None -> stored dir m -> stored (<[q := data]> dir) m.
Proof.
  intros Hq (d & Hd & HM). exists d. split; [|done]. rewrite lookup_insert_ne; [done|]. intros ->. congruence.
Qed.

Lemma fresh_file limit j dir q : live limit j dir -> j_records j !! q = None -> dir !! q = None.
Proof.
  intros Hl Hq. pose proof (g_files _ _ (lv_good _ _ _ Hl) q) as Hf. rewrite Hq in Hf. by destruct (dir !! q).
Qed.

Definition stepGoal limit (a : journalAction) dir (w' : world) (answer : option appendAnswer) : Prop :=
  winv limit w' /\
  (forall m, stored dir m -> stored w'.2 m \/ released limit a dir answer m) /\
  (forall m e, answer = Some (Answered m e) -> stored w'.2 m \/ released limit a dir answer m).

Lemma append_step limit before now after write faults request j dir j' dir' ans :
  live limit j dir -> now <> time_zero -> (forall e, write <> Unsynced e) ->
  Append before now after write faults request j dir = (j', dir', ans) ->
  stepGoal limit (DoAppend before now after write faults request) dir (Some j', dir') (Some ans).
Proof.
  intros Hl Hnow Hw E. set (a := DoAppend _ _ _ _ _ _).
  apply append_inv in E as [(e & _ & -> & -> & ->)|(q & j1 & dir1 & e1 & Hq & Hp & E)].
  { split; [done|]. split; [by left|]. intros m e'. by intros [=]. }
  pose proof (prune_live _ _ _ _ _ _ _ _ Hl Hp) as (Hl1 & Hsize & Hsub & _).
  assert (Hold : forall m ans, stored dir m -> stored dir1 m \/ released limit a dir ans m).
  { intros m ans' Hm. destruct (prune_released _ _ _ _ _ _ _ _ m Hl Hp Hm) as [H|[H|H]]; [by left|right; left|right; right].
    - exists before. split; [left|done].
    - eapply outlived_known; [apply Hl|done]. }
  destruct E as [(-> & -> & e & ->)|[(-> & m & Hm & -> & -> & ->)|(-> & m & data & Em & Hnone & Hs & Hf & E)]].
  - split; [done|]. split; [by auto|]. intros m e'. by intros [=].
  - split; [done|]. split; [by auto|]. intros n e'. case_bool_decide; [|by intros [=]]. intros [= <- _]. left.
    apply (good_stored _ _ _ (lv_good _ _ _ Hl1)).
    by rewrite (gm_id _ _ (g_messages _ _ (lv_good _ _ _ Hl1) _ _ Hm)).
  - destruct E as [(e & Hx & _)|(_ & e & Hp' & ->)]; [by destruct (Hw e)|].
    assert (Hqq : normalize q = Ok q) by (by apply normalizeMessage_spec in Hq as [Hq _]).
    pose proof (fresh_live limit j1 dir1 q now m data Hl1 Hqq Hnow (Hsize eq_refl) Em Hnone Hs Hf) as Hl2.
    pose proof (prune_live _ _ _ _ _ _ _ _ Hl2 Hp') as (Hl' & _).
    assert (Hknown : forall n, known (j_records (added m j1)) n -> stored dir n \/ exists e', Some (Answered m e) = Some (Answered n e')).
    { intros n (id & Hn). cbn [j_records added] in Hn. apply lookup_insert_Some in Hn as [[_ <-]|[_ Hn]]; [right; by exists e|left].
      eapply known_stored; [apply Hl|]. exists id. by apply Hsub. }
    assert (Hnew : forall n, stored (<[am_ID q := data]> dir1) n -> stored dir' n \/ released limit a dir (Some (Answered m e)) n).
    { intros n Hn. destruct (prune_released _ _ _ _ _ _ _ _ n Hl2 Hp' Hn) as [H|[H|H]]; [by left|right; left|right; right].
      - exists after. split; [right; left|done].
      - eapply outlived_mono; [exact Hknown|done]. }
    split; [done|]. split.
    + intros n Hn. destruct (Hold n (Some (Answered m e)) Hn) as [H|H]; [|by right]. apply Hnew.
      apply stored_insert; [by eapply fresh_file|done].
    + intros n e' [= <- _]. apply Hnew. exists data. destruct Hf as [HM _]. split; [|done]. subst m. apply lookup_insert_eq.
Qed.

Lemma live_good limit j dir : live limit j dir -> winv limit (None, dir).
Proof. intros Hl. exists (j_records j). split; [apply Hl|apply Hl]. Qed.

Lemma prune_step limit now faults a j dir j' dir' e ans :
  live limit j dir -> pruneLocked visit now faults j dir = (j', dir', e) -> now ∈ pruneTimes a ->
  live limit j' dir' /\ forall m, stored dir m -> stored dir' m \/ released limit a dir ans m.
Proof.
  intros Hl Hp Hin. split; [by eapply prune_live|]. intros m Hm.
  destruct (prune_released _ _ _ _ _ _ _ _ m Hl Hp Hm) as [H|[H|H]]; [by left|right; left; by exists now|right; right].
  eapply outlived_known; [apply Hl|done].
Qed.

(** The daemon dies after its append has published the file, or before. *)
Lemma die_step limit before now faults request j dir j' dir' ans :
  live limit j dir -> now <> time_zero ->
  Append before now now (Unsynced (ENew "killed")) faults request j dir = (j', dir', ans) ->
  stepGoal limit (Die before now (Some (request, faults))) dir (None, dir') None.
Proof.
  intros Hl Hnow E. set (a := Die _ _ _).
  apply append_inv in E as [(e & _ & -> & -> & ->)|(q & j1 & dir1 & e1 & Hq & Hp & E)].
  { split; [by eapply live_good|]. split; [by left|done]. }
  destruct (prune_step _ _ _ a _ _ _ _ _ None Hl Hp) as [Hl1 Hold]; [left|].
  destruct E as [(-> & -> & e & ->)|[(-> & m & Hm & -> & -> & ->)|(-> & m & data & Em & Hnone & Hs & Hf & E)]].
  1,2: split; [by eapply live_good|]; by split.
  destruct E as [(e & _ & -> & -> & _)|(Hx & _)]; [|done].
  assert (Hqq : normalize q = Ok q) by (by apply normalizeMessage_spec in Hq as [Hq _]).
  pose proof (prune_live _ _ _ _ _ _ _ _ Hl Hp) as (_ & Hsize & _).
  pose proof (fresh_live limit j1 dir1 q now m data Hl1 Hqq Hnow (Hsize eq_refl) Em Hnone Hs Hf) as Hl2.
  split; [by eapply live_good|]. split; [|done]. intros n Hn. destruct (Hold n Hn) as [H|H]; [left|by right].
  apply stored_insert; [by eapply fresh_file|done].
Qed.

Lemma restart_step limit now faults files r dir :
  good r dir -> Z.of_nat (size r) <= Z.max 1 limit + 1 -> files ≡ₚ map_to_list dir ->
  let w' := match newActivityJournal limit now faults files dir with (Ok j, dir') => (Some j, dir') | (Err _, dir') => (None, dir') end in
  stepGoal limit (Restart now faults files) dir w' None /\ (faults = (fun _ => None) -> is_Some w'.1).
Proof.
  intros Hg Hsize Hfiles. destruct (loadDir_spec limit files r dir Hg Hsize Hfiles) as (j0 & E & Hl & _).
  unfold ActivityJournal.newActivityJournal. rewrite E. destruct (pruneLocked visit now faults j0 dir) as [[j1 dir1] e1] eqn:Ep.
  pose proof (prune_step _ _ _ (Restart now faults files) _ _ _ _ _ None Hl Ep) as [Hl1 Hold]; [left|].
  destruct e1 as [e|]; cbv zeta.
  - split; [|intros ->; pose proof (prune_nofault now j0 dir) as Hn; by rewrite Ep in Hn].
    split; [by eapply live_good|]. by split.
  - split; [|by exists j1]. split; [done|]. by split.
Qed.

Lemma journalStep_spec limit w a w' answer :
  winv limit w -> synced a -> journalStep limit w a = Some (w', answer) -> stepGoal limit a w.2 w' answer.
Proof.
  destruct w as [jo dir]. cbn [snd]. intros Hw Ha Hstep.
  destruct a as [before now after write faults request|now faults|before now [[request faults]|]|now faults files];
    destruct jo as [j|]; cbn [ActivityJournal.journalStep] in Hstep; try done.
  - destruct (Append before now after write faults request j dir) as [[j' dir'] ans] eqn:E. injection Hstep as <- <-.
    destruct Ha as [Hnow Hwr]. exact (append_step _ _ _ _ _ _ _ _ _ _ _ _ Hw Hnow Hwr E).
  - destruct (pruneLocked visit now faults j dir) as [[j' dir'] e] eqn:E. injection Hstep as <- <-.
    destruct (prune_step _ _ _ (DoPrune now faults) _ _ _ _ _ None Hw E) as [Hl Hold]; [left|]. split; [done|]. by split.
  - destruct (Append _ _ _ _ faults request j dir) as [[j' dir'] ans] eqn:E. injection Hstep as <- <-.
    exact (die_step _ _ _ _ _ _ _ _ _ _ Hw Ha E).
  - injection Hstep as <- <-. split; [exact (live_good _ _ _ Hw)|]. split; [by left|done].
  - injection Hstep as <- <-. split; [done|]. split; [by left|done].
  - case_bool_decide as Hf; [|done]. destruct Hw as (r & Hg & Hsize).
    destruct (restart_step limit now faults files r dir Hg Hsize Hf) as [Hgoal _].
    destruct (newActivityJournal limit now faults files dir) as [[j|e] dir'] eqn:E; by injection Hstep as <- <-.
Qed.

Lemma good_empty : good ∅ ∅.
Proof.
  split; [apply map_Forall_empty| |].
  - intros id. by rewrite !lookup_empty.
  - intros i k m n Hm. by rewrite lookup_empty in Hm.
Qed.

Lemma winv_start limit : winv limit (None, ∅).
Proof. exists ∅. split; [apply good_empty|]. rewrite map_size_empty. lia. Qed.

Lemma journalRun_spec limit l w w' : winv limit w -> Forall synced l -> journalRun limit w l = Some w' -> winv limit w'.
Proof.
  intros Hw Hl. revert w Hw. induction Hl as [|a l Ha _ IH]; intros w Hw; cbn [ActivityJournal.journalRun]; [by intros [= <-]|].
  destruct (journalStep limit w a) as [[w1 ans]|] eqn:E; [simpl|done]. apply IH.
  by destruct (journalStep_spec limit w a w1 ans Hw Ha E).
Qed.

Lemma live_stored limit j dir m : live limit j dir -> j_records j !! message_ID m = Some m <-> stored dir m.
Proof. intros Hl. symmetry. apply good_stored, Hl. Qed.

(** C33: in every state the journal reaches from an empty directory, through
    appends, failing writes and removals, prunings, restarts and deaths of the
    daemon at any point of an append, except a write that fails after its rename
    ([synced]; such a write makes the next start refuse the directory,
    [unsynced_write_blocks_restart]): the index of a running journal is the
    content of the directory and holds at most one message more than the limit; a
    stored message stays stored unless its retention is over or newer messages
    fill the limit; a message answered is stored under the same condition; and a
    start whose removals succeed reads the directory back. *)
Theorem messages_survive limit l w a w' answer :
  Forall synced l -> journalRun limit (None, ∅) l = Some w -> synced a -> journalStep limit w a = Some (w', answer) ->
  (forall j, w.1 = Some j ->
     (forall m, j_records j !! message_ID m = Some m <-> stored w.2 m) /\
     Z.of_nat (size (j_records j)) <= Z.max 1 limit + 1) /\
  (forall m, stored w.2 m -> stored w'.2 m \/ released limit a w.2 answer m) /\
  (forall m e, answer = Some (Answered m e) -> stored w'.2 m \/ released limit a w.2 answer m) /\
  (forall now files, a = Restart now (fun _ => None) files -> is_Some w'.1).
Proof.
  intros Hl Hrun Ha Hstep. pose proof (journalRun_spec _ _ _ _ (winv_start limit) Hl Hrun) as Hw.
  destruct (journalStep_spec limit w a w' answer Hw Ha Hstep) as (_ & H1 & H2).
  split; [|split; [exact H1|split; [exact H2|]]].
  - intros j Hj. unfold winv in Hw. rewrite Hj in Hw. split; [|apply Hw]. intros m. by eapply live_stored.
  - intros now files ->. destruct w as [[j|] dir]; [done|]. cbn [ActivityJournal.journalStep] in Hstep.
    case_bool_decide as Hf; [|done]. destruct Hw as (r & Hg & Hsize).
    destruct (restart_step limit now (fun _ => None) files r dir Hg Hsize Hf) as [_ Hsome]. specialize (Hsome eq_refl).
    destruct (newActivityJournal limit now (fun _ => None) files dir) as [[j|e] dir'] eqn:E; by injection Hstep as <- <-.
Qed.

(** Submitting a message again while it is kept answers the stored message,
    with its first time and sequence, and adds nothing; other content under its
    identifier is refused; and a message that was not there gets a sequence above
    every stored one. *)
Theorem append_once limit l j dir before now after write faults request q j' dir' ans :
  Forall synced l -> journalRun limit (None, ∅) l = Some (Some j, dir) -> now <> time_zero ->
  normalize request = Ok q ->
  Append before now after write faults request j dir = (j', dir', ans) ->
  (forall m, j_records j !! am_ID q = Some m -> expired before m = false -> ~ outlived limit (stored dir) m ->
     (m_request m = q /\ ans = Answered m None /\ stored dir' m) \/ exists e, ans = Refused e) /\
  (forall m e, ans = Answered m e -> m_request m = q) /\
  (forall m e n, ans = Answered m e -> j_records j !! am_ID q = None -> stored dir n -> Sequence n < Sequence m).
Proof.
  intros Hl Hrun Hnow Hq E. pose proof (journalRun_spec _ _ _ _ (winv_start limit) Hl Hrun) as Hw. cbn in Hw.
  apply append_inv in E as [(e & Hx & _)|(q' & j1 & dir1 & e1 & Hq' & Hp & E)]; [congruence|].
  assert (q' = q) as -> by congruence. clear Hq'.
  pose proof (prune_live _ _ _ _ _ _ _ _ Hw Hp) as (Hl1 & _ & Hsub & Hkeep).
  pose proof (pruneLocked_spec _ _ _ _ _ _ _ (lv_good _ _ _ Hw) Hp) as (_ & Hthr & _).
  assert (Hstay : forall m, j_records j !! am_ID q = Some m -> expired before m = false -> ~ outlived limit (stored dir) m ->
    j_records j1 !! am_ID q = Some m).
  { intros m Hm Hex Hout. destruct (Hkeep _ _ Hm) as [H|[H|H]]; [done|congruence|exfalso]. apply Hout.
    eapply outlived_mono; [|exact H]. intros n. eapply known_stored, Hw. }
  destruct E as [(-> & -> & e & ->)|[(-> & m & Hm & -> & -> & ->)|(-> & m & data & Em & Hnone & Hs & Hf & E)]].
  - split; [by eauto|]. by split.
  - assert (Hst : stored dir1 m).
    { apply (live_stored _ _ _ _ Hl1). by rewrite (gm_id _ _ (g_messages _ _ (lv_good _ _ _ Hl1) _ _ Hm)). }
    split; [|split].
    + intros n Hn Hex Hout. specialize (Hstay n Hn Hex Hout). assert (n = m) as -> by congruence.
      case_bool_decide; [by left|right; eauto].
    + intros n e. case_bool_decide as He; [|done]. by intros [= <- _].
    + intros n e k. case_bool_decide; [|done]. intros [= <- _] Hno. apply Hsub in Hm. congruence.
  - split; [|split].
    + intros n Hn Hex Hout. rewrite (Hstay n Hn Hex Hout) in Hnone. done.
    + intros n e He. destruct E as [(e' & _ & _ & _ & ->)|(_ & e' & _ & ->)]; [done|]. injection He as <- _. by rewrite Em.
    + intros n e k He _ Hk. destruct E as [(e' & _ & _ & _ & ->)|(_ & e' & _ & ->)]; [done|]. injection He as <- _.
      rewrite Em. cbn [Sequence]. rewrite Em in Hs. cbn [Sequence] in Hs. rewrite Hthr in *.
      apply (live_stored _ _ _ _ Hw) in Hk. destruct (lv_through _ _ _ Hw) as [Ht Hle]. apply Hle in Hk.
      assert (Hne : j_through j + 1 <> two64) by (intros Hx; apply Hs; by rewrite Hx). rewrite u64_small; lia.
Qed.
End Durable.

(** ** A sample *)

Module Sample.

Definition fields (m : ActivityMessage) : (string * string * bool * string * string * Z * string * string * string) * Z * Z :=
  let r := m_request m in
  ((Action r, TerminalID r, Success r, am_ID r, Source r, Level r, Text r, NodeID r, NodeSlug r), Sequence m, Time m).
Definition unfields (v : (string * string * bool * string * string * Z * string * string * string) * Z * Z) : ActivityMessage :=
  let '((a, t, s, i, o, l, x, n, g), q, c) := v in Message (MessageRequest a t s i o l x n g) q c.

Lemma unfields_fields m : unfields (fields m) = m.
Proof. by destruct m as [[] q c]. Qed.

Definition Marshal (m : ActivityMessage) : result bytes := Ok (put fields m).
Definition Unmarshal (data : bytes) : result ActivityMessage :=
  match get unfields data with Some m => Ok m | None => Err (ENew "invalid JSON") end.

Lemma message_json m data : Marshal m = Ok data -> Unmarshal data = Ok m.
Proof. intros [= <-]. unfold Unmarshal. by rewrite (get_put fields unfields unfields_fields). Qed.

Definition printable (r : bytes) : bool := true.
Definition uuidParse (s : string) : bool := (String.length s =? 4)%nat.
Definition visit (m : gmap string ActivityMessage) : list (string * ActivityMessage) := map_to_list m.
Lemma visit_law m : visit m ≡ₚ map_to_list m.
Proof. done. Qed.

Definition asked (id text : string) : activityMessageRequest := MessageRequest "" "" false id "cli" 0 text "" "".
Definition clean (_ : string) : option go_error := None.

Abbreviation run := (journalRun printable uuidParse Marshal Unmarshal visit 2).
Abbreviation append := (Append printable uuidParse Marshal visit).

(** Two messages, the daemon dies in the middle of a third, and starts again. *)
Definition beforeStart : option world :=
  run (None, ∅) [Restart 1 clean []; DoAppend 2 2 2 Written clean (asked "m001" " one ");
                 DoAppend 3 3 3 Written clean (asked "m002" "two"); Die 4 4 (Some (asked "m003" "three", clean))].
Definition atStart : world := default (None, ∅) beforeStart.
Definition restart : journalAction := Restart 5 (fun _ => None) (map_to_list atStart.2).
Definition started : option world :=
  run (None, ∅) [Restart 1 clean []; DoAppend 2 2 2 Written clean (asked "m001" " one ");
                 DoAppend 3 3 3 Written clean (asked "m002" "two"); Die 4 4 (Some (asked "m003" "three", clean));
                 restart].
Definition running : activityJournal := default (emptyJournal 0) (default (None, ∅) started).1.

(** What a journal holds, in the order of the sequence. *)
Definition held (j : activityJournal) : list (string * Z) :=
  map (fun v => (v.1, Sequence v.2)) (merge_sort seq_le (map_to_list (j_records j))).

Example running_held : held running = [("m002", 2); ("m003", 3)].
Proof. vm_compute. reflexivity. Qed.

(** A write that was published but not flushed, then another message: the
    directory cannot be read back. *)
Definition unsynced : activityJournal * directory * appendAnswer :=
  append 7 7 7 (Unsynced (ENew "input/output error")) clean (asked "m005" "five") running (default (None, ∅) started).2.
Definition twice : activityJournal * directory * appendAnswer :=
  append 8 8 8 Written clean (asked "m006" "six") unsynced.1.1 unsynced.1.2.

Definition startError {A} (r : result A) : option string := match r with Ok _ => None | Err e => Some (errorText e) end.

Lemma unsynced_write_blocks_restart :
  match twice.2 with Answered m _ => Sequence m =? 4 | Refused _ => false end = true /\
  startError (newActivityJournal printable uuidParse Unmarshal visit 2 9 clean (map_to_list twice.1.2) twice.1.2).1 =
    Some "invalid activity message m006".
Proof. split; vm_compute; reflexivity. Qed.

Lemma beforeStart_is :
  run (None, ∅) [Restart 1 clean []; DoAppend 2 2 2 Written clean (asked "m001" " one ");
                 DoAppend 3 3 3 Written clean (asked "m002" "two"); Die 4 4 (Some (asked "m003" "three", clean))]
  = Some atStart.
Proof. vm_compute. reflexivity. Qed.

Definition stepped : option (world * option appendAnswer) :=
  journalStep printable uuidParse Marshal Unmarshal visit 2 atStart restart.
Definition after : world := default (None, ∅) (fst <$> stepped).

Lemma stepped_is : journalStep printable uuidParse Marshal Unmarshal visit 2 atStart restart = Some (after, None).
Proof. vm_compute. reflexivity. Qed.

Lemma started_is :
  run (None, ∅) [Restart 1 clean []; DoAppend 2 2 2 Written clean (asked "m001" " one ");
                 DoAppend 3 3 3 Written clean (asked "m002" "two"); Die 4 4 (Some (asked "m003" "three", clean)); restart]
  = Some (Some running, after.2).
Proof. vm_compute. reflexivity. Qed.

Lemma running_has : (message_ID <$> j_records running !! "m002") = Some "m002".
Proof. vm_compute. reflexivity. Qed.

Definition two : ActivityMessage := Message (asked "m002" "two") 2 3.
Lemma two_stored : stored Marshal after.2 two.
Proof. exists (put fields two). split; [vm_compute; reflexivity|reflexivity]. Qed.

Definition fourth : activityJournal * directory * appendAnswer :=
  append 6 6 6 Written clean (asked "m004" "four") running after.2.
Definition four : ActivityMessage := Message (asked "m004" "four") 4 6.
Lemma fourth_is : append 6 6 6 Written clean (asked "m004" "four") running after.2 = (fourth.1.1, fourth.1.2, fourth.2).
Proof. vm_compute. reflexivity. Qed.
Lemma fourth_answer : fourth.2 = Answered four None.
Proof. vm_compute. reflexivity. Qed.
Lemma four_new : j_records running !! "m004" = None.
Proof. vm_compute. reflexivity. Qed.
Lemma four_normal : normalizeActivityMessage printable uuidParse (asked "m004" "four") = Ok (asked "m004" "four").
Proof. vm_compute. reflexivity. Qed.

Lemma started_synced :
  Forall synced [Restart 1 clean []; DoAppend 2 2 2 Written clean (asked "m001" " one ");
                 DoAppend 3 3 3 Written clean (asked "m002" "two"); Die 4 4 (Some (asked "m003" "three", clean)); restart].
Proof. repeat constructor; discriminate. Qed.
Lemma beforeStart_synced :
  Forall synced [Restart 1 clean []; DoAppend 2 2 2 Written clean (asked "m001" " one ");
                 DoAppend 3 3 3 Written clean (asked "m002" "two"); Die 4 4 (Some (asked "m003" "three", clean))].
Proof. repeat constructor; discriminate. Qed.
End Sample.

Theorem messages_survive_witness :
  is_Some Sample.after.1 /\
  (stored Sample.Marshal Sample.after.2 Sample.two \/
   released Sample.Marshal 2 Sample.restart Sample.atStart.2 None Sample.two).
Proof.
  destruct (messages_survive Sample.printable Sample.uuidParse Sample.Marshal Sample.Unmarshal Sample.visit Sample.message_json
    Sample.visit_law 2 _ Sample.atStart Sample.restart Sample.after None Sample.beforeStart_synced Sample.beforeStart_is I
    Sample.stepped_is) as (_ & H & _ & Hstart).
  split; [exact (Hstart 5 (map_to_list Sample.atStart.2) eq_refl)|].
  apply H. exists (put Sample.fields Sample.two). split; [vm_compute; reflexivity|reflexivity].
Defined.

Theorem append_once_witness : Sequence Sample.two < Sequence Sample.four.
Proof.
  destruct (append_once Sample.printable Sample.uuidParse Sample.Marshal Sample.Unmarshal Sample.visit Sample.message_json
    Sample.visit_law 2 _ Sample.running Sample.after.2 6 6 6 Written Sample.clean (Sample.asked "m004" "four")
    (Sample.asked "m004" "four") Sample.fourth.1.1 Sample.fourth.1.2 Sample.fourth.2 Sample.started_synced
    Sample.started_is ltac:(discriminate) Sample.four_normal Sample.fourth_is) as (_ & _ & H).
  exact (H Sample.four None Sample.two Sample.fourth_answer Sample.four_new Sample.two_stored).
Defined.
