(* ===== verification/OperationOutput.v ===== *)
(** * Captured command output

    [internal/codelima/node_operation_output.go]: the bounded tail of a lifecycle
    command's combined output.  A write is cut into lines, a line is clipped to
    its end, and the oldest lines give way; the receipt holds what the last flush
    saved and a later daemon continues from it.  Texts are byte lists; the
    ticker that flushes and cancels is the caller's. *)

From S2P Require Import Prelude GoText Utf8.
Local Open Scope Z_scope.

Definition operationOutputLines : Z := 200.
Definition operationOutputBytes : Z := Z.shiftl 32 10.
Definition operationOutputLineBytes : Z := 4096.

Definition ellipsisBytes : bytes := [0xe2; 0x80; 0xa6].
(** What an unfinished line keeps: room for the mark that it was clipped. *)
Definition partialLimit : Z := operationOutputLineBytes - zlen ellipsisBytes.

Record nodeOperationOutput := Output {
  o_lines : list bytes;
  o_partial : bytes;
  o_partialClipped : bool;
  o_bytes : Z;
  o_next : Z;
  o_version : Z;
  o_saved : Z;
}.

(** The fields of the receipt. *)
Record outputRecord := Record_ {
  or_Output : list bytes;
  or_OutputStart : Z;
  or_OutputPartial : bytes;
}.

Definition newNodeOperationOutput (record : outputRecord) : nodeOperationOutput := {|
  o_lines := or_Output record; o_partial := or_OutputPartial record; o_partialClipped := false;
  o_bytes := zsum zlen (or_Output record); o_next := u64 (or_OutputStart record + zlen (or_Output record));
  o_version := 0; o_saved := 0 |}.

(** The last [n] bytes. *)
Definition lastBytes (n : Z) (l : bytes) : bytes := drop (Z.to_nat (zlen l - n)) l.

Definition set_partial (partial : bytes) (clipped : bool) (w : nodeOperationOutput) : nodeOperationOutput := {|
  o_lines := o_lines w; o_partial := partial; o_partialClipped := clipped; o_bytes := o_bytes w; o_next := o_next w;
  o_version := o_version w; o_saved := o_saved w |}.

Definition appendPartial (data : bytes) (w : nodeOperationOutput) : nodeOperationOutput :=
  if partialLimit <=? zlen data then set_partial (lastBytes partialLimit data) true w
  else
    let excess := zlen (o_partial w) + zlen data - partialLimit in
    if 0 <? excess then set_partial (drop (Z.to_nat excess) (o_partial w) ++ data) true w
    else set_partial (o_partial w ++ data) (o_partialClipped w) w.

(** [utf8.RuneStart] *)
Definition RuneStart (b : Z) : bool := negb (Z.land b 0xc0 =? 0x80).

Fixpoint dropContinuation (l : bytes) : bytes :=
  match l with [] => [] | b :: t => if RuneStart b then l else dropContinuation t end.

Definition partialText (w : nodeOperationOutput) : bytes :=
  let text := toValid (length (o_partial w)) (bytes_of replacementRune) (o_partial w) false in
  let text := if o_partialClipped w then ellipsisBytes ++ text else text in
  if operationOutputLineBytes <? zlen text
  then ellipsisBytes ++ dropContinuation (drop (Z.to_nat (zlen text - operationOutputLineBytes + zlen ellipsisBytes)) text)
  else text.

(** The loop of [trim]. *)
Fixpoint trimLines (limit partial : Z) (lines : list bytes) (total : Z) : list bytes * Z :=
  match lines with
  | [] => ([], total)
  | line :: rest =>
      if (limit <? zlen lines) || (operationOutputBytes <? total + partial)
      then trimLines limit partial rest (total - zlen line) else (lines, total)
  end.

Definition trim (w : nodeOperationOutput) : nodeOperationOutput :=
  let limit := match o_partial w with [] => operationOutputLines | _ => operationOutputLines - 1 end in
  let '(lines, total) := trimLines limit (zlen (partialText w)) (o_lines w) (o_bytes w) in
  {| o_lines := lines; o_partial := o_partial w; o_partialClipped := o_partialClipped w; o_bytes := total;
     o_next := o_next w; o_version := o_version w; o_saved := o_saved w |}.

(** The end of a line. *)
Definition newlineByte (b : Z) : bool := (b =? 13) || (b =? 10).
Fixpoint IndexAny (l : bytes) : option nat :=
  match l with [] => None | b :: l => if newlineByte b then Some O else S <$> IndexAny l end.

(** The line that ends is appended and the next one begins. *)
Definition endLine (w : nodeOperationOutput) : nodeOperationOutput :=
  let line := partialText w in
  {| o_lines := o_lines w ++ [line]; o_partial := []; o_partialClipped := false; o_bytes := o_bytes w + zlen line;
     o_next := u64 (o_next w + 1); o_version := o_version w; o_saved := o_saved w |}.

(** The loop of [Write]; every round takes a byte at least. *)
Fixpoint writeLoop (fuel : nat) (data : bytes) (w : nodeOperationOutput) : nodeOperationOutput :=
  match fuel with
  | O => w
  | S fuel =>
      match data with
      | [] => w
      | _ =>
          match IndexAny data with
          | None => appendPartial data w
          | Some end_ => writeLoop fuel (drop (S end_) data) (trim (endLine (appendPartial (take end_ data) w)))
          end
      end
  end.

Definition Write (data : bytes) (w : nodeOperationOutput) : nodeOperationOutput :=
  match data with
  | [] => w
  | _ =>
      let w := {| o_lines := o_lines w; o_partial := o_partial w; o_partialClipped := o_partialClipped w;
                  o_bytes := o_bytes w; o_next := o_next w; o_version := u64 (o_version w + 1); o_saved := o_saved w |} in
      trim (writeLoop (length data) data w)
  end.

(** [flush] with what persisting the receipt answers; the record holds the new
    output even when it could not be written. *)
Definition flush (persist : option go_error) (w : nodeOperationOutput) (record : outputRecord)
    : nodeOperationOutput * outputRecord * option go_error :=
  if o_saved w =? o_version w then (w, record, None)
  else
    let record := {| or_Output := o_lines w; or_OutputStart := u64 (o_next w - zlen (o_lines w));
                     or_OutputPartial := partialText w |} in
    match persist with
    | Some e => (w, record, Some e)
    | None =>
        ({| o_lines := o_lines w; o_partial := o_partial w; o_partialClipped := o_partialClipped w;
            o_bytes := o_bytes w; o_next := o_next w; o_version := o_version w; o_saved := o_version w |}, record, None)
    end.

Definition writes (l : list bytes) (w : nodeOperationOutput) : nodeOperationOutput := foldl (fun w data => Write data w) w l.

(** ** Specification *)

(** The lines of a stream and its unfinished last one, which so far is [cur]. *)
Fixpoint cutLines (cur stream : bytes) : list bytes * bytes :=
  match stream with
  | [] => ([], cur)
  | b :: stream =>
      if newlineByte b then let '(lines, last) := cutLines [] stream in (cur :: lines, last)
      else cutLines (cur ++ [b]) stream
  end.

Definition startsRune (l : bytes) : Prop := match l with [] => True | b :: _ => RuneStart b = true end.

(** [marked] when it fits into a line, otherwise a mark and the longest end of it
    that fits behind the mark and starts a rune. *)
Inductive clippedTo (marked : bytes) : bytes -> Prop :=
| FitsLine : zlen marked <= 4096 -> clippedTo marked marked
| ShowsEnd head tail : 4096 < zlen marked -> marked = head ++ tail -> startsRune tail -> zlen tail <= 4093 ->
    (forall h t, marked = h ++ t -> startsRune t -> zlen t <= 4093 -> zlen t <= zlen tail) ->
    clippedTo marked (ellipsisBytes ++ tail).

(** The texts that may be shown for a line: of a short line all of it, of a long
    one its last 4093 bytes behind a mark; a line of 4093 bytes may carry the mark. *)
Inductive shown (raw : bytes) : bytes -> Prop :=
| ShownWhole clean text : zlen raw <= 4093 ->
    sanitized (bytes_of replacementRune) false raw clean -> clippedTo clean text -> shown raw text
| ShownEnd front kept clean text : 4093 <= zlen raw -> raw = front ++ kept -> zlen kept = 4093 ->
    sanitized (bytes_of replacementRune) false kept clean -> clippedTo (ellipsisBytes ++ clean) text ->
    shown raw text.

(** The lines and the text of the unfinished line [last] are within the limits. *)
Definition fits (lines : list bytes) (last text : bytes) : Prop :=
  zlen lines + (if bool_decide (last = []) then 0 else 1) <= 200 /\ zsum zlen lines + zlen text <= 32768.

(** At some point of the stream the last line that was dropped, with all that
    came after it, was not within the limits. *)
Definition mustDrop (stream : bytes) (texts dropped : list bytes) : Prop :=
  exists before after, stream = before ++ after /\
    let '(lines, last) := cutLines [] before in
    exists text, shown last text /\
      ~ fits (drop (length dropped - 1) (take (length lines) texts)) last text.

(** ** The tail *)

Lemma lastBytes_length n (l : bytes) : 0 <= n -> zlen (lastBytes n l) = Z.min n (zlen l).
Proof. intros Hn. unfold lastBytes, zlen. rewrite length_drop. lia. Qed.

Lemma lastBytes_all n (l : bytes) : zlen l <= n -> lastBytes n l = l.
Proof. unfold lastBytes. intros H. by replace (Z.to_nat (zlen l - n)) with 0%nat by lia. Qed.

Lemma drop_app_prefix (n : nat) (l k : bytes) : (n <= length l)%nat -> drop n l ++ k = drop n (l ++ k).
Proof. intros H. by rewrite drop_app_le. Qed.

(** The unfinished line of a writer is the end of [raw]. *)
Definition follows (raw : bytes) (w : nodeOperationOutput) : Prop :=
  o_partial w = lastBytes partialLimit raw /\ (zlen raw < partialLimit -> o_partialClipped w = false) /\
  (partialLimit < zlen raw -> o_partialClipped w = true).

Lemma partialLimit_value : partialLimit = 4093.
Proof. reflexivity. Qed.
#[local] Opaque partialLimit.

Lemma appendPartial_follows raw data w : follows raw w -> follows (raw ++ data) (appendPartial data w).
Proof.
  intros (Hp & Hs & Hl). pose proof partialLimit_value as HL. pose proof (zlen_nonneg raw). pose proof (zlen_nonneg data).
  unfold appendPartial. destruct (Z.leb_spec partialLimit (zlen data)) as [Hbig|Hsmall].
  { split; cbn [o_partial set_partial o_partialClipped]; [|rewrite zlen_app; split; [lia|done]].
    unfold lastBytes. rewrite zlen_app, drop_app_ge by (unfold zlen in *; lia). f_equal. unfold zlen in *. lia. }
  rewrite Hp, lastBytes_length by lia. cbv zeta.
  destruct (Z.ltb_spec 0 (Z.min partialLimit (zlen raw) + zlen data - partialLimit)) as [Hex|Hfit].
  - split; cbn [o_partial set_partial o_partialClipped]; [|rewrite zlen_app; split; [lia|done]].
    unfold lastBytes. rewrite drop_drop, drop_app_prefix by (unfold zlen in *; lia). f_equal.
    rewrite zlen_app. unfold zlen in *. lia.
  - split; cbn [o_partial set_partial o_partialClipped]; rewrite ?zlen_app.
    + destruct (Z.leb_spec (zlen raw) partialLimit).
      * rewrite !lastBytes_all by (rewrite ?zlen_app; lia). done.
      * assert (data = []) as -> by (apply zlen_zero_inv; lia). by rewrite !app_nil_r.
    + split; intros Hx; [apply Hs; lia|]. destruct (Z.leb_spec (zlen raw) partialLimit); [lia|]. by apply Hl.
Qed.

Lemma partialText_eq w v :
  o_partial w = o_partial v -> o_partialClipped w = o_partialClipped v -> partialText w = partialText v.
Proof. unfold partialText. by intros -> ->. Qed.

(** ** What a line shows *)

Lemma dropContinuation_spec l :
  (exists h, l = h ++ dropContinuation l) /\ startsRune (dropContinuation l) /\
  (forall h t, l = h ++ t -> startsRune t -> zlen t <= zlen (dropContinuation l)).
Proof.
  induction l as [|b l ((h & IH1) & IH2 & IH3)]; cbn [dropContinuation].
  { split; [by exists []|]. split; [done|]. intros h t E _. symmetry in E. by apply app_eq_nil in E as [_ ->]. }
  destruct (RuneStart b) eqn:Eb.
  - split; [by exists []|]. split; [done|]. intros k t -> _. rewrite zlen_app. pose proof (zlen_nonneg k). lia.
  - split; [exists (b :: h); simpl; by rewrite <- IH1|]. split; [done|]. intros [|x h'] t E Ht.
    + simpl in E. subst t. simpl in Ht. congruence.
    + injection E as -> E. by apply (IH3 h').
Qed.

Lemma clip_shown text :
  clippedTo text
    (if operationOutputLineBytes <? zlen text
     then ellipsisBytes ++ dropContinuation (drop (Z.to_nat (zlen text - operationOutputLineBytes + zlen ellipsisBytes)) text)
     else text).
Proof.
  change operationOutputLineBytes with 4096. change (zlen ellipsisBytes) with 3.
  destruct (Z.ltb_spec 4096 (zlen text)) as [Hlt|Hle]; [|by constructor].
  set (n := Z.to_nat (zlen text - 4096 + 3)).
  assert (zlen (drop n text) = 4093) as Hn by (unfold zlen in *; rewrite length_drop; lia).
  destruct (dropContinuation_spec (drop n text)) as ((h & E) & Hs & Hmax).
  apply (ShowsEnd _ (take n text ++ h)); [done| |done| |].
  - by rewrite <- app_assoc, <- E, take_drop.
  - pose proof (f_equal zlen E) as El. rewrite zlen_app in El. pose proof (zlen_nonneg h). lia.
  - intros h' t Et Ht Hle. apply (Hmax (drop n h')); [|done]. rewrite Et. rewrite drop_app_le; [done|].
    assert (zlen text = zlen h' + zlen t) by (by rewrite Et, zlen_app). unfold zlen in *. lia.
Qed.

Lemma follows_shown raw w : follows raw w -> shown raw (partialText w).
Proof.
  intros (Hp & Hs & Hl). pose proof partialLimit_value as HL. unfold partialText.
  pose proof (toValid_sanitized (bytes_of replacementRune) (length (o_partial w)) (o_partial w) false (le_n _)) as Hsan.
  destruct (o_partialClipped w) eqn:Ec.
  - assert (4093 <= zlen raw) by (destruct (Z.le_gt_cases 4093 (zlen raw)); [done|]; assert (true = false) by (apply Hs; lia); done).
    eapply (ShownEnd _ (take (Z.to_nat (zlen raw - partialLimit)) raw)); [done| | |exact Hsan|apply clip_shown].
    + rewrite Hp. unfold lastBytes. by rewrite take_drop.
    + rewrite Hp, lastBytes_length by lia. lia.
  - assert (zlen raw <= 4093) by (destruct (Z.le_gt_cases (zlen raw) 4093); [done|]; assert (false = true) by (apply Hl; lia); done).
    rewrite Hp, lastBytes_all in * by lia. eapply ShownWhole; [done|exact Hsan|apply clip_shown].
Qed.

(** ** The history of lines *)

Lemma trimLines_spec limit partial lines total :
  total = zsum zlen lines ->
  exists dropped, lines = dropped ++ (trimLines limit partial lines total).1 /\
    (trimLines limit partial lines total).2 = zsum zlen (trimLines limit partial lines total).1 /\
    ((trimLines limit partial lines total).1 = [] \/
     (zlen (trimLines limit partial lines total).1 <= limit /\
      zsum zlen (trimLines limit partial lines total).1 + partial <= operationOutputBytes)) /\
    (dropped = [] \/ let kept := drop (length dropped - 1) lines in
     limit < zlen kept \/ operationOutputBytes < zsum zlen kept + partial).
Proof.
  revert total. induction lines as [|line lines IH]; intros total ->; cbn [trimLines].
  { exists []. split; [done|]. split; [done|]. split; by left. }
  destruct (_ || _) eqn:Hb.
  - cbn [zsum]. destruct (IH (zsum zlen lines)) as (dropped & H1 & H2 & H3 & H4); [done|].
    replace (zlen line + zsum zlen lines - zlen line) with (zsum zlen lines) by lia.
    exists (line :: dropped). split; [by rewrite H1 at 1|]. split; [done|]. split; [done|]. right. cbv zeta.
    destruct H4 as [->|H4].
    + apply orb_true_iff in Hb as [Hb|Hb]; apply Z.ltb_lt in Hb; [by left|by right].
    + destruct dropped as [|x dropped]; [simpl in *|].
      * apply orb_true_iff in Hb as [Hb|Hb]; apply Z.ltb_lt in Hb; [by left|by right].
      * cbn [length] in *. rewrite !Nat.sub_succ, Nat.sub_0_r in *. exact H4.
  - apply orb_false_iff in Hb as [H1%Z.ltb_ge H2%Z.ltb_ge]. exists []. split; [done|]. split; [done|]. split; [by right|by left].
Qed.

Definition lineLimit (w : nodeOperationOutput) : Z :=
  match o_partial w with [] => operationOutputLines | _ => operationOutputLines - 1 end.

Lemma trim_spec w :
  o_bytes w = zsum zlen (o_lines w) ->
  exists dropped, o_lines w = dropped ++ o_lines (trim w) /\ o_bytes (trim w) = zsum zlen (o_lines (trim w)) /\
    o_partial (trim w) = o_partial w /\ o_partialClipped (trim w) = o_partialClipped w /\ o_next (trim w) = o_next w /\
    (o_lines (trim w) = [] \/
     (zlen (o_lines (trim w)) <= lineLimit w /\ zsum zlen (o_lines (trim w)) + zlen (partialText w) <= operationOutputBytes)) /\
    (dropped = [] \/ let kept := drop (length dropped - 1) (o_lines w) in
     lineLimit w < zlen kept \/ operationOutputBytes < zsum zlen kept + zlen (partialText w)).
Proof.
  intros Hb. unfold trim. fold (lineLimit w).
  destruct (trimLines_spec (lineLimit w) (zlen (partialText w)) (o_lines w) (o_bytes w) Hb) as (dropped & H1 & H2 & H3 & H4).
  destruct (trimLines _ _ _ _) as [lines total]. cbn [fst snd o_lines o_bytes o_partial o_partialClipped o_next] in *.
  by exists dropped.
Qed.

Lemma trim_follows raw w : follows raw w -> o_bytes w = zsum zlen (o_lines w) -> follows raw (trim w).
Proof.
  intros (Hp & Hs & Hl) Hb. destruct (trim_spec w Hb) as (_ & _ & _ & Hp' & Hc' & _). unfold follows. by rewrite Hp', Hc'.
Qed.

Lemma u64_succ z : u64 (u64 z + 1) = u64 (z + 1).
Proof. unfold u64. by rewrite Zplus_mod_idemp_l. Qed.

Lemma appendPartial_other data w :
  o_lines (appendPartial data w) = o_lines w /\ o_next (appendPartial data w) = o_next w /\
  o_bytes (appendPartial data w) = o_bytes w.
Proof. unfold appendPartial. repeat case_match; done. Qed.

(** ** Cutting a stream *)

Lemma cutLines_none raw data : IndexAny data = None -> cutLines raw data = ([], raw ++ data).
Proof.
  revert raw. induction data as [|b data IH]; intros raw; simpl; [by rewrite app_nil_r|].
  destruct (newlineByte b); [done|]. destruct (IndexAny data) eqn:E; [done|]. intros _. by rewrite IH, <- app_assoc.
Qed.

Lemma cutLines_some raw data n :
  IndexAny data = Some n ->
  cutLines raw data = (let '(lines, last) := cutLines [] (drop (S n) data) in ((raw ++ take n data) :: lines, last)).
Proof.
  revert raw n. induction data as [|b data IH]; intros raw n; [done|]. cbn [IndexAny cutLines].
  destruct (newlineByte b) eqn:Eb; [intros [= <-]; simpl; by rewrite app_nil_r|].
  destruct (IndexAny data) as [m|] eqn:E; [|done]. intros [= <-]. rewrite (IH _ m eq_refl). simpl.
  by rewrite <- app_assoc.
Qed.

Lemma cutLines_app raw a b :
  cutLines raw (a ++ b) =
    (let '(l1, r1) := cutLines raw a in let '(l2, r2) := cutLines r1 b in (l1 ++ l2, r2)).
Proof.
  revert raw. induction a as [|x a IH]; intros raw; cbn [app cutLines]; [by destruct (cutLines raw b)|].
  destruct (newlineByte x); [|apply IH]. rewrite IH. destruct (cutLines [] a) as [l1 r1].
  by destruct (cutLines r1 b) as [l2 r2].
Qed.

Lemma IndexAny_spec data n :
  IndexAny data = Some n ->
  exists nl, data = take n data ++ nl :: drop (S n) data /\ newlineByte nl = true /\ IndexAny (take n data) = None.
Proof.
  revert n. induction data as [|b data IH]; intros n; [done|]. cbn [IndexAny].
  destruct (newlineByte b) eqn:Eb; [intros [= <-]; by exists b|].
  destruct (IndexAny data) as [m|]; [|done]. intros [= <-]. destruct (IH m eq_refl) as (nl & E & Hnl & Ht).
  exists nl. split; [cbn [take drop app]; by rewrite <- E|]. split; [done|]. cbn [take IndexAny]. by rewrite Eb, Ht.
Qed.

(** ** The history of lines *)

Lemma endLine_follows w : follows [] (endLine w).
Proof. by split. Qed.

Lemma endLine_sum w : o_bytes w = zsum zlen (o_lines w) -> o_bytes (endLine w) = zsum zlen (o_lines (endLine w)).
Proof. intros Hb. unfold endLine. cbn [o_bytes o_lines]. rewrite zsum_app, Hb. simpl. lia. Qed.

(** The writer after the stream [s]: the retained lines are the end of the lines'
    texts, what was dropped had to be dropped. *)
Definition tells (s : bytes) (w : nodeOperationOutput) : Prop :=
  let '(lines, last) := cutLines [] s in
  follows last w /\ o_next w = u64 (zlen lines) /\ o_bytes w = zsum zlen (o_lines w) /\
  exists texts dropped, Forall2 shown lines texts /\ texts = dropped ++ o_lines w /\
    (dropped = [] \/ mustDrop s texts dropped).

Lemma tells_sum s w : tells s w -> o_bytes w = zsum zlen (o_lines w).
Proof. unfold tells. destruct (cutLines [] s). by intros (_ & _ & ? & _). Qed.

Lemma mustDrop_app s s' texts more dropped :
  length texts = length (cutLines [] s).1 ->
  mustDrop s texts dropped -> mustDrop (s ++ s') (texts ++ more) dropped.
Proof.
  intros Hlen (before & after & -> & H). exists before, (after ++ s'). split; [by rewrite app_assoc|].
  rewrite cutLines_app in Hlen. destruct (cutLines [] before) as [lines last].
  destruct (cutLines last after) as [l2 r2]. simpl in Hlen. rewrite length_app in Hlen.
  destruct H as (text & H1 & H2). exists text. split; [done|]. by rewrite take_app_le by lia.
Qed.

Lemma appendPartial_tells s data w :
  IndexAny data = None -> tells s w -> tells (s ++ data) (appendPartial data w).
Proof.
  unfold tells. intros Hd. rewrite cutLines_app. destruct (cutLines [] s) as [lines last] eqn:Ec.
  rewrite (cutLines_none last data Hd), app_nil_r. intros (Hf & Hn & Hb & texts & dropped & Ht & Htw & Hm).
  split; [by apply appendPartial_follows|]. destruct (appendPartial_other data w) as (-> & -> & ->).
  split; [done|]. split; [done|]. exists texts, dropped. split; [done|]. split; [done|].
  destruct Hm as [->|Hm]; [by left|]. right. rewrite <- (app_nil_r texts). apply mustDrop_app; [|done].
  rewrite Ec. symmetry. by eapply Forall2_length.
Qed.

Lemma endLine_tells s b w : newlineByte b = true -> tells s w -> tells (s ++ [b]) (endLine w).
Proof.
  unfold tells. intros Hb'. rewrite cutLines_app. destruct (cutLines [] s) as [lines last] eqn:Ec. cbn [cutLines].
  rewrite Hb'. intros (Hf & Hn & Hb & texts & dropped & Ht & Htw & Hm).
  split; [apply endLine_follows|]. split; [|split; [by apply endLine_sum|]].
  { cbn [endLine o_next]. by rewrite Hn, u64_succ, (zlen_app _ [_]). }
  exists (texts ++ [partialText w]), dropped. split; [|split].
  - apply Forall2_app; [done|]. constructor; [by apply follows_shown|constructor].
  - cbn [endLine o_lines]. by rewrite Htw, <- app_assoc.
  - destruct Hm as [->|Hm]; [by left|]. right. apply mustDrop_app; [|done].
    rewrite Ec. symmetry. by eapply Forall2_length.
Qed.

Lemma lineLimit_follows last w :
  follows last w -> lineLimit w = 200 - (if bool_decide (last = []) then 0 else 1).
Proof.
  intros (Hp & _ & _). unfold lineLimit. change operationOutputLines with 200. pose proof partialLimit_value as HL.
  assert (zlen (o_partial w) = Z.min 4093 (zlen last)) as Hlen by (rewrite Hp, lastBytes_length; lia).
  case_bool_decide as E; [by subst; rewrite Hp|].
  destruct (o_partial w); [|done]. exfalso. apply E, zlen_zero_inv. unfold zlen in *. simpl in *. lia.
Qed.

Lemma trim_tells s w : tells s w -> tells s (trim w).
Proof.
  unfold tells. destruct (cutLines [] s) as [lines last] eqn:Ec.
  intros (Hf & Hn & Hb & texts & dropped & Ht & Htw & Hm).
  split; [by apply trim_follows|]. destruct (trim_spec w Hb) as (d & Hl & Hb' & _ & _ & Hn' & _ & Hd).
  split; [by rewrite Hn'|]. split; [done|]. exists texts, (dropped ++ d). split; [done|].
  split; [by rewrite Htw, Hl at 1; rewrite app_assoc|].
  destruct Hd as [->|Hd]; [by rewrite app_nil_r|]. destruct d as [|x d]; [by rewrite app_nil_r|].
  right. exists s, []. split; [by rewrite app_nil_r|]. rewrite Ec. exists (partialText w).
  split; [by apply follows_shown|].
  rewrite take_ge by (rewrite (Forall2_length _ _ _ Ht); done).
  replace (length (dropped ++ x :: d) - 1)%nat with (length dropped + (length (x :: d) - 1))%nat
    by (rewrite length_app; simpl; lia).
  rewrite <- drop_drop, Htw, drop_app_length. cbv zeta in Hd. unfold fits.
  rewrite (lineLimit_follows last w Hf) in Hd. change operationOutputBytes with 32768 in Hd. lia.
Qed.

(** ** Writing *)

Lemma writeLoop_tells fuel s data w :
  (length data <= fuel)%nat -> tells s w -> tells (s ++ data) (writeLoop fuel data w).
Proof.
  revert s data w. induction fuel as [|fuel IH]; intros s data w Hf Hw.
  { destruct data; [|simpl in Hf; lia]. by rewrite app_nil_r. }
  cbn [writeLoop]. destruct data as [|b data]; [by rewrite app_nil_r|].
  set (d := b :: data) in *. destruct (IndexAny d) as [n|] eqn:En; [|by apply appendPartial_tells].
  destruct (IndexAny_spec d n En) as (nl & Ed & Hnl & Htake).
  replace (s ++ d) with (((s ++ take n d) ++ [nl]) ++ drop (S n) d)
    by (rewrite <- !app_assoc; f_equal; exact (eq_sym Ed)).
  apply IH; [rewrite length_drop; lia|]. by apply trim_tells, endLine_tells, appendPartial_tells.
Qed.

Lemma tells_version s w version saved :
  tells s w -> tells s {| o_lines := o_lines w; o_partial := o_partial w; o_partialClipped := o_partialClipped w;
    o_bytes := o_bytes w; o_next := o_next w; o_version := version; o_saved := saved |}.
Proof. done. Qed.

Lemma Write_tells s data w : tells s w -> tells (s ++ data) (Write data w).
Proof.
  intros Hw. unfold Write. destruct data as [|b data]; [by rewrite app_nil_r|].
  apply trim_tells, writeLoop_tells; [done|]. by apply tells_version.
Qed.

Lemma writes_tells l s w : tells s w -> tells (s ++ concat l) (writes l w).
Proof.
  revert s w. induction l as [|data l IH]; intros s w Hw; cbn [writes foldl concat]; [by rewrite app_nil_r|].
  rewrite app_assoc. by apply IH, Write_tells.
Qed.

(** ** Bounds *)

Definition lineOk (line : bytes) : Prop := zlen line <= operationOutputLineBytes.

Lemma clipped_length n (l : bytes) : 0 <= n < zlen l -> zlen (drop (Z.to_nat (zlen l - n)) l) = n.
Proof. intros H. change (zlen (lastBytes n l) = n). rewrite lastBytes_length by lia. lia. Qed.

Lemma dropContinuation_le l : zlen (dropContinuation l) <= zlen l.
Proof. induction l as [|b l IH]; simpl; [done|]. destruct (RuneStart b); [done|]. rewrite zlen_cons. lia. Qed.

Lemma clip_le text :
  operationOutputLineBytes < zlen text ->
  lineOk (ellipsisBytes ++ dropContinuation
    (drop (Z.to_nat (zlen text - operationOutputLineBytes + zlen ellipsisBytes)) text)).
Proof.
  intros H. unfold lineOk. rewrite zlen_app.
  pose proof (dropContinuation_le (drop (Z.to_nat (zlen text - operationOutputLineBytes + zlen ellipsisBytes)) text)) as Hd.
  replace (zlen text - operationOutputLineBytes + zlen ellipsisBytes) with (zlen text - 4093) in *
    by (change (zlen ellipsisBytes) with 3; unfold operationOutputLineBytes; lia).
  rewrite clipped_length in Hd by (unfold operationOutputLineBytes in H; lia).
  change (zlen ellipsisBytes) with 3. unfold operationOutputLineBytes. lia.
Qed.

Lemma partialText_le w : lineOk (partialText w).
Proof.
  unfold partialText. cbv zeta.
  match goal with |- lineOk (if _ <? zlen ?t then _ else _) => destruct (Z.ltb_spec operationOutputLineBytes (zlen t)) as [Hlt|Hle] end.
  - by apply clip_le.
  - exact Hle.
Qed.

(** Lines that fit and a total that is theirs. *)
Definition tallied (w : nodeOperationOutput) : Prop :=
  Forall lineOk (o_lines w) /\ o_bytes w = zsum zlen (o_lines w).

Lemma trim_tallied w : tallied w -> tallied (trim w).
Proof.
  intros [Hl Hb]. destruct (trim_spec w Hb) as (d & E & Hb' & _). split; [|done].
  rewrite E in Hl. by apply Forall_app in Hl as [_ Hl].
Qed.

Lemma endLine_tallied w : tallied w -> tallied (endLine w).
Proof.
  intros [Hl Hb]. split; [|by apply endLine_sum]. unfold endLine. cbn [o_lines]. apply Forall_app. split; [done|].
  constructor; [apply partialText_le|constructor].
Qed.

Lemma writeLoop_tallied fuel data w : tallied w -> tallied (writeLoop fuel data w).
Proof.
  assert (Ha : forall d w, tallied w -> tallied (appendPartial d w)).
  { intros d v. unfold tallied. by destruct (appendPartial_other d v) as (-> & _ & ->). }
  revert data w. induction fuel as [|fuel IH]; intros data w Hw; cbn [writeLoop]; [done|].
  destruct data as [|b data]; [done|]. destruct (IndexAny _); [|by apply Ha].
  by apply IH, trim_tallied, endLine_tallied, Ha.
Qed.

Lemma Write_tallied data w : tallied w -> tallied (Write data w).
Proof. intros Hw. unfold Write. destruct data; [done|]. by apply trim_tallied, writeLoop_tallied. Qed.

Lemma writes_tallied l w : tallied w -> tallied (writes l w).
Proof. revert w. induction l as [|data l IH]; intros w Hw; [done|]. cbn [writes foldl]. by apply IH, Write_tallied. Qed.

(** What a writer that has trimmed keeps. *)
Definition bounded (w : nodeOperationOutput) : Prop :=
  zlen (o_lines w) <= lineLimit w /\ zsum zlen (o_lines w) + zlen (partialText w) <= operationOutputBytes.

Lemma trim_bounded w : tallied w -> bounded (trim w).
Proof.
  intros [_ Hb]. destruct (trim_spec w Hb) as (_ & _ & _ & Hp & Hc & _ & Ht & _). unfold bounded.
  rewrite (partialText_eq (trim w) w Hp Hc). unfold lineLimit in *. rewrite Hp. destruct Ht as [->|Ht]; [|exact Ht].
  pose proof (partialText_le w) as Hle. unfold lineOk in Hle. change operationOutputLineBytes with 4096 in Hle.
  change operationOutputBytes with 32768. change operationOutputLines with 200. change (zsum zlen []) with 0.
  change (zlen (@nil bytes)) with 0. split; [destruct (o_partial w)|]; lia.
Qed.

(** After any writes to a receipt's output, the last of them not empty, the
    output has at most 200 lines with the unfinished one, no line over 4096 bytes
    and no more than 32 KiB of text in all, its byte count is exact, and what a
    flush saves is that output, positioned so that its end is the count of lines. *)
Theorem output_bounded record l data :
  Forall lineOk (or_Output record) -> data <> [] ->
  let w := Write data (writes l (newNodeOperationOutput record)) in
  bounded w /\ Forall lineOk (o_lines w) /\ lineOk (partialText w) /\ o_bytes w = zsum zlen (o_lines w) /\
  (o_saved w <> o_version w ->
   exists w' record', flush None w record = (w', record', None) /\ o_saved w' = o_version w' /\
     or_Output record' = o_lines w /\ or_OutputPartial record' = partialText w /\
     u64 (or_OutputStart record' + zlen (or_Output record')) = u64 (o_next w)).
Proof.
  intros Hrec Hd. cbv zeta. set (v := writes l (newNodeOperationOutput record)).
  assert (Hv : tallied v) by (apply writes_tallied; by split).
  pose proof (Write_tallied data v Hv) as Hw. set (w := Write data v) in *.
  assert (Hb : bounded w).
  { unfold w, Write. destruct data as [|b data]; [done|]. apply trim_bounded. by apply writeLoop_tallied. }
  split; [exact Hb|]. split; [apply Hw|]. split; [apply partialText_le|]. split; [apply Hw|].
  intros Hne. unfold flush. apply Z.eqb_neq in Hne as ->. do 2 eexists. split; [reflexivity|].
  cbn [or_Output or_OutputPartial or_OutputStart o_saved o_version]. do 3 (split; [done|]).
  unfold u64. rewrite Zplus_mod_idemp_l. f_equal. lia.
Qed.

Definition emptyRecord : outputRecord := {| or_Output := []; or_OutputStart := 0; or_OutputPartial := [] |}.

Lemma tells_empty : tells [] (newNodeOperationOutput emptyRecord).
Proof. split; [by split|]. split; [done|]. split; [done|]. exists [], []. split; [constructor|]. split; [done|by left]. Qed.

Lemma writes_fit l :
  let w := writes l (newNodeOperationOutput emptyRecord) in
  zlen (o_lines w) <= lineLimit w /\ zsum zlen (o_lines w) + zlen (partialText w) <= operationOutputBytes.
Proof.
  induction l as [|data l IH] using rev_ind; [by vm_compute|]. cbv zeta in *. unfold writes in *. rewrite foldl_app.
  cbn [foldl]. destruct data as [|b data]; [exact IH|]. apply trim_bounded, writeLoop_tallied.
  split; [|]; apply (writes_tallied l (newNodeOperationOutput emptyRecord)); by split.
Qed.

(** C37: the retained output is the end of the stream, however the stream was cut
    into writes.  The retained lines are a suffix of the shown lines of the
    stream: a line shows its bytes with every run of invalid ones replaced, or,
    when it is longer than 4093 bytes, its last 4093 bytes so behind a mark, cut
    again at a rune if the replacements push it over 4096.  The unfinished line is
    shown the same way.  At most 200 lines and 32 KiB are retained, and a line
    was dropped only where it and all after it did not fit.  The count is that of
    the lines.  A line of exactly 4093 bytes may carry the mark or not: it depends
    on the cut. *)
Theorem output_reference l :
  let w := writes l (newNodeOperationOutput emptyRecord) in
  let '(lines, last) := cutLines [] (concat l) in
  (exists texts dropped, Forall2 shown lines texts /\ texts = dropped ++ o_lines w /\
     (dropped = [] \/ mustDrop (concat l) texts dropped)) /\
  shown last (partialText w) /\ fits (o_lines w) last (partialText w) /\ o_next w = u64 (zlen lines).
Proof.
  cbv zeta. pose proof (writes_tells l [] _ tells_empty) as H. destruct (writes_fit l) as [Hl Hb].
  unfold tells in H. cbn [app] in H. destruct (cutLines [] (concat l)) as [lines last].
  destruct H as (Hf & Hn & _ & Ht). split; [exact Ht|]. split; [by apply follows_shown|]. split; [|done].
  rewrite (lineLimit_follows last _ Hf) in Hl. change operationOutputBytes with 32768 in Hb. unfold fits. lia.
Qed.

Module Sample.

Definition cut : list bytes := [[104; 105]; [33; 10; 0xff; 0xff]; [13; 10; 111]].

(** A line of exactly the clipping length. *)
Definition exactLine : bytes := repeat 97 4093.

(** The same line is marked as clipped when it comes in one write, with nothing
    lost, and not when it comes in two. *)
Lemma mark_depends_on_cut :
  o_lines (writes [exactLine ++ [10]] (newNodeOperationOutput emptyRecord)) = [ellipsisBytes ++ exactLine] /\
  o_lines (writes [take 10 exactLine; drop 10 exactLine ++ [10]] (newNodeOperationOutput emptyRecord)) = [exactLine].
Proof. split; vm_compute; reflexivity. Qed.

End Sample.

Lemma output_bounded_witness :
  exists w' record', flush None (Write [104; 10] (writes Sample.cut (newNodeOperationOutput emptyRecord))) emptyRecord =
    (w', record', None) /\ or_Output record' = [[104; 105; 33]; bytes_of replacementRune; []; [111; 104]].
Proof.
  destruct (output_bounded emptyRecord Sample.cut [104; 10]) as (_ & _ & _ & _ & H); [constructor|done|].
  destruct H as (w' & record' & H1 & _ & H2 & _); [by vm_compute|]. exists w', record'. split; [exact H1|].
  rewrite H2. vm_compute. reflexivity.
Defined.

