(* ===== verification/CommandWords.v ===== *)
(** * Shell words

    [shellQuote] and [shellArgsFragment] of [internal/codelima/runtime.go] and
    [argvFromQuotedCommand] of [lima.go], which turns a command line back into
    arguments when a shell would read it as a plain list of words.  Such lines
    are specified by a grammar of quoted pieces ([shWords]): the function accepts
    exactly them ([argv_words]) and inverts the quoting ([argv_inverse]). *)

From S2P Require Import Prelude GoText.
Local Open Scope Z_scope.

(** ** Text *)

(** [strings.ReplaceAll] for a text that is not empty; [skip] bytes of a
    replaced occurrence are still to be passed over. *)
Fixpoint replaceFrom (old new : bytes) (skip : nat) (s : bytes) {struct s} : bytes :=
  match s with
  | [] => []
  | b :: t =>
      match skip with
      | S skip => replaceFrom old new skip t
      | O =>
          match stripPrefix old s with
          | Some _ => new ++ replaceFrom old new (length old - 1) t
          | None => b :: replaceFrom old new O t
          end
      end
  end.

Definition ReplaceAll (s old new : bytes) : bytes := replaceFrom old new O s.

(** [strings.Join] with a space. *)
Fixpoint joinSpace (l : list bytes) : bytes :=
  match l with
  | [] => []
  | [a] => a
  | a :: l => a ++ [32] ++ joinSpace l
  end.

Definition quoteByte : Z := 39.
Definition doubleByte : Z := 34.

Definition shellQuote (value : bytes) : bytes :=
  [quoteByte] ++ ReplaceAll value [quoteByte] [39; 34; 39; 34; 39] ++ [quoteByte].

Definition shellArgsFragment (args : list bytes) : bytes := joinSpace (map shellQuote args).

(** ** Command lines *)

(** ["$`\|&;<>()!*?[]{}~#\n\r"] *)
Definition shellInterpretedCharacters : bytes := bytes_of "$`\|&;<>()!*?[]{}~#" ++ [10; 13].

Definition member (b : Z) (l : bytes) : bool := existsb (Z.eqb b) l.

(** [strings.IndexByte] *)
Fixpoint IndexByte (s : bytes) (c : Z) : option nat :=
  match s with [] => None | b :: s => if b =? c then Some O else S <$> IndexByte s c end.

Definition blankByte (b : Z) : bool := (b =? 32) || (b =? 9).

(** The loop of [argvFromQuotedCommand]; every round takes a byte at least. *)
Fixpoint argvLoop (fuel : nat) (command : bytes) (argv : list bytes) (word : bytes) (started : bool)
    : option (list bytes) :=
  match fuel with
  | O => None
  | S fuel =>
      match command with
      | [] => Some (if started then argv ++ [word] else argv)
      | character :: rest =>
          if blankByte character then
            if started then argvLoop fuel rest (argv ++ [word]) [] false else argvLoop fuel rest argv word started
          else if (character =? quoteByte) || (character =? doubleByte) then
            match IndexByte rest character with
            | None => None
            | Some end_ =>
                let segment := take end_ rest in
                if (character =? doubleByte) && existsb (fun b => member b (bytes_of "$`\")) segment then None
                else argvLoop fuel (drop (S end_) rest) argv (word ++ segment) true
            end
          else if member character shellInterpretedCharacters then None
          else argvLoop fuel rest argv (word ++ [character]) true
      end
  end.

Definition argvFromQuotedCommand (command : bytes) : option (list bytes) :=
  match argvLoop (S (length command)) command [] [] false with
  | Some (arg :: argv) => match arg with [] => None | _ => Some (arg :: argv) end
  | _ => None
  end.

(** ** What a shell reads *)

(** A piece of a word: a literal character, or a quoted text in which nothing is
    expanded. *)
Inductive piece :=
| Plain (b : Z)
| Single (s : bytes)
| Double (s : bytes).

Definition pieceText (p : piece) : bytes :=
  match p with
  | Plain b => [b]
  | Single s => [quoteByte] ++ s ++ [quoteByte]
  | Double s => [doubleByte] ++ s ++ [doubleByte]
  end.

Definition pieceValue (p : piece) : bytes :=
  match p with Plain b => [b] | Single s | Double s => s end.

Definition pieceOk (p : piece) : Prop :=
  match p with
  | Plain b => blankByte b = false /\ b <> quoteByte /\ b <> doubleByte /\ member b shellInterpretedCharacters = false
  | Single s => quoteByte ∉ s
  | Double s => (doubleByte ∉ s) /\ Forall (fun b => member b (bytes_of "$`\") = false) s
  end.

(** Where a word may end. *)
Definition wordEnd (t : bytes) : Prop := match t with [] => True | b :: _ => blankByte b = true end.

(** The words of a line without expansions, operators or comments. *)
Inductive shWords : bytes -> list bytes -> Prop :=
| sw_end : shWords [] []
| sw_blank c t ws : blankByte c = true -> shWords t ws -> shWords (c :: t) ws
| sw_word ps t ws :
    ps <> [] -> Forall pieceOk ps -> wordEnd t -> shWords t ws ->
    shWords (concat (map pieceText ps) ++ t) (concat (map pieceValue ps) :: ws).

(** ** Reading a line *)

Lemma IndexByte_some s c n :
  IndexByte s c = Some n -> s = take n s ++ c :: drop (S n) s /\ (c ∉ take n s) /\ (n < length s)%nat.
Proof.
  revert n. induction s as [|b s IH]; intros n; simpl; [done|]. destruct (b =? c) eqn:E.
  - intros [= <-]. apply Z.eqb_eq in E as ->. simpl. rewrite drop_0. split; [done|]. split; [set_solver|lia].
  - destruct (IndexByte s c) as [m|]; [|done]. intros [= <-]. destruct (IH m eq_refl) as (H1 & H2 & H3).
    apply Z.eqb_neq in E. simpl. split; [by f_equal|]. split; [|lia]. rewrite not_elem_of_cons. done.
Qed.

Lemma IndexByte_app s c t : c ∉ s -> IndexByte (s ++ c :: t) c = Some (length s).
Proof.
  induction s as [|b s IH]; simpl; intros H; [by rewrite Z.eqb_refl|].
  apply not_elem_of_cons in H as [H1 H2]. rewrite (proj2 (Z.eqb_neq b c)) by done. by rewrite IH.
Qed.

Lemma existsb_false {A} (f : A -> bool) l : existsb f l = false <-> Forall (fun x => f x = false) l.
Proof.
  induction l as [|x l IH]; simpl; [done|]. rewrite orb_false_iff, IH, Forall_cons. done.
Qed.

Lemma drop_after {A} (s t : list A) c : drop (S (length s)) (s ++ c :: t) = t.
Proof. rewrite (cons_middle c s t), app_assoc. apply drop_app_length'. rewrite length_app. simpl. lia. Qed.

(** The step of the loop at a piece. *)
Lemma argvLoop_piece fuel p t argv word started :
  pieceOk p -> argvLoop (S fuel) (pieceText p ++ t) argv word started = argvLoop fuel t argv (word ++ pieceValue p) true.
Proof.
  intros Hp. destruct p as [b|s|s]; cbn [pieceText pieceValue app argvLoop].
  - destruct Hp as (H1 & H2 & H3 & H4). by rewrite H1, (proj2 (Z.eqb_neq _ _) H2), (proj2 (Z.eqb_neq _ _) H3), H4.
  - rewrite <- app_assoc. simpl. rewrite IndexByte_app by exact Hp. simpl.
    by rewrite take_app_length, drop_after.
  - destruct Hp as [H1 H2]. rewrite <- app_assoc. simpl. rewrite IndexByte_app by exact H1. simpl.
    rewrite take_app_length, drop_after, (proj2 (existsb_false _ s)) by exact H2. done.
Qed.

Lemma pieces_length ps : (length ps <= length (concat (map pieceText ps)))%nat.
Proof. induction ps as [|p ps IH]; simpl; [lia|]. rewrite length_app. destruct p; simpl; lia. Qed.

Lemma argvLoop_fuel fuel extra command argv word started r :
  argvLoop fuel command argv word started = Some r -> argvLoop (fuel + extra) command argv word started = Some r.
Proof.
  revert command argv word started. induction fuel as [|fuel IH]; intros command argv word started; [done|].
  cbn [argvLoop Nat.add]. destruct command as [|c rest]; [done|]. destruct (blankByte c); [destruct started; apply IH|].
  destruct (_ || _); [|destruct (member _ _); [done|apply IH]].
  destruct (IndexByte rest c); [|done]. destruct (_ && _); [done|apply IH].
Qed.

Lemma argvLoop_pieces ps fuel t argv word started :
  Forall pieceOk ps ->
  argvLoop (length ps + fuel) (concat (map pieceText ps) ++ t) argv word started =
    argvLoop fuel t argv (word ++ concat (map pieceValue ps)) (match ps with [] => started | _ => true end).
Proof.
  intros Hok. revert word started. induction Hok as [|p ps Hp _ IH]; intros word started; cbn [map concat length Nat.add].
  { by rewrite app_nil_r. }
  rewrite <- app_assoc, argvLoop_piece by done. rewrite IH, <- app_assoc. by destruct ps.
Qed.

(** The loop reads every line of the grammar. *)
Lemma argvLoop_complete t ws argv :
  shWords t ws -> argvLoop (S (length t)) t argv [] false = Some (argv ++ ws).
Proof.
  intros H. revert argv. induction H as [|c t ws Hc H IH|ps t ws Hps Hok Hend H IH]; intros argv.
  - simpl. by rewrite app_nil_r.
  - cbn [argvLoop length]. rewrite Hc. apply IH.
  - assert (Hl := pieces_length ps). rewrite length_app.
    assert (Hm : argvLoop (S (length t)) t argv (concat (map pieceValue ps)) true =
              Some (argv ++ concat (map pieceValue ps) :: ws)).
    { destruct t as [|b t]; [inversion H; subst|].
      - done.
      - exfalso. match goal with E : _ ++ _ = [] |- _ => apply app_eq_nil in E as [E _] end.
        destruct ps0 as [|p ps0]; [done|]. by destruct p.
      - cbn [wordEnd] in Hend. specialize (IH (argv ++ [concat (map pieceValue ps)])).
        cbn [argvLoop length] in IH |- *. rewrite Hend in IH |- *. rewrite IH, <- app_assoc. done. }
    replace (S (length (concat (map pieceText ps)) + length t))%nat
      with ((length ps + S (length t)) + (length (concat (map pieceText ps)) - length ps))%nat by lia.
    apply argvLoop_fuel. rewrite (argvLoop_pieces ps _ t argv [] false Hok). by destruct ps.
Qed.

(** A line that continues a word: the rest of the word and the words after it. *)
Definition continues (command rest : bytes) (ws : list bytes) : Prop :=
  exists ps t, command = concat (map pieceText ps) ++ t /\ rest = concat (map pieceValue ps) /\
    Forall pieceOk ps /\ wordEnd t /\ shWords t ws.

Lemma continues_piece p command rest ws :
  pieceOk p -> continues command rest ws -> continues (pieceText p ++ command) (pieceValue p ++ rest) ws.
Proof.
  intros Hp (ps & t & -> & -> & Hok & He & Hw). exists (p :: ps), t. simpl. rewrite app_assoc.
  split; [done|]. split; [done|]. split; [by constructor|]. split; [exact He|exact Hw].
Qed.

Lemma starts_word p command rest ws :
  pieceOk p -> continues command rest ws -> shWords (pieceText p ++ command) ((pieceValue p ++ rest) :: ws).
Proof.
  intros Hp (ps & t & -> & -> & Hok & He & Hw). rewrite app_assoc. apply (sw_word (p :: ps) t ws); [done| |done|done].
  by constructor.
Qed.

(** The loop reads no other line. *)
Lemma argvLoop_sound fuel command argv word started r :
  (started = false -> word = []) -> argvLoop fuel command argv word started = Some r ->
  if started then exists rest ws, continues command rest ws /\ r = argv ++ (word ++ rest) :: ws
  else exists ws, shWords command ws /\ r = argv ++ ws.
Proof.
  revert command argv word started. induction fuel as [|fuel IH]; intros command argv word started Hw; [done|].
  assert (Hp : forall p t, pieceOk p -> argvLoop fuel t argv (word ++ pieceValue p) true = Some r ->
    if started then exists rest ws, continues (pieceText p ++ t) rest ws /\ r = argv ++ (word ++ rest) :: ws
    else exists ws, shWords (pieceText p ++ t) ws /\ r = argv ++ ws).
  { intros p t Hp H. apply IH in H as (rest & ws & Hc & ->); [|done]. rewrite <- app_assoc. destruct started.
    - exists (pieceValue p ++ rest), ws. split; [by apply continues_piece|done].
    - rewrite Hw by done. exists ((pieceValue p ++ rest) :: ws). split; [by apply starts_word|done]. }
  cbn [argvLoop]. destruct command as [|c rest].
  { intros [= <-]. destruct started; [|exists []; split; [constructor|by rewrite app_nil_r]].
    exists [], []. split; [|by rewrite app_nil_r]. by exists [], []; repeat constructor. }
  destruct (blankByte c) eqn:Hb.
  { destruct started; intros H; apply IH in H as (ws & Hws & ->); [|done| |exact Hw].
    - exists [], ws. rewrite <- app_assoc, app_nil_r. split; [|done]. exists [], (c :: rest).
      repeat split; [constructor|exact Hb|by constructor].
    - exists ws. split; [by constructor|done]. }
  destruct ((c =? quoteByte) || (c =? doubleByte)) eqn:Hq.
  - destruct (IndexByte rest c) as [n|] eqn:En; [|done]. apply IndexByte_some in En as (Hsplit & Hn & _).
    destruct ((c =? doubleByte) && _) eqn:Hd; [done|]. intros H.
    apply orb_true_iff in Hq as [Hq|Hq]; apply Z.eqb_eq in Hq; subst c.
    + specialize (Hp (Single (take n rest)) _ Hn H). simpl in Hp. rewrite <- app_assoc in Hp. simpl in Hp.
      rewrite <- Hsplit in Hp. exact Hp.
    + apply existsb_false in Hd. specialize (Hp (Double (take n rest)) _ (conj Hn Hd) H).
      simpl in Hp. rewrite <- app_assoc in Hp. simpl in Hp. rewrite <- Hsplit in Hp. exact Hp.
  - apply orb_false_iff in Hq as [H1%Z.eqb_neq H2%Z.eqb_neq]. destruct (member c _) eqn:Hm; [done|].
    intros H. exact (Hp (Plain c) rest (conj Hb (conj H1 (conj H2 Hm))) H).
Qed.

(** The first word names a program. *)
Definition headed (ws : list bytes) : Prop := match ws with [] | [] :: _ => False | _ => True end.

Lemma argv_shWords command argv :
  argvFromQuotedCommand command = Some argv <-> shWords command argv /\ headed argv.
Proof.
  unfold argvFromQuotedCommand. split.
  - destruct (argvLoop _ _ _ _ _) as [ws|] eqn:E; [|done]. apply argvLoop_sound in E as (ws' & Hw & ->); [|done].
    simpl. destruct ws' as [|[|b w] ws']; [done|done|]. intros [= <-]. by split.
  - intros [Hw Hh]. rewrite (argvLoop_complete _ _ [] Hw). simpl. by destruct argv as [|[|b w] argv].
Qed.

(** ** Quoting *)

Lemma replace_byte old new b t :
  replaceFrom [old] new 0 (b :: t) = (if old =? b then new else [b]) ++ replaceFrom [old] new 0 t.
Proof. simpl. destruct (old =? b); [done|]. by destruct t. Qed.

(** A quoted value, from inside a single-quoted piece. *)
Lemma quote_pieces value s :
  (quoteByte ∉ s) ->
  exists ps, Forall pieceOk ps /\ ps <> [] /\
    concat (map pieceText ps) = [quoteByte] ++ s ++ ReplaceAll value [quoteByte] [39; 34; 39; 34; 39] ++ [quoteByte] /\
    concat (map pieceValue ps) = s ++ value.
Proof.
  unfold ReplaceAll. revert s. induction value as [|b value IH]; intros s Hs.
  - exists [Single s]. simpl. rewrite !app_nil_r. split; [by constructor|done].
  - rewrite replace_byte. destruct (Z.eqb_spec quoteByte b) as [<-|Hne].
    + destruct (IH []) as (ps & Hok & _ & Ht & Hv); [set_solver|].
      exists (Single s :: Double [quoteByte] :: ps). split; [|split; [done|split]].
      * constructor; [done|]. constructor; [|done]. split; [|by constructor]. unfold quoteByte, doubleByte. set_solver.
      * cbn [map concat pieceText]. rewrite Ht. simpl. by rewrite <- !app_assoc.
      * cbn [map concat pieceValue]. rewrite Hv. done.
    + destruct (IH (s ++ [b])) as (ps & Hok & Hne' & Ht & Hv).
      { apply not_elem_of_app. split; [exact Hs|]. set_solver. }
      exists ps. rewrite Ht, Hv, <- !app_assoc. done.
Qed.

Lemma shellQuote_pieces value :
  exists ps, Forall pieceOk ps /\ ps <> [] /\ concat (map pieceText ps) = shellQuote value /\
    concat (map pieceValue ps) = value.
Proof. apply (quote_pieces value []). set_solver. Qed.

Lemma shWords_quoted value t ws : wordEnd t -> shWords t ws -> shWords (shellQuote value ++ t) (value :: ws).
Proof.
  intros He Hw. destruct (shellQuote_pieces value) as (ps & Hok & Hne & <- & Hv). rewrite <- Hv at 1. by constructor.
Qed.

(** A literal word. *)
Lemma shWords_plain w t ws :
  w <> [] -> forallb (fun b => negb (blankByte b) && negb (member b (quoteByte :: doubleByte :: shellInterpretedCharacters))) w = true ->
  wordEnd t -> shWords t ws -> shWords (w ++ t) (w :: ws).
Proof.
  intros Hne Hw He Ht.
  assert (Hc : forall l : bytes, concat (map pieceText (map Plain l)) = l /\ concat (map pieceValue (map Plain l)) = l).
  { induction l as [|b l [IH1 IH2]]; [done|]. simpl. by rewrite IH1, IH2. }
  pose proof (sw_word (map Plain w) t ws) as H. destruct (Hc w) as [-> ->] in H. apply H; [by destruct w| |done|done].
  clear - Hw. induction w as [|b w IH]; [constructor|]. simpl in Hw. apply andb_prop in Hw as [Hb Hw].
  constructor; [|by apply IH]. apply andb_prop in Hb as [H1%negb_true_iff H2%negb_true_iff].
  change (((b =? quoteByte) || ((b =? doubleByte) || member b shellInterpretedCharacters))%bool = false) in H2.
  unfold pieceOk. bool_to_prop. repeat split; assumption.
Qed.

Lemma shWords_blank t ws : shWords t ws -> shWords (32 :: t) ws.
Proof. by constructor. Qed.

Lemma fragment_words args : shWords (shellArgsFragment args) args.
Proof.
  unfold shellArgsFragment. induction args as [|a args IH]; [constructor|]. simpl. destruct args as [|b args].
  - rewrite <- (app_nil_r (shellQuote a)). apply shWords_quoted; [done|constructor].
  - simpl in *. apply shWords_quoted; [done|]. by apply shWords_blank.
Qed.

(** A command line becomes arguments exactly when it is a list of words of
    literal characters and quoted texts that a shell would not expand, whose first
    is not empty, and the arguments are the words a shell would read. *)
Theorem argv_words command argv :
  argvFromQuotedCommand command = Some argv <-> shWords command argv /\ headed argv.
Proof. apply argv_shWords. Qed.

(** C36: quoting arguments and reading them back gives the same arguments,
    whatever bytes they contain, unless there is no program to run. *)
Theorem argv_inverse args :
  argvFromQuotedCommand (shellArgsFragment args) = match args with [] | [] :: _ => None | _ => Some args end.
Proof.
  destruct (argvFromQuotedCommand (shellArgsFragment args)) as [argv|] eqn:E.
  - apply argv_shWords in E as [Hw Hh].
    pose proof (argvLoop_complete _ _ [] Hw) as H1. rewrite (argvLoop_complete _ _ [] (fragment_words args)) in H1.
    injection H1 as <-. by destruct args as [|[|b a] args].
  - destruct args as [|[|b a] args]; [done|done|]. exfalso.
    assert (H : argvFromQuotedCommand (shellArgsFragment ((b :: a) :: args)) = Some ((b :: a) :: args));
      [|by rewrite H in E]. apply argv_shWords. split; [apply fragment_words|done].
Qed.

(** A leading assignment is not left to the shell. *)
Lemma assignment_accepted :
  argvFromQuotedCommand (bytes_of "LESS=-R less") = Some [bytes_of "LESS=-R"; bytes_of "less"].
Proof. vm_compute. reflexivity. Qed.
