(* ===== verification/RuntimeCommands.v ===== *)
(** * Commands of the VM runtime

    [internal/codelima/runtime_commands.go], [command_list.go],
    [resolveConfiguredRuntimeCommands] of [runtime.go] and the part of [lima.go]
    that resolves and transports a lifecycle or guest command, with the command
    lines of [shell_launcher.go], [tui_logs.go] and [tui_external_editor.go].
    The order in which a Go map yields the placeholder values is the argument
    [visit]. *)

From S2P Require Import Prelude GoText CommandWords.
Local Open Scope Z_scope.

(** ** Templates *)

(** A slice of commands that may be nil. *)
Abbreviation commands := (option (list bytes)).
Definition listOf (c : commands) : list bytes := default [] c.

(** A copy by [append] to nil: nothing remains of an empty slice. *)
Definition copyCommandList (c : commands) : commands :=
  match c with Some (command :: l) => Some (command :: l) | _ => None end.

Definition applyDefaultCommandList (c defaults : commands) : commands :=
  match listOf c with [] => copyCommandList defaults | _ => copyCommandList c end.

Record RuntimeCommandTemplates := Templates {
  t_Version : commands;
  t_List : commands;
  t_Create : commands;
  t_Start : commands;
  t_Stop : commands;
  t_Delete : commands;
  t_Clone : commands;
  t_Bootstrap : commands;
  t_WorkspaceSeedPrepare : commands;
  t_Copy : commands;
  t_ShellExec : commands;
  t_ShellLogin : commands;
}.

Definition noTemplates : RuntimeCommandTemplates :=
  Templates None None None None None None None None None None None None.

Definition orderedFields (t : RuntimeCommandTemplates) : list (string * commands) := [
  ("version", t_Version t); ("list", t_List t); ("create", t_Create t); ("start", t_Start t); ("stop", t_Stop t);
  ("delete", t_Delete t); ("clone", t_Clone t); ("bootstrap", t_Bootstrap t);
  ("workspace_seed_prepare", t_WorkspaceSeedPrepare t); ("copy", t_Copy t); ("shell_exec", t_ShellExec t);
  ("shell_login", t_ShellLogin t)]%string.

Definition templates (t : RuntimeCommandTemplates) (kind : string) : commands :=
  match List.find (fun field => (field.1 =? kind)%string) (orderedFields t) with
  | Some field => copyCommandList field.2
  | None => None
  end.

Definition supportedRuntimeCommandKind (kind : string) : bool :=
  existsb (String.eqb kind) ["version"; "list"; "create"; "start"; "stop"; "delete"; "clone"; "bootstrap";
    "workspace_seed_prepare"; "copy"; "shell_exec"; "shell_login"]%string.

Definition ApplyDefaults (t defaults : RuntimeCommandTemplates) : RuntimeCommandTemplates :=
  let f get kind := applyDefaultCommandList (get t) (templates defaults kind) in {|
  t_Version := f t_Version "version"; t_List := f t_List "list"; t_Create := f t_Create "create";
  t_Start := f t_Start "start"; t_Stop := f t_Stop "stop"; t_Delete := f t_Delete "delete";
  t_Clone := f t_Clone "clone"; t_Bootstrap := f t_Bootstrap "bootstrap";
  t_WorkspaceSeedPrepare := f t_WorkspaceSeedPrepare "workspace_seed_prepare"; t_Copy := f t_Copy "copy";
  t_ShellExec := f t_ShellExec "shell_exec"; t_ShellLogin := f t_ShellLogin "shell_login" |}%string.

Definition IsZero (t : RuntimeCommandTemplates) : bool :=
  forallb (fun field => match listOf field.2 with [] => true | _ => false end) (orderedFields t).

Definition one (s : string) : commands := Some [bytes_of s].

(** The double quotes of the seed command. *)
Definition dq : string := string_of [34].
Definition seedPrepare : string :=
  "owner=" ++ dq ++ "${SUDO_USER:-$(id -un)}" ++ dq ++ " && group=" ++ dq ++ "$(id -gn " ++ dq ++ "$owner" ++ dq ++ ")" ++ dq ++
  " && rm -rf {{target_path}} && mkdir -p {{target_parent}} && chown " ++ dq ++ "$owner:$group" ++ dq ++ " {{target_parent}}".

Definition defaultRuntimeCommandTemplates : RuntimeCommandTemplates := {|
  t_Version := one "{{binary}} --version";
  t_List := one "{{binary}} list --json";
  t_Create := one "{{binary}} create -y --name {{sandbox_name}} {{template_path}}";
  t_Start := one "{{binary}} start -y {{sandbox_name}}{{nested_virtualization_flag}}";
  t_Stop := one "{{binary}} stop -y {{sandbox_name}}";
  t_Delete := one "{{binary}} delete -f {{sandbox_name}}";
  t_Clone := one "{{binary}} clone -y {{source_sandbox}} {{sandbox_name}}";
  t_Bootstrap := Some [];
  t_WorkspaceSeedPrepare := one seedPrepare;
  t_Copy := one "{{binary}} copy{{recursive_flag}} {{source_path}} {{copy_target}}";
  t_ShellExec := one "{{binary}} shell{{workdir_flag}} {{sandbox_name}}{{command_args}}";
  t_ShellLogin := one "{{binary}} shell{{workdir_flag}} {{sandbox_name}}{{command_args}}" |}%string.

Definition effectiveRuntimeCommandTemplates (global nodeCommands : RuntimeCommandTemplates) (kind : string) : commands :=
  applyDefaultCommandList (templates nodeCommands kind)
    (applyDefaultCommandList (templates global kind) (templates defaultRuntimeCommandTemplates kind)).

(** [slices.Equal] *)
Definition runtimeCommandsAreBuiltIn (global nodeCommands : RuntimeCommandTemplates) (kind : string) : bool :=
  bool_decide (listOf (effectiveRuntimeCommandTemplates global nodeCommands kind) =
               listOf (templates defaultRuntimeCommandTemplates kind)).

(** ** Rendering *)

Definition placeholder (key : bytes) : bytes := [123; 123] ++ key ++ [125; 125].

(** A match of [[^{}]+\}\}] at the head; [some] tells whether a byte was taken. *)
Fixpoint placeholderTail (some : bool) (s : bytes) : bool :=
  match s with
  | [] => false
  | b :: t =>
      if b =? 123 then false
      else if b =? 125 then some && match t with c :: _ => c =? 125 | [] => false end
      else placeholderTail true t
  end.

(** [unresolvedRuntimePlaceholderPattern] matches somewhere. *)
Fixpoint unresolved (s : bytes) : bool :=
  match s with
  | [] => false
  | b :: t => ((b =? 123) && match t with c :: u => (c =? 123) && placeholderTail false u | [] => false end) || unresolved t
  end.

Definition trimSpace (s : bytes) : bytes := trimRight (trimLeft s).

Abbreviation valueMap := (gmap bytes bytes).

Section Resolve.
Context (visit : valueMap -> list (bytes * bytes)).

Definition substitute (template : bytes) (l : list (bytes * bytes)) : bytes :=
  foldl (fun command kv => ReplaceAll command (placeholder kv.1) kv.2) template l.

Definition resolveTemplate (values : valueMap) (template : bytes) : result bytes :=
  let command := substitute template (visit values) in
  if unresolved command then Err (invalidArgument "runtime command template contains an unknown placeholder")
  else
    match trimSpace command with
    | [] => Err (invalidArgument "runtime command template must not resolve to an empty command")
    | command => Ok command
    end.

Fixpoint resolveTemplates (values : valueMap) (l : list bytes) : result (list bytes) :=
  match l with
  | [] => Ok []
  | template :: l =>
      match resolveTemplate values template with
      | Err e => Err e
      | Ok command => match resolveTemplates values l with Err e => Err e | Ok r => Ok (command :: r) end
      end
  end.

Definition resolveConfiguredRuntimeCommands (binary : bytes) (global nodeCommands : RuntimeCommandTemplates)
    (kind : string) (values : valueMap) : result (list bytes) :=
  if negb (supportedRuntimeCommandKind kind) then Err (invalidArgument "unsupported runtime command kind")
  else
    let values := <[bytes_of "binary" := shellQuote binary]> values in
    resolveTemplates values (listOf (effectiveRuntimeCommandTemplates global nodeCommands kind)).

(** ** Transport *)

(** A command and its arguments when it runs without a shell. *)
Record resolvedRuntimeCommand := Resolved {
  rc_text : bytes;
  rc_argv : option (list bytes);
}.

(** [LimaClient] as far as commands go. *)
Record LimaClient := Client {
  c_binary : bytes;
  c_RuntimeCommands : RuntimeCommandTemplates;
}.

Definition ResolveCommands (c : LimaClient) (nodeCommands : RuntimeCommandTemplates) (kind : string) (values : valueMap) :=
  resolveConfiguredRuntimeCommands (c_binary c) (c_RuntimeCommands c) nodeCommands kind values.

Definition resolveRuntimeCommands (c : LimaClient) (nodeCommands : RuntimeCommandTemplates) (kind : string)
    (values : valueMap) : result (list resolvedRuntimeCommand) :=
  match ResolveCommands c nodeCommands kind values with
  | Err e => Err e
  | Ok resolved =>
      let builtIn := runtimeCommandsAreBuiltIn (c_RuntimeCommands c) nodeCommands kind in
      Ok (map (fun text => Resolved text (if builtIn then argvFromQuotedCommand text else None)) resolved)
  end.

(** [command]: what is executed. *)
Definition execArgs (r : resolvedRuntimeCommand) : list bytes :=
  match rc_argv r with
  | Some (arg :: argv) => arg :: argv
  | _ => [bytes_of "sh"; bytes_of "-lc"; rc_text r]
  end.

(** ** The client's commands *)

Definition valuesOf (l : list (string * bytes)) : valueMap := list_to_map (map (fun kv => (bytes_of kv.1, kv.2)) l).

Definition createValues (sandboxName templatePath : bytes) : valueMap :=
  valuesOf [("sandbox_name"%string, shellQuote sandboxName); ("template_path"%string, shellQuote templatePath)].

Definition startValues (sandboxName : bytes) (nestedVirtualization : bool) : valueMap :=
  valuesOf [("sandbox_name"%string, shellQuote sandboxName);
            ("nested_virtualization_flag"%string, if nestedVirtualization then bytes_of " --nested-virt" else [])].

Definition sandboxValues (sandboxName : bytes) : valueMap := valuesOf [("sandbox_name"%string, shellQuote sandboxName)].

Definition cloneValues (source target : bytes) : valueMap :=
  valuesOf [("source_sandbox"%string, shellQuote source); ("sandbox_name"%string, shellQuote target)].

Definition copyValues (sandboxName sourcePath targetPath : bytes) (recursive : bool) : valueMap :=
  valuesOf [("sandbox_name"%string, shellQuote sandboxName); ("source_path"%string, shellQuote sourcePath);
            ("target_path"%string, shellQuote targetPath); ("copy_target"%string, shellQuote (sandboxName ++ bytes_of ":" ++ targetPath));
            ("recursive_flag"%string, if recursive then bytes_of " -r" else [])].

Definition guestCommand (root : bool) (command : list bytes) : list bytes :=
  if root then map bytes_of ["sudo"; "-H"; "--"]%string ++ command else command.

Definition shellValues (sandboxName : bytes) (root : bool) (command : list bytes) (workdir : bytes) : valueMap :=
  valuesOf [("sandbox_name"%string, shellQuote sandboxName); ("workdir"%string, shellQuote workdir);
            ("workdir_flag"%string, match trimSpace workdir with [] => [] | _ => bytes_of " --workdir " ++ shellQuote workdir end);
            ("command_args"%string, match command with
                             | [] => []
                             | _ => bytes_of " -- " ++ shellArgsFragment (guestCommand root command)
                             end)].

Definition shellKind (interactive : bool) : string := if interactive then "shell_login" else "shell_exec".

End Resolve.

(** ** Command lines from settings *)

(** [strings.Count] of a text that is not empty, and [strings.Contains]. *)
Fixpoint countFrom (sub : bytes) (skip : nat) (s : bytes) {struct s} : nat :=
  match s with
  | [] => O
  | _ :: t =>
      match skip with
      | S skip => countFrom sub skip t
      | O => match stripPrefix sub s with Some _ => S (countFrom sub (length sub - 1) t) | None => countFrom sub O t end
      end
  end.
Definition Contains (s sub : bytes) : bool := negb (countFrom sub 0 s =? 0)%nat.

Definition commandMarker : bytes := bytes_of "CODELIMA_COMMAND_ARGUMENTS".

(** The loop of [shellWindowArgs]; [first] holds for the window executable. *)
Fixpoint spliceArgs (command : list bytes) (first : bool) (args : list bytes) : result (list bytes) :=
  match args with
  | [] => Ok []
  | arg :: args =>
      if Contains arg commandMarker then
        if first || negb (bool_decide (arg = commandMarker))
        then Err (invalidArgument "{cmd} must be a separate argument after the window executable")
        else match spliceArgs command false args with Err e => Err e | Ok r => Ok (command ++ r) end
      else match spliceArgs command false args with Err e => Err e | Ok r => Ok (arg :: r) end
  end.

Definition shellWindowArgs (template : bytes) (command : list bytes) : result (list bytes) :=
  if negb (countFrom (bytes_of "{cmd}") 0 template =? 1)%nat || Contains template commandMarker
  then Err (invalidArgument "shell.window must contain exactly one {cmd} argument")
  else
    match argvFromQuotedCommand (ReplaceAll template (bytes_of "{cmd}") commandMarker) with
    | None => Err (invalidArgument "shell.window must be a quoted argument list; use a wrapper for shell scripts")
    | Some args => spliceArgs command true args
    end.

Definition nodeLogPagerArgs (pager path : bytes) : result (list bytes) :=
  let pager := match trimSpace pager with [] => bytes_of "less" | _ => pager end in
  match argvFromQuotedCommand pager with
  | Some args => Ok (args ++ [path])
  | None => Err (ENew "PAGER must be an executable and quoted arguments; use a wrapper for shell scripts")
  end.
