(* ===== verification/RuntimeRender.v ===== *)
(** * Commands of the VM runtime: theorems

    Placeholders are replaced one after the other in the order in which Go's map
    yields them; on templates without nested braces, and for values without an
    opening pair of braces, that is a simultaneous replacement
    ([render_any_order]), and the built-in templates run exactly the intended
    program with the intended arguments ([built_in_argv]).  A guest command that
    contains a pair of braces is refused ([guest_braces_refused]). *)

From S2P Require Import Prelude GoText CommandWords RuntimeCommands.
Local Open Scope Z_scope.

(** ** Templates as segments *)

Inductive segment :=
| SByte (b : Z)
| SKey (key : bytes).

Definition segmentText (s : segment) : bytes := match s with SByte b => [b] | SKey key => placeholder key end.
Definition segText (segs : list segment) : bytes := concat (map segmentText segs).

Definition keyOk (key : bytes) : bool := forallb (fun b => negb ((b =? 123) || (b =? 125))) key.

(** Braces outside placeholders do not come in pairs, nor before a placeholder. *)
Fixpoint wfSegs (segs : list segment) : bool :=
  match segs with
  | [] => true
  | SByte b :: segs =>
      (if b =? 123 then match segs with [] => true | SByte c :: _ => negb (c =? 123) | SKey _ :: _ => false end else true)
      && wfSegs segs
  | SKey key :: segs => keyOk key && wfSegs segs
  end.

(** Simultaneous replacement. *)
Definition segValue (values : valueMap) (s : segment) : bytes :=
  match s with SByte b => [b] | SKey key => default (placeholder key) (values !! key) end.
Definition render (values : valueMap) (segs : list segment) : bytes := concat (map (segValue values) segs).

(** Text without an opening pair of braces. *)
Fixpoint noOpen (s : bytes) : bool :=
  match s with
  | [] => true
  | b :: t => negb ((b =? 123) && match t with c :: _ => c =? 123 | [] => false end) && noOpen t
  end.

(** Text that can stand before any such text. *)
Definition okText (s : bytes) : Prop := noOpen s = true /\ last s <> Some 123.

(** ** One placeholder *)

Lemma replaceFrom_skip old new l t : replaceFrom old new (length l) (l ++ t) = replaceFrom old new 0 t.
Proof. induction l as [|b l IH]; [done|]. simpl. exact IH. Qed.

Lemma placeholder_cons key : placeholder key = 123 :: 123 :: key ++ [125; 125].
Proof. reflexivity. Qed.

Lemma keyOk_cons b key : keyOk (b :: key) = true -> b <> 123 /\ b <> 125 /\ keyOk key = true.
Proof. simpl. intros H. bool_to_prop. done. Qed.

Lemma stripPrefix_self p t : stripPrefix p (p ++ t) = Some t.
Proof. induction p as [|b p IH]; simpl; [done|]. by rewrite Z.eqb_refl. Qed.

(** A placeholder is not the beginning of another one. *)
Lemma key_unique k key t r :
  keyOk k = true -> keyOk key = true -> stripPrefix (k ++ [125; 125]) (key ++ [125; 125] ++ t) = Some r -> k = key.
Proof.
  revert key. induction k as [|a k IH]; intros key Hk Hkey H.
  - destruct key as [|b key]; [done|]. apply keyOk_cons in Hkey as (_ & Hb & _). cbn [app stripPrefix] in H.
    destruct (Z.eqb_spec 125 b); [lia|done].
  - apply keyOk_cons in Hk as (H1 & H2 & H3). destruct key as [|b key]; cbn [app stripPrefix] in H.
    + destruct (Z.eqb_spec a 125); [lia|done].
    + destruct (Z.eqb_spec a b) as [->|]; [|done]. apply keyOk_cons in Hkey as (_ & _ & Hkey). f_equal. by apply (IH key).
Qed.

Lemma replaceFrom_none old new b t :
  stripPrefix old (b :: t) = None -> replaceFrom old new 0 (b :: t) = b :: replaceFrom old new 0 t.
Proof. intros H. cbn [replaceFrom]. by rewrite H. Qed.

(** Bytes at which no placeholder begins are passed. *)
Lemma replace_pass k new b t :
  (b = 123 -> match t with c :: _ => c <> 123 | [] => True end) ->
  replaceFrom (placeholder k) new 0 (b :: t) = b :: replaceFrom (placeholder k) new 0 t.
Proof.
  intros H. cbn [replaceFrom]. rewrite placeholder_cons. cbn [stripPrefix].
  destruct (Z.eqb_spec 123 b) as [<-|]; [|done]. specialize (H eq_refl). destruct t as [|c t]; [done|].
  cbn [stripPrefix]. by rewrite (proj2 (Z.eqb_neq 123 c)) by done.
Qed.

Lemma replace_pass_key k new key t :
  keyOk key = true -> replaceFrom (placeholder k) new 0 (key ++ [125; 125] ++ t) = key ++ [125; 125] ++ replaceFrom (placeholder k) new 0 t.
Proof.
  induction key as [|b key IH]; intros Hk; cbn [app].
  - by rewrite !replace_pass by lia.
  - apply keyOk_cons in Hk as (H1 & H2 & H3). rewrite replace_pass by done. f_equal. by apply IH.
Qed.

Lemma replace_key k new t :
  replaceFrom (placeholder k) new 0 (placeholder k ++ t) = new ++ replaceFrom (placeholder k) new 0 t.
Proof.
  rewrite placeholder_cons. cbn [app replaceFrom]. change (123 :: 123 :: (k ++ [125; 125]) ++ t) with (placeholder k ++ t).
  change (123 :: 123 :: k ++ [125; 125]) with (placeholder k). rewrite stripPrefix_self. f_equal.
  apply (replaceFrom_skip _ _ (123 :: k ++ [125; 125])).
Qed.

Lemma replace_other k new key t :
  keyOk k = true -> keyOk key = true -> k <> key ->
  replaceFrom (placeholder k) new 0 (placeholder key ++ t) = placeholder key ++ replaceFrom (placeholder k) new 0 t.
Proof.
  intros Hk Hkey Hne. rewrite (placeholder_cons key). cbn [app]. rewrite <- app_assoc.
  assert (Hs : stripPrefix (placeholder k) (123 :: 123 :: key ++ [125; 125] ++ t) = None).
  { rewrite placeholder_cons. cbn [stripPrefix]. rewrite !Z.eqb_refl.
    destruct (stripPrefix _ _) as [r|] eqn:E; [|done]. by apply key_unique in E. }
  rewrite replaceFrom_none by exact Hs. f_equal. rewrite replace_pass.
  - f_equal. rewrite replace_pass_key by done. by rewrite app_assoc.
  - intros _. destruct key as [|b key]; [done|]. by apply keyOk_cons in Hkey as (H & _).
Qed.

(** ** All placeholders *)

Definition fill1 (k v : bytes) (s : segment) : list segment :=
  match s with SKey key => if decide (key = k) then map SByte v else [s] | _ => [s] end.
Definition fill (k v : bytes) (segs : list segment) : list segment := concat (map (fill1 k v) segs).

Lemma text_bytes v : segText (map SByte v) = v.
Proof. unfold segText. induction v as [|b v IH]; [done|]. simpl. by rewrite IH. Qed.

Lemma segText_app a b : segText (a ++ b) = segText a ++ segText b.
Proof. unfold segText. by rewrite map_app, concat_app. Qed.

Lemma head_text b segs :
  wfSegs (SByte b :: segs) = true -> b = 123 -> match segText segs with c :: _ => c <> 123 | [] => True end.
Proof.
  intros H ->. simpl in H. destruct segs as [|[c|key] segs]; [done| |done]. apply andb_prop in H as [H _].
  simpl. by bool_to_prop.
Qed.

Lemma replace_fill k v segs :
  keyOk k = true -> wfSegs segs = true -> ReplaceAll (segText segs) (placeholder k) v = segText (fill k v segs).
Proof.
  intros Hk. unfold ReplaceAll. induction segs as [|[b|key] segs IH]; intros Hw; [done| |].
  - change (segText (SByte b :: segs)) with (b :: segText segs). rewrite replace_pass by (by apply head_text).
    change (fill k v (SByte b :: segs)) with (SByte b :: fill k v segs). simpl in Hw. apply andb_prop in Hw as [_ Hw].
    rewrite IH by done. done.
  - change (segText (SKey key :: segs)) with (placeholder key ++ segText segs). simpl in Hw. apply andb_prop in Hw as [Hkey Hw].
    change (fill k v (SKey key :: segs)) with (fill1 k v (SKey key) ++ fill k v segs). rewrite segText_app, <- IH by done.
    cbn [fill1]. destruct (decide (key = k)) as [->|Hne].
    + by rewrite replace_key, text_bytes.
    + rewrite replace_other by done. f_equal. unfold segText. simpl. by rewrite app_nil_r.
Qed.

Lemma wf_bytes v segs : okText v -> wfSegs segs = true -> wfSegs (map SByte v ++ segs) = true.
Proof.
  intros [Hv Hl] Hs. induction v as [|b v IH]; [done|]. cbn [noOpen] in Hv. apply andb_prop in Hv as [Hb Hv].
  cbn [map app wfSegs]. rewrite IH; [|done|by destruct v]. rewrite andb_true_r. destruct (Z.eqb_spec b 123) as [->|]; [|done].
  destruct v as [|c v]; [done|]. simpl in *. done.
Qed.

Lemma fill_wf k v segs : okText v -> wfSegs segs = true -> wfSegs (fill k v segs) = true.
Proof.
  intros Hv. induction segs as [|[b|key] segs IH]; intros Hw; [done| |].
  - change (fill k v (SByte b :: segs)) with (SByte b :: fill k v segs). cbn [wfSegs] in *. apply andb_prop in Hw as [Hb Hw].
    rewrite IH by done. rewrite andb_true_r. destruct (b =? 123); [|done]. by destruct segs as [|[c|key] segs].
  - change (fill k v (SKey key :: segs)) with (fill1 k v (SKey key) ++ fill k v segs). cbn [wfSegs] in Hw.
    apply andb_prop in Hw as [Hkey Hw]. cbn [fill1]. destruct (decide (key = k)); [by apply wf_bytes, IH|].
    simpl. by rewrite Hkey, IH.
Qed.

Lemma render_fill k v values segs : render values (fill k v segs) = render (<[k := v]> values) segs.
Proof.
  unfold render. induction segs as [|s segs IH]; [done|].
  change (fill k v (s :: segs)) with (fill1 k v s ++ fill k v segs). rewrite map_app, concat_app, IH. cbn [map concat]. f_equal.
  destruct s as [b|key]; [done|]. cbn [fill1 segValue]. destruct (decide (key = k)) as [->|Hne].
  - rewrite lookup_insert_eq. simpl. clear. induction v as [|b v IH]; [done|]. simpl. by rewrite IH.
  - rewrite lookup_insert_ne by done. simpl. by rewrite app_nil_r.
Qed.

Definition bindingOk (kv : bytes * bytes) : Prop := keyOk kv.1 = true /\ okText kv.2.

Lemma substitute_render l segs :
  Forall bindingOk l -> wfSegs segs = true -> substitute (segText segs) l = render (list_to_map l) segs.
Proof.
  intros Hl. revert segs. induction Hl as [|[k v] l [Hk Hv] _ IH]; intros segs Hw.
  - done.
  - cbn [substitute foldl fst snd]. rewrite replace_fill by done.
    change (substitute (segText (fill k v segs)) l = render (list_to_map ((k, v) :: l)) segs).
    rewrite IH by (by apply fill_wf). apply render_fill.
Qed.

(** ** Quoted values *)

Lemma noOpen_app a b : okText a -> noOpen b = true -> noOpen (a ++ b) = true.
Proof.
  intros [Ha Hl] Hb. induction a as [|x a IH]; [done|]. cbn [noOpen app] in *. apply andb_prop in Ha as [Hx Ha].
  rewrite IH; [|done|by destruct a]. rewrite andb_true_r. destruct a as [|y a]; [|exact Hx]. cbn [last] in Hl.
  destruct (Z.eqb_spec x 123); [congruence|done].
Qed.

Lemma okText_app a b : okText a -> okText b -> okText (a ++ b).
Proof.
  intros Ha [Hb Hl]. split; [by apply noOpen_app|]. rewrite last_app. destruct (last b) eqn:E; [done|]. apply Ha.
Qed.

Lemma noOpen_quoted v : noOpen v = true -> noOpen (ReplaceAll v [quoteByte] [39; 34; 39; 34; 39] ++ [quoteByte]) = true.
Proof.
  unfold ReplaceAll. induction v as [|b v IH]; [done|]. cbn [noOpen]. intros [Hb Hv]%andb_prop.
  specialize (IH Hv). rewrite replace_byte. destruct (Z.eqb_spec quoteByte b) as [<-|Hne].
  - apply (noOpen_app [39; 34; 39; 34; 39]); [by split|exact IH].
  - cbn [app noOpen]. rewrite IH, andb_true_r. destruct (Z.eqb_spec b 123) as [->|]; [|done].
    destruct v as [|c v]; [done|]. rewrite replace_byte. by destruct (quoteByte =? c).
Qed.

Lemma okText_quote v : noOpen v = true -> okText (shellQuote v).
Proof.
  intros Hv. unfold shellQuote. split.
  - apply noOpen_app; [done|]. by apply noOpen_quoted.
  - by rewrite app_assoc, last_snoc.
Qed.

Lemma okText_fragment args : Forall (fun a => noOpen a = true) args -> okText (shellArgsFragment args).
Proof.
  unfold shellArgsFragment. induction 1 as [|a args Ha _ IH]; [done|]. cbn [map] in *. destruct args as [|b args]; [by apply okText_quote|].
  change (joinSpace (shellQuote a :: map shellQuote (b :: args)))
    with (shellQuote a ++ [32] ++ joinSpace (map shellQuote (b :: args))).
  apply okText_app; [by apply okText_quote|]. by apply (okText_app [32]).
Qed.

Lemma noOpen_resolved s : noOpen s = true -> unresolved s = false.
Proof.
  induction s as [|b s IH]; [done|]. cbn [noOpen unresolved]. intros [Hb Hs]%andb_prop. rewrite IH by done. rewrite orb_false_r.
  destruct (b =? 123); [|done]. destruct s as [|c s]; [done|]. simpl in *. by destruct (c =? 123).
Qed.

(** ** Text that trimming leaves alone *)

Lemma trimSpace_id a s b : clearOfSpace a = true -> clearOfSpace b = true -> last (a :: s) = Some b -> trimSpace (a :: s) = a :: s.
Proof.
  intros Ha Hb Hl. unfold trimSpace, trimLeft. rewrite trimRun_head by (intros p Hp; by apply clearOfSpace_spec).
  apply last_Some in Hl as [l' Hl]. rewrite Hl. unfold trimRight. rewrite rev_app_distr. cbn [rev app].
  rewrite trimRun_head; [by rewrite <- (rev_unit l' b), rev_involutive|].
  intros p Hp. apply list_elem_of_In, in_map_iff in Hp as (q & <- & Hq). apply list_elem_of_In in Hq.
  destruct (clearOfSpace_spec b q Hb Hq) as [H1 H2]. split.
  - intros Hin. apply H1, list_elem_of_In, in_rev. by apply list_elem_of_In.
  - intros E. apply H2. by rewrite <- (rev_involutive q), E.
Qed.

(** ** Resolving *)

Lemma visited_map (l : list (bytes * bytes)) (values : valueMap) : l ≡ₚ map_to_list values -> list_to_map l = values.
Proof.
  intros Hp. rewrite <- (list_to_map_to_list values). symmetry. apply list_to_map_proper; [|by rewrite Hp].
  apply NoDup_fst_map_to_list.
Qed.

Section Resolve.
Context (visit : valueMap -> list (bytes * bytes)).
Hypothesis visit_perm : forall values, visit values ≡ₚ map_to_list values.

Definition valuesOk (values : valueMap) : Prop := forall key v, values !! key = Some v -> bindingOk (key, v).

Lemma resolve_render values segs :
  valuesOk values -> wfSegs segs = true -> substitute (segText segs) (visit values) = render values segs.
Proof.
  intros Hv Hw. rewrite substitute_render; [|rewrite visit_perm; apply Forall_forall|exact Hw].
  - by rewrite (visited_map _ values).
  - intros [k v] Hin%elem_of_map_to_list. by apply Hv.
Qed.

(** The command that a built-in template gives is run as it is meant. *)
Lemma built_in_runs c nodeCommands kind values segs text argv :
  runtimeCommandsAreBuiltIn (c_RuntimeCommands c) nodeCommands kind = true ->
  supportedRuntimeCommandKind kind = true ->
  listOf (templates defaultRuntimeCommandTemplates kind) = [segText segs] -> wfSegs segs = true ->
  valuesOk (<[bytes_of "binary" := shellQuote (c_binary c)]> values) ->
  render (<[bytes_of "binary" := shellQuote (c_binary c)]> values) segs = text ->
  okText text -> trimSpace text = text -> shWords text argv -> headed argv ->
  exists r, resolveRuntimeCommands visit c nodeCommands kind values = Ok [r] /\ rc_text r = text /\ execArgs r = argv.
Proof.
  intros Hb Hk Ht Hw Hv Hr Hok Htrim Hsh Hh. exists (Resolved text (Some argv)).
  assert (Ha : argvFromQuotedCommand text = Some argv) by (by apply argv_shWords).
  split; [|split; [done|by destruct argv as [|[|b w] argv]]].
  unfold resolveRuntimeCommands, ResolveCommands, resolveConfiguredRuntimeCommands. rewrite Hk, Hb. cbn [negb].
  unfold runtimeCommandsAreBuiltIn in Hb. rewrite (bool_decide_eq_true_1 _ Hb), Ht. cbn [resolveTemplates].
  unfold resolveTemplate. rewrite resolve_render, Hr, noOpen_resolved, Htrim by (done || apply Hok).
  destruct text as [|x text]; [|cbn [map]; by rewrite Ha]. by vm_compute in Ha.
Qed.

Lemma valuesOk_insert key v values : keyOk key = true -> okText v -> valuesOk values -> valuesOk (<[key := v]> values).
Proof.
  intros Hk Hv Hm k w. rewrite lookup_insert_Some. intros [[<- <-]|[_ H]]; [by split|by apply Hm].
Qed.

Lemma valuesOk_of l : Forall (fun kv => keyOk (bytes_of kv.1) = true /\ okText kv.2) l -> valuesOk (valuesOf l).
Proof.
  unfold valuesOf. induction 1 as [|[k v] l [Hk Hv] _ IH]; [by intros ? ?|]. by apply valuesOk_insert.
Qed.

End Resolve.

(** Text that begins and ends with a byte that is no part of a space. *)
Definition edged (s : bytes) : Prop :=
  exists a t b, s = a :: t /\ last s = Some b /\ clearOfSpace a = true /\ clearOfSpace b = true.

Lemma edged_trim s : edged s -> trimSpace s = s.
Proof. intros (a & t & b & -> & Hl & Ha & Hb). by apply (trimSpace_id a t b). Qed.

(** Text with such an end. *)
Definition tailed (t : bytes) : Prop := exists b, last t = Some b /\ clearOfSpace b = true.

Lemma tailed_app a t : tailed t -> tailed (a ++ t).
Proof. intros (b & Hl & Hb). exists b. by rewrite last_app, Hl. Qed.

Lemma tailed_cons x t : tailed t -> tailed (x :: t).
Proof. apply (tailed_app [x]). Qed.

Lemma edged_tailed s t : edged s -> tailed t -> edged (s ++ t).
Proof.
  intros (a & s' & b & -> & _ & Ha & _) (b' & Hl' & Hb'). exists a, (s' ++ t), b'. split; [done|]. split; [|done].
  change (last ((a :: s') ++ t) = Some b'). by rewrite last_app, Hl'.
Qed.

Lemma edged_quote v : edged (shellQuote v).
Proof.
  unfold shellQuote. exists 39, (ReplaceAll v [quoteByte] [39; 34; 39; 34; 39] ++ [39]), 39. split; [done|].
  split; [by rewrite app_assoc, last_snoc|done].
Qed.

Lemma tailed_quote v : tailed (shellQuote v ++ []).
Proof.
  rewrite app_nil_r. destruct (edged_quote v) as (a & t & b & E & Hl & _ & Hb). exists b. by split.
Qed.

Lemma tailed_fragment a args : tailed (shellArgsFragment (a :: args)).
Proof.
  unfold shellArgsFragment. revert a. induction args as [|b args IH]; intros a.
  - rewrite <- (app_nil_r (joinSpace _)). apply tailed_quote.
  - change (joinSpace (map shellQuote (a :: b :: args))) with (shellQuote a ++ [32] ++ joinSpace (map shellQuote (b :: args))).
    apply tailed_app, tailed_cons, IH.
Qed.

(** ** The client's commands *)

Definition B (s : string) : bytes := bytes_of s.
Definition segL (s : string) : list segment := map SByte (bytes_of s).
Definition segK (s : string) : list segment := [SKey (bytes_of s)].

(** The texts of the commands. *)
Ltac render_text :=
  unfold createValues, startValues, sandboxValues, cloneValues, copyValues, shellValues, B;
  repeat match goal with |- context [shellQuote ?v] => generalize (shellQuote v); intro end;
  vm_compute; reflexivity.

Ltac ok_text :=
  repeat first [ by apply okText_quote | by apply okText_fragment | solve [split; [reflexivity|vm_compute; discriminate]]
               | apply okText_app | match goal with |- okText (32 :: _) => apply (okText_app [32]) end ].

Ltac values_ok :=
  apply valuesOk_insert; [reflexivity|by apply okText_quote|]; apply valuesOk_of;
  repeat first [ apply List.Forall_nil | apply List.Forall_cons; [split; [reflexivity|cbn [snd]; ok_text]|] ].

Ltac words :=
  repeat first [ apply sw_end | apply shWords_blank | apply shWords_quoted; [done|]
               | apply shWords_plain; [done|reflexivity|done|] ].

Ltac tail_of :=
  repeat first [ apply tailed_quote | apply tailed_fragment | by eexists | apply tailed_app | apply tailed_cons ].

Section Client.
Context (visit : valueMap -> list (bytes * bytes)).
Hypothesis visit_perm : forall values, visit values ≡ₚ map_to_list values.
Context (c : LimaClient) (nodeCommands : RuntimeCommandTemplates).
Hypothesis built_in : forall kind, runtimeCommandsAreBuiltIn (c_RuntimeCommands c) nodeCommands kind = true.
Hypothesis binary_open : noOpen (c_binary c) = true.
Hypothesis binary_named : c_binary c <> [].

(** A command of the client executes [argv]. *)
Definition runs (kind : string) (values : valueMap) (argv : list bytes) : Prop :=
  exists r, resolveRuntimeCommands visit c nodeCommands kind values = Ok [r] /\ execArgs r = argv.

Lemma runs_intro kind values segs text argv :
  supportedRuntimeCommandKind kind = true -> listOf (templates defaultRuntimeCommandTemplates kind) = [segText segs] ->
  wfSegs segs = true -> valuesOk (<[bytes_of "binary" := shellQuote (c_binary c)]> values) ->
  render (<[bytes_of "binary" := shellQuote (c_binary c)]> values) segs = shellQuote (c_binary c) ++ text ->
  okText text -> tailed text -> wordEnd text -> shWords text argv ->
  runs kind values (c_binary c :: argv).
Proof.
  intros Hk Ht Hw Hv Hr Hok Hed He Hs.
  destruct (built_in_runs visit visit_perm c nodeCommands kind values segs _ (c_binary c :: argv)
    (built_in kind) Hk Ht Hw Hv Hr) as (r & H1 & _ & H2).
  - apply okText_app; [by apply okText_quote|exact Hok].
  - apply edged_trim, edged_tailed; [apply edged_quote|exact Hed].
  - by apply shWords_quoted.
  - simpl. by destruct (c_binary c).
  - by exists r.
Qed.

Ltac runs_by segs text :=
  apply runs_intro with segs text;
  [reflexivity|reflexivity|reflexivity|values_ok|render_text|ok_text|tail_of|done|words].

Lemma runs_plain kind flag :
  (kind = "version" /\ flag = ["--version"]) \/ (kind = "list" /\ flag = ["list"; "--json"]) ->
  runs kind ∅ (c_binary c :: map B flag).
Proof.
  intros [[-> ->]|[-> ->]].
  - apply runs_intro with (segK "binary" ++ segL " --version") (32 :: B "--version" ++ []);
      [done|done|done| |render_text|ok_text|tail_of|done|words]. apply valuesOk_insert; [done|by apply okText_quote|by intros ? ?].
  - apply runs_intro with (segK "binary" ++ segL " list --json") (32 :: B "list" ++ 32 :: B "--json" ++ []);
      [done|done|done| |render_text|ok_text|tail_of|done|words]. apply valuesOk_insert; [done|by apply okText_quote|by intros ? ?].
Qed.

Lemma runs_create sandbox path :
  noOpen sandbox = true -> noOpen path = true ->
  runs "create" (createValues sandbox path) [c_binary c; B "create"; B "-y"; B "--name"; sandbox; path].
Proof.
  intros Hs Hp.
  runs_by (segK "binary" ++ segL " create -y --name " ++ segK "sandbox_name" ++ segL " " ++ segK "template_path")
    (32 :: B "create" ++ 32 :: B "-y" ++ 32 :: B "--name" ++ 32 :: shellQuote sandbox ++ 32 :: shellQuote path ++ []).
Qed.

Lemma runs_start sandbox nested :
  noOpen sandbox = true ->
  runs "start" (startValues sandbox nested)
    ([c_binary c; B "start"; B "-y"; sandbox] ++ if nested then [B "--nested-virt"] else []).
Proof.
  intros Hs. destruct nested.
  - runs_by (segK "binary" ++ segL " start -y " ++ segK "sandbox_name" ++ segK "nested_virtualization_flag")
      (32 :: B "start" ++ 32 :: B "-y" ++ 32 :: shellQuote sandbox ++ 32 :: B "--nested-virt" ++ []).
  - runs_by (segK "binary" ++ segL " start -y " ++ segK "sandbox_name" ++ segK "nested_virtualization_flag")
      (32 :: B "start" ++ 32 :: B "-y" ++ 32 :: shellQuote sandbox ++ []).
Qed.

Lemma runs_stop sandbox :
  noOpen sandbox = true -> runs "stop" (sandboxValues sandbox) [c_binary c; B "stop"; B "-y"; sandbox].
Proof.
  intros Hs. runs_by (segK "binary" ++ segL " stop -y " ++ segK "sandbox_name")
    (32 :: B "stop" ++ 32 :: B "-y" ++ 32 :: shellQuote sandbox ++ []).
Qed.

Lemma runs_delete sandbox :
  noOpen sandbox = true -> runs "delete" (sandboxValues sandbox) [c_binary c; B "delete"; B "-f"; sandbox].
Proof.
  intros Hs. runs_by (segK "binary" ++ segL " delete -f " ++ segK "sandbox_name")
    (32 :: B "delete" ++ 32 :: B "-f" ++ 32 :: shellQuote sandbox ++ []).
Qed.

Lemma runs_clone source target :
  noOpen source = true -> noOpen target = true ->
  runs "clone" (cloneValues source target) [c_binary c; B "clone"; B "-y"; source; target].
Proof.
  intros Hs Ht. runs_by (segK "binary" ++ segL " clone -y " ++ segK "source_sandbox" ++ segL " " ++ segK "sandbox_name")
    (32 :: B "clone" ++ 32 :: B "-y" ++ 32 :: shellQuote source ++ 32 :: shellQuote target ++ []).
Qed.

Lemma runs_copy sandbox source target recursive :
  noOpen sandbox = true -> noOpen source = true -> noOpen target = true -> noOpen (sandbox ++ B ":" ++ target) = true ->
  runs "copy" (copyValues sandbox source target recursive)
    ([c_binary c; B "copy"] ++ (if recursive then [B "-r"] else []) ++ [source; sandbox ++ B ":" ++ target]).
Proof.
  intros Hs Hsrc Ht Hst. destruct recursive.
  - runs_by (segK "binary" ++ segL " copy" ++ segK "recursive_flag" ++ segL " " ++ segK "source_path" ++ segL " " ++ segK "copy_target")
      (32 :: B "copy" ++ 32 :: B "-r" ++ 32 :: shellQuote source ++ 32 :: shellQuote (sandbox ++ B ":" ++ target) ++ []).
  - runs_by (segK "binary" ++ segL " copy" ++ segK "recursive_flag" ++ segL " " ++ segK "source_path" ++ segL " " ++ segK "copy_target")
      (32 :: B "copy" ++ 32 :: shellQuote source ++ 32 :: shellQuote (sandbox ++ B ":" ++ target) ++ []).
Qed.

(** The words after the shell's flags. *)
Definition guestWords (root : bool) (command : list bytes) : list bytes :=
  match command with [] => [] | _ => B "--" :: guestCommand root command end.

Lemma guest_open root command :
  Forall (fun a => noOpen a = true) command -> Forall (fun a => noOpen a = true) (guestCommand root command).
Proof. intros H. destruct root; [|exact H]. by repeat (apply List.Forall_cons; [done|]). Qed.

Lemma guest_fragment root command :
  command <> [] -> exists a l, guestCommand root command = a :: l.
Proof. intros H. destruct root; [by do 2 eexists|]. destruct command; [done|]. by do 2 eexists. Qed.

Lemma runs_shell sandbox root command workdir interactive :
  noOpen sandbox = true -> noOpen workdir = true -> Forall (fun a => noOpen a = true) command ->
  runs (shellKind interactive) (shellValues sandbox root command workdir)
    ([c_binary c; B "shell"] ++ (match trimSpace workdir with [] => [] | _ => [B "--workdir"; workdir] end) ++
     [sandbox] ++ guestWords root command).
Proof.
  intros Hs Hwd Hc. pose proof (guest_open root command Hc) as Hg. pose proof (guest_fragment root command) as Hf.
  unfold shellValues, guestWords.
  set (dir := match trimSpace workdir with [] => [] | _ => bytes_of " --workdir " ++ shellQuote workdir end).
  set (args := match command with [] => [] | _ => bytes_of " -- " ++ shellArgsFragment (guestCommand root command) end).
  assert (Hdir : okText dir) by (unfold dir; destruct (trimSpace workdir); [done|ok_text]).
  assert (Hargs : okText args) by (unfold args; destruct command; [done|ok_text]).
  assert (Hwords : shWords args (match command with [] => [] | _ => B "--" :: guestCommand root command end)).
  { unfold args. destruct command; [constructor|]. words. apply (shWords_plain (B "--")); [done|done|done|].
    apply shWords_blank, fragment_words. }
  assert (Htail : tailed (shellQuote sandbox ++ args)).
  { unfold args. destruct command as [|a l]; [apply tailed_quote|]. apply tailed_app, tailed_app.
    destruct Hf as (x & y & ->); [done|]. apply tailed_fragment. }
  assert (Hend : wordEnd args) by (unfold args; by destruct command).
  clearbody args.
  apply runs_intro with (segK "binary" ++ segL " shell" ++ segK "workdir_flag" ++ segL " " ++ segK "sandbox_name" ++ segK "command_args")
    (32 :: B "shell" ++ dir ++ 32 :: shellQuote sandbox ++ args).
  - by destruct interactive.
  - by destruct interactive.
  - done.
  - values_ok; assumption.
  - rewrite <- (app_nil_r args) at 2. clearbody dir.
    repeat match goal with |- context [shellQuote ?v] => generalize (shellQuote v); intro end.
    vm_compute. reflexivity.
  - ok_text; assumption.
  - by apply tailed_cons, tailed_app, tailed_app, tailed_cons.
  - done.
  - words. apply (shWords_plain (B "shell")); [done|done| |]; unfold dir; destruct (trimSpace workdir); try done; cbn [app].
    + apply shWords_blank, shWords_quoted; [exact Hend|exact Hwords].
    + apply shWords_blank. apply (shWords_plain (B "--workdir")); [done|done|done|]. cbn [app].
      apply shWords_blank, shWords_quoted; [done|]. apply shWords_blank, shWords_quoted; [exact Hend|exact Hwords].
Qed.

End Client.

(** However Go's map yields the placeholder values, a template whose braces
    are single or placeholders is rendered by replacing all placeholders at once,
    if no value has an opening pair of braces or ends with an opening brace. *)
Theorem render_any_order visit values segs :
  visit values ≡ₚ map_to_list values -> valuesOk values -> wfSegs segs = true ->
  substitute (segText segs) (visit values) = render values segs.
Proof.
  intros Hp Hv Hw. rewrite substitute_render; [|rewrite Hp; apply Forall_forall|exact Hw].
  - by rewrite (visited_map _ values).
  - intros [k v] Hin%elem_of_map_to_list. by apply Hv.
Qed.

(** With the built-in commands, in whatever order the placeholder values are
    replaced, every operation of the client runs its program without a shell with
    exactly the intended arguments: names, paths and guest commands reach it byte
    for byte, unless they contain an opening pair of braces. *)
Theorem built_in_argv visit c nodeCommands sandbox other path workdir command root :
  (forall values, visit values ≡ₚ map_to_list values) ->
  (forall kind, runtimeCommandsAreBuiltIn (c_RuntimeCommands c) nodeCommands kind = true) ->
  c_binary c <> [] ->
  Forall (fun v => noOpen v = true) ([c_binary c; sandbox; other; path; workdir; sandbox ++ B ":" ++ other] ++ command) ->
  let runs := runs visit c nodeCommands in
  let bin := c_binary c in
  runs "version" ∅ [bin; B "--version"] /\
  runs "list" ∅ [bin; B "list"; B "--json"] /\
  runs "create" (createValues sandbox path) [bin; B "create"; B "-y"; B "--name"; sandbox; path] /\
  (forall nested, runs "start" (startValues sandbox nested)
     ([bin; B "start"; B "-y"; sandbox] ++ if nested then [B "--nested-virt"] else [])) /\
  runs "stop" (sandboxValues sandbox) [bin; B "stop"; B "-y"; sandbox] /\
  runs "delete" (sandboxValues sandbox) [bin; B "delete"; B "-f"; sandbox] /\
  runs "clone" (cloneValues other sandbox) [bin; B "clone"; B "-y"; other; sandbox] /\
  (forall recursive, runs "copy" (copyValues sandbox path other recursive)
     ([bin; B "copy"] ++ (if recursive then [B "-r"] else []) ++ [path; sandbox ++ B ":" ++ other])) /\
  (forall interactive, runs (shellKind interactive) (shellValues sandbox root command workdir)
     ([bin; B "shell"] ++ (match trimSpace workdir with [] => [] | _ => [B "--workdir"; workdir] end) ++
      [sandbox] ++ guestWords root command)).
Proof.
  intros Hp Hb Hne Ho. cbv zeta. apply Forall_app in Ho as [Ho Hc].
  repeat match goal with H : Forall _ (_ :: _) |- _ => apply Forall_cons in H as [? H] end.
  split; [apply (runs_plain visit Hp c nodeCommands Hb) with (flag := ["--version"%string]); auto|].
  split; [apply (runs_plain visit Hp c nodeCommands Hb) with (flag := ["list"; "--json"]%string); auto|].
  split; [by apply runs_create|]. split; [intros nested; by apply runs_start|]. split; [by apply runs_stop|].
  split; [by apply runs_delete|]. split; [by apply runs_clone|]. split; [intros recursive; by apply runs_copy|].
  intros interactive. by apply runs_shell.
Qed.

(** ** Precedence *)

(** Merging the defaults into the settings, as loading them does, changes no
    command. *)
Lemma defaults_merged global nodeCommands kind :
  effectiveRuntimeCommandTemplates (ApplyDefaults global defaultRuntimeCommandTemplates) nodeCommands kind =
  effectiveRuntimeCommandTemplates global nodeCommands kind.
Proof.
  assert (H : forall a b c : commands, applyDefaultCommandList a (applyDefaultCommandList (copyCommandList (applyDefaultCommandList b c)) c) =
    applyDefaultCommandList a (applyDefaultCommandList (copyCommandList b) c)).
  { intros a [[|x b]|] [[|y c]|]; reflexivity. }
  unfold effectiveRuntimeCommandTemplates. destruct (supportedRuntimeCommandKind kind) eqn:E.
  - unfold supportedRuntimeCommandKind in E. cbn [existsb] in E. repeat (apply orb_true_iff in E as [E|E]);
      try discriminate; apply String.eqb_eq in E as ->; apply (H (templates nodeCommands _)).
  - unfold supportedRuntimeCommandKind in E. cbn [existsb] in E.
    repeat (apply orb_false_iff in E as [? E]). unfold templates, orderedFields. cbn [List.find fst].
    repeat match goal with H : (kind =? _)%string = false |- _ => rewrite (String.eqb_sym kind) in H; rewrite H; clear H end.
    done.
Qed.

(** An explicitly empty list of commands is the same as none. *)
Lemma empty_means_unset t global :
  effectiveRuntimeCommandTemplates global (Templates (Some []) (t_List t) (t_Create t) (t_Start t) (t_Stop t) (t_Delete t)
    (t_Clone t) (t_Bootstrap t) (t_WorkspaceSeedPrepare t) (t_Copy t) (t_ShellExec t) (t_ShellLogin t)) "version" =
  effectiveRuntimeCommandTemplates global noTemplates "version".
Proof. reflexivity. Qed.

(** ** The window launcher *)

(** The command goes, as it is, where the template's marker stood. *)
Lemma splice_literal first args r :
  spliceArgs [] first args = Ok r ->
  exists slots : list (option bytes),
    forall command, spliceArgs command first args = Ok (concat (map (fun s => match s with Some arg => [arg] | None => command end) slots)).
Proof.
  revert first r. induction args as [|arg args IH]; intros first r H; [by exists []|]. cbn [spliceArgs] in *.
  destruct (Contains arg commandMarker).
  - destruct (first || _); [done|]. destruct (spliceArgs [] false args) as [r'|] eqn:E; [|done].
    destruct (IH _ _ E) as [slots Hs]. exists (None :: slots). intros command. by rewrite Hs.
  - destruct (spliceArgs [] false args) as [r'|] eqn:E; [|done].
    destruct (IH _ _ E) as [slots Hs]. exists (Some arg :: slots). intros command. by rewrite Hs.
Qed.

Module Sample.

Definition client : LimaClient := Client (bytes_of "limactl") defaultRuntimeCommandTemplates.

Lemma client_built_in kind : runtimeCommandsAreBuiltIn (c_RuntimeCommands client) noTemplates kind = true.
Proof.
  unfold runtimeCommandsAreBuiltIn. apply bool_decide_eq_true. unfold effectiveRuntimeCommandTemplates, client, templates, orderedFields.
  cbn [List.find c_RuntimeCommands fst]. repeat match goal with |- context [(?a =? kind)%string] => destruct (a =? kind)%string; [reflexivity|] end.
  reflexivity.
Qed.

(** A guest command with a format template is refused. *)
Lemma guest_braces_refused :
  resolveRuntimeCommands map_to_list client noTemplates "shell_exec"
    (shellValues (B "node") false [B "docker"; B "ps"; B "--format"; B "{{.Names}}"] []) =
  Err (invalidArgument "runtime command template contains an unknown placeholder").
Proof. vm_compute. reflexivity. Qed.

(** A guest command with a placeholder's name is changed, or not, with the order
    in which the values are replaced. *)
Lemma guest_braces_order :
  resolveRuntimeCommands map_to_list client noTemplates "shell_exec" (shellValues (B "n") false [B "{{sandbox_name}}"] []) <>
  resolveRuntimeCommands (fun m => rev (map_to_list m)) client noTemplates "shell_exec"
    (shellValues (B "n") false [B "{{sandbox_name}}"] []).
Proof. vm_compute. discriminate. Qed.

End Sample.

Lemma render_any_order_witness :
  substitute (segText (segL "stop " ++ segK "sandbox_name")) (map_to_list (sandboxValues (B "a b"))) = B "stop 'a b'".
Proof.
  rewrite (render_any_order map_to_list (sandboxValues (B "a b"))); [vm_compute; reflexivity|done| |done].
  apply valuesOk_of. apply List.Forall_cons; [|apply List.Forall_nil]. split; [reflexivity|]. by apply okText_quote.
Defined.

Lemma built_in_argv_witness :
  runs map_to_list Sample.client noTemplates "shell_exec" (shellValues (B "node") true [B "echo"; B "it's"] [])
    (map B ["limactl"; "shell"; "node"; "--"; "sudo"; "-H"; "--"; "echo"; "it's"]%string).
Proof.
  destruct (built_in_argv map_to_list Sample.client noTemplates (B "node") (B "other") (B "/tmp/x") [] [B "echo"; B "it's"] true)
    as (_ & _ & _ & _ & _ & _ & _ & _ & H).
  - done.
  - apply Sample.client_built_in.
  - done.
  - repeat (apply List.Forall_cons; [reflexivity|]). apply List.Forall_nil.
  - apply (H false).
Defined.
