(* ===== verification/NodeRecord.v ===== *)
(** * Node records

    [Node], [nodeFileWire] and their conversions in [internal/codelima/types.go],
    [nodeYAMLBytes] and [nodeFileNeedsRefresh] of [runtime_commands.go] and the
    parse behind [NodeByID] in [store.go].  A nil and an empty slice of strings
    are the same list except in the runtime commands; observations of the
    runtime are opaque.  The YAML library is an argument; [NodeYAML] states what
    the code relies on. *)

From S2P Require Import Prelude SampleCodec GoText RuntimeCommands.
Local Open Scope Z_scope.

(** ** Status *)

Abbreviation NodeStatus := string (only parsing).
Definition NodeStatusCreated : NodeStatus := "created".
Definition NodeStatusProvisioning : NodeStatus := "provisioning".
Definition NodeStatusRegistering : NodeStatus := "registering".
Definition NodeStatusRunning : NodeStatus := "running".
Definition NodeStatusStopped : NodeStatus := "stopped".
Definition NodeStatusFailed : NodeStatus := "failed".
Definition NodeStatusTerminating : NodeStatus := "terminating".
Definition NodeStatusTerminated : NodeStatus := "terminated".

Definition oneOf (s : string) (l : list string) : bool := existsb (String.eqb s) l.

Definition normalizeNodeLifecycleState (state : NodeStatus) : NodeStatus :=
  let s := TrimSpace (ToLower state) in
  if oneOf s [NodeStatusCreated; NodeStatusProvisioning; NodeStatusRegistering; NodeStatusFailed;
              NodeStatusTerminating; NodeStatusTerminated] then s else "".

Definition legacyNodeStatus (state : NodeStatus) : NodeStatus :=
  let s := TrimSpace (ToLower state) in
  if oneOf s [NodeStatusCreated; NodeStatusProvisioning; NodeStatusRegistering; NodeStatusRunning; NodeStatusStopped;
              NodeStatusFailed; NodeStatusTerminating; NodeStatusTerminated] then s else "".

(** ** Records *)

(** The fields a node record and its file share. *)
Record nodeFields := Fields {
  nf_ID : string;
  nf_Slug : string;
  nf_ConfigurationID : string;
  nf_DirectoryPath : string;
  nf_ParentNodeID : string;
  nf_Runtime : string;
  nf_Provider : string;
  nf_SandboxName : string;
  nf_Image : string;
  nf_VCPUs : Z;
  nf_MemoryMiB : Z;
  nf_DiskMiB : Z;
  nf_Environments : list string;
  nf_Ports : list string;
  nf_DaemonPortForwarding : bool;
  nf_AgentProfileName : string;
  nf_RuntimeCommands : RuntimeCommandTemplates;
  nf_BootstrapCommands : list string;
  nf_WorkspaceMode : string;
  nf_GuestWorkspacePath : string;
  nf_WorkspaceMountPath : string;
  nf_WorkspaceSeeded : bool;
  nf_ImportHostAuth : bool;
  nf_AuthImportCompleted : bool;
  nf_BootstrapCompleted : bool;
  nf_BootstrapCompletedAt : option time;
  nf_CreatedAt : time;
  nf_UpdatedAt : time;
  nf_DeletedAt : option time;
}.

Section Records.
Context {Observation : Type}.

Record Node := MkNode {
  n_fields : nodeFields;
  n_ConfigurationSlug : string;
  n_Status : NodeStatus;
  n_LifecycleState : NodeStatus;
  n_LastReconciledAt : option time;
  n_LastRuntimeObservation : option Observation;
}.

Definition n_ID n := nf_ID (n_fields n).
Definition n_Slug n := nf_Slug (n_fields n).
Definition n_SandboxName n := nf_SandboxName (n_fields n).
Definition n_BootstrapCompleted n := nf_BootstrapCompleted (n_fields n).
Definition n_CreatedAt n := nf_CreatedAt (n_fields n).
Definition n_DeletedAt n := nf_DeletedAt (n_fields n).

Record nodeFileWire := Wire {
  w_ID : string;
  w_Slug : string;
  w_ConfigurationID : string;
  w_DirectoryPath : string;
  w_ParentNodeID : string;
  w_Runtime : string;
  w_Provider : string;
  w_SandboxName : string;
  w_Image : string;
  w_VCPUs : Z;
  w_MemoryMiB : Z;
  w_DiskMiB : Z;
  w_Environments : list string;
  w_Ports : list string;
  w_DaemonPortForwarding : bool;
  w_LifecycleState : NodeStatus;
  w_Status : NodeStatus;
  w_AgentProfileName : string;
  w_RuntimeCommands : RuntimeCommandTemplates;
  w_BootstrapCommands : list string;
  w_WorkspaceMode : string;
  w_GuestWorkspacePath : string;
  w_WorkspaceMountPath : string;
  w_WorkspaceSeeded : bool;
  w_ImportHostAuth : bool;
  w_AuthImportCompleted : bool;
  w_BootstrapCompleted : bool;
  w_BootstrapCompletedAt : option time;
  w_CreatedAt : time;
  w_UpdatedAt : time;
  w_DeletedAt : option time;
}.

Definition nodeLifecycleState (n : Node) : NodeStatus :=
  let state := normalizeNodeLifecycleState (n_Status n) in
  if negb (state =? "")%string then state
  else if negb (n_BootstrapCompleted n) then normalizeNodeLifecycleState (n_LifecycleState n)
  else "".

Definition newNodeFileWire (n : Node) : nodeFileWire :=
  let f := n_fields n in {|
    w_ID := nf_ID f; w_Slug := nf_Slug f; w_ConfigurationID := nf_ConfigurationID f;
    w_DirectoryPath := nf_DirectoryPath f; w_ParentNodeID := nf_ParentNodeID f; w_Runtime := nf_Runtime f;
    w_Provider := nf_Provider f; w_SandboxName := nf_SandboxName f; w_Image := nf_Image f;
    w_VCPUs := nf_VCPUs f; w_MemoryMiB := nf_MemoryMiB f; w_DiskMiB := nf_DiskMiB f;
    w_Environments := nf_Environments f; w_Ports := nf_Ports f;
    w_DaemonPortForwarding := nf_DaemonPortForwarding f; w_LifecycleState := nodeLifecycleState n;
    w_Status := ""; w_AgentProfileName := nf_AgentProfileName f; w_RuntimeCommands := nf_RuntimeCommands f;
    w_BootstrapCommands := nf_BootstrapCommands f; w_WorkspaceMode := nf_WorkspaceMode f;
    w_GuestWorkspacePath := nf_GuestWorkspacePath f; w_WorkspaceMountPath := nf_WorkspaceMountPath f;
    w_WorkspaceSeeded := nf_WorkspaceSeeded f; w_ImportHostAuth := nf_ImportHostAuth f;
    w_AuthImportCompleted := nf_AuthImportCompleted f; w_BootstrapCompleted := nf_BootstrapCompleted f;
    w_BootstrapCompletedAt := nf_BootstrapCompletedAt f; w_CreatedAt := nf_CreatedAt f;
    w_UpdatedAt := nf_UpdatedAt f; w_DeletedAt := nf_DeletedAt f |}.

(** [nodeFileWire.node] *)
Definition wireNode (w : nodeFileWire) : Node :=
  let lifecycleState := normalizeNodeLifecycleState (w_LifecycleState w) in
  let legacyStatus := legacyNodeStatus (w_Status w) in
  let lifecycleState :=
    if (lifecycleState =? "")%string then normalizeNodeLifecycleState legacyStatus else lifecycleState in
  let status := if (lifecycleState =? "")%string then legacyStatus else lifecycleState in
  MkNode {|
    nf_ID := w_ID w; nf_Slug := w_Slug w; nf_ConfigurationID := w_ConfigurationID w;
    nf_DirectoryPath := w_DirectoryPath w; nf_ParentNodeID := w_ParentNodeID w; nf_Runtime := w_Runtime w;
    nf_Provider := w_Provider w; nf_SandboxName := w_SandboxName w; nf_Image := w_Image w;
    nf_VCPUs := w_VCPUs w; nf_MemoryMiB := w_MemoryMiB w; nf_DiskMiB := w_DiskMiB w;
    nf_Environments := w_Environments w; nf_Ports := w_Ports w;
    nf_DaemonPortForwarding := w_DaemonPortForwarding w; nf_AgentProfileName := w_AgentProfileName w;
    nf_RuntimeCommands := w_RuntimeCommands w; nf_BootstrapCommands := w_BootstrapCommands w;
    nf_WorkspaceMode := w_WorkspaceMode w; nf_GuestWorkspacePath := w_GuestWorkspacePath w;
    nf_WorkspaceMountPath := w_WorkspaceMountPath w; nf_WorkspaceSeeded := w_WorkspaceSeeded w;
    nf_ImportHostAuth := w_ImportHostAuth w; nf_AuthImportCompleted := w_AuthImportCompleted w;
    nf_BootstrapCompleted := w_BootstrapCompleted w; nf_BootstrapCompletedAt := w_BootstrapCompletedAt w;
    nf_CreatedAt := w_CreatedAt w; nf_UpdatedAt := w_UpdatedAt w; nf_DeletedAt := w_DeletedAt w |}
    "" status lifecycleState None None.

(** ** The file *)

(** What [nodeFileNeedsRefresh] looks at: the keys that must not or must be
    there, and the kinds of the runtime commands. *)
Record storedFields := Stored {
  sf_Status : option string;
  sf_LastReconciledAt : option string;
  sf_LastRuntimeObservation : bool;   (* present *)
  sf_LifecycleState : option NodeStatus;
  sf_RuntimeCommands : list string;   (* the keys *)
}.

Definition containsUnsupportedRuntimeCommandYAML (keys : list string) : bool :=
  existsb (fun key => negb (supportedRuntimeCommandKind key)) keys.

Context (yamlMarshal : nodeFileWire -> bytes) (yamlNode : bytes -> result nodeFileWire)
        (yamlStored : bytes -> result storedFields).

Definition nodeYAMLBytes (n : Node) : bytes := yamlMarshal (newNodeFileWire n).

(** [readNodeRecord] on the contents of the file, [None] when there is none. *)
Definition readNodeRecord (file : option bytes) : result Node :=
  match file with
  | None => Err (notFound "node not found")
  | Some data =>
      match yamlNode data with
      | Err _ => Err (metadataCorruption "failed to load node")
      | Ok wire =>
          if blank (w_ID wire) then Err (metadataCorruption "node metadata has no id")
          else Ok (wireNode wire)
      end
  end.

Definition nodeFileNeedsRefresh (data : bytes) (n : Node) : bool :=
  match yamlStored data with
  | Err _ => true
  | Ok stored =>
      if containsUnsupportedRuntimeCommandYAML (sf_RuntimeCommands stored) then true
      else if bool_decide (sf_Status stored <> None) || bool_decide (sf_LastReconciledAt stored <> None)
              || sf_LastRuntimeObservation stored then true
      else
        let persistedLifecycle := nodeLifecycleState n in
        if (persistedLifecycle =? "")%string then bool_decide (sf_LifecycleState stored <> None)
        else match sf_LifecycleState stored with None => true | Some s => negb (s =? persistedLifecycle)%string end
  end.

(** The template kinds a marshalled record has: the lists that are not empty. *)
Definition templateKeys (t : RuntimeCommandTemplates) : list string :=
  map fst (filter (fun field => listOf field.2 <> []) (orderedFields t)).

(** Empty lists are omitted from the file and come back as nil. *)
Definition omitEmpty (t : RuntimeCommandTemplates) : RuntimeCommandTemplates := {|
  t_Version := copyCommandList (t_Version t); t_List := copyCommandList (t_List t);
  t_Create := copyCommandList (t_Create t); t_Start := copyCommandList (t_Start t);
  t_Stop := copyCommandList (t_Stop t); t_Delete := copyCommandList (t_Delete t);
  t_Clone := copyCommandList (t_Clone t); t_Bootstrap := copyCommandList (t_Bootstrap t);
  t_WorkspaceSeedPrepare := copyCommandList (t_WorkspaceSeedPrepare t); t_Copy := copyCommandList (t_Copy t);
  t_ShellExec := copyCommandList (t_ShellExec t); t_ShellLogin := copyCommandList (t_ShellLogin t) |}.

Definition omitEmptyFields (f : nodeFields) : nodeFields := {|
  nf_ID := nf_ID f; nf_Slug := nf_Slug f; nf_ConfigurationID := nf_ConfigurationID f;
  nf_DirectoryPath := nf_DirectoryPath f; nf_ParentNodeID := nf_ParentNodeID f; nf_Runtime := nf_Runtime f;
  nf_Provider := nf_Provider f; nf_SandboxName := nf_SandboxName f; nf_Image := nf_Image f; nf_VCPUs := nf_VCPUs f;
  nf_MemoryMiB := nf_MemoryMiB f; nf_DiskMiB := nf_DiskMiB f; nf_Environments := nf_Environments f;
  nf_Ports := nf_Ports f; nf_DaemonPortForwarding := nf_DaemonPortForwarding f;
  nf_AgentProfileName := nf_AgentProfileName f; nf_RuntimeCommands := omitEmpty (nf_RuntimeCommands f);
  nf_BootstrapCommands := nf_BootstrapCommands f; nf_WorkspaceMode := nf_WorkspaceMode f;
  nf_GuestWorkspacePath := nf_GuestWorkspacePath f; nf_WorkspaceMountPath := nf_WorkspaceMountPath f;
  nf_WorkspaceSeeded := nf_WorkspaceSeeded f; nf_ImportHostAuth := nf_ImportHostAuth f;
  nf_AuthImportCompleted := nf_AuthImportCompleted f; nf_BootstrapCompleted := nf_BootstrapCompleted f;
  nf_BootstrapCompletedAt := nf_BootstrapCompletedAt f; nf_CreatedAt := nf_CreatedAt f; nf_UpdatedAt := nf_UpdatedAt f;
  nf_DeletedAt := nf_DeletedAt f |}.

Definition omitEmptyWire (w : nodeFileWire) : nodeFileWire := {|
  w_ID := w_ID w; w_Slug := w_Slug w; w_ConfigurationID := w_ConfigurationID w;
  w_DirectoryPath := w_DirectoryPath w; w_ParentNodeID := w_ParentNodeID w; w_Runtime := w_Runtime w;
  w_Provider := w_Provider w; w_SandboxName := w_SandboxName w; w_Image := w_Image w; w_VCPUs := w_VCPUs w;
  w_MemoryMiB := w_MemoryMiB w; w_DiskMiB := w_DiskMiB w; w_Environments := w_Environments w;
  w_Ports := w_Ports w; w_DaemonPortForwarding := w_DaemonPortForwarding w;
  w_LifecycleState := w_LifecycleState w; w_Status := w_Status w; w_AgentProfileName := w_AgentProfileName w;
  w_RuntimeCommands := omitEmpty (w_RuntimeCommands w); w_BootstrapCommands := w_BootstrapCommands w;
  w_WorkspaceMode := w_WorkspaceMode w; w_GuestWorkspacePath := w_GuestWorkspacePath w;
  w_WorkspaceMountPath := w_WorkspaceMountPath w; w_WorkspaceSeeded := w_WorkspaceSeeded w;
  w_ImportHostAuth := w_ImportHostAuth w; w_AuthImportCompleted := w_AuthImportCompleted w;
  w_BootstrapCompleted := w_BootstrapCompleted w; w_BootstrapCompletedAt := w_BootstrapCompletedAt w;
  w_CreatedAt := w_CreatedAt w; w_UpdatedAt := w_UpdatedAt w; w_DeletedAt := w_DeletedAt w |}.

(** What is relied on of yaml.v3: decoding inverts encoding, [omitempty] leaves
    out empty strings and lists. *)
Class NodeYAML := {
  yaml_node : forall w, yamlNode (yamlMarshal w) = Ok (omitEmptyWire w);
  yaml_stored : forall w, yamlStored (yamlMarshal w) = Ok {|
    sf_Status := if (w_Status w =? "")%string then None else Some (w_Status w);
    sf_LastReconciledAt := None; sf_LastRuntimeObservation := false;
    sf_LifecycleState := if (w_LifecycleState w =? "")%string then None else Some (w_LifecycleState w);
    sf_RuntimeCommands := templateKeys (w_RuntimeCommands w) |};
}.

(** What a record becomes when it is written and read back. *)
Definition saved (n : Node) : Node :=
  MkNode (omitEmptyFields (n_fields n)) "" (nodeLifecycleState n) (nodeLifecycleState n) None None.

End Records.
Arguments Node Observation : clear implicits.

(** ** Theorems *)

Lemma normalize_cases s :
  normalizeNodeLifecycleState s ∈ [""; NodeStatusCreated; NodeStatusProvisioning; NodeStatusRegistering; NodeStatusFailed;
    NodeStatusTerminating; NodeStatusTerminated]%string.
Proof.
  unfold normalizeNodeLifecycleState. cbv zeta. destruct (oneOf _ _) eqn:E; [|left]. right.
  apply existsb_exists in E as (x & Hx & E). apply String.eqb_eq in E as ->. by apply list_elem_of_In.
Qed.

Lemma normalize_idem s : normalizeNodeLifecycleState (normalizeNodeLifecycleState s) = normalizeNodeLifecycleState s.
Proof.
  pose proof (normalize_cases s) as H.
  repeat (apply elem_of_cons in H as [->|H]; [reflexivity|]). by apply not_elem_of_nil in H.
Qed.

Section Theorems.
Context {Observation : Type}.
Implicit Types n : Node Observation.

Lemma lifecycle_normal n : normalizeNodeLifecycleState (nodeLifecycleState n) = nodeLifecycleState n.
Proof.
  unfold nodeLifecycleState. cbv zeta. destruct (negb (_ =? _)%string); [apply normalize_idem|].
  destruct (negb _); [apply normalize_idem|reflexivity].
Qed.

Lemma lifecycle_saved n : nodeLifecycleState (saved n) = nodeLifecycleState n.
Proof.
  unfold nodeLifecycleState at 1. cbn [n_Status n_LifecycleState saved]. rewrite lifecycle_normal. cbv zeta.
  destruct (nodeLifecycleState n =? "")%string eqn:E; cbn [negb]; [|done]. apply String.eqb_eq in E. rewrite E.
  by destruct (n_BootstrapCompleted _).
Qed.

Lemma copy_idem c : copyCommandList (copyCommandList c) = copyCommandList c.
Proof. by destruct c as [[|x l]|]. Qed.

Lemma omitEmpty_idem t : omitEmpty (omitEmpty t) = omitEmpty t.
Proof. unfold omitEmpty. cbn. by rewrite !copy_idem. Qed.

Lemma saved_idem n : saved (saved n) = saved n.
Proof.
  unfold saved at 1. rewrite lifecycle_saved. unfold saved. f_equal. cbn [n_fields]. unfold omitEmptyFields. cbn.
  by rewrite omitEmpty_idem.
Qed.

Lemma wireNode_new n : wireNode (omitEmptyWire (newNodeFileWire n)) = saved n.
Proof.
  unfold wireNode, saved, omitEmptyFields. cbn. rewrite lifecycle_normal. cbv zeta.
  destruct (nodeLifecycleState n =? "")%string eqn:E; [|by rewrite E]. apply String.eqb_eq in E. by rewrite E.
Qed.

Lemma templateKeys_supported t : containsUnsupportedRuntimeCommandYAML (templateKeys t) = false.
Proof.
  unfold containsUnsupportedRuntimeCommandYAML. destruct (existsb _ _) eqn:E; [|done]. exfalso.
  apply existsb_exists in E as (key & Hin & Hkey). unfold templateKeys in Hin.
  apply in_map_iff in Hin as (field & <- & Hin). apply list_elem_of_In, list_elem_of_filter in Hin as [_ Hin].
  unfold orderedFields in Hin. repeat (apply elem_of_cons in Hin as [->|Hin]; [done|]). by apply not_elem_of_nil in Hin.
Qed.

(** ** What a round trip keeps *)

Definition sameCommands (c c' : commands) : Prop := listOf c = listOf c' /\ c' <> Some [].

(** The same templates, with nil for every list that is empty. *)
Definition sameTemplates (t t' : RuntimeCommandTemplates) : Prop :=
  Forall2 (fun x y => x.1 = y.1 /\ sameCommands x.2 y.2) (orderedFields t) (orderedFields t').

(** The same fields; the templates up to empty lists. *)
Definition storedAlike (f f' : nodeFields) : Prop :=
  nf_ID f' = nf_ID f /\
  nf_Slug f' = nf_Slug f /\
  nf_ConfigurationID f' = nf_ConfigurationID f /\
  nf_DirectoryPath f' = nf_DirectoryPath f /\
  nf_ParentNodeID f' = nf_ParentNodeID f /\
  nf_Runtime f' = nf_Runtime f /\
  nf_Provider f' = nf_Provider f /\
  nf_SandboxName f' = nf_SandboxName f /\
  nf_Image f' = nf_Image f /\
  nf_VCPUs f' = nf_VCPUs f /\
  nf_MemoryMiB f' = nf_MemoryMiB f /\
  nf_DiskMiB f' = nf_DiskMiB f /\
  nf_Environments f' = nf_Environments f /\
  nf_Ports f' = nf_Ports f /\
  nf_DaemonPortForwarding f' = nf_DaemonPortForwarding f /\
  nf_AgentProfileName f' = nf_AgentProfileName f /\
  sameTemplates (nf_RuntimeCommands f) (nf_RuntimeCommands f') /\
  nf_BootstrapCommands f' = nf_BootstrapCommands f /\
  nf_WorkspaceMode f' = nf_WorkspaceMode f /\
  nf_GuestWorkspacePath f' = nf_GuestWorkspacePath f /\
  nf_WorkspaceMountPath f' = nf_WorkspaceMountPath f /\
  nf_WorkspaceSeeded f' = nf_WorkspaceSeeded f /\
  nf_ImportHostAuth f' = nf_ImportHostAuth f /\
  nf_AuthImportCompleted f' = nf_AuthImportCompleted f /\
  nf_BootstrapCompleted f' = nf_BootstrapCompleted f /\
  nf_BootstrapCompletedAt f' = nf_BootstrapCompletedAt f /\
  nf_CreatedAt f' = nf_CreatedAt f /\
  nf_UpdatedAt f' = nf_UpdatedAt f /\
  nf_DeletedAt f' = nf_DeletedAt f.

Definition persistentStates : list string :=
  ["created"; "provisioning"; "registering"; "failed"; "terminating"; "terminated"].

Definition persists (s s' : string) : Prop := s' = TrimSpace (ToLower s) /\ s' ∈ persistentStates.

(** What a record with that status, lifecycle state and marker keeps of them. *)
Inductive persistentState (status lifecycle : string) (completed : bool) : string -> Prop :=
| KeepsStatus s : persists status s -> persistentState status lifecycle completed s
| KeepsLifecycle s : (forall x, ~ persists status x) -> completed = false -> persists lifecycle s ->
    persistentState status lifecycle completed s
| KeepsNone : (forall x, ~ persists status x) ->
    (completed = false -> forall x, ~ persists lifecycle x) ->
    persistentState status lifecycle completed "".

Lemma normalize_persists s :
  if decide (TrimSpace (ToLower s) ∈ persistentStates)
  then normalizeNodeLifecycleState s = TrimSpace (ToLower s)
  else normalizeNodeLifecycleState s = "".
Proof.
  unfold normalizeNodeLifecycleState. cbv zeta. destruct (decide _) as [Hin|Hin].
  - assert (oneOf (TrimSpace (ToLower s)) persistentStates = true) as H.
    { apply existsb_exists. exists (TrimSpace (ToLower s)). split; [by apply list_elem_of_In|].
      apply String.eqb_refl. }
    unfold persistentStates in H. unfold NodeStatusCreated, NodeStatusProvisioning, NodeStatusRegistering,
      NodeStatusFailed, NodeStatusTerminating, NodeStatusTerminated. by rewrite H.
  - destruct (oneOf _ _) eqn:E; [|done]. exfalso. apply Hin.
    apply existsb_exists in E as (x & Hx & E). apply String.eqb_eq in E as ->. by apply list_elem_of_In.
Qed.

Lemma normalize_kept s :
  (persists s (normalizeNodeLifecycleState s) /\ normalizeNodeLifecycleState s <> "") \/
  ((forall x, ~ persists s x) /\ normalizeNodeLifecycleState s = "").
Proof.
  pose proof (normalize_persists s) as H. destruct (decide _) as [Hin|Hin].
  - left. rewrite H. split; [done|]. intros E. rewrite E in Hin.
    repeat (apply elem_of_cons in Hin as [Hin|Hin]; [done|]). by apply not_elem_of_nil in Hin.
  - right. split; [|done]. by intros x [-> ?].
Qed.

Lemma lifecycle_persistent n :
  persistentState (n_Status n) (n_LifecycleState n) (n_BootstrapCompleted n) (nodeLifecycleState n).
Proof.
  unfold nodeLifecycleState. cbv zeta. destruct (normalize_kept (n_Status n)) as [[H1 H2]|[H1 H2]].
  - apply String.eqb_neq in H2. rewrite H2. by constructor 1.
  - rewrite H2. cbn. destruct (n_BootstrapCompleted n); cbn; [by constructor 3|].
    destruct (normalize_kept (n_LifecycleState n)) as [[H3 H4]|[H3 H4]]; [by constructor 2|].
    rewrite H4. by constructor 3.
Qed.

Lemma copy_same c : sameCommands c (copyCommandList c).
Proof. by destruct c as [[|x l]|]. Qed.

Lemma omitted_alike f : storedAlike f (omitEmptyFields f).
Proof.
  unfold storedAlike. split_and!; try done. unfold sameTemplates, orderedFields. cbn.
  repeat (apply Forall2_cons; split; [split; [done|apply copy_same]|]). constructor.
Qed.

Section YAML.
Context (yamlMarshal : nodeFileWire -> bytes) (yamlNode : bytes -> result nodeFileWire)
        (yamlStored : bytes -> result storedFields).
Context `{!NodeYAML yamlMarshal yamlNode yamlStored}.

Lemma read_written n :
  blank (n_ID n) = false ->
  readNodeRecord yamlNode (Some (nodeYAMLBytes yamlMarshal n)) = Ok (saved n).
Proof.
  intros Hid. unfold readNodeRecord, nodeYAMLBytes. rewrite (yaml_node yamlMarshal yamlNode yamlStored).
  change (w_ID (omitEmptyWire (newNodeFileWire n))) with (n_ID n). by rewrite Hid, wireNode_new.
Qed.

Lemma written_fresh n : nodeFileNeedsRefresh yamlStored (nodeYAMLBytes yamlMarshal n) (saved n) = false.
Proof.
  unfold nodeFileNeedsRefresh, nodeYAMLBytes. rewrite (yaml_stored yamlMarshal yamlNode yamlStored).
  cbn [newNodeFileWire w_RuntimeCommands w_LifecycleState w_Status sf_RuntimeCommands sf_Status sf_LastReconciledAt sf_LastRuntimeObservation sf_LifecycleState].
  rewrite templateKeys_supported, lifecycle_saved. cbn. destruct (nodeLifecycleState n =? "")%string eqn:E; [done|].
  by rewrite String.eqb_refl.
Qed.

(** C35: a node record that is written and read back is the same node in every
    one of its 29 stored fields (empty command lists become nil).  Its status and
    its lifecycle state are the persistent state of the node: its status where
    that, trimmed and in lower case, is one of created, provisioning,
    registering, failed, terminating and terminated; otherwise its lifecycle
    state, under the same condition, if the bootstrap is not completed; otherwise
    none.  The configuration's slug and the observations are dropped.  Writing and
    reading the result again changes nothing, and the repair pass leaves the
    written file alone. *)
Theorem record_roundtrip n :
  blank (n_ID n) = false ->
  exists n', readNodeRecord yamlNode (Some (nodeYAMLBytes yamlMarshal n)) = Ok n' /\
    storedAlike (n_fields n) (n_fields n') /\
    persistentState (n_Status n) (n_LifecycleState n) (n_BootstrapCompleted n) (n_Status n') /\
    n_LifecycleState n' = n_Status n' /\ n_ConfigurationSlug n' = "" /\
    n_LastReconciledAt n' = None /\ n_LastRuntimeObservation n' = None /\
    readNodeRecord yamlNode (Some (nodeYAMLBytes yamlMarshal n')) = Ok n' /\
    nodeFileNeedsRefresh yamlStored (nodeYAMLBytes yamlMarshal n) n' = false.
Proof.
  intros Hid. exists (saved n). split; [by apply read_written|]. split; [apply omitted_alike|].
  split; [apply lifecycle_persistent|]. do 4 (split; [done|]). split; [|apply written_fresh].
  rewrite read_written by done. by rewrite saved_idem.
Qed.

End YAML.
End Theorems.

(** ** A sample encoding of records *)

Module Sample.

(** A record is rows of texts, numbers and byte strings. *)
Abbreviation leaf := (string + (Z + list Z))%type.
Definition flat : Type := list (list leaf).

Definition texts (l : list string) : list leaf := map inl l.
Definition numbers (l : list Z) : list leaf := map (fun z => inr (inl z)) l.
Definition cell (c : commands) : list leaf :=
  match c with None => [] | Some l => inr (inl 0) :: map (fun b => inr (inr b)) l end.
Definition flag (b : bool) : Z := if b then 1 else 0.
Definition present (o : option Z) : list leaf := match o with None => [] | Some z => [inr (inl z)] end.

Definition readTexts (l : list leaf) : list string := omap (fun x => match x with inl s => Some s | _ => None end) l.
Definition readNumbers (l : list leaf) : list Z := omap (fun x => match x with inr (inl z) => Some z | _ => None end) l.
Definition readCell (l : list leaf) : commands :=
  match l with [] => None | _ :: l => Some (omap (fun x => match x with inr (inr b) => Some b | _ => None end) l) end.
Definition readPresent (l : list leaf) : option Z := match l with inr (inl z) :: _ => Some z | _ => None end.

Definition flatten (w : nodeFileWire) : flat :=
  let t := omitEmpty (w_RuntimeCommands w) in
  [texts [w_LifecycleState w; w_Status w; w_ID w; w_Slug w; w_ConfigurationID w; w_DirectoryPath w; w_ParentNodeID w;
    w_Runtime w; w_Provider w; w_SandboxName w; w_Image w; w_AgentProfileName w; w_WorkspaceMode w;
    w_GuestWorkspacePath w; w_WorkspaceMountPath w];
   texts (w_Environments w); texts (w_Ports w); texts (w_BootstrapCommands w);
   numbers (map flag [w_DaemonPortForwarding w; w_WorkspaceSeeded w; w_ImportHostAuth w; w_AuthImportCompleted w; w_BootstrapCompleted w]);
   numbers [w_VCPUs w; w_MemoryMiB w; w_DiskMiB w; w_CreatedAt w; w_UpdatedAt w];
   present (w_BootstrapCompletedAt w); present (w_DeletedAt w)] ++
  map (fun field => cell field.2) (orderedFields t).

Definition unflatten (x : flat) : option nodeFileWire :=
  match x with
  | [strings; envs; ports; boots; flags; zs; bootedAt; deleted; c1; c2; c3; c4; c5; c6; c7; c8; c9; c10; c11; c12] =>
      match readTexts strings, readNumbers flags, readNumbers zs with
      | [ls; st; id; slug; conf; dir; parent; rt; prov; sandbox; image; agent; mode; guest; mount],
        [fwd; seeded; auth; authDone; booted], [cpus; mem; disk; created; updated] =>
          Some (Wire id slug conf dir parent rt prov sandbox image cpus mem disk (readTexts envs) (readTexts ports)
            (fwd =? 1) ls st agent
            (Templates (readCell c1) (readCell c2) (readCell c3) (readCell c4) (readCell c5) (readCell c6) (readCell c7)
              (readCell c8) (readCell c9) (readCell c10) (readCell c11) (readCell c12))
            (readTexts boots) mode guest mount (seeded =? 1) (auth =? 1) (authDone =? 1) (booted =? 1)
            (readPresent bootedAt) created updated (readPresent deleted))
      | _, _, _ => None
      end
  | _ => None
  end.

Lemma read_texts l : readTexts (texts l) = l.
Proof. unfold readTexts, texts. induction l as [|s l IH]; [done|]. cbn in *. by rewrite IH. Qed.
Lemma read_cell c : readCell (cell c) = c.
Proof.
  destruct c as [l|]; [|done]. unfold readCell, cell. f_equal. induction l as [|b l IH]; [done|]. cbn in *. by rewrite IH.
Qed.
Lemma read_present o : readPresent (present o) = o.
Proof. by destruct o. Qed.
Lemma flag_flag b : (flag b =? 1) = b.
Proof. by destruct b. Qed.

Lemma unflatten_flatten w : unflatten (flatten w) = Some (omitEmptyWire w).
Proof.
  unfold flatten. set (t := omitEmpty (w_RuntimeCommands w)). cbn [orderedFields map app snd unflatten].
  rewrite read_texts. cbn [numbers map readNumbers omap list_omap]. rewrite !read_texts, !read_cell, !read_present, !flag_flag.
  by destruct w.
Qed.

Definition yamlMarshal (w : nodeFileWire) : bytes := put (fun x : flat => x) (flatten w).
Definition yamlNode (data : bytes) : result nodeFileWire :=
  match get (fun x : flat => x) data with
  | Some x => match unflatten x with Some w => Ok w | None => Err (ENew "fields") end
  | None => Err (ENew "syntax")
  end.
Definition yamlStored (data : bytes) : result storedFields :=
  match yamlNode data with
  | Err e => Err e
  | Ok w => Ok {|
      sf_Status := if (w_Status w =? "")%string then None else Some (w_Status w);
      sf_LastReconciledAt := None; sf_LastRuntimeObservation := false;
      sf_LifecycleState := if (w_LifecycleState w =? "")%string then None else Some (w_LifecycleState w);
      sf_RuntimeCommands := templateKeys (w_RuntimeCommands w) |}
  end.

Lemma node_marshal w :
  yamlNode (yamlMarshal w) = Ok (omitEmptyWire w).
Proof.
  unfold yamlNode, yamlMarshal. rewrite (get_put (fun x : flat => x) (fun x => x) (fun x => eq_refl)).
  by rewrite unflatten_flatten.
Qed.

Lemma templateKeys_omit t : templateKeys (omitEmpty t) = templateKeys t.
Proof.
  assert (H : forall k c l, map fst (filter (fun field : string * commands => listOf field.2 <> []) ((k, copyCommandList c) :: l)) =
    map fst (filter (fun field : string * commands => listOf field.2 <> []) ((k, c) :: l))).
  { intros k [[|x c]|] l; done. }
  assert (Hc : forall k c l l', map fst (filter (fun field : string * commands => listOf field.2 <> []) l) =
      map fst (filter (fun field : string * commands => listOf field.2 <> []) l') ->
    map fst (filter (fun field : string * commands => listOf field.2 <> []) ((k, copyCommandList c) :: l)) =
    map fst (filter (fun field : string * commands => listOf field.2 <> []) ((k, c) :: l'))).
  { intros k c l l' E. rewrite H, !filter_cons. destruct (decide _); simpl; by rewrite E. }
  unfold templateKeys, orderedFields, omitEmpty. cbn [t_Version t_List t_Create t_Start t_Stop t_Delete t_Clone t_Bootstrap
    t_WorkspaceSeedPrepare t_Copy t_ShellExec t_ShellLogin]. repeat apply Hc. done.
Qed.

#[global] Instance yaml : NodeYAML yamlMarshal yamlNode yamlStored.
Proof.
  constructor; [apply node_marshal|]. intros w. unfold yamlStored. rewrite node_marshal.
  change (w_RuntimeCommands (omitEmptyWire w)) with (omitEmpty (w_RuntimeCommands w)).
  by rewrite templateKeys_omit.
Qed.

Definition fields (id slug sandbox : string) (created : time) (deleted : option time) : nodeFields :=
  Fields id slug "" "/w" "" "vm" "lima" sandbox "img" 2 4096 25600 [] [] true "codex" noTemplates [] "mounted" "/w" "/w"
    false false false false None created created deleted.

Definition node (id slug sandbox : string) (status : NodeStatus) (created : time) (deleted : option time) : Node unit :=
  MkNode (fields id slug sandbox created deleted) "" status "" None None.

End Sample.

Lemma record_roundtrip_witness :
  let n := Sample.node "a1" "web" "web" " Failed" 5 None in
  exists n' : Node unit, readNodeRecord Sample.yamlNode (Some (nodeYAMLBytes Sample.yamlMarshal n)) = Ok n' /\
    storedAlike (n_fields n) (n_fields n') /\
    persistentState (n_Status n) (n_LifecycleState n) (n_BootstrapCompleted n) (n_Status n') /\
    n_LifecycleState n' = n_Status n' /\ n_ConfigurationSlug n' = "" /\
    n_LastReconciledAt n' = None /\ n_LastRuntimeObservation n' = None /\
    readNodeRecord Sample.yamlNode (Some (nodeYAMLBytes Sample.yamlMarshal n')) = Ok n' /\
    nodeFileNeedsRefresh Sample.yamlStored (nodeYAMLBytes Sample.yamlMarshal n) n' = false.
Proof.
  apply (record_roundtrip Sample.yamlMarshal Sample.yamlNode Sample.yamlStored
    (Sample.node "a1" "web" "web" " Failed" 5 None)).
  reflexivity.
Defined.
