(* ===== verification/MetadataCache.v ===== *)
(** * The metadata parse cache

    [metadataCache] of [internal/codelima/store.go] with its use by [NodeByID] and
    [ConfigurationByID]: a record is served from the cache while a fresh stat
    reports the identity it was read under.  A call samples the identity, looks
    the record up, reads the file and stores what it parsed in separate steps, in
    between which other calls run and files are replaced; [cacheStep] is one of
    these steps.  Every answer is the parse of contents the file had during the
    call ([answers_current]), if a path never sees an identity again.  A file is
    absent or regular; records are values, so copying them is not modelled. *)

From S2P Require Import Prelude.
Local Open Scope Z_scope.

(** What [os.FileInfo] gives of a file: size, modification time, and the inode
    that [os.SameFile] compares. *)
Record FileInfo := Info {
  fi_Size : Z;
  fi_ModTime : time;
  fi_Inode : Z;
}.

#[export] Instance FileInfo_eq_dec : EqDecision FileInfo.
Proof. solve_decision. Defined.

Definition sameMetadataFile (cached current : FileInfo) : bool :=
  (fi_Size cached =? fi_Size current) && (fi_ModTime cached =? fi_ModTime current) && (fi_Inode cached =? fi_Inode current).

Lemma sameMetadataFile_spec a b : sameMetadataFile a b = true <-> a = b.
Proof.
  unfold sameMetadataFile. rewrite !andb_true_iff, !Z.eqb_eq. destruct a, b. simpl. split; [by intros [[-> ->] ->]|by intros [= -> -> ->]].
Qed.

Section Cache.
Context {T : Type} (read : option bytes -> result T).

(** ** The cache *)

Abbreviation metadataCache := (gmap string (FileInfo * T)).

Definition lookup_ (path : string) (info : option FileInfo) (c : metadataCache) : option T :=
  match info with
  | None => None
  | Some info =>
      match c !! path with
      | Some (cached, value) => if sameMetadataFile cached info then Some value else None
      | None => None
      end
  end.

Definition store (path : string) (info : option FileInfo) (value : T) (c : metadataCache) : metadataCache :=
  match info with None => c | Some info => <[path := (info, value)]> c end.

Definition forget (path : string) (c : metadataCache) : metadataCache := delete path c.

(** ** Calls *)

(** How far a call of [NodeByID] is. *)
Inductive phase :=
| Sampled
| Missed
| Parsed (r : result T)
| Answered (r : result T).

Record call := Call {
  cl_path : string;
  cl_info : option FileInfo;
  cl_phase : phase;
  cl_seen : list (option bytes);   (* the contents the file had during the call *)
}.

Record world := World {
  files : gmap string (FileInfo * bytes);
  cache : metadataCache;
  calls : gmap nat call;
  used : string -> list FileInfo;   (* the identities a path has had *)
}.

Definition contents (path : string) (w : world) : option bytes := snd <$> files w !! path.
(** [statMetadataFile] *)
Definition statMetadataFile (path : string) (w : world) : option FileInfo := fst <$> files w !! path.

Definition setCall (i : nat) (c : call) (w : world) : world :=
  {| files := files w; cache := cache w; calls := <[i := c]> (calls w); used := used w |}.
Definition setCache (c : metadataCache) (w : world) : world :=
  {| files := files w; cache := c; calls := calls w; used := used w |}.
Definition advance (p : phase) (c : call) : call := Call (cl_path c) (cl_info c) p (cl_seen c).

Definition open (c : call) : bool := match cl_phase c with Answered _ => false | _ => true end.

(** Every call still open on the path sees the new contents. *)
Definition witnessed (path : string) (data : option bytes) (c : call) : call :=
  if open c && (cl_path c =? path)%string then Call (cl_path c) (cl_info c) (cl_phase c) (data :: cl_seen c) else c.

Inductive action :=
| Begin (i : nat) (path : string)
| Look (i : nat)
| Read (i : nat)
| Finish (i : nat)
| Replace (path : string) (info : FileInfo) (data : bytes)
| Remove (path : string)
| Forget (path : string).

Definition cacheStep (a : action) (w : world) : option world :=
  match a with
  | Begin i path =>
      match calls w !! i with
      | Some _ => None
      | None => Some (setCall i (Call path (statMetadataFile path w) Sampled [contents path w]) w)
      end
  | Look i =>
      match calls w !! i with
      | Some c =>
          match cl_phase c with
          | Sampled =>
              match lookup_ (cl_path c) (cl_info c) (cache w) with
              | Some v => Some (setCall i (advance (Answered (Ok v)) c) w)
              | None => Some (setCall i (advance Missed c) w)
              end
          | _ => None
          end
      | None => None
      end
  | Read i =>
      match calls w !! i with
      | Some c =>
          match cl_phase c with
          | Missed => Some (setCall i (advance (Parsed (read (contents (cl_path c) w))) c) w)
          | _ => None
          end
      | None => None
      end
  | Finish i =>
      match calls w !! i with
      | Some c =>
          match cl_phase c with
          | Parsed (Ok v) =>
              Some (setCache (store (cl_path c) (cl_info c) v (cache w)) (setCall i (advance (Answered (Ok v)) c) w))
          | Parsed (Err e) => Some (setCache (forget (cl_path c) (cache w)) (setCall i (advance (Answered (Err e)) c) w))
          | _ => None
          end
      | None => None
      end
  | Replace path info data => Some {|
      files := <[path := (info, data)]> (files w); cache := cache w; calls := witnessed path (Some data) <$> calls w;
      used := fun p => if (p =? path)%string then info :: used w p else used w p |}
  | Remove path => Some {|
      files := delete path (files w); cache := cache w; calls := witnessed path None <$> calls w; used := used w |}
  | Forget path => Some (setCache (forget path (cache w)) w)
  end.

(** A replacement brings an identity the path never had. *)
Definition freshIdentity (a : action) (w : world) : bool :=
  match a with Replace path info _ => bool_decide (info ∉ used w path) | _ => true end.

Fixpoint runSteps (l : list action) (w : world) : option world :=
  match l with [] => Some w | a :: l => cacheStep a w ≫= runSteps l end.

Fixpoint freshIdentities (l : list action) (w : world) : bool :=
  match l with
  | [] => true
  | a :: l => freshIdentity a w && match cacheStep a w with Some w => freshIdentities l w | None => true end
  end.

Definition emptyWorld : world := World ∅ ∅ ∅ (fun _ => []).

(** ** The invariant *)

(** A record read under an identity is what the file has while it keeps that
    identity, and what every call that sampled it has seen. *)
Definition good (path : string) (info : FileInfo) (r : result T) (w : world) : Prop :=
  info ∈ used w path /\
  (statMetadataFile path w = Some info -> read (contents path w) = r) /\
  (forall i c, calls w !! i = Some c -> open c = true -> cl_path c = path -> cl_info c = Some info ->
     exists d, d ∈ cl_seen c /\ read d = r).

Definition callOk (c : call) (w : world) : Prop :=
  (open c = true -> contents (cl_path c) w ∈ cl_seen c) /\
  (forall info, cl_info c = Some info -> info ∈ used w (cl_path c)) /\
  match cl_phase c with
  | Sampled | Missed => True
  | Parsed r => (exists d, d ∈ cl_seen c /\ read d = r) /\ (forall info, cl_info c = Some info -> good (cl_path c) info r w)
  | Answered r => exists d, d ∈ cl_seen c /\ read d = r
  end.

Definition winv (w : world) : Prop :=
  (forall path info data, files w !! path = Some (info, data) -> info ∈ used w path) /\
  (forall path info v, cache w !! path = Some (info, v) -> good path info (Ok v) w) /\
  (forall i c, calls w !! i = Some c -> callOk c w).

(** A call that gets further does not matter to what is known of a file. *)
Definition extends (c c' : call) : Prop :=
  cl_path c' = cl_path c /\ cl_info c' = cl_info c /\ cl_seen c' = cl_seen c /\ open c = true.

Lemma good_setCall path info r i c c' w :
  calls w !! i = Some c -> extends c c' -> good path info r w -> good path info r (setCall i c' w).
Proof.
  intros Hi (Hp & Hinfo & Hs & Ho) (G1 & G2 & G3). split; [exact G1|]. split; [exact G2|].
  intros j d Hj Hopen Hpath Hd. cbn in Hj. apply lookup_insert_Some in Hj as [[<- <-]|[_ Hj]]; [|by eapply G3].
  rewrite Hs. eapply (G3 i c); congruence.
Qed.

Lemma callOk_setCall d i c c' w : calls w !! i = Some c -> extends c c' -> callOk d w -> callOk d (setCall i c' w).
Proof.
  intros Hi He (C1 & C2 & C3). split; [exact C1|]. split; [exact C2|]. destruct (cl_phase d); try done.
  destruct C3 as [C3 C4]. split; [exact C3|]. intros info Hd. eapply good_setCall; [done..|]. by apply C4.
Qed.

Lemma winv_setCall i c c' w :
  calls w !! i = Some c -> extends c c' -> winv w -> callOk c' (setCall i c' w) -> winv (setCall i c' w).
Proof.
  intros Hi He (W1 & W2 & W3) Hc. split; [exact W1|]. split.
  - intros path info v Hv. eapply good_setCall; [done..|]. by apply W2.
  - intros j d Hj. cbn in Hj. apply lookup_insert_Some in Hj as [[<- <-]|[_ Hj]]; [exact Hc|].
    eapply callOk_setCall; [done..|]. by eapply W3.
Qed.

Lemma winv_setCache c w :
  (forall path info v, c !! path = Some (info, v) -> good path info (Ok v) w) -> winv w -> winv (setCache c w).
Proof. intros Hc (W1 & _ & W3). split; [exact W1|]. split; [exact Hc|exact W3]. Qed.

(** ** Replaced files *)

Section Change.
Context (w w' : world) (path : string) (data : option bytes).
Hypothesis change_calls : calls w' = witnessed path data <$> calls w.
Hypothesis change_other : forall p, p <> path -> files w' !! p = files w !! p.
Hypothesis change_data : contents path w' = data.
Hypothesis change_info : forall info, info ∈ used w path -> statMetadataFile path w' <> Some info.
Hypothesis change_used : forall p info, info ∈ used w p -> info ∈ used w' p.

Lemma seen_change c d : d ∈ cl_seen c -> d ∈ cl_seen (witnessed path data c).
Proof. unfold witnessed. destruct (_ && _); [by right|done]. Qed.

Lemma witnessed_same c :
  cl_path (witnessed path data c) = cl_path c /\ cl_info (witnessed path data c) = cl_info c /\
  cl_phase (witnessed path data c) = cl_phase c.
Proof. unfold witnessed. by destruct (_ && _). Qed.

Lemma witnessed_open c : open (witnessed path data c) = open c.
Proof. unfold open. by destruct (witnessed_same c) as (_ & _ & ->). Qed.

Lemma good_change p info r : good p info r w -> good p info r w'.
Proof.
  intros (G1 & G2 & G3). split; [by apply change_used|]. split.
  - destruct (decide (p = path)) as [->|Hne]; [by intros H; destruct (change_info info G1 H)|].
    unfold statMetadataFile, contents. by rewrite change_other.
  - intros i c. rewrite change_calls, lookup_fmap_Some. intros (c0 & <- & Hi).
    destruct (witnessed_same c0) as (-> & -> & _). rewrite witnessed_open. intros Ho Hp Hinfo.
    destruct (G3 i c0 Hi Ho Hp Hinfo) as (d & Hd & Hr). exists d. split; [by apply seen_change|done].
Qed.

Lemma callOk_change c : callOk c w -> callOk (witnessed path data c) w'.
Proof.
  intros (C1 & C2 & C3). unfold callOk. rewrite witnessed_open.
  destruct (witnessed_same c) as (-> & -> & ->). split; [|split].
  - intros Ho. unfold witnessed. rewrite Ho. simpl.
    destruct (String.eqb_spec (cl_path c) path) as [->|Hne]; [rewrite change_data; left|].
    unfold contents in *. rewrite change_other by done. by apply C1.
  - intros info Hinfo. by apply change_used, C2.
  - destruct (cl_phase c); try done.
    + destruct C3 as [(d & Hd & Hr) C4]. split; [exists d; split; [by apply seen_change|done]|].
      intros info Hinfo. by apply good_change, C4.
    + destruct C3 as (d & Hd & Hr). exists d. split; [by apply seen_change|done].
Qed.

Lemma winv_change :
  cache w' = cache w -> (forall info d, files w' !! path = Some (info, d) -> info ∈ used w' path) -> winv w -> winv w'.
Proof.
  intros Hc Hf (W1 & W2 & W3). split; [|split].
  - intros p info d Hp. destruct (decide (p = path)) as [->|Hne]; [by eapply Hf|]. rewrite change_other in Hp by done.
    by eapply change_used, W1.
  - intros p info v. rewrite Hc. intros Hv. by apply good_change, W2.
  - intros i c. rewrite change_calls, lookup_fmap_Some. intros (c0 & <- & Hi). by eapply callOk_change, W3.
Qed.
End Change.

(** ** Every step *)

Lemma begin_winv i path w :
  calls w !! i = None -> winv w -> winv (setCall i (Call path (statMetadataFile path w) Sampled [contents path w]) w).
Proof.
  intros Hi (W1 & W2 & W3).
  assert (Hgood : forall p info r, good p info r w ->
    good p info r (setCall i (Call path (statMetadataFile path w) Sampled [contents path w]) w)).
  { intros p info r (G1 & G2 & G3). split; [exact G1|]. split; [exact G2|].
    intros j d Hj Ho Hp Hd. cbn in Hj. apply lookup_insert_Some in Hj as [[<- <-]|[_ Hj]]; [|by eapply G3].
    cbn in Hp, Hd. subst p. exists (contents path w). split; [left|by apply G2]. }
  split; [exact W1|]. split; [intros p info v Hv; by apply Hgood, W2|].
  intros j d Hj. cbn in Hj. apply lookup_insert_Some in Hj as [[<- <-]|[_ Hj]].
  - split; [intros _; left|]. split; [|done]. cbn. unfold statMetadataFile. intros info Hs.
    apply fmap_Some in Hs as ([info' data] & Hs & ->). by eapply W1.
  - destruct (W3 j d Hj) as (C1 & C2 & C3). split; [exact C1|]. split; [exact C2|]. destruct (cl_phase d); try done.
    destruct C3 as [C3 C4]. split; [exact C3|]. intros info Hd. by apply Hgood, C4.
Qed.

(** What a call that reads the file finds is known of the identity it sampled. *)
Lemma read_good i c w :
  winv w -> calls w !! i = Some c -> cl_phase c = Missed -> forall info, cl_info c = Some info ->
  good (cl_path c) info (read (contents (cl_path c) w)) w.
Proof.
  intros (W1 & W2 & W3) Hi Hph info Hinfo. destruct (W3 i c Hi) as (_ & C2 & _).
  split; [by apply C2|]. split; [done|]. intros j d Hj Ho Hp _. exists (contents (cl_path c) w). split; [|done].
  rewrite <-Hp. by apply (W3 j d Hj).
Qed.

Lemma advance_extends p c : open c = true -> extends c (advance p c).
Proof. done. Qed.

Lemma advance_winv i c p w :
  winv w -> calls w !! i = Some c -> open c = true -> callOk (advance p c) w -> winv (setCall i (advance p c) w).
Proof.
  intros W Hi Ho Hc. eapply winv_setCall; [done|by apply advance_extends|done|].
  eapply callOk_setCall; [done|by apply advance_extends|done].
Qed.

Lemma cacheStep_winv a w w' : winv w -> freshIdentity a w = true -> cacheStep a w = Some w' -> winv w'.
Proof.
  intros W Hf Hs. pose proof W as (W1 & W2 & W3).
  destruct a as [i path|i|i|i|path info data|path|path]; cbn in Hs.
  - destruct (calls w !! i) eqn:Hi; [done|]. injection Hs as <-. by apply begin_winv.
  - destruct (calls w !! i) as [c|] eqn:Hi; [|done]. destruct (cl_phase c) eqn:Hph; try done.
    assert (Ho : open c = true) by (unfold open; by rewrite Hph).
    destruct (W3 i c Hi) as (C1 & C2 & _).
    destruct (lookup_ _ _ _) as [v|] eqn:Hl; injection Hs as <-; apply advance_winv; try done;
      [|split; [intros _; by apply C1|by split]].
    split; [done|]. split; [exact C2|]. cbn. unfold lookup_ in Hl.
    destruct (cl_info c) as [info|] eqn:Hinfo; [|done]. destruct (cache w !! cl_path c) as [[cached v']|] eqn:Hc; [|done].
    destruct (sameMetadataFile cached info) eqn:Hsame; [|done]. apply sameMetadataFile_spec in Hsame as ->. injection Hl as ->.
    destruct (W2 _ _ _ Hc) as (_ & _ & G3). by eapply G3.
  - destruct (calls w !! i) as [c|] eqn:Hi; [|done]. destruct (cl_phase c) eqn:Hph; try done. injection Hs as <-.
    assert (Ho : open c = true) by (unfold open; by rewrite Hph). apply advance_winv; try done.
    destruct (W3 i c Hi) as (C1 & C2 & _). split; [intros _; by apply C1|]. split; [exact C2|]. cbn. split.
    + exists (contents (cl_path c) w). split; [by apply C1|done].
    + by eapply read_good.
  - destruct (calls w !! i) as [c|] eqn:Hi; [|done]. destruct (cl_phase c) as [| |r|] eqn:Hph; try done.
    assert (Ho : open c = true) by (unfold open; by rewrite Hph).
    destruct (W3 i c Hi) as (C1 & C2 & C3). rewrite Hph in C3. destruct C3 as [C3 C4].
    assert (Hw : winv (setCall i (advance (Answered r) c) w)) by (by apply advance_winv).
    destruct r as [v|e]; injection Hs as <-; apply winv_setCache; try done; destruct Hw as (_ & Hw & _).
    + intros p info' v'. unfold store. destruct (cl_info c) as [info|] eqn:Hinfo; [|by apply Hw].
      intros [[<- [= <- <-]]|[_ Hp]]%lookup_insert_Some; [|by apply Hw].
      eapply good_setCall; [done|by apply advance_extends|]. by apply C4.
    + unfold forget. intros p info v [_ Hp]%lookup_delete_Some. by apply Hw.
  - injection Hs as <-. eapply (winv_change w _ path (Some data)); try done; cbn.
    + intros p Hne. by rewrite lookup_insert_ne.
    + unfold contents. cbn. by rewrite lookup_insert_eq.
    + intros info' Hin. unfold statMetadataFile. cbn. rewrite lookup_insert_eq. cbn. intros [= ->]. cbn in Hf. by apply bool_decide_eq_true in Hf.
    + intros p info' Hin. destruct (_ =? _)%string; [by right|done].
    + intros info' d. rewrite lookup_insert_eq. intros [= <- <-]. rewrite String.eqb_refl. left.
  - injection Hs as <-. eapply (winv_change w _ path None); try done; cbn.
    + intros p Hne. by rewrite lookup_delete_ne.
    + unfold contents. cbn. by rewrite lookup_delete_eq.
    + intros info' _. unfold statMetadataFile. cbn. by rewrite lookup_delete_eq.
    + intros info' d. by rewrite lookup_delete_eq.
  - injection Hs as <-. apply winv_setCache; [|done]. unfold forget. intros p info v [_ Hp]%lookup_delete_Some. by apply W2.
Qed.

Lemma runSteps_winv l w w' : winv w -> freshIdentities l w = true -> runSteps l w = Some w' -> winv w'.
Proof.
  revert w. induction l as [|a l IH]; intros w W Hf Hr; cbn in Hr; [by injection Hr as <-|].
  cbn in Hf. apply andb_true_iff in Hf as [Hf Hfs]. destruct (cacheStep a w) as [w1|] eqn:Hs; [|done]. cbn in Hr. apply (IH w1); try done. by eapply cacheStep_winv.
Qed.

Lemma emptyWorld_winv : winv emptyWorld.
Proof. split; [|split]; intros *; cbn; by rewrite lookup_empty. Qed.

(** C34: whatever calls, renames and invalidations interleave, every answer of
    [NodeByID] is the parse of contents its file had between the moment the call
    began and the moment it answered, provided a path is never given an
    identity (size, modification time, inode) it has had before: the cache never
    serves a record that was already replaced when the call began. *)
Theorem answers_current l w i c r :
  freshIdentities l emptyWorld = true -> runSteps l emptyWorld = Some w -> calls w !! i = Some c -> cl_phase c = Answered r ->
  exists data, data ∈ cl_seen c /\ read data = r.
Proof.
  intros Hf Hr Hi Hph. destruct (runSteps_winv l _ _ emptyWorld_winv Hf Hr) as (_ & _ & W3).
  destruct (W3 i c Hi) as (_ & _ & C3). by rewrite Hph in C3.
Qed.

End Cache.

(** ** A concrete run *)

Module CacheSample.

Definition parse (data : option bytes) : result bytes :=
  match data with Some d => Ok d | None => Err (notFound "node not found") end.

Definition old : bytes := [97].
Definition new : bytes := [98].
Definition path : string := "nodes/n1/node.yaml".

(** Call 0 reads while the file is replaced; call 1 finds what call 0 stored. *)
Definition overlapping : list action :=
  [Replace path (Info 1 5 10) old; Begin 0 path; Look 0; Replace path (Info 1 5 11) new; Read 0; Finish 0;
   Begin 1 path; Look 1; Read 1; Finish 1; Begin 2 path; Look 2].

(** The inode freed by one rename is given to a later one of the same size
    within the timestamp's resolution. *)
Definition reused : list action :=
  [Replace path (Info 1 5 10) old; Begin 0 path; Look 0; Read 0; Finish 0;
   Replace path (Info 1 5 11) old; Replace path (Info 1 5 10) new; Begin 1 path; Look 1].

Definition answer (i : nat) (w : world) : option (result bytes * list (option bytes)) :=
  c ← calls w !! i; match cl_phase c with Answered r => Some (r, cl_seen c) | _ => None end.

Lemma overlapping_answers :
  runSteps parse overlapping emptyWorld ≫= answer 2 = Some (Ok new, [Some new]) /\
  runSteps parse overlapping emptyWorld ≫= answer 0 = Some (Ok new, [Some new; Some old]).
Proof. split; vm_compute; reflexivity. Qed.

(** With a reused identity the cache serves a record that was replaced before
    the call began. *)
Lemma reused_stale : runSteps parse reused emptyWorld ≫= answer 1 = Some (Ok old, [Some new]).
Proof. vm_compute. reflexivity. Qed.

Lemma overlapping_fresh : freshIdentities parse overlapping emptyWorld = true.
Proof. vm_compute. reflexivity. Qed.

Definition finished : world := default emptyWorld (runSteps parse overlapping emptyWorld).

Lemma overlapping_defined : bool_decide (is_Some (runSteps parse overlapping emptyWorld)) = true.
Proof. vm_compute. reflexivity. Qed.

Lemma overlapping_runs : runSteps parse overlapping emptyWorld = Some finished.
Proof.
  pose proof overlapping_defined as [w Hw]%bool_decide_eq_true. unfold finished. by rewrite Hw.
Qed.

Lemma overlapping_call : calls finished !! 0%nat = Some (Call path (Some (Info 1 5 10)) (Answered (Ok new)) [Some new; Some old]).
Proof. vm_compute. reflexivity. Qed.
End CacheSample.

(** The call that was overtaken by a replacement answers the new record. *)
Lemma answers_current_witness :
  exists data, data ∈ [Some CacheSample.new; Some CacheSample.old] /\ CacheSample.parse data = Ok CacheSample.new.
Proof.
  exact (answers_current CacheSample.parse _ _ _ _ _ CacheSample.overlapping_fresh CacheSample.overlapping_runs
    CacheSample.overlapping_call eq_refl).
Defined.
