(* ===== verification/NodeInput.v ===== *)
(** * Names and ports of a node

    [slugify] of [internal/codelima/fsutil.go] and [validatePorts] of
    [runtime.go].  A normalised port is the pair of its numbers; the source
    renders it as HOST:GUEST.  Text is ASCII where its case matters. *)

From S2P Require Import Prelude GoText Forwarding.
Local Open Scope Z_scope.

(** ** Slugs *)

Definition slugChar (a : Ascii.ascii) : bool :=
  let n := Z.of_nat (Ascii.nat_of_ascii a) in within 97 122 n || within 48 57 n.
Definition slugBreak (a : Ascii.ascii) : bool :=
  let n := Z.of_nat (Ascii.nat_of_ascii a) in (n =? 45) || (n =? 95) || (n =? 32) || (n =? 47).

Definition dash : Ascii.ascii := ascii_of 45.

(** The loop of [slugify]: [builder] holds what was written, last first. *)
Fixpoint slugLoop (l : list Ascii.ascii) (builder : list Ascii.ascii) (lastDash : bool) : list Ascii.ascii :=
  match l with
  | [] => builder
  | a :: l =>
      if slugChar a then slugLoop l (a :: builder) false
      else if slugBreak a then
        if bool_decide (builder <> []) && negb lastDash then slugLoop l (dash :: builder) true
        else slugLoop l builder lastDash
      else slugLoop l builder lastDash
  end.

(** [strings.Trim(s, "-")] on the written text, last first. *)
Fixpoint dropDashes (l : list Ascii.ascii) : list Ascii.ascii :=
  match l with a :: l' => if bool_decide (a = dash) then dropDashes l' else l | [] => [] end.
Definition trimDashes (l : list Ascii.ascii) : list Ascii.ascii := rev (dropDashes (rev (dropDashes l))).

Definition slugify (input : string) : string :=
  let input := ToLower (TrimSpace input) in
  if (input =? "")%string then "node"%string
  else
    let slug := String.string_of_list_ascii (trimDashes (rev (slugLoop (String.list_ascii_of_string input) [] false))) in
    if (slug =? "")%string then "node"%string else slug.

(** ** Ports *)

Definition digit (a : Ascii.ascii) : option Z :=
  let n := Z.of_nat (Ascii.nat_of_ascii a) in if within 48 57 n then Some (n - 48) else None.

Fixpoint decimal (l : list Ascii.ascii) (z : Z) : option Z :=
  match l with
  | [] => Some z
  | a :: l => match digit a with Some d => decimal l (10 * z + d) | None => None end
  end.

(** [strconv.Atoi], without its bounds, which the ports' bounds imply. *)
Definition Atoi (s : string) : option Z :=
  match String.list_ascii_of_string s with
  | [] => None
  | a :: l =>
      let n := Ascii.nat_of_ascii a in
      if (n =? 43)%nat then match l with [] => None | _ => decimal l 0 end
      else if (n =? 45)%nat then match l with [] => None | _ => Z.opp <$> decimal l 0 end
      else decimal (a :: l) 0
  end.

(** [strings.Split(s, ":")] *)
Fixpoint splitColon (l : list Ascii.ascii) (part : list Ascii.ascii) : list string :=
  match l with
  | [] => [String.string_of_list_ascii (rev part)]
  | a :: l =>
      if (Ascii.nat_of_ascii a =? 58)%nat then String.string_of_list_ascii (rev part) :: splitColon l []
      else splitColon l (a :: part)
  end.

Definition portRange (z : Z) : bool := (1 <=? z) && (z <=? 65535).

Definition parsePort (value : string) : result (Z * Z) :=
  match splitColon (String.list_ascii_of_string (TrimSpace value)) [] with
  | [host; guest] =>
      match Atoi host, Atoi guest with
      | Some h, Some g =>
          if portRange h && portRange g then Ok (h, g)
          else Err (invalidArgument "port must use HOST:GUEST values from 1 to 65535")
      | _, _ => Err (invalidArgument "port must use HOST:GUEST values from 1 to 65535")
      end
  | _ => Err (invalidArgument "port must use HOST:GUEST numeric form")
  end.

Fixpoint validatePortsFrom (hostPorts : list Z) (ports : list string) : result (list (Z * Z)) :=
  match ports with
  | [] => Ok []
  | value :: ports =>
      match parsePort value with
      | Err e => Err e
      | Ok (host, guest) =>
          if bool_decide (host ∈ hostPorts) then Err (invalidArgument "duplicate host port")
          else match validatePortsFrom (host :: hostPorts) ports with
               | Err e => Err e
               | Ok l => Ok ((host, guest) :: l)
               end
      end
  end.

Definition validatePorts (ports : list string) : result (list (Z * Z)) := validatePortsFrom [] ports.

Example slug_of_path : slugify " My_Project//v2! " = "my-project-v2"%string.
Proof. vm_compute. reflexivity. Qed.

Example ports_of_text : validatePorts ["8080:80"; " +22:022 "]%string = Ok [(8080, 80); (22, 22)].
Proof. vm_compute. reflexivity. Qed.

(** ** Properties *)

Lemma validatePortsFrom_spec seen ports l :
  validatePortsFrom seen ports = Ok l ->
  Forall (fun p => 1 <= p.1 <= 65535 /\ 1 <= p.2 <= 65535) l /\ NoDup (map fst l) /\
  (forall h, h ∈ map fst l -> (h ∉ seen)) /\ length l = length ports.
Proof.
  revert seen l. induction ports as [|value ports IH]; intros seen l; cbn [validatePortsFrom].
  { intros [= <-]. repeat split; try constructor. intros h Hh. by inversion Hh. }
  destruct (parsePort value) as [[host guest]|e] eqn:Hp; [|done].
  case_bool_decide as Hin; [done|]. destruct (validatePortsFrom (host :: seen) ports) as [l'|e] eqn:Hl; [|done].
  intros [= <-]. destruct (IH _ _ Hl) as (H1 & H2 & H3 & H4). split; [|split; [|split]].
  - constructor; [|done]. cbn. unfold parsePort in Hp.
    destruct (splitColon _ _) as [|a [|b [|]]]; try done. destruct (Atoi a), (Atoi b); try done.
    destruct (portRange z && portRange z0) eqn:Hr; [|done]. injection Hp as -> ->. unfold portRange in Hr. lia.
  - cbn. constructor; [|done]. intros Hh. apply (H3 _ Hh). left.
  - intros h Hh. cbn in Hh. apply elem_of_cons in Hh as [->|Hh]; [done|]. intros Hs. apply (H3 _ Hh). by right.
  - cbn. by rewrite H4.
Qed.

(** ** Names and surrounding space *)

Lemma string_bytes s : string_of (bytes_of s) = s.
Proof.
  induction s as [|a s IH]; [done|]. cbn. rewrite IH. f_equal. unfold ascii_of, byte_of.
  by rewrite Nat2Z.id, Ascii.ascii_nat_embedding.
Qed.

Lemma bytes_app s t : bytes_of (s +:+ t) = bytes_of s ++ bytes_of t.
Proof. induction s as [|a s IH]; [done|]. cbn. by rewrite <- IH. Qed.

Lemma bytes_list s : bytes_of s = map byte_of (String.list_ascii_of_string s).
Proof. induction s as [|a s IH]; [done|]. cbn. by rewrite IH. Qed.

Definition visible (b : Z) : bool := within 33 126 b.

Lemma visible_clear b : visible b = true -> clearOfSpace b = true.
Proof.
  intros Hb. unfold visible, within in Hb.
  assert (H : forall n, (n < 94)%nat -> clearOfSpace (33 + Z.of_nat n) = true).
  { intros n Hn. do 94 (destruct n as [|n]; [vm_compute; reflexivity|]). lia. }
  replace b with (33 + Z.of_nat (Z.to_nat (b - 33))) by lia. apply H. lia.
Qed.

(** Text that begins and ends with a visible character is its own trimming, and
    what is read back from a file that holds it as a line. *)
Lemma TrimSpace_visible s a l b :
  bytes_of s = a :: l -> last (a :: l) = Some b -> visible a = true -> visible b = true ->
  TrimSpace s = s /\ TrimSpace (s +:+ string_of [10]) = s.
Proof.
  intros Hs Hb Ha Hv. apply visible_clear in Ha, Hv. apply last_Some in Hb as [m Hm].
  split; unfold TrimSpace, trimLeft.
  - rewrite Hs, trimRun_head by (intros p Hp; by apply clearOfSpace_spec).
    rewrite Hm, trimRight_clear by done. by rewrite <- Hm, <- Hs, string_bytes.
  - rewrite bytes_app, Hs. change (bytes_of (string_of [10])) with [10]. cbn [app].
    rewrite trimRun_head by (intros p Hp; by apply clearOfSpace_spec).
    rewrite app_comm_cons, Hm, trimRight_newline by done. by rewrite <- Hm, <- Hs, string_bytes.
Qed.

Lemma visible_trim s :
  s <> ""%string -> forallb visible (bytes_of s) = true -> TrimSpace s = s /\ TrimSpace (s +:+ string_of [10]) = s.
Proof.
  intros Hne Hv. destruct (bytes_of s) as [|a l] eqn:E; [by destruct s|].
  destruct (last (a :: l)) as [b|] eqn:Hb; [|by apply last_None in Hb].
  rewrite forallb_forall in Hv. eapply TrimSpace_visible; [done..| |].
  - apply Hv. by left.
  - apply Hv. apply last_Some_elem_of in Hb. by rewrite <- list_elem_of_In.
Qed.

Lemma sandboxName_visible name :
  validateSandboxName name = true -> name <> ""%string /\ forallb visible (bytes_of name) = true.
Proof.
  unfold validateSandboxName. intros H. split; [by intros ->|]. rewrite bytes_list.
  assert (Hc : forall a, nameChar a = true -> visible (byte_of a) = true).
  { intros a. unfold nameChar, alnum, visible, within, byte_of. rewrite ?orb_true_iff, ?andb_true_iff. lia. }
  destruct (String.list_ascii_of_string name) as [|a l] eqn:E; [done|].
  apply andb_true_iff in H as [[_ Ha]%andb_true_iff Hl]. rewrite forallb_forall in Hl.
  apply forallb_forall. intros b Hb. apply in_map_iff in Hb as (c & <- & [->|Hin]%in_inv).
  - apply Hc. unfold nameChar. by rewrite Ha.
  - by apply Hc, Hl.
Qed.

Lemma sandboxName_trim name :
  validateSandboxName name = true -> TrimSpace name = name /\ TrimSpace (name +:+ string_of [10]) = name.
Proof. intros H. apply sandboxName_visible in H as [Hne Hv]. by apply visible_trim. Qed.

Lemma sandboxName_blank name : validateSandboxName name = true -> blank name = false.
Proof.
  intros H. unfold blank. destruct (sandboxName_trim name H) as [-> _]. apply String.eqb_neq.
  by apply sandboxName_visible in H as [H _].
Qed.

(** ** Slugs *)

(** Words of lower-case letters and digits with single dashes between them. *)
Fixpoint slugTail (l : list Ascii.ascii) (afterDash : bool) : bool :=
  match l with
  | [] => negb afterDash
  | a :: l => if slugChar a then slugTail l false else bool_decide (a = dash) && negb afterDash && slugTail l true
  end.
Definition isSlugList (l : list Ascii.ascii) : bool :=
  match l with [] => false | a :: l => slugChar a && slugTail l false end.
Definition isSlug (s : string) : bool := isSlugList (String.list_ascii_of_string s).

(** The written text, first character first: a slug, with a dash after it or not. *)
Definition written (builder : list Ascii.ascii) (lastDash : bool) : Prop :=
  if lastDash then exists l, builder = dash :: rev l /\ isSlugList l = true
  else builder = [] \/ isSlugList (rev builder) = true.

Lemma slugChar_dash : slugChar dash = false.
Proof. reflexivity. Qed.

Lemma slugTail_snoc l b a : slugTail l b = true -> slugChar a = true -> slugTail (l ++ [a]) b = true.
Proof.
  revert b. induction l as [|c l IH]; intros b Hl Ha; cbn in *; [by rewrite Ha|].
  destruct (slugChar c); [by apply IH|]. apply andb_true_iff in Hl as [Hc Hl]. rewrite Hc. by apply IH.
Qed.

Lemma slugTail_dash l b a :
  slugTail l b = true -> slugChar a = true -> slugTail (l ++ [dash; a]) b = true.
Proof.
  revert b. induction l as [|c l IH]; intros b Hl Ha; cbn -[dash] in *.
  - rewrite slugChar_dash, Hl, Ha. by rewrite bool_decide_eq_true_2.
  - destruct (slugChar c); [by apply IH|]. apply andb_true_iff in Hl as [Hc Hl]. rewrite Hc. by apply IH.
Qed.

Lemma slugLoop_written l builder lastDash :
  written builder lastDash -> exists d, written (slugLoop l builder lastDash) d.
Proof.
  revert builder lastDash. induction l as [|a l IH]; intros builder lastDash Hw; cbn [slugLoop]; [by exists lastDash|].
  destruct (slugChar a) eqn:Ha.
  - apply IH. right. destruct lastDash; cbn -[dash] in Hw.
    + destruct Hw as (w & -> & Hw). cbn -[dash]. rewrite rev_involutive, <- app_assoc. cbn [app].
      destruct w as [|c w]; [done|]. cbn -[dash] in *. apply andb_true_iff in Hw as [-> Hw]. by apply slugTail_dash.
    + destruct Hw as [->|Hw]; cbn; [by rewrite Ha|]. destruct (rev builder) as [|c w]; [done|].
      cbn in *. apply andb_true_iff in Hw as [-> Hw]. by apply slugTail_snoc.
  - destruct (slugBreak a); [|by apply IH].
    case_bool_decide as Hne; cbn [andb]; [|by apply IH]. destruct lastDash; cbn [negb]; [by apply IH|].
    apply IH. destruct Hw as [->|Hw]; [done|]. exists (rev builder). by rewrite rev_involutive.
Qed.

Lemma dropDashes_id a l : slugChar a = true -> dropDashes (a :: l) = a :: l.
Proof. intros Ha. cbn -[dash]. by rewrite bool_decide_eq_false_2 by (intros ->; done). Qed.

Lemma slugTail_last l a b : slugTail l b = true -> last l = Some a -> slugChar a = true.
Proof.
  revert b. induction l as [|c l IH]; intros b; [done|]. cbn -[dash]. intros Hl Hlast.
  destruct l as [|d l].
  - injection Hlast as ->. destruct (slugChar a); [done|]. cbn in Hl. by rewrite andb_false_r in Hl.
  - change (last (d :: l) = Some a) in Hlast. destruct (slugChar c); [by eapply IH|].
    apply andb_true_iff in Hl as [_ Hl]. by eapply IH.
Qed.

Lemma isSlug_ends l : isSlugList l = true ->
  exists a t b m, l = a :: t /\ l = m ++ [b] /\ slugChar a = true /\ slugChar b = true.
Proof.
  destruct l as [|a l]; [done|]. cbn. intros [Ha Hl]%andb_true_iff.
  destruct (last (a :: l)) as [b|] eqn:Hb; [|by apply last_None in Hb].
  pose proof Hb as [m Hm]%last_Some. exists a, l, b, m. repeat split; try done.
  eapply (slugTail_last (a :: l) b false); [|done]. cbn. by rewrite Ha.
Qed.

Lemma trimDashes_slug l : isSlugList l = true -> trimDashes l = l.
Proof.
  intros Hl. destruct (isSlug_ends l Hl) as (a & t & b & m & Ea & Eb & Ha & Hb). unfold trimDashes.
  rewrite Ea at 1. rewrite dropDashes_id, <- Ea, Eb, rev_app_distr by done. cbn [rev app].
  rewrite dropDashes_id by done. cbn. by rewrite rev_involutive.
Qed.

Lemma trimDashes_dash l : isSlugList l = true -> trimDashes (l ++ [dash]) = l.
Proof.
  intros Hl. destruct (isSlug_ends l Hl) as (a & t & b & m & Ea & Eb & Ha & Hb). unfold trimDashes.
  rewrite Ea at 1. cbn [app]. rewrite dropDashes_id by done.
  rewrite app_comm_cons, <- Ea, Eb, !rev_app_distr. cbn -[dash]. rewrite bool_decide_eq_true_2 by done.
  rewrite bool_decide_eq_false_2 by (intros ->; done). cbn. by rewrite rev_involutive.
Qed.

Lemma string_list s l : String.string_of_list_ascii l = s -> String.list_ascii_of_string s = l.
Proof. intros <-. apply String.list_ascii_of_string_of_list_ascii. Qed.

(** The name of a node is a slug whatever text it is made from. *)
Lemma slugify_isSlug input : isSlug (slugify input) = true.
Proof.
  unfold slugify. destruct (ToLower (TrimSpace input) =? "")%string; [done|].
  destruct (slugLoop_written (String.list_ascii_of_string (ToLower (TrimSpace input))) [] false) as [d Hw]; [by left|].
  set (b := slugLoop _ _ _) in *. assert (Ht : trimDashes (rev b) = [] \/ isSlugList (trimDashes (rev b)) = true).
  { destruct d; cbn -[dash] in Hw.
    - destruct Hw as (l & -> & Hl). change (rev (dash :: rev l)) with (rev (rev l) ++ [dash]).
      rewrite rev_involutive, trimDashes_dash by done. by right.
    - destruct Hw as [->|Hw]; [by left|]. rewrite trimDashes_slug by done. by right. }
  destruct Ht as [->|Ht]; [done|]. destruct (String.eqb_spec (String.string_of_list_ascii (trimDashes (rev b))) ""); [done|].
  unfold isSlug. by rewrite String.list_ascii_of_string_of_list_ascii.
Qed.

Lemma slugChar_lower a : slugChar a = true -> lower a = a.
Proof.
  unfold slugChar, within, lower. cbv zeta. intros H. destruct ((65 <=? Ascii.nat_of_ascii a)%nat) eqn:E1; [|done].
  destruct ((Ascii.nat_of_ascii a <=? 90)%nat) eqn:E2; [|done].
  apply Nat.leb_le in E1, E2. rewrite orb_true_iff, !andb_true_iff, !Z.leb_le in H. lia.
Qed.

Lemma slugTail_chars l b : slugTail l b = true -> forallb (fun a => slugChar a || bool_decide (a = dash)) l = true.
Proof.
  revert b. induction l as [|a l IH]; intros b; [done|]. cbn -[dash]. destruct (slugChar a); cbn -[dash]; [apply IH|].
  rewrite !andb_true_iff. intros [[-> _] Hl]. split; [done|by eapply IH].
Qed.

Lemma isSlug_chars l : isSlugList l = true -> forallb (fun a => slugChar a || bool_decide (a = dash)) l = true.
Proof.
  destruct l as [|a l]; [done|]. cbn -[dash]. rewrite !andb_true_iff. intros [-> Hl]. split; [done|by eapply slugTail_chars].
Qed.

Lemma ToLower_list s : String.list_ascii_of_string (ToLower s) = map lower (String.list_ascii_of_string s).
Proof. induction s as [|a s IH]; [done|]. cbn. by rewrite IH. Qed.

Lemma slugLoop_slug l builder : slugTail l (bool_decide (head builder = Some dash)) = true -> builder <> [] ->
  slugLoop l builder (bool_decide (head builder = Some dash)) = rev l ++ builder.
Proof.
  revert builder. induction l as [|a l IH]; intros builder; [done|]. cbn -[dash bool_decide]. intros Hl Hne.
  destruct (slugChar a) eqn:Ha.
  - replace false with (bool_decide (head (a :: builder) = Some dash))
      by (apply bool_decide_eq_false; intros [= ->]; done).
    rewrite IH; [by rewrite <- app_assoc| |done]. rewrite bool_decide_eq_false_2; [done|intros [= ->]; done].
  - apply andb_true_iff in Hl as [[Hd Hb]%andb_true_iff Hl]. apply bool_decide_eq_true in Hd as ->.
    change (slugBreak dash) with true. cbv iota. rewrite (bool_decide_eq_true_2 (builder <> [])) by done.
    rewrite Hb. cbn [andb]. replace true with (bool_decide (head (dash :: builder) = Some dash))
      by (by apply bool_decide_eq_true_2).
    rewrite IH; [by rewrite <- app_assoc| |done]. by rewrite bool_decide_eq_true_2.
Qed.

(** A slug is its own slug, so the names that are accepted are exactly the slugs. *)
Lemma slugify_slug s : isSlug s = true -> slugify s = s.
Proof.
  intros Hs. unfold isSlug in Hs. pose proof (isSlug_chars _ Hs) as Hc.
  destruct (isSlug_ends _ Hs) as (a & t & b & m & Ea & Eb & Ha & Hb).
  assert (Hne : s <> ""%string) by (by intros ->).
  assert (Hlow : ToLower (TrimSpace s) = s).
  { assert (Hv : forallb visible (bytes_of s) = true).
    { rewrite bytes_list. rewrite forallb_forall in *. intros x (c & <- & Hin)%in_map_iff. specialize (Hc c Hin).
      apply orb_true_iff in Hc as [Hc|Hc%bool_decide_eq_true]; [|by subst c].
      unfold slugChar, within, visible, byte_of in *. cbv zeta in Hc.
      rewrite orb_true_iff, !andb_true_iff, !Z.leb_le in Hc.
      unfold within. rewrite andb_true_iff, !Z.leb_le. lia. }
    destruct (visible_trim s Hne Hv) as [-> _].
    rewrite <- (String.string_of_list_ascii_of_string (ToLower s)), ToLower_list.
    rewrite <- (String.string_of_list_ascii_of_string s) at 2. f_equal.
    rewrite <- (map_id (String.list_ascii_of_string s)) at 2. apply map_ext_in. intros c Hin.
    rewrite forallb_forall in Hc. specialize (Hc c Hin).
    apply orb_true_iff in Hc as [Hc|Hc%bool_decide_eq_true]; [by apply slugChar_lower|by subst c]. }
  unfold slugify. rewrite Hlow. destruct (String.eqb_spec s ""); [done|].
  assert (Hloop : slugLoop (String.list_ascii_of_string s) [] false = rev (String.list_ascii_of_string s)).
  { rewrite Ea. cbn. rewrite Ha. rewrite Ea in Hs. cbn in Hs. apply andb_true_iff in Hs as [_ Ht].
    assert (Hh : bool_decide (head [a] = Some dash) = false) by (apply bool_decide_eq_false; intros [= ->]; done).
    rewrite <- Hh at 1. apply slugLoop_slug; [by rewrite Hh|done]. }
  rewrite Hloop, rev_involutive, trimDashes_slug, String.string_of_list_ascii_of_string by done.
  by destruct (String.eqb_spec s "").
Qed.
