(* ===== verification/NodeStore.v ===== *)
(** * The node store

    [internal/codelima/store.go]: one directory per node with its record, its
    bootstrap state and its instance reference, the indexes by slug and by
    instance name, listings, incomplete directories and the quarantine.  Every
    durable step of an operation can work, fail or be the last one before the
    process dies, each of the latter before or after it took effect.  Reading
    goes through [readNodeRecord] directly: [MetadataCache] shows that the parse
    cache in front of it cannot be seen.  Events, agent profiles, environments
    and the schema marker are not modelled. *)

From stdpp Require Import pretty.
From S2P Require Import Prelude GoText Forwarding RuntimeCommands NodeRecord.
Local Open Scope Z_scope.

(** ** The home *)

Record nodeDir := Dir {
  d_node : option bytes;        (* node.yaml *)
  d_bootstrap : option bytes;   (* bootstrap.json *)
  d_ref : option string;        (* lima-instance.ref *)
  d_context : option bytes;     (* context.jsonl *)
}.

Definition emptyDir : nodeDir := Dir None None None None.

Record CorruptNodeRecord := Corrupt {
  cr_NodeID : string;
  cr_Reason : string;
}.

Record QuarantinedNodeRecord := Quarantined {
  qr_NodeID : string;
  qr_QuarantinePath : string;
  qr_Reason : string;
  qr_RemovedIndexes : list string;
}.

Record home := Home {
  h_nodes : gmap string nodeDir;
  h_bySlug : gmap string string;
  h_byInstance : gmap string string;
  h_quarantine : gmap string (nodeDir * option QuarantinedNodeRecord);
}.

Definition set_h_nodes x h := Home x (h_bySlug h) (h_byInstance h) (h_quarantine h).
Definition set_h_bySlug x h := Home (h_nodes h) x (h_byInstance h) (h_quarantine h).
Definition set_h_byInstance x h := Home (h_nodes h) (h_bySlug h) x (h_quarantine h).
Definition set_h_quarantine x h := Home (h_nodes h) (h_bySlug h) (h_byInstance h) x.

Definition dirOf (id : string) (h : home) : nodeDir := default emptyDir (h_nodes h !! id).
Definition setDir (id : string) (d : nodeDir) (h : home) : home := set_h_nodes (<[id := d]> (h_nodes h)) h.

(** [ensureDir] and the atomic writes below a node's directory, which create it. *)
Definition ensureNodeDir (id : string) (h : home) : home := setDir id (dirOf id h) h.
Definition writeNode (id : string) (data : bytes) (h : home) : home :=
  let d := dirOf id h in setDir id (Dir (Some data) (d_bootstrap d) (d_ref d) (d_context d)) h.
Definition writeBootstrap (id : string) (data : bytes) (h : home) : home :=
  let d := dirOf id h in setDir id (Dir (d_node d) (Some data) (d_ref d) (d_context d)) h.
Definition writeRef (id : string) (data : string) (h : home) : home :=
  let d := dirOf id h in setDir id (Dir (d_node d) (d_bootstrap d) (Some data) (d_context d)) h.
Definition writeContext (id : string) (h : home) : home :=
  let d := dirOf id h in setDir id (Dir (d_node d) (d_bootstrap d) (d_ref d) (Some [])) h.
Definition removeDir (id : string) (h : home) : home := set_h_nodes (delete id (h_nodes h)) h.

Definition writeSlug (slug data : string) (h : home) : home := set_h_bySlug (<[slug := data]> (h_bySlug h)) h.
Definition removeSlug (slug : string) (h : home) : home := set_h_bySlug (delete slug (h_bySlug h)) h.
Definition writeInstance (name data : string) (h : home) : home := set_h_byInstance (<[name := data]> (h_byInstance h)) h.
Definition removeInstance (name : string) (h : home) : home := set_h_byInstance (delete name (h_byInstance h)) h.

(** The contents of an index file. *)
Definition newline : string := string_of [10].
Definition line (s : string) : string := s +:+ newline.

(** ** Durable steps *)

(** What becomes of a step, and whether it took effect when it did not work. *)
Inductive fault :=
| Works
| Fails (effective : bool)
| Dies (effective : bool).

Inductive outcome (A : Type) :=
| Done (a : A)
| Failed (e : go_error)
| Died.
Arguments Done {A} a.
Arguments Failed {A} e.
Arguments Died {A}.

(** An operation on the home with the fates of its steps; steps past the end of
    the list work. *)
Definition M (A : Type) : Type := home -> list fault -> home * list fault * outcome A.

#[export] Instance M_ret : MRet M := fun A a h fs => (h, fs, Done a).
#[export] Instance M_bind : MBind M := fun A B k m h fs =>
  match m h fs with
  | (h, fs, Done a) => k a h fs
  | (h, fs, Failed e) => (h, fs, Failed e)
  | (h, fs, Died) => (h, fs, Died)
  end.

Definition gets {A} (f : home -> A) : M A := fun h fs => (h, fs, Done (f h)).
Definition raise {A} (e : go_error) : M A := fun h fs => (h, fs, Failed e).

Definition ioError : go_error := ENew "input/output error".

Definition effect (f : home -> home) : M unit := fun h fs =>
  match fs with
  | [] => (f h, [], Done tt)
  | Works :: fs => (f h, fs, Done tt)
  | Fails b :: fs => (if b then f h else h, fs, Failed ioError)
  | Dies b :: fs => (if b then f h else h, fs, Died)
  end.

(** [_ = f()] *)
Definition attempt (m : M unit) : M unit := fun h fs =>
  match m h fs with
  | (h, fs, Failed _) => (h, fs, Done tt)
  | r => r
  end.

(** [if err := m(); err != nil { cleanup(); return err }] *)
Definition onError (m : M unit) (cleanup : M unit) : M unit := fun h fs =>
  match m h fs with
  | (h, fs, Failed e) =>
      match attempt cleanup h fs with
      | (h, fs, Done _) => (h, fs, Failed e)
      | r => r
      end
  | r => r
  end.

Definition when (b : bool) (m : M unit) : M unit := if b then m else mret tt.

Section Store.
Context {Observation B : Type}.
Context (yamlMarshal : nodeFileWire -> bytes) (yamlNode : bytes -> result nodeFileWire)
        (yamlStored : bytes -> result storedFields).
Context (jsonBootstrap : B -> bytes) (parseBootstrap : bytes -> result B).

Abbreviation Node := (NodeRecord.Node Observation).

(** ** Records *)

Definition nodeMetadataExists (nodeID : string) (h : home) : bool := bool_decide (d_node (dirOf nodeID h) <> None).

Definition NodeByID (nodeID : string) (h : home) : result Node := readNodeRecord yamlNode (d_node (dirOf nodeID h)).

Definition LoadBootstrapState (nodeID : string) (h : home) : result B :=
  match d_bootstrap (dirOf nodeID h) with
  | None => Err (notFound "bootstrap state not found")
  | Some data => match parseBootstrap data with Ok b => Ok b | Err _ => Err (metadataCorruption "failed to load bootstrap state") end
  end.

Definition deletedOrTerminated (n : Node) : bool :=
  bool_decide (n_DeletedAt n <> None) || (n_Status n =? NodeStatusTerminated)%string.

Definition maintainNodeSlugIndex (n : Node) (previous : option Node) : M unit :=
  when (match previous with Some p => negb (n_Slug p =? n_Slug n)%string | None => false end)
    (attempt (effect (removeSlug (match previous with Some p => n_Slug p | None => "" end)))) ;;
  if deletedOrTerminated n then attempt (effect (removeSlug (n_Slug n)))
  else effect (writeSlug (n_Slug n) (line (n_ID n))).

Definition SaveNode (n : Node) (bootstrap : B) : M unit :=
  effect (ensureNodeDir (n_ID n)) ;;
  previous ← gets (fun h => match NodeByID (n_ID n) h with Ok p => Some p | Err _ => None end);
  effect (writeBootstrap (n_ID n) (jsonBootstrap bootstrap)) ;;
  effect (writeNode (n_ID n) (nodeYAMLBytes yamlMarshal n)) ;;
  effect (writeRef (n_ID n) (line (n_SandboxName n))) ;;
  effect (writeInstance (n_SandboxName n) (line (n_ID n))) ;;
  context ← gets (fun h => bool_decide (d_context (dirOf (n_ID n) h) <> None));
  when (negb context) (effect (writeContext (n_ID n))) ;;
  when (match previous with Some p => negb (n_SandboxName p =? n_SandboxName n)%string | None => false end)
    (attempt (effect (removeInstance (match previous with Some p => n_SandboxName p | None => "" end)))) ;;
  when (deletedOrTerminated n) (attempt (effect (removeInstance (n_SandboxName n)))) ;;
  maintainNodeSlugIndex n previous.

Definition SaveIncompleteNodeReference (nodeID sandboxName : string) : M unit :=
  if blank nodeID then raise (invalidArgument "node id is required for incomplete runtime registration")
  else if negb (validateSandboxName sandboxName) then raise (invalidArgument "sandbox name must start with an alphanumeric, contain only alphanumeric, dots, hyphens, and underscores, and be at most 128 characters")
  else
    effect (ensureNodeDir nodeID) ;;
    onError (effect (writeRef nodeID (line sandboxName))) (effect (removeDir nodeID)) ;;
    onError (effect (writeInstance sandboxName (line nodeID))) (effect (removeDir nodeID)).

(** ** Listings *)

Definition name_le (a b : string * nodeDir) : Prop := String.le a.1 b.1.
#[export] Instance name_le_dec : RelDecision name_le.
Proof. intros a b. unfold name_le. apply _. Defined.

(** [os.ReadDir] of the nodes directory. *)
Definition entries (h : home) : list (string * nodeDir) := merge_sort name_le (map_to_list (h_nodes h)).

Definition created_le (a b : Node) : Prop := n_CreatedAt a <= n_CreatedAt b.
#[export] Instance created_le_dec : RelDecision created_le.
Proof. intros a b. unfold created_le. apply _. Defined.
Definition corrupt_le (a b : CorruptNodeRecord) : Prop := String.le (cr_NodeID a) (cr_NodeID b).
#[export] Instance corrupt_le_dec : RelDecision corrupt_le.
Proof. intros a b. unfold corrupt_le. apply _. Defined.

(** [IsNotFound] *)
Definition isNotFound (e : go_error) : bool :=
  match e with EApp category _ _ => (category =? "NotFound")%string | _ => false end.

Fixpoint scanNodes (includeDeleted : bool) (h : home) (l : list (string * nodeDir)) : list Node * list CorruptNodeRecord :=
  match l with
  | [] => ([], [])
  | entry :: l =>
      let '(nodes, corrupt) := scanNodes includeDeleted h l in
      if negb (nodeMetadataExists entry.1 h) then (nodes, corrupt)
      else
        match NodeByID entry.1 h with
        | Err e => if isNotFound e then (nodes, corrupt) else (nodes, Corrupt entry.1 (errorText e) :: corrupt)
        | Ok n => if bool_decide (n_DeletedAt n <> None) && negb includeDeleted then (nodes, corrupt) else (n :: nodes, corrupt)
        end
  end.

(** [sort.Slice] leaves the order of equal creation times open; here it is that of
    the directory. *)
Definition listNodes (includeDeleted : bool) (h : home) : list Node * list CorruptNodeRecord :=
  let '(nodes, corrupt) := scanNodes includeDeleted h (entries h) in
  (merge_sort created_le nodes, merge_sort corrupt_le corrupt).

Definition ListNodes (includeDeleted : bool) (h : home) : list Node := (listNodes includeDeleted h).1.
Definition CorruptNodeRecords (h : home) : list CorruptNodeRecord := (listNodes true h).2.

(** ** Lookups *)

(** The scans behind [NodeByIDOrSlug]: a live node, or the last deleted one. *)
Definition scanSlug (value : string) (h : home) : result Node :=
  match List.find (fun n => (n_Slug n =? value)%string) (ListNodes false h) with
  | Some n => Ok n
  | None =>
      match last (List.filter (fun n => (n_Slug n =? value)%string) (ListNodes true h)) with
      | Some n => Ok n
      | None => Err (notFound "node not found")
      end
  end.

Definition NodeByIDOrSlug (value : string) (h : home) : result Node :=
  if nodeMetadataExists value h then NodeByID value h
  else
    match h_bySlug h !! value with
    | Some data =>
        match NodeByID (TrimSpace data) h with
        | Ok n => Ok n
        | Err e => if isNotFound e then scanSlug value h else Err e
        end
    | None => scanSlug value h
    end.

Definition NodeBySandboxName (name : string) (h : home) : result Node :=
  match h_byInstance h !! name with
  | Some data => NodeByID (TrimSpace data) h
  | None =>
      match List.find (fun n => (n_SandboxName n =? name)%string) (ListNodes true h) with
      | Some n => Ok n
      | None => Err (notFound "node not found")
      end
  end.

(** [ensureUniqueNodeSlug] of service.go. *)
Definition ensureUniqueNodeSlug (slug : string) (h : home) : bool :=
  negb (existsb (fun n => (n_Slug n =? slug)%string) (ListNodes false h)).

(** ** Incomplete directories *)

(** The directories without a record, with the instance they reference. *)
Definition IncompleteNodeMetadata (h : home) : list (string * string) :=
  map (fun entry => (entry.1, match d_ref entry.2 with Some data => TrimSpace data | None => "" end))
    (List.filter (fun entry => negb (nodeMetadataExists entry.1 h)) (entries h)).

Fixpoint RemoveIncompleteNodeMetadata (items : list (string * string)) : M unit :=
  match items with
  | [] => mret tt
  | (nodeID, name) :: items =>
      when (negb (blank name)) (attempt (effect (removeInstance name))) ;;
      effect (removeDir nodeID) ;; RemoveIncompleteNodeMetadata items
  end.

(** ** Quarantine *)

(** The index files that resolve to a node, removed one by one. *)
Fixpoint removeEntries (remove : string -> home -> home) (names : list string) : M (list string) :=
  match names with
  | [] => mret []
  | name :: names =>
      effect (remove name) ;; removed ← removeEntries remove names; mret (name :: removed)
  end.

Definition resolving (nodeID : string) (index : gmap string string) : list string :=
  merge_sort String.le (map fst (List.filter (fun kv => (TrimSpace kv.2 =? nodeID)%string) (map_to_list index))).

Definition removeNodeIndexEntries (nodeID : string) : M (list string) :=
  slugs ← gets (fun h => resolving nodeID (h_bySlug h));
  bySlug ← removeEntries removeSlug slugs;
  names ← gets (fun h => resolving nodeID (h_byInstance h));
  byInstance ← removeEntries removeInstance names;
  mret (merge_sort String.le (map (String.append "by-slug/") bySlug ++ map (String.append "by-instance/") byInstance)).

(** The first of [base], [base-1], ... that is not used. *)
Definition quarantineDirPath (stamp nodeID : string) (h : home) : result string :=
  let base := (stamp +:+ "-" +:+ nodeID)%string in
  let candidates := base :: map (fun n => (base +:+ "-" +:+ pretty n)%string) (seqZ 1 999) in
  match List.find (fun candidate => bool_decide (h_quarantine h !! candidate = None)) candidates with
  | Some candidate => Ok candidate
  | None => Err (metadataCorruption "failed to reserve a quarantine directory")
  end.

(** [os.Rename] of the node's directory. *)
Definition moveDir (nodeID destination : string) (h : home) : home :=
  match h_nodes h !! nodeID with
  | None => h
  | Some d => set_h_quarantine (<[destination := (d, None)]> (h_quarantine h)) (removeDir nodeID h)
  end.

(** [quarantine.yaml] *)
Definition describeDir (destination : string) (r : QuarantinedNodeRecord) (h : home) : home :=
  match h_quarantine h !! destination with
  | None => h
  | Some (d, _) => set_h_quarantine (<[destination := (d, Some r)]> (h_quarantine h)) h
  end.

Definition quarantineOne (stamp : string) (item : CorruptNodeRecord) : M QuarantinedNodeRecord :=
  removed ← removeNodeIndexEntries (cr_NodeID item);
  destination ← gets (quarantineDirPath stamp (cr_NodeID item));
  match destination with
  | Err e => raise e
  | Ok destination =>
      effect (moveDir (cr_NodeID item) destination) ;;
      let record := Quarantined (cr_NodeID item) destination (cr_Reason item) removed in
      effect (describeDir destination record) ;; mret record
  end.

Fixpoint quarantineAll (stamp : string) (items : list CorruptNodeRecord) : M (list QuarantinedNodeRecord) :=
  match items with
  | [] => mret []
  | item :: items =>
      record ← quarantineOne stamp item;
      records ← quarantineAll stamp items; mret (record :: records)
  end.

Definition QuarantineCorruptNodeRecords (stamp : string) : M (list QuarantinedNodeRecord) :=
  corrupt ← gets CorruptNodeRecords; quarantineAll stamp corrupt.

(** ** Repair *)

(** One record of [ensureNodeMetadataFiles]. *)
Definition repairNode (nodeID : string) : M unit :=
  v ← gets (fun h => (d_node (dirOf nodeID h), NodeByID nodeID h, h_bySlug h));
  match v with
  | (Some data, Ok n, bySlug) =>
      when (negb (deletedOrTerminated n) && bool_decide (bySlug !! n_Slug n = None))
        (effect (writeSlug (n_Slug n) (line (n_ID n)))) ;;
      when (nodeFileNeedsRefresh yamlStored data n) (effect (writeNode nodeID (nodeYAMLBytes yamlMarshal n)))
  | _ => mret tt
  end.

Fixpoint repairNodes (ids : list string) : M unit :=
  match ids with
  | [] => mret tt
  | id :: ids => repairNode id ;; repairNodes ids
  end.

Definition ensureNodeMetadataFiles : M unit := gets (fun h => map fst (entries h)) ≫= repairNodes.

End Store.
