(* ===== verification/NodeStoreSafe.v ===== *)
(** * The node store: crash safety

    Whatever step of an operation fails or is the last one, the home is left in a
    state the readers understand: a save leaves the old record or the new one
    with its bootstrap state and never touches another node
    ([save_crash_safe]), and a quarantine loses no directory
    ([quarantine_safe]). *)

From S2P Require Import Prelude GoText Forwarding RuntimeCommands NodeRecord NodeStore.
Local Open Scope Z_scope.

(** ** Reasoning about durable steps *)

(** Started in [h], [m] ends in a state of [I] whatever its steps do, and with
    [Q] when it is done. *)
Definition safely {A} (m : M A) (I : home -> Prop) (Q : A -> home -> Prop) (h : home) : Prop :=
  forall fs, match m h fs with (h', _, Done a) => I h' /\ Q a h' | (h', _, _) => I h' end.

Section Rules.
Context (I : home -> Prop).

Lemma safely_ret {A} (a : A) (Q : A -> home -> Prop) h : I h -> Q a h -> safely (mret a) I Q h.
Proof. intros HI HQ fs. by split. Qed.

Lemma safely_raise {A} e (Q : A -> home -> Prop) h : I h -> safely (raise e) I Q h.
Proof. intros HI fs. exact HI. Qed.

Lemma safely_gets {A} (f : home -> A) (Q : A -> home -> Prop) h : I h -> Q (f h) h -> safely (gets f) I Q h.
Proof. intros HI HQ fs. by split. Qed.

Lemma safely_bind {A B} (m : M A) (k : A -> M B) (P : A -> home -> Prop) (Q : B -> home -> Prop) h :
  safely m I P h -> (forall a h', I h' -> P a h' -> safely (k a) I Q h') -> safely (m ≫= k) I Q h.
Proof.
  intros Hm Hk fs. specialize (Hm fs). unfold mbind, M_bind. destruct (m h fs) as [[h' fs'] [a|e|]]; [|exact Hm..].
  destruct Hm as [HI HP]. exact (Hk a h' HI HP fs').
Qed.

Lemma safely_effect f (Q : unit -> home -> Prop) h : I h -> I (f h) -> Q tt (f h) -> safely (effect f) I Q h.
Proof. intros HI HI' HQ [|[|[]|[]] fs]; simpl; try done; by split. Qed.

Lemma safely_attempt f (Q : unit -> home -> Prop) h :
  I h -> I (f h) -> Q tt h -> Q tt (f h) -> safely (attempt (effect f)) I Q h.
Proof. intros HI HI' HQ HQ' [|[|[]|[]] fs]; unfold attempt; simpl; try done; by split. Qed.

Lemma safely_weaken {A} (m : M A) (P Q : A -> home -> Prop) h :
  safely m I P h -> (forall a h', I h' -> P a h' -> Q a h') -> safely m I Q h.
Proof.
  intros Hm Hpq fs. specialize (Hm fs). destruct (m h fs) as [[h' fs'] [a|e|]]; [|exact Hm..].
  destruct Hm as [HI HP]. split; [exact HI|by apply Hpq].
Qed.

(** Steps that keep the invariant, when what they are done with does not
    matter. *)
Definition keeps {A} (m : M A) (h : home) : Prop := safely m I (fun _ _ => True) h.

Lemma keeps_bind {A B} (m : M A) (k : A -> M B) h :
  keeps m h -> (forall a h', I h' -> keeps (k a) h') -> keeps (m ≫= k) h.
Proof. intros Hm Hk. eapply safely_bind; [exact Hm|]. intros a h' HI _. by apply Hk. Qed.

Lemma keeps_effect f h : I h -> I (f h) -> keeps (effect f) h.
Proof. intros. by apply safely_effect. Qed.

Lemma keeps_attempt f h : I h -> I (f h) -> keeps (attempt (effect f)) h.
Proof. intros. by apply safely_attempt. Qed.

Lemma keeps_when b m h : I h -> keeps m h -> keeps (when b m) h.
Proof. intros HI Hm. destruct b; [exact Hm|]. by apply safely_ret. Qed.

Lemma keeps_gets {A} (f : home -> A) h : I h -> keeps (gets f) h.
Proof. intros. by apply safely_gets. Qed.

Lemma keeps_ret {A} (a : A) h : I h -> keeps (mret a) h.
Proof. intros. by apply safely_ret. Qed.

Lemma keeps_onError f g h : I h -> (forall h, I h -> I (f h)) -> (forall h, I h -> I (g h)) ->
  keeps (onError (effect f) (effect g)) h.
Proof.
  intros Hh Hf Hg [|[|[]|[]] [|[|[]|[]] fs]]; unfold onError, attempt; simpl; auto.
Qed.

(** The state an operation ends in, whatever happens. *)
Lemma keeps_end {A} (m : M A) h fs : keeps m h -> I (m h fs).1.1.
Proof. intros Hm. specialize (Hm fs). destruct (m h fs) as [[h' fs'] [a|e|]]; [apply Hm|exact Hm..]. Qed.
End Rules.

Lemma safely_mono (I J : home -> Prop) {A} (m : M A) (Q : A -> home -> Prop) h :
  (forall h', I h' -> J h') -> safely m I Q h -> safely m J (fun a h' => I h' /\ Q a h') h.
Proof.
  intros Hij Hm fs. specialize (Hm fs). destruct (m h fs) as [[h' fs'] [a|e|]]; [|by apply Hij..].
  destruct Hm as [HI HQ]. split; [by apply Hij|done].
Qed.

(** ** Directories and indexes *)

Lemma dirOf_setDir id d h j : dirOf j (setDir id d h) = if decide (j = id) then d else dirOf j h.
Proof.
  unfold dirOf, setDir. cbn. destruct (decide (j = id)) as [->|Hne]; [by rewrite lookup_insert_eq|].
  by rewrite lookup_insert_ne by done.
Qed.

Lemma dirOf_self id d h : dirOf id (setDir id d h) = d.
Proof. rewrite dirOf_setDir. by destruct (decide (id = id)). Qed.

Lemma nodes_other id d h j : j <> id -> h_nodes (setDir id d h) !! j = h_nodes h !! j.
Proof. intros Hne. cbn. by rewrite lookup_insert_ne. Qed.

Section Save.
Context {Observation B : Type}.
Context (yamlMarshal : nodeFileWire -> bytes) (yamlNode : bytes -> result nodeFileWire).
Context (jsonBootstrap : B -> bytes).
Context (n : Node Observation) (b : B) (h0 : home).

Abbreviation id := (n_ID n).
Abbreviation record := (nodeYAMLBytes yamlMarshal n).

(** Before the record is written: only the directory and the bootstrap state
    may differ. *)
Definition before (h : home) : Prop :=
  (forall j, j <> id -> h_nodes h !! j = h_nodes h0 !! j) /\
  d_node (dirOf id h) = d_node (dirOf id h0) /\ d_ref (dirOf id h) = d_ref (dirOf id h0) /\
  h_bySlug h = h_bySlug h0 /\ h_byInstance h = h_byInstance h0 /\ h_quarantine h = h_quarantine h0.

(** Entries of an index are those of the old one, or the node's own. *)
Definition own (old new : gmap string string) (name : string) : Prop :=
  forall k v, new !! k = Some v -> old !! k = Some v \/ (k = name /\ v = line id).

(** Afterwards: the record and the bootstrap state are there. *)
Definition after (h : home) : Prop :=
  (forall j, j <> id -> h_nodes h !! j = h_nodes h0 !! j) /\
  d_node (dirOf id h) = Some record /\ d_bootstrap (dirOf id h) = Some (jsonBootstrap b) /\
  own (h_bySlug h0) (h_bySlug h) (n_Slug n) /\ own (h_byInstance h0) (h_byInstance h) (n_SandboxName n) /\
  h_quarantine h = h_quarantine h0.

Definition safe (h : home) : Prop := before h \/ after h.

Lemma before_start : before h0.
Proof. done. Qed.

Lemma before_ensure h : before h -> before (ensureNodeDir id h).
Proof.
  intros (H1 & H2 & H3 & H4). unfold before, ensureNodeDir. rewrite dirOf_self. split; [|done].
  intros j Hj. rewrite nodes_other by done. by apply H1.
Qed.

Lemma before_bootstrap h data : before h -> before (writeBootstrap id data h).
Proof.
  intros (H1 & H2 & H3 & H4). unfold before, writeBootstrap. rewrite dirOf_self. cbn [d_node d_ref]. split; [|done].
  intros j Hj. rewrite nodes_other by done. by apply H1.
Qed.

Lemma after_node h :
  before h -> d_bootstrap (dirOf id h) = Some (jsonBootstrap b) -> after (writeNode id record h).
Proof.
  intros (H1 & H2 & H3 & H4 & H5 & H6) Hb. unfold after, writeNode. rewrite dirOf_self. cbn [d_node d_bootstrap].
  split; [intros j Hj; rewrite nodes_other by done; by apply H1|]. split; [done|]. split; [done|].
  change (h_bySlug (setDir _ _ h)) with (h_bySlug h). change (h_byInstance (setDir _ _ h)) with (h_byInstance h).
  change (h_quarantine (setDir _ _ h)) with (h_quarantine h). rewrite H4, H5. split; [by left|]. split; [by left|done].
Qed.

Lemma after_dir h d :
  after h -> d_node d = d_node (dirOf id h) -> d_bootstrap d = d_bootstrap (dirOf id h) -> after (setDir id d h).
Proof.
  intros (H1 & H2 & H3 & H4) Hn Hb. unfold after. rewrite dirOf_self, Hn, Hb.
  split; [intros j Hj; rewrite nodes_other by done; by apply H1|done].
Qed.

Lemma own_delete old new name k : own old new name -> own old (delete k new) name.
Proof. intros H i v [_ Hv]%lookup_delete_Some. by apply H. Qed.

Lemma own_insert old new name : own old new name -> own old (<[name := line id]> new) name.
Proof. intros H i v [[<- <-]|[_ Hv]]%lookup_insert_Some; [by right|by apply H]. Qed.

Lemma after_removeSlug h k : after h -> after (removeSlug k h).
Proof. intros (H1 & H2 & H3 & H4 & H5). repeat (split; [done|]). split; [by apply own_delete|done]. Qed.
Lemma after_writeSlug h : after h -> after (writeSlug (n_Slug n) (line id) h).
Proof. intros (H1 & H2 & H3 & H4 & H5). repeat (split; [done|]). split; [by apply own_insert|done]. Qed.
Lemma after_removeInstance h k : after h -> after (removeInstance k h).
Proof. intros (H1 & H2 & H3 & H4 & H5 & H6). repeat (split; [done|]). split; [by apply own_delete|done]. Qed.
Lemma after_writeInstance h : after h -> after (writeInstance (n_SandboxName n) (line id) h).
Proof. intros (H1 & H2 & H3 & H4 & H5 & H6). repeat (split; [done|]). split; [by apply own_insert|done]. Qed.

Hint Resolve before_start before_ensure before_bootstrap after_removeSlug after_writeSlug after_removeInstance
  after_writeInstance : core.

(** From the record on, every step keeps [after]. *)
Lemma slugIndex_after previous h :
  after h -> safely (maintainNodeSlugIndex n previous) after (fun _ _ => True) h.
Proof.
  intros Ha. unfold maintainNodeSlugIndex. apply keeps_bind.
  - apply keeps_when; [done|]. apply keeps_attempt; auto.
  - intros _ h' Ha'. destruct (deletedOrTerminated n); [apply keeps_attempt|apply keeps_effect]; auto.
Qed.

(** The steps from the instance reference on. *)
Lemma rest_after previous h :
  after h ->
  keeps after (
    effect (writeRef id (line (n_SandboxName n))) ;;
    effect (writeInstance (n_SandboxName n) (line id)) ;;
    context ← gets (fun h => bool_decide (d_context (dirOf id h) <> None));
    when (negb context) (effect (writeContext id)) ;;
    when (match previous with Some p => negb (n_SandboxName p =? n_SandboxName n)%string | None => false end)
      (attempt (effect (removeInstance (match previous with Some p => n_SandboxName p | None => "" end)))) ;;
    when (deletedOrTerminated n) (attempt (effect (removeInstance (n_SandboxName n)))) ;;
    maintainNodeSlugIndex n previous) h.
Proof.
  intros Ha. apply keeps_bind; [apply keeps_effect; [exact Ha|by apply after_dir]|]. intros _ h1 H1.
  apply keeps_bind; [apply keeps_effect; auto|]. intros _ h2 H2.
  apply keeps_bind; [by apply keeps_gets|]. intros context h3 H3.
  apply keeps_bind; [apply keeps_when; [exact H3|]; apply keeps_effect; [exact H3|by apply after_dir]|]. intros _ h4 H4.
  apply keeps_bind; [apply keeps_when; [exact H4|]; apply keeps_attempt; auto|]. intros _ h5 H5.
  apply keeps_bind; [apply keeps_when; [exact H5|]; apply keeps_attempt; auto|]. intros _ h6 H6.
  by apply slugIndex_after.
Qed.

Lemma save_safely : safely (SaveNode yamlMarshal yamlNode jsonBootstrap n b) safe (fun _ => after) h0.
Proof.
  unfold SaveNode. assert (Hs : safe h0) by (by left).
  eapply safely_bind; [apply (safely_effect safe _ (fun _ => before)); [exact Hs|left; auto|auto]|].
  intros [] h1 S1 H1. eapply safely_bind; [apply (safely_gets safe _ (fun _ => before)); [exact S1|exact H1]|].
  intros previous h2 S2 H2.
  eapply safely_bind; [apply (safely_effect safe _ (fun _ h => before h /\ d_bootstrap (dirOf id h) = Some (jsonBootstrap b)))|].
  { exact S2. }
  { left. auto. }
  { split; [auto|]. unfold writeBootstrap. by rewrite dirOf_self. }
  intros [] h3 S3 [H3 Hb]. assert (Ha : after (writeNode id record h3)) by (by apply after_node).
  eapply safely_bind; [apply (safely_effect safe _ (fun _ => after)); [exact S3|by right|exact Ha]|].
  intros [] h4 S4 H4. eapply safely_weaken.
  - apply (safely_mono after safe); [by right|]. by apply rest_after.
  - intros [] h' _ [H _]; exact H.
Qed.

(** ** The indexes of a save *)

(** The record there was, if it could be read. *)
Definition previous0 : option (Node Observation) :=
  match NodeByID yamlNode id h0 with Ok p => Some p | Err _ => None end.

(** An index after a save: only the entry of the node's own name, with a value
    the save gives it, and the entry of the name it had before, which is gone,
    can differ. *)
Definition touched (name : string) (written : option string -> Prop) (had : option string)
    (old new : gmap string string) : Prop :=
  forall k, new !! k = old !! k \/ (k = name /\ written (new !! k)) \/
    (had = Some k /\ k <> name /\ new !! k = None).

(** A slug is claimed by a live node and released by an ended one, whoever its
    entry names; an instance's entry is written in either case. *)
Definition slugWritten (v : option string) : Prop :=
  v = if deletedOrTerminated n then None else Some (line id).
Definition instanceWritten (v : option string) : Prop :=
  v = Some (line id) \/ deletedOrTerminated n = true /\ v = None.

Definition indexes (h : home) : Prop :=
  touched (n_Slug n) slugWritten (n_Slug <$> previous0) (h_bySlug h0) (h_bySlug h) /\
  touched (n_SandboxName n) instanceWritten (n_SandboxName <$> previous0) (h_byInstance h0) (h_byInstance h).

Lemma touched_delete_had name written had old new k :
  had = Some k -> k <> name -> touched name written had old new -> touched name written had old (delete k new).
Proof.
  intros Hh Hk Ht j. destruct (decide (j = k)) as [->|Hne].
  - right. right. by rewrite lookup_delete_eq.
  - rewrite lookup_delete_ne by done. apply Ht.
Qed.

Lemma touched_delete_name name (written : option string -> Prop) had old new :
  written None -> touched name written had old new -> touched name written had old (delete name new).
Proof.
  intros Hw Ht j. destruct (decide (j = name)) as [->|Hne].
  - right. left. by rewrite lookup_delete_eq.
  - rewrite lookup_delete_ne by done. apply Ht.
Qed.

Lemma touched_insert name (written : option string -> Prop) had old new v :
  written (Some v) -> touched name written had old new -> touched name written had old (<[name := v]> new).
Proof.
  intros Hw Ht j. destruct (decide (j = name)) as [->|Hne].
  - right. left. by rewrite lookup_insert_eq.
  - rewrite lookup_insert_ne by done. apply Ht.
Qed.

Lemma indexes_start : indexes h0.
Proof. split; by left. Qed.

(** The entry of the instance, once written, stays unless the node has ended. *)
Definition instanceThere (h : home) : Prop :=
  deletedOrTerminated n = false -> h_byInstance h !! n_SandboxName n = Some (line id).

Lemma save_indexes :
  safely (SaveNode yamlMarshal yamlNode jsonBootstrap n b) indexes
    (fun _ h => deletedOrTerminated n = false ->
       h_bySlug h !! n_Slug n = Some (line id) /\ h_byInstance h !! n_SandboxName n = Some (line id)) h0.
Proof.
  unfold SaveNode. assert (Hi : indexes h0) by exact indexes_start.
  eapply safely_bind; [apply (safely_effect _ _ (fun _ h => h = ensureNodeDir id h0)); [done|exact Hi|done]|].
  intros [] h1 I1 ->. eapply safely_bind.
  { apply (safely_gets _ _ (fun p _ => p = previous0)); [done|]. unfold previous0, NodeByID, ensureNodeDir.
    by rewrite dirOf_self. }
  intros previous h2 I2 ->.
  eapply safely_bind; [apply (keeps_effect indexes); [exact I2|exact I2]|]. intros [] h3 I3 _.
  eapply safely_bind; [apply (keeps_effect indexes); [exact I3|exact I3]|]. intros [] h4 I4 _.
  eapply safely_bind; [apply (keeps_effect indexes); [exact I4|exact I4]|]. intros [] h5 I5 _.
  assert (indexes (writeInstance (n_SandboxName n) (line id) h5)) as I6'.
  { split; [apply I5|]. apply touched_insert; [by left|apply I5]. }
  eapply safely_bind; [apply (safely_effect _ _ (fun _ => instanceThere)); [exact I5|exact I6'|]|].
  { intros _. cbn. by rewrite lookup_insert_eq. }
  intros [] h6 I6 T6.
  eapply safely_bind; [apply (safely_gets _ _ (fun _ => instanceThere)); [exact I6|exact T6]|].
  intros context h7 I7 T7. eapply safely_bind with (P := fun _ => instanceThere).
  { destruct context; cbn; [by apply safely_ret|]. by apply safely_effect. }
  intros [] h8 I8 T8. eapply safely_bind with (P := fun _ => instanceThere).
  { destruct previous0 as [p|] eqn:Ep; cbn; [|by apply safely_ret].
    destruct (n_SandboxName p =? n_SandboxName n)%string eqn:E; cbn; [by apply safely_ret|].
    apply String.eqb_neq in E. apply safely_attempt; [exact I8| |exact T8|].
    - split; [apply I8|]. apply touched_delete_had; [by rewrite Ep|done|apply I8].
    - intros Hl. cbn. rewrite lookup_delete_ne by done. by apply T8. }
  intros [] h9 I9 T9. eapply safely_bind with (P := fun _ => instanceThere).
  { destruct (deletedOrTerminated n) eqn:Ed; cbn; [|by apply safely_ret].
    apply safely_attempt; [exact I9| |exact T9|by intros H; rewrite H in Ed].
    split; [apply I9|]. apply touched_delete_name; [by right|apply I9]. }
  intros [] h10 I10 T10. unfold maintainNodeSlugIndex. eapply safely_bind with (P := fun _ => instanceThere).
  { destruct previous0 as [p|] eqn:Ep; cbn; [|by apply safely_ret].
    destruct (n_Slug p =? n_Slug n)%string eqn:E; cbn; [by apply safely_ret|].
    apply String.eqb_neq in E. apply safely_attempt; [exact I10| |exact T10|exact T10].
    split; [|apply I10]. apply touched_delete_had; [by rewrite Ep|done|apply I10]. }
  intros [] h11 I11 T11. destruct (deletedOrTerminated n) eqn:Ed.
  - apply safely_attempt; [exact I11| |done|done]. split; [|apply I11].
    apply touched_delete_name; [by unfold slugWritten; rewrite Ed|apply I11].
  - apply safely_effect; [exact I11| |].
    + split; [|apply I11]. apply touched_insert; [by unfold slugWritten; rewrite Ed|apply I11].
    + intros _. split; [cbn; by rewrite lookup_insert_eq|by apply T11].
Qed.

End Save.

Section SaveProperties.
Context {Observation B : Type}.
Context (yamlMarshal : nodeFileWire -> bytes) (yamlNode : bytes -> result nodeFileWire)
        (yamlStored : bytes -> result storedFields).
Context `{!NodeYAML yamlMarshal yamlNode yamlStored}.
Context (jsonBootstrap : B -> bytes) (parseBootstrap : bytes -> result B).
Implicit Types n : Node Observation.

(** C14: whatever step of a save fails, and wherever the process dies, the node
    reads as it did before or as the saved node, then with its bootstrap state; a
    save that reports success did the latter, and the entries of a live node are
    then in both indexes.  No other directory and nothing of the quarantine
    changes, a node that had a record still has one, and the instance reference
    never precedes the record.  In the indexes only the entries of the node's own
    names can change, once its record is there: to the node or, for one that has
    ended, to nothing, whoever they named (the names of an ended node may have
    been taken, and the indexes are caches of a scan); and those of the names it
    had before, to nothing. *)
Theorem save_crash_safe n b h fs :
  blank (n_ID n) = false -> (forall x, parseBootstrap (jsonBootstrap x) = Ok x) ->
  let '(h', _, o) := SaveNode yamlMarshal yamlNode jsonBootstrap n b h fs in
  let new := NodeByID yamlNode (n_ID n) h' = Ok (saved n) /\ LoadBootstrapState parseBootstrap (n_ID n) h' = Ok b in
  let previous := previous0 yamlNode n h in
  (forall j, j <> n_ID n -> h_nodes h' !! j = h_nodes h !! j) /\
  (NodeByID (Observation := Observation) yamlNode (n_ID n) h' = NodeByID yamlNode (n_ID n) h \/ new) /\
  (o = Done tt -> new /\ (deletedOrTerminated n = false ->
     h_bySlug h' !! n_Slug n = Some (line (n_ID n)) /\
     h_byInstance h' !! n_SandboxName n = Some (line (n_ID n)))) /\
  (nodeMetadataExists (n_ID n) h = true -> nodeMetadataExists (n_ID n) h' = true) /\
  (nodeMetadataExists (n_ID n) h' = false -> d_ref (dirOf (n_ID n) h') = d_ref (dirOf (n_ID n) h)) /\
  h_quarantine h' = h_quarantine h /\
  ((h_bySlug h' = h_bySlug h /\ h_byInstance h' = h_byInstance h) \/ new) /\
  touched (n_Slug n) (slugWritten n) (n_Slug <$> previous) (h_bySlug h) (h_bySlug h') /\
  touched (n_SandboxName n) (instanceWritten n) (n_SandboxName <$> previous)
    (h_byInstance h) (h_byInstance h').
Proof.
  intros Hid Hjson. pose proof (save_safely yamlMarshal yamlNode jsonBootstrap n b h fs) as Hs.
  pose proof (save_indexes yamlMarshal yamlNode jsonBootstrap n b h fs) as Hx.
  destruct (SaveNode _ _ _ _ _ h fs) as [[h' fs'] o].
  assert (Hnew : after yamlMarshal jsonBootstrap n b h h' ->
    NodeByID yamlNode (n_ID n) h' = Ok (saved n) /\ LoadBootstrapState parseBootstrap (n_ID n) h' = Ok b).
  { intros (_ & H2 & H3 & _). unfold NodeByID, LoadBootstrapState. rewrite H2, H3, Hjson. split; [|done].
    by apply (read_written yamlMarshal yamlNode yamlStored). }
  assert (Hsafe : safe yamlMarshal jsonBootstrap n b h h') by (destruct o; [apply Hs|exact Hs..]).
  assert (Hdone : o = Done tt -> after yamlMarshal jsonBootstrap n b h h') by (intros ->; apply Hs).
  assert (Hidx : indexes yamlNode n h h') by (destruct o; [apply Hx|exact Hx..]).
  assert (Hentries : o = Done tt -> deletedOrTerminated n = false ->
    h_bySlug h' !! n_Slug n = Some (line (n_ID n)) /\ h_byInstance h' !! n_SandboxName n = Some (line (n_ID n)))
    by (intros ->; apply Hx).
  clear Hs Hx. cbv zeta. split; [by destruct Hsafe as [H|H]; apply H|].
  split; [|split; [auto|]].
  { destruct Hsafe as [(_ & H2 & _)|Ha]; [left; unfold NodeByID; by rewrite H2|auto]. }
  split; [|split; [|split; [|split; [|exact Hidx]]]].
  - destruct Hsafe as [(_ & H2 & _)|(_ & H2 & _)]; unfold nodeMetadataExists; by rewrite H2.
  - destruct Hsafe as [(_ & _ & H3 & _)|(_ & H2 & _)]; [done|]. unfold nodeMetadataExists. by rewrite H2.
  - by destruct Hsafe as [(_ & _ & _ & _ & _ & H6)|(_ & _ & _ & _ & _ & H6)].
  - destruct Hsafe as [(_ & _ & _ & H4 & H5 & _)|Ha]; auto.
Qed.

End SaveProperties.

(** ** Quarantine *)

(** Nothing is added to the nodes or the indexes. *)
Definition shrink (h h' : home) : Prop :=
  h_nodes h' ⊆ h_nodes h /\ h_bySlug h' ⊆ h_bySlug h /\ h_byInstance h' ⊆ h_byInstance h.

Lemma shrink_refl h : shrink h h.
Proof. by repeat split. Qed.

Lemma shrink_trans a b c : shrink a b -> shrink b c -> shrink a c.
Proof. intros (H1 & H2 & H3) (H4 & H5 & H6). split; [by etrans|]. split; by etrans. Qed.

(** No directory of the node and no index entry for it. *)
Definition gone (id : string) (h : home) : Prop :=
  h_nodes h !! id = None /\ (forall k v, h_bySlug h !! k = Some v -> TrimSpace v <> id) /\
  (forall k v, h_byInstance h !! k = Some v -> TrimSpace v <> id).

Lemma gone_shrink id h h' : shrink h h' -> gone id h -> gone id h'.
Proof.
  intros (H1 & H2 & H3) (G1 & G2 & G3). split; [by eapply lookup_weaken_None|]. split; intros k v Hk.
  - apply (G2 k). by eapply lookup_weaken.
  - apply (G3 k). by eapply lookup_weaken.
Qed.

Section Quarantine.
Context (h0 : home) (ids : list string).

(** Every directory is where it was, or it is one of [ids], in a new place of the
    quarantine and no longer in an index. *)
Definition conserved (h : home) : Prop :=
  shrink h0 h /\
  (forall id d, h_nodes h0 !! id = Some d -> h_nodes h !! id = Some d \/
     (id ∈ ids /\ exists dest r, h_quarantine h !! dest = Some (d, r) /\ h_quarantine h0 !! dest = None)) /\
  (forall dest v, h_quarantine h0 !! dest = Some v -> h_quarantine h !! dest = Some v) /\
  (forall id, h_nodes h0 !! id <> None -> h_nodes h !! id = None -> gone id h).

Lemma conserved_start : conserved h0.
Proof. split; [apply shrink_refl|]. split; [by left|]. by split. Qed.

Lemma shrink_removeSlug k h : shrink h (removeSlug k h).
Proof. split; [done|]. split; [apply delete_subseteq|done]. Qed.
Lemma shrink_removeInstance k h : shrink h (removeInstance k h).
Proof. split; [done|]. split; [done|apply delete_subseteq]. Qed.

Lemma conserved_index h h' :
  shrink h h' -> h_nodes h' = h_nodes h -> h_quarantine h' = h_quarantine h -> conserved h -> conserved h'.
Proof.
  intros Hs Hn Hq (H1 & H2 & H3 & H4). unfold conserved. rewrite Hn, Hq. split; [by eapply shrink_trans|].
  split; [done|]. split; [done|]. intros id Hi Hi'. eapply gone_shrink; [exact Hs|]. by apply H4.
Qed.

Lemma shrink_moveDir id dest h : shrink h (moveDir id dest h).
Proof.
  unfold moveDir. destruct (h_nodes h !! id); [|apply shrink_refl]. split; [apply delete_subseteq|done].
Qed.

Lemma gone_moveDir id dest h :
  (forall k v, h_bySlug h !! k = Some v -> TrimSpace v <> id) ->
  (forall k v, h_byInstance h !! k = Some v -> TrimSpace v <> id) -> gone id (moveDir id dest h).
Proof.
  intros G1 G2. destruct (shrink_moveDir id dest h) as (_ & T2 & T3). split; [|split].
  - unfold moveDir. destruct (h_nodes h !! id) eqn:En; [|exact En]. apply lookup_delete_eq.
  - intros k v Hk. apply (G1 k). by eapply lookup_weaken.
  - intros k v Hk. apply (G2 k). by eapply lookup_weaken.
Qed.

Lemma conserved_moveDir id dest h :
  id ∈ ids -> h_quarantine h !! dest = None -> gone id (moveDir id dest h) -> conserved h -> conserved (moveDir id dest h).
Proof.
  intros Hid Hdest Hg (H1 & H2 & H3 & H4).
  assert (Hd0 : h_quarantine h0 !! dest = None).
  { destruct (h_quarantine h0 !! dest) as [v|] eqn:E; [|done]. by rewrite (H3 _ _ E) in Hdest. }
  split; [eapply shrink_trans; [exact H1|apply shrink_moveDir]|].
  assert (H4' : forall j, h_nodes h0 !! j <> None -> h_nodes (moveDir id dest h) !! j = None -> gone j (moveDir id dest h)).
  { intros j Hj Hj'. destruct (decide (j = id)) as [->|Hne]; [exact Hg|]. eapply gone_shrink; [apply shrink_moveDir|].
    apply H4; [exact Hj|]. unfold moveDir in Hj'. destruct (h_nodes h !! id); [|exact Hj'].
    cbn in Hj'. by rewrite lookup_delete_ne in Hj'. }
  split; [|split; [|exact H4']]; clear H4 H4' Hg; unfold moveDir; (destruct (h_nodes h !! id) as [d|] eqn:E; [|done]);
    cbn [h_nodes h_quarantine set_h_quarantine removeDir set_h_nodes].
  - intros j dj Hj. destruct (H2 j dj Hj) as [Hh|(Hj1 & dest' & r & Hr & Hr0)].
    + destruct (decide (j = id)) as [->|Hne]; [|left; by rewrite lookup_delete_ne].
      right. split; [exact Hid|]. exists dest, None. split; [|exact Hd0]. rewrite lookup_insert_eq. congruence.
    + right. split; [exact Hj1|]. exists dest', r. split; [|exact Hr0]. rewrite lookup_insert_ne; [exact Hr|congruence].
  - intros dest' v Hv. rewrite lookup_insert_ne by congruence. by apply H3.
Qed.

Lemma conserved_describe dest r h :
  h_quarantine h0 !! dest = None -> conserved h -> conserved (describeDir dest r h).
Proof.
  intros Hd0 (H1 & H2 & H3 & H4). unfold describeDir. destruct (h_quarantine h !! dest) as [[d o]|] eqn:E; [|done].
  split; [exact H1|]. cbn [h_nodes h_quarantine set_h_quarantine]. split; [|split; [|exact H4]].
  - intros j dj Hj. destruct (H2 j dj Hj) as [Hh|(Hj1 & dest' & r' & Hr & Hr0)]; [by left|]. right. split; [exact Hj1|].
    destruct (decide (dest' = dest)) as [->|Hne].
    + exists dest, (Some r). rewrite lookup_insert_eq. split; [congruence|done].
    + exists dest', r'. by rewrite lookup_insert_ne.
  - intros dest' v Hv. rewrite lookup_insert_ne by congruence. by apply H3.
Qed.

Lemma resolving_spec id index k : k ∈ resolving id index <-> exists v, index !! k = Some v /\ TrimSpace v = id.
Proof.
  unfold resolving. rewrite merge_sort_Permutation, list_elem_of_In, in_map_iff. split.
  - intros ([k' v] & <- & Hin). apply filter_In in Hin as [Hin Hv]. apply list_elem_of_In, elem_of_map_to_list in Hin.
    exists v. split; [exact Hin|]. by apply String.eqb_eq in Hv.
  - intros (v & Hk & Hv). exists (k, v). split; [done|]. apply filter_In.
    split; [by apply list_elem_of_In, elem_of_map_to_list|]. by apply String.eqb_eq.
Qed.

(** Removing a list of index files. *)
Lemma removeEntries_safely remove (index : home -> gmap string string) names h :
  (forall k g, index (remove k g) = delete k (index g)) -> (forall k g, shrink g (remove k g)) ->
  (forall k g, conserved g -> conserved (remove k g)) -> conserved h ->
  safely (removeEntries remove names) conserved
    (fun _ h' => shrink h h' /\ index h' ⊆ index h /\ forall k, k ∈ names -> index h' !! k = None) h.
Proof.
  intros Hi Hs Hc. revert h. induction names as [|name names IH]; intros h Hh.
  { apply safely_ret; [exact Hh|]. split; [apply shrink_refl|]. split; [done|]. intros k Hk. by apply not_elem_of_nil in Hk. }
  cbn [removeEntries]. eapply safely_bind.
  { apply (safely_effect _ _ (fun _ g => g = remove name h)); [exact Hh|by apply Hc|done]. }
  intros [] h1 H1 ->. eapply safely_bind; [by apply IH|]. intros removed h2 H2 (S2 & I2 & N2).
  apply safely_ret; [exact H2|]. rewrite Hi in I2. split; [by eapply shrink_trans|].
  split; [etrans; [exact I2|apply delete_subseteq]|].
  intros k Hk. apply elem_of_cons in Hk as [->|Hk]; [|by apply N2].
  eapply lookup_weaken_None; [apply lookup_delete_eq|exact I2].
Qed.

Lemma quarantineOne_safely stamp item h :
  cr_NodeID item ∈ ids -> conserved h ->
  safely (quarantineOne stamp item) conserved (fun _ h' => gone (cr_NodeID item) h' /\ shrink h h') h.
Proof.
  intros Hid Hh. unfold quarantineOne, removeNodeIndexEntries. set (id := cr_NodeID item) in *.
  eapply safely_bind with (P := fun _ h' => shrink h h' /\ (forall k v, h_bySlug h' !! k = Some v -> TrimSpace v <> id) /\
    (forall k v, h_byInstance h' !! k = Some v -> TrimSpace v <> id)).
  { eapply safely_bind; [apply (safely_gets _ _ (fun slugs g => g = h /\ slugs = resolving id (h_bySlug h))); [exact Hh|done]|].
    intros slugs h1 _ [-> ->]. eapply safely_bind.
    { apply (removeEntries_safely removeSlug h_bySlug); [done|apply shrink_removeSlug| |exact Hh].
      intros k g. apply conserved_index; [apply shrink_removeSlug|done|done]. }
    intros bySlug h1 H1 (S1 & I1 & N1).
    eapply safely_bind; [apply (safely_gets _ _ (fun names g => g = h1 /\ names = resolving id (h_byInstance h1))); [exact H1|done]|].
    intros names h2 _ [-> ->]. eapply safely_bind.
    { apply (removeEntries_safely removeInstance h_byInstance); [done|apply shrink_removeInstance| |exact H1].
      intros k g. apply conserved_index; [apply shrink_removeInstance|done|done]. }
    intros byInstance h2 H2 (S2 & I2 & N2). apply safely_ret; [exact H2|]. split; [by eapply shrink_trans|]. split.
    - intros k v Hk Hv. destruct S2 as (_ & Sub & _). pose proof (lookup_weaken _ _ k v Hk Sub) as Hk1.
      pose proof (lookup_weaken _ _ k v Hk1 I1) as Hk0. rewrite N1 in Hk1; [done|]. apply resolving_spec. by exists v.
    - intros k v Hk Hv. pose proof (lookup_weaken _ _ k v Hk I2) as Hk1. rewrite N2 in Hk; [done|].
      apply resolving_spec. by exists v. }
  intros removed h1 H1 (S1 & G1 & G2).
  eapply safely_bind; [apply (safely_gets _ _ (fun dest g => g = h1 /\ dest = quarantineDirPath stamp id h1)); [exact H1|done]|].
  intros dest h2 _ [-> ->]. destruct (quarantineDirPath stamp id h1) as [dest|e] eqn:E; [|by apply safely_raise].
  unfold quarantineDirPath in E. destruct (List.find _ _) as [c|] eqn:Ef; [|done]. injection E as <-.
  apply find_some in Ef as [_ Ef%bool_decide_eq_true]. assert (H0 : h_quarantine h0 !! c = None).
  { destruct (h_quarantine h0 !! c) as [v|] eqn:E0; [|done]. destruct H1 as (_ & _ & H3 & _). by rewrite (H3 _ _ E0) in Ef. }
  pose proof (gone_moveDir id c h1 G1 G2) as Hg. pose proof (conserved_moveDir id c h1 Hid Ef Hg H1) as Hm.
  eapply safely_bind; [apply (safely_effect _ _ (fun _ g => g = moveDir id c h1)); [exact H1|exact Hm|done]|].
  intros [] h2 _ ->.
  assert (Hsh : shrink h (moveDir id c h1)) by (eapply shrink_trans; [exact S1|apply shrink_moveDir]).
  set (r := Quarantined _ _ _ _). assert (Hr : shrink (moveDir id c h1) (describeDir c r (moveDir id c h1))).
  { unfold describeDir. destruct (h_quarantine (moveDir id c h1) !! c) as [[]|]; by repeat split. }
  eapply safely_bind.
  { apply (safely_effect _ _ (fun _ g => gone id g /\ shrink h g)); [exact Hm|by apply conserved_describe|].
    split; [by eapply gone_shrink|by eapply shrink_trans]. }
  intros [] h3 H3 Hq. by apply safely_ret.
Qed.

Lemma quarantineAll_safely stamp items h :
  Forall (fun item => cr_NodeID item ∈ ids) items -> conserved h ->
  safely (quarantineAll stamp items) conserved
    (fun _ h' => shrink h h' /\ forall item, item ∈ items -> gone (cr_NodeID item) h') h.
Proof.
  intros Hi. revert h. induction Hi as [|item items Hid _ IH]; intros h Hh.
  { apply safely_ret; [exact Hh|]. split; [apply shrink_refl|]. intros item Hin. by apply not_elem_of_nil in Hin. }
  cbn [quarantineAll]. eapply safely_bind; [by apply quarantineOne_safely|]. intros record h1 H1 [G1 S1].
  eapply safely_bind; [by apply IH|]. intros records h2 H2 [S2 G2]. apply safely_ret; [exact H2|].
  split; [by eapply shrink_trans|]. intros it Hin. apply elem_of_cons in Hin as [->|Hin]; [|by apply G2].
  by eapply gone_shrink.
Qed.

End Quarantine.

Lemma save_crash_safe_witness :
  let n := Sample.node "a1" "web" "web" "created" 5 None in
  let '(h', _, o) := SaveNode Sample.yamlMarshal Sample.yamlNode (fun x : bytes => x) n [1] (Home ∅ ∅ ∅ ∅)
    [Works; Works; Works; Dies true] in
  d_ref (dirOf "a1" h') = Some (line "web") /\
  (NodeByID (Observation := unit) Sample.yamlNode "a1" h' = NodeByID Sample.yamlNode "a1" (Home ∅ ∅ ∅ ∅) \/
   NodeByID Sample.yamlNode "a1" h' = Ok (saved n) /\ LoadBootstrapState Ok "a1" h' = Ok [1]).
Proof.
  cbv zeta. pose proof (save_crash_safe Sample.yamlMarshal Sample.yamlNode Sample.yamlStored (fun x : bytes => x) Ok
    (Sample.node "a1" "web" "web" "created" 5 None) [1] (Home ∅ ∅ ∅ ∅) [Works; Works; Works; Dies true] eq_refl (fun x => eq_refl)) as H.
  split; [vm_compute; reflexivity|exact (proj1 (proj2 H))].
Defined.
