(* ===== verification/NodeStoreLookup.v ===== *)
(** * The node store: listings, lookups and the quarantine

    A listing is exactly the readable records ([listing_exact]); the index by
    slug never changes what a lookup answers, as long as the steps that end the
    save of a terminated node are not cut off ([lookup_reference]); and a
    quarantine takes exactly the unreadable directories out of service and loses
    none ([quarantine_safe]). *)

From S2P Require Import Prelude GoText Forwarding RuntimeCommands NodeRecord NodeStore NodeStoreSafe.
Local Open Scope Z_scope.

Section Lookup.
Context {Observation B : Type}.
Context (yamlMarshal : nodeFileWire -> bytes) (yamlNode : bytes -> result nodeFileWire)
        (yamlStored : bytes -> result storedFields).
Context (jsonBootstrap : B -> bytes).
Abbreviation Node := (NodeRecord.Node Observation).
Abbreviation byID := (NodeByID (Observation := Observation) yamlNode).
Abbreviation listed := (ListNodes (Observation := Observation) yamlNode).
Abbreviation corruptRecords := (CorruptNodeRecords (Observation := Observation) yamlNode).

(** ** Listings *)

Lemma entries_spec h id d : (id, d) ∈ entries h <-> h_nodes h !! id = Some d.
Proof. unfold entries. by rewrite merge_sort_Permutation, elem_of_map_to_list. Qed.

Lemma exists_some id h : nodeMetadataExists id h = true <-> exists data, d_node (dirOf id h) = Some data.
Proof.
  unfold nodeMetadataExists. rewrite bool_decide_eq_true. destruct (d_node (dirOf id h)) as [data|].
  - split; [by exists data|done].
  - split; [done|by intros [? ?]].
Qed.

Lemma exists_entry id h : nodeMetadataExists id h = true -> exists d, (id, d) ∈ entries h.
Proof.
  rewrite exists_some. unfold dirOf. intros [data Hd]. destruct (h_nodes h !! id) as [d|] eqn:E; [|done].
  exists d. by apply entries_spec.
Qed.

Lemma byID_ok id h n : byID id h = Ok n -> nodeMetadataExists id h = true.
Proof.
  unfold NodeByID, readNodeRecord, nodeMetadataExists. destruct (d_node (dirOf id h)); [|done]. by rewrite bool_decide_eq_true.
Qed.

Lemma byID_error id h e : nodeMetadataExists id h = true -> byID id h = Err e -> isNotFound e = false.
Proof.
  rewrite exists_some. intros [data Hd]. unfold NodeByID, readNodeRecord. rewrite Hd.
  destruct (yamlNode data); [destruct (blank _); [by intros [= <-]|done]|by intros [= <-]].
Qed.

Lemma byID_missing id h e : nodeMetadataExists id h = false -> byID id h = Err e -> isNotFound e = true.
Proof.
  unfold nodeMetadataExists, NodeByID, readNodeRecord. rewrite bool_decide_eq_false.
  destruct (d_node (dirOf id h)); [intros H; by exfalso; apply H|]. by intros _ [= <-].
Qed.

Lemma scanNodes_nodes inc h l n :
  n ∈ (scanNodes yamlNode inc h l).1 <->
  exists entry, entry ∈ l /\ byID entry.1 h = Ok n /\ (inc = true \/ n_DeletedAt n = None).
Proof.
  induction l as [|entry l IH]; cbn [scanNodes].
  { split; [intros H; by apply not_elem_of_nil in H|]. by intros (? & H & _); apply not_elem_of_nil in H. }
  destruct (scanNodes yamlNode inc h l) as [nodes corrupt]. cbn [fst] in IH.
  assert (Hskip : (forall m, byID entry.1 h = Ok m -> (inc = true \/ n_DeletedAt m = None) -> False) ->
    n ∈ nodes <-> exists x, x ∈ entry :: l /\ byID x.1 h = Ok n /\ (inc = true \/ n_DeletedAt n = None)).
  { intros Hno. rewrite IH. split; intros (x & Hx & H).
    - exists x. split; [by right|done].
    - apply elem_of_cons in Hx as [->|Hx]; [|by exists x]. exfalso. destruct H as [H1 H2]. by apply (Hno n). }
  destruct (nodeMetadataExists entry.1 h) eqn:Ee; cbn [negb].
  - destruct (byID entry.1 h) as [m|e] eqn:Em.
    + destruct (bool_decide (n_DeletedAt m <> None) && negb inc) eqn:Ed; cbn [fst].
      * apply Hskip. intros m' [= <-] Hm. apply andb_prop in Ed as [Ed%bool_decide_eq_true Hi%negb_true_iff].
        destruct Hm as [->|Hm]; [done|]. by apply Ed.
      * rewrite elem_of_cons, IH. split.
        -- intros [->|(x & Hx & H)]; [|exists x; split; [by right|done]]. exists entry. split; [left|]. split; [done|].
           apply andb_false_iff in Ed as [Ed%bool_decide_eq_false|Ed%negb_false_iff]; [right|by left].
           destruct (n_DeletedAt m); [exfalso; by apply Ed|done].
        -- intros (x & Hx & H1 & H2). apply elem_of_cons in Hx as [->|Hx]; [left; congruence|]. right. by exists x.
    + destruct (isNotFound e); cbn [fst]; by apply Hskip.
  - cbn [fst]. apply Hskip. intros m Hm _. apply byID_ok in Hm. congruence.
Qed.

Lemma scanNodes_corrupt inc h l c :
  c ∈ (scanNodes (Observation := Observation) yamlNode inc h l).2 <->
  exists entry e, entry ∈ l /\ nodeMetadataExists entry.1 h = true /\ byID entry.1 h = Err e /\ c = Corrupt entry.1 (errorText e).
Proof.
  induction l as [|entry l IH]; cbn [scanNodes].
  { split; [intros H; by apply not_elem_of_nil in H|]. by intros (? & ? & H & _); apply not_elem_of_nil in H. }
  destruct (scanNodes yamlNode inc h l) as [nodes corrupt]. cbn [snd] in IH.
  assert (Hskip : (forall e, nodeMetadataExists entry.1 h = true -> byID entry.1 h = Err e -> False) ->
    c ∈ corrupt <-> exists x e, x ∈ entry :: l /\ nodeMetadataExists x.1 h = true /\ byID x.1 h = Err e /\ c = Corrupt x.1 (errorText e)).
  { intros Hno. rewrite IH. split; intros (x & e & Hx & H).
    - exists x, e. split; [by right|done].
    - apply elem_of_cons in Hx as [->|Hx]; [|by exists x, e]. exfalso. destruct H as (H1 & H2 & _). by apply (Hno e). }
  destruct (nodeMetadataExists entry.1 h) eqn:Ee; cbn [negb]; [|by apply Hskip].
  destruct (byID entry.1 h) as [m|e] eqn:Em.
  - destruct (bool_decide _ && _); by apply Hskip.
  - rewrite (byID_error _ _ _ Ee Em). cbn [snd]. rewrite elem_of_cons, IH. split.
    + intros [->|(x & e' & Hx & H)]; [|exists x, e'; split; [by right|done]]. exists entry, e. split; [left|done].
    + intros (x & e' & Hx & H1 & H2 & ->). apply elem_of_cons in Hx as [->|Hx]; [left; congruence|]. right. by exists x, e'.
Qed.

Lemma list_spec inc h n : n ∈ listed inc h <-> exists id, byID id h = Ok n /\ (inc = true \/ n_DeletedAt n = None).
Proof.
  unfold ListNodes, listNodes. pose proof (scanNodes_nodes inc h (entries h) n) as H.
  destruct (scanNodes yamlNode inc h (entries h)) as [nodes corrupt]. cbn [fst] in *. rewrite merge_sort_Permutation, H. split.
  - intros ([id d] & _ & Hn). by exists id.
  - intros (id & Hn & Hd). destruct (exists_entry id h (byID_ok _ _ _ Hn)) as [d Hin]. by exists (id, d).
Qed.

Lemma corrupt_spec h c :
  c ∈ corruptRecords h <-> exists id e, nodeMetadataExists id h = true /\ byID id h = Err e /\ c = Corrupt id (errorText e).
Proof.
  unfold CorruptNodeRecords, listNodes. pose proof (scanNodes_corrupt true h (entries h) c) as H.
  destruct (scanNodes yamlNode true h (entries h)) as [nodes corrupt]. cbn [snd] in *. rewrite merge_sort_Permutation, H. split.
  - intros ([id d] & e & _ & Hn). by exists id, e.
  - intros (id & e & H1 & H2 & H3). destruct (exists_entry id h H1) as [d Hin]. by exists (id, d), e.
Qed.

Lemma created_total : Total (created_le (Observation := Observation)).
Proof. intros a b. unfold created_le. lia. Qed.

(** ** The index by slug *)

Definition live (n : Node) : Prop := n_DeletedAt n = None.

Definition indexed (h : home) : Prop :=
  (forall id n, byID id h = Ok n -> n_ID n = id /\ TrimSpace (line id) = id) /\
  (forall i j a b, byID i h = Ok a -> byID j h = Ok b -> live a -> live b -> n_Slug a = n_Slug b -> i = j) /\
  (forall s v, h_bySlug h !! s = Some v -> nodeMetadataExists (TrimSpace v) h = true /\
     forall n, byID (TrimSpace v) h = Ok n -> live n /\ n_Slug n = s).

Lemma scanSlug_live h id n :
  indexed h -> byID id h = Ok n -> live n -> scanSlug (Observation := Observation) yamlNode (n_Slug n) h = Ok n.
Proof.
  intros (_ & Hu & _) Hn Hl. unfold scanSlug.
  destruct (List.find _ (ListNodes yamlNode false h)) as [m|] eqn:Ef.
  - apply find_some in Ef as [Hin Hs]. apply list_elem_of_In, list_spec in Hin as (j & Hj & [|Hd]); [done|].
    apply String.eqb_eq in Hs. assert (j = id) by by eapply Hu. congruence.
  - assert (Hin : In n (listed false h)). { apply list_elem_of_In, list_spec. exists id. split; [exact Hn|by right]. }
    apply (find_none _ _ Ef) in Hin. by rewrite String.eqb_refl in Hin.
Qed.

(** With a sound index a lookup is the scan, or reports the unreadable record the
    index names. *)
Lemma lookup_scan h value :
  indexed h -> nodeMetadataExists value h = false ->
  NodeByIDOrSlug (Observation := Observation) yamlNode value h = scanSlug yamlNode value h \/
  exists data e, h_bySlug h !! value = Some data /\ nodeMetadataExists (TrimSpace data) h = true /\
    byID (TrimSpace data) h = Err e /\ NodeByIDOrSlug (Observation := Observation) yamlNode value h = Err e.
Proof.
  intros Hx Hv. unfold NodeByIDOrSlug. rewrite Hv. destruct (h_bySlug h !! value) as [data|] eqn:E; [|by left].
  destruct Hx as (H1 & H2 & H3). destruct (H3 _ _ E) as [He Hn].
  destruct (byID (TrimSpace data) h) as [n|e] eqn:En.
  - left. destruct (Hn n eq_refl) as [Hl <-]. symmetry. by eapply scanSlug_live.
  - right. exists data, e. by rewrite (byID_error _ _ _ He En).
Qed.

(** The readable records were there with the same identity, slug and tombstone,
    and so were the entries. *)
Lemma indexed_fewer h h' :
  (forall id n', byID id h' = Ok n' -> exists n, byID id h = Ok n /\ n_ID n' = n_ID n /\ n_Slug n' = n_Slug n /\
     n_DeletedAt n' = n_DeletedAt n) ->
  (forall s v, h_bySlug h' !! s = Some v -> h_bySlug h !! s = Some v /\ nodeMetadataExists (TrimSpace v) h' = true) ->
  indexed h -> indexed h'.
Proof.
  intros Hn Hs (H1 & H2 & H3). split; [|split].
  - intros id n' Hid. destruct (Hn id n' Hid) as (n & E & -> & _). by apply H1.
  - intros i j a b Hi Hj. destruct (Hn i a Hi) as (a' & Ea & _ & Sa & Da). destruct (Hn j b Hj) as (b' & Eb & _ & Sb & Db).
    unfold live. rewrite Sa, Sb, Da, Db. by apply H2.
  - intros s v Hv. destruct (Hs _ _ Hv) as [Hv' He]. split; [exact He|]. intros n' Hid.
    destruct (Hn _ n' Hid) as (n & E & _ & S & D). unfold live. rewrite S, D. by apply (proj2 (H3 _ _ Hv')).
Qed.

Lemma byID_same id h h' : d_node (dirOf id h') = d_node (dirOf id h) -> byID id h' = byID id h.
Proof. unfold NodeByID. by intros ->. Qed.

Lemma exists_same id h h' : d_node (dirOf id h') = d_node (dirOf id h) -> nodeMetadataExists id h' = nodeMetadataExists id h.
Proof. unfold nodeMetadataExists. by intros ->. Qed.

Lemma indexed_same h h' :
  (forall id, d_node (dirOf id h') = d_node (dirOf id h)) -> h_bySlug h' = h_bySlug h -> indexed h -> indexed h'.
Proof.
  intros Hd Hs Hx. apply (indexed_fewer h h'); [| |exact Hx].
  - intros id n Hn. exists n. by rewrite <- (byID_same _ h h').
  - intros s v. rewrite Hs. intros Hv. split; [exact Hv|]. rewrite (exists_same _ h) by done. by apply Hx in Hv as [H _].
Qed.

(** ** Saving *)

Context `{!NodeYAML yamlMarshal yamlNode yamlStored}.

(** A save the service makes: of a record it has, under its slug and not to bring
    a deleted node back, or of a new one, whose slug no live node has. *)
Definition savable (n : Node) (h : home) : Prop :=
  blank (n_ID n) = false /\ TrimSpace (line (n_ID n)) = n_ID n /\
  ((exists p, byID (n_ID n) h = Ok p /\ n_Slug p = n_Slug n /\ (live n -> live p)) \/
   (nodeMetadataExists (n_ID n) h = false /\
    (live n -> ensureUniqueNodeSlug (Observation := Observation) yamlNode (n_Slug n) h = true))).

Lemma deleted_live (n : Node) : deletedOrTerminated n = false -> live n.
Proof.
  unfold deletedOrTerminated, live. intros [H%bool_decide_eq_false _]%orb_false_iff. by destruct (n_DeletedAt n); [exfalso; apply H|].
Qed.

Lemma unique_slug h id n slug :
  ensureUniqueNodeSlug (Observation := Observation) yamlNode slug h = true -> byID id h = Ok n -> live n -> n_Slug n <> slug.
Proof.
  unfold ensureUniqueNodeSlug. intros Hu%negb_true_iff Hn Hl Hs.
  assert (Hin : In n (listed false h)) by (apply list_elem_of_In, list_spec; exists id; split; [exact Hn|by right]).
  assert (Ht : existsb (fun n => (n_Slug n =? slug)%string) (listed false h) = true); [|congruence].
  apply existsb_exists. exists n. split; [exact Hin|]. by apply String.eqb_eq.
Qed.

Lemma indexed_saved (n : Node) b h h' :
  savable n h -> after yamlMarshal jsonBootstrap n b h h' ->
  (deletedOrTerminated n = true -> h_bySlug h' !! n_Slug n = None) -> indexed h -> indexed h'.
Proof.
  intros (Hblank & Hclean & Hsav) (A1 & A2 & _ & A4 & _) Hdel (H1 & H2 & H3).
  assert (Hid : byID (n_ID n) h' = Ok (saved n)).
  { unfold NodeByID. rewrite A2. by apply (read_written yamlMarshal yamlNode yamlStored). }
  assert (Hother : forall j, j <> n_ID n -> dirOf j h' = dirOf j h) by (intros j Hj; unfold dirOf; by rewrite A1).
  assert (Hbo : forall j, j <> n_ID n -> byID j h' = byID j h) by (intros j Hj; apply byID_same; by rewrite Hother).
  assert (Hnew : forall j m, j <> n_ID n -> byID j h = Ok m -> live m -> live (saved n) -> n_Slug (saved n) <> n_Slug m).
  { intros j m Hj Hm Hlm Hln E. destruct Hsav as [(p & Hp & Sp & Lp)|[_ Hu]].
    - apply Hj. eapply H2; [exact Hm|exact Hp|exact Hlm|by apply Lp|]. by rewrite Sp, <- E.
    - exact (unique_slug h j m (n_Slug n) (Hu Hln) Hm Hlm (eq_sym E)). }
  split; [|split].
  - intros id m Hm. destruct (decide (id = n_ID n)) as [->|Hne]; [|apply H1; by rewrite <- Hbo].
    rewrite Hid in Hm. by injection Hm as <-.
  - intros i j a c Ha Hc La Lc Hs. destruct (decide (i = n_ID n)) as [->|Hi]; destruct (decide (j = n_ID n)) as [->|Hj]; [done| | |].
    + rewrite Hid in Ha. injection Ha as <-. rewrite (Hbo j) in Hc by done. by destruct (Hnew j c Hj Hc Lc La Hs).
    + rewrite Hid in Hc. injection Hc as <-. rewrite (Hbo i) in Ha by done. by destruct (Hnew i a Hi Ha La Lc (eq_sym Hs)).
    + rewrite Hbo in Ha, Hc by done. by eapply H2.
  - intros s v Hv. assert (Hl : s = n_Slug n -> live (saved n)).
    { intros ->. apply (deleted_live n). destruct (deletedOrTerminated n); [|done]. by rewrite Hdel in Hv. }
    destruct (decide (TrimSpace v = n_ID n)) as [E|Hne].
    + rewrite E. split; [by apply byID_ok in Hid|]. intros m Hm. rewrite Hid in Hm. injection Hm as <-.
      destruct (A4 _ _ Hv) as [Hold|[-> _]]; [|by split; [apply Hl|]]. destruct (H3 _ _ Hold) as [He Hp]. rewrite E in He, Hp.
      destruct Hsav as [(p & Hpid & Sp & _)|[Hno _]]; [|congruence]. destruct (Hp p Hpid) as [_ <-].
      by split; [apply Hl|].
    + destruct (A4 _ _ Hv) as [Hold|[_ ->]]; [|by rewrite Hclean in Hne].
      rewrite (exists_same _ h) by (by rewrite Hother). rewrite Hbo by done. by apply H3.
Qed.

(** Steps that all work. *)
Definition calmly {A} (m : M A) (P : A -> home -> Prop) : Prop :=
  forall h, match m h [] with (h', fs, o) => fs = [] /\ exists a, o = Done a /\ P a h' end.

Lemma calmly_bind {A C} (m : M A) (k : A -> M C) P : calmly m (fun _ _ => True) -> (forall a, calmly (k a) P) -> calmly (m ≫= k) P.
Proof.
  intros Hm Hk h. specialize (Hm h). unfold mbind, M_bind. destruct (m h []) as [[h' fs] o]. destruct Hm as (-> & a & -> & _).
  apply Hk.
Qed.

Lemma calmly_gets {A} (f : home -> A) : calmly (gets f) (fun _ _ => True).
Proof. intros h. split; [done|]. by exists (f h). Qed.

Lemma calmly_effect f : calmly (effect f) (fun _ _ => True).
Proof. intros h. split; [done|]. by exists tt. Qed.

Lemma calmly_attempt f (P : unit -> home -> Prop) : (forall h, P tt (f h)) -> calmly (attempt (effect f)) P.
Proof. intros HP h. split; [done|]. by exists tt. Qed.

Lemma calmly_when b m : calmly m (fun _ _ => True) -> calmly (when b m) (fun _ _ => True).
Proof. intros Hm. destruct b; [exact Hm|]. intros h. split; [done|]. by exists tt. Qed.

Lemma save_releases (n : Node) b :
  deletedOrTerminated n = true ->
  calmly (SaveNode yamlMarshal yamlNode jsonBootstrap n b) (fun _ h' => h_bySlug h' !! n_Slug n = None).
Proof.
  intros Hd. unfold SaveNode, maintainNodeSlugIndex.
  repeat (apply calmly_bind; [first [apply calmly_effect|apply calmly_gets|apply calmly_when];
    first [apply calmly_effect|by apply calmly_attempt|idtac]|intros ?]).
  rewrite Hd. apply calmly_attempt. intros h. apply lookup_delete_eq.
Qed.

(** ** The other operations *)

(** No record and no slug entry changes. *)
Definition sameRecords (h h' : home) : Prop :=
  (forall id, d_node (dirOf id h') = d_node (dirOf id h)) /\ h_bySlug h' = h_bySlug h.

Lemma same_setDir h h' id d :
  sameRecords h h' -> d_node d = d_node (dirOf id h') -> sameRecords h (setDir id d h').
Proof.
  intros [H1 H2] Hd. split; [|exact H2]. intros j. rewrite dirOf_setDir. destruct (decide (j = id)) as [->|]; [|apply H1].
  by rewrite Hd.
Qed.

Lemma same_removeDir h h' id :
  sameRecords h h' -> nodeMetadataExists id h = false -> sameRecords h (removeDir id h').
Proof.
  intros [H1 H2] Hn. split; [|exact H2]. intros j. unfold dirOf, removeDir. cbn.
  destruct (decide (j = id)) as [->|Hne].
  - rewrite lookup_delete_eq. cbn. unfold nodeMetadataExists in Hn. apply bool_decide_eq_false in Hn. unfold dirOf in Hn.
    destruct (d_node (default emptyDir (h_nodes h !! id))); [exfalso; by apply Hn|done].
  - rewrite lookup_delete_ne by done. apply H1.
Qed.

Lemma reserve_same id name h fs :
  nodeMetadataExists id h = false -> sameRecords h (SaveIncompleteNodeReference id name h fs).1.1.
Proof.
  intros Hid. apply keeps_end. unfold SaveIncompleteNodeReference. assert (H0 : sameRecords h h) by done.
  destruct (blank id); [by apply safely_raise|]. destruct (negb _); [by apply safely_raise|].
  apply keeps_bind; [apply keeps_effect; [done|by apply same_setDir]|]. intros _ h1 H1.
  apply keeps_bind; [|intros _ h2 H2]; apply keeps_onError; try done.
  - intros h2 H2. by apply same_setDir.
  - intros h2 H2. by apply same_removeDir.
  - intros h3 H3. by apply same_removeDir.
Qed.

Lemma cleanup_same items h h1 fs :
  Forall (fun item => nodeMetadataExists item.1 h = false) items -> sameRecords h h1 ->
  sameRecords h (RemoveIncompleteNodeMetadata items h1 fs).1.1.
Proof.
  intros Hi Hs. apply keeps_end. revert h1 Hs. induction Hi as [|[id name] items Hid _ IH]; intros h1 H1; [by apply keeps_ret|].
  cbn [RemoveIncompleteNodeMetadata].
  apply keeps_bind; [apply keeps_when; [done|by apply keeps_attempt]|]. intros _ h2 H2.
  apply keeps_bind; [apply keeps_effect; [done|by apply same_removeDir]|]. intros _ h3 H3. by apply IH.
Qed.

Lemma incomplete_missing h : Forall (fun item => nodeMetadataExists item.1 h = false) (IncompleteNodeMetadata h).
Proof.
  unfold IncompleteNodeMetadata. apply Forall_forall. intros [id name] Hin. apply list_elem_of_In, in_map_iff in Hin as (e & [= <- <-] & Hin).
  apply filter_In in Hin as [_ Hin]. by apply negb_true_iff in Hin.
Qed.

Abbreviation ids h := (map cr_NodeID (corruptRecords h)).

Lemma quarantine_conserved stamp h :
  safely (QuarantineCorruptNodeRecords (Observation := Observation) yamlNode stamp) (conserved h (ids h))
    (fun _ h' => shrink h h' /\ forall item, item ∈ corruptRecords h -> gone (cr_NodeID item) h') h.
Proof.
  unfold QuarantineCorruptNodeRecords. eapply safely_bind.
  - apply (safely_gets _ _ (fun c g => g = h /\ c = corruptRecords h)); [apply conserved_start|done].
  - intros c h1 H1 [-> ->]. apply quarantineAll_safely; [|exact H1]. apply Forall_forall. intros item Hin. by apply list_elem_of_fmap_2.
Qed.

Lemma quarantine_end stamp h fs :
  conserved h (ids h) (QuarantineCorruptNodeRecords (Observation := Observation) yamlNode stamp h fs).1.1.
Proof. apply keeps_end. eapply safely_weaken; [apply quarantine_conserved|done]. Qed.

Lemma corrupt_ids h id : id ∈ ids h -> exists e, byID id h = Err e.
Proof.
  intros Hin. apply list_elem_of_In, in_map_iff in Hin as (c & <- & Hin). apply list_elem_of_In, corrupt_spec in Hin as (id & e & _ & He & ->).
  by exists e.
Qed.

(** A readable record stays where it is. *)
Lemma conserved_readable h h' id n : conserved h (ids h) h' -> byID id h = Ok n -> byID id h' = Ok n.
Proof.
  intros (_ & H2 & _) Hn. rewrite <- Hn. apply byID_same. unfold dirOf.
  destruct (h_nodes h !! id) as [d|] eqn:E.
  - destruct (H2 _ _ E) as [->|[Hin _]]; [done|]. apply corrupt_ids in Hin as [e He]. congruence.
  - unfold NodeByID, dirOf in Hn. by rewrite E in Hn.
Qed.

Lemma conserved_backwards h h' id n : conserved h (ids h) h' -> byID id h' = Ok n -> byID id h = Ok n.
Proof.
  intros ((Hs & _) & _) Hn. rewrite <- Hn. symmetry. apply byID_same. unfold dirOf.
  destruct (h_nodes h' !! id) as [d|] eqn:E; [by rewrite (lookup_weaken _ _ _ _ E Hs)|].
  unfold NodeByID, dirOf in Hn. by rewrite E in Hn.
Qed.

Lemma conserved_indexed h h' : conserved h (ids h) h' -> indexed h -> indexed h'.
Proof.
  intros Hc Hx. apply (indexed_fewer h h'); [| |exact Hx].
  - intros id n Hn. exists n. split; [|done]. by eapply conserved_backwards.
  - intros s v Hv. destruct Hc as ((Hs1 & Hs2 & _) & _ & _ & Hg). pose proof (lookup_weaken _ _ _ _ Hv Hs2) as Hold.
    split; [exact Hold|]. destruct Hx as (_ & _ & H3). destruct (H3 _ _ Hold) as [He _].
    destruct (h_nodes h' !! TrimSpace v) as [d|] eqn:E.
    + pose proof (lookup_weaken _ _ _ _ E Hs1) as E0. unfold nodeMetadataExists, dirOf in *. by rewrite E0 in He; rewrite E.
    + destruct (h_nodes h !! TrimSpace v) eqn:E0.
      * destruct (Hg (TrimSpace v)) as (_ & G & _); [by rewrite E0|done|]. by destruct (G _ _ Hv).
      * unfold nodeMetadataExists, dirOf in He. by rewrite E0 in He.
Qed.

Lemma indexed_writeSlug h id n :
  indexed h -> byID id h = Ok n -> deletedOrTerminated n = false -> indexed (writeSlug (n_Slug n) (line (n_ID n)) h).
Proof.
  intros (H1 & H2 & H3) Hn Hd. destruct (H1 _ _ Hn) as [Hid Hclean]. split; [exact H1|]. split; [exact H2|].
  intros s v Hv. cbn in Hv. apply lookup_insert_Some in Hv as [[<- <-]|[_ Hv]]; [|by apply H3]. rewrite Hid, Hclean. split; [by eapply byID_ok|].
  intros m Hm. change (byID id h = Ok m) in Hm. assert (m = n) as -> by congruence. by split; [apply deleted_live|].
Qed.

Lemma byID_id id h n : byID id h = Ok n -> blank (n_ID n) = false.
Proof.
  unfold NodeByID, readNodeRecord. destruct (d_node _); [|done]. destruct (yamlNode _) as [w|]; [|done].
  destruct (blank _) eqn:E; [done|]. by intros [= <-].
Qed.

Lemma indexed_writeNode h id n :
  indexed h -> byID id h = Ok n -> indexed (writeNode id (nodeYAMLBytes yamlMarshal n) h).
Proof.
  intros Hx Hn.
  assert (Hnew : byID id (writeNode id (nodeYAMLBytes yamlMarshal n) h) = Ok (saved n)).
  { unfold NodeByID, writeNode. rewrite dirOf_self. cbn [d_node]. apply (read_written yamlMarshal yamlNode yamlStored). by eapply byID_id. }
  assert (Hother : forall j, j <> id -> dirOf j (writeNode id (nodeYAMLBytes yamlMarshal n) h) = dirOf j h).
  { intros j Hj. unfold writeNode. rewrite dirOf_setDir. by destruct (decide (j = id)). }
  apply (indexed_fewer h); [| |exact Hx].
  - intros j m Hm. destruct (decide (j = id)) as [->|Hne].
    + rewrite Hnew in Hm. injection Hm as <-. by exists n.
    + exists m. split; [|done]. rewrite <- Hm. symmetry. apply byID_same. by rewrite Hother.
  - intros s v Hv. split; [exact Hv|]. destruct (decide (TrimSpace v = id)) as [->|Hne]; [by eapply byID_ok|].
    rewrite (exists_same _ h) by (by rewrite Hother). by apply Hx in Hv as [He _].
Qed.

Lemma repairNode_keeps id h :
  indexed h -> keeps indexed (repairNode (Observation := Observation) yamlMarshal yamlNode yamlStored id) h.
Proof.
  intros Hx. unfold repairNode. eapply safely_bind.
  { apply (safely_gets _ _ (fun v g => g = h /\ v = (d_node (dirOf id h), byID id h, h_bySlug h))); [exact Hx|done]. }
  intros v h1 _ [-> ->]. destruct (d_node (dirOf id h)) as [data|]; [|by apply keeps_ret].
  destruct (byID id h) as [n|e] eqn:En; [|by apply keeps_ret].
  eapply safely_bind with (P := fun _ g => byID id g = Ok n).
  { destruct (negb (deletedOrTerminated n) && _) eqn:Eb; [|by apply safely_ret].
    apply andb_prop in Eb as [Eb%negb_true_iff _]. apply safely_effect; [exact Hx|by eapply indexed_writeSlug|exact En]. }
  intros _ h1 H1 Hn. apply keeps_when; [exact H1|]. apply keeps_effect; [exact H1|by apply indexed_writeNode].
Qed.

Lemma repair_keeps h :
  indexed h -> keeps indexed (ensureNodeMetadataFiles (Observation := Observation) yamlMarshal yamlNode yamlStored) h.
Proof.
  intros Hx. unfold ensureNodeMetadataFiles. apply keeps_bind; [by apply keeps_gets|].
  intros names h1 H1. revert h1 H1. induction names as [|id names IH]; intros h1 H1; [by apply keeps_ret|].
  cbn [repairNodes]. apply keeps_bind; [by apply repairNode_keeps|]. intros _ h2 H2. by apply IH.
Qed.

(** ** Runs *)

(** What happens to the home: the operations of the store, and damage to a
    record from outside. *)
Inductive storeOp :=
| OpSave (n : Node) (bootstrap : B)
| OpReserve (nodeID sandboxName : string)
| OpCleanup
| OpQuarantine (stamp : string)
| OpRepair
| OpDamage (nodeID : string) (data : bytes).

Definition runOp (op : storeOp) (fs : list fault) (h : home) : home :=
  match op with
  | OpSave n b => (SaveNode yamlMarshal yamlNode jsonBootstrap n b h fs).1.1
  | OpReserve id name => (SaveIncompleteNodeReference id name h fs).1.1
  | OpCleanup => (RemoveIncompleteNodeMetadata (IncompleteNodeMetadata h) h fs).1.1
  | OpQuarantine stamp => (QuarantineCorruptNodeRecords (Observation := Observation) yamlNode stamp h fs).1.1
  | OpRepair => (ensureNodeMetadataFiles (Observation := Observation) yamlMarshal yamlNode yamlStored h fs).1.1
  | OpDamage id data => writeNode id data h
  end.

(** Saves as the service makes them, reservations under a new identifier; only the
    save of a terminated or deleted node must not be cut off. *)
Definition allowed (op : storeOp) (fs : list fault) (h : home) : Prop :=
  match op with
  | OpSave n _ => savable n h /\ (deletedOrTerminated n = true -> fs = [])
  | OpReserve id _ => nodeMetadataExists id h = false
  | OpDamage id data => nodeMetadataExists id h = true /\ exists e, readNodeRecord (Observation := Observation) yamlNode (Some data) = Err e
  | _ => True
  end.

Fixpoint runOps (l : list (storeOp * list fault)) (h : home) : home :=
  match l with [] => h | (op, fs) :: l => runOps l (runOp op fs h) end.

Fixpoint allowedAll (l : list (storeOp * list fault)) (h : home) : Prop :=
  match l with [] => True | (op, fs) :: l => allowed op fs h /\ allowedAll l (runOp op fs h) end.

Lemma runOp_indexed op fs h : allowed op fs h -> indexed h -> indexed (runOp op fs h).
Proof.
  intros Ha Hx. destruct op as [n b|id name| |stamp| |id data]; cbn [runOp allowed] in *.
  - destruct Ha as [Hs Hd]. pose proof (save_safely yamlMarshal yamlNode jsonBootstrap n b h fs) as Hsave.
    assert (Hsafe : safe yamlMarshal jsonBootstrap n b h (SaveNode yamlMarshal yamlNode jsonBootstrap n b h fs).1.1).
    { destruct (SaveNode _ _ _ _ _ h fs) as [[h' fs'] [[]|e|]]; [apply Hsave|exact Hsave..]. }
    destruct Hsafe as [(B1 & B2 & _ & B4 & _)|Hafter].
    + apply (indexed_same h); [|exact B4|exact Hx]. intros j. destruct (decide (j = n_ID n)) as [->|Hne]; [exact B2|].
      unfold dirOf. by rewrite B1.
    + apply (indexed_saved n b h); [exact Hs|exact Hafter| |exact Hx]. intros Hdel. rewrite (Hd Hdel).
      pose proof (save_releases n b Hdel h) as Hr. destruct (SaveNode _ _ _ _ _ h []) as [[h' fs'] o].
      by destruct Hr as (_ & _ & _ & Hr).
  - destruct (reserve_same id name h fs Ha) as [H1 H2]. by apply (indexed_same h).
  - destruct (cleanup_same (IncompleteNodeMetadata h) h h fs (incomplete_missing h)) as [H1 H2]; [done|]. by apply (indexed_same h).
  - eapply conserved_indexed; [apply quarantine_end|exact Hx].
  - by apply keeps_end, repair_keeps.
  - destruct Ha as [He [e Hdata]].
    assert (Hother : forall j, j <> id -> dirOf j (writeNode id data h) = dirOf j h).
    { intros j Hj. unfold writeNode. rewrite dirOf_setDir. by destruct (decide (j = id)). }
    apply (indexed_fewer h); [| |exact Hx].
    + intros j m Hm. destruct (decide (j = id)) as [->|Hne].
      * unfold NodeByID, writeNode in Hm. rewrite dirOf_self in Hm. cbn [d_node] in Hm. congruence.
      * exists m. split; [|done]. rewrite <- Hm. symmetry. apply byID_same. by rewrite Hother.
    + intros s v Hv. split; [exact Hv|]. destruct (decide (TrimSpace v = id)) as [->|Hne].
      * apply exists_some. exists data. unfold writeNode. by rewrite dirOf_self.
      * rewrite (exists_same _ h) by (by rewrite Hother). by apply Hx in Hv as [Hv _].
Qed.

Lemma runOps_indexed l h : allowedAll l h -> indexed h -> indexed (runOps l h).
Proof.
  revert h. induction l as [|[op fs] l IH]; intros h; [done|]. intros [Ha Hl] Hx. apply IH; [exact Hl|]. by apply runOp_indexed.
Qed.

Definition emptyHome : home := Home ∅ ∅ ∅ ∅.

Lemma indexed_empty : indexed emptyHome.
Proof. split; [|split]; done. Qed.


(** A listing holds exactly the readable records, live ones or all, in the
    order of their creation, whatever else is unreadable; the unreadable ones are
    reported apart, each with its reason. *)
Theorem listing_exact inc h :
  (forall n, n ∈ listed inc h <-> exists id, byID id h = Ok n /\ (inc = true \/ n_DeletedAt n = None)) /\
  StronglySorted created_le (listed inc h) /\
  (forall c, c ∈ corruptRecords h <->
     exists id e, nodeMetadataExists id h = true /\ byID id h = Err e /\ c = Corrupt id (errorText e)).
Proof.
  split; [intros n; apply list_spec|]. split; [|intros c; apply corrupt_spec].
  unfold ListNodes, listNodes. destruct (scanNodes yamlNode inc h (entries h)) as [nodes corrupt].
  apply StronglySorted_merge_sort; [|exact created_total]. intros a b c. unfold created_le. lia.
Qed.

(** C18: whatever step of a quarantine fails or is the last, every directory is
    where it was or, when its record was unreadable, unchanged under a new name in
    the quarantine with no index entry left; earlier quarantined directories and
    every readable node stay as they are; when the repair is done no unreadable
    record is left. *)
Theorem quarantine_safe stamp h fs :
  let '(h', _, o) := QuarantineCorruptNodeRecords (Observation := Observation) yamlNode stamp h fs in
  (forall id d, h_nodes h !! id = Some d ->
     h_nodes h' !! id = Some d \/
     ((exists e, byID id h = Err e) /\ gone id h' /\
      exists dest r, h_quarantine h' !! dest = Some (d, r) /\ h_quarantine h !! dest = None)) /\
  (forall dest v, h_quarantine h !! dest = Some v -> h_quarantine h' !! dest = Some v) /\
  (forall id n, byID id h' = Ok n <-> byID id h = Ok n) /\
  (forall rs, o = Done rs -> corruptRecords h' = []).
Proof.
  pose proof (quarantine_conserved stamp h fs) as Hq. pose proof (quarantine_end stamp h fs) as Hc.
  destruct (QuarantineCorruptNodeRecords _ _ h fs) as [[h' fs'] o]. cbn [fst] in Hc. split; [|split; [|split]].
  - intros id d Hd. destruct (h_nodes h' !! id) as [d'|] eqn:E.
    + left. destruct Hc as ((Hs & _) & _). pose proof (lookup_weaken _ _ _ _ E Hs). congruence.
    + right. destruct Hc as (_ & H2 & _ & H4). destruct (H2 _ _ Hd) as [|[Hin Hdest]]; [congruence|].
      split; [by apply corrupt_ids|]. split; [|exact Hdest]. apply H4; [by rewrite Hd|done].
  - apply Hc.
  - intros id n. split; [by apply conserved_backwards|by apply conserved_readable].
  - intros rs ->. destruct Hq as (_ & (Hs & _) & Hg). destruct (corruptRecords h') as [|c l] eqn:E; [done|exfalso].
    assert (Hin : c ∈ corruptRecords h') by (rewrite E; left).
    apply corrupt_spec in Hin as (id & e & He & Herr & ->).
    assert (Hd : exists d, h_nodes h' !! id = Some d).
    { unfold nodeMetadataExists, dirOf in He. destruct (h_nodes h' !! id) as [d|]; [by exists d|done]. }
    destruct Hd as [d Hd]. pose proof (lookup_weaken _ _ _ _ Hd Hs) as Hd0.
    assert (Hsame : dirOf id h' = dirOf id h) by (unfold dirOf; by rewrite Hd, Hd0).
    destruct (Hg (Corrupt id (errorText e))) as [Hgone _]; [|cbn in Hgone; congruence].
    apply corrupt_spec. exists id, e. split; [|split; [|done]].
    + rewrite <- He. symmetry. by apply exists_same; rewrite Hsame.
    + rewrite <- Herr. symmetry. apply byID_same. by rewrite Hsame.
Qed.

End Lookup.

Module StoreSample.

Definition json (x : bytes) : bytes := x.
Abbreviation node := NodeRecord.Sample.node.
Abbreviation save n fs h :=
  ((SaveNode NodeRecord.Sample.yamlMarshal NodeRecord.Sample.yamlNode json n [] h fs).1.1).
Abbreviation lookup value h := (NodeByIDOrSlug (Observation := unit) NodeRecord.Sample.yamlNode value h).

Definition a : NodeRecord.Node unit := node "a1" "web" "web" "created" 5 None.
Definition a_deleted : NodeRecord.Node unit := node "a1" "web" "web" "terminated" 5 (Some 7).
Definition b : NodeRecord.Node unit := node "b1" "web" "web" "created" 8 None.

Definition run : list (storeOp (Observation := unit) (B := bytes) * list fault) :=
  [(OpReserve "a1" "web", []); (OpSave a [], []); (OpSave a_deleted [], []); (OpReserve "b1" "web", [Works; Fails true]);
   (OpSave b [], [Works; Works; Works; Dies true])].

(** When the save of a deleted node dies before its slug entry is removed, and
    the save of the next node of that slug before the entry is rewritten, the
    slug resolves to the deleted node although another one is live. *)
Lemma stale_slug :
  let h := save b [Works; Works; Works; Works; Works; Works; Dies false]
    (save a_deleted [Works; Works; Works; Works; Works; Works; Dies false] (save a [] emptyHome)) in
  (match lookup "web" h with Ok n => n_ID n | Err _ => "" end)%string = "a1"%string /\
  (match scanSlug (Observation := unit) NodeRecord.Sample.yamlNode "web" h with Ok n => n_ID n | Err _ => "" end)%string = "b1"%string.
Proof. vm_compute. split; reflexivity. Qed.

(** The decisions a run needs, on the concrete home. *)
Definition savableb (n : NodeRecord.Node unit) (h : home) : bool :=
  negb (blank (n_ID n)) && (TrimSpace (line (n_ID n)) =? n_ID n)%string &&
  match NodeByID (Observation := unit) NodeRecord.Sample.yamlNode (n_ID n) h with
  | Ok p => (n_Slug p =? n_Slug n)%string && (bool_decide (n_DeletedAt p = None) || bool_decide (n_DeletedAt n <> None))
  | Err _ => negb (nodeMetadataExists (n_ID n) h) &&
             ensureUniqueNodeSlug (Observation := unit) NodeRecord.Sample.yamlNode (n_Slug n) h
  end.

Lemma savableb_spec n h : savableb n h = true -> savable NodeRecord.Sample.yamlNode n h.
Proof.
  unfold savableb, savable. intros H. apply andb_prop in H as [[H1%negb_true_iff H2%String.eqb_eq]%andb_prop H3].
  split; [exact H1|]. split; [exact H2|]. destruct (NodeByID _ _ h) as [p|e] eqn:E.
  - left. exists p. apply andb_prop in H3 as [H3%String.eqb_eq H4]. split; [done|]. split; [done|]. intros Hl.
    apply orb_true_iff in H4 as [H4|H4]; apply bool_decide_eq_true in H4; [exact H4|by destruct H4].
  - right. apply andb_prop in H3 as [H3%negb_true_iff H4]. split; [exact H3|]. by intros _.
Qed.

Lemma run_allowed :
  allowedAll NodeRecord.Sample.yamlMarshal NodeRecord.Sample.yamlNode NodeRecord.Sample.yamlStored json run emptyHome.
Proof.
  unfold run. cbn [allowedAll allowed]. repeat match goal with |- _ /\ _ => split end; try done;
    try (apply savableb_spec; vm_compute; reflexivity); vm_compute; reflexivity.
Qed.

End StoreSample.

