(* ===== verification/SandboxRuntime.v ===== *)
(** * The VM runtime's client

    [LimaClient] of [internal/codelima/lima.go] as the service uses it: creating,
    starting, stopping, deleting, cloning and listing instances.  The world is the
    metadata home of [NodeStore] with the instances that exist.  A limactl command
    concerns one instance; when it fails or is the last thing the process does, it
    leaves that instance in any state.  Only for a delete that reports success is
    it relied on that the instance is gone; everything else the client checks by
    listing.  Resolving templates and commands, probing LIMA_HOME and listing are
    steps that can fail. *)

From S2P Require Import Prelude GoText Forwarding RuntimeCommands NodeRecord NodeInput NodeStore.
Local Open Scope Z_scope.

(** ** Observations *)

Abbreviation ObservationStatus := string (only parsing).
Definition ObservationRunning : ObservationStatus := "running".
Definition ObservationStopped : ObservationStatus := "stopped".

(** [RuntimeObservation]; its address fields are not modelled. *)
Record RuntimeObservation := Observed {
  ro_Name : string;
  ro_Exists : bool;
  ro_Status : ObservationStatus;
}.

Abbreviation Node := (NodeRecord.Node RuntimeObservation).
Abbreviation instances := (gmap string ObservationStatus) (only parsing).

(** ** The world and the fates of steps *)

Record world := World {
  w_home : home;
  w_vms : gmap string ObservationStatus;
}.

(** What a limactl command does to its instance: it returns, or the process that
    waits for it dies. *)
Inductive commandFate :=
| Ran (ok : bool) (rest : option ObservationStatus)
| Killed (rest : option ObservationStatus).

(** A command in a guest. *)
Inductive guestFate :=
| GuestDone
| GuestFailed (e : go_error) (exitCode : option Z) (canceled : bool)
| GuestDied.

(** What the environment decides, in the order in which it is asked. *)
Record fates := Fates {
  f_store : list fault;      (* locks, events, and the home except for names *)
  f_naming : list fault;     (* the home where names are reserved and released *)
  f_steps : list fault;      (* other steps that can fail *)
  f_commands : list commandFate;
  f_guest : list guestFate;
  f_listings : list (option instances);   (* answers from the observation cache *)
  f_times : list time;
  f_ids : list string;
}.

Definition calm : fates := Fates [] [] [] [] [] [] [] [].

Definition Run (A : Type) : Type := world -> fates -> world * fates * outcome A.

#[export] Instance Run_ret : MRet Run := fun A a w f => (w, f, Done a).
#[export] Instance Run_bind : MBind Run := fun A B k m w f =>
  match m w f with
  | (w, f, Done a) => k a w f
  | (w, f, Failed e) => (w, f, Failed e)
  | (w, f, Died) => (w, f, Died)
  end.

Definition fail {A} (e : go_error) : Run A := fun w f => (w, f, Failed e).
Definition reads {A} (g : world -> A) : Run A := fun w f => (w, f, Done (g w)).
Definition lift {A} (r : result A) : Run A := match r with Ok a => mret a | Err e => fail e end.
Definition tryRun {A} (m : Run A) : Run (result A) := fun w f =>
  match m w f with
  | (w, f, Done a) => (w, f, Done (Ok a))
  | (w, f, Failed e) => (w, f, Done (Err e))
  | (w, f, Died) => (w, f, Died)
  end.
(** [_ = f()], or an error that is only logged. *)
Definition ignore (m : Run unit) : Run unit := _ ← tryRun m; mret tt.
Definition whenRun (b : bool) (m : Run unit) : Run unit := if b then m else mret tt.

(** An operation of the store, and one whose steps have the fates of names. *)
Definition store {A} (m : M A) : Run A := fun w f =>
  match m (w_home w) (f_store f) with
  | (h, fs, o) =>
      (World h (w_vms w),
       Fates fs (f_naming f) (f_steps f) (f_commands f) (f_guest f) (f_listings f) (f_times f) (f_ids f), o)
  end.
Definition naming {A} (m : M A) : Run A := fun w f =>
  match m (w_home w) (f_naming f) with
  | (h, fs, o) =>
      (World h (w_vms w),
       Fates (f_store f) fs (f_steps f) (f_commands f) (f_guest f) (f_listings f) (f_times f) (f_ids f), o)
  end.

(** A step that can fail or be the last, without an effect on the world. *)
Definition nothing : M unit := effect (fun h => h).
Definition durable : Run unit := store nothing.
Definition step : Run unit := fun w f =>
  match nothing (w_home w) (f_steps f) with
  | (_, fs, o) =>
      (w, Fates (f_store f) (f_naming f) fs (f_commands f) (f_guest f) (f_listings f) (f_times f) (f_ids f), o)
  end.

Definition now : Run time := fun w f =>
  (w, Fates (f_store f) (f_naming f) (f_steps f) (f_commands f) (f_guest f) (f_listings f) (tail (f_times f)) (f_ids f),
   Done (default 0 (head (f_times f)))).
Definition newID : Run string := fun w f =>
  (w, Fates (f_store f) (f_naming f) (f_steps f) (f_commands f) (f_guest f) (f_listings f) (f_times f) (tail (f_ids f)),
   Done (default ""%string (head (f_ids f)))).

(** ** Commands *)

Definition setVM (name : string) (rest : option ObservationStatus) (w : world) : world :=
  World (w_home w) (partial_alter (fun _ => rest) name (w_vms w)).
Definition dropCommand (f : fates) : fates :=
  Fates (f_store f) (f_naming f) (f_steps f) (tail (f_commands f)) (f_guest f) (f_listings f) (f_times f) (f_ids f).

Definition commandError : go_error := EApp "ExternalCommandFailed" "limactl failed" 6.

(** A command on an instance that is to leave it as [intended]. *)
Definition command (name : string) (intended : option ObservationStatus) : Run unit := fun w f =>
  match head (f_commands f) with
  | None => (setVM name intended w, f, Done tt)
  | Some (Ran true rest) => (setVM name rest w, dropCommand f, Done tt)
  | Some (Ran false rest) => (setVM name rest w, dropCommand f, Failed commandError)
  | Some (Killed rest) => (setVM name rest w, dropCommand f, Died)
  end.

(** A delete that reports success. *)
Definition deleteCommand (name : string) : Run unit := fun w f =>
  match head (f_commands f) with
  | Some (Ran true _) => (setVM name None w, dropCommand f, Done tt)
  | _ => command name None w f
  end.

(** ** Listing *)

Definition listDirect : Run instances := step ;; reads w_vms.
Definition ListUncached : Run instances := listDirect.

(** [List] answers from the observer's cache when that is running. *)
Definition List : Run instances := fun w f =>
  match f_listings f with
  | Some cached :: l =>
      (w, Fates (f_store f) (f_naming f) (f_steps f) (f_commands f) (f_guest f) l (f_times f) (f_ids f), Done cached)
  | None :: l =>
      listDirect w (Fates (f_store f) (f_naming f) (f_steps f) (f_commands f) (f_guest f) l (f_times f) (f_ids f))
  | [] => listDirect w f
  end.

Definition findObservation (observations : instances) (name : string) : option RuntimeObservation :=
  Observed name true <$> observations !! name.

Definition externalCommandFailed (message : string) : go_error := EApp "ExternalCommandFailed" message 6.

Definition verifyObservation (name : string) (expected : ObservationStatus) : Run unit :=
  observations ← listDirect;
  match findObservation observations name with
  | None => fail (notFound "Lima instance not found after runtime operation")
  | Some observation =>
      if (ro_Status observation =? expected)%string then mret tt
      else fail (externalCommandFailed "Lima instance did not reach the expected state")
  end.

(** ** The client *)

(** [runtimeMutationError] marks the error of a call that may have created its
    target; the mark takes the place of the category here. *)
Definition runtimeMutationError (e : go_error) : go_error := EApp "RuntimeMutation" (errorText e) 6.
Definition runtimeMutationMayHaveCreated (e : go_error) : bool :=
  match e with EApp category _ _ => (category =? "RuntimeMutation")%string | _ => false end.

Definition mayHaveCreated (m : Run unit) : Run unit :=
  r ← tryRun m; match r with Ok _ => mret tt | Err e => fail (runtimeMutationError e) end.

Definition sandboxNameError : go_error :=
  invalidArgument "sandbox name must start with an alphanumeric, contain only alphanumeric, dots, hyphens, and underscores, and be at most 128 characters".

Definition checkSandboxName (name : string) : Run unit :=
  if validateSandboxName name then mret tt else fail sandboxNameError.

Definition validateLimaNode (n : Node) : result unit :=
  if negb (validateSandboxName (n_SandboxName n)) then Err sandboxNameError
  else if blank (n_ID n) then Err (invalidArgument "node id is required")
  else if blank (nf_Image (n_fields n)) then Err (invalidArgument "node image is required")
  else if (nf_VCPUs (n_fields n) =? 0) || (nf_MemoryMiB (n_fields n) =? 0) || (nf_DiskMiB (n_fields n) =? 0)
  then Err (invalidArgument "node vcpus, memory, and disk must be positive")
  else match validatePorts (nf_Ports (n_fields n)) with Ok _ => Ok tt | Err e => Err e end.

Definition Create (n : Node) : Run unit :=
  lift (validateLimaNode n) ;;
  step ;;   (* LIMA_HOME *)
  observations ← listDirect;
  match findObservation observations (n_SandboxName n) with
  | Some _ => fail (preconditionFailed "Lima instance name already exists")
  | None =>
      step ;;   (* the template and the command *)
      mayHaveCreated (command (n_SandboxName n) (Some ObservationStopped) ;;
                      verifyObservation (n_SandboxName n) ObservationStopped)
  end.

Definition Start (n : Node) : Run unit :=
  step ;; command (n_SandboxName n) (Some ObservationRunning) ;;
  verifyObservation (n_SandboxName n) ObservationRunning.

Definition Stop (n : Node) : Run unit :=
  step ;; command (n_SandboxName n) (Some ObservationStopped) ;;
  verifyObservation (n_SandboxName n) ObservationStopped.

(** [Delete] of the instance with a name; the rest of the node is not used. *)
Definition Delete (n : Node) : Run unit :=
  checkSandboxName (n_SandboxName n) ;;
  observations ← listDirect;
  match findObservation observations (n_SandboxName n) with
  | None => mret tt
  | Some observation =>
      whenRun (ro_Status observation =? ObservationRunning)%string (Stop n) ;;
      step ;; deleteCommand (n_SandboxName n)
  end.

Definition Clone (source target : Node) : Run unit :=
  checkSandboxName (n_SandboxName source) ;; checkSandboxName (n_SandboxName target) ;;
  step ;;   (* LIMA_HOME *)
  observations ← listDirect;
  match findObservation observations (n_SandboxName source), findObservation observations (n_SandboxName target) with
  | None, _ => fail (notFound "source Lima instance does not exist")
  | _, Some _ => fail (preconditionFailed "target Lima instance name already exists")
  | _, _ =>
      step ;;
      mayHaveCreated (command (n_SandboxName target) (Some ObservationStopped) ;;
                      verifyObservation (n_SandboxName target) ObservationStopped)
  end.

(** [limactl edit] changes the settings of a stopped instance. *)
Definition PrepareApplicationForwarding (n : Node) : Run unit := checkSandboxName (n_SandboxName n) ;; step.
