(* ===== verification/NodeLifecycle.v ===== *)
(** * The lifecycle of a node

    Creating, starting, retrying, stopping, restarting, cloning and deleting a
    node, and cleaning up what a crash left, from [internal/codelima/service.go]
    and [node_restart.go].  An operation takes locks for its metadata phases and
    runs the VM and guest work between them; every durable step, command and
    check has its fate.  Operations run one after the other: the token that
    excludes a second operation on a node is in [Locks].  What the recipe of a new
    node and the slug of a configuration are is read from stores that are not part
    of the world.  Node events are steps that can fail. *)

From S2P Require Import Prelude GoText Forwarding RuntimeCommands NodeRecord NodeInput NodeStore Bootstrap SandboxRuntime.
Local Open Scope Z_scope.

(** ** Fields of a node *)

Definition setFields (commands : list string) (forwarding seeded auth completed : bool) (completedAt : option time)
    (updated : time) (deleted : option time) (f : nodeFields) : nodeFields := {|
  nf_ID := nf_ID f; nf_Slug := nf_Slug f; nf_ConfigurationID := nf_ConfigurationID f;
  nf_DirectoryPath := nf_DirectoryPath f; nf_ParentNodeID := nf_ParentNodeID f; nf_Runtime := nf_Runtime f;
  nf_Provider := nf_Provider f; nf_SandboxName := nf_SandboxName f; nf_Image := nf_Image f;
  nf_VCPUs := nf_VCPUs f; nf_MemoryMiB := nf_MemoryMiB f; nf_DiskMiB := nf_DiskMiB f;
  nf_Environments := nf_Environments f; nf_Ports := nf_Ports f; nf_DaemonPortForwarding := forwarding;
  nf_AgentProfileName := nf_AgentProfileName f; nf_RuntimeCommands := nf_RuntimeCommands f;
  nf_BootstrapCommands := commands; nf_WorkspaceMode := nf_WorkspaceMode f;
  nf_GuestWorkspacePath := nf_GuestWorkspacePath f; nf_WorkspaceMountPath := nf_WorkspaceMountPath f;
  nf_WorkspaceSeeded := seeded; nf_ImportHostAuth := nf_ImportHostAuth f; nf_AuthImportCompleted := auth;
  nf_BootstrapCompleted := completed; nf_BootstrapCompletedAt := completedAt; nf_CreatedAt := nf_CreatedAt f;
  nf_UpdatedAt := updated; nf_DeletedAt := deleted;
|}.

Definition onFields (g : nodeFields -> nodeFields) (n : Node) : Node :=
  MkNode (g (n_fields n)) (n_ConfigurationSlug n) (n_Status n) (n_LifecycleState n) (n_LastReconciledAt n)
    (n_LastRuntimeObservation n).

Definition setStatus (status : NodeStatus) (n : Node) : Node :=
  MkNode (n_fields n) (n_ConfigurationSlug n) status (n_LifecycleState n) (n_LastReconciledAt n) (n_LastRuntimeObservation n).
Definition setConfigurationSlug (slug : string) (n : Node) : Node :=
  MkNode (n_fields n) slug (n_Status n) (n_LifecycleState n) (n_LastReconciledAt n) (n_LastRuntimeObservation n).
Definition setObserved (at_ : time) (observation : RuntimeObservation) (status : NodeStatus) (n : Node) : Node :=
  MkNode (n_fields n) (n_ConfigurationSlug n) status (n_LifecycleState n) (Some at_) (Some observation).

Definition setUpdated (t : time) : Node -> Node := onFields (fun f =>
  setFields (nf_BootstrapCommands f) (nf_DaemonPortForwarding f) (nf_WorkspaceSeeded f) (nf_AuthImportCompleted f)
    (nf_BootstrapCompleted f) (nf_BootstrapCompletedAt f) t (nf_DeletedAt f) f).
Definition setCommands (commands : list string) : Node -> Node := onFields (fun f =>
  setFields commands (nf_DaemonPortForwarding f) (nf_WorkspaceSeeded f) (nf_AuthImportCompleted f)
    (nf_BootstrapCompleted f) (nf_BootstrapCompletedAt f) (nf_UpdatedAt f) (nf_DeletedAt f) f).
Definition setForwarding : Node -> Node := onFields (fun f =>
  setFields (nf_BootstrapCommands f) true (nf_WorkspaceSeeded f) (nf_AuthImportCompleted f)
    (nf_BootstrapCompleted f) (nf_BootstrapCompletedAt f) (nf_UpdatedAt f) (nf_DeletedAt f) f).
Definition setSeeded : Node -> Node := onFields (fun f =>
  setFields (nf_BootstrapCommands f) (nf_DaemonPortForwarding f) true (nf_AuthImportCompleted f)
    (nf_BootstrapCompleted f) (nf_BootstrapCompletedAt f) (nf_UpdatedAt f) (nf_DeletedAt f) f).
Definition setAuthImported : Node -> Node := onFields (fun f =>
  setFields (nf_BootstrapCommands f) (nf_DaemonPortForwarding f) (nf_WorkspaceSeeded f) true
    (nf_BootstrapCompleted f) (nf_BootstrapCompletedAt f) (nf_UpdatedAt f) (nf_DeletedAt f) f).
Definition setCompletion (completed : bool) (completedAt : option time) : Node -> Node := onFields (fun f =>
  setFields (nf_BootstrapCommands f) (nf_DaemonPortForwarding f) (nf_WorkspaceSeeded f) (nf_AuthImportCompleted f)
    completed completedAt (nf_UpdatedAt f) (nf_DeletedAt f) f).
Definition setDeleted (t : time) : Node -> Node := onFields (fun f =>
  setFields (nf_BootstrapCommands f) (nf_DaemonPortForwarding f) (nf_WorkspaceSeeded f) (nf_AuthImportCompleted f)
    (nf_BootstrapCompleted f) (nf_BootstrapCompletedAt f) (nf_UpdatedAt f) (Some t) f).

Definition CombinedCommands (b : BootstrapState) : list string := bo_InstallCommands b ++ bo_BootstrapCommands b.

(** ** States *)

Definition nodeStatusInFlight (status : NodeStatus) : bool :=
  oneOf status [NodeStatusProvisioning; NodeStatusRegistering; NodeStatusTerminating].

Definition nodeStatusAcceptsRuntimeSighting (status : NodeStatus) : bool :=
  negb (nodeStatusInFlight status) && negb (status =? NodeStatusFailed)%string && negb (status =? NodeStatusTerminated)%string.

(** [nodeGuestShellBlocked]: whether there is a reason. *)
Definition nodeGuestShellBlocked (n : Node) : bool :=
  oneOf (n_Status n) [NodeStatusProvisioning; NodeStatusRegistering; NodeStatusTerminating].

(** [reconcileNodeWithObservations] without persisting. *)
Definition reconcileNodeWithObservations (n : Node) (observations : instances) (at_ : time) : Node :=
  match findObservation observations (n_SandboxName n) with
  | Some observation =>
      let status :=
        if (ro_Status observation =? ObservationRunning)%string && nodeStatusAcceptsRuntimeSighting (n_Status n) then NodeStatusRunning
        else if (ro_Status observation =? ObservationStopped)%string && nodeStatusAcceptsRuntimeSighting (n_Status n) then NodeStatusStopped
        else n_Status n in
      setObserved at_ observation status n
  | None => setObserved at_ (Observed (n_SandboxName n) false "") (n_Status n) n
  end.

(** The status of the last observation, if there is one. *)
Definition observedStatus (n : Node) : option ObservationStatus := ro_Status <$> n_LastRuntimeObservation n.
Definition observedRunning (n : Node) : bool := bool_decide (observedStatus n = Some ObservationRunning).

(** ** Known built-in commands *)

Fixpoint prefixed (p l : list string) : bool :=
  match p, l with [], _ => true | a :: p, b :: l => (a =? b)%string && prefixed p l | _, _ => false end.

(** [replaceBootstrapCommandSequence]: the first place where the old commands
    stand, if there is one. *)
Fixpoint replaceFrom (commands oldCommands newCommands : list string) : option (list string) :=
  if prefixed oldCommands commands then Some (newCommands ++ drop (length oldCommands) commands)
  else match commands with
       | [] => None
       | c :: commands => cons c <$> replaceFrom commands oldCommands newCommands
       end.
Definition replaceBootstrapCommandSequence (commands oldCommands newCommands : list string) : option (list string) :=
  match oldCommands with [] => None | _ => replaceFrom commands oldCommands newCommands end.

(** The commands that older releases installed a tool with, and today's. *)
Record builtIn := BuiltIn {
  bi_Legacy : list (list string);
  bi_Current : list string;
}.

Fixpoint replaceFirst (commands : list string) (legacy : list (list string)) (current : list string) : option (list string) :=
  match legacy with
  | [] => None
  | old :: legacy =>
      match replaceBootstrapCommandSequence commands old current with
      | Some updated => Some updated
      | None => replaceFirst commands legacy current
      end
  end.

Definition migrateKnownBuiltInBootstrapCommands (builtIns : list builtIn) (commands : list string) : list string * bool :=
  foldl (fun '(updated, changed) b =>
    match replaceFirst updated (bi_Legacy b) (bi_Current b) with
    | Some updated => (updated, true)
    | None => (updated, changed)
    end) (commands, false) builtIns.

Section Lifecycle.
Context (yamlMarshal : nodeFileWire -> bytes) (yamlNode : bytes -> result nodeFileWire).
Context (jsonBootstrap : BootstrapState -> bytes) (parseBootstrap : bytes -> result BootstrapState).
(** The built-in commands, the validation commands of the built-in profiles with
    the one they replace, and the slug of a configuration. *)
Context (builtIns : list builtIn) (defaultValidation : string) (profileValidation : string -> option string).
Context (configurationSlug : string -> result string).

Definition migrateKnownBuiltInNodeBootstrap (n : Node) (b : BootstrapState) : option (Node * BootstrapState) :=
  let '(commands, commandsChanged) := migrateKnownBuiltInBootstrapCommands builtIns (bo_BootstrapCommands b) in
  let profile := if (bo_ValidationCommand b =? defaultValidation)%string
                 then profileValidation (nf_AgentProfileName (n_fields n)) else None in
  let b := Bootstrap (bo_AgentProfileName b) (bo_InstallCommands b) commands
             (default (bo_ValidationCommand b) profile) (bo_Completed b) (bo_CompletedAt b) (bo_Steps b) in
  if negb commandsChanged && bool_decide (profile = None) then None
  else
    let b := if commandsChanged
             then Bootstrap (bo_AgentProfileName b) (bo_InstallCommands b) (bo_BootstrapCommands b)
                    (bo_ValidationCommand b) false None (bo_Steps b)
             else b in
    let n := if commandsChanged then setCompletion false None n else n in
    Some (setCommands (CombinedCommands b) n, b).

(** ** Metadata phases *)

(** Taking the locks is a step; releasing them is not. *)
Definition withLocks {A} (m : Run A) : Run A := durable ;; m.
Definition AppendNodeEvent : Run unit := durable.
Definition SaveNode (n : Node) (b : BootstrapState) : Run unit :=
  store (NodeStore.SaveNode yamlMarshal yamlNode jsonBootstrap n b).
Definition readNode (id : string) : Run Node := r ← reads (fun w => NodeByID yamlNode id (w_home w)); lift r.
Definition readBootstrap (id : string) : Run BootstrapState :=
  r ← reads (fun w => LoadBootstrapState parseBootstrap id (w_home w)); lift r.
Definition load (id : string) : Run (Node * BootstrapState) :=
  n ← readNode id; b ← readBootstrap (n_ID n); mret (n, b).

Definition recoverStaleNodeClaim (n : Node) (b : BootstrapState) : Run Node :=
  if negb (nodeStatusInFlight (n_Status n)) then mret n
  else
    t ← now;
    let n := setUpdated t (setStatus NodeStatusFailed n) in
    SaveNode n b ;; AppendNodeEvent ;; mret n.

Definition restoreNodeStatus (id : string) (status : NodeStatus) : Run unit :=
  ignore (withLocks (
    n ← readNode id;
    if negb (nodeStatusInFlight (n_Status n)) then mret tt
    else b ← readBootstrap id; t ← now; SaveNode (setUpdated t (setStatus status n)) b)).

Definition recordNodeStartRollback (n : Node) (b : BootstrapState) : Run unit :=
  ignore (withLocks (ignore (SaveNode n b) ;; ignore AppendNodeEvent)).

Definition reconcileNode (n : Node) : Run Node :=
  observations ← List; t ← now; mret (reconcileNodeWithObservations n observations t).
Definition reconcileNodeUncached (n : Node) : Run Node :=
  observations ← ListUncached; t ← now; mret (reconcileNodeWithObservations n observations t).
Definition reconcileNodePersisted (n : Node) : Run Node :=
  observations ← List;
  withLocks (
    t ← now;
    let n := reconcileNodeWithObservations n observations t in
    b ← readBootstrap (n_ID n);
    let n := setUpdated t n in
    SaveNode n b ;; mret n).

Definition hydrateConfigurationSlug (n : Node) : Run Node :=
  let id := nf_ConfigurationID (n_fields n) in
  if (id =? "")%string then mret n else slug ← lift (configurationSlug id); mret (setConfigurationSlug slug n).

(** [ensureReady] and [claimNodeOperation] can refuse. *)
Definition ensureReady : Run unit := step.
Definition claimNodeOperation : Run unit := step.
Definition resolveNode (value : string) : Run Node :=
  r ← reads (fun w => NodeByIDOrSlug yamlNode value (w_home w)); lift r.

(** [errors.Join]: the first categorised error decides the category. *)
Definition errorsJoin (e e' : go_error) : go_error :=
  let text := (errorText e +:+ newline +:+ errorText e')%string in
  match e, e' with
  | EApp category _ code, _ | _, EApp category _ code => EApp category text code
  | _, _ => ENew text
  end.

(** ** Starting *)

(** A start that failed in the guest is recorded. *)
Definition failStart {A} (n : Node) (b : BootstrapState) (e : go_error) : Run A :=
  t ← now; recordNodeStartRollback (setUpdated t (setStatus NodeStatusFailed n)) b ;; fail e.

(** [advanceOperationPhase], whose own error fails the start. *)
Definition advanceOperationPhase (n : Node) (b : BootstrapState) : Run unit :=
  r ← tryRun step; match r with Ok _ => mret tt | Err e => failStart n b e end.

Definition orRestore {A} (id : string) (previous : NodeStatus) (m : Run A) : Run A :=
  r ← tryRun m; match r with Ok a => mret a | Err e => restoreNodeStatus id previous ;; fail e end.

Definition orFail (n : Node) (b : BootstrapState) (m : Run unit) : Run unit :=
  r ← tryRun m; match r with Ok _ => mret tt | Err e => failStart n b e end.

(** The host ports that another node which runs has reserved. *)
Fixpoint portConflict (requested : list Z) (id : string) (observations : instances) (nodes : list Node) : result unit :=
  match nodes with
  | [] => Ok tt
  | other :: nodes =>
      if (n_ID other =? id)%string then portConflict requested id observations nodes
      else if negb (bool_decide (observations !! n_SandboxName other = Some ObservationRunning))
      then portConflict requested id observations nodes
      else match validatePorts (nf_Ports (n_fields other)) with
           | Err e => Err e
           | Ok ports =>
               if existsb (fun p => bool_decide (p.1 ∈ requested)) ports
               then Err (preconditionFailed "host port is already reserved by a running node")
               else portConflict requested id observations nodes
           end
  end.

Definition ensureNodeHostPortsAvailable (n : Node) : Run unit :=
  ports ← lift (validatePorts (nf_Ports (n_fields n)));
  match ports with
  | [] => mret tt
  | _ =>
      observations ← List;
      nodes ← reads (fun w => ListNodes yamlNode false (w_home w));
      lift (portConflict (map fst ports) (n_ID n) observations nodes)
  end.

(** The metadata phase of a start: the node, its bootstrap state, the status it
    had and the first step to run. *)
Definition startMetadata (id : string) (resume : bool) : Run (Node * BootstrapState * NodeStatus * nat) :=
  withLocks (
    nb ← load id;
    nb ← match migrateKnownBuiltInNodeBootstrap nb.1 nb.2 with
         | Some (n, b) => SaveNode n b ;; AppendNodeEvent ;; mret (n, b)
         | None => mret nb
         end;
    n ← recoverStaleNodeClaim nb.1 nb.2;
    if resume && negb (n_Status n =? NodeStatusFailed)%string
    then fail (preconditionFailed "only a failed node can retry a recorded step")
    else
      let prepared := prepareSteps resume nb.2 in
      firstStep ← lift prepared.2;
      let b := prepared.1 in
      t ← now;
      let started := setUpdated t (setStatus NodeStatusProvisioning (setCommands (CombinedCommands b) n)) in
      SaveNode started b ;; AppendNodeEvent ;; mret (started, b, n_Status n, firstStep)).

Definition bootVM (n : Node) (b : BootstrapState) (previous : NodeStatus) : Run Node :=
  if observedRunning n then advanceOperationPhase n b ;; mret n
  else
    orRestore (n_ID n) previous (ensureNodeHostPortsAvailable n) ;;
    orRestore (n_ID n) previous (PrepareApplicationForwarding n) ;;
    let n := setForwarding n in
    withLocks (SaveNode n b) ;;
    orRestore (n_ID n) previous (Start n) ;;
    mret n.

(** [importHostAuth] copies credentials into the guest. *)
Definition importAuth (n : Node) (b : BootstrapState) : Run Node :=
  advanceOperationPhase n b ;;
  if nf_AuthImportCompleted (n_fields n) then mret n
  else
    whenRun (nf_ImportHostAuth (n_fields n)) (orFail n b step) ;;
    t ← now;
    let n := setUpdated t (setAuthImported n) in
    withLocks (SaveNode n b) ;; mret n.

(** [prepareGuestWorkspace] copies or mounts the directory. *)
Definition seedWorkspace (n : Node) (b : BootstrapState) : Run Node :=
  advanceOperationPhase n b ;;
  if bo_Completed b || nf_WorkspaceSeeded (n_fields n) then mret n
  else
    orFail n b step ;;
    t ← now;
    let n := setUpdated t (setSeeded n) in
    withLocks (SaveNode n b) ;; mret n.

Definition runGuestCommand : Run (option (go_error * option Z * bool)) := fun w f =>
  let f' := Fates (f_store f) (f_naming f) (f_steps f) (f_commands f) (tail (f_guest f)) (f_listings f) (f_times f) (f_ids f) in
  match head (f_guest f) with
  | None => (w, f, Done None)
  | Some GuestDone => (w, f', Done None)
  | Some (GuestFailed e code canceled) => (w, f', Done (Some (e, code, canceled)))
  | Some GuestDied => (w, f', Died)
  end.

Definition joinOptional (e e' : option go_error) : option go_error :=
  match e, e' with Some e, Some e' => Some (errorsJoin e e') | None, e => e | e, None => e end.
Definition errorOf {A} (r : result A) : option go_error := match r with Ok _ => None | Err e => Some e end.

(** [runRecordedBootstrapStep]: the state it leaves and its error. *)
Definition recordedStep (n : Node) (b : BootstrapState) (index : nat) (s : BootstrapStep) : Run (BootstrapState * option go_error) :=
  r ← tryRun step;
  match r with
  | Err e => mret (b, Some e)
  | Ok _ =>
      started ← now; attemptID ← newID;
      let s := startedStep (n_ID n) (StepRun None None started attemptID SaveOk None 0 false SaveOk true) s in
      let b := setStep index s b in
      r ← tryRun (withLocks (SaveNode n b ;; AppendNodeEvent));
      match r with
      | Err e => mret (b, Some e)
      | Ok _ =>
          runErr ← runGuestCommand; finished ← now;
          let canceled := match runErr with Some (_, _, c) => c | None => false end in
          let x := StepRun None None started attemptID SaveOk (fst <$> runErr) finished canceled SaveOk true in
          let b := setStep index (finishedStep x s) b in
          r ← tryRun (withLocks (SaveNode n b ;; AppendNodeEvent));
          mret (b, joinOptional (fst ∘ fst <$> runErr) (errorOf r))
      end
  end.

(** The steps of one kind. *)
Fixpoint runKind (kind : string) (n : Node) (indices : list nat) (b : BootstrapState) : Run BootstrapState :=
  match indices with
  | [] => mret b
  | index :: indices =>
      match bo_Steps b !! index with
      | None => runKind kind n indices b
      | Some s =>
          if negb (st_Kind s =? kind)%string then runKind kind n indices b
          else
            whenRun (kind =? "bootstrap")%string (advanceOperationPhase n b) ;;
            r ← recordedStep n b index s;
            match r.2 with
            | None => runKind kind n indices r.1
            | Some e => failStart n r.1 e
            end
      end
  end.

(** The guest work of a start. *)
Definition bootstrapGuest (n : Node) (b : BootstrapState) (firstStep : nat) : Run BootstrapState :=
  let b := resetSteps firstStep b in
  let indices := seq firstStep (length (bo_Steps b) - firstStep) in
  advanceOperationPhase n b ;;
  b ← (if negb (bo_Completed b) then runKind "bootstrap" n indices b else mret b);
  advanceOperationPhase n b ;;
  b ← runKind "validation" n indices b;
  advanceOperationPhase n b ;; mret b.

Definition complete (nb : Node * BootstrapState) : Run (Node * BootstrapState) :=
  let '(n, b) := nb in
  if bo_Completed b then mret (n, b)
  else
    completedAt ← now;
    mret (setCompletion true (Some completedAt) n,
          Bootstrap (bo_AgentProfileName b) (bo_InstallCommands b) (bo_BootstrapCommands b)
            (bo_ValidationCommand b) true (Some completedAt) (bo_Steps b)).

Definition finishStart (n : Node) (b : BootstrapState) : Run Node :=
  nb ← complete (n, b);
  t ← now;
  let n := setUpdated t (setStatus NodeStatusRunning nb.1) in
  withLocks (SaveNode n nb.2 ;; AppendNodeEvent) ;; mret n.

Definition nodeStartClaimed (id : string) (resume : bool) : Run Node :=
  m ← startMetadata id resume;
  let '(n, b, previous, firstStep) := m in
  advanceOperationPhase n b ;;
  n ← orRestore id previous (reconcileNodeUncached n);
  n ← bootVM n b previous;
  n ← importAuth n b;
  n ← seedWorkspace n b;
  b ← bootstrapGuest n b firstStep;
  n ← finishStart n b;
  n ← reconcileNodePersisted n;
  hydrateConfigurationSlug n.

(** [NodeStart], and [NodeRetry] when it resumes. *)
Definition nodeStart (value : string) (resume : bool) : Run Node :=
  ensureReady ;; resolved ← resolveNode value; claimNodeOperation ;; nodeStartClaimed (n_ID resolved) resume.

(** ** Stopping *)

Definition loadRecovered (id : string) : Run (Node * BootstrapState) :=
  withLocks (nb ← load id; n ← recoverStaleNodeClaim nb.1 nb.2; mret (n, nb.2)).

Definition nodeStopClaimed (id : string) : Run Node :=
  nb ← loadRecovered id;
  n ← reconcileNodeUncached nb.1;
  match n_LastRuntimeObservation n with
  | Some observation =>
      if negb (ro_Exists observation) || (ro_Status observation =? ObservationStopped)%string then
        t ← now;
        let n := setUpdated t (setStatus NodeStatusStopped n) in
        withLocks (SaveNode n nb.2) ;; hydrateConfigurationSlug n
      else
        Stop n ;;
        n ← reconcileNodeUncached n;
        if match n_LastRuntimeObservation n with
           | Some o => ro_Exists o && negb (ro_Status o =? ObservationStopped)%string | None => false end
        then fail (externalCommandFailed "runtime did not confirm that the VM stopped")
        else
          t ← now;
          let n := setUpdated t (setStatus NodeStatusStopped n) in
          withLocks (SaveNode n nb.2 ;; AppendNodeEvent) ;; hydrateConfigurationSlug n
  | None => fail ioError   (* a reconciled node has an observation *)
  end.

Definition NodeStop (value : string) : Run Node :=
  ensureReady ;; resolved ← resolveNode value; claimNodeOperation ;; nodeStopClaimed (n_ID resolved).

Definition NodeRestart (value : string) : Run Node :=
  ensureReady ;; resolved ← resolveNode value; claimNodeOperation ;;
  step ;; step ;;   (* the context, the phase *)
  _ ← nodeStopClaimed (n_ID resolved);
  step ;; step ;;
  nodeStartClaimed (n_ID resolved) false.

(** ** Deleting *)

(** The rest of [deleteNode], once the node's token is held. *)
Definition deleteClaimed (hydrateConfiguration : bool) (id : string) : Run Node :=
  nb ← withLocks (
    nb ← load id; n ← recoverStaleNodeClaim nb.1 nb.2;
    t ← now;
    let n := setUpdated t (setStatus NodeStatusTerminating n) in
    SaveNode n nb.2 ;; mret (n, nb.2));
  n ← (if hydrateConfiguration then hydrateConfigurationSlug nb.1 else mret nb.1);
  Delete n ;;
  deletedAt ← now;
  let n := setDeleted deletedAt (setUpdated deletedAt (setStatus NodeStatusTerminated n)) in
  withLocks (SaveNode n nb.2 ;; AppendNodeEvent) ;; mret n.

Definition deleteNode (value : string) (hydrateConfiguration : bool) : Run Node :=
  ensureReady ;; resolved ← resolveNode value; claimNodeOperation ;; deleteClaimed hydrateConfiguration (n_ID resolved).

(** ** Creating *)

Record NodeCreateInput := CreateInput {
  ci_Slug : string;
  ci_Directory : result string;          (* the resolved directory *)
  ci_Runtime : string;
  ci_Provider : string;
  ci_WorkspaceMode : string;
  ci_Ports : option (list string);
  ci_ImportHostAuth : option bool;
  ci_Start : bool;
}.

(** The configuration, the agent profile and the steps of their environments. *)
Record recipe := Recipe {
  rc_ConfigurationID : string;
  rc_ConfigurationSlug : string;
  rc_Image : string;
  rc_VCPUs : Z;
  rc_MemoryMiB : Z;
  rc_DiskMiB : Z;
  rc_Environments : list string;
  rc_AgentProfileName : string;
  rc_ProfileName : string;
  rc_InstallCommands : list string;
  rc_ValidationCommand : string;
  rc_Steps : list BootstrapStep;
}.

Definition RuntimeVM : string := "vm".
Definition ProviderLima : string := "lima".
Definition WorkspaceModeCopy : string := "copy".
Definition WorkspaceModeMounted : string := "mounted".
Definition DefaultWorkspaceMode : string := WorkspaceModeMounted.

Definition coalesce (value fallback : string) : string := if blank value then fallback else value.

Definition normalizeWorkspaceMode (mode : string) : string :=
  let mode := TrimSpace (ToLower mode) in
  if oneOf mode [""%string; WorkspaceModeCopy] then WorkspaceModeCopy
  else if (mode =? WorkspaceModeMounted)%string then WorkspaceModeMounted else "".

Definition nodeWorkspaceMode (n : Node) : string :=
  let mode := normalizeWorkspaceMode (nf_WorkspaceMode (n_fields n)) in
  if negb (mode =? "")%string then mode
  else if negb (nf_WorkspaceMountPath (n_fields n) =? "")%string then WorkspaceModeMounted else WorkspaceModeCopy.

Definition unsupportedFeature (message : string) : go_error := EApp "UnsupportedFeature" message 5.

(** [sandboxName[:128]] without the dashes around it. *)
Definition shortName (name : string) : string :=
  if 128 <? slen name
  then String.string_of_list_ascii (trimDashes (take 128 (String.list_ascii_of_string name))) else name.

Definition generateSandboxName (nodeSlug : string) (h : home) : result string :=
  let name := shortName (slugify nodeSlug) in
  let name := if (name =? "")%string then "node"%string else name in
  if negb (validateSandboxName name) then Err sandboxNameError
  else if bool_decide (h_byInstance h !! name <> None) then Err (preconditionFailed "sandbox name already exists")
  else if existsb (fun n : Node => (n_SandboxName n =? name)%string && negb (n_Status n =? NodeStatusTerminated)%string)
            (ListNodes yamlNode false h)
  then Err (preconditionFailed "sandbox name already exists")
  else Ok name.

Definition checkUniqueSlug (slug : string) : Run unit :=
  free ← reads (fun w => ensureUniqueNodeSlug (Observation := RuntimeObservation) yamlNode slug (w_home w));
  if free : bool then mret tt else fail (preconditionFailed "node slug already exists").

(** The steps of a new node. *)
Definition newBootstrap (r : recipe) : BootstrapState :=
  Bootstrap (rc_ProfileName r) (rc_InstallCommands r) (map st_Command (rc_Steps r)) (rc_ValidationCommand r) false None
    (appendBootstrapSteps
       (appendBootstrapSteps [] (rc_InstallCommands r) "bootstrap" "agent" "" (rc_ProfileName r) ++ rc_Steps r)
       [rc_ValidationCommand r] "validation" "agent" "" (rc_ProfileName r)).

Definition newNode (input : NodeCreateInput) (r : recipe) (id sandboxName directory mode : string) (ports : list string)
    (importHostAuth : bool) (created updated : time) : Node :=
  MkNode {|
    nf_ID := id; nf_Slug := ci_Slug input; nf_ConfigurationID := rc_ConfigurationID r; nf_DirectoryPath := directory;
    nf_ParentNodeID := ""; nf_Runtime := coalesce (ci_Runtime input) RuntimeVM;
    nf_Provider := coalesce (ci_Provider input) ProviderLima; nf_SandboxName := sandboxName; nf_Image := rc_Image r;
    nf_VCPUs := rc_VCPUs r; nf_MemoryMiB := rc_MemoryMiB r; nf_DiskMiB := rc_DiskMiB r;
    nf_Environments := rc_Environments r; nf_Ports := ports; nf_DaemonPortForwarding := false;
    nf_AgentProfileName := rc_AgentProfileName r; nf_RuntimeCommands := noTemplates;
    nf_BootstrapCommands := CombinedCommands (newBootstrap r); nf_WorkspaceMode := mode;
    nf_GuestWorkspacePath := directory;
    nf_WorkspaceMountPath := if (mode =? WorkspaceModeMounted)%string then directory else "";
    nf_WorkspaceSeeded := false; nf_ImportHostAuth := importHostAuth; nf_AuthImportCompleted := false;
    nf_BootstrapCompleted := false; nf_BootstrapCompletedAt := None; nf_CreatedAt := created; nf_UpdatedAt := updated;
    nf_DeletedAt := None;
  |} (rc_ConfigurationSlug r) NodeStatusCreated "" None None.

(** Undoing a creation: the instance first, if there may be one, and the
    metadata only when it is gone. *)
Definition rollbackReserved {A} (cleanupInstance : bool) (n : Node) (e : go_error) : Run A :=
  r ← tryRun (whenRun cleanupInstance (Delete n));
  match r with
  | Err e' => fail (errorsJoin e e')
  | Ok _ =>
      r ← tryRun (withLocks (naming (RemoveIncompleteNodeMetadata [(n_ID n, n_SandboxName n)])));
      match r with Err e' => fail (errorsJoin e e') | Ok _ => fail e end
  end.

Definition createReservedNode (n : Node) (b : BootstrapState) : Run Node :=
  r ← tryRun (Create n);
  match r with
  | Err e => rollbackReserved (runtimeMutationMayHaveCreated e) n e
  | Ok _ =>
      let n := setForwarding n in
      r ← tryRun (withLocks (SaveNode n b));
      match r with
      | Err e => rollbackReserved true n e
      | Ok _ => AppendNodeEvent ;; mret n
      end
  end.

(** The name of a new node is taken under the global locks, its token before
    its directory. *)
Definition reserve (id sandboxName : string) : Run unit :=
  claimNodeOperation ;; naming (SaveIncompleteNodeReference id sandboxName).

Definition createNode (input : NodeCreateInput) (settings : result bool) (lookup : result recipe) (id : string) : Run Node :=
  ensureReady ;;
  if blank (ci_Slug input) then fail (invalidArgument "node slug is required")
  else if negb (slugify (ci_Slug input) =? ci_Slug input)%string then fail (invalidArgument "node slug must be a lowercase slug")
  else
    directory ← lift (ci_Directory input);
    if negb (coalesce (ci_Runtime input) RuntimeVM =? RuntimeVM)%string then fail (unsupportedFeature "only the vm runtime is supported")
    else if negb (coalesce (ci_Provider input) ProviderLima =? ProviderLima)%string
    then fail (unsupportedFeature "only the Lima provider is supported")
    else
      let mode := normalizeWorkspaceMode (coalesce (ci_WorkspaceMode input) DefaultWorkspaceMode) in
      if (mode =? "")%string then fail (invalidArgument "workspace mode must be copy or mounted")
      else
        let ports := default [] (ci_Ports input) in
        _ ← lift (validatePorts ports);
        importDefault ← lift settings;
        nb ← withLocks (
          r ← lift lookup;
          checkUniqueSlug (ci_Slug input) ;;
          name ← reads (fun w => generateSandboxName (ci_Slug input) (w_home w));
          name ← lift name;
          created ← now; updated ← now;
          let n := newNode input r id name directory mode ports (default importDefault (ci_ImportHostAuth input)) created updated in
          reserve id name ;; mret (n, newBootstrap r));
        createReservedNode nb.1 nb.2.

Definition NodeCreate (input : NodeCreateInput) (settings : result bool) (lookup : result recipe) (id : string) : Run Node :=
  n ← createNode input settings lookup id;
  if ci_Start input then nodeStart (n_ID n) false else mret n.

(** ** Cloning *)

Definition cloneOf (source : Node) (b : BootstrapState) (id slug sandboxName : string) (created updated : time) : Node :=
  let f := n_fields source in
  MkNode {|
    nf_ID := id; nf_Slug := slug; nf_ConfigurationID := nf_ConfigurationID f; nf_DirectoryPath := nf_DirectoryPath f;
    nf_ParentNodeID := n_ID source; nf_Runtime := RuntimeVM; nf_Provider := ProviderLima; nf_SandboxName := sandboxName;
    nf_Image := nf_Image f; nf_VCPUs := nf_VCPUs f; nf_MemoryMiB := nf_MemoryMiB f; nf_DiskMiB := nf_DiskMiB f;
    nf_Environments := nf_Environments f; nf_Ports := nf_Ports f; nf_DaemonPortForwarding := nf_DaemonPortForwarding f;
    nf_AgentProfileName := nf_AgentProfileName f; nf_RuntimeCommands := nf_RuntimeCommands f;
    nf_BootstrapCommands := nf_BootstrapCommands f; nf_WorkspaceMode := nodeWorkspaceMode source;
    nf_GuestWorkspacePath := nf_GuestWorkspacePath f; nf_WorkspaceMountPath := nf_WorkspaceMountPath f;
    nf_WorkspaceSeeded := nf_WorkspaceSeeded f; nf_ImportHostAuth := nf_ImportHostAuth f;
    nf_AuthImportCompleted := nf_AuthImportCompleted f; nf_BootstrapCompleted := bo_Completed b;
    nf_BootstrapCompletedAt := bo_CompletedAt b; nf_CreatedAt := created; nf_UpdatedAt := updated; nf_DeletedAt := None;
  |} (n_ConfigurationSlug source) NodeStatusCreated "" None None.

(** The child, from its name to its record. *)
Definition cloneChild (source : Node) (b : BootstrapState) (slug id : string) : Run Node :=
  let slug := TrimSpace slug in
  if (slug =? "")%string then fail (invalidArgument "node clone requires --slug")
  else if negb (slugify slug =? slug)%string then fail (invalidArgument "node slug must be a lowercase slug")
  else
    target ← withLocks (
      checkUniqueSlug slug ;;
      name ← reads (fun w => generateSandboxName slug (w_home w));
      name ← lift name;
      created ← now; updated ← now;
      reserve id name ;; mret (cloneOf source b id slug name created updated));
    r ← tryRun (Clone source target);
    match r with
    | Err e => rollbackReserved (runtimeMutationMayHaveCreated e) target e
    | Ok _ =>
        r ← tryRun (
          child ← reconcileNode target;
          child ← (if observedRunning child then Stop target ;; reconcileNode target else mret child);
          withLocks (SaveNode child b) ;; mret child);
        match r with
        | Err e => rollbackReserved true target e
        | Ok child => AppendNodeEvent ;; mret child
        end
    end.

(** The rest of [cloneNode], once the source's token is held: the source is stopped
    for the copy and started again whatever became of it. *)
Definition cloneClaimed (sourceID slug id : string) : Run Node :=
  nb ← loadRecovered sourceID;
  source ← hydrateConfigurationSlug nb.1;
  source ← reconcileNode source;
  if observedRunning source then
    Stop source ;;
    r ← tryRun (cloneChild source nb.2 slug id);
    r' ← tryRun (Start source ;; _ ← reconcileNodePersisted source; mret tt);
    match r, r' with
    | Ok child, Ok _ => mret child
    | Ok _, Err e' => fail e'
    | Err e, Ok _ => fail e
    | Err e, Err e' => fail (errorsJoin e e')
    end
  else cloneChild source nb.2 slug id.

Definition cloneNode (sourceValue slug id : string) : Run Node :=
  ensureReady ;; resolved ← resolveNode sourceValue; claimNodeOperation ;; cloneClaimed (n_ID resolved) slug id.

(** [startCommittedNode]: the child stays when its start fails. *)
Definition startCommittedNode (n : Node) : Run Node :=
  r ← tryRun (nodeStart (n_ID n) false);
  match r with
  | Ok started => mret started
  | Err e => stored ← tryRun (readNode (n_ID n));
             match stored with Ok _ => fail e | Err e' => fail (errorsJoin e e') end
  end.

Definition NodeClone (sourceValue slug id : string) (start : bool) : Run Node :=
  n ← cloneNode sourceValue slug id;
  if start then startCommittedNode n else mret n.

(** ** What a crash left *)

(** [Node{SandboxName: name}] *)
Definition namedNode (name : string) : Node :=
  MkNode {|
    nf_ID := ""; nf_Slug := ""; nf_ConfigurationID := ""; nf_DirectoryPath := ""; nf_ParentNodeID := ""; nf_Runtime := "";
    nf_Provider := ""; nf_SandboxName := name; nf_Image := ""; nf_VCPUs := 0; nf_MemoryMiB := 0; nf_DiskMiB := 0;
    nf_Environments := []; nf_Ports := []; nf_DaemonPortForwarding := false; nf_AgentProfileName := "";
    nf_RuntimeCommands := noTemplates; nf_BootstrapCommands := []; nf_WorkspaceMode := ""; nf_GuestWorkspacePath := "";
    nf_WorkspaceMountPath := ""; nf_WorkspaceSeeded := false; nf_ImportHostAuth := false; nf_AuthImportCompleted := false;
    nf_BootstrapCompleted := false; nf_BootstrapCompletedAt := None; nf_CreatedAt := 0; nf_UpdatedAt := 0;
    nf_DeletedAt := None;
  |} "" "" "" None None.

(** The loop of [NodeCleanupIncomplete] over the incomplete directories; [claimed]
    are the nodes whose token a live operation holds.  It answers the instances
    that could not be deleted. *)
Fixpoint cleanupItems (claimed : list string) (observations : instances) (items : list (string * string)) : Run (list string) :=
  match items with
  | [] => mret []
  | (id, sandboxName) :: items =>
      claimNodeOperation ;;
      if bool_decide (id ∈ claimed) then cleanupItems claimed observations items
      else
        let name := TrimSpace sandboxName in
        r ← tryRun (match findObservation observations name with
                    | Some _ => whenRun (negb (name =? "")%string) (Delete (namedNode name))
                    | None => mret tt
                    end);
        match r with
        | Err _ => failures ← cleanupItems claimed observations items; mret (name :: failures)
        | Ok _ =>
            withLocks (
              exists_ ← reads (fun w => nodeMetadataExists id (w_home w));
              whenRun (negb exists_) (naming (RemoveIncompleteNodeMetadata [(id, sandboxName)]))) ;;
            cleanupItems claimed observations items
        end
  end.

Definition NodeCleanupIncomplete (claimed : list string) (apply : bool) : Run (list (string * string)) :=
  ensureReady ;;
  items ← withLocks (reads (fun w => IncompleteNodeMetadata (w_home w)));
  if negb apply || bool_decide (items = []) then mret items
  else
    observations ← List;
    failures ← cleanupItems claimed observations items;
    if bool_decide (failures = []) then mret items
    else fail (externalCommandFailed "failed to tear down runtime instances for incomplete nodes; their metadata was kept").

(** [repairStaleNodeClaims]: nodes left in flight by an operation that died. *)
Fixpoint repairClaims (ids : list string) : Run nat :=
  match ids with
  | [] => mret O
  | id :: ids =>
      claimNodeOperation ;;
      repaired ← withLocks (
        nb ← load id;
        if negb (nodeStatusInFlight (n_Status nb.1)) then mret O
        else _ ← recoverStaleNodeClaim nb.1 nb.2; mret 1%nat);
      more ← repairClaims ids; mret (repaired + more)%nat
  end.

Definition staleNodeClaims (claimed : list string) (h : home) : list Node :=
  List.filter (fun n : Node => nodeStatusInFlight (n_Status n) && negb (bool_decide (n_ID n ∈ claimed))) (ListNodes yamlNode true h).

Definition repairStaleNodeClaims (claimed : list string) : Run nat :=
  stale ← reads (fun w => staleNodeClaims claimed (w_home w)); repairClaims (map n_ID stale).
End Lifecycle.
