(* ===== verification/NodeLifecycleLogic.v ===== *)
(** * Reasoning about lifecycle operations

    A triple says what holds when an operation is done, when it fails and when the
    process dies in it, whatever the fates of its steps; [holds] is the case where
    one property of the world holds at all three and the result has another.  The
    rules follow the operations of [SandboxRuntime] and the store.  What is assumed
    of the fates is a parameter. *)

From S2P Require Import Prelude GoText Forwarding RuntimeCommands NodeRecord NodeInput NodeStore NodeStoreSafe SandboxRuntime.
Local Open Scope Z_scope.

(** What is assumed of the fates: something about the home and the listings
    only. *)
Record assumption := Assumption {
  allows :> fates -> Prop;
  stable_same f f' : allows f -> f_listings f' = f_listings f -> f_naming f' = f_naming f -> f_store f' = f_store f -> allows f';
}.

(** Listings are never answered from a cache, and the steps that reserve and
    release names all work, where that is asked for. *)
Record conditions := Conditions {
  fresh : bool;
  untorn : bool;
}.

Definition conditionsHold (c : conditions) (f : fates) : Prop :=
  (fresh c = true -> f_listings f = []) /\ (untorn c = true -> f_naming f = []).

Lemma fateOk_same c f f' : conditionsHold c f -> f_listings f' = f_listings f -> f_naming f' = f_naming f -> conditionsHold c f'.
Proof. intros H H1 H2. revert H. unfold conditionsHold. by rewrite H1, H2. Qed.

Definition fateOk (c : conditions) : assumption :=
  Assumption (conditionsHold c) (fun f f' H H1 H2 _ => fateOk_same c f f' H H1 H2).
Coercion fateOk : conditions >-> assumption.

(** The steps of the home all work. *)
Lemma solid_same f f' : f_store f = [] -> f_listings f' = f_listings f -> f_naming f' = f_naming f -> f_store f' = f_store f -> f_store f' = [].
Proof. by intros H _ _ ->. Qed.
Definition solid : assumption := Assumption (fun f => f_store f = []) solid_same.

Section Rules.
Context (F : assumption).

Definition triple (D : world -> Prop) {A} (m : Run A) (E : go_error -> world -> Prop) (Q : A -> world -> Prop) (w : world) : Prop :=
  forall f, F f ->
  match m w f with
  | (w', f', Done a) => F f' /\ Q a w'
  | (w', f', Failed e) => F f' /\ E e w'
  | (w', _, Died) => D w'
  end.

Lemma triple_ret D {A} (a : A) E (Q : A -> world -> Prop) w : Q a w -> triple D (mret a) E Q w.
Proof. by intros HQ f Hf. Qed.

Lemma triple_fail D {A} e (E : go_error -> world -> Prop) (Q : A -> world -> Prop) w : E e w -> triple D (fail e) E Q w.
Proof. by intros HE f Hf. Qed.

Lemma triple_reads D {A} (g : world -> A) E (Q : A -> world -> Prop) w : Q (g w) w -> triple D (reads g) E Q w.
Proof. by intros HQ f Hf. Qed.

Lemma triple_lift D {A} (r : result A) (E : go_error -> world -> Prop) (Q : A -> world -> Prop) w :
  (forall a, r = Ok a -> Q a w) -> (forall e, r = Err e -> E e w) -> triple D (lift r) E Q w.
Proof. intros HQ HE. destruct r; [apply triple_ret; auto|apply triple_fail; auto]. Qed.

Lemma triple_bind D {A B} (m : Run A) (k : A -> Run B) E (P : A -> world -> Prop) (Q : B -> world -> Prop) w :
  triple D m E P w -> (forall a w', P a w' -> triple D (k a) E Q w') -> triple D (m ≫= k) E Q w.
Proof.
  intros Hm Hk f Hf. specialize (Hm f Hf). unfold mbind, Run_bind. destruct (m w f) as [[w' f'] [a|e|]]; [|exact Hm..].
  destruct Hm as [Hf' HP]. exact (Hk a w' HP f' Hf').
Qed.

Lemma triple_try D {A} (m : Run A) (E : go_error -> world -> Prop) (Q : result A -> world -> Prop) E' w :
  triple D m E (fun a => Q (Ok a)) w -> (forall e w', E e w' -> Q (Err e) w') -> triple D (tryRun m) E' Q w.
Proof.
  intros Hm He f Hf. specialize (Hm f Hf). unfold tryRun. destruct (m w f) as [[w' f'] [a|e|]]; [exact Hm| |exact Hm].
  destruct Hm as [Hf' HE]. split; [exact Hf'|by apply He].
Qed.

Lemma triple_weaken (D D' : world -> Prop) {A} (m : Run A) (E E' : go_error -> world -> Prop) (Q Q' : A -> world -> Prop) w :
  triple D m E Q w -> (forall w', D w' -> D' w') -> (forall e w', E e w' -> E' e w') -> (forall a w', Q a w' -> Q' a w') ->
  triple D' m E' Q' w.
Proof.
  intros Hm HD HE HQ f Hf. specialize (Hm f Hf).
  destruct (m w f) as [[w' f'] [a|e|]]; [split; [apply Hm|apply HQ, Hm]|split; [apply Hm|apply HE, Hm]|by apply HD].
Qed.

(** ** One property throughout *)

Definition holds (P : world -> Prop) {A} (m : Run A) (phi : A -> Prop) : Prop :=
  forall w, P w -> triple P m (fun _ => P) (fun a w' => P w' /\ phi a) w.

(** A triple with one property in the end, whatever happens. *)
Definition ends (P : world -> Prop) {A} (m : Run A) (Q : A -> world -> Prop) (w : world) : Prop :=
  triple P m (fun _ => P) Q w.

Lemma ends_bind {A B} P (m : Run A) (k : A -> Run B) (R : A -> world -> Prop) Q w :
  ends P m R w -> (forall a w', R a w' -> ends P (k a) Q w') -> ends P (m ≫= k) Q w.
Proof. intros Hm Hk. by eapply triple_bind. Qed.

(** Steps that leave the world as it is. *)
Definition idle (w : world) {A} (m : Run A) (phi : A -> Prop) : Prop := holds (fun w' => w' = w) m phi.

Lemma ends_idle {A B} (P : world -> Prop) (m : Run A) (k : A -> Run B) phi Q w :
  P w -> idle w m phi -> (forall a, phi a -> ends P (k a) Q w) -> ends P (m ≫= k) Q w.
Proof.
  intros Hw Hm Hk. eapply triple_bind with (P := fun a w' => w' = w /\ phi a).
  - eapply triple_weaken; [by apply Hm|by intros w' ->|by intros e w' ->|done].
  - intros a w' [-> Ha]. by apply Hk.
Qed.

(** What holds throughout on the way from [w]. *)
Lemma ends_holds {A B} (P P' : world -> Prop) (m : Run A) (k : A -> Run B) phi Q w :
  holds P' m phi -> P' w -> (forall w, P' w -> P w) ->
  (forall a w', P' w' -> phi a -> ends P (k a) Q w') -> ends P (m ≫= k) Q w.
Proof.
  intros Hm Hw HP Hk. eapply triple_bind with (P := fun a w' => P' w' /\ phi a).
  - eapply triple_weaken; [by apply Hm|auto|auto|done].
  - intros a w' [Hw' Ha]. by apply Hk.
Qed.

Lemma ends_last {A} (P P' : world -> Prop) (m : Run A) phi (Q : A -> world -> Prop) w :
  holds P' m phi -> P' w -> (forall w, P' w -> P w) -> (forall a w', P' w' -> phi a -> Q a w') -> ends P m Q w.
Proof. intros Hm Hw HP HQ. eapply triple_weaken; [by apply Hm|auto|auto|]. intros a w' [? ?]. auto. Qed.

Section Holds.
Context (P : world -> Prop).

Lemma holds_ret {A} (a : A) (phi : A -> Prop) : phi a -> holds P (mret a) phi.
Proof. intros H w HP. by apply triple_ret. Qed.

Lemma holds_fail {A} e (phi : A -> Prop) : holds P (fail e) phi.
Proof. intros w HP. by apply triple_fail. Qed.

Lemma holds_bind {A B} (m : Run A) (k : A -> Run B) (phi : A -> Prop) (psi : B -> Prop) :
  holds P m phi -> (forall a, phi a -> holds P (k a) psi) -> holds P (m ≫= k) psi.
Proof. intros Hm Hk w HP. eapply triple_bind; [by apply Hm|]. intros a w' [HP' Ha]. by apply Hk. Qed.

Lemma holds_then {A B} (m : Run A) (k : Run B) (psi : B -> Prop) :
  holds P m (fun _ => True) -> holds P k psi -> holds P (m ;; k) psi.
Proof. intros Hm Hk. eapply holds_bind; [exact Hm|]. by intros _ _. Qed.

Lemma holds_weaken {A} (m : Run A) (phi psi : A -> Prop) : holds P m phi -> (forall a, phi a -> psi a) -> holds P m psi.
Proof. intros Hm Hpq w HP. eapply triple_weaken; [by apply Hm|done..|]. intros a w' [HP' Ha]. split; [done|auto]. Qed.

Lemma holds_try {A} (m : Run A) (phi : A -> Prop) :
  holds P m phi -> holds P (tryRun m) (fun r => match r with Ok a => phi a | Err _ => True end).
Proof. intros Hm w HP. eapply triple_try; [by apply Hm|]. by intros e w' HP'. Qed.

Lemma holds_ignore m : holds P m (fun _ => True) -> holds P (ignore m) (fun _ => True).
Proof. intros Hm. eapply holds_bind; [by apply holds_try|]. intros _ _. by apply holds_ret. Qed.

Lemma holds_when b m : holds P m (fun _ => True) -> holds P (whenRun b m) (fun _ => True).
Proof. intros Hm. destruct b; [exact Hm|by apply holds_ret]. Qed.

Lemma holds_reads {A} (g : world -> A) (phi : A -> Prop) : (forall w, P w -> phi (g w)) -> holds P (reads g) phi.
Proof. intros Hg w HP. apply triple_reads. auto. Qed.

Lemma holds_lift {A} (r : result A) (phi : A -> Prop) : (forall a, r = Ok a -> phi a) -> holds P (lift r) phi.
Proof. intros Hr w HP. apply triple_lift; auto. Qed.

End Holds.

(** ** Steps and commands *)

Lemma nothing_spec h fs : (nothing h fs).1.1 = h.
Proof. unfold nothing, effect. by destruct fs as [|[|[]|[]] fs]. Qed.

Lemma triple_step (D : world -> Prop) (E : go_error -> world -> Prop) (Q : unit -> world -> Prop) w :
  D w -> (forall e, E e w) -> Q tt w -> triple D step E Q w.
Proof.
  intros HD HE HQ f Hf. unfold step. destruct (nothing (w_home w) (f_steps f)) as [[h fs] [[]|e|]]; [..|exact HD].
  - split; [by apply (stable_same F f)|exact HQ].
  - split; [by apply (stable_same F f)|apply HE].
Qed.

Lemma triple_now D E (Q : time -> world -> Prop) w : (forall t, Q t w) -> triple D now E Q w.
Proof. intros HQ f Hf. split; [by apply (stable_same F f)|apply HQ]. Qed.

Lemma triple_newID D E (Q : string -> world -> Prop) w : (forall s, Q s w) -> triple D newID E Q w.
Proof. intros HQ f Hf. split; [by apply (stable_same F f)|apply HQ]. Qed.

Lemma triple_command (D : world -> Prop) (E : go_error -> world -> Prop) (Q : unit -> world -> Prop) name intended w :
  (forall rest, D (setVM name rest w)) -> (forall e rest, E e (setVM name rest w)) -> (forall rest, Q tt (setVM name rest w)) ->
  triple D (command name intended) E Q w.
Proof.
  intros HD HE HQ f Hf. unfold command. destruct (head (f_commands f)) as [[[] rest|rest]|]; [..|apply HD|];
    (split; [by apply (stable_same F f)|auto]).
Qed.

Lemma triple_deleteCommand (D : world -> Prop) (E : go_error -> world -> Prop) (Q : unit -> world -> Prop) name w :
  (forall rest, D (setVM name rest w)) -> (forall e rest, E e (setVM name rest w)) -> Q tt (setVM name None w) ->
  triple D (deleteCommand name) E Q w.
Proof.
  intros HD HE HQ f Hf. unfold deleteCommand, command. destruct (head (f_commands f)) as [[[] rest|rest]|]; [..|apply HD|];
    (split; [by apply (stable_same F f)|auto]).
Qed.

Lemma triple_listDirect (D : world -> Prop) (E : go_error -> world -> Prop) (Q : instances -> world -> Prop) w :
  D w -> (forall e, E e w) -> Q (w_vms w) w -> triple D listDirect E Q w.
Proof.
  intros HD HE HQ. unfold listDirect. eapply triple_bind.
  - by apply (triple_step D E (fun _ w' => w' = w)).
  - intros [] w' ->. by apply triple_reads.
Qed.

Section Holds.
Context (P : world -> Prop).

Lemma holds_step : holds P step (fun _ => True).
Proof. intros w HP. by apply triple_step. Qed.
Lemma holds_now : holds P now (fun _ => True).
Proof. intros w HP. by apply triple_now. Qed.
Lemma holds_newID : holds P newID (fun _ => True).
Proof. intros w HP. by apply triple_newID. Qed.
Lemma holds_listDirect : holds P listDirect (fun _ => True).
Proof. intros w HP. by apply triple_listDirect. Qed.
(** Commands on an instance the property says nothing of. *)
Lemma holds_command name intended :
  (forall w rest, P w -> P (setVM name rest w)) -> holds P (command name intended) (fun _ => True).
Proof. intros Hn w HP. apply triple_command; auto. Qed.

Lemma holds_deleteCommand name : (forall w rest, P w -> P (setVM name rest w)) -> holds P (deleteCommand name) (fun _ => True).
Proof. intros Hn w HP. apply triple_deleteCommand; auto. Qed.

Lemma holds_verify name expected : holds P (verifyObservation name expected) (fun _ => True).
Proof.
  eapply holds_bind; [apply holds_listDirect|]. intros vms _. destruct (findObservation vms name); [|apply holds_fail].
  destruct (_ =? _)%string; [by apply holds_ret|apply holds_fail].
Qed.
End Holds.
End Rules.

(** ** The home and the cache *)

Section Logic.
Context (c : conditions).

Lemma triple_store D {A} (m : M A) (I : home -> Prop) (QH : A -> home -> Prop) (E : go_error -> world -> Prop) (Q : A -> world -> Prop) w :
  safely m I QH (w_home w) ->
  (forall h, I h -> D (World h (w_vms w))) -> (forall e h, I h -> E e (World h (w_vms w))) ->
  (forall a h, I h -> QH a h -> Q a (World h (w_vms w))) -> triple c D (store m) E Q w.
Proof.
  intros Hm HD HE HQ f Hf. specialize (Hm (f_store f)). unfold store.
  destruct (m (w_home w) (f_store f)) as [[h fs] [a|e|]].
  - split; [by apply (fateOk_same c f)|]. destruct Hm. by apply HQ.
  - split; [by apply (fateOk_same c f)|]. by apply HE.
  - by apply HD.
Qed.

(** A name is reserved or released: whole when that is assumed. *)
Lemma triple_naming D {A} (m : M A) (I : home -> Prop) (QH : A -> home -> Prop) (E : go_error -> world -> Prop) (Q : A -> world -> Prop) w :
  safely m I QH (w_home w) -> (exists h a, m (w_home w) [] = (h, [], Done a)) ->
  (untorn c = false -> forall h, I h -> D (World h (w_vms w))) ->
  (untorn c = false -> forall e h, I h -> E e (World h (w_vms w))) ->
  (forall a h, I h -> QH a h -> (untorn c = true -> m (w_home w) [] = (h, [], Done a)) -> Q a (World h (w_vms w))) ->
  triple c D (naming m) E Q w.
Proof.
  intros Hm Hend HD HE HQ f Hf. specialize (Hm (f_naming f)). unfold naming. destruct (untorn c) eqn:Hu.
  - destruct Hend as (h & a & Hend). rewrite (proj2 Hf Hu) in Hm |- *. rewrite Hend in Hm |- *. destruct Hm as [HI HQH].
    split; [split; [apply Hf|done]|]. by apply HQ.
  - destruct (m (w_home w) (f_naming f)) as [[h fs] [a|e|]].
    + split; [split; [apply Hf|by rewrite Hu]|]. destruct Hm. by apply HQ.
    + split; [split; [apply Hf|by rewrite Hu]|]. by apply HE.
    + by apply HD.
Qed.

Lemma triple_durable (D : world -> Prop) (E : go_error -> world -> Prop) (Q : unit -> world -> Prop) w :
  D w -> (forall e, E e w) -> Q tt w -> triple c D durable E Q w.
Proof.
  intros HD HE HQ. assert (Hw : World (w_home w) (w_vms w) = w) by (by destruct w).
  apply (triple_store D nothing (fun h => h = w_home w) (fun _ h => h = w_home w)).
  - intros fs. pose proof (nothing_spec (w_home w) fs) as H. destruct (nothing (w_home w) fs) as [[h fs'] [a|e|]]; cbn in H; [by split|done..].
  - intros h ->. by rewrite Hw.
  - intros e h ->. by rewrite Hw.
  - intros [] h -> _. by rewrite Hw.
Qed.

Lemma triple_List (D : world -> Prop) (E : go_error -> world -> Prop) (Q : instances -> world -> Prop) w :
  D w -> (forall e, E e w) -> (forall vms, (fresh c = true -> vms = w_vms w) -> Q vms w) -> triple c D List E Q w.
Proof.
  intros HD HE HQ f Hf. unfold List. pose proof (triple_listDirect c D E Q w HD HE (HQ _ (fun _ => eq_refl))) as Hd.
  destruct (f_listings f) as [|[cached|] l] eqn:El; [by apply Hd|..].
  - assert (Hfr : fresh c = false) by (destruct (fresh c) eqn:E'; [by rewrite (proj1 Hf E') in El|done]).
    split; [split; [by rewrite Hfr|apply Hf]|]. apply HQ. by rewrite Hfr.
  - assert (Hfr : fresh c = false) by (destruct (fresh c) eqn:E'; [by rewrite (proj1 Hf E') in El|done]).
    apply Hd. split; [by rewrite Hfr|apply Hf].
Qed.

Section Holds.
Context (P : world -> Prop).

Lemma holds_durable : holds c P durable (fun _ => True).
Proof. intros w HP. by apply triple_durable. Qed.
Lemma holds_List : holds c P List (fun _ => True).
Proof. intros w HP. by apply triple_List. Qed.

Lemma holds_store {A} (m : M A) (phi : A -> Prop) :
  (forall w, P w -> safely m (fun h => P (World h (w_vms w))) (fun a _ => phi a) (w_home w)) -> holds c P (store m) phi.
Proof. intros Hm w HP. eapply triple_store; [by apply Hm|auto..]. Qed.

End Holds.
End Logic.

(** A home whose steps all work. *)
Section Solid.
Context (D : world -> Prop).

Lemma solid_store {A} (m : M A) h a (E : go_error -> world -> Prop) (Q : A -> world -> Prop) w :
  m (w_home w) [] = (h, [], Done a) -> Q a (World h (w_vms w)) -> triple solid D (store m) E Q w.
Proof. intros Hm HQ f Hf. unfold store. cbn in Hf. rewrite Hf, Hm. by split. Qed.

Lemma solid_durable (E : go_error -> world -> Prop) (Q : unit -> world -> Prop) w : Q tt w -> triple solid D durable E Q w.
Proof. intros HQ. eapply solid_store; [reflexivity|]. by destruct w. Qed.

Lemma solid_List (E : go_error -> world -> Prop) (Q : instances -> world -> Prop) w :
  D w -> (forall e, E e w) -> (forall vms, Q vms w) -> triple solid D List E Q w.
Proof.
  intros HD HE HQ f Hf. unfold List. pose proof (triple_listDirect solid D E Q w HD HE (HQ _)) as Hd.
  destruct (f_listings f) as [|[cached|] l]; [by apply Hd|by split|by apply Hd].
Qed.
End Solid.

Create HintDb lifecycle.
#[export] Hint Resolve holds_step holds_durable holds_now holds_newID holds_listDirect holds_List holds_verify holds_fail : lifecycle.

(** One step of an operation at a time. *)
Ltac run_step :=
  lazymatch goal with
  | |- holds _ _ (mret _) _ => apply holds_ret
  | |- holds _ _ (fail _) _ => apply holds_fail
  | |- holds _ _ (tryRun _) _ => apply holds_try
  | |- holds _ _ (ignore _) _ => apply holds_ignore
  | |- holds _ _ (whenRun _ _) _ => apply holds_when
  | |- holds _ _ (if ?b then _ else _) _ => destruct b
  | |- holds _ _ (match ?r with Ok _ => _ | Err _ => _ end) _ => destruct r
  | |- holds _ _ (match ?r with Some _ => _ | None => _ end) _ => destruct r
  end.
