(* ===== verification/NodeLifecycleInvariant.v ===== *)
(** * The lifecycle of a node: the invariant

    What holds of the home and the instances between any two steps: a directory
    with a record stands for the node and the instance the record names, every
    instance is named by a directory that is not the grave of a deleted node, and,
    where names are reserved and released whole, no two directories name the same
    instance.  Here it is kept by the saves of a live node and by commands on its
    instance; [NodeLifecycleLive] has the operations of a live node and
    [NodeLifecycleSafe] the others and the theorems. *)

From S2P Require Import Prelude GoText Forwarding RuntimeCommands NodeRecord NodeInput NodeStore NodeStoreSafe NodeStoreLookup Bootstrap.
From S2P Require Import SandboxRuntime NodeLifecycle NodeLifecycleLogic.
Local Open Scope Z_scope.

Lemma line_inj a b : line a = line b -> a = b.
Proof.
  intros H. apply (f_equal bytes_of) in H. unfold line in H. rewrite !bytes_app in H. apply app_inv_tail in H.
  by rewrite <- (string_bytes a), H, string_bytes.
Qed.

Section Safe.
Context (yamlMarshal : nodeFileWire -> bytes) (yamlNode : bytes -> result nodeFileWire)
        (yamlStored : bytes -> result storedFields).
Context `{!NodeYAML yamlMarshal yamlNode yamlStored}.
Context (jsonBootstrap : BootstrapState -> bytes) (parseBootstrap : bytes -> result BootstrapState).

Abbreviation readRecord := (readNodeRecord (Observation := RuntimeObservation) yamlNode).
Abbreviation byID := (NodeByID (Observation := RuntimeObservation) yamlNode).

(** ** The invariant *)

Definition tombstone (d : nodeDir) : Prop := exists n, readRecord (d_node d) = Ok n /\ n_DeletedAt n <> None.

(** A directory that stands for the instance of a name. *)
Definition active (id name : string) (h : home) : Prop :=
  exists d, h_nodes h !! id = Some d /\ d_ref d = Some (line name) /\ ~ tombstone d.

Definition homeOk (h : home) : Prop :=
  forall id d, h_nodes h !! id = Some d ->
  (forall n, readRecord (d_node d) = Ok n ->
     n_ID n = id /\ d_ref d = Some (line (n_SandboxName n)) /\ (n_DeletedAt n <> None <-> n_Status n = NodeStatusTerminated)) /\
  (forall data, d_ref d = Some data -> exists name, validateSandboxName name = true /\ data = line name).

Definition orphanFree (w : world) : Prop := forall name, w_vms w !! name <> None -> exists id, active id name (w_home w).

Definition namesKept (h : home) : Prop :=
  (forall i j name, active i name h -> active j name h -> i = j) /\
  (forall id name, active id name h -> h_byInstance h !! name <> None).

Definition inv (whole : bool) (w : world) : Prop :=
  homeOk (w_home w) /\ orphanFree w /\ (whole = true -> namesKept (w_home w)).

(** A directory that is reserved for a name or holds a live node. *)
Definition mine (id name : string) (h : home) : Prop :=
  exists d, h_nodes h !! id = Some d /\ d_ref d = Some (line name) /\
    (d_node d = None \/ exists n, readRecord (d_node d) = Ok n /\ n_DeletedAt n = None).

(** Neither state of a node says that it is gone. *)
Definition alive (n : Node) : Prop :=
  normalizeNodeLifecycleState (n_Status n) <> NodeStatusTerminated /\
  normalizeNodeLifecycleState (n_LifecycleState n) <> NodeStatusTerminated.

Definition nodeFor (id name : string) (n : Node) : Prop :=
  n_ID n = id /\ n_SandboxName n = name /\ n_DeletedAt n = None /\ alive n.

Lemma mine_active id name h : mine id name h -> active id name h.
Proof.
  intros (d & Hd & Hr & Hn). exists d. split; [done|]. split; [done|]. intros (n & Ht & Hdel).
  destruct Hn as [Hn|(n' & Hn & Hlive)]; [by rewrite Hn in Ht|congruence].
Qed.

Lemma record_nonblank data n : readRecord data = Ok n -> blank (n_ID n) = false.
Proof.
  unfold readNodeRecord. destruct data as [data|]; [|done]. destruct (yamlNode data) as [wire|]; [|done].
  destruct (blank (w_ID wire)) eqn:E; [done|]. by intros [= <-].
Qed.

Lemma normalize_terminated : normalizeNodeLifecycleState NodeStatusTerminated = NodeStatusTerminated.
Proof. reflexivity. Qed.

Lemma record_states data n : readRecord data = Ok n ->
  n_LifecycleState n = normalizeNodeLifecycleState (n_Status n) /\
  (normalizeNodeLifecycleState (n_Status n) = NodeStatusTerminated -> n_Status n = NodeStatusTerminated).
Proof.
  unfold readNodeRecord. destruct data as [data|]; [|done]. destruct (yamlNode data) as [wire|]; [|done].
  destruct (blank _); [done|]. intros [= <-]. unfold wireNode. cbv zeta. cbn [n_Status n_LifecycleState].
  set (l := normalizeNodeLifecycleState (w_LifecycleState wire)). set (g := legacyNodeStatus (w_Status wire)).
  assert (Hl : normalizeNodeLifecycleState l = l) by apply normalize_idem.
  destruct (l =? "")%string eqn:E.
  - destruct (normalizeNodeLifecycleState g =? "")%string eqn:Eg.
    + apply String.eqb_eq in Eg. split; [done|]. by rewrite Eg.
    + rewrite normalize_idem. by split.
  - rewrite E, Hl. by split.
Qed.

Lemma record_alive data n : readRecord data = Ok n -> n_Status n <> NodeStatusTerminated -> alive n.
Proof.
  intros Hr Hs. destruct (record_states data n Hr) as [Hl Ht]. unfold alive. rewrite Hl, normalize_idem. split; auto.
Qed.

Lemma alive_live n : alive n -> n_DeletedAt n = None -> deletedOrTerminated n = false.
Proof.
  intros [Hs _] Hd. unfold deletedOrTerminated. rewrite Hd, bool_decide_eq_false_2 by auto. cbn.
  apply String.eqb_neq. intros E. by rewrite E in Hs.
Qed.

Lemma alive_saved n : alive n -> n_Status (saved n) <> NodeStatusTerminated.
Proof.
  intros [Hs Hl]. cbn. unfold nodeLifecycleState. cbv zeta. destruct (negb _); [done|]. destruct (negb _); [done|].
  intros E. discriminate E.
Qed.

Lemma byID_dir id h n : byID id h = Ok n -> exists d, h_nodes h !! id = Some d /\ readRecord (d_node d) = Ok n.
Proof.
  unfold NodeByID, dirOf. destruct (h_nodes h !! id) as [d|] eqn:E; [by exists d|done].
Qed.

Lemma mine_byID id name h n : homeOk h -> mine id name h -> byID id h = Ok n -> nodeFor id name n /\ blank (n_ID n) = false.
Proof.
  intros Hok (d & Hd & Hr & Hn) Hb. apply byID_dir in Hb as (d' & Hd' & Hb). rewrite Hd in Hd'. injection Hd' as <-.
  destruct (proj1 (Hok _ _ Hd) n Hb) as (Hid & Href & Hst). split; [|by eapply record_nonblank].
  assert (Hdel : n_DeletedAt n = None) by (destruct Hn as [Hn|(n' & Hn & Hlive)]; [by rewrite Hn in Hb|congruence]).
  split; [done|]. split; [rewrite Hr in Href; injection Href as Href; by apply line_inj in Href|]. split; [done|].
  eapply record_alive; [done|]. intros Ht. destruct (proj1 (Hok _ _ Hd) n Hb) as (_ & _ & _ & Hx). by apply Hx in Ht.
Qed.

(** ** Saving a node *)

Section Save.
Context (n : Node) (b : BootstrapState) (h0 : home) (d0 : nodeDir).
Abbreviation id := (n_ID n).
Abbreviation name := (n_SandboxName n).
Abbreviation record := (nodeYAMLBytes yamlMarshal n).
Hypothesis Hdir : h_nodes h0 !! id = Some d0.
Hypothesis Href : d_ref d0 = Some (line name).
Hypothesis Hok : homeOk h0.

Definition recorded (h : home) : Prop := exists d, h_nodes h !! id = Some d /\ d_node d = Some record.

(** The node's directory keeps its reference; its entry in the index goes only
    when the node does. *)
Definition saving (h : home) : Prop :=
  (forall j, j <> id -> h_nodes h !! j = h_nodes h0 !! j) /\
  (exists d, h_nodes h !! id = Some d /\ d_ref d = Some (line name) /\ (d_node d = d_node d0 \/ d_node d = Some record)) /\
  (forall k, k <> name -> h_byInstance h !! k = h_byInstance h0 !! k) /\
  (h_byInstance h0 !! name <> None -> h_byInstance h !! name <> None \/ (deletedOrTerminated n = true /\ recorded h)).

Lemma saving_start : saving h0.
Proof. split; [done|]. split; [by exists d0; auto|]. split; [done|]. by left. Qed.

Lemma saving_dir f h :
  (forall d, d_ref (f d) = d_ref d \/ d_ref (f d) = Some (line name)) ->
  (forall d, d_node (f d) = d_node d \/ d_node (f d) = Some record) ->
  saving h -> saving (setDir id (f (dirOf id h)) h).
Proof.
  intros Hf1 Hf2 (S1 & (d & Hd & Hr & Hn) & S3 & S4). split; [intros j Hj; rewrite nodes_other by done; by apply S1|].
  assert (Hdo : dirOf id h = d) by (unfold dirOf; by rewrite Hd). rewrite Hdo.
  assert (Hnew : h_nodes (setDir id (f d) h) !! id = Some (f d)) by (cbn; by rewrite lookup_insert_eq).
  split; [|split; [exact S3|]].
  - exists (f d). split; [exact Hnew|]. split; [destruct (Hf1 d) as [->| ->]; done|]. destruct (Hf2 d) as [->| ->]; auto.
  - intros H0. destruct (S4 H0) as [H|[Hdel (d' & Hd' & Hn')]]; [by left|]. right. split; [done|]. exists (f d).
    split; [exact Hnew|]. rewrite Hd in Hd'. injection Hd' as <-. by destruct (Hf2 d) as [->| ->].
Qed.

Lemma saving_slug g h : saving h -> saving (set_h_bySlug g h).
Proof. done. Qed.

Lemma saving_writeInstance h : saving h -> saving (writeInstance name (line id) h).
Proof.
  intros (S1 & S2 & S3 & S4). split; [exact S1|]. split; [exact S2|]. cbn. split.
  - intros k Hk. rewrite lookup_insert_ne by done. by apply S3.
  - intros _. left. by rewrite lookup_insert_eq.
Qed.

Lemma saving_removeInstance h : deletedOrTerminated n = true -> recorded h -> saving h -> saving (removeInstance name h).
Proof.
  intros Hdel Hrec (S1 & S2 & S3 & S4). split; [exact S1|]. split; [exact S2|]. cbn. split.
  - intros k Hk. rewrite lookup_delete_ne by done. by apply S3.
  - intros _. by right.
Qed.

Lemma recorded_dir f h : (forall d, d_node (f d) = d_node d) -> recorded h -> recorded (setDir id (f (dirOf id h)) h).
Proof.
  intros Hf (d & Hd & Hn). exists (f d). assert (Hdo : dirOf id h = d) by (unfold dirOf; by rewrite Hd).
  rewrite Hdo. cbn. rewrite lookup_insert_eq, Hf. done.
Qed.

(** The rest of a save once its record is there. *)
Definition both (h : home) : Prop := saving h /\ recorded h.

Lemma both_dir f h :
  (forall d, d_ref (f d) = d_ref d \/ d_ref (f d) = Some (line name)) -> (forall d, d_node (f d) = d_node d) ->
  both h -> both (setDir id (f (dirOf id h)) h).
Proof. intros Hf1 Hf2 [H1 H2]. split; [apply saving_dir; auto|by apply recorded_dir]. Qed.

Lemma slugIndex_both (previous : option Node) h : both h -> keeps both (maintainNodeSlugIndex n previous) h.
Proof.
  intros H. unfold maintainNodeSlugIndex. apply keeps_bind.
  - apply keeps_when; [done|]. by apply keeps_attempt.
  - intros _ h1 H1. destruct (deletedOrTerminated n); [by apply keeps_attempt|by apply keeps_effect].
Qed.

Lemma previous_name p : byID id h0 = Ok p -> n_SandboxName p = name.
Proof.
  intros Hb. apply byID_dir in Hb as (d & Hd & Hb). rewrite Hdir in Hd. injection Hd as <-.
  destruct (proj1 (Hok _ _ Hdir) p Hb) as (_ & Hp & _). rewrite Href in Hp. injection Hp as Hp. by apply line_inj in Hp.
Qed.

Lemma rest_both (previous : option Node) h :
  (forall p, previous = Some p -> n_SandboxName p = name) -> both h ->
  keeps both (
    effect (writeRef id (line name)) ;; effect (writeInstance name (line id)) ;;
    context ← gets (fun h => bool_decide (d_context (dirOf id h) <> None));
    when (negb context) (effect (writeContext id)) ;;
    when (match previous with Some p => negb (n_SandboxName p =? name)%string | None => false end)
      (attempt (effect (removeInstance (match previous with Some p => n_SandboxName p | None => "" end)))) ;;
    when (deletedOrTerminated n) (attempt (effect (removeInstance name))) ;;
    maintainNodeSlugIndex n previous) h.
Proof.
  intros Hp Hb. apply keeps_bind.
  { apply keeps_effect; [done|]. apply (both_dir (fun d => Dir (d_node d) (d_bootstrap d) (Some (line name)) (d_context d))); auto. }
  intros _ h1 H1. apply keeps_bind.
  { apply keeps_effect; [done|]. split; [by apply saving_writeInstance, H1|apply H1]. }
  intros _ h2 H2. apply keeps_bind; [by apply keeps_gets|]. intros context h3 H3. apply keeps_bind.
  { apply keeps_when; [done|]. apply keeps_effect; [done|].
    apply (both_dir (fun d => Dir (d_node d) (d_bootstrap d) (d_ref d) (Some []))); auto. }
  intros _ h4 H4. apply keeps_bind.
  { destruct previous as [p|]; cbn; [|by apply keeps_ret]. rewrite (Hp p), String.eqb_refl by done. by apply keeps_ret. }
  intros _ h5 H5. apply keeps_bind.
  { destruct (deletedOrTerminated n) eqn:Hdel; cbn; [|by apply keeps_ret]. apply keeps_attempt; [done|].
    split; [apply saving_removeInstance; [done|apply H5..]|apply H5]. }
  intros _ h6 H6. by apply slugIndex_both.
Qed.

Lemma save_saving : safely (NodeStore.SaveNode yamlMarshal yamlNode jsonBootstrap n b) saving (fun _ => recorded) h0.
Proof.
  pose proof saving_start as H0. assert (Hd0 : dirOf id h0 = d0) by (unfold dirOf; by rewrite Hdir).
  unfold NodeStore.SaveNode. eapply safely_bind.
  { apply (safely_effect saving _ (fun _ h => dirOf id h = d0)).
    - done.
    - apply (saving_dir (fun d => d)); auto.
    - unfold ensureNodeDir. by rewrite dirOf_self. }
  intros [] h1 S1 E1. eapply safely_bind.
  { apply (safely_gets saving _ (fun previous h => forall p, previous = Some p -> n_SandboxName p = name)); [exact S1|].
    intros p. destruct (byID id h1) as [q|] eqn:Eq; [|done]. intros [= <-]. apply previous_name.
    unfold NodeByID in *. by rewrite E1 in Eq; rewrite Hd0. }
  intros previous h2 S2 Hp. eapply safely_bind.
  { apply (safely_effect saving _ (fun _ _ => True)); [done| |done].
    apply (saving_dir (fun d => Dir (d_node d) (Some (jsonBootstrap b)) (d_ref d) (d_context d))); auto. }
  intros [] h3 S3 _. eapply safely_bind.
  { apply (safely_effect saving _ (fun _ => both)); [done|..].
    - apply (saving_dir (fun d => Dir (Some record) (d_bootstrap d) (d_ref d) (d_context d))); auto.
    - split; [apply (saving_dir (fun d => Dir (Some record) (d_bootstrap d) (d_ref d) (d_context d))); auto|].
      eexists. unfold writeNode. cbn. by rewrite lookup_insert_eq. }
  intros [] h4 S4 H4. eapply safely_weaken.
  - apply (safely_mono both saving); [by intros h' [H _]|]. by apply rest_both.
  - intros [] h' _ [[_ H] _]. exact H.
Qed.
End Save.

(** ** Operations on a live node *)

Definition outside (names : string -> Prop) (w0 w : world) : Prop :=
  forall name, ~ names name -> w_vms w !! name = w_vms w0 !! name.

Lemma read_saved n : blank (n_ID n) = false -> readRecord (Some (nodeYAMLBytes yamlMarshal n)) = Ok (saved n).
Proof. intros H. by apply (read_written yamlMarshal yamlNode yamlStored). Qed.

(** The home after any part of a save of a live node. *)
Lemma saving_live n h0 d0 h :
  alive n -> n_DeletedAt n = None -> blank (n_ID n) = false -> h_nodes h0 !! n_ID n = Some d0 -> d_ref d0 = Some (line (n_SandboxName n)) ->
  mine (n_ID n) (n_SandboxName n) h0 -> homeOk h0 -> saving n h0 d0 h ->
  homeOk h /\ (forall i nm, active i nm h <-> active i nm h0) /\ (forall i nm, mine i nm h0 -> mine i nm h) /\
  (namesKept h0 -> namesKept h).
Proof.
  intros Hal Hlive Hid Hd0 Hr0 Hm Hok (S1 & (d & Hd & Hr & Hn) & S3 & S4).
  assert (Hread : forall x, readRecord (Some (nodeYAMLBytes yamlMarshal n)) = Ok x -> x = saved n).
  { intros x. rewrite read_saved by done. by intros [= <-]. }
  assert (Hnt : ~ tombstone d).
  { intros (x & Hx & Hdel). destruct Hn as [Hn|Hn]; rewrite Hn in Hx.
    - destruct (mine_active _ _ _ Hm) as (d' & Hd' & _ & Ht). rewrite Hd0 in Hd'. injection Hd' as <-. apply Ht. by exists x.
    - by rewrite (Hread x Hx) in Hdel. }
  assert (Hnt0 : ~ tombstone d0).
  { destruct (mine_active _ _ _ Hm) as (d' & Hd' & _ & Ht). rewrite Hd0 in Hd'. by injection Hd' as <-. }
  assert (Hact : forall i nm, active i nm h <-> active i nm h0).
  { intros i nm. destruct (decide (i = n_ID n)) as [->|Hne].
    - split; intros (x & Hx & Hrx & Htx).
      + rewrite Hd in Hx. injection Hx as <-. exists d0. rewrite Hr0. by rewrite Hr in Hrx.
      + rewrite Hd0 in Hx. injection Hx as <-. exists d. rewrite Hr. by rewrite Hr0 in Hrx.
    - unfold active. by rewrite (S1 i Hne). }
  split; [|split; [exact Hact|split]].
  - intros i x Hx. destruct (decide (i = n_ID n)) as [->|Hne]; [|rewrite (S1 i Hne) in Hx; by apply Hok].
    rewrite Hd in Hx. injection Hx as <-. split.
    + intros y Hy. destruct Hn as [Hn|Hn]; rewrite Hn in Hy.
      * destruct (proj1 (Hok _ _ Hd0) y Hy) as (Hy1 & Hy2 & Hy3). split; [done|]. split; [congruence|done].
      * rewrite (Hread y Hy). split; [done|]. split; [done|]. split; [done|]. intros Ht. by apply alive_saved in Ht.
    + intros data Hdata. apply (proj2 (Hok _ _ Hd0)). congruence.
  - intros i nm (x & Hx & Hrx & Hnx). destruct (decide (i = n_ID n)) as [->|Hne]; [|exists x; by rewrite (S1 i Hne)].
    rewrite Hd0 in Hx. injection Hx as <-. exists d. split; [done|]. split; [congruence|].
    destruct Hn as [Hn|Hn]; rewrite Hn; [exact Hnx|]. right. exists (saved n). split; [by apply read_saved|done].
  - intros [N1 N2]. split.
    + intros i j nm Hi%Hact Hj%Hact. by eapply N1.
    + intros i nm Hi%Hact. specialize (N2 i nm Hi). destruct (decide (nm = n_SandboxName n)) as [->|Hne].
      * destruct (S4 N2) as [H|[Hdel _]]; [done|]. by rewrite (alive_live n Hal Hlive) in Hdel.
      * by rewrite S3.
Qed.

(** ** What an operation leaves as it was *)

Section During.
Context (whole : bool) (names : string -> Prop) (exempt : string -> Prop) (w0 : world).

(** The invariant, the instances but those of some names, and the directories
    but some: each stands for what it stood for, keeps its record, and no other
    is made. *)
Definition during (w : world) : Prop :=
  inv whole w /\ outside names w0 w /\
  (forall i nm, ~ exempt i -> mine i nm (w_home w0) -> mine i nm (w_home w)) /\
  (forall i nm, ~ exempt i -> (active i nm (w_home w) <-> active i nm (w_home w0))) /\
  (forall i, ~ exempt i -> h_nodes (w_home w0) !! i = None -> h_nodes (w_home w) !! i = None) /\
  (forall i, ~ exempt i -> nodeMetadataExists i (w_home w0) = true -> nodeMetadataExists i (w_home w) = true).

Lemma during_start : inv whole w0 -> during w0.
Proof. intros H. split; [exact H|]. by repeat split. Qed.

Lemma during_inv w : during w -> inv whole w.
Proof. by intros [H _]. Qed.

Lemma orphanFree_active w w' : w_vms w' = w_vms w -> (forall i nm, active i nm (w_home w') <-> active i nm (w_home w)) ->
  orphanFree w -> orphanFree w'.
Proof. intros Hv Ha Ho nm Hnm. rewrite Hv in Hnm. destruct (Ho nm Hnm) as [i Hi]. exists i. by apply Ha. Qed.

Lemma during_save (c : conditions) id nm n b :
  nodeFor id nm n -> blank (n_ID n) = false -> ~ exempt id -> mine id nm (w_home w0) ->
  holds c during (SaveNode yamlMarshal yamlNode jsonBootstrap n b) (fun _ => True).
Proof.
  intros (<- & <- & Hlive & Hal) Hid Hx Hm0. apply holds_store. intros w ((Hok & Ho & Hk) & Hout & Hmine & Hact & Hnone & Hex).
  pose proof (Hmine _ _ Hx Hm0) as Hm. pose proof Hm as (d & Hd & Hr & Hn).
  intros fs. pose proof (save_saving n b (w_home w) d Hd Hr Hok fs) as Hs.
  assert (Himp : forall h, saving n (w_home w) d h -> during (World h (w_vms w))).
  { intros h Hh. pose proof Hh as (S1 & (d' & Hd' & _ & Hn') & _).
    destruct (saving_live n (w_home w) d h Hal Hlive Hid Hd Hr Hm Hok Hh) as (H1 & H2 & H3 & H4).
    split; [split; [exact H1|]; split; [by apply (orphanFree_active w)|]; intros Hw; by apply H4, Hk|].
    split; [exact Hout|]. split; [intros i x Hi Hx'; by apply H3, Hmine|].
    split; [intros i x Hi; cbn; rewrite H2; by apply Hact|]. split.
    - intros i Hi Hi0. cbn. destruct (decide (i = n_ID n)) as [->|Hne]; [|rewrite S1 by done; by apply Hnone].
      specialize (Hnone _ Hi Hi0). congruence.
    - intros i Hi Hi0. specialize (Hex _ Hi Hi0). cbn. destruct (decide (i = n_ID n)) as [->|Hne].
      + revert Hex. unfold nodeMetadataExists, dirOf. rewrite Hd, Hd'. cbn. by destruct Hn' as [->| ->].
      + revert Hex. unfold nodeMetadataExists, dirOf. by rewrite S1. }
  revert Hs. destruct (NodeStore.SaveNode _ _ _ n b (w_home w) fs) as [[h fs'] [a|e|]]; [|by apply Himp..].
  intros [Hs _]. split; [by apply Himp|done].
Qed.

Lemma during_setVM id nm w rest : names nm -> active id nm (w_home w) -> during w -> during (setVM nm rest w).
Proof.
  intros Hn Hm ((Hok & Ho & Hk) & Hout & Hrest). split; [|split; [|exact Hrest]].
  - split; [exact Hok|]. split; [|exact Hk]. intros x Hx. cbn in *. destruct (decide (x = nm)) as [->|Hne]; [by exists id|].
    rewrite lookup_partial_alter_ne in Hx by done. by apply Ho.
  - intros x Hx. cbn. rewrite lookup_partial_alter_ne by (by intros ->). by apply Hout.
Qed.

Lemma during_read (c : conditions) id nm : ~ exempt id -> mine id nm (w_home w0) ->
  holds c during (readNode yamlNode id) (fun n => nodeFor id nm n /\ blank (n_ID n) = false).
Proof.
  intros Hx Hm. unfold readNode. intros w Hw.
  eapply (triple_bind c) with (P := fun r w' => during w' /\ r = byID id (w_home w')); [by apply triple_reads|].
  intros r w' [Hw' ->]. apply triple_lift; [|done]. intros n Hn. split; [done|].
  destruct Hw' as ((Hok & _) & _ & Hmine & _). eapply mine_byID; [done|by apply Hmine|done].
Qed.
End During.

(** One operation after another. *)
Lemma during_trans whole (names names' exempt exempt' : string -> Prop) w0 w1 w2 :
  during whole names exempt w0 w1 -> during whole names' exempt' w1 w2 ->
  (forall nm, names' nm -> names nm) -> (forall i, exempt' i -> exempt i) -> during whole names exempt w0 w2.
Proof.
  intros (_ & O1 & M1 & A1 & N1 & E1) (I2 & O2 & M2 & A2 & N2 & E2) Hn Hx.
  split; [exact I2|]. split; [intros nm Hnm; etrans; [apply O2|apply O1]; auto|].
  assert (Hx' : forall i, ~ exempt i -> ~ exempt' i) by auto.
  split; [auto|]. split; [intros i nm Hi; etrans; [apply A2|apply A1]; auto|]. split; auto.
Qed.

Lemma during_mono whole (names names' exempt exempt' : string -> Prop) w0 w :
  during whole names' exempt' w0 w -> (forall nm, names' nm -> names nm) -> (forall i, exempt' i -> exempt i) ->
  during whole names exempt w0 w.
Proof.
  intros H Hn Hx. pose proof H as (I & O & M & A & N & E). split; [exact I|]. split; [intros nm Hnm; apply O; auto|].
  assert (Hx' : forall i, ~ exempt i -> ~ exempt' i) by auto.
  split; [auto|]. split; [intros i nm Hi; apply A; auto|]. split; auto.
Qed.
End Safe.
