(* ===== verification/NodeLifecycleLive.v ===== *)
(** * The lifecycle of a node: operations on a live node

    Starting, retrying, stopping and restarting, and the first part of deleting
    and cloning, work on the directory of a node that is not deleted and on its
    instance.  Each keeps the invariant, the instances of the others and the
    directories that stand for an instance, whatever fails and wherever the
    process dies. *)

From S2P Require Import Prelude GoText Forwarding RuntimeCommands NodeRecord NodeInput NodeStore NodeStoreSafe NodeStoreLookup Bootstrap.
From S2P Require Import SandboxRuntime NodeLifecycle NodeLifecycleLogic NodeLifecycleInvariant.
Local Open Scope Z_scope.

(** ** Nodes that stay what they are *)

Definition lives (id name : string) (n : Node) : Prop := nodeFor id name n /\ blank (n_ID n) = false.
Definition aliveStatus (status : NodeStatus) : Prop := normalizeNodeLifecycleState status <> NodeStatusTerminated.

(** The states a live node is put in. *)
Lemma alive_any status :
  status ∈ [NodeStatusCreated; NodeStatusProvisioning; NodeStatusRunning; NodeStatusStopped; NodeStatusFailed; NodeStatusTerminating] ->
  aliveStatus status.
Proof.
  intros H. repeat (apply elem_of_cons in H as [->|H]; [unfold aliveStatus; vm_compute; discriminate|]).
  by apply not_elem_of_nil in H.
Qed.
Lemma alive_provisioning : aliveStatus NodeStatusProvisioning. Proof. apply alive_any. set_solver. Qed.
Lemma alive_running : aliveStatus NodeStatusRunning. Proof. apply alive_any. set_solver. Qed.
Lemma alive_stopped : aliveStatus NodeStatusStopped. Proof. apply alive_any. set_solver. Qed.
Lemma alive_failed : aliveStatus NodeStatusFailed. Proof. apply alive_any. set_solver. Qed.
Lemma alive_terminating : aliveStatus NodeStatusTerminating. Proof. apply alive_any. set_solver. Qed.

Lemma lives_status id name status n : aliveStatus status -> lives id name n -> lives id name (setStatus status n).
Proof. intros Hs ((H1 & H2 & H3 & H4 & H5) & H6). repeat split; done. Qed.

Lemma lives_fields id name g n :
  nf_ID (g (n_fields n)) = n_ID n -> nf_SandboxName (g (n_fields n)) = n_SandboxName n ->
  nf_DeletedAt (g (n_fields n)) = n_DeletedAt n -> lives id name n -> lives id name (onFields g n).
Proof.
  intros E1 E2 E3 ((H1 & H2 & H3 & H4 & H5) & H6). unfold lives, nodeFor, n_ID, n_SandboxName, n_DeletedAt in *. cbn.
  rewrite E1, E2, E3. repeat split; done.
Qed.

Lemma lives_updated id name t n : lives id name n -> lives id name (setUpdated t n).
Proof. by apply lives_fields. Qed.
Lemma lives_commands id name l n : lives id name n -> lives id name (setCommands l n).
Proof. by apply lives_fields. Qed.
Lemma lives_forwarding id name n : lives id name n -> lives id name (setForwarding n).
Proof. by apply lives_fields. Qed.
Lemma lives_seeded id name n : lives id name n -> lives id name (setSeeded n).
Proof. by apply lives_fields. Qed.
Lemma lives_auth id name n : lives id name n -> lives id name (setAuthImported n).
Proof. by apply lives_fields. Qed.
Lemma lives_completion id name b t n : lives id name n -> lives id name (setCompletion b t n).
Proof. by apply lives_fields. Qed.
Lemma lives_slug id name s n : lives id name n -> lives id name (setConfigurationSlug s n).
Proof. done. Qed.

Lemma lives_reconciled id name vms t n : lives id name n -> lives id name (reconcileNodeWithObservations n vms t).
Proof.
  intros H. unfold reconcileNodeWithObservations.
  assert (Hset : forall o status, aliveStatus status -> lives id name (setObserved t o status n)) by (intros; by apply (lives_status id name status n)).
  destruct (findObservation _ _) as [o|]; apply Hset; [|apply H]. cbv zeta.
  destruct (_ && _); [apply alive_running|]. destruct (_ && _); [apply alive_stopped|]. apply H.
Qed.

#[export] Hint Constants Opaque : lifecycle.
#[export] Hint Resolve alive_provisioning alive_running alive_stopped alive_failed alive_terminating : lifecycle.
#[export] Hint Resolve lives_status lives_updated lives_commands lives_forwarding lives_seeded lives_auth lives_completion lives_slug
  lives_reconciled : lifecycle.

Lemma migrate_lives builtIns default profile id name n b n' b' :
  migrateKnownBuiltInNodeBootstrap builtIns default profile n b = Some (n', b') -> lives id name n -> lives id name n'.
Proof.
  unfold migrateKnownBuiltInNodeBootstrap. destruct (migrateKnownBuiltInBootstrapCommands _ _) as [commands changed].
  cbv zeta. destruct (negb _ && _); [done|]. intros [= <- _] H. destruct changed; auto with lifecycle.
Qed.

(** ** Operations *)

Section Live.
Context (yamlMarshal : nodeFileWire -> bytes) (yamlNode : bytes -> result nodeFileWire)
        (yamlStored : bytes -> result storedFields).
Context `{!NodeYAML yamlMarshal yamlNode yamlStored}.
Context (jsonBootstrap : BootstrapState -> bytes) (parseBootstrap : bytes -> result BootstrapState).
Context (builtIns : list builtIn) (defaultValidation : string) (profileValidation : string -> option string).
Context (configurationSlug : string -> result string).
Context (whole : bool) (names exempt : string -> Prop) (w0 : world) (c : conditions).
Context (id name : string).
Hypothesis Hmine : mine yamlNode id name (w_home w0).
Hypothesis Hkept : ~ exempt id.
Hypothesis Hname : names name.

Abbreviation during := (during yamlNode whole names exempt w0).
Abbreviation safe m phi := (holds c during m phi).
Abbreviation lives := (lives id name).
Abbreviation anything := (fun _ => True).

Lemma save_safe n b : lives n -> safe (SaveNode yamlMarshal yamlNode jsonBootstrap n b) anything.
Proof. intros [H1 H2]. by eapply during_save. Qed.

Lemma read_safe : safe (readNode yamlNode id) lives.
Proof. by apply during_read. Qed.

Lemma bootstrap_safe i : safe (readBootstrap parseBootstrap i) anything.
Proof. eapply holds_bind; [by apply (holds_reads c _ _ anything)|]. intros r _. by apply holds_lift. Qed.

Lemma then_ret {A} (m : Run unit) (a : A) (phi : A -> Prop) : safe m anything -> phi a -> safe (m ;; mret a) phi.
Proof. intros Hm Ha. eapply holds_then; [exact Hm|]. by apply holds_ret. Qed.

Lemma now_safe {A} (k : time -> Run A) phi : (forall t, safe (k t) phi) -> safe (t ← now; k t) phi.
Proof. intros Hk. eapply holds_bind; [apply holds_now|]. intros t _. apply Hk. Qed.

Lemma locks_safe {A} (m : Run A) phi : safe m phi -> safe (withLocks m) phi.
Proof. intros Hm. eapply holds_then; [apply holds_durable|exact Hm]. Qed.

Hint Resolve save_safe bootstrap_safe locks_safe : lifecycle.

Lemma load_safe : safe (load yamlNode parseBootstrap id) (fun nb => lives nb.1).
Proof.
  eapply holds_bind; [apply read_safe|]. intros n Hn. eapply holds_bind; [apply bootstrap_safe|]. intros b _. by apply holds_ret.
Qed.

Lemma event_safe {A} (m : Run unit) (a : A) phi : safe m anything -> phi a -> safe (m ;; AppendNodeEvent ;; mret a) phi.
Proof. intros Hm Ha. eapply holds_then; [exact Hm|]. apply then_ret; [apply holds_durable|exact Ha]. Qed.

(** A save, its event and nothing more. *)
Lemma saveEvent_safe n b : lives n -> safe (SaveNode yamlMarshal yamlNode jsonBootstrap n b ;; AppendNodeEvent) anything.
Proof. intros Hn. eapply holds_then; [by apply save_safe|apply holds_durable]. Qed.
Hint Resolve saveEvent_safe : lifecycle.

Lemma recover_safe n b : lives n -> safe (recoverStaleNodeClaim yamlMarshal yamlNode jsonBootstrap n b) lives.
Proof.
  intros Hn. unfold recoverStaleNodeClaim. destruct (negb _); [by apply holds_ret|]. apply now_safe. intros t.
  apply event_safe; auto with lifecycle.
Qed.

Lemma restore_safe status : aliveStatus status ->
  safe (restoreNodeStatus yamlMarshal yamlNode jsonBootstrap parseBootstrap id status) anything.
Proof.
  intros Hs. apply holds_ignore, locks_safe. eapply holds_bind; [apply read_safe|]. intros n Hn.
  destruct (negb _); [by apply holds_ret|]. eapply holds_bind; [apply bootstrap_safe|]. intros b _. apply now_safe.
  intros t. auto with lifecycle.
Qed.

Lemma failStart_safe {A} n b e phi : lives n -> safe (failStart (A := A) yamlMarshal yamlNode jsonBootstrap n b e) phi.
Proof.
  intros Hn. apply now_safe. intros t. eapply holds_then; [|apply holds_fail]. apply holds_ignore, locks_safe.
  eapply holds_then; apply holds_ignore; [auto with lifecycle|apply holds_durable].
Qed.

Lemma advance_safe n b : lives n -> safe (advanceOperationPhase yamlMarshal yamlNode jsonBootstrap n b) anything.
Proof.
  intros Hn. eapply holds_bind; [apply holds_try, holds_step|]. intros [] _; [by apply holds_ret|by apply failStart_safe].
Qed.

Lemma orFail_safe n b m : lives n -> safe m anything -> safe (orFail yamlMarshal yamlNode jsonBootstrap n b m) anything.
Proof.
  intros Hn Hm. eapply holds_bind; [by apply holds_try|]. intros [] _; [by apply holds_ret|by apply failStart_safe].
Qed.

Lemma orRestore_safe {A} previous (m : Run A) phi : aliveStatus previous -> safe m phi ->
  safe (orRestore yamlMarshal yamlNode jsonBootstrap parseBootstrap id previous m) phi.
Proof.
  intros Hs Hm. eapply holds_bind; [by apply holds_try|]. intros [a|e] Ha; [by apply holds_ret|].
  eapply holds_then; [by apply restore_safe|apply holds_fail].
Qed.

Lemma reconcileUncached_safe n : lives n -> safe (reconcileNodeUncached n) lives.
Proof.
  intros Hn. eapply holds_bind; [apply holds_listDirect|]. intros vms _. apply now_safe. intros t. apply holds_ret. auto with lifecycle.
Qed.

Lemma reconcile_safe n : lives n -> safe (reconcileNode n) lives.
Proof.
  intros Hn. eapply holds_bind; [apply holds_List|]. intros vms _. apply now_safe. intros t. apply holds_ret. auto with lifecycle.
Qed.

Lemma reconcilePersisted_safe n : lives n ->
  safe (reconcileNodePersisted yamlMarshal yamlNode jsonBootstrap parseBootstrap n) lives.
Proof.
  intros Hn. eapply holds_bind; [apply holds_List|]. intros vms _. apply locks_safe, now_safe. intros t.
  eapply holds_bind; [apply bootstrap_safe|]. intros b _. apply then_ret; auto with lifecycle.
Qed.

Lemma hydrate_safe n : lives n -> safe (hydrateConfigurationSlug configurationSlug n) lives.
Proof.
  intros Hn. unfold hydrateConfigurationSlug. cbv zeta. destruct (_ =? _)%string; [by apply holds_ret|].
  eapply holds_bind; [by apply (holds_lift c _ _ anything)|]. intros s _. apply holds_ret. auto with lifecycle.
Qed.

(** ** Commands on the node's instance *)

Lemma command_safe intended : safe (command name intended) anything.
Proof.
  apply holds_command. intros w rest Hw. eapply during_setVM; [done| |exact Hw].
  apply mine_active. by apply Hw.
Qed.

Lemma Start_safe n : lives n -> safe (Start n) anything.
Proof.
  intros ((_ & E & _) & _). unfold Start. rewrite E. eapply holds_then; [apply holds_step|]. eapply holds_then; [apply command_safe|apply holds_verify].
Qed.

Lemma Stop_safe n : lives n -> safe (Stop n) anything.
Proof.
  intros ((_ & E & _) & _). unfold Stop. rewrite E. eapply holds_then; [apply holds_step|]. eapply holds_then; [apply command_safe|apply holds_verify].
Qed.

Lemma check_safe s : safe (checkSandboxName s) anything.
Proof. unfold checkSandboxName. destruct (validateSandboxName s); [by apply holds_ret|apply holds_fail]. Qed.

(** ** Starting *)

Lemma ports_safe n : safe (ensureNodeHostPortsAvailable yamlNode n) anything.
Proof.
  eapply holds_bind; [by apply (holds_lift c _ _ anything)|]. intros [|p ports] _; [by apply holds_ret|].
  eapply holds_bind; [apply holds_List|]. intros vms _. eapply holds_bind; [by apply (holds_reads c _ _ anything)|].
  intros nodes _. by apply holds_lift.
Qed.

Lemma startMetadata_safe resume :
  safe (startMetadata yamlMarshal yamlNode jsonBootstrap parseBootstrap builtIns defaultValidation profileValidation id resume)
    (fun m => lives m.1.1.1 /\ aliveStatus m.1.2).
Proof.
  apply locks_safe. eapply holds_bind; [apply load_safe|]. intros [n b] Hn. cbn [fst snd] in *.
  eapply holds_bind with (phi := fun nb => lives nb.1).
  { destruct (migrateKnownBuiltInNodeBootstrap _ _ _ n b) as [[n' b']|] eqn:Em; [|by apply holds_ret].
    eapply migrate_lives in Em; [|exact Hn]. by apply event_safe; [apply save_safe|]. }
  intros [n1 b1] Hn1. eapply holds_bind; [by apply recover_safe|]. intros n2 Hn2. destruct (resume && _); [apply holds_fail|].
  cbv zeta. eapply holds_bind; [by apply (holds_lift c _ _ anything)|]. intros first _. apply now_safe. intros t.
  apply event_safe; [auto with lifecycle|]. cbn [fst snd]. split; [auto with lifecycle|apply Hn2].
Qed.

Lemma bootVM_safe n b previous : lives n -> aliveStatus previous ->
  safe (bootVM yamlMarshal yamlNode jsonBootstrap parseBootstrap n b previous) lives.
Proof.
  intros Hn Hs. unfold bootVM. cbv zeta. change (n_ID (setForwarding n)) with (n_ID n).
  assert (Hid : n_ID n = id) by apply Hn. rewrite Hid. destruct (observedRunning n).
  { apply then_ret; [by apply advance_safe|exact Hn]. }
  eapply holds_then; [apply orRestore_safe; [exact Hs|apply ports_safe]|].
  eapply holds_then; [apply orRestore_safe; [exact Hs|]; eapply holds_then; [apply check_safe|apply holds_step]|].
  eapply holds_then; [auto with lifecycle|]. apply then_ret; [|auto with lifecycle].
  apply orRestore_safe; [exact Hs|]. apply Start_safe. auto with lifecycle.
Qed.

Lemma importAuth_safe n b : lives n -> safe (importAuth yamlMarshal yamlNode jsonBootstrap n b) lives.
Proof.
  intros Hn. eapply holds_then; [by apply advance_safe|]. destruct (nf_AuthImportCompleted _); [by apply holds_ret|].
  eapply holds_then; [apply holds_when, orFail_safe; [exact Hn|apply holds_step]|]. apply now_safe. intros t. cbv zeta.
  apply then_ret; auto with lifecycle.
Qed.

Lemma seed_safe n b : lives n -> safe (seedWorkspace yamlMarshal yamlNode jsonBootstrap n b) lives.
Proof.
  intros Hn. eapply holds_then; [by apply advance_safe|]. destruct (_ || _); [by apply holds_ret|].
  eapply holds_then; [apply orFail_safe; [exact Hn|apply holds_step]|]. apply now_safe. intros t. cbv zeta.
  apply then_ret; auto with lifecycle.
Qed.

Lemma guest_safe : safe runGuestCommand anything.
Proof.
  intros w Hw f Hf. unfold runGuestCommand. destruct (head (f_guest f)) as [[|e code canceled|]|]; try exact Hw;
    (split; [by apply (stable_same c f)|done]).
Qed.

Lemma recordedStep_safe n b index s : lives n -> safe (recordedStep yamlMarshal yamlNode jsonBootstrap n b index s) anything.
Proof.
  intros Hn. eapply holds_bind; [apply holds_try, holds_step|]. intros [[]|e] _; [|by apply holds_ret].
  apply now_safe. intros started. eapply holds_bind; [apply holds_newID|]. intros attempt _. cbv zeta.
  eapply holds_bind; [apply holds_try; auto with lifecycle|]. intros [[]|e] _; [|by apply holds_ret].
  eapply holds_bind; [apply guest_safe|]. intros err _. apply now_safe. intros finished.
  eapply holds_bind; [apply holds_try; auto with lifecycle|]. intros r _. by apply holds_ret.
Qed.

Lemma runKind_safe kind n indices b : lives n -> safe (runKind yamlMarshal yamlNode jsonBootstrap kind n indices b) anything.
Proof.
  intros Hn. revert b. induction indices as [|i indices IH]; intros b; [by apply holds_ret|]. cbn [runKind].
  destruct (bo_Steps b !! i) as [s|]; [|apply IH]. destruct (negb _); [apply IH|].
  eapply holds_then; [by apply holds_when, advance_safe|]. eapply holds_bind; [by apply recordedStep_safe|].
  intros r _. destruct r.2; [by apply failStart_safe|apply IH].
Qed.

Lemma bootstrapGuest_safe n b first : lives n -> safe (bootstrapGuest yamlMarshal yamlNode jsonBootstrap n b first) anything.
Proof.
  intros Hn. unfold bootstrapGuest. cbv zeta. eapply holds_then; [by apply advance_safe|].
  eapply holds_bind with (phi := anything); [destruct (negb _); [by apply runKind_safe|by apply holds_ret]|]. intros b1 _.
  eapply holds_then; [by apply advance_safe|]. eapply holds_bind; [by apply runKind_safe|]. intros b2 _.
  apply then_ret; [by apply advance_safe|done].
Qed.

Lemma finish_safe n b : lives n -> safe (finishStart yamlMarshal yamlNode jsonBootstrap n b) lives.
Proof.
  intros Hn. eapply holds_bind with (phi := fun nb => lives nb.1).
  - unfold complete. destruct (bo_Completed b); [by apply holds_ret|].
    eapply holds_bind; [apply holds_now|]. intros t _. by apply holds_ret, lives_completion.
  - intros nb Hnb. apply now_safe. intros t. cbv zeta. apply then_ret; auto with lifecycle.
Qed.

Lemma start_safe resume :
  safe (nodeStartClaimed yamlMarshal yamlNode jsonBootstrap parseBootstrap builtIns defaultValidation profileValidation
    configurationSlug id resume) lives.
Proof.
  eapply holds_bind; [apply startMetadata_safe|]. intros [[[n b] previous] first] [Hn Hs]. cbn [fst snd] in *.
  eapply holds_then; [by apply advance_safe|].
  eapply holds_bind; [apply orRestore_safe; [exact Hs|]; by apply reconcileUncached_safe|]. intros n1 H1.
  eapply holds_bind; [by apply bootVM_safe|]. intros n2 H2. eapply holds_bind; [by apply importAuth_safe|]. intros n3 H3.
  eapply holds_bind; [by apply seed_safe|]. intros n4 H4. eapply holds_bind; [by apply bootstrapGuest_safe|]. intros b5 _.
  eapply holds_bind; [by apply finish_safe|]. intros n6 H6. eapply holds_bind; [by apply reconcilePersisted_safe|].
  intros n7 H7. by apply hydrate_safe.
Qed.

(** ** Stopping *)

Lemma loadRecovered_safe : safe (loadRecovered yamlMarshal yamlNode jsonBootstrap parseBootstrap id) (fun nb => lives nb.1).
Proof.
  apply locks_safe. eapply holds_bind; [apply load_safe|]. intros nb Hn. eapply holds_bind; [by apply recover_safe|].
  intros n H. by apply holds_ret.
Qed.

Lemma stop_safe : safe (nodeStopClaimed yamlMarshal yamlNode jsonBootstrap parseBootstrap configurationSlug id) lives.
Proof.
  eapply holds_bind; [apply loadRecovered_safe|]. intros [n b] Hn. cbn [fst snd] in *.
  eapply holds_bind; [by apply reconcileUncached_safe|]. intros n1 H1.
  destruct (n_LastRuntimeObservation n1) as [o|]; [|apply holds_fail]. destruct (_ || _).
  { apply now_safe. intros t. cbv zeta. eapply holds_then; [auto with lifecycle|]. apply hydrate_safe. auto with lifecycle. }
  eapply holds_then; [by apply Stop_safe|]. eapply holds_bind; [by apply reconcileUncached_safe|]. intros n2 H2.
  destruct (match _ with Some o => _ | None => _ end); [apply holds_fail|]. apply now_safe. intros t. cbv zeta.
  eapply holds_then; [auto with lifecycle|]. apply hydrate_safe. auto with lifecycle.
Qed.

Lemma restart_safe :
  safe (step ;; step ;;
        _ ← nodeStopClaimed yamlMarshal yamlNode jsonBootstrap parseBootstrap configurationSlug id;
        step ;; step ;;
        nodeStartClaimed yamlMarshal yamlNode jsonBootstrap parseBootstrap builtIns defaultValidation profileValidation
          configurationSlug id false) lives.
Proof.
  repeat (eapply holds_then; [apply holds_step|]). eapply holds_bind; [apply stop_safe|]. intros n _.
  repeat (eapply holds_then; [apply holds_step|]). apply start_safe.
Qed.

(** ** Repairing a claim *)

Lemma repairOne_safe :
  safe (withLocks (
    nb ← load yamlNode parseBootstrap id;
    if negb (nodeStatusInFlight (n_Status nb.1)) then mret O
    else _ ← recoverStaleNodeClaim yamlMarshal yamlNode jsonBootstrap nb.1 nb.2; mret 1%nat)) anything.
Proof.
  apply locks_safe. eapply holds_bind; [apply load_safe|]. intros nb Hn. destruct (negb _); [by apply holds_ret|].
  eapply holds_bind; [by apply recover_safe|]. intros n _. by apply holds_ret.
Qed.

End Live.
