(* ===== verification/NodeLifecycleMake.v ===== *)
(** * The lifecycle of a node: directories that come and go

    Reserving a name, creating and cloning under it, giving it back, deleting a
    node and removing what a crash left.  Each keeps the invariant whatever fails
    and wherever the process dies: a name is on disk before its instance can
    exist, and a directory goes or becomes a grave only when its instance is
    gone. *)

From S2P Require Import Prelude GoText Forwarding RuntimeCommands NodeRecord NodeInput NodeStore NodeStoreSafe NodeStoreLookup Bootstrap.
From S2P Require Import SandboxRuntime NodeLifecycle NodeLifecycleLogic NodeLifecycleInvariant NodeLifecycleLive.
Local Open Scope Z_scope.

Lemma safely_onError (I : home -> Prop) f g (Q : unit -> home -> Prop) h :
  I h -> I (f h) -> (forall h, I h -> I (g h)) -> Q tt (f h) -> safely (onError (effect f) (effect g)) I Q h.
Proof. intros Hh Hf Hg HQ [|[|[]|[]] [|[|[]|[]] fs]]; unfold onError, attempt; simpl; auto. Qed.

(** The name of the instance of a new node. *)
Definition newName (slug : string) : string :=
  let name := shortName (slugify slug) in if (name =? "")%string then "node"%string else name.

Section Make.
Context (yamlMarshal : nodeFileWire -> bytes) (yamlNode : bytes -> result nodeFileWire)
        (yamlStored : bytes -> result storedFields).
Context `{!NodeYAML yamlMarshal yamlNode yamlStored}.
Context (jsonBootstrap : BootstrapState -> bytes) (parseBootstrap : bytes -> result BootstrapState).
Context (configurationSlug : string -> result string).
Context (c : conditions) (whole : bool).
Hypothesis Hwhole : whole = true -> untorn c = true.

Abbreviation during := (during yamlNode whole).
Abbreviation inv := (inv yamlNode whole).
Abbreviation active := (active yamlNode).
Abbreviation mine := (mine yamlNode).
Abbreviation nobody := (fun _ : string => False).
Abbreviation SaveNode := (NodeLifecycle.SaveNode yamlMarshal yamlNode jsonBootstrap).

Lemma generated slug h name : generateSandboxName yamlNode slug h = Ok name ->
  name = newName slug /\ validateSandboxName name = true /\ h_byInstance h !! name = None.
Proof.
  unfold generateSandboxName. cbv zeta. fold (newName slug). destruct (validateSandboxName (newName slug)) eqn:E1; [|done].
  cbn [negb]. destruct (bool_decide (h_byInstance h !! newName slug <> None)) eqn:E2; [done|].
  destruct (existsb _ _); [done|]. intros [= <-]. split; [done|]. split; [exact E1|].
  apply bool_decide_eq_false in E2. by apply dec_stable.
Qed.

(** The world with another home in which one directory differs. *)
Lemma during_dir names exempt w0 w h id :
  during names exempt w0 w -> exempt id -> (forall j, j <> id -> h_nodes h !! j = h_nodes (w_home w) !! j) ->
  inv (World h (w_vms w)) -> during names exempt w0 (World h (w_vms w)).
Proof.
  intros (_ & O & M & A & N & E) Hx Hs HI. split; [exact HI|]. split; [exact O|].
  assert (Hne : forall i, ~ exempt i -> h_nodes h !! i = h_nodes (w_home w) !! i) by (intros i Hi; apply Hs; by intros ->).
  unfold NodeLifecycleInvariant.mine, NodeLifecycleInvariant.active, nodeMetadataExists, dirOf in *. cbn [w_home w_vms].
  split; [intros i nm Hi Hm; rewrite (Hne i Hi); by apply M|].
  split; [intros i nm Hi; rewrite (Hne i Hi); by apply A|].
  split; [intros i Hi Hm; rewrite (Hne i Hi); by apply N|]. intros i Hi Hm. rewrite (Hne i Hi). by apply E.
Qed.

(** ** Reserving a name *)

Section Reserve.
Context (id name : string) (w : world).
Hypothesis Hfresh : h_nodes (w_home w) !! id = None.
Hypothesis Hvalid : validateSandboxName name = true.
Hypothesis Hinv : inv w.

Definition reserving (h : home) : Prop :=
  (forall j, j <> id -> h_nodes h !! j = h_nodes (w_home w) !! j) /\
  (h_nodes h !! id = None \/
   exists d, h_nodes h !! id = Some d /\ d_node d = None /\ (d_ref d = None \/ d_ref d = Some (line name))).

Definition reservedDir (h : home) : Prop := exists d, h_nodes h !! id = Some d /\ d_node d = None /\ d_ref d = Some (line name).

Lemma reserving_dir d h : reserving h -> d_node d = None -> (d_ref d = None \/ d_ref d = Some (line name)) -> reserving (setDir id d h).
Proof.
  intros (H1 & _) Hn Hr. split; [intros j Hj; rewrite nodes_other by done; by apply H1|]. right. exists d.
  split; [cbn; by rewrite lookup_insert_eq|done].
Qed.

Lemma reserving_removed h : reserving h -> reserving (removeDir id h).
Proof.
  intros (H1 & _). split; [intros j Hj; cbn; rewrite lookup_delete_ne by done; by apply H1|]. left. cbn. by rewrite lookup_delete_eq.
Qed.

Lemma reserve_safely : safely (SaveIncompleteNodeReference id name) reserving (fun _ => reservedDir) (w_home w).
Proof.
  assert (H0 : reserving (w_home w)) by (split; [done|by left]). unfold SaveIncompleteNodeReference.
  destruct (blank id); [by apply safely_raise|]. rewrite Hvalid. cbn [negb].
  assert (He : dirOf id (w_home w) = emptyDir) by (unfold dirOf; by rewrite Hfresh).
  eapply safely_bind with (P := fun _ h => dirOf id h = emptyDir).
  { apply safely_effect; [exact H0|apply reserving_dir; [exact H0|..]; rewrite He; auto|]. unfold ensureNodeDir. by rewrite dirOf_self. }
  intros _ h1 H1 E1. eapply safely_bind with (P := fun _ => reservedDir).
  { assert (Hr : reserving (writeRef id (line name) h1)) by (apply reserving_dir; [exact H1|..]; rewrite E1; auto).
    apply safely_onError; [exact H1|exact Hr|apply reserving_removed|]. eexists. split; [cbn; by rewrite lookup_insert_eq|by rewrite E1]. }
  intros _ h2 H2 Hd. by apply safely_onError; [| |apply reserving_removed|].
Qed.

(** Another directory stands for the instance of the name, if there is one. *)
Definition spare (w : world) : Prop := w_vms w !! name <> None -> exists j, j <> id /\ active j name (w_home w).

Definition reservedAt (w' : world) : Prop :=
  during nobody (eq id) w w' /\ w_vms w' = w_vms w /\ reservedDir (w_home w') /\ mine id name (w_home w') /\ spare w'.

Lemma reserving_active h i nm : reserving h -> i <> id -> active i nm h <-> active i nm (w_home w).
Proof. intros [H _] Hi. unfold NodeLifecycleInvariant.active. by rewrite H. Qed.

Lemma fresh_active i nm : active i nm (w_home w) -> i <> id.
Proof. intros (d & Hd & _) ->. congruence. Qed.

Lemma reserving_homeOk h : reserving h -> homeOk yamlNode h.
Proof.
  intros (H1 & H2) i d Hd. destruct Hinv as (Hok & _). destruct (decide (i = id)) as [->|Hne]; [|rewrite H1 in Hd by done; by apply Hok].
  destruct H2 as [H2|(d' & Hd' & Hn & Hr)]; [congruence|]. rewrite Hd in Hd'. injection Hd' as <-. rewrite Hn. split; [done|].
  intros data Hdata. destruct Hr as [Hr|Hr]; [congruence|]. exists name. split; [done|congruence].
Qed.

Lemma reserving_inv h : reserving h -> (whole = true -> namesKept yamlNode h) -> inv (World h (w_vms w)).
Proof.
  intros Hh Hk. split; [by apply reserving_homeOk|]. split; [|exact Hk]. intros nm Hnm.
  destruct Hinv as (_ & Ho & _). destruct (Ho nm Hnm) as [i Hi]. exists i. apply reserving_active; [done|by eapply fresh_active|done].
Qed.

Lemma reserving_during h : reserving h -> (whole = true -> namesKept yamlNode h) -> during nobody (eq id) w (World h (w_vms w)).
Proof. intros Hh Hk. eapply during_dir; [by apply during_start|done|apply Hh|by apply reserving_inv]. Qed.

(** The home of a reservation that is not cut off. *)
Lemma reserve_end : blank id = false -> exists h, SaveIncompleteNodeReference id name (w_home w) [] = (h, [], Done tt) /\
  h_byInstance h = <[name := line id]> (h_byInstance (w_home w)).
Proof. intros Hb. unfold SaveIncompleteNodeReference. rewrite Hb, Hvalid. cbn [negb]. eexists. by split. Qed.

Lemma reserved_names h : h_byInstance (w_home w) !! name = None -> reserving h -> whole = true ->
  h_byInstance h = <[name := line id]> (h_byInstance (w_home w)) -> namesKept yamlNode h.
Proof.
  intros Hn Hh Hw Hi. destruct Hinv as (_ & _ & Hk). destruct (Hk Hw) as [N1 N2].
  assert (Hown : forall i nm, active i nm h -> i = id /\ nm = name \/ i <> id /\ nm <> name /\ active i nm (w_home w)).
  { intros i nm Ha. destruct (decide (i = id)) as [->|Hne].
    - left. split; [done|]. destruct Ha as (d & Hd & Hr & _). destruct Hh as (_ & [Hh|(d' & Hd' & _ & Hr')]); [congruence|].
      rewrite Hd in Hd'. injection Hd' as <-. destruct Hr' as [Hr'|Hr']; rewrite Hr' in Hr; [done|]. injection Hr as Hr. by apply line_inj in Hr.
    - right. apply (reserving_active h) in Ha; [|done..]. split; [done|]. split; [|done]. intros ->. by apply (N2 _ _ Ha). }
  split.
  - intros i j nm Hi'%Hown Hj%Hown. destruct Hi' as [[-> ->]|(? & ? & Hi')], Hj as [[-> ?]|(? & ? & Hj)]; [done..|]. by eapply N1.
  - intros i nm Ha%Hown. rewrite Hi. destruct Ha as [[-> ->]|(_ & Hne & Ha)]; [by rewrite lookup_insert_eq|].
    rewrite lookup_insert_ne by done. by eapply N2.
Qed.

Lemma reservation_spec : blank id = false -> h_byInstance (w_home w) !! name = None ->
  triple c (during nobody (eq id) w) (reserve id name) (fun _ => during nobody (eq id) w) (fun _ => reservedAt) w.
Proof.
  intros Hb Hn. pose proof (during_mono yamlNode whole _ _ (eq id) nobody w w
    (during_start yamlNode whole nobody nobody w Hinv) (fun _ H => H) (fun _ (H : False) => match H with end)) as H0.
  eapply triple_bind; [by apply (triple_step c _ _ (fun _ w' => w' = w))|]. intros [] w' ->.
  destruct (reserve_end Hb) as (h1 & E1 & I1).
  eapply triple_naming; [apply reserve_safely|by exists h1, tt|..].
  - intros Hu h Hh. apply reserving_during; [exact Hh|]. intros Hw. specialize (Hwhole Hw). congruence.
  - intros Hu e h Hh. apply reserving_during; [exact Hh|]. intros Hw. specialize (Hwhole Hw). congruence.
  - intros [] h Hh Hd Hu.
    assert (Hk : whole = true -> namesKept yamlNode h).
    { intros Hw. specialize (Hu (Hwhole Hw)). rewrite E1 in Hu. injection Hu as <-. by apply reserved_names. }
    split; [by apply reserving_during|]. split; [done|]. split; [exact Hd|]. split.
    + destruct Hd as (d & Hd & Hdn & Hdr). exists d. split; [done|]. split; [done|by left].
    + intros Hv. destruct Hinv as (_ & Ho & _). destruct (Ho name Hv) as [j Hj]. exists j. split; [by eapply fresh_active|].
      apply reserving_active; [done|by eapply fresh_active|done].
Qed.
End Reserve.

(** ** Giving it back *)

Section Remove.
Context (names exempt : string -> Prop) (w0 w : world) (id name : string) (d : nodeDir).
Hypothesis Hduring : during names exempt w0 w.
Hypothesis Hexempt : exempt id.
Hypothesis Hdir : h_nodes (w_home w) !! id = Some d.
Hypothesis Href : d_ref d = Some (line name) /\ active id name (w_home w) /\ blank name = false \/ d_ref d = None /\ blank name = true.
Hypothesis Hspare : spare id name w.

Definition removing (h : home) : Prop :=
  (forall j, j <> id -> h_nodes h !! j = h_nodes (w_home w) !! j) /\ (h_nodes h !! id = None \/ h_nodes h !! id = Some d).

Lemma removing_during h : removing h -> (whole = true -> namesKept yamlNode h) -> during names exempt w0 (World h (w_vms w)).
Proof.
  intros (H1 & H2) Hk. eapply during_dir; [exact Hduring|exact Hexempt|exact H1|].
  destruct Hduring as ((Hok & Ho & _) & _). split; [|split; [|exact Hk]].
  - intros i x Hx. cbn in Hx. destruct (decide (i = id)) as [->|Hne]; [|rewrite H1 in Hx by done; by apply Hok].
    destruct H2 as [H2|H2]; [congruence|]. apply (Hok id). congruence.
  - intros nm Hnm. destruct (Ho nm Hnm) as [i Hi]. destruct (decide (i = id)) as [->|Hne].
    + assert (nm = name) as ->.
      { destruct Hi as (x & Hx & Hr & _). rewrite Hdir in Hx. injection Hx as <-.
        destruct Href as [[Hr' _]|[Hr' _]]; rewrite Hr' in Hr; [|done]. injection Hr as Hr. by apply line_inj in Hr. }
      destruct (Hspare Hnm) as (j & Hj & Ha). exists j. unfold NodeLifecycleInvariant.active. cbn. by rewrite H1.
    + exists i. unfold NodeLifecycleInvariant.active. cbn. by rewrite H1.
Qed.

Lemma remove_safely : safely (RemoveIncompleteNodeMetadata [(id, name)]) removing (fun _ h => removing h) (w_home w).
Proof.
  assert (H0 : removing (w_home w)) by (split; [done|by right]).
  assert (Hi : forall h, removing h -> removing (removeInstance name h)) by done.
  assert (Hd : forall h, removing h -> removing (removeDir id h)).
  { intros h (H1 & _). split; [intros j Hj; cbn; rewrite lookup_delete_ne by done; by apply H1|]. left. cbn. by rewrite lookup_delete_eq. }
  cbn [RemoveIncompleteNodeMetadata]. eapply safely_bind with (P := fun _ _ => True).
  { destruct (negb (blank name)); [apply safely_attempt; auto|by apply safely_ret]. }
  intros _ h1 H1 _. eapply safely_bind with (P := fun _ _ => True); [by apply safely_effect; auto|].
  intros _ h2 H2 _. by apply safely_ret.
Qed.

Definition removed : home := removeDir id (if negb (blank name) then removeInstance name (w_home w) else w_home w).

Lemma remove_end : RemoveIncompleteNodeMetadata [(id, name)] (w_home w) [] = (removed, [], Done tt).
Proof. unfold RemoveIncompleteNodeMetadata, removed. by destruct (blank name). Qed.

Lemma removed_names : whole = true -> namesKept yamlNode removed.
Proof.
  intros Hw. destruct Hduring as ((_ & _ & Hk) & _). destruct (Hk Hw) as [N1 N2].
  assert (Hnodes : h_nodes removed = delete id (h_nodes (w_home w))) by (unfold removed; by destruct (negb (blank name))).
  assert (Hact : forall i nm, active i nm removed -> i <> id /\ active i nm (w_home w)).
  { intros i nm (x & Hx & Hr). rewrite Hnodes in Hx. apply lookup_delete_Some in Hx as [Hne Hx]. split; [done|by exists x]. }
  split; [intros i j nm [_ Hi]%Hact [_ Hj]%Hact; by eapply N1|]. intros i nm [Hne Ha]%Hact. unfold removed. cbn.
  destruct Href as [(_ & Hown & Hb)|(_ & Hb)]; rewrite Hb; cbn [negb]; [|by eapply N2].
  cbn. rewrite lookup_delete_ne; [by eapply N2|]. intros ->. apply Hne. by eapply N1.
Qed.

Lemma removal_spec (Q : unit -> world -> Prop) :
  (forall h, removing h -> during names exempt w0 (World h (w_vms w)) -> Q tt (World h (w_vms w))) ->
  triple c (during names exempt w0) (naming (RemoveIncompleteNodeMetadata [(id, name)])) (fun _ => during names exempt w0) Q w.
Proof.
  intros HQ. eapply triple_naming; [apply remove_safely|exists removed, tt; apply remove_end|..].
  - intros Hu h Hh. apply removing_during; [exact Hh|]. intros Hw. specialize (Hwhole Hw). congruence.
  - intros Hu e h Hh. apply removing_during; [exact Hh|]. intros Hw. specialize (Hwhole Hw). congruence.
  - intros [] h Hh _ Hu. apply HQ; [exact Hh|]. apply removing_during; [exact Hh|]. intros Hw. specialize (Hu (Hwhole Hw)).
    rewrite remove_end in Hu. injection Hu as <-. by apply removed_names.
Qed.
End Remove.

(** ** Deleting an instance *)

Lemma Delete_gone (P : world -> Prop) n name w :
  n_SandboxName n = name -> (forall w rest, P w -> P (setVM name rest w)) -> P w ->
  triple c P (Delete n) (fun _ => P) (fun _ w' => P w' /\ w_vms w' !! name = None) w.
Proof.
  intros Hn HP Hw. unfold Delete. rewrite Hn.
  eapply triple_bind with (P := fun _ w' => w' = w).
  { unfold checkSandboxName. destruct (validateSandboxName name); [by apply triple_ret|by apply triple_fail]. }
  intros _ w' ->. eapply triple_bind with (P := fun vms w' => w' = w /\ vms = w_vms w); [by apply triple_listDirect|].
  intros vms w' [-> ->]. unfold findObservation. destruct (w_vms w !! name) as [status|] eqn:E; cbn; [|by apply triple_ret].
  eapply triple_bind with (P := fun _ => P).
  { assert (Hs : holds c P (whenRun (status =? ObservationRunning)%string (Stop n)) (fun _ => True)).
    { apply holds_when. unfold Stop. rewrite Hn. eapply holds_then; [apply holds_step|].
      eapply holds_then; [by apply holds_command|apply holds_verify]. }
    eapply triple_weaken; [by apply Hs|done..|]. by intros a w1 [H _]. }
  intros [] w1 H1. eapply triple_bind; [by apply (triple_step c P (fun _ => P) (fun _ => P))|]. intros [] w2 H2.
  apply triple_deleteCommand; [auto..|]. split; [by apply HP|]. cbn. by rewrite lookup_partial_alter_eq.
Qed.

(** ** Creating the instance of a reserved name *)

Section Created.
Context (w1 : world) (id name : string).
Hypothesis Hinv : inv w1.
Hypothesis Hmine : mine id name (w_home w1).
Hypothesis Hblank : blank id = false.
Hypothesis Hvalid : validateSandboxName name = true.
Hypothesis Hfree : spare id name w1.

Abbreviation kept := (during (eq name) nobody w1).
Abbreviation gone := (during (eq name) (eq id) w1).

Lemma kept_gone w : kept w -> gone w.
Proof. intros H. by apply (during_mono yamlNode whole _ _ _ _ _ _ H). Qed.

Lemma kept_mine w : kept w -> mine id name (w_home w).
Proof. intros (_ & _ & M & _). apply M; [by intros []|done]. Qed.

Lemma kept_spare w : kept w -> w_vms w = w_vms w1 -> spare id name w.
Proof.
  intros (_ & _ & _ & A & _) Hv Hn. rewrite Hv in Hn. destruct (Hfree Hn) as (j & Hj & Ha). exists j. split; [done|].
  apply A; [by intros []|done].
Qed.

Lemma kept_setVM w rest : kept w -> kept (setVM name rest w).
Proof. intros H. eapply during_setVM; [done| |exact H]. by apply mine_active, kept_mine. Qed.

Lemma rollback_spec {A} flag n e w : n_ID n = id -> n_SandboxName n = name -> kept w -> (flag = false -> spare id name w) ->
  triple c gone (rollbackReserved (A := A) flag n e) (fun _ => gone) (fun _ _ => False) w.
Proof.
  intros Hi Hn Hw Hs. unfold rollbackReserved. rewrite Hi, Hn.
  eapply triple_bind with (P := fun r w' => kept w' /\ (r = Ok tt -> spare id name w')).
  { eapply triple_try with (E := fun _ => kept); [|by intros e' w' H]. destruct flag; cbn [whenRun].
    - eapply triple_weaken; [by apply (Delete_gone kept n name w Hn kept_setVM Hw)|apply kept_gone|done|].
      intros [] w' [H Hg]. split; [exact H|]. by intros _ Hv.
    - apply triple_ret. split; [exact Hw|auto]. }
  intros [[]|e'] w' [H Hg]; [|apply triple_fail; by apply kept_gone].
  pose proof (kept_mine w' H) as (d & Hd & Hr & Hnd).
  eapply triple_bind with (P := fun _ => gone).
  - eapply triple_try with (E := fun _ => gone); [|done].
    eapply triple_bind with (P := fun _ w2 => w2 = w'); [apply triple_durable; [by apply kept_gone|intros; by apply kept_gone|done]|].
    intros [] w2 ->. eapply removal_spec; [by apply kept_gone|done|exact Hd| |by apply Hg|done].
    left. split; [exact Hr|]. split; [by apply mine_active, kept_mine|by apply sandboxName_blank].
  - intros r w2 H2. destruct r; by apply triple_fail.
Qed.

(** What the calls that make the instance promise. *)
Definition makes (m : Run unit) : Prop :=
  triple c kept m (fun e w' => kept w' /\ (runtimeMutationMayHaveCreated e = false -> w' = w1)) (fun _ => kept) w1.

Lemma same_error e : kept w1 -> kept w1 /\ (runtimeMutationMayHaveCreated e = false -> w1 = w1).
Proof. done. Qed.

Lemma marked m : holds c kept m (fun _ => True) -> makes (mayHaveCreated m).
Proof.
  intros Hm. pose proof (during_start yamlNode whole (eq name) nobody w1 Hinv) as H0. unfold makes, mayHaveCreated.
  eapply triple_bind with (P := fun _ => kept).
  - eapply triple_try with (E := fun _ => kept); [|done]. eapply triple_weaken; [by apply Hm|done..|]. by intros a w [H _].
  - intros [[]|e] w H; [by apply triple_ret|]. apply triple_fail. by split.
Qed.

(** Steps before it that change nothing. *)
Lemma makes_bind {A} (m : Run A) (k : A -> Run unit) :
  triple c (fun w => w = w1) m (fun _ w => w = w1) (fun _ w => w = w1) w1 -> (forall a, makes (k a)) -> makes (m ≫= k).
Proof.
  intros Hm Hk. pose proof (during_start yamlNode whole (eq name) nobody w1 Hinv) as H0.
  eapply triple_bind with (P := fun _ w => w = w1).
  - eapply triple_weaken; [exact Hm|by intros w ->| |done]. by intros e w ->.
  - intros a w ->. apply Hk.
Qed.

Lemma makes_step (k : unit -> Run unit) : (forall a, makes (k a)) -> makes (step ≫= k).
Proof. apply makes_bind. by apply triple_step. Qed.
Lemma makes_list (k : instances -> Run unit) : (forall a, makes (k a)) -> makes (listDirect ≫= k).
Proof. apply makes_bind. by apply triple_listDirect. Qed.
Lemma makes_lift {A} (r : result A) (k : A -> Run unit) : (forall a, makes (k a)) -> makes (lift r ≫= k).
Proof. apply makes_bind. by apply triple_lift. Qed.
Lemma makes_check s (k : unit -> Run unit) : (forall a, makes (k a)) -> makes (checkSandboxName s ≫= k).
Proof. apply makes_bind. unfold checkSandboxName. destruct (validateSandboxName s); [by apply triple_ret|by apply triple_fail]. Qed.
Lemma makes_fail e : makes (fail e).
Proof. apply triple_fail. split; [by apply during_start|done]. Qed.

Lemma command_verify intended :
  holds c kept (command name intended ;; verifyObservation name ObservationStopped) (fun _ => True).
Proof. eapply holds_then; [apply holds_command; intros; by apply kept_setVM|apply holds_verify]. Qed.

Lemma Create_makes n : n_SandboxName n = name -> makes (Create n).
Proof.
  intros Hn. unfold Create. rewrite Hn. apply makes_lift. intros _. apply makes_step. intros _. apply makes_list. intros vms.
  destruct (findObservation vms name); [apply makes_fail|]. apply makes_step. intros _. apply marked, command_verify.
Qed.

Lemma Clone_makes source n : n_SandboxName n = name -> makes (Clone source n).
Proof.
  intros Hn. unfold Clone. rewrite Hn. apply makes_check. intros _. apply makes_check. intros _. apply makes_step. intros _.
  apply makes_list. intros vms. destruct (findObservation vms (n_SandboxName source)); [|apply makes_fail].
  destruct (findObservation vms name); [apply makes_fail|]. apply makes_step. intros _. apply marked, command_verify.
Qed.

(** ** The record of the new node *)

Definition committed (w : world) : Prop := kept w /\ nodeMetadataExists id (w_home w) = true.

Lemma save_committed n b w : lives id name n -> kept w ->
  triple c kept (SaveNode n b) (fun _ => kept) (fun _ => committed) w.
Proof.
  intros [Hn Hb] Hw f Hf.
  assert (Hs : holds c kept (SaveNode n b) (fun _ => True)) by (eapply during_save; [eassumption|exact Hn|exact Hb|by intros []|exact Hmine]).
  specialize (Hs w Hw f Hf). pose proof (kept_mine w Hw) as (d & Hd & Hr & _). pose proof Hw as ((Hok & _) & _).
  destruct Hn as (E1 & E2 & _).
  rewrite <- E1 in Hd. rewrite <- E2 in Hr. unfold NodeLifecycle.SaveNode, store in *.
  pose proof (save_saving yamlMarshal yamlNode jsonBootstrap n b (w_home w) d Hd Hr Hok (f_store f)) as Hsave.
  destruct (NodeStore.SaveNode _ _ _ n b (w_home w) (f_store f)) as [[h fs] [[]|e|]]; [|exact Hs..].
  destruct Hs as (Hf' & Hk & _), Hsave as (_ & x & Hx & Hrec). split; [exact Hf'|]. split; [exact Hk|]. cbn.
  unfold nodeMetadataExists, dirOf. rewrite <- E1, Hx. cbn. by rewrite Hrec.
Qed.

(** Making the instance, then its record, or giving everything back. *)
Lemma created_spec {A} (m : Run unit) (commit : Run A) (made : A -> Node) n :
  makes m -> n_ID n = id -> n_SandboxName n = name ->
  (forall w, kept w -> triple c kept commit (fun _ => kept) (fun a w' => committed w' /\ lives id name (made a)) w) ->
  triple c gone (
    r ← tryRun m;
    match r with
    | Err e => rollbackReserved (runtimeMutationMayHaveCreated e) n e
    | Ok _ => r ← tryRun commit;
              match r with Err e => rollbackReserved true n e | Ok a => AppendNodeEvent ;; mret (made a) end
    end) (fun _ => gone) (fun child w' => committed w' /\ lives id name child) w1.
Proof.
  intros Hm Hi Hn Hc.
  eapply triple_bind with (P := fun r w' => kept w' /\ forall e, r = Err e -> runtimeMutationMayHaveCreated e = false -> w' = w1).
  { assert (Hm' : triple c gone m (fun e w' => kept w' /\ (runtimeMutationMayHaveCreated e = false -> w' = w1)) (fun _ => kept) w1)
      by (eapply triple_weaken; [exact Hm|apply kept_gone|done|done]).
    eapply triple_try; [eapply triple_weaken; [exact Hm'|done|intros e w H; exact H|]|].
    - intros [] w H. split; [exact H|]. intros e He. discriminate He.
    - intros e w [H He]. split; [exact H|]. intros e' [= <-]. exact He. }
  intros [[]|e] w [H He].
  - eapply triple_bind with (P := fun r w' => match r with Ok a => committed w' /\ lives id name (made a) | Err _ => kept w' end).
    { assert (Hc' : triple c gone commit (fun _ => kept) (fun a w' => committed w' /\ lives id name (made a)) w)
        by (eapply triple_weaken; [by apply Hc|apply kept_gone|done|done]).
      eapply triple_try; [exact Hc'|]. by intros e w' H'. }
    intros [a|e] w' H'.
    + eapply triple_bind with (P := fun _ w2 => w2 = w').
      * destruct H' as [[H' _] _]. apply triple_durable; [by apply kept_gone|intros; by apply kept_gone|done].
      * intros [] w2 ->. by apply triple_ret.
    + eapply triple_weaken; [by apply (rollback_spec true n e w')|done..|]. by intros a w2 [].
  - eapply triple_weaken; [apply (rollback_spec _ n e w Hi Hn H)|done|done|by intros a w2 []].
    intros Hflag. rewrite (He e eq_refl Hflag). exact Hfree.
Qed.
End Created.

End Make.
