(* ===== verification/NodeLifecycleOps.v ===== *)
(** * The lifecycle of a node: whole operations

    Every operation of [NodeLifecycle] from the world it starts in: what it may
    change of the instances and the directories, however it ends.  A target is
    looked up, so what an operation may change is stated by what the lookup
    answers. *)

From S2P Require Import Prelude GoText Forwarding RuntimeCommands NodeRecord NodeInput NodeStore NodeStoreSafe NodeStoreLookup Bootstrap.
From S2P Require Import SandboxRuntime NodeLifecycle NodeLifecycleLogic NodeLifecycleInvariant NodeLifecycleLive NodeLifecycleMake.
Local Open Scope Z_scope.

Section Ops.
Context (yamlMarshal : nodeFileWire -> bytes) (yamlNode : bytes -> result nodeFileWire)
        (yamlStored : bytes -> result storedFields).
Context `{!NodeYAML yamlMarshal yamlNode yamlStored}.
Context (jsonBootstrap : BootstrapState -> bytes) (parseBootstrap : bytes -> result BootstrapState).
Context (builtIns : list builtIn) (defaultValidation : string) (profileValidation : string -> option string).
Context (configurationSlug : string -> result string).
Context (c : conditions) (whole : bool).
Hypothesis Hwhole : whole = true -> untorn c = true.

Abbreviation during := (during yamlNode whole).
Abbreviation inv := (inv yamlNode whole).
Abbreviation active := (active yamlNode).
Abbreviation mine := (mine yamlNode).
Abbreviation nobody := (fun _ : string => False).
Abbreviation ends := (ends c).
Abbreviation resolves value w := (NodeByIDOrSlug (Observation := RuntimeObservation) yamlNode value (w_home w)).

(** ** Targets *)

Definition targetNames (value : string) (w : world) (nm : string) : Prop :=
  exists n, resolves value w = Ok n /\ n_SandboxName n = nm.
Definition targetIDs (value : string) (w : world) (id : string) : Prop := exists n, resolves value w = Ok n /\ n_ID n = id.
Definition liveTarget (value : string) (w : world) : Prop := forall n, resolves value w = Ok n -> n_DeletedAt n = None.

Lemma listed_byID inc h n : homeOk yamlNode h -> n ∈ ListNodes (Observation := RuntimeObservation) yamlNode inc h ->
  NodeByID yamlNode (n_ID n) h = Ok n.
Proof.
  intros Hok Hn. apply list_spec in Hn as (id & Hb & _). pose proof Hb as (d & Hd & Hr)%byID_dir.
  destruct (proj1 (Hok _ _ Hd) n Hr) as (-> & _). exact Hb.
Qed.

Lemma resolves_byID value w n : homeOk yamlNode (w_home w) -> resolves value w = Ok n ->
  NodeByID yamlNode (n_ID n) (w_home w) = Ok n.
Proof.
  intros Hok. set (h := w_home w).
  assert (Hself : forall id, NodeByID yamlNode id h = Ok n -> NodeByID yamlNode (n_ID n) h = Ok n).
  { intros id Hb. pose proof Hb as (d & Hd & Hr)%byID_dir. destruct (proj1 (Hok _ _ Hd) n Hr) as (-> & _). exact Hb. }
  assert (Hscan : scanSlug yamlNode value h = Ok n -> NodeByID yamlNode (n_ID n) h = Ok n).
  { unfold scanSlug. destruct (List.find _ _) as [x|] eqn:Ef.
    - intros [= <-]. apply List.find_some in Ef as [Hin _]. apply list_elem_of_In in Hin. by eapply listed_byID.
    - destruct (last _) as [x|] eqn:El; [|done]. intros [= <-].
      apply last_Some_elem_of in El. apply list_elem_of_In, List.filter_In in El as [Hin _]. apply list_elem_of_In in Hin.
      by eapply listed_byID. }
  unfold NodeByIDOrSlug. fold h. destruct (nodeMetadataExists value h); [apply Hself|].
  destruct (h_bySlug h !! value) as [data|]; [|exact Hscan].
  destruct (NodeByID yamlNode (TrimSpace data) h) as [x|e] eqn:E; [intros [= <-]; by eapply Hself|].
  destruct (isNotFound e); [exact Hscan|done].
Qed.

Lemma byID_mine h n : homeOk yamlNode h -> NodeByID yamlNode (n_ID n) h = Ok n -> n_DeletedAt n = None ->
  mine (n_ID n) (n_SandboxName n) h /\ lives (n_ID n) (n_SandboxName n) n.
Proof.
  intros Hok Hb Hd. pose proof Hb as (d & Hdir & Hr)%byID_dir. destruct (proj1 (Hok _ _ Hdir) n Hr) as (_ & Href & _).
  assert (Hm : mine (n_ID n) (n_SandboxName n) h) by (exists d; split; [done|]; split; [done|]; right; by exists n).
  split; [exact Hm|]. eapply mine_byID; done.
Qed.

(** Looking the target up, then the rest. *)
Lemma targeted {A} value (k : string -> Run A) (P : world -> Prop) Q w :
  inv w -> liveTarget value w -> P w ->
  (forall n, resolves value w = Ok n -> mine (n_ID n) (n_SandboxName n) (w_home w) -> lives (n_ID n) (n_SandboxName n) n ->
    ends P (k (n_ID n)) Q w) ->
  ends P (ensureReady ;; resolved ← resolveNode yamlNode value; claimNodeOperation ;; k (n_ID resolved)) Q w.
Proof.
  intros Hi Hl Hw Hk. eapply ends_idle; [exact Hw|apply holds_step|]. intros _ _.
  eapply ends_idle with (phi := fun n => resolves value w = Ok n); [exact Hw| |].
  - eapply holds_bind with (phi := fun r => r = resolves value w); [by apply holds_reads; intros w' ->|].
    intros r ->. by apply holds_lift.
  - intros n Hn. eapply ends_idle; [exact Hw|apply holds_step|]. intros _ _. pose proof Hi as (Hok & _).
    destruct (byID_mine (w_home w) n Hok) as [Hm Hv]; [by eapply resolves_byID|by apply Hl|]. by apply Hk.
Qed.

(** ** Starting, stopping and restarting *)

Section Live.
Context (value : string) (w : world).
Hypothesis Hinv : inv w.
Hypothesis Hlive : liveTarget value w.

Abbreviation kept := (during (targetNames value w) nobody w).

Lemma start_kept resume :
  ends kept (nodeStart yamlMarshal yamlNode jsonBootstrap parseBootstrap builtIns defaultValidation profileValidation
    configurationSlug value resume) (fun _ => kept) w.
Proof.
  apply (targeted value (fun id => nodeStartClaimed yamlMarshal yamlNode jsonBootstrap parseBootstrap builtIns defaultValidation profileValidation
    configurationSlug id resume)); [done..|by apply during_start|]. intros n Hn Hm Hv.
  eapply ends_last; [|by apply (during_start yamlNode whole (targetNames value w) nobody)|done|done].
  by eapply start_safe; [eassumption| |by intros []|exists n].
Qed.

Lemma stop_kept :
  ends kept (NodeStop yamlMarshal yamlNode jsonBootstrap parseBootstrap configurationSlug value) (fun _ => kept) w.
Proof.
  apply (targeted value (nodeStopClaimed yamlMarshal yamlNode jsonBootstrap parseBootstrap configurationSlug)); [done..|by apply during_start|]. intros n Hn Hm Hv.
  eapply ends_last; [|by apply (during_start yamlNode whole (targetNames value w) nobody)|done|done].
  by eapply stop_safe; [eassumption| |by intros []|exists n].
Qed.

Lemma restart_kept :
  ends kept (NodeRestart yamlMarshal yamlNode jsonBootstrap parseBootstrap builtIns defaultValidation profileValidation
    configurationSlug value) (fun _ => kept) w.
Proof.
  apply (targeted value (fun id => step ;; step ;;
    _ ← nodeStopClaimed yamlMarshal yamlNode jsonBootstrap parseBootstrap configurationSlug id;
    step ;; step ;;
    nodeStartClaimed yamlMarshal yamlNode jsonBootstrap parseBootstrap builtIns defaultValidation profileValidation
      configurationSlug id false)); [done..|by apply during_start|]. intros n Hn Hm Hv.
  eapply ends_last; [|by apply (during_start yamlNode whole (targetNames value w) nobody)|done|done].
  by eapply restart_safe; [eassumption| |by intros []|exists n].
Qed.
End Live.

(** ** Deleting *)

(** The record of a node whose instance is gone. *)
Lemma bury names exempt w0 n b d w :
  during names exempt w0 w -> exempt (n_ID n) -> mine (n_ID n) (n_SandboxName n) (w_home w) ->
  w_vms w !! n_SandboxName n = None -> blank (n_ID n) = false -> n_DeletedAt n = Some d -> n_Status n = NodeStatusTerminated ->
  ends (during names exempt w0) (SaveNode yamlMarshal yamlNode jsonBootstrap n b) (fun _ => during names exempt w0) w.
Proof.
  intros Hw Hx Hm Hv Hb Hdel Hst. pose proof Hw as ((Hok & Ho & Hk) & _). pose proof Hm as (d0 & Hd0 & Hr0 & Hn0).
  assert (Hdead : deletedOrTerminated n = true) by (unfold deletedOrTerminated; rewrite Hdel; by rewrite bool_decide_eq_true_2).
  assert (Hread : forall x, readNodeRecord (Observation := RuntimeObservation) yamlNode (Some (nodeYAMLBytes yamlMarshal n)) = Ok x -> x = saved n).
  { intros x. rewrite (read_written yamlMarshal yamlNode yamlStored) by done. by intros [= <-]. }
  assert (Hsaved : n_Status (saved n) = NodeStatusTerminated).
  { cbn. unfold nodeLifecycleState. cbv zeta. by rewrite Hst, normalize_terminated. }
  assert (Himp : forall h, saving yamlMarshal n (w_home w) d0 h -> during names exempt w0 (World h (w_vms w))).
  { intros h (S1 & (x & Hx' & Hrx & Hnx) & S3 & S4). eapply during_dir; [exact Hw|exact Hx|exact S1|].
    assert (Hact : forall i nm, active i nm h -> active i nm (w_home w)).
    { intros i nm (y & Hy & Hry & Ht). destruct (decide (i = n_ID n)) as [->|Hne]; [|exists y; by rewrite <- (S1 i Hne)].
      apply mine_active. rewrite Hx' in Hy. injection Hy as <-. rewrite Hrx in Hry. injection Hry as E. apply line_inj in E.
      by rewrite <- E. }
    split; [|split].
    - intros i y Hy. cbn in Hy. destruct (decide (i = n_ID n)) as [->|Hne]; [|rewrite S1 in Hy by done; by apply Hok].
      rewrite Hx' in Hy. injection Hy as <-. split.
      + intros z Hz. destruct Hnx as [Hnx|Hnx]; rewrite Hnx in Hz.
        * destruct (proj1 (Hok _ _ Hd0) z Hz) as (H1 & H2 & H3). split; [done|]. split; [congruence|done].
        * rewrite (Hread z Hz). split; [done|]. split; [done|]. split; [done|]. intros _.
          change (n_DeletedAt (saved n)) with (n_DeletedAt n). by rewrite Hdel.
      + intros data Hdata. apply (proj2 (Hok _ _ Hd0)). congruence.
    - intros nm Hnm. destruct (Ho nm Hnm) as [i Hi]. exists i. destruct (decide (i = n_ID n)) as [->|Hne].
      + exfalso. destruct Hi as (y & Hy & Hry & _). rewrite Hd0 in Hy. injection Hy as <-. rewrite Hr0 in Hry.
        injection Hry as E. apply line_inj in E. rewrite <- E in Hnm. by apply Hnm.
      + unfold NodeLifecycleInvariant.active. cbn. by rewrite S1.
    - intros Hw'. destruct (Hk Hw') as [N1 N2]. split; [intros i j nm Hi%Hact Hj%Hact; by eapply N1|].
      intros i nm Hi. pose proof (N2 _ _ (Hact _ _ Hi)) as Hidx. cbn. destruct (decide (nm = n_SandboxName n)) as [->|Hne]; [|by rewrite S3].
      destruct (S4 Hidx) as [H|[_ (y & Hy & Hrec)]]; [exact H|]. exfalso.
      assert (i = n_ID n) as -> by (eapply N1; [by apply Hact|by apply mine_active]).
      destruct Hi as (z & Hz & _ & Ht). apply Ht. cbn in Hz. rewrite Hy in Hz. injection Hz as <-. exists (saved n).
      split; [|change (n_DeletedAt (saved n)) with (n_DeletedAt n); by rewrite Hdel].
      rewrite Hrec. by apply (read_written yamlMarshal yamlNode yamlStored). }
  eapply triple_store; [by apply (save_saving yamlMarshal yamlNode jsonBootstrap n b (w_home w) d0)|exact Himp|intros e; exact Himp|].
  intros [] h Hh _. by apply Himp.
Qed.

Lemma delete_spec value hydrate w : inv w -> liveTarget value w ->
  ends (during (targetNames value w) (targetIDs value w) w)
    (deleteNode yamlMarshal yamlNode jsonBootstrap parseBootstrap configurationSlug value hydrate)
    (fun _ => during (targetNames value w) (targetIDs value w) w) w.
Proof.
  intros Hi Hl. pose proof (during_start yamlNode whole (targetNames value w) nobody w Hi) as H0.
  assert (Hmono : forall w', during (targetNames value w) nobody w w' -> during (targetNames value w) (targetIDs value w) w w').
  { intros w' H. by apply (during_mono yamlNode whole _ _ _ _ _ _ H). }
  apply (targeted value (deleteClaimed yamlMarshal yamlNode jsonBootstrap parseBootstrap configurationSlug hydrate)); [done..|by apply Hmono|]. intros n Hn Hm Hv.
  set (kept := during (targetNames value w) nobody w).
  assert (Hname : targetNames value w (n_SandboxName n)) by (by exists n).
  eapply ends_holds with (P' := kept) (phi := fun nb => lives (n_ID n) (n_SandboxName n) nb.1); [|exact H0|exact Hmono|].
  { apply locks_safe. eapply holds_bind; [by eapply load_safe; [exact Hm|by intros []]|].
    intros nb Hnb. eapply holds_bind; [by eapply recover_safe; [exact _|exact Hm|by intros []|exact Hnb]|].
    intros n1 H1. eapply holds_bind; [apply holds_now|]. intros t _. cbv zeta.
    eapply holds_then; [eapply save_safe; [exact _|exact Hm|by intros []|auto with lifecycle]|]. apply holds_ret. cbn [fst].
    auto with lifecycle. }
  intros [n1 b1] w1 H1 Hv1. cbn [fst snd] in *.
  eapply ends_holds with (P' := kept) (phi := lives (n_ID n) (n_SandboxName n)); [|exact H1|exact Hmono|].
  { destruct hydrate; [by eapply hydrate_safe|by apply holds_ret]. }
  intros n2 w2 H2 Hv2.
  pose proof Hv2 as ((Eid & Enm & _) & Hb2).
  eapply ends_bind with (R := fun _ w' => kept w' /\ w_vms w' !! n_SandboxName n = None).
  { eapply triple_weaken; [eapply (Delete_gone c kept n2 (n_SandboxName n))|exact Hmono|intros e; exact Hmono|done].
    - exact Enm.
    - intros w' rest H. eapply during_setVM; [exact Hname| |exact H]. apply mine_active. apply H; [by intros []|exact Hm].
    - exact H2. }
  intros [] w3 [H3 Hg]. eapply ends_idle; [by apply Hmono|apply holds_now|]. intros t _. cbv zeta.
  eapply ends_bind with (R := fun _ => during (targetNames value w) (targetIDs value w) w).
  { eapply ends_idle; [by apply Hmono|apply holds_durable|]. intros _ _.
    eapply ends_bind with (R := fun _ => during (targetNames value w) (targetIDs value w) w).
    - eapply bury with (d := t); [by apply Hmono|..]; change (n_ID (setDeleted _ _)) with (n_ID n2);
        change (n_SandboxName (setDeleted _ _)) with (n_SandboxName n2); rewrite ?Eid, ?Enm.
      + by exists n.
      + apply H3; [by intros []|exact Hm].
      + exact Hg.
      + congruence.
      + done.
      + done.
    - intros [] w4 H4. eapply ends_last; [apply holds_durable|exact H4|done|done]. }
  intros [] w4 H4. by apply triple_ret.
Qed.

(** ** Creating *)

(** The name a new node may take: nothing else stands for it. *)
Definition newNames (slug : string) (w : world) (nm : string) : Prop :=
  nm = newName slug /\ (whole = true -> forall i, ~ active i nm (w_home w)).

(** A directory of its own under its own name, with the record of the node. *)
Definition registered (id name : string) (n : Node) (w : world) : Prop :=
  mine id name (w_home w) /\ nodeMetadataExists id (w_home w) = true /\ lives id name n.

Section New.
Context (slug id : string) (w : world).
Hypothesis Hinv : inv w.
Hypothesis Hfresh : h_nodes (w_home w) !! id = None.
Hypothesis Hblank : blank id = false.

Abbreviation made := (during (newNames slug w) (eq id) w).

Lemma made_start : made w.
Proof. by apply during_start. Qed.

Lemma unoccupied name : h_byInstance (w_home w) !! name = None -> whole = true -> forall i, ~ active i name (w_home w).
Proof. intros Hn Hw i Ha. destruct Hinv as (_ & _ & Hk). destruct (Hk Hw) as [_ N2]. by apply (N2 _ _ Ha). Qed.

Lemma reserved_made name w1 : newNames slug w name -> reservedAt yamlNode whole id name w w1 ->
  forall w2, during (eq name) (eq id) w1 w2 -> made w2.
Proof.
  intros Hn (H1 & _) w2 H2. eapply during_trans; [eapply during_mono; [exact H1|by intros nm []|done]|exact H2|by intros nm <-|done].
Qed.

(** The rest of making a node, once its name is reserved. *)
Lemma new_spec {A} (m : Run unit) (commit : Run A) (child : A -> Node) n name w1 :
  newNames slug w name -> validateSandboxName name = true -> reservedAt yamlNode whole id name w w1 ->
  n_ID n = id -> n_SandboxName n = name ->
  makes yamlNode c whole w1 name m ->
  (forall w, during (eq name) nobody w1 w ->
     triple c (during (eq name) nobody w1) commit (fun _ => during (eq name) nobody w1)
       (fun a w' => committed yamlNode whole w1 id name w' /\ lives id name (child a)) w) ->
  ends made (
    r ← tryRun m;
    match r with
    | Err e => rollbackReserved (runtimeMutationMayHaveCreated e) n e
    | Ok _ => r ← tryRun commit;
              match r with Err e => rollbackReserved true n e | Ok a => AppendNodeEvent ;; mret (child a) end
    end) (fun child w' => made w' /\ newNames slug w name /\ registered id name child w') w1.
Proof.
  intros Hn Hv Hr Hi Hnm Hm Hc. pose proof (reserved_made name w1 Hn Hr) as Hmade. pose proof Hr as (H1 & _ & _ & Hown & Hfree).
  assert (Hinv1 : inv w1) by (by apply H1).
  eapply triple_weaken;
    [apply (created_spec yamlNode c whole Hwhole w1 id name Hown Hv Hfree m commit child n Hm Hi Hnm Hc)|exact Hmade|intros e; exact Hmade|].
  intros a w2 [[H2 He] Hl]. split; [apply Hmade; by eapply kept_gone|].
  split; [exact Hn|]. split; [|by split]. by eapply kept_mine.
Qed.

(** What comes before the reservation changes nothing. *)
Lemma unique_idle s w' : idle c w' (checkUniqueSlug yamlNode s) (fun _ => True).
Proof.
  unfold checkUniqueSlug. eapply holds_bind; [by apply (holds_reads c _ _ (fun _ => True))|]. intros [] _; [by apply holds_ret|apply holds_fail].
Qed.

(** The phase under the global locks: a new name, the node that gets it, and the
    reservation. *)
Lemma naming_spec {A} s (node : string -> time -> time -> A) : s = slug ->
  ends made (
    checkUniqueSlug yamlNode s ;;
    name ← reads (fun w => generateSandboxName yamlNode s (w_home w));
    name ← lift name;
    created ← now; updated ← now;
    reserve id name ;; mret (node name created updated))
  (fun a w1 => exists name created updated, a = node name created updated /\ newNames slug w name /\
     validateSandboxName name = true /\ reservedAt yamlNode whole id name w w1) w.
Proof.
  intros ->. pose proof made_start as H0.
  eapply ends_idle; [exact H0|apply unique_idle|]. intros _ _.
  eapply ends_idle with (phi := fun r => r = generateSandboxName yamlNode slug (w_home w)); [exact H0|by apply holds_reads; intros w' ->|].
  intros r ->. eapply ends_idle with (phi := fun name => generateSandboxName yamlNode slug (w_home w) = Ok name); [exact H0|by apply holds_lift|].
  intros name Hgen. destruct (generated _ _ _ _ Hgen) as (Hname & Hv & Hidx).
  assert (Hnew : newNames slug w name) by (split; [exact Hname|by apply unoccupied]).
  eapply ends_idle; [exact H0|apply holds_now|]. intros created _.
  eapply ends_idle; [exact H0|apply holds_now|]. intros updated _.
  assert (Hmono : forall w', during nobody (eq id) w w' -> made w').
  { intros w' H. eapply during_mono; [exact H|by intros nm []|done]. }
  eapply ends_bind with (R := fun _ => reservedAt yamlNode whole id name w).
  { eapply triple_weaken; [by eapply (reservation_spec yamlNode c whole Hwhole id name w)|exact Hmono|intros e; exact Hmono|done]. }
  intros [] w1 H1. apply triple_ret. by exists name, created, updated.
Qed.

Lemma ends_fail {A} (P : world -> Prop) e (Q : A -> world -> Prop) w' : P w' -> ends P (fail e) Q w'.
Proof. intros H. by apply triple_fail. Qed.

Lemma new_lives name f s : nf_ID f = id -> nf_SandboxName f = name -> nf_DeletedAt f = None ->
  lives id name (MkNode f s NodeStatusCreated "" None None).
Proof.
  intros E1 E2 E3. unfold lives, nodeFor, n_ID, n_SandboxName, n_DeletedAt, alive. cbn [n_fields n_Status n_LifecycleState].
  rewrite E1, E2, E3. repeat split; [apply alive_any; set_solver|by vm_compute|exact Hblank].
Qed.

Lemma createNode_spec input settings lookup : slug = ci_Slug input ->
  ends made (createNode yamlMarshal yamlNode jsonBootstrap input settings lookup id)
    (fun n w' => made w' /\ newNames slug w (newName slug) /\ registered id (newName slug) n w') w.
Proof.
  intros Eslug. pose proof made_start as H0. unfold createNode.
  eapply ends_idle; [exact H0|apply holds_step|]. intros _ _.
  destruct (blank (ci_Slug input)); [by apply ends_fail|]. destruct (negb _); [by apply ends_fail|].
  eapply ends_idle; [exact H0|by apply (holds_lift c _ _ (fun _ => True))|]. intros directory _.
  destruct (negb _); [by apply ends_fail|]. destruct (negb _); [by apply ends_fail|]. cbv zeta.
  destruct (_ =? _)%string; [by apply ends_fail|].
  eapply ends_idle; [exact H0|by apply (holds_lift c _ _ (fun _ => True))|]. intros ports _.
  eapply ends_idle; [exact H0|by apply (holds_lift c _ _ (fun _ => True))|]. intros auth _.
  set (mode := normalizeWorkspaceMode _).
  set (node := fun r name created updated => newNode input r id name directory mode (default [] (ci_Ports input))
    (default auth (ci_ImportHostAuth input)) created updated).
  eapply ends_bind with (R := fun nb w1 => exists r name created updated, nb = (node r name created updated, newBootstrap r) /\
    newNames slug w name /\ validateSandboxName name = true /\ reservedAt yamlNode whole id name w w1).
  { eapply ends_idle; [exact H0|apply holds_durable|]. intros _ _.
    eapply ends_idle; [exact H0|by apply (holds_lift c _ _ (fun _ => True))|]. intros r _.
    eapply triple_weaken; [apply (naming_spec (ci_Slug input) (fun name created updated => (node r name created updated, newBootstrap r)));
      by symmetry|done..|]. intros nb w1 (name & created & updated & H). by exists r, name, created, updated. }
  intros nb w1 (r & name & created & updated & -> & Hn & Hv & Hr). cbn [fst snd]. pose proof Hr as (H1 & _ & _ & Hown & Hfree).
  assert (Hl : lives id name (setForwarding (node r name created updated))) by (apply lives_forwarding; by apply new_lives).
  assert (Hname : name = newName slug) by apply Hn. rewrite <- Hname.
  apply (new_spec (Create (node r name created updated))
    (withLocks (SaveNode yamlMarshal yamlNode jsonBootstrap (setForwarding (node r name created updated)) (newBootstrap r)))
    (fun _ => setForwarding (node r name created updated)) (node r name created updated) name w1 Hn Hv Hr); [done|done| |].
  - by eapply Create_makes; [apply H1|exact Hown|].
  - intros w2 H2. eapply ends_idle; [exact H2|apply holds_durable|]. intros _ _.
    eapply triple_weaken; [by apply (save_committed yamlMarshal yamlNode yamlStored jsonBootstrap c whole w1 id name Hown _ _ w2 Hl H2)|done..|].
    by intros a w3 H3.
Qed.

Lemma cloneChild_spec source b s : slug = TrimSpace s ->
  ends made (cloneChild yamlMarshal yamlNode jsonBootstrap source b s id)
    (fun n w' => made w' /\ newNames slug w (newName slug) /\ registered id (newName slug) n w') w.
Proof.
  intros Eslug. pose proof made_start as H0. unfold cloneChild. cbv zeta. rewrite <- Eslug.
  destruct (_ =? _)%string; [by apply ends_fail|]. destruct (negb _); [by apply ends_fail|].
  set (node := fun name created updated => cloneOf source b id slug name created updated).
  eapply ends_bind with (R := fun n w1 => exists name created updated, n = node name created updated /\
    newNames slug w name /\ validateSandboxName name = true /\ reservedAt yamlNode whole id name w w1).
  { eapply ends_idle; [exact H0|apply holds_durable|]. intros _ _. by apply (naming_spec slug node). }
  intros n w1 (name & created & updated & -> & Hn & Hv & Hr). pose proof Hr as (H1 & _ & _ & Hown & Hfree).
  assert (Hl : lives id name (node name created updated)) by (by apply new_lives).
  assert (Hname : name = newName slug) by apply Hn. rewrite <- Hname.
  set (target := node name created updated) in *.
  apply (new_spec (Clone source target)
    (child ← reconcileNode target;
     child ← (if observedRunning child then Stop target ;; reconcileNode target else mret child);
     withLocks (SaveNode yamlMarshal yamlNode jsonBootstrap child b) ;; mret child)
    (fun n => n) target name w1 Hn Hv Hr); [done|done| |].
  - by eapply Clone_makes; [apply H1|exact Hown|].
  - intros w2 H2. set (kept := during (eq name) nobody w1).
    assert (Hrec : holds c kept (reconcileNode target) (lives id name)) by (by eapply reconcile_safe).
    eapply ends_holds with (P' := kept); [exact Hrec|exact H2|done|]. intros child1 w3 H3 Hl1.
    eapply ends_holds with (P' := kept) (phi := lives id name); [|exact H3|done|].
    { destruct (observedRunning child1); [|by apply holds_ret]. eapply holds_then; [|exact Hrec].
      by eapply Stop_safe; [exact Hown|by intros []|done|exact Hl]. }
    intros child w4 H4 Hl2. eapply ends_bind with (R := fun _ => committed yamlNode whole w1 id name).
    + eapply ends_idle; [exact H4|apply holds_durable|]. intros _ _.
      by apply (save_committed yamlMarshal yamlNode yamlStored jsonBootstrap c whole w1 id name Hown _ _ w4 Hl2 H4).
    + intros [] w5 H5. by apply triple_ret.
Qed.
End New.

(** ** Starting what was just made *)

Lemma start_registered id name n resume w : inv w -> registered id name n w ->
  ends (during (eq name) nobody w)
    (nodeStart yamlMarshal yamlNode jsonBootstrap parseBootstrap builtIns defaultValidation profileValidation
      configurationSlug (n_ID n) resume) (fun _ => during (eq name) nobody w) w.
Proof.
  intros Hi (Hm & He & (Eid & _) & _). rewrite Eid.
  assert (Hres : forall x, resolves id w = Ok x -> lives id name x).
  { intros x. unfold NodeByIDOrSlug. rewrite He. intros Hx. eapply mine_byID; [apply Hi|exact Hm|exact Hx]. }
  assert (Hmono : forall w', during (targetNames id w) nobody w w' -> during (eq name) nobody w w').
  { intros w' H. eapply during_mono; [exact H| |done]. intros nm (x & Hx & <-). symmetry. apply (Hres x Hx). }
  eapply triple_weaken; [apply start_kept|exact Hmono|intros e; exact Hmono|intros a; exact Hmono]; [exact Hi|].
  intros x Hx. apply (Hres x Hx).
Qed.

Lemma NodeCreate_spec input settings lookup id w :
  inv w -> h_nodes (w_home w) !! id = None -> blank id = false ->
  ends (during (newNames (ci_Slug input) w) (eq id) w)
    (NodeCreate yamlMarshal yamlNode jsonBootstrap parseBootstrap builtIns defaultValidation profileValidation configurationSlug
      input settings lookup id) (fun _ => during (newNames (ci_Slug input) w) (eq id) w) w.
Proof.
  intros Hi Hf Hb. set (made := during (newNames (ci_Slug input) w) (eq id) w).
  eapply ends_bind; [by apply (createNode_spec (ci_Slug input) id w Hi Hf Hb)|]. intros n w1 (H1 & Hn & Hr). cbn beta.
  destruct (ci_Start input); [|by apply triple_ret].
  assert (Hmono : forall w', during (eq (newName (ci_Slug input))) nobody w1 w' -> made w').
  { intros w' H. eapply during_trans; [exact H1|exact H|by intros nm <-|by intros i []]. }
  eapply triple_weaken; [by eapply start_registered; [apply H1|exact Hr]|exact Hmono|intros e; exact Hmono|intros a; exact Hmono].
Qed.

(** ** Cloning *)

Definition cloneNames (value slug : string) (w : world) (nm : string) : Prop :=
  targetNames value w nm \/ newNames (TrimSpace slug) w nm.

Section Clone.
Context (value slug id : string) (w : world).
Hypothesis Hinv : inv w.
Hypothesis Hlive : liveTarget value w.
Hypothesis Hfresh : h_nodes (w_home w) !! id = None.
Hypothesis Hblank : blank id = false.

Abbreviation cloning := (during (cloneNames value slug w) (eq id) w).
Abbreviation child := (newName (TrimSpace slug)).
Abbreviation cloned := (fun n w' => cloning w' /\ cloneNames value slug w child /\ registered id child n w').
Abbreviation kept := (during (targetNames value w) nobody w).

Lemma kept_cloning w1 : kept w1 -> cloning w1.
Proof. intros H. eapply during_mono; [exact H|by left|by intros i []]. Qed.

Lemma kept_newNames s w1 nm : kept w1 -> newNames s w1 nm -> newNames s w nm.
Proof.
  intros (_ & _ & _ & A & _) [Hn Hf]. split; [exact Hn|]. intros Hw i Ha. apply (Hf Hw i). apply A; [by intros []|exact Ha].
Qed.

Lemma child_cloning w1 w2 : kept w1 -> during (newNames (TrimSpace slug) w1) (eq id) w1 w2 -> cloning w2.
Proof.
  intros H1 H2. eapply during_trans; [by apply kept_cloning|exact H2| |done]. intros nm H. right. by eapply kept_newNames.
Qed.

(** Making the child while the source is untouched. *)
Lemma child_spec source b w1 : kept w1 ->
  ends cloning (cloneChild yamlMarshal yamlNode jsonBootstrap source b slug id) cloned w1.
Proof.
  intros H1. assert (Hnone : h_nodes (w_home w1) !! id = None) by (apply H1; [by intros []|exact Hfresh]).
  eapply triple_weaken; [by apply (cloneChild_spec (TrimSpace slug) id w1); [apply H1| | |]|..].
  - intros w2. by apply child_cloning.
  - intros e w2. by apply child_cloning.
  - intros n w2 (H2 & Hn & Hr). split; [by apply (child_cloning w1)|]. split; [right; by eapply kept_newNames|exact Hr].
Qed.

Lemma registered_kept names n name w1 w2 : registered id name n w1 -> during names nobody w1 w2 -> registered id name n w2.
Proof.
  intros (Hm & He & Hl) (_ & _ & M & _ & _ & E). split; [apply M; [by intros []|done]|]. split; [apply E; [by intros []|done]|done].
Qed.

(** Starting the source again. *)
Lemma again_spec n source w2 : mine (n_ID n) (n_SandboxName n) (w_home w2) -> lives (n_ID n) (n_SandboxName n) source ->
  resolves value w = Ok n -> cloning w2 ->
  ends cloning (tryRun (Start source ;; _ ← reconcileNodePersisted yamlMarshal yamlNode jsonBootstrap parseBootstrap source; mret tt))
    (fun _ w3 => cloning w3 /\ during (eq (n_SandboxName n)) nobody w2 w3) w2.
Proof.
  intros Hm Hl Hn Hc. set (again := during (eq (n_SandboxName n)) nobody w2).
  assert (Hmono : forall w3, again w3 -> cloning w3 /\ again w3).
  { intros w3 H. split; [|exact H]. eapply during_trans; [exact Hc|exact H| |by intros i []]. intros nm <-. left. by exists n. }
  eapply ends_last with (P' := again); [|by apply during_start, Hc|intros; by apply Hmono|intros r w3 H _; by apply Hmono].
  apply holds_try. eapply holds_then; [by eapply Start_safe; [exact Hm|by intros []| |exact Hl]|].
  eapply holds_bind; [by eapply reconcilePersisted_safe; [exact _|exact Hm|by intros []|exact Hl]|]. intros n' _.
  by apply (holds_ret c _ tt (fun _ => True)).
Qed.

Lemma cloneClaimed_spec n : resolves value w = Ok n -> mine (n_ID n) (n_SandboxName n) (w_home w) ->
  ends cloning (cloneClaimed yamlMarshal yamlNode jsonBootstrap parseBootstrap configurationSlug (n_ID n) slug id) cloned w.
Proof.
  intros Hn Hm. assert (H0 : kept w) by (by apply during_start). assert (Hname : targetNames value w (n_SandboxName n)) by (by exists n).
  assert (Hne : n_ID n <> id) by (destruct Hm as (d & Hd & _); intros E; rewrite E in Hd; congruence).
  unfold cloneClaimed.
  eapply ends_holds with (P' := kept); [by eapply loadRecovered_safe; [exact _|exact Hm|by intros []]|exact H0|exact kept_cloning|].
  intros [n1 b1] w1 H1 Hl1. cbn [fst snd] in *.
  eapply ends_holds with (P' := kept); [by eapply hydrate_safe|exact H1|exact kept_cloning|]. intros n2 w2 H2 Hl2.
  eapply ends_holds with (P' := kept); [by eapply reconcile_safe|exact H2|exact kept_cloning|]. intros n3 w3 H3 Hl3.
  destruct (observedRunning n3); [|by apply child_spec].
  eapply ends_holds with (P' := kept); [by eapply Stop_safe; [exact Hm|by intros []|exact Hname|exact Hl3]|exact H3|exact kept_cloning|].
  intros _ w4 H4 _.
  eapply ends_bind with (R := fun r w' => mine (n_ID n) (n_SandboxName n) (w_home w') /\
    match r with Ok child => cloned child w' | Err _ => cloning w' end).
  { assert (Hkm : forall w', cloning w' -> mine (n_ID n) (n_SandboxName n) (w_home w')).
    { intros w' (_ & _ & M & _). apply M; [by intros ->|done]. }
    assert (Hc : ends cloning (cloneChild yamlMarshal yamlNode jsonBootstrap n3 b1 slug id)
      (fun a w' => mine (n_ID n) (n_SandboxName n) (w_home w') /\ cloned a w') w4).
    { eapply triple_weaken; [by apply (child_spec n3 b1)|done..|]. intros a w' H. split; [by apply Hkm, H|exact H]. }
    eapply triple_try; [exact Hc|]. intros e w' H. split; [by apply Hkm|exact H]. }
  intros r w5 [Hm5 H5]. assert (H5' : cloning w5) by (destruct r; [apply H5|exact H5]).
  eapply ends_bind; [by apply (again_spec n n3)|]. intros r' w6 [H6 Hk6]. destruct r as [a|e], r' as [u|e']; [|by apply ends_fail..].
  apply triple_ret. split; [exact H6|]. split; [apply H5|]. eapply registered_kept; [apply H5|exact Hk6].
Qed.

Lemma NodeClone_spec start :
  ends cloning (NodeClone yamlMarshal yamlNode jsonBootstrap parseBootstrap builtIns defaultValidation profileValidation
    configurationSlug value slug id start) (fun _ => cloning) w.
Proof.
  unfold NodeClone. eapply ends_bind with (R := cloned).
  { apply (targeted value (fun i => cloneClaimed yamlMarshal yamlNode jsonBootstrap parseBootstrap configurationSlug i slug id));
      [done..|by apply during_start|]. intros n Hn Hm _. by apply cloneClaimed_spec. }
  intros n w1 (H1 & Hc & Hr). destruct start; [|by apply triple_ret]. unfold startCommittedNode.
  assert (Hmono : forall w', during (eq child) nobody w1 w' -> cloning w').
  { intros w' H. eapply during_trans; [exact H1|exact H|by intros nm <-|by intros i []]. }
  eapply ends_bind with (R := fun _ => cloning).
  - eapply triple_try with (E := fun _ => cloning); [|done].
    eapply triple_weaken; [by eapply start_registered; [apply H1|exact Hr]|exact Hmono|intros e; exact Hmono|intros a; exact Hmono].
  - intros [a|e] w2 H2; [by apply triple_ret|].
    eapply ends_idle with (phi := fun _ => True); [exact H2| |intros [] _; by apply ends_fail].
    eapply holds_weaken; [apply holds_try with (phi := fun _ => True)|done].
    unfold readNode. eapply holds_bind; [by apply (holds_reads c _ _ (fun _ => True))|]. intros r _. by apply holds_lift.
Qed.
End Clone.

(** ** What a crash left *)

Lemma incomplete_items h id nm : homeOk yamlNode h -> (id, nm) ∈ IncompleteNodeMetadata h ->
  exists d, h_nodes h !! id = Some d /\ d_node d = None /\ TrimSpace nm = nm /\
    (d_ref d = Some (line nm) /\ blank nm = false \/ d_ref d = None /\ nm = ""%string).
Proof.
  intros Hok Hin. unfold IncompleteNodeMetadata in Hin. apply list_elem_of_In, in_map_iff in Hin as ([i d] & [= <- <-] & Hin).
  apply List.filter_In in Hin as [Hin He]. apply list_elem_of_In, entries_spec in Hin as Hd. cbn [fst snd] in *. exists d. split; [done|].
  split; [revert He; unfold nodeMetadataExists, dirOf; rewrite Hd; cbn; by destruct (d_node d)|].
  destruct (d_ref d) as [data|] eqn:Er; [|by split; [|right]]. destruct (proj2 (Hok _ _ Hd) data Er) as (name & Hv & ->).
  destruct (sandboxName_trim name Hv) as [H1 H2]. change (TrimSpace (line name) = name) in H2. rewrite H2. split; [exact H1|]. left.
  split; [done|by apply sandboxName_blank].
Qed.

Lemma incomplete_nodup h : NoDup (map fst (IncompleteNodeMetadata h)).
Proof.
  unfold IncompleteNodeMetadata. rewrite List.map_map. cbn [fst].
  assert (Hn : NoDup (map fst (entries h))).
  { unfold entries. change (@map (string * nodeDir) string fst) with (@fmap list _ (string * nodeDir) string fst).
    rewrite merge_sort_Permutation. apply NoDup_fst_map_to_list. }
  induction (entries h) as [|x l IH]; cbn in *; [constructor|]. apply NoDup_cons in Hn as [Hx Hl].
  destruct (negb _); cbn; [|by apply IH]. apply NoDup_cons. split; [|by apply IH].
  intros Hin. apply Hx. apply list_elem_of_In in Hin. apply list_elem_of_In. apply in_map_iff in Hin as (y & <- & Hin).
  apply in_map. by apply List.filter_In in Hin as [Hin _].
Qed.

Section Cleanup.
Context (claimed : list string) (w : world).
Hypothesis Hinv : inv w.

Definition leftNames (nm : string) : Prop := exists id, (id, nm) ∈ IncompleteNodeMetadata (w_home w) /\ active id nm (w_home w).
Definition leftIDs (id : string) : Prop := exists nm, (id, nm) ∈ IncompleteNodeMetadata (w_home w).
Abbreviation cleaning := (during leftNames leftIDs w).

(** The directories still to come are as they were, and no instance is new. *)
Definition pending (items : list (string * string)) (w' : world) : Prop :=
  cleaning w' /\ (forall id nm, (id, nm) ∈ items -> h_nodes (w_home w') !! id = h_nodes (w_home w) !! id) /\
  (forall nm, w_vms w' !! nm <> None -> w_vms w !! nm <> None).

Lemma pending_tail item items w' : pending (item :: items) w' -> pending items w'.
Proof. intros (H1 & H2 & H3). split; [done|]. split; [|done]. intros id nm Hin. apply (H2 id nm). by right. Qed.

Lemma pending_removed id nm items w' h d :
  NoDup (map fst ((id, nm) :: items)) -> removing w' id d h -> cleaning (World h (w_vms w')) ->
  pending ((id, nm) :: items) w' -> pending items (World h (w_vms w')).
Proof.
  intros Hnd [Hr _] Hc (_ & H2 & H3). split; [exact Hc|]. split; [|exact H3]. intros i x Hin. cbn.
  rewrite Hr; [by apply (H2 i x); right|]. intros ->. apply NoDup_cons in Hnd as [Hnd _]. apply Hnd.
  apply list_elem_of_In. apply (in_map fst items (id, x)). by apply list_elem_of_In.
Qed.

Lemma cleanup_items items w' :
  (forall item, item ∈ items -> item ∈ IncompleteNodeMetadata (w_home w)) -> NoDup (map fst items) -> pending items w' ->
  ends cleaning (cleanupItems claimed (w_vms w) items) (fun _ => cleaning) w'.
Proof.
  pose proof Hinv as (Hok & _). revert w'. induction items as [|[id nm] items IH]; intros w' Hsub Hnd Hp; [apply triple_ret, Hp|].
  cbn [cleanupItems]. specialize (IH) with (1 := fun item H => Hsub item (list_elem_of_further _ _ _ H)).
  assert (Hnd' : NoDup (map fst items)) by (by apply NoDup_cons in Hnd as [_ Hnd]). specialize (fun w' => IH w' Hnd').
  assert (Hin : (id, nm) ∈ IncompleteNodeMetadata (w_home w)) by (apply Hsub; left).
  destruct (incomplete_items _ _ _ Hok Hin) as (d & Hd & Hn & Htrim & Href).
  eapply ends_idle; [apply Hp|apply holds_step|]. intros _ _.
  destruct (bool_decide _); [apply IH; by eapply pending_tail|]. cbv zeta. rewrite Htrim.
  assert (Hnt : ~ tombstone yamlNode d) by (intros (x & Hx & _); by rewrite Hn in Hx).
  assert (Hdir : forall w2, pending ((id, nm) :: items) w2 -> h_nodes (w_home w2) !! id = Some d).
  { intros w2 (_ & H2 & _). rewrite (H2 id nm) by left. exact Hd. }
  eapply ends_bind with (R := fun r w2 => pending ((id, nm) :: items) w2 /\ (r = Ok tt -> nm <> ""%string -> w_vms w2 !! nm = None)).
  { unfold findObservation. destruct (w_vms w !! nm) as [status|] eqn:Evm; cbn [fmap option_fmap option_map].
    - destruct (nm =? "")%string eqn:Eb; cbn [negb whenRun].
      { apply String.eqb_eq in Eb. apply (triple_try c cleaning (mret tt) (fun _ => pending ((id, nm) :: items))); [|by intros].
        apply triple_ret. split; [exact Hp|done]. }
      apply String.eqb_neq in Eb.
      assert (Hr : d_ref d = Some (line nm)) by (by destruct Href as [[H _]|[_ H]]).
      eapply triple_try with (E := fun _ => pending ((id, nm) :: items)); [|by intros e w2 H].
      eapply triple_weaken; [apply (Delete_gone c (pending ((id, nm) :: items)) (namedNode nm) nm w'); [done| |exact Hp]|by intros w2 [H _]|done
        |intros [] w2 [H Hgone]; split; [exact H|by intros _ _]].
      intros w2 rest Hw2. pose proof (Hdir w2 Hw2) as Hd2. destruct Hw2 as (H1 & H2 & H3). split; [|split].
      + eapply during_setVM; [|exists d; done|exact H1]. exists id. split; [exact Hin|by exists d].
      + intros i x Hix. by apply (H2 i x).
      + intros x. cbn. destruct (decide (x = nm)) as [->|Hne]; [by rewrite Evm|]. rewrite lookup_partial_alter_ne by done. apply H3.
    - apply (triple_try c cleaning (mret tt) (fun _ => pending ((id, nm) :: items))); [|by intros].
      apply triple_ret. split; [exact Hp|]. intros _ _. destruct (w_vms w' !! nm) eqn:E; [|done].
      destruct Hp as (_ & _ & Hp). exfalso. apply (Hp nm); [by rewrite E|exact Evm]. }
  intros [[]|e] w2 [H2 Hg].
  2: { eapply ends_bind with (R := fun _ => cleaning); [apply IH; by eapply pending_tail|]. intros failures w3 H3. by apply triple_ret. }
  eapply ends_bind with (R := fun _ => pending items); [|by intros _ w3; apply IH].
  eapply ends_idle; [apply H2|apply holds_durable|]. intros _ _.
  eapply ends_idle with (phi := fun _ => True); [apply H2|by apply holds_reads|]. intros [] _; cbn [negb whenRun].
  { apply triple_ret. by eapply pending_tail. }
  apply (removal_spec yamlNode c whole Hwhole leftNames leftIDs w w2 id nm d).
  - apply H2.
  - by exists nm.
  - by apply Hdir.
  - destruct Href as [[Hr Hb]|[Hr ->]]; [left|by right]. split; [exact Hr|]. split; [|exact Hb]. exists d. split; [by apply Hdir|done].
  - intros Hv. destruct (decide (nm = ""%string)) as [->|Hne]; [|by rewrite (Hg eq_refl Hne) in Hv].
    exfalso. pose proof H2 as (((Hok2 & Ho2 & _) & _) & _). destruct (Ho2 _ Hv) as (j & x & Hx & Hrx & _).
    destruct (proj2 (Hok2 _ _ Hx) _ Hrx) as (name & Hvalid & E). apply line_inj in E as <-. discriminate Hvalid.
  - intros h Hh Hc. by eapply pending_removed.
Qed.

Hypothesis Hfreshly : fresh c = true.

Lemma cleanup_spec apply_ :
  ends cleaning (NodeCleanupIncomplete claimed apply_) (fun _ => cleaning) w.
Proof.
  assert (H0 : cleaning w) by (by apply during_start). unfold NodeCleanupIncomplete.
  eapply ends_idle; [exact H0|apply holds_step|]. intros _ _.
  eapply ends_idle with (phi := fun items => items = IncompleteNodeMetadata (w_home w)); [exact H0| |].
  { eapply holds_then; [apply holds_durable|]. by apply holds_reads; intros w' ->. }
  intros items ->. destruct (_ || _); [by apply triple_ret|].
  eapply ends_bind with (R := fun vms w' => w' = w /\ vms = w_vms w).
  { apply triple_List; [done|done|]. intros vms Hv. split; [done|by apply Hv]. }
  intros vms w' [-> ->]. eapply ends_bind.
  - apply cleanup_items; [done|apply incomplete_nodup|]. by split; [|split].
  - intros failures w1 H1. cbn beta in H1. destruct (bool_decide _); [by apply triple_ret|by apply triple_fail].
Qed.
End Cleanup.

(** ** Repairing claims *)

Lemma repairClaims_spec ids w : inv w -> (forall id, id ∈ ids -> exists name, mine id name (w_home w)) ->
  holds c (during nobody nobody w) (repairClaims yamlMarshal yamlNode jsonBootstrap parseBootstrap ids) (fun _ => True).
Proof.
  intros Hi. induction ids as [|id ids IH]; intros Hids; [by apply holds_ret|]. cbn [repairClaims].
  eapply holds_then; [apply holds_step|]. destruct (Hids id) as [name Hm]; [left|].
  eapply holds_bind; [by eapply repairOne_safe; [exact _|exact Hm|by intros []]|]. intros k _.
  eapply holds_bind; [apply IH; intros i Hin; apply Hids; by right|]. intros k' _. by apply holds_ret.
Qed.

Lemma inFlight_live (n : Node) h : homeOk yamlNode h -> NodeByID yamlNode (n_ID n) h = Ok n -> nodeStatusInFlight (n_Status n) = true ->
  n_DeletedAt n = None.
Proof.
  intros Hok Hb Hs. pose proof Hb as (d & Hd & Hr)%byID_dir. destruct (proj1 (Hok _ _ Hd) n Hr) as (_ & _ & Hdel).
  destruct (n_DeletedAt n) eqn:E; [|done]. rewrite (proj1 Hdel) in Hs by done. discriminate Hs.
Qed.

Lemma repair_spec claimed w : inv w ->
  ends (during nobody nobody w) (repairStaleNodeClaims yamlMarshal yamlNode jsonBootstrap parseBootstrap claimed)
    (fun _ => during nobody nobody w) w.
Proof.
  intros Hi. assert (H0 : during nobody nobody w w) by (by apply during_start).
  eapply ends_idle with (phi := fun l => l = staleNodeClaims yamlNode claimed (w_home w)); [exact H0|by apply holds_reads; intros w' ->|].
  intros l ->. eapply ends_last; [apply repairClaims_spec; [exact Hi|]|exact H0|done|done].
  intros id Hin. apply list_elem_of_In, in_map_iff in Hin as (n & <- & Hin). apply List.filter_In in Hin as [Hin Hs].
  apply andb_prop in Hs as [Hs _]. apply list_elem_of_In in Hin. pose proof Hi as (Hok & _). pose proof (listed_byID _ _ _ Hok Hin) as Hb.
  exists (n_SandboxName n). apply (byID_mine _ n Hok Hb). by eapply inFlight_live.
Qed.

End Ops.
