(* ===== verification/NodeLifecycleSafe.v ===== *)
(** * The lifecycle of a node: instances and names

    Whatever fails and wherever a process dies, an instance of the VM runtime is
    named by a directory of the metadata home that is not the grave of a deleted
    node ([no_orphan_vm]); and as long as names are reserved and released whole,
    no two directories name the same instance and an operation leaves the
    instances of all but its targets alone ([instances_isolated]). *)

From S2P Require Import Prelude GoText Forwarding RuntimeCommands NodeRecord NodeInput NodeStore NodeStoreSafe NodeStoreLookup Bootstrap.
From S2P Require Import SandboxRuntime NodeLifecycle NodeLifecycleLogic NodeLifecycleInvariant NodeLifecycleLive NodeLifecycleMake NodeLifecycleOps.
Local Open Scope Z_scope.

(** ** Runs *)

Inductive lifecycleOp :=
| OpCreate (input : NodeCreateInput) (settings : result bool) (lookup : result recipe) (id : string)
| OpStart (value : string) (resume : bool)
| OpStop (value : string)
| OpRestart (value : string)
| OpDelete (value : string) (hydrateConfiguration : bool)
| OpClone (value slug id : string) (start : bool)
| OpCleanup (claimed : list string) (apply : bool)
| OpRepair (claimed : list string).

Section Safe.
Context (yamlMarshal : nodeFileWire -> bytes) (yamlNode : bytes -> result nodeFileWire)
        (yamlStored : bytes -> result storedFields).
Context `{!NodeYAML yamlMarshal yamlNode yamlStored}.
Context (jsonBootstrap : BootstrapState -> bytes) (parseBootstrap : bytes -> result BootstrapState).
Context (builtIns : list builtIn) (defaultValidation : string) (profileValidation : string -> option string).
Context (configurationSlug : string -> result string).

Abbreviation active := (active yamlNode).
Abbreviation during whole := (during yamlNode whole).

Definition discard {A} (m : Run A) : Run unit := _ ← m; mret tt.

Definition perform (op : lifecycleOp) : Run unit :=
  match op with
  | OpCreate input settings lookup id => discard (NodeCreate yamlMarshal yamlNode jsonBootstrap parseBootstrap builtIns defaultValidation
      profileValidation configurationSlug input settings lookup id)
  | OpStart value resume => discard (nodeStart yamlMarshal yamlNode jsonBootstrap parseBootstrap builtIns defaultValidation
      profileValidation configurationSlug value resume)
  | OpStop value => discard (NodeStop yamlMarshal yamlNode jsonBootstrap parseBootstrap configurationSlug value)
  | OpRestart value => discard (NodeRestart yamlMarshal yamlNode jsonBootstrap parseBootstrap builtIns defaultValidation
      profileValidation configurationSlug value)
  | OpDelete value hydrate => discard (deleteNode yamlMarshal yamlNode jsonBootstrap parseBootstrap configurationSlug value hydrate)
  | OpClone value slug id start => discard (NodeClone yamlMarshal yamlNode jsonBootstrap parseBootstrap builtIns defaultValidation
      profileValidation configurationSlug value slug id start)
  | OpCleanup claimed apply => discard (NodeCleanupIncomplete claimed apply)
  | OpRepair claimed => discard (repairStaleNodeClaims yamlMarshal yamlNode jsonBootstrap parseBootstrap claimed)
  end.

(** The world an operation leaves, however it ends. *)
Definition after (op : lifecycleOp) (f : fates) (w : world) : world := (perform op w f).1.1.

(** Identifiers are fresh, a target is not a node that was deleted before, and the
    cleanup lists the instances themselves: it runs where no observer does. *)
Definition allowed (op : lifecycleOp) (f : fates) (w : world) : Prop :=
  match op with
  | OpCreate _ _ _ id => h_nodes (w_home w) !! id = None /\ blank id = false
  | OpStart value _ | OpStop value | OpRestart value | OpDelete value _ => liveTarget yamlNode value w
  | OpClone value _ id _ => liveTarget yamlNode value w /\ h_nodes (w_home w) !! id = None /\ blank id = false
  | OpCleanup _ _ => f_listings f = []
  | OpRepair _ => True
  end.

(** The directories an operation is about. *)
Definition targets (op : lifecycleOp) (w : world) (id : string) : Prop :=
  match op with
  | OpStart value _ | OpStop value | OpRestart value | OpDelete value _ | OpClone value _ _ _ => targetIDs yamlNode value w id
  | OpCleanup _ _ => leftIDs w id
  | OpCreate _ _ _ _ | OpRepair _ => False
  end.

Definition opNames (whole : bool) (op : lifecycleOp) (w : world) : string -> Prop :=
  match op with
  | OpStart value _ | OpStop value | OpRestart value | OpDelete value _ => targetNames yamlNode value w
  | OpClone value slug _ _ => cloneNames yamlNode whole value slug w
  | OpCreate input _ _ _ => newNames yamlNode whole (ci_Slug input) w
  | OpCleanup _ _ => leftNames yamlNode w
  | OpRepair _ => fun _ => False
  end.

Definition opIDs (op : lifecycleOp) (w : world) : string -> Prop :=
  match op with
  | OpDelete value _ => targetIDs yamlNode value w
  | OpClone _ _ id _ | OpCreate _ _ _ id => eq id
  | OpCleanup _ _ => leftIDs w
  | _ => fun _ => False
  end.

Lemma after_ends (c : conditions) (P : world -> Prop) {A} (m : Run A) Q w f : ends c P m (fun _ => Q) w -> (forall w, Q w -> P w) -> fateOk c f ->
  P (discard m w f).1.1.
Proof.
  intros Hm HQ Hf. specialize (Hm f Hf). unfold discard, mbind, Run_bind. destruct (m w f) as [[w' f'] [a|e|]]; cbn; [|apply Hm..].
  apply HQ, Hm.
Qed.

Lemma after_during whole op f w :
  inv yamlNode whole w -> allowed op f w -> (whole = true -> f_naming f = []) ->
  during whole (opNames whole op w) (opIDs op w) w (after op f w).
Proof.
  intros Hi Ha Hu. set (c := Conditions (bool_decide (f_listings f = [])) whole).
  assert (Hw : whole = true -> untorn c = true) by done.
  assert (Hf : fateOk c f) by (split; [intros H; by apply bool_decide_eq_true in H|exact Hu]).
  unfold after. destruct op; cbn [perform opNames opIDs allowed] in *.
  - destruct Ha. eapply (after_ends c); [by eapply NodeCreate_spec|done|exact Hf].
  - eapply (after_ends c); [by eapply start_kept|done|exact Hf].
  - eapply (after_ends c); [by eapply stop_kept|done|exact Hf].
  - eapply (after_ends c); [by eapply restart_kept|done|exact Hf].
  - eapply (after_ends c); [by eapply delete_spec|done|exact Hf].
  - destruct Ha as (? & ? & ?). eapply (after_ends c); [by eapply NodeClone_spec|done|exact Hf].
  - eapply (after_ends c); [eapply cleanup_spec; [exact Hw|exact Hi|by apply bool_decide_eq_true]|done|exact Hf].
  - eapply (after_ends c); [by eapply repair_spec|done|exact Hf].
Qed.

Fixpoint run (l : list (lifecycleOp * fates)) (w : world) : world :=
  match l with [] => w | (op, f) :: l => run l (after op f w) end.

Fixpoint allowedAll (l : list (lifecycleOp * fates)) (w : world) : Prop :=
  match l with [] => True | (op, f) :: l => allowed op f w /\ allowedAll l (after op f w) end.

Definition emptyWorld : world := World emptyHome ∅.

Lemma emptyWorld_inv whole : inv yamlNode whole emptyWorld.
Proof.
  split; [by intros id d|]. split; [by intros nm|]. intros _. split; [by intros i j nm (d & Hd & _)|by intros i nm (d & Hd & _)].
Qed.

Lemma run_inv whole l w : inv yamlNode whole w -> allowedAll l w -> (whole = true -> Forall (fun x => f_naming x.2 = []) l) ->
  inv yamlNode whole (run l w).
Proof.
  revert w. induction l as [|[op f] l IH]; intros w Hi; [done|]. intros [Ha Hl] Hu. cbn [run]. apply IH; [|exact Hl|].
  - eapply during_inv, after_during; [exact Hi|exact Ha|]. intros Hw. by apply Hu in Hw as [H _]%Forall_cons.
  - intros Hw. by apply Hu in Hw as [_ H]%Forall_cons.
Qed.

Lemma targetName_id value w nm i : inv yamlNode true w -> liveTarget yamlNode value w -> targetNames yamlNode value w nm ->
  active i nm (w_home w) -> targetIDs yamlNode value w i.
Proof.
  intros (Hok & _ & Hk) Hl (n & Hn & <-) Ha. destruct (Hk eq_refl) as [N1 _]. exists n. split; [done|].
  eapply N1; [|exact Ha]. apply mine_active.
  eapply byID_mine; [exact Hok|by eapply resolves_byID|by apply Hl].
Qed.

(** An operation names only the instances of its targets and its own new one, and
    makes or ends only its targets' directories and its own new one. *)
Lemma named_target op f w nm i : inv yamlNode true w -> allowed op f w -> opNames true op w nm -> active i nm (w_home w) ->
  targets op w i.
Proof.
  intros Hi Ha Hn Hact. assert (Hnew : forall slug, ~ newNames yamlNode true slug w nm).
  { intros slug [_ H]. by apply (H eq_refl i). }
  destruct op; cbn [allowed opNames targets] in *; try done; try (by eapply targetName_id).
  - by eapply Hnew.
  - destruct Hn as [Hn|Hn]; [destruct Ha; by eapply targetName_id|by apply Hnew in Hn].
  - destruct Hn as (j & Hin & Hj). destruct Hi as (_ & _ & Hk). destruct (Hk eq_refl) as [N1 _].
    assert (i = j) as -> by (by eapply N1). by exists nm.
Qed.

Lemma ended_target op f w i nm : allowed op f w -> opIDs op w i -> active i nm (w_home w) -> targets op w i.
Proof.
  intros Ha Hx (d & Hd & _). destruct op; cbn [allowed opIDs targets] in *; try done; subst; [by destruct Ha; congruence|].
  destruct Ha as (_ & Ha & _). congruence.
Qed.

(** C4: after any sequence of operations that are allowed, each of which may fail
    or be cut off by the death of the process at any step, with limactl commands
    that leave their instance in any state, every instance is named by a node
    directory whose record, if it can be read, is that of a node which is not
    deleted and has that instance: no instance is orphaned, and the record of a
    deleted node never stands for one.  Allowed is an operation on a node that is
    not deleted when it starts, a creation or clone under a fresh identifier, and
    a cleanup that can list the instances itself.  Starting a deleted node by its
    identifier does orphan an instance ([deleted_start]). *)
Theorem no_orphan_vm l :
  allowedAll l emptyWorld ->
  let w := run l emptyWorld in
  forall name, w_vms w !! name <> None ->
  exists id d, h_nodes (w_home w) !! id = Some d /\ d_ref d = Some (line name) /\
    forall n, NodeByID (Observation := RuntimeObservation) yamlNode id (w_home w) = Ok n ->
      n_ID n = id /\ n_SandboxName n = name /\ n_DeletedAt n = None /\ n_Status n <> NodeStatusTerminated.
Proof.
  intros Hl w name Hv. destruct (run_inv false l emptyWorld (emptyWorld_inv false) Hl) as (Hok & Ho & _); [done|].
  destruct (Ho name Hv) as (id & d & Hd & Hr & Ht). exists id, d. split; [exact Hd|]. split; [exact Hr|].
  intros n (d' & Hd' & Hn)%byID_dir. assert (d' = d) as -> by (unfold w in *; congruence). destruct (proj1 (Hok _ _ Hd) n Hn) as (Hid & Href & Hdel).
  assert (Hlive : n_DeletedAt n = None) by (destruct (n_DeletedAt n) eqn:E; [exfalso; apply Ht; exists n; by rewrite E|done]).
  split; [exact Hid|]. split; [rewrite Hr in Href; injection Href as Href; by apply line_inj in Href|]. split; [exact Hlive|].
  intros Hst. by apply Hdel in Hst.
Qed.

End Safe.

(** ** Samples *)

Module LifeSample.

Definition noBootstrap : BootstrapState := Bootstrap "" [] [] "" false None [].
Definition json (_ : BootstrapState) : bytes := [].
Definition parse (_ : bytes) : result BootstrapState := Ok noBootstrap.

Abbreviation yamlMarshal := NodeRecord.Sample.yamlMarshal.
Abbreviation yamlNode := NodeRecord.Sample.yamlNode.
Abbreviation after := (after yamlMarshal yamlNode json parse [] "" (fun _ => None) (fun _ => Ok ""%string)).
Abbreviation run := (run yamlMarshal yamlNode json parse [] "" (fun _ => None) (fun _ => Ok ""%string)).
Abbreviation allowed := (allowed yamlNode).
Abbreviation allowedAll := (allowedAll yamlMarshal yamlNode json parse [] "" (fun _ => None) (fun _ => Ok ""%string)).

Definition noRecipe : recipe := Recipe "" "" "img" 2 4096 25600 [] "" "" [] "" [].
Definition create (slug id : string) (start : bool) : lifecycleOp :=
  OpCreate (CreateInput slug (Ok "/w"%string) "" "" "" None None start) (Ok false) (Ok noRecipe) id.

Definition naming (fs : list fault) : fates := Fates [] fs [] [] [] [] [] [].
Definition storing (fs : list fault) : fates := Fates fs [] [] [] [] [] [] [].
Definition commands (l : list commandFate) : fates := Fates [] [] [] l [] [] [] [].

(** The decision of [allowed]. *)
Definition liveb (value : string) (w : world) : bool :=
  match NodeByIDOrSlug (Observation := RuntimeObservation) yamlNode value (w_home w) with
  | Ok n => bool_decide (n_DeletedAt n = None) | Err _ => true end.
Definition freshb (id : string) (w : world) : bool := bool_decide (h_nodes (w_home w) !! id = None) && negb (blank id).
Definition allowedb (op : lifecycleOp) (f : fates) (w : world) : bool :=
  match op with
  | OpCreate _ _ _ id => freshb id w
  | OpStart value _ | OpStop value | OpRestart value | OpDelete value _ => liveb value w
  | OpClone value _ id _ => liveb value w && freshb id w
  | OpCleanup _ _ => bool_decide (f_listings f = [])
  | OpRepair _ => true
  end.
Fixpoint allowedAllb (l : list (lifecycleOp * fates)) (w : world) : bool :=
  match l with [] => true | (op, f) :: l => allowedb op f w && allowedAllb l (after op f w) end.

Lemma liveb_spec value w : liveb value w = true -> liveTarget yamlNode value w.
Proof. unfold liveb, liveTarget. intros H n Hn. rewrite Hn in H. by apply bool_decide_eq_true in H. Qed.
Lemma freshb_spec id w : freshb id w = true -> h_nodes (w_home w) !! id = None /\ blank id = false.
Proof. unfold freshb. intros [H1 H2]%andb_prop. split; [by apply bool_decide_eq_true in H1|by apply negb_true_iff]. Qed.
Lemma allowedb_spec op f w : allowedb op f w = true -> allowed op f w.
Proof.
  destruct op; cbn; try apply liveb_spec; try apply freshb_spec; try done.
  - intros [H1 H2]%andb_prop. split; [by apply liveb_spec|by apply freshb_spec].
  - apply bool_decide_eq_true.
Qed.
Lemma allowedAllb_spec l w : allowedAllb l w = true -> allowedAll l w.
Proof.
  revert w. induction l as [|[op f] l IH]; intros w; [done|]. intros [H1 H2]%andb_prop. split; [by apply allowedb_spec|by apply IH].
Qed.

(** A creation that the process dies in after its command, the cleanup of it, a
    node that is started, a clone of it while the deletion of the child fails,
    and the deletion of the source. *)
Definition sample : list (lifecycleOp * fates) :=
  [(create "web" "a1" false, commands [Killed (Some ObservationStopped)]); (OpCleanup [] true, calm);
   (create "web" "b1" true, calm); (OpClone "web" "copy" "c1" false, calm);
   (OpDelete "copy" true, commands [Ran false (Some "broken"%string)]); (OpRepair [], calm)].

Lemma sample_allowed : allowedAll sample (emptyWorld).
Proof. apply allowedAllb_spec. vm_compute. reflexivity. Qed.

Lemma sample_vms :
  w_vms (run sample emptyWorld) = {["web"%string := ObservationRunning; "copy"%string := "broken"%string]} /\
  w_vms (run (take 1 sample) emptyWorld) = {["web"%string := ObservationStopped]} /\
  w_vms (run (take 2 sample) emptyWorld) = ∅.
Proof. vm_compute. repeat split. Qed.

Lemma sample_web : w_vms (run sample emptyWorld) !! "web"%string <> None.
Proof. rewrite (proj1 sample_vms). done. Qed.

Lemma sample_untorn : Forall (fun x : lifecycleOp * fates => f_naming x.2 = []) (take 4 sample).
Proof. repeat constructor. Qed.

Definition activeb (id name : string) (w : world) : bool :=
  match h_nodes (w_home w) !! id with
  | Some d => bool_decide (d_ref d = Some (line name)) &&
      match readNodeRecord (Observation := RuntimeObservation) yamlNode (d_node d) with
      | Ok n => bool_decide (n_DeletedAt n = None) | Err _ => true end
  | None => false
  end.
Lemma activeb_spec id name w : activeb id name w = true -> active yamlNode id name (w_home w).
Proof.
  unfold activeb, active. destruct (h_nodes (w_home w) !! id) as [d|]; [|done]. intros [H1 H2]%andb_prop. exists d.
  split; [done|]. split; [by apply bool_decide_eq_true in H1|]. intros (n & Hn & Hd). rewrite Hn in H2. by apply bool_decide_eq_true in H2.
Qed.

(** Deleting the copy is not about the node it was copied from. *)
Lemma copy_target : ~ targets yamlNode (OpDelete "copy" true) (run (take 4 sample) emptyWorld) "b1".
Proof.
  cbn [targets]. intros (n & Hn & Hid).
  assert (H : (match NodeByIDOrSlug (Observation := RuntimeObservation) yamlNode "copy" (w_home (run (take 4 sample) emptyWorld)) with
               | Ok n => n_ID n | Err _ => "" end)%string = "c1"%string) by (vm_compute; reflexivity).
  rewrite Hn, Hid in H. discriminate H.
Qed.

Lemma prefix_allowed : allowedAll (take 4 sample) emptyWorld /\
  allowed (OpDelete "copy" true) calm (run (take 4 sample) emptyWorld) /\
  active yamlNode "b1" "web" (w_home (run (take 4 sample) emptyWorld)).
Proof.
  split; [|split]; [apply allowedAllb_spec|apply allowedb_spec|apply activeb_spec]; vm_compute; reflexivity.
Qed.

(** Deleting a node that was deleted before, by its identifier, ends the instance
    of the live node that has taken its name since. *)
Definition reused : list (lifecycleOp * fates) :=
  [(create "web" "a1" false, calm); (OpDelete "web" true, calm); (create "web" "b1" false, calm)].

Lemma reused_name :
  let w := run reused emptyWorld in let w' := after (OpDelete "a1" true) calm w in
  activeb "b1" "web" w = true /\ w_vms w !! "web"%string = Some ObservationStopped /\
  activeb "b1" "web" w' = true /\ w_vms w' !! "web"%string = None.
Proof. vm_compute. repeat split. Qed.

(** Starting a node that was deleted before, by its identifier, leaves a running
    instance whose one directory is that of the deleted node. *)
Lemma deleted_start :
  let w := run [(create "web" "a1" false, calm); (OpDelete "web" true, calm)] emptyWorld in
  let w' := after (OpStart "a1" false) calm w in
  w_vms w !! "web"%string = None /\ w_vms w' !! "web"%string = Some ObservationRunning /\
  map_to_list (w_vms w') = [("web"%string, ObservationRunning)] /\
  map fst (map_to_list (h_nodes (w_home w'))) = ["a1"%string] /\
  activeb "a1" "web" w' = false.
Proof. vm_compute. repeat split. Qed.

(** A creation that dies between the reference and the index lets the next one take
    the same name, and the cleanup then deletes the instance of that node. *)
Definition torn : list (lifecycleOp * fates) :=
  [(create "web" "a1" false, naming [Works; Works; Dies false]); (create "web" "b1" false, calm)].

Lemma torn_name :
  let w := run torn emptyWorld in let w' := after (OpCleanup [] true) calm w in
  allowedAllb torn emptyWorld = true /\
  activeb "a1" "web" w = true /\ activeb "b1" "web" w = true /\ w_vms w !! "web"%string = Some ObservationStopped /\
  activeb "b1" "web" w' = true /\ w_vms w' !! "web"%string = None.
Proof. vm_compute. repeat split. Qed.

End LifeSample.

Lemma no_orphan_vm_witness :
  exists id d, h_nodes (w_home (LifeSample.run LifeSample.sample emptyWorld)) !! id = Some d /\ d_ref d = Some (line "web") /\
    forall n, NodeByID (Observation := RuntimeObservation) LifeSample.yamlNode id (w_home (LifeSample.run LifeSample.sample emptyWorld)) = Ok n ->
      n_ID n = id /\ n_SandboxName n = "web"%string /\ n_DeletedAt n = None /\ n_Status n <> NodeStatusTerminated.
Proof.
  exact (no_orphan_vm LifeSample.yamlMarshal LifeSample.yamlNode NodeRecord.Sample.yamlStored LifeSample.json LifeSample.parse
    [] "" (fun _ => None) (fun _ => Ok ""%string) LifeSample.sample LifeSample.sample_allowed "web" LifeSample.sample_web).
Defined.

