(* ===== verification/NodeLifecycleOutcome.v ===== *)
(** * The lifecycle of a node: what a start and a stop achieve

    When the home works, whatever limactl, the guest and the clocks do: a start
    that reports success leaves a running instance and a completed record, and one
    that fails leaves a record that no longer claims to be in flight
    ([start_outcome]); a stop that reports success leaves no running instance
    ([stop_outcome]).  The samples show where a record keeps an in-flight state
    although the operation is over. *)

From S2P Require Import Prelude SampleCodec GoText Forwarding RuntimeCommands NodeRecord NodeInput NodeStore NodeStoreSafe Bootstrap.
From S2P Require Import SandboxRuntime NodeLifecycle NodeLifecycleLogic NodeLifecycleInvariant NodeLifecycleSafe.
Local Open Scope Z_scope.

(** A record says where its node is, or the node is complete. *)
Definition stated (n : Node) : Prop :=
  n_BootstrapCompleted n = true \/ normalizeNodeLifecycleState (n_Status n) <> ""%string.

(** A state and its normal form. *)
Lemma normal_flight data yamlNode (n : Node) : readNodeRecord yamlNode data = Ok n ->
  nodeStatusInFlight (n_Status n) = false -> nodeStatusInFlight (normalizeNodeLifecycleState (n_Status n)) = false.
Proof.
  assert (Hl : forall s, let t := legacyNodeStatus s in normalizeNodeLifecycleState t = t \/ normalizeNodeLifecycleState t = ""%string).
  { intros s t. unfold t, legacyNodeStatus. cbv zeta. destruct (oneOf _ _) eqn:E; [|by right].
    apply existsb_exists in E as (x & Hx & E). apply String.eqb_eq in E as ->. apply list_elem_of_In in Hx.
    repeat (apply elem_of_cons in Hx as [->|Hx]; [vm_compute; by auto|]). by apply not_elem_of_nil in Hx. }
  unfold readNodeRecord. destruct data as [data|]; [|done]. destruct (yamlNode data) as [wire|]; [|done].
  destruct (blank _); [done|]. intros [= <-]. unfold wireNode. cbv zeta. cbn [n_Status].
  set (l := if (_ =? "")%string then normalizeNodeLifecycleState _ else normalizeNodeLifecycleState _).
  assert (Hn : normalizeNodeLifecycleState l = l) by (unfold l; destruct (_ =? "")%string; apply normalize_idem).
  specialize (Hl (w_Status wire)). cbv zeta in Hl. clearbody l. destruct (l =? "")%string; [|by rewrite Hn].
  revert Hl. generalize (legacyNodeStatus (w_Status wire)). intros t [E|E]; rewrite E; [exact (fun H => H)|intros _; vm_compute; reflexivity].
Qed.

Lemma failed_rests : nodeStatusInFlight (normalizeNodeLifecycleState NodeStatusFailed) = false.
Proof. vm_compute. reflexivity. Qed.
Lemma failed_named : normalizeNodeLifecycleState NodeStatusFailed <> ""%string.
Proof. vm_compute. discriminate. Qed.

Section Outcome.
Context (yamlMarshal : nodeFileWire -> bytes) (yamlNode : bytes -> result nodeFileWire)
        (yamlStored : bytes -> result storedFields).
Context `{!NodeYAML yamlMarshal yamlNode yamlStored}.
Context (jsonBootstrap : BootstrapState -> bytes) (parseBootstrap : bytes -> result BootstrapState).
Hypothesis jsonRoundtrip : forall b, parseBootstrap (jsonBootstrap b) = Ok b.
Context (builtIns : list builtIn) (defaultValidation : string) (profileValidation : string -> option string).
Context (configurationSlug : string -> result string).
Context (id name : string).
Hypothesis Hblank : blank id = false.

Abbreviation byID := (NodeByID (Observation := RuntimeObservation) yamlNode id).
Abbreviation loaded := (LoadBootstrapState parseBootstrap id).
Abbreviation SaveNode := (NodeLifecycle.SaveNode yamlMarshal yamlNode jsonBootstrap).

(** The record is not in flight. *)
Definition rests (w : world) : Prop := exists n, byID (w_home w) = Ok n /\ nodeStatusInFlight (n_Status n) = false.

(** However it ends short of the process dying: a failure leaves the node at rest. *)
Definition ok {A} (m : Run A) (Q : A -> world -> Prop) (w : world) : Prop :=
  triple solid (fun _ => True) m (fun _ => rests) Q w.

Lemma ok_bind {A B} (m : Run A) (k : A -> Run B) (R : A -> world -> Prop) Q w :
  ok m R w -> (forall a w', R a w' -> ok (k a) Q w') -> ok (m ≫= k) Q w.
Proof. intros Hm Hk. by eapply triple_bind. Qed.

Lemma ok_weaken {A} (m : Run A) (R Q : A -> world -> Prop) w : ok m R w -> (forall a w', R a w' -> Q a w') -> ok m Q w.
Proof. intros Hm HQ. by eapply triple_weaken. Qed.

Lemma ok_ret {A} (a : A) (Q : A -> world -> Prop) w : Q a w -> ok (mret a) Q w.
Proof. intros H. by apply triple_ret. Qed.

Lemma ok_fail {A} e (Q : A -> world -> Prop) w : rests w -> ok (fail e) Q w.
Proof. intros H. by apply triple_fail. Qed.

Lemma ok_now {A} (k : time -> Run A) Q w : (forall t, ok (k t) Q w) -> ok (t ← now; k t) Q w.
Proof. intros Hk. eapply ok_bind; [by apply (triple_now solid _ _ (fun _ w' => w' = w))|]. intros t w' ->. apply Hk. Qed.

Lemma ok_locks {A} (m : Run A) Q w : ok m Q w -> ok (withLocks m) Q w.
Proof. intros Hm. eapply ok_bind; [by apply (solid_durable _ _ (fun _ w' => w' = w))|]. by intros [] w' ->. Qed.

Lemma ok_ignore m w : ok m (fun _ => rests) w -> ok (ignore m) (fun _ => rests) w.
Proof.
  intros Hm. eapply ok_bind with (R := fun _ => rests); [|intros r w' H; by apply ok_ret].
  by eapply triple_try with (E := fun _ => rests); [exact Hm|].
Qed.

(** What the disk holds after a save. *)
Lemma save_done (n : Node) (b : BootstrapState) h : exists h', NodeStore.SaveNode yamlMarshal yamlNode jsonBootstrap n b h [] = (h', [], Done tt).
Proof.
  unfold NodeStore.SaveNode, maintainNodeSlugIndex, mbind, M_bind, gets, effect, when, attempt.
  destruct (NodeByID _ _ _) as [p|e]; destruct (negb (bool_decide _)), (deletedOrTerminated n); try (by eexists);
    destruct (negb (n_SandboxName p =? n_SandboxName n)%string), (negb (n_Slug p =? n_Slug n)%string); by eexists.
Qed.

Lemma ok_save n b (Q : unit -> world -> Prop) w : n_ID n = id ->
  (forall h, byID h = Ok (saved n) -> loaded h = Ok b -> Q tt (World h (w_vms w))) -> ok (SaveNode n b) Q w.
Proof.
  intros Hi HQ. destruct (save_done n b (w_home w)) as [h Hh]. eapply solid_store; [exact Hh|].
  pose proof (save_safely yamlMarshal yamlNode jsonBootstrap n b (w_home w) []) as Hs. rewrite Hh in Hs.
  destruct Hs as [_ (_ & H2 & H3 & _)]. rewrite Hi in H2, H3. apply HQ.
  - unfold NodeByID. rewrite H2. apply (read_written yamlMarshal yamlNode yamlStored). by rewrite Hi.
  - unfold LoadBootstrapState. by rewrite H3, jsonRoundtrip.
Qed.

Lemma ok_read (n : Node) (Q : Node -> world -> Prop) w : byID (w_home w) = Ok n -> Q n w -> ok (readNode yamlNode id) Q w.
Proof.
  intros Hb HQ. unfold readNode. eapply ok_bind; [by apply (triple_reads solid _ _ _ (fun r w' => w' = w /\ r = byID (w_home w)))|].
  intros r w' [-> ->]. rewrite Hb. by apply ok_ret.
Qed.

Lemma ok_bootstrap b (Q : BootstrapState -> world -> Prop) w : loaded (w_home w) = Ok b -> Q b w -> ok (readBootstrap parseBootstrap id) Q w.
Proof.
  intros Hb HQ. unfold readBootstrap. eapply ok_bind; [by apply (triple_reads solid _ _ _ (fun r w' => w' = w /\ r = loaded (w_home w)))|].
  intros r w' [-> ->]. rewrite Hb. by apply ok_ret.
Qed.

(** A save that leaves the node at rest. *)
Lemma rests_saved n h vms : byID h = Ok (saved n) -> nodeStatusInFlight (nodeLifecycleState n) = false -> rests (World h vms).
Proof. intros H1 H2. by exists (saved n). Qed.

Lemma lifecycle_status status (n : Node) : normalizeNodeLifecycleState status <> ""%string ->
  nodeLifecycleState (setStatus status n) = normalizeNodeLifecycleState status.
Proof. intros H. unfold nodeLifecycleState. cbv zeta. cbn [setStatus n_Status]. apply String.eqb_neq in H. by rewrite H. Qed.

Lemma lifecycle_complete status (n : Node) : normalizeNodeLifecycleState status = ""%string -> n_BootstrapCompleted n = true ->
  nodeLifecycleState (setStatus status n) = ""%string.
Proof.
  intros H Hc. unfold nodeLifecycleState. cbv zeta. cbn [setStatus n_Status]. rewrite H.
  change (n_BootstrapCompleted (setStatus status n)) with (n_BootstrapCompleted n). by rewrite Hc.
Qed.

Lemma lifecycle_updated t (n : Node) : nodeLifecycleState (setUpdated t n) = nodeLifecycleState n.
Proof. reflexivity. Qed.

(** ** Failing *)

Lemma failStart_ok {A} n b e (Q : A -> world -> Prop) w : n_ID n = id ->
  ok (failStart yamlMarshal yamlNode jsonBootstrap n b e) Q w.
Proof.
  intros Hi. apply ok_now. intros t. eapply ok_bind with (R := fun _ => rests); [|intros [] w' H; by apply ok_fail].
  apply ok_ignore, ok_locks. eapply ok_bind with (R := fun _ => rests).
  - apply ok_ignore, ok_save; [exact Hi|]. intros h H1 _. eapply rests_saved; [exact H1|].
    rewrite lifecycle_updated, lifecycle_status by apply failed_named. apply failed_rests.
  - intros [] w' H. apply ok_ignore. by apply solid_durable.
Qed.

Lemma advance_rests n b (Q : unit -> world -> Prop) w : n_ID n = id -> Q tt w ->
  ok (advanceOperationPhase yamlMarshal yamlNode jsonBootstrap n b) Q w.
Proof.
  intros Hi HQ. eapply ok_bind with (R := fun _ w' => w' = w).
  - eapply triple_try with (E := fun _ w' => w' = w); [by apply triple_step|by intros e w' ->].
  - intros [[]|e] w' ->; [by apply ok_ret|by apply failStart_ok].
Qed.

Lemma orFail_ok n b m w : n_ID n = id -> triple solid (fun _ => True) m (fun _ w' => w' = w) (fun _ w' => w' = w) w ->
  ok (orFail yamlMarshal yamlNode jsonBootstrap n b m) (fun _ w' => w' = w) w.
Proof.
  intros Hi Hm. eapply ok_bind with (R := fun _ w' => w' = w).
  - by eapply triple_try with (E := fun _ w' => w' = w); [exact Hm|intros e w' ->].
  - intros [[]|e] w' ->; [by apply ok_ret|by apply failStart_ok].
Qed.

(** ** A claimed node *)

Section Claimed.
Context (previous : NodeStatus).
Hypothesis Hprevious : nodeStatusInFlight (normalizeNodeLifecycleState previous) = false.

(** What a node is while its start goes on. *)
Definition working (n : Node) (b : BootstrapState) : Prop :=
  n_ID n = id /\ n_SandboxName n = name /\ n_Status n = NodeStatusProvisioning /\
  (bo_Completed b = true -> n_BootstrapCompleted n = true) /\
  (normalizeNodeLifecycleState previous <> ""%string \/ n_BootstrapCompleted n = true).

Definition claimed (w : world) : Prop :=
  exists n b, working n b /\ byID (w_home w) = Ok (saved n) /\ loaded (w_home w) = Ok b.

Lemma working_fields g n b : nf_ID (g (n_fields n)) = n_ID n -> nf_SandboxName (g (n_fields n)) = n_SandboxName n ->
  nf_BootstrapCompleted (g (n_fields n)) = n_BootstrapCompleted n -> working n b -> working (onFields g n) b.
Proof.
  intros E1 E2 E3 (H1 & H2 & H3 & H4 & H5). unfold working, n_ID, n_SandboxName, n_BootstrapCompleted in *. cbn.
  rewrite E1, E2, E3. by repeat split.
Qed.

Lemma save_claimed n b w : working n b -> ok (SaveNode n b) (fun _ w' => claimed w' /\ w_vms w' = w_vms w) w.
Proof. intros Hw. apply ok_save; [apply Hw|]. intros h H1 H2. split; [|done]. by exists n, b. Qed.

Lemma restore_ok w : claimed w ->
  ok (restoreNodeStatus yamlMarshal yamlNode jsonBootstrap parseBootstrap id previous) (fun _ => rests) w.
Proof.
  intros (n & b & (H1 & _ & H3 & _ & H5) & Hb & Hl). apply ok_ignore, ok_locks.
  eapply ok_bind; [by eapply (ok_read _ (fun n' w' => n' = saved n /\ w' = w))|].
  intros n' w' [-> ->].
  assert (Hs : n_Status (saved n) = NodeStatusProvisioning).
  { cbn. unfold nodeLifecycleState. by rewrite H3. }
  rewrite Hs. cbn [negb nodeStatusInFlight oneOf existsb].
  change (negb (nodeStatusInFlight NodeStatusProvisioning)) with false. cbv iota.
  eapply ok_bind; [by eapply (ok_bootstrap _ (fun b' w' => b' = b /\ w' = w))|]. intros b' w' [-> ->]. apply ok_now. intros t.
  apply ok_save; [exact H1|]. intros h Hh _. eapply rests_saved; [exact Hh|]. rewrite lifecycle_updated.
  destruct (String.string_dec (normalizeNodeLifecycleState previous) "") as [E|E]; [|by rewrite lifecycle_status].
  rewrite lifecycle_complete; [by vm_compute|exact E|]. destruct H5 as [H5|H5]; [done|exact H5].
Qed.

(** Work that does not touch the home, undone when it fails. *)
Lemma orRestore_ok {A} (m : Run A) (Q : A -> world -> Prop) w : claimed w ->
  triple solid (fun _ => True) m (fun _ w' => w_home w' = w_home w) (fun a w' => w_home w' = w_home w /\ Q a w') w ->
  ok (orRestore yamlMarshal yamlNode jsonBootstrap parseBootstrap id previous m) (fun a w' => claimed w' /\ Q a w') w.
Proof.
  intros Hc Hm. assert (Hk : forall w', w_home w' = w_home w -> claimed w') by (unfold claimed; by intros w' ->).
  eapply ok_bind with (R := fun r w' => claimed w' /\ match r with Ok a => Q a w' | Err _ => True end).
  - eapply triple_try; [eapply triple_weaken; [exact Hm|done|intros e w' H; exact H|]|].
    + intros a w' [H HQ]. split; [by apply Hk|exact HQ].
    + intros e w' H. split; [by apply Hk|done].
  - intros [a|e] w' [H HQ]; [by apply ok_ret|]. eapply ok_bind; [by apply restore_ok|]. intros [] w2 H2. by apply ok_fail.
Qed.

(** Idle work keeps the world. *)
Definition still {A} (m : Run A) (phi : A -> Prop) (w : world) : Prop :=
  triple solid (fun _ => True) m (fun _ w' => w' = w) (fun a w' => w' = w /\ phi a) w.

Lemma still_bind {A B} (m : Run A) (k : A -> Run B) phi psi w :
  still m phi w -> (forall a, phi a -> still (k a) psi w) -> still (m ≫= k) psi w.
Proof. intros Hm Hk. eapply triple_bind; [exact Hm|]. intros a w' [-> Ha]. by apply Hk. Qed.

Lemma still_restored {A} (m : Run A) (phi : A -> Prop) w : claimed w -> still m phi w ->
  ok (orRestore yamlMarshal yamlNode jsonBootstrap parseBootstrap id previous m) (fun a w' => w' = w /\ phi a) w.
Proof.
  intros Hc Hm. eapply ok_weaken; [eapply (orRestore_ok m (fun a w' => w' = w /\ phi a)); [exact Hc|]|by intros a w' [_ H]].
  eapply triple_weaken; [exact Hm|done|by intros e w' ->|]. by intros a w' [-> H].
Qed.

Lemma uncached_still n w : still (reconcileNodeUncached n) (fun n' => exists t, n' = reconcileNodeWithObservations n (w_vms w) t) w.
Proof.
  eapply still_bind with (phi := fun vms => vms = w_vms w); [by apply triple_listDirect|]. intros vms ->.
  eapply still_bind with (phi := fun _ => True); [by apply triple_now|]. intros t _. apply triple_ret. split; [done|by exists t].
Qed.

Lemma reconciled_working n b vms t : working n b -> working (reconcileNodeWithObservations n vms t) b.
Proof.
  intros (H1 & H2 & H3 & H4 & H5). unfold reconcileNodeWithObservations.
  destruct (findObservation _ _) as [o|]; [|by repeat split].
  cbv zeta. rewrite H3. change (nodeStatusAcceptsRuntimeSighting NodeStatusProvisioning) with false.
  rewrite !andb_false_r. by repeat split.
Qed.

Lemma observed_running (n : Node) vms t : observedRunning (reconcileNodeWithObservations n vms t) = true ->
  vms !! n_SandboxName n = Some ObservationRunning.
Proof.
  unfold observedRunning, observedStatus, reconcileNodeWithObservations, findObservation.
  destruct (vms !! n_SandboxName n) as [s|]; cbn; intros H; apply bool_decide_eq_true in H; [congruence|done].
Qed.

Lemma ports_still n w : still (ensureNodeHostPortsAvailable yamlNode n) (fun _ => True) w.
Proof.
  eapply still_bind with (phi := fun _ => True); [by apply triple_lift|]. intros [|p ports] _; [by apply triple_ret|].
  eapply still_bind with (phi := fun _ => True); [by apply solid_List|]. intros vms _.
  eapply still_bind with (phi := fun _ => True); [by apply triple_reads|]. intros nodes _. by apply triple_lift.
Qed.

Lemma prepare_still n w : still (PrepareApplicationForwarding n) (fun _ => True) w.
Proof.
  eapply still_bind with (phi := fun _ => True); [|intros _ _; by apply triple_step].
  unfold checkSandboxName. destruct (validateSandboxName _); [by apply triple_ret|by apply triple_fail].
Qed.

(** A verified instance is as expected. *)
Lemma verify_still nm expected w : still (verifyObservation nm expected) (fun _ => w_vms w !! nm = Some expected) w.
Proof.
  eapply still_bind with (phi := fun vms => vms = w_vms w); [by apply triple_listDirect|]. intros vms ->.
  unfold findObservation. destruct (w_vms w !! nm) as [s|] eqn:E; cbn; [|by apply triple_fail].
  destruct (s =? expected)%string eqn:Es; [|by apply triple_fail]. apply String.eqb_eq in Es as ->. by apply triple_ret.
Qed.

(** A command and its verification. *)
Definition operates (m : Run unit) (expected : ObservationStatus) : Prop := forall w,
  triple solid (fun _ => True) m (fun _ w' => w_home w' = w_home w)
    (fun _ w' => w_home w' = w_home w /\ w_vms w' !! name = Some expected) w.

Lemma verified (expected : ObservationStatus) :
  operates (step ;; command name (Some expected) ;; verifyObservation name expected) expected.
Proof.
  intros w. eapply triple_bind; [by apply (triple_step solid _ _ (fun _ w' => w' = w))|]. intros [] w' ->.
  eapply triple_bind; [by apply (triple_command solid _ _ (fun _ w' => w_home w' = w_home w))|]. intros [] w1 H1.
  eapply triple_weaken; [apply verify_still|done|by intros e w' ->|]. intros [] w' [-> Hv]. done.
Qed.

Lemma Start_operates n : n_SandboxName n = name -> operates (Start n) ObservationRunning.
Proof. intros E. unfold Start. rewrite E. apply verified. Qed.
Lemma Stop_operates n : n_SandboxName n = name -> operates (Stop n) ObservationStopped.
Proof. intros E. unfold Stop. rewrite E. apply verified. Qed.

(** The instance runs from here on. *)
Definition up (n : Node) (b : BootstrapState) (w : world) : Prop :=
  working n b /\ claimed w /\ w_vms w !! name = Some ObservationRunning.

Lemma bootVM_ok n b w : working n b -> claimed w -> (observedRunning n = true -> w_vms w !! name = Some ObservationRunning) ->
  ok (bootVM yamlMarshal yamlNode jsonBootstrap parseBootstrap n b previous) (fun n' => up n' b) w.
Proof.
  intros Hw Hc Hobs. pose proof Hw as (Hi & Hn & _). unfold bootVM. cbv zeta.
  change (n_ID (setForwarding n)) with (n_ID n). rewrite Hi. destruct (observedRunning n).
  { eapply ok_bind; [by apply (advance_rests n b (fun _ w' => w' = w))|]. intros [] w' ->. apply ok_ret. by split; [|split; [|apply Hobs]]. }
  eapply ok_bind; [apply still_restored; [exact Hc|apply ports_still]|]. intros [] w1 [-> _].
  eapply ok_bind; [apply still_restored; [exact Hc|apply prepare_still]|]. intros [] w1 [-> _].
  assert (Hw' : working (setForwarding n) b) by (by apply working_fields).
  eapply ok_bind; [apply ok_locks; by apply save_claimed|]. intros [] w1 [Hc1 _].
  eapply ok_bind; [apply orRestore_ok; [exact Hc1|by apply Start_operates]|].
  intros [] w2 [Hc2 Hv]. by apply ok_ret.
Qed.

Lemma save_up n b w : working n b -> w_vms w !! name = Some ObservationRunning -> ok (SaveNode n b) (fun _ => up n b) w.
Proof. intros Hw Hv. eapply ok_weaken; [by apply save_claimed|]. intros [] w' [H1 H2]. split; [exact Hw|]. split; [exact H1|by rewrite H2]. Qed.

Lemma step_eq w : triple solid (fun _ => True) step (fun _ w' => w' = w) (fun _ w' => w' = w) w.
Proof. by apply triple_step. Qed.

Lemma importAuth_ok n b w : up n b w -> ok (importAuth yamlMarshal yamlNode jsonBootstrap n b) (fun n' => up n' b) w.
Proof.
  intros Hup. pose proof Hup as (Hw & Hc & Hv). assert (Hi : n_ID n = id) by apply Hw.
  eapply ok_bind; [by apply (advance_rests n b (fun _ w' => w' = w))|]. intros [] w' ->.
  destruct (nf_AuthImportCompleted _); [by apply ok_ret|].
  eapply ok_bind with (R := fun _ w' => w' = w).
  { destruct (nf_ImportHostAuth _); [apply orFail_ok; [exact Hi|apply step_eq]|by apply ok_ret]. }
  intros [] w' ->. apply ok_now. intros t. cbv zeta.
  eapply ok_bind; [apply ok_locks, save_up; [by repeat apply working_fields|exact Hv]|]. intros [] w1 H1. by apply ok_ret.
Qed.

Lemma seed_ok n b w : up n b w -> ok (seedWorkspace yamlMarshal yamlNode jsonBootstrap n b) (fun n' => up n' b) w.
Proof.
  intros Hup. pose proof Hup as (Hw & Hc & Hv). assert (Hi : n_ID n = id) by apply Hw.
  eapply ok_bind; [by apply (advance_rests n b (fun _ w' => w' = w))|]. intros [] w' ->.
  destruct (_ || _); [by apply ok_ret|].
  eapply ok_bind with (R := fun _ w' => w' = w); [apply orFail_ok; [exact Hi|apply step_eq]|].
  intros [] w' ->. apply ok_now. intros t. cbv zeta.
  eapply ok_bind; [apply ok_locks, save_up; [by repeat apply working_fields|exact Hv]|]. intros [] w1 H1. by apply ok_ret.
Qed.

(** ** The guest's work *)

Lemma up_steps n b b' w : bo_Completed b' = bo_Completed b -> up n b w -> up n b' w.
Proof. intros E ((H1 & H2 & H3 & H4 & H5) & H). split; [|exact H]. repeat split; [done..|by rewrite E|done]. Qed.

Lemma guest_ok w : ok runGuestCommand (fun _ w' => w' = w) w.
Proof.
  intros f Hf. unfold runGuestCommand. destruct (head (f_guest f)) as [[|e code canceled|]|]; try done;
    (split; [by apply (stable_same solid f)|done]).
Qed.

Lemma saveEvent_up n b w : working n b -> w_vms w !! name = Some ObservationRunning ->
  ok (tryRun (withLocks (SaveNode n b ;; AppendNodeEvent))) (fun _ => up n b) w.
Proof.
  intros Hw Hv. eapply (triple_try solid _ _ (fun _ => up n b)); [|intros e w' H; exact H]. 
  eapply triple_bind; [by apply (solid_durable _ _ (fun _ w' => w' = w))|]. intros [] w' ->.
  eapply triple_bind with (P := fun _ => up n b).
  - intros f Hf. pose proof (save_up n b w Hw Hv f Hf) as H. revert H. unfold NodeLifecycle.SaveNode, store. cbn in Hf. rewrite Hf.
    destruct (save_done n b (w_home w)) as [h ->]. done.
  - intros [] w' H. by apply solid_durable.
Qed.

Lemma recordedStep_ok n b index s w : up n b w ->
  ok (recordedStep yamlMarshal yamlNode jsonBootstrap n b index s) (fun r => up n r.1) w.
Proof.
  intros Hup. eapply ok_bind with (R := fun _ w' => w' = w).
  { eapply triple_try with (E := fun _ w' => w' = w); [by apply triple_step|done]. }
  intros [[]|e] w' ->; [|by apply ok_ret]. apply ok_now. intros started.
  eapply ok_bind; [by apply (triple_newID solid _ _ (fun _ w' => w' = w))|]. intros attempt w' ->. cbv zeta.
  assert (Hs : forall i x w', up n b w' -> up n (setStep i x b) w') by (intros i x w'; by apply up_steps).
  set (b1 := setStep index _ b). assert (H1 : up n b1 w) by by apply Hs.
  eapply ok_bind; [apply saveEvent_up; apply H1|]. intros [[]|e] w1 Hw1; [|by apply ok_ret].
  eapply ok_bind; [apply guest_ok|]. intros err w' ->. apply ok_now. intros finished. set (b2 := setStep index _ b1).
  assert (H2 : up n b2 w1) by (by apply (up_steps n b1)). eapply ok_bind; [apply saveEvent_up; apply H2|].
  intros r w2 Hw2. by apply ok_ret.
Qed.

Lemma runKind_ok kind n indices b w : up n b w ->
  ok (runKind yamlMarshal yamlNode jsonBootstrap kind n indices b) (up n) w.
Proof.
  intros Hup. assert (Hi : n_ID n = id) by apply Hup. revert b w Hup.
  induction indices as [|i indices IH]; intros b w Hup; [by apply ok_ret|]. cbn [runKind].
  destruct (bo_Steps b !! i) as [s|]; [|by apply IH]. destruct (negb _); [by apply IH|].
  eapply ok_bind with (R := fun _ w' => w' = w); [destruct (_ =? _)%string; [by apply advance_rests|by apply ok_ret]|].
  intros [] w' ->. eapply ok_bind; [by apply recordedStep_ok|]. intros [b1 [e|]] w1 H1; [by apply failStart_ok|by apply IH].
Qed.

Lemma bootstrapGuest_ok n b first w : up n b w ->
  ok (bootstrapGuest yamlMarshal yamlNode jsonBootstrap n b first) (up n) w.
Proof.
  intros Hup. assert (Hi : n_ID n = id) by apply Hup. unfold bootstrapGuest. cbv zeta. set (b0 := resetSteps first b).
  assert (H0 : up n b0 w) by (by apply (up_steps n b)).
  eapply ok_bind; [by apply (advance_rests n b0 (fun _ w' => w' = w))|]. intros [] w' ->.
  eapply ok_bind with (R := up n); [destruct (negb _); [by apply runKind_ok|by apply ok_ret]|]. intros b1 w1 H1.
  eapply ok_bind; [by apply (advance_rests n b1 (fun _ w' => w' = w1))|]. intros [] w' ->.
  eapply ok_bind; [by apply runKind_ok|]. intros b2 w2 H2.
  eapply ok_bind; [by apply (advance_rests n b2 (fun _ w' => w' = w2))|]. intros [] w' ->. by apply ok_ret.
Qed.
End Claimed.

(** ** Finishing *)

(** A node in memory that is complete and at rest, and its record. *)
Definition complete_ (n : Node) : Prop :=
  n_ID n = id /\ n_SandboxName n = name /\ n_BootstrapCompleted n = true /\ normalizeNodeLifecycleState (n_Status n) = ""%string.

Definition finished (w : world) : Prop :=
  (exists n b, byID (w_home w) = Ok n /\ loaded (w_home w) = Ok b /\ n_Status n = ""%string /\
     n_BootstrapCompleted n = true /\ bo_Completed b = true) /\
  w_vms w !! name = Some ObservationRunning.

Lemma finished_rests w : finished w -> rests w.
Proof. intros ((n & b & Hn & _ & Hs & _) & _). exists n. split; [exact Hn|]. by rewrite Hs. Qed.

Lemma save_finished n b w : complete_ n -> bo_Completed b = true -> w_vms w !! name = Some ObservationRunning ->
  ok (SaveNode n b) (fun _ => finished) w.
Proof.
  intros (H1 & H2 & H3 & H4) Hb Hv. apply ok_save; [exact H1|]. intros h Hn Hl. split; [|exact Hv]. exists (saved n), b.
  split; [exact Hn|]. split; [exact Hl|]. split; [|by split]. cbn. unfold nodeLifecycleState. cbv zeta. by rewrite H4, H3.
Qed.

Lemma running_normal : normalizeNodeLifecycleState NodeStatusRunning = ""%string.
Proof. vm_compute. reflexivity. Qed.
Lemma stopped_normal : normalizeNodeLifecycleState NodeStatusStopped = ""%string.
Proof. vm_compute. reflexivity. Qed.

Lemma finish_rests previous n b w : up previous n b w ->
  ok (finishStart yamlMarshal yamlNode jsonBootstrap n b) (fun n' w' => complete_ n' /\ finished w') w.
Proof.
  intros ((H1 & H2 & _ & H4 & _) & _ & Hv). unfold finishStart, complete.
  eapply ok_bind with (R := fun nb w' => w' = w /\ n_ID nb.1 = id /\ n_SandboxName nb.1 = name /\
    n_BootstrapCompleted nb.1 = true /\ bo_Completed nb.2 = true).
  { destruct (bo_Completed b) eqn:Eb; [apply ok_ret; by split; [|auto]|]. apply ok_now. intros t. by apply ok_ret. }
  intros [n1 b1] w' (-> & E1 & E2 & E3 & E4). cbn [fst snd] in *. apply ok_now. intros t. cbv zeta.
  set (n2 := setUpdated t (setStatus NodeStatusRunning n1)).
  assert (Hc : complete_ n2) by (split; [exact E1|]; split; [exact E2|]; split; [exact E3|apply running_normal]).
  eapply ok_bind with (R := fun _ => finished).
  - apply ok_locks. eapply ok_bind; [by apply save_finished|]. intros [] w1 Hf. by apply solid_durable.
  - intros [] w1 Hf. by apply ok_ret.
Qed.

Lemma reconcilePersisted_ok n w : complete_ n -> finished w ->
  ok (reconcileNodePersisted yamlMarshal yamlNode jsonBootstrap parseBootstrap n) (fun n' w' => complete_ n' /\ finished w') w.
Proof.
  intros (H1 & H2 & H3 & H4) Hf. pose proof Hf as ((nd & bd & _ & Hl & _ & _ & Hb) & Hv). unfold reconcileNodePersisted.
  eapply ok_bind with (R := fun _ w' => w' = w).
  { apply solid_List; [done|intros e; by apply finished_rests|done]. }
  intros vms w' ->. apply ok_locks, ok_now. intros t. cbv zeta.
  set (n1 := reconcileNodeWithObservations n vms t).
  assert (Hid : n_ID n1 = id) by (unfold n1, reconcileNodeWithObservations; by destruct (findObservation _ _)).
  assert (Hc : complete_ (setUpdated t n1)).
  { split; [exact Hid|]. unfold n1, reconcileNodeWithObservations. destruct (findObservation _ _) as [o|]; [|by repeat split].
    split; [exact H2|]. split; [exact H3|]. cbv zeta. cbn [setObserved setUpdated onFields n_Status].
    destruct (_ && _); [apply running_normal|]. destruct (_ && _); [apply stopped_normal|exact H4]. }
  rewrite Hid. eapply ok_bind; [by eapply (ok_bootstrap _ (fun b' w' => b' = bd /\ w' = w))|]. intros b' w' [-> ->].
  eapply ok_bind; [by apply save_finished|]. intros [] w1 Hf1. by apply ok_ret.
Qed.

Lemma hydrate_ok n (Q : world -> Prop) w : rests w -> Q w ->
  ok (hydrateConfigurationSlug configurationSlug n) (fun _ => Q) w.
Proof.
  intros Hr HQ. unfold hydrateConfigurationSlug. cbv zeta. destruct (_ =? _)%string; [by apply ok_ret|].
  eapply ok_bind; [by apply (triple_lift solid _ _ _ (fun _ w' => w' = w))|]. intros s w' ->. by apply ok_ret.
Qed.

(** ** Claiming *)

Lemma recover_ok n b w : byID (w_home w) = Ok n -> loaded (w_home w) = Ok b -> n_ID n = id -> stated n ->
  ok (recoverStaleNodeClaim yamlMarshal yamlNode jsonBootstrap n b)
    (fun n' w' => rests w' /\ loaded (w_home w') = Ok b /\ w_vms w' = w_vms w /\ n_fields (setUpdated 0 n') = n_fields (setUpdated 0 n) /\
       nodeStatusInFlight (normalizeNodeLifecycleState (n_Status n')) = false /\ stated n') w.
Proof.
  intros Hn Hb Hi Hs. unfold recoverStaleNodeClaim. destruct (nodeStatusInFlight (n_Status n)) eqn:Ef; cbn [negb].
  - apply ok_now. intros t. cbv zeta. set (n1 := setUpdated t (setStatus NodeStatusFailed n)).
    eapply ok_bind with (R := fun _ w' => rests w' /\ loaded (w_home w') = Ok b /\ w_vms w' = w_vms w).
    + apply ok_save; [exact Hi|]. intros h H1 H2. split; [|done]. eapply rests_saved; [exact H1|].
      unfold n1. rewrite lifecycle_updated, lifecycle_status by apply failed_named. apply failed_rests.
    + intros [] w1 (H1 & H2 & H3). eapply ok_bind; [by apply (solid_durable _ _ (fun _ w' => w' = w1))|]. intros [] w' ->.
      apply ok_ret. split; [exact H1|]. split; [exact H2|]. split; [exact H3|]. split; [done|]. split; [apply failed_rests|].
      right. apply failed_named.
  - apply ok_ret. split; [by exists n|]. split; [exact Hb|]. split; [done|]. split; [done|]. split; [|exact Hs].
    unfold NodeByID in Hn. by eapply normal_flight.
Qed.

Lemma prepared_completed resume b : bo_Completed (prepareSteps resume b).1 = bo_Completed b.
Proof.
  assert (Hc : bo_Completed (interruptRunningSteps (ensureSteps b)) = bo_Completed b).
  { unfold ensureSteps. cbv zeta. by case_match. }
  unfold prepareSteps. cbv zeta. destruct (negb resume); [exact Hc|].
  destruct (firstResumable _) as [k|]; [|exact Hc]. destruct (_ && _); [exact Hc|]. by destruct (existsb _ _).
Qed.

Lemma startMetadata_ok n b resume w :
  byID (w_home w) = Ok n -> loaded (w_home w) = Ok b -> n_ID n = id -> n_SandboxName n = name -> stated n ->
  (bo_Completed b = true -> n_BootstrapCompleted n = true) ->
  migrateKnownBuiltInNodeBootstrap builtIns defaultValidation profileValidation n b = None ->
  ok (startMetadata yamlMarshal yamlNode jsonBootstrap parseBootstrap builtIns defaultValidation profileValidation id resume)
    (fun m w' => nodeStatusInFlight (normalizeNodeLifecycleState m.1.2) = false /\ working m.1.2 m.1.1.1 m.1.1.2 /\ claimed m.1.2 w') w.
Proof.
  intros Hn Hb Hi Hnm Hs Hc Hmig. unfold startMetadata. apply ok_locks.
  eapply ok_bind with (R := fun nb w' => nb = (n, b) /\ w' = w).
  { eapply ok_bind; [by eapply (ok_read _ (fun n' w' => n' = n /\ w' = w))|]. intros n' w' [-> ->]. rewrite Hi.
    eapply ok_bind; [by eapply (ok_bootstrap _ (fun b' w' => b' = b /\ w' = w))|]. intros b' w' [-> ->]. by apply ok_ret. }
  intros nb w' [-> ->]. cbn [fst snd]. rewrite Hmig.
  eapply ok_bind; [by apply (ok_ret (n, b) (fun nb w' => nb = (n, b) /\ w' = w))|]. intros nb w' [-> ->]. cbn [fst snd].
  eapply ok_bind; [by apply recover_ok|]. intros n2 w2 (Hr & Hl2 & Hv2 & Hf & Hp & Hs2).
  destruct (resume && _); [by apply ok_fail|]. cbv zeta.
  assert (Hfield : forall A (g : nodeFields -> A), (forall f, g (n_fields (setUpdated 0 (MkNode f "" "" "" None (None : option RuntimeObservation)))) = g f) ->
    g (n_fields n2) = g (n_fields n)).
  { intros A g Hg. rewrite <- (Hg (n_fields n2)), <- (Hg (n_fields n)). exact (f_equal g Hf). }
  assert (E1 : n_ID n2 = id) by (rewrite <- Hi; by apply (Hfield _ nf_ID)).
  assert (E2 : n_SandboxName n2 = name) by (rewrite <- Hnm; by apply (Hfield _ nf_SandboxName)).
  assert (E3 : n_BootstrapCompleted n2 = n_BootstrapCompleted n) by (by apply (Hfield _ nf_BootstrapCompleted)).
  eapply ok_bind; [apply (triple_lift solid _ _ _ (fun _ w' => w' = w2)); [done|by intros]|]. intros first w' ->.
  apply ok_now. intros t. set (b1 := (prepareSteps resume b).1). set (n3 := setUpdated t _).
  assert (Hwork : working (n_Status n2) n3 b1).
  { split; [exact E1|]. split; [exact E2|]. split; [done|]. change (n_BootstrapCompleted n3) with (n_BootstrapCompleted n2).
    split; [unfold b1; rewrite prepared_completed, E3; exact Hc|]. destruct Hs2 as [H|H]; [by right|by left]. }
  eapply ok_bind with (R := fun _ => claimed (n_Status n2)); [eapply ok_weaken; [by apply save_claimed|by intros [] w' [H _]]|].
  intros [] w3 H3. eapply ok_bind; [by apply (solid_durable _ _ (fun _ w' => w' = w3))|]. intros [] w' ->.
  by apply ok_ret.
Qed.

Lemma start_rests n b resume w :
  byID (w_home w) = Ok n -> loaded (w_home w) = Ok b -> n_ID n = id -> n_SandboxName n = name -> stated n ->
  (bo_Completed b = true -> n_BootstrapCompleted n = true) ->
  migrateKnownBuiltInNodeBootstrap builtIns defaultValidation profileValidation n b = None ->
  ok (nodeStartClaimed yamlMarshal yamlNode jsonBootstrap parseBootstrap builtIns defaultValidation profileValidation
    configurationSlug id resume) (fun _ => finished) w.
Proof.
  intros Hn Hb Hi Hnm Hs Hc Hmig. unfold nodeStartClaimed.
  eapply ok_bind; [by eapply startMetadata_ok|]. intros [[[n1 b1] previous] first] w1 (Hp & Hw & Hcl). cbn [fst snd] in *.
  assert (Hi1 : n_ID n1 = id) by apply Hw.
  eapply ok_bind; [by apply (advance_rests n1 b1 (fun _ w' => w' = w1))|]. intros [] w' ->.
  eapply ok_bind; [eapply still_restored; [exact Hp|exact Hcl|apply uncached_still]|]. intros n2 w' [-> [t ->]].
  eapply ok_bind; [apply bootVM_ok; [exact Hp|by apply reconciled_working|exact Hcl|]|].
  { intros Ho. apply observed_running in Ho. by rewrite (proj1 (proj2 Hw)) in Ho. }
  intros n3 w3 H3. eapply ok_bind; [by apply (importAuth_ok previous)|]. intros n4 w4 H4.
  eapply ok_bind; [by apply (seed_ok previous)|]. intros n5 w5 H5. eapply ok_bind; [by apply (bootstrapGuest_ok previous)|]. intros b6 w6 H6.
  eapply ok_bind; [by apply (finish_rests previous)|]. intros n7 w7 [H7 Hf7].
  eapply ok_bind; [by apply reconcilePersisted_ok|]. intros n8 w8 [H8 Hf8]. apply hydrate_ok; [by apply finished_rests|exact Hf8].
Qed.

(** ** Stopping *)

(** The state behind the status is not in flight, or does not show. *)
Definition resting (n : Node) : Prop :=
  n_BootstrapCompleted n = true \/ nodeStatusInFlight (normalizeNodeLifecycleState (n_LifecycleState n)) = false.

Lemma resting_stopped (n : Node) : resting n -> nodeStatusInFlight (nodeLifecycleState (setStatus NodeStatusStopped n)) = false.
Proof.
  intros H. unfold nodeLifecycleState. cbv zeta. cbn [setStatus n_Status n_LifecycleState]. rewrite stopped_normal. cbn [negb String.eqb].
  change (n_BootstrapCompleted (setStatus NodeStatusStopped n)) with (n_BootstrapCompleted n).
  destruct (n_BootstrapCompleted n) eqn:E; cbn [negb]; [reflexivity|]. destruct H as [H|H]; [congruence|exact H].
Qed.

Definition down (w : world) : Prop := rests w /\ w_vms w !! name <> Some ObservationRunning.

Definition idleNode (n : Node) : Prop := n_ID n = id /\ n_SandboxName n = name /\ resting n.

Lemma reconciled_idle n vms t : idleNode n -> idleNode (reconcileNodeWithObservations n vms t).
Proof. intros H. unfold reconcileNodeWithObservations. by destruct (findObservation _ _). Qed.

Lemma save_down n b t w : idleNode n -> w_vms w !! name <> Some ObservationRunning ->
  ok (SaveNode (setUpdated t (setStatus NodeStatusStopped n)) b) (fun _ => down) w.
Proof.
  intros (H1 & _ & H3) Hv. apply ok_save; [exact H1|]. intros h Hh _. split; [|exact Hv].
  eapply rests_saved; [exact Hh|]. rewrite lifecycle_updated. by apply resting_stopped.
Qed.

(** Reconciling under a node at rest. *)
Lemma uncached_rests n w : rests w ->
  ok (reconcileNodeUncached n) (fun n' w' => w' = w /\ exists t, n' = reconcileNodeWithObservations n (w_vms w) t) w.
Proof. intros Hr. eapply triple_weaken; [apply (uncached_still n w)|done|by intros e w' ->|done]. Qed.

Lemma observed_stopped (n : Node) vms t o : n_SandboxName n = name ->
  n_LastRuntimeObservation (reconcileNodeWithObservations n vms t) = Some o ->
  negb (ro_Exists o) || (ro_Status o =? ObservationStopped)%string = true -> vms !! name <> Some ObservationRunning.
Proof.
  intros <-. unfold reconcileNodeWithObservations, findObservation. destruct (vms !! n_SandboxName n) as [s|]; cbn; [|done].
  intros [= <-]. cbn. intros H%String.eqb_eq. rewrite H. discriminate.
Qed.

Lemma stop_ok n b w :
  byID (w_home w) = Ok n -> loaded (w_home w) = Ok b -> n_ID n = id -> n_SandboxName n = name -> stated n ->
  nodeStatusInFlight (n_Status n) = false ->
  ok (nodeStopClaimed yamlMarshal yamlNode jsonBootstrap parseBootstrap configurationSlug id) (fun _ => down) w.
Proof.
  intros Hn Hb Hi Hnm Hs Hf. unfold nodeStopClaimed, loadRecovered.
  assert (Hrest : rests w) by (by exists n).
  assert (Hidle : idleNode n).
  { split; [exact Hi|]. split; [exact Hnm|]. right. unfold NodeByID in Hn. destruct (record_states yamlNode _ _ Hn) as [-> _].
    rewrite normalize_idem. by eapply normal_flight. }
  eapply ok_bind with (R := fun nb w' => nb = (n, b) /\ w' = w).
  { apply ok_locks. eapply ok_bind with (R := fun nb w' => nb = (n, b) /\ w' = w).
    - eapply ok_bind; [by eapply (ok_read _ (fun n' w' => n' = n /\ w' = w))|]. intros n' w' [-> ->]. rewrite Hi.
      eapply ok_bind; [by eapply (ok_bootstrap _ (fun b' w' => b' = b /\ w' = w))|]. intros b' w' [-> ->]. by apply ok_ret.
    - intros nb w' [-> ->]. cbn [fst snd]. unfold recoverStaleNodeClaim. rewrite Hf. cbn [negb].
      eapply ok_bind; [by apply (ok_ret n (fun n' w' => n' = n /\ w' = w))|]. intros n' w' [-> ->]. by apply ok_ret. }
  intros nb w' [-> ->]. cbn [fst snd]. eapply ok_bind; [by apply uncached_rests|]. intros n1 w' [-> [t1 ->]].
  set (n1 := reconcileNodeWithObservations n (w_vms w) t1). assert (H1 : idleNode n1) by (by apply reconciled_idle).
  destruct (n_LastRuntimeObservation n1) as [o|] eqn:Eo; [|by apply ok_fail].
  destruct (_ || _) eqn:Estop.
  { apply ok_now. intros t. cbv zeta. eapply ok_bind; [apply ok_locks, save_down; [exact H1|by eapply observed_stopped]|].
    intros [] w1 Hd. apply hydrate_ok; [apply Hd|exact Hd]. }
  eapply ok_bind with (R := fun _ w' => rests w' /\ w_vms w' !! name = Some ObservationStopped).
  { assert (Hk : forall w', w_home w' = w_home w -> rests w') by (unfold rests; by intros w' ->).
    eapply triple_weaken; [apply Stop_operates, H1|done|intros e; exact Hk|]. intros [] w' [Hh Hv]. split; [by apply Hk|exact Hv]. }
  intros [] w1 [Hr1 Hv1]. eapply ok_bind; [by apply uncached_rests|]. intros n2 w' [-> [t2 ->]].
  destruct (match _ with Some o => _ | None => _ end); [by apply ok_fail|]. apply ok_now. intros t. cbv zeta.
  eapply ok_bind with (R := fun _ => down).
  - apply ok_locks. eapply ok_bind; [apply save_down; [by apply reconciled_idle|rewrite Hv1; discriminate]|]. intros [] w2 Hd. by apply solid_durable.
  - intros [] w2 Hd. apply hydrate_ok; [apply Hd|exact Hd].
Qed.
End Outcome.

Section Theorems.
Context (yamlMarshal : nodeFileWire -> bytes) (yamlNode : bytes -> result nodeFileWire)
        (yamlStored : bytes -> result storedFields).
Context `{!NodeYAML yamlMarshal yamlNode yamlStored}.
Context (jsonBootstrap : BootstrapState -> bytes) (parseBootstrap : bytes -> result BootstrapState).
Context (builtIns : list builtIn) (defaultValidation : string) (profileValidation : string -> option string).
Context (configurationSlug : string -> result string).

(** C16: a start of a node whose record and bootstrap state agree (the status is
    stated, and a completed bootstrap is marked complete in the record) and whose
    bootstrap has no built-in commands to migrate, with a home that works and
    whatever limactl, the guest, the listings and the other steps do: when it
    reports success, the instance is running and record and bootstrap state are
    complete; when it reports an error, the record is not in flight any more, so
    that the next operation finds a node at rest.  Where record and bootstrap
    disagree neither holds ([refused_keeps_claim], [start_keeps_claim]). *)
Theorem start_outcome id n b resume w f :
  (forall x, parseBootstrap (jsonBootstrap x) = Ok x) -> f_store f = [] ->
  NodeByID yamlNode id (w_home w) = Ok n -> n_ID n = id -> LoadBootstrapState parseBootstrap id (w_home w) = Ok b ->
  stated n -> (bo_Completed b = true -> n_BootstrapCompleted n = true) ->
  migrateKnownBuiltInNodeBootstrap builtIns defaultValidation profileValidation n b = None ->
  let '(w', _, o) := nodeStartClaimed yamlMarshal yamlNode jsonBootstrap parseBootstrap builtIns defaultValidation profileValidation
    configurationSlug id resume w f in
  let record := NodeByID (Observation := RuntimeObservation) yamlNode id (w_home w') in
  match o with
  | Done _ => w_vms w' !! n_SandboxName n = Some ObservationRunning /\
      exists n' b', record = Ok n' /\ LoadBootstrapState parseBootstrap id (w_home w') = Ok b' /\
        n_Status n' = ""%string /\ n_BootstrapCompleted n' = true /\ bo_Completed b' = true
  | NodeStore.Failed _ => exists n', record = Ok n' /\ nodeStatusInFlight (n_Status n') = false
  | Died => True
  end.
Proof.
  intros Hjson Hf Hn Hi Hb Hs Hc Hm.
  assert (Hbl : blank id = false) by (rewrite <- Hi; unfold NodeByID in Hn; by eapply record_nonblank).
  pose proof (start_rests yamlMarshal yamlNode yamlStored jsonBootstrap parseBootstrap Hjson builtIns defaultValidation profileValidation
    configurationSlug id (n_SandboxName n) Hbl n b resume w Hn Hb Hi eq_refl Hs Hc Hm f Hf) as H.
  destruct (nodeStartClaimed _ _ _ _ _ _ _ _ id resume w f) as [[w' f'] [a|e|]]; [|apply H|done].
  destruct H as (_ & Hrec & Hv). split; [exact Hv|exact Hrec].
Qed.

(** A stop of a node at rest, with a home that works: when it reports success,
    the instance is not running, and however it ends the record is not in
    flight. *)
Theorem stop_outcome id n b w f :
  (forall x, parseBootstrap (jsonBootstrap x) = Ok x) -> f_store f = [] ->
  NodeByID yamlNode id (w_home w) = Ok n -> n_ID n = id -> LoadBootstrapState parseBootstrap id (w_home w) = Ok b ->
  stated n -> nodeStatusInFlight (n_Status n) = false ->
  let '(w', _, o) := nodeStopClaimed yamlMarshal yamlNode jsonBootstrap parseBootstrap configurationSlug id w f in
  (forall a, o = Done a -> w_vms w' !! n_SandboxName n <> Some ObservationRunning) /\
  (o <> Died -> exists n', NodeByID (Observation := RuntimeObservation) yamlNode id (w_home w') = Ok n' /\
     nodeStatusInFlight (n_Status n') = false).
Proof.
  intros Hjson Hf Hn Hi Hb Hs Hr.
  assert (Hbl : blank id = false) by (rewrite <- Hi; unfold NodeByID in Hn; by eapply record_nonblank).
  pose proof (stop_ok yamlMarshal yamlNode yamlStored jsonBootstrap parseBootstrap Hjson
    configurationSlug id (n_SandboxName n) Hbl n b w Hn Hb Hi eq_refl Hs Hr f Hf) as H.
  destruct (nodeStopClaimed _ _ _ _ _ id w f) as [[w' f'] [a|e|]].
  - destruct H as (_ & Hrest & Hv). split; [by intros _ _|by intros _].
  - destruct H as (_ & Hrest). split; [done|by intros _].
  - split; [done|]. by intros H'.
Qed.
End Theorems.

(** ** Samples *)

Module OutcomeSample.

Definition stepFlat : Type := (list string * list Z * list (option Z))%type.
Definition flatBootstrap : Type := (list (list string) * bool * option Z * list stepFlat)%type.

Definition stateCode (s : BootstrapStepState) : Z :=
  match s with Pending => 0 | Running => 1 | Succeeded => 2 | Bootstrap.Failed => 3 | Canceled => 4 | Interrupted => 5 | Unrecorded => 6 end.
Definition stateOf (z : Z) : BootstrapStepState :=
  if z =? 0 then Pending else if z =? 1 then Running else if z =? 2 then Succeeded else if z =? 3 then Bootstrap.Failed
  else if z =? 4 then Canceled else if z =? 5 then Interrupted else Unrecorded.

Definition flattenStep (s : BootstrapStep) : stepFlat :=
  ([st_Kind s; st_SourceKind s; st_SourceID s; st_SourceName s; st_Command s; st_AttemptID s; st_ExecutionNodeID s; st_Error s],
   [stateCode (st_State s); st_Attempts s], [st_StartedAt s; st_FinishedAt s; st_DurationMillis s; st_ExitCode s]).
Definition unflattenStep (x : stepFlat) : BootstrapStep :=
  match x with
  | ([kind; sk; si; sn; command; attempt; exec; err], [state; attempts], [started; finished; duration; code]) =>
      Step kind sk si sn command (stateOf state) attempts attempt exec started finished duration code err
  | _ => Step "" "" "" "" "" Pending 0 "" "" None None None None ""
  end.

Definition flatten (b : BootstrapState) : flatBootstrap :=
  ([[bo_AgentProfileName b]; bo_InstallCommands b; bo_BootstrapCommands b; [bo_ValidationCommand b]], bo_Completed b, bo_CompletedAt b,
   map flattenStep (bo_Steps b)).
Definition unflatten (x : flatBootstrap) : BootstrapState :=
  match x with
  | ([[profile]; install; commands; [validation]], completed, at_, steps) =>
      Bootstrap profile install commands validation completed at_ (map unflattenStep steps)
  | (_, completed, at_, steps) => Bootstrap "" [] [] "" completed at_ (map unflattenStep steps)
  end.

Lemma bootstrap_unflatten b : unflatten (flatten b) = b.
Proof.
  destruct b as [p i c v d t steps].
  assert (Hs : map unflattenStep (map flattenStep steps) = steps).
  { induction steps as [|s steps IH]; [done|]. cbn [map]. rewrite IH. f_equal. by destruct s as [? ? ? ? ? [] ? ? ? ? ? ? ? ?]. }
  unfold flatten, unflatten. cbn [bo_AgentProfileName bo_InstallCommands bo_BootstrapCommands bo_ValidationCommand bo_Completed bo_CompletedAt bo_Steps].
  by rewrite Hs.
Qed.

Definition json : BootstrapState -> bytes := put flatten.
Definition parse (data : bytes) : result BootstrapState :=
  match get unflatten data with Some b => Ok b | None => Err (ENew "syntax") end.

Lemma roundtrip b : parse (json b) = Ok b.
Proof. unfold parse, json. by rewrite (get_put flatten unflatten bootstrap_unflatten). Qed.

Abbreviation yamlMarshal := NodeRecord.Sample.yamlMarshal.
Abbreviation yamlNode := NodeRecord.Sample.yamlNode.
Abbreviation after := (after yamlMarshal yamlNode json parse [] "" (fun _ => None) (fun _ => Ok ""%string)).
Abbreviation perform := (perform yamlMarshal yamlNode json parse [] "" (fun _ => None) (fun _ => Ok ""%string)).

Definition noRecipe : recipe := Recipe "" "" "img" 2 4096 25600 [] "" "" [] "check" [].
Definition create : lifecycleOp :=
  OpCreate (CreateInput "web" (Ok "/w"%string) "" "" "" None None false) (Ok false) (Ok noRecipe) "a1".

Definition home0 : world := after create calm emptyWorld.

Definition statusOf (w : world) : string :=
  match NodeByID (Observation := RuntimeObservation) yamlNode "a1" (w_home w) with Ok n => n_Status n | Err e => errorText e end.
Definition completedOf (w : world) : bool * bool :=
  (match NodeByID (Observation := RuntimeObservation) yamlNode "a1" (w_home w) with Ok n => n_BootstrapCompleted n | Err e => false end,
   match LoadBootstrapState parse "a1" (w_home w) with Ok b => bo_Completed b | Err e => false end).
Definition reported (o : outcome unit) : bool := match o with Done _ => true | _ => false end.

Definition dying (k : nat) : fates := Fates (replicate k Works ++ [Dies false]) [] [] [] [] [] [] [].

(** A start that reports success leaves the record in flight, when an earlier start
    died after it had written the completed bootstrap state and before the record:
    nothing sets the record's completion any more. *)
Lemma start_keeps_claim :
  let w := after (OpStart "a1" false) (dying 48) home0 in
  let '(w', _, o) := perform (OpStart "a1" false) w calm in
  completedOf w = (false, true) /\ reported o = true /\ statusOf w' = NodeStatusProvisioning /\
  completedOf w' = (false, true) /\ w_vms w' !! "web"%string = Some ObservationRunning.
Proof. vm_compute. repeat split. Qed.

(** A stop that reports success leaves the record in flight, when an earlier first
    start died: the recovery of the claim is undone by the state that was read. *)
Lemma stop_keeps_claim :
  let w := after (OpStart "a1" false) (dying 12) home0 in
  let '(w', _, o) := perform (OpStop "a1") w calm in
  statusOf w = NodeStatusProvisioning /\ reported o = true /\ statusOf w' = NodeStatusProvisioning.
Proof. vm_compute. repeat split. Qed.

(** A start that is refused before it boots leaves the record in flight, when it
    migrated the commands of a completed node. *)
Definition oldRecipe : recipe :=
  Recipe "" "" "img" 2 4096 25600 [] "" "" [] "check"
    [Step "bootstrap" "environment" "" "" "old" Pending 0 "" "" None None None None ""].
Definition stoppedNode : world :=
  after (OpStop "a1") calm
    (after (OpCreate (CreateInput "web" (Ok "/w"%string) "" "" "" None None true) (Ok false) (Ok oldRecipe) "a1") calm emptyWorld).
Definition refused : fates := Fates [] [] [Works; Works; Works; Fails false] [] [] [] [] [].

Lemma refused_keeps_claim :
  let '(w', _, o) := NodeLifecycleSafe.perform yamlMarshal yamlNode json parse [BuiltIn [["old"%string]] ["new"%string]] "" (fun _ => None)
    (fun _ => Ok ""%string) (OpStart "a1" false) stoppedNode refused in
  completedOf stoppedNode = (true, true) /\ statusOf stoppedNode = ""%string /\ reported o = false /\
  statusOf w' = NodeStatusProvisioning.
Proof. vm_compute. repeat split. Qed.

Definition readyb : bool :=
  match NodeByID (Observation := RuntimeObservation) yamlNode "a1" (w_home home0), LoadBootstrapState parse "a1" (w_home home0) with
  | Ok n, Ok b => (n_ID n =? "a1")%string && (n_SandboxName n =? "web")%string && (n_Status n =? NodeStatusCreated)%string && negb (bo_Completed b)
  | _, _ => false
  end.

Lemma home0_ready : exists n b,
  NodeByID (Observation := RuntimeObservation) yamlNode "a1" (w_home home0) = Ok n /\
  LoadBootstrapState parse "a1" (w_home home0) = Ok b /\
  n_ID n = "a1"%string /\ n_SandboxName n = "web"%string /\ n_Status n = NodeStatusCreated /\ bo_Completed b = false.
Proof.
  assert (H : readyb = true) by (vm_compute; reflexivity). revert H. unfold readyb.
  destruct (NodeByID yamlNode "a1" (w_home home0)) as [n|e]; [|done].
  destruct (LoadBootstrapState parse "a1" (w_home home0)) as [b|e]; [|done].
  intros [[[H1 H2]%andb_prop H3]%andb_prop H4]%andb_prop. exists n, b.
  apply String.eqb_eq in H1, H2, H3. apply negb_true_iff in H4. by repeat split.
Qed.

Lemma created_stated (n : Node) : n_Status n = NodeStatusCreated -> stated n.
Proof. intros E. right. rewrite E. vm_compute. discriminate. Qed.

Lemma no_migration (n : Node) b : migrateKnownBuiltInNodeBootstrap [] "" (fun _ => None) n b = None.
Proof. unfold migrateKnownBuiltInNodeBootstrap. cbn. by destruct (_ =? _)%string. Qed.

End OutcomeSample.

Lemma start_outcome_witness : exists n b,
  NodeByID (Observation := RuntimeObservation) OutcomeSample.yamlNode "a1" (w_home OutcomeSample.home0) = Ok n /\
  LoadBootstrapState OutcomeSample.parse "a1" (w_home OutcomeSample.home0) = Ok b /\
  let '(w', _, o) := nodeStartClaimed OutcomeSample.yamlMarshal OutcomeSample.yamlNode OutcomeSample.json OutcomeSample.parse [] ""
    (fun _ => None) (fun _ => Ok ""%string) "a1" false OutcomeSample.home0 calm in
  let record := NodeByID (Observation := RuntimeObservation) OutcomeSample.yamlNode "a1" (w_home w') in
  match o with
  | Done _ => w_vms w' !! n_SandboxName n = Some ObservationRunning /\
      exists n' b', record = Ok n' /\ LoadBootstrapState OutcomeSample.parse "a1" (w_home w') = Ok b' /\
        n_Status n' = ""%string /\ n_BootstrapCompleted n' = true /\ bo_Completed b' = true
  | NodeStore.Failed _ => exists n', record = Ok n' /\ nodeStatusInFlight (n_Status n') = false
  | Died => True
  end.
Proof.
  destruct OutcomeSample.home0_ready as (n & b & Hn & Hb & Hi & Hnm & Hs & Hc). exists n, b. split; [exact Hn|]. split; [exact Hb|].
  apply (start_outcome OutcomeSample.yamlMarshal OutcomeSample.yamlNode NodeRecord.Sample.yamlStored OutcomeSample.json OutcomeSample.parse
    [] "" (fun _ => None) (fun _ => Ok ""%string) "a1" n b false OutcomeSample.home0 calm OutcomeSample.roundtrip eq_refl Hn Hi Hb).
  - by apply OutcomeSample.created_stated.
  - by rewrite Hc.
  - apply OutcomeSample.no_migration.
Defined.

Lemma stop_outcome_witness : exists n,
  NodeByID (Observation := RuntimeObservation) OutcomeSample.yamlNode "a1" (w_home OutcomeSample.home0) = Ok n /\
  let '(w', _, o) := nodeStopClaimed OutcomeSample.yamlMarshal OutcomeSample.yamlNode OutcomeSample.json OutcomeSample.parse
    (fun _ => Ok ""%string) "a1" OutcomeSample.home0 calm in
  (forall a, o = Done a -> w_vms w' !! n_SandboxName n <> Some ObservationRunning) /\
  (o <> Died -> exists n', NodeByID (Observation := RuntimeObservation) OutcomeSample.yamlNode "a1" (w_home w') = Ok n' /\
     nodeStatusInFlight (n_Status n') = false).
Proof.
  destruct OutcomeSample.home0_ready as (n & b & Hn & Hb & Hi & Hnm & Hs & Hc). exists n. split; [exact Hn|].
  apply (stop_outcome OutcomeSample.yamlMarshal OutcomeSample.yamlNode NodeRecord.Sample.yamlStored OutcomeSample.json OutcomeSample.parse
    (fun _ => Ok ""%string) "a1" n b OutcomeSample.home0 calm OutcomeSample.roundtrip eq_refl Hn Hi Hb).
  - by apply OutcomeSample.created_stated.
  - by rewrite Hs.
Defined.
