(* ===== verification/RendererLink.v ===== *)
(** * The link to a renderer worker

    The second half of [internal/codelima/renderer_supervisor.go] and the
    handshake of [renderer_worker_protocol.go].  A link owns one worker process
    and the socket to it: two bounded queues towards the worker (a priority lane
    for requests, a lane for journaled output), the table of requests the worker
    has not answered, and the reply channels of the callers that wait.

    [rendererLink] has the fields of the Go struct; a queue is the contents of
    its buffered channel and [stop], [done] say whether the channel is closed.
    [linkSystem] puts the writer and reader goroutines, the calls in flight and
    [Fail] beside it: [linkStep] performs one critical section or one channel
    operation of one of them, so that a list of [linkEvent] is an interleaving.
    A [select] with several ready cases takes the one the event names. *)

From S2P Require Import Prelude.
Local Open Scope Z_scope.

(** ** Constants and errors *)

Definition defaultRendererCommandTimeout : duration := 2 * second.
Definition defaultRendererQueueFrames : Z := 128.
Definition rendererReadDeadlineFactor : Z := 4.

Definition errRendererLinkClosed : go_error := ENew "renderer link closed".
Definition errRendererOutboundQueueFull : go_error := ENew "renderer outbound queue full".
Definition errTerminalClosed : go_error := ENew "terminal runtime closed".

Definition rendererFrameRequest : string := "request".
Definition rendererFrameResponse : string := "response".
Definition rendererFrameSnapshot : string := "snapshot".
Definition rendererFramePTYWrite : string := "pty_write".
Definition rendererFrameEvent : string := "event".

(** ** Data *)

Record rendererWorkerFrame := WFrame {
  wf_Type : string;
  wf_ID : Z;
  wf_Generation : Z;
  wf_NoReply : bool;
  wf_Method : string;
  wf_Params : bytes;
  wf_Result : bytes;
  wf_Error : string;
  wf_EventID : Z;
  wf_Ordinal : Z;
  wf_Event : string;
}.

Record rendererPending := RPending {
  rp_StartedAt : time;
  rp_Deadline : time;
  rp_Budget : duration;
  rp_DispatchOrder : Z;
  rp_Method : string;
}.

(** The zero value that a missing map entry reads as. *)
Definition noPending : rendererPending := RPending time_zero time_zero 0 0 "".

Record rendererCallOutcome := CallOutcome {
  co_result : bytes;
  co_err : option go_error;
}.

Record rendererLinkStats := LinkStats {
  ls_OutboundDepth : Z;
  ls_PendingRequests : Z;
  ls_OldestPending : duration;
  ls_CurrentOperation : string;
}.

Record rendererLink := RLink {
  rl_generation : Z;
  rl_commandTimeout : duration;
  rl_queueFrames : Z;
  rl_outbound : list rendererWorkerFrame;
  rl_control : list rendererWorkerFrame;
  rl_stop : bool;
  rl_done : bool;
  rl_nextID : Z;
  rl_dispatchOrder : Z;
  rl_pending : gmap Z rendererPending;
  rl_waiters : gset Z;
  rl_failure : option go_error;
}.

(** Field updates. *)
Definition set_outbound q l := RLink (rl_generation l) (rl_commandTimeout l) (rl_queueFrames l)
  q (rl_control l) (rl_stop l) (rl_done l) (rl_nextID l) (rl_dispatchOrder l) (rl_pending l)
  (rl_waiters l) (rl_failure l).
Definition set_control q l := RLink (rl_generation l) (rl_commandTimeout l) (rl_queueFrames l)
  (rl_outbound l) q (rl_stop l) (rl_done l) (rl_nextID l) (rl_dispatchOrder l) (rl_pending l)
  (rl_waiters l) (rl_failure l).
Definition set_stop l := RLink (rl_generation l) (rl_commandTimeout l) (rl_queueFrames l)
  (rl_outbound l) (rl_control l) true (rl_done l) (rl_nextID l) (rl_dispatchOrder l)
  (rl_pending l) (rl_waiters l) (rl_failure l).
Definition set_done l := RLink (rl_generation l) (rl_commandTimeout l) (rl_queueFrames l)
  (rl_outbound l) (rl_control l) (rl_stop l) true (rl_nextID l) (rl_dispatchOrder l)
  (rl_pending l) (rl_waiters l) (rl_failure l).
Definition set_nextID n l := RLink (rl_generation l) (rl_commandTimeout l) (rl_queueFrames l)
  (rl_outbound l) (rl_control l) (rl_stop l) (rl_done l) n (rl_dispatchOrder l) (rl_pending l)
  (rl_waiters l) (rl_failure l).
Definition set_table order pending waiters l := RLink (rl_generation l) (rl_commandTimeout l)
  (rl_queueFrames l) (rl_outbound l) (rl_control l) (rl_stop l) (rl_done l) (rl_nextID l)
  order pending waiters (rl_failure l).
Definition set_failure e l := RLink (rl_generation l) (rl_commandTimeout l) (rl_queueFrames l)
  (rl_outbound l) (rl_control l) (rl_stop l) (rl_done l) (rl_nextID l) (rl_dispatchOrder l)
  (rl_pending l) (rl_waiters l) (Some e).

(** The link that [startRendererLink] builds once the process runs. *)
Definition newLink (commandTimeout queueFrames generation : Z) : rendererLink :=
  RLink generation commandTimeout queueFrames [] [] false false 0 0 ∅ ∅ None.

(** ** Sending *)

Definition requestFrame (l : rendererLink) (id : Z) (noReply : bool) (method : string)
    (raw : bytes) : rendererWorkerFrame :=
  WFrame rendererFrameRequest id (rl_generation l) noReply method raw [] "" 0 0 "".

(** [params] is the outcome of marshalling them.  The identity comes from an
    atomic counter. *)
Definition notifyFrame (method : string) (params : result bytes) (l : rendererLink)
    : result rendererWorkerFrame * rendererLink :=
  match params with
  | Err e => (Err e, l)
  | Ok raw =>
      let id := u64 (rl_nextID l + 1) in
      (Ok (requestFrame l id true method raw), set_nextID id l)
  end.

Definition room (l : rendererLink) (queue : list rendererWorkerFrame) : bool :=
  zlen queue <? rl_queueFrames l.

(** The cases of the selects that send. *)
Inductive sendCase := CaseSend | CaseStop | CaseShutdown.

(** The select of [Notify] with the frame at hand; [None]: the named case is
    not ready. *)
Definition Notify (shutdown : bool) (frame : rendererWorkerFrame) (choice : sendCase)
    (l : rendererLink) : option (option go_error * rendererLink) :=
  match choice with
  | CaseSend =>
      if room l (rl_outbound l) then Some (None, set_outbound (rl_outbound l ++ [frame]) l)
      else None
  | CaseStop => if rl_stop l then Some (Some errRendererLinkClosed, l) else None
  | CaseShutdown => if shutdown then Some (Some errTerminalClosed, l) else None
  end.

(** [TryNotify] and the admission of requests never wait: with neither case
    ready the queue is full.  [preferStop] decides when both are. *)
Definition TryNotify (method : string) (params : result bytes) (preferStop : bool)
    (l : rendererLink) : option go_error * rendererLink :=
  match notifyFrame method params l with
  | (Err e, l) => (Some e, l)
  | (Ok frame, l) =>
      if rl_stop l && (preferStop || negb (room l (rl_outbound l)))
      then (Some errRendererLinkClosed, l)
      else if room l (rl_outbound l)
      then (None, set_outbound (rl_outbound l ++ [frame]) l)
      else (Some errRendererOutboundQueueFull, l)
  end.

Definition requestBudget (l : rendererLink) (method : string) : duration :=
  let budget :=
    if rl_commandTimeout l <=? 0 then defaultRendererCommandTimeout else rl_commandTimeout l in
  if ((method =? "read") || (method =? "checkpoint") || (method =? "interact"))%string
  then i64 (budget * rendererReadDeadlineFactor)
  else budget.

Definition priorityLane (method : string) : bool :=
  negb ((method =? "checkpoint") || (method =? "paste"))%string.

(** [enqueueDeadline], one critical section of the link's mutex; the identity
    is drawn just before it.  [waiter] says whether a reply channel is given. *)
Definition enqueueDeadline (now : time) (method : string) (params : result bytes)
    (waiter : bool) (requestedDeadline : time) (preferStop : bool) (l : rendererLink)
    : result Z * rendererLink :=
  match params with
  | Err e => (Err e, l)
  | Ok raw =>
      let id := u64 (rl_nextID l + 1) in
      let frame := requestFrame l id false method raw in
      let l := set_nextID id l in
      if (method =? "health")%string && negb waiter && negb (bool_decide (rl_pending l = ∅))
      then (Ok 0, l)
      else
        let budget := requestBudget l method in
        let '(deadline, budget) :=
          if negb (time_is_zero requestedDeadline) && (method =? "init")%string
          then (requestedDeadline, Z.max 0 (time_sub requestedDeadline now))
          else (now + budget, budget) in
        let queue := if priorityLane method then rl_control l else rl_outbound l in
        let set_queue := if priorityLane method then set_control else set_outbound in
        let stored :=
          set_table (rl_dispatchOrder l)
            (<[id := RPending now deadline budget 0 method]> (rl_pending l))
            (if waiter then {[id]} ∪ rl_waiters l else rl_waiters l) l in
        if rl_stop l && (preferStop || negb (room l queue)) then (Err errRendererLinkClosed, l)
        else if room l queue then (Ok id, set_queue (queue ++ [frame]) stored)
        else (Err errRendererOutboundQueueFull, l)
  end.

Definition enqueue (now : time) (method : string) (params : result bytes) (waiter : bool)
    (preferStop : bool) (l : rendererLink) : result Z * rendererLink :=
  enqueueDeadline now method params waiter time_zero preferStop l.

Definition TryCall (now : time) (method : string) (params : result bytes) (preferStop : bool)
    (l : rendererLink) : result Z * rendererLink :=
  enqueue now method params false preferStop l.

(** ** The table of unanswered requests *)

(** The loop body of [activePendingLocked]: the best request so far and the
    next one the map's iteration visits. *)
Definition earlier (best candidate : Z * rendererPending) : Z * rendererPending :=
  if negb (rp_DispatchOrder candidate.2 =? 0) &&
     ((best.1 =? 0) || (rp_DispatchOrder candidate.2 <? rp_DispatchOrder best.2))
  then candidate else best.

Definition activePendingLocked (pending : gmap Z rendererPending) : Z * rendererPending :=
  foldl earlier (0, noPending) (map_to_list pending).

Definition with_Deadline (t : time) (p : rendererPending) : rendererPending :=
  RPending (rp_StartedAt p) t (rp_Budget p) (rp_DispatchOrder p) (rp_Method p).

Definition with_DispatchOrder (o : Z) (p : rendererPending) : rendererPending :=
  RPending (rp_StartedAt p) (rp_Deadline p) (rp_Budget p) o (rp_Method p).

Definition markDispatched (now : time) (id : Z) (l : rendererLink) : rendererLink :=
  match rl_pending l !! id with
  | None => l
  | Some pending =>
      let active := (activePendingLocked (rl_pending l)).1 in
      let order := u64 (rl_dispatchOrder l + 1) in
      let pending := with_DispatchOrder order pending in
      let pending :=
        if active =? 0 then with_Deadline (now + rp_Budget pending) pending else pending in
      set_table order (<[id := pending]> (rl_pending l)) (rl_waiters l) l
  end.

Definition completePendingLocked (now : time) (id : Z) (l : rendererLink)
    : rendererPending * rendererLink :=
  let active := (activePendingLocked (rl_pending l)).1 in
  let pending := default noPending (rl_pending l !! id) in
  let rest := delete id (rl_pending l) in
  let rest :=
    if negb (active =? 0) && (active =? id) then
      let '(nextID, next) := activePendingLocked rest in
      if negb (nextID =? 0)
      then <[nextID := with_Deadline (now + rp_Budget next) next]> rest
      else rest
    else rest in
  (pending, set_table (rl_dispatchOrder l) rest (rl_waiters l) l).

(** The deadline the second loop of [HealthError] applies. *)
Definition admissionDeadline (timeout : duration) (p : rendererPending) : time :=
  if time_is_zero (rp_Deadline p) then rp_StartedAt p + timeout else rp_Deadline p.

(** The errors [HealthError] may return: the active request's, or, with none
    active, that of any overdue request, whichever the map's iteration meets
    first.  The link is healthy when there is none. *)
Definition HealthError (now : time) (timeout : duration) (l : rendererLink) : list go_error :=
  let '(id, p) := activePendingLocked (rl_pending l) in
  if negb (id =? 0) then
    if now <? rp_Deadline p then []
    else [EFormat ("renderer " +:+ rp_Method p +:+ " request %d exceeded execution budget %s")
            [id; rp_Budget p]]
  else
    omap (fun c : Z * rendererPending =>
      let deadline := admissionDeadline timeout c.2 in
      if now <? deadline then None
      else Some (EFormat ("renderer " +:+ rp_Method c.2 +:+ " request %d exceeded %s")
                   [c.1; time_sub deadline (rp_StartedAt c.2)]))
      (map_to_list (rl_pending l)).

(** [Stats]; [visits] is the map in the order of the iteration. *)
Definition linkStats (now : time) (visits : list (Z * rendererPending)) (l : rendererLink)
    : rendererLinkStats :=
  let oldest :=
    foldl (fun (best : duration * string) (c : Z * rendererPending) =>
      let age := time_sub now (rp_StartedAt c.2) in
      if best.1 <? age then (age, rp_Method c.2) else best) (0, "") visits in
  let active := (activePendingLocked (rl_pending l)).2 in
  LinkStats (zlen (rl_control l) + zlen (rl_outbound l)) (Z.of_nat (size (rl_pending l)))
    oldest.1
    (if negb (rp_DispatchOrder active =? 0) then rp_Method active else oldest.2).

Definition Failure (l : rendererLink) : go_error :=
  default (ENew "renderer link closed") (rl_failure l).

Definition detachWaiter (id : Z) (l : rendererLink) : rendererLink :=
  set_table (rl_dispatchOrder l) (rl_pending l) (rl_waiters l ∖ {[id]}) l.

(** ** The goroutines of a link *)

(** The cases of the writer's second select. *)
Inductive takeCase := TakeControl | TakeOutbound | TakeStop.

Inductive writerState :=
| WPoll                                   (* before the first select *)
| WAny                                    (* parked on the second *)
| WHold (frame : rendererWorkerFrame)     (* taken, not yet marked *)
| WWrite (frame : rendererWorkerFrame)    (* marked, writing *)
| WExit.

Inductive readerState :=
| RRead                                   (* reading the socket *)
| RFrame (frame : rendererWorkerFrame) (waiter : bool)  (* in the callback *)
| RFail (e : go_error)                    (* about to fail the link *)
| RExit.

(** [Fail] runs once: the first caller's error, and how far it got. *)
Inductive failState :=
| FailIdle
| FailStopped (e : go_error)   (* the socket is closed, the process killed *)
| FailSettled                  (* the callers have their answers *)
| FailDone.

(** The link with its goroutines.  [sys_calls] are the requests that entered
    the table with a reply channel, [sys_outcomes] what was sent on these
    channels, [sys_detached] the calls that stopped waiting, [sys_frames] what
    the callback saw, [sys_wire] what reached the worker. *)
Record linkSystem := LSys {
  sys_link : rendererLink;
  sys_writer : writerState;
  sys_reader : readerState;
  sys_fail : failState;
  sys_calls : list Z;
  sys_outcomes : list (Z * rendererCallOutcome);
  sys_detached : gset Z;
  sys_frames : list rendererWorkerFrame;
  sys_wire : list rendererWorkerFrame;
}.

Definition newSystem (commandTimeout queueFrames generation : Z) : linkSystem :=
  LSys (newLink commandTimeout queueFrames generation) WPoll RRead FailIdle [] [] ∅ [] [].

Definition with_link l s := LSys l (sys_writer s) (sys_reader s) (sys_fail s) (sys_calls s)
  (sys_outcomes s) (sys_detached s) (sys_frames s) (sys_wire s).
Definition with_writer w s := LSys (sys_link s) w (sys_reader s) (sys_fail s) (sys_calls s)
  (sys_outcomes s) (sys_detached s) (sys_frames s) (sys_wire s).
Definition with_reader r s := LSys (sys_link s) (sys_writer s) r (sys_fail s) (sys_calls s)
  (sys_outcomes s) (sys_detached s) (sys_frames s) (sys_wire s).
Definition with_fail f s := LSys (sys_link s) (sys_writer s) (sys_reader s) f (sys_calls s)
  (sys_outcomes s) (sys_detached s) (sys_frames s) (sys_wire s).
Definition with_call id s := LSys (sys_link s) (sys_writer s) (sys_reader s) (sys_fail s)
  (id :: sys_calls s) (sys_outcomes s) (sys_detached s) (sys_frames s) (sys_wire s).
Definition with_outcomes os s := LSys (sys_link s) (sys_writer s) (sys_reader s) (sys_fail s)
  (sys_calls s) (os ++ sys_outcomes s) (sys_detached s) (sys_frames s) (sys_wire s).
Definition with_detached id s := LSys (sys_link s) (sys_writer s) (sys_reader s) (sys_fail s)
  (sys_calls s) (sys_outcomes s) ({[id]} ∪ sys_detached s) (sys_frames s) (sys_wire s).
Definition with_frame f s := LSys (sys_link s) (sys_writer s) (sys_reader s) (sys_fail s)
  (sys_calls s) (sys_outcomes s) (sys_detached s) (sys_frames s ++ [f]) (sys_wire s).
Definition with_wire f s := LSys (sys_link s) (sys_writer s) (sys_reader s) (sys_fail s)
  (sys_calls s) (sys_outcomes s) (sys_detached s) (sys_frames s) (sys_wire s ++ [f]).

Inductive linkEvent :=
| EvNotify (method : string) (params : result bytes) (shutdown : bool) (choice : sendCase)
| EvTryNotify (method : string) (params : result bytes) (preferStop : bool)
| EvCall (method : string) (params : result bytes) (waiter : bool)
    (deadline : time) (preferStop : bool)
| EvDetach (id : Z)
| EvWriterPoll
| EvWriterTake (case : takeCase)
| EvWriterMark
| EvWriterWrite (failed : option go_error)
| EvRead (frame : rendererWorkerFrame)
| EvReadFail (e : go_error)
| EvReaderNext
| EvFail (e : go_error)
| EvFailNext.

(** The first step of [Fail]; later callers find it taken. *)
Definition failLink (e : go_error) (s : linkSystem) : linkSystem :=
  match sys_fail s with
  | FailIdle => with_fail (FailStopped e) (with_link (set_stop (sys_link s)) s)
  | _ => s
  end.

(** The rest of [Fail]: the critical section that answers every caller, then
    the closing of [done]. *)
Definition failNext (s : linkSystem) : option linkSystem :=
  match sys_fail s with
  | FailStopped e =>
      let l := sys_link s in
      let answers := map (fun id => (id, CallOutcome [] (Some e))) (elements (rl_waiters l)) in
      Some (with_outcomes answers (with_fail FailSettled
        (with_link (set_table (rl_dispatchOrder l) ∅ ∅ (set_failure e l)) s)))
  | FailSettled => Some (with_fail FailDone (with_link (set_done (sys_link s)) s))
  | _ => None
  end.

(** [writer], one step of its loop. *)
Definition writerPoll (s : linkSystem) : option linkSystem :=
  match sys_writer s with
  | WPoll =>
      match rl_control (sys_link s) with
      | frame :: rest =>
          Some (with_writer (WHold frame) (with_link (set_control rest (sys_link s)) s))
      | [] => Some (with_writer WAny s)
      end
  | _ => None
  end.

Definition writerTake (case : takeCase) (s : linkSystem) : option linkSystem :=
  match sys_writer s, case with
  | WAny, TakeControl =>
      match rl_control (sys_link s) with
      | frame :: rest =>
          Some (with_writer (WHold frame) (with_link (set_control rest (sys_link s)) s))
      | [] => None
      end
  | WAny, TakeOutbound =>
      match rl_outbound (sys_link s) with
      | frame :: rest =>
          Some (with_writer (WHold frame) (with_link (set_outbound rest (sys_link s)) s))
      | [] => None
      end
  | WAny, TakeStop => if rl_stop (sys_link s) then Some (with_writer WExit s) else None
  | _, _ => None
  end.

Definition writerMark (now : time) (s : linkSystem) : option linkSystem :=
  match sys_writer s with
  | WHold frame =>
      Some (with_writer (WWrite frame) (with_link (markDispatched now (wf_ID frame) (sys_link s)) s))
  | _ => None
  end.

Definition writerWrite (failed : option go_error) (s : linkSystem) : option linkSystem :=
  match sys_writer s, failed with
  | WWrite frame, None => Some (with_wire frame (with_writer WPoll s))
  | WWrite frame, Some e => Some (failLink e (with_writer WExit s))
  | _, _ => None
  end.

(** [reader]: the critical section for a response, then the callback and the
    reply. *)
Definition readerRead (now : time) (frame : rendererWorkerFrame) (s : linkSystem)
    : option linkSystem :=
  match sys_reader s with
  | RRead =>
      let l := sys_link s in
      if negb (wf_Generation frame =? rl_generation l) then Some s
      else if (wf_Type frame =? rendererFrameResponse)%string then
        let '(pending, l) := completePendingLocked now (wf_ID frame) l in
        let waiter := bool_decide (wf_ID frame ∈ rl_waiters l) in
        let l := detachWaiter (wf_ID frame) l in
        let next :=
          if ((rp_Method pending =? "health") && negb (wf_Error frame =? ""))%string
          then RFail (ENew ("renderer health failed: " +:+ wf_Error frame))
          else RFrame frame waiter in
        Some (with_reader next (with_link l s))
      else Some (with_reader (RFrame frame false) s)
  | _ => None
  end.

Definition readerNext (s : linkSystem) : option linkSystem :=
  match sys_reader s with
  | RFrame frame waiter =>
      let s := with_frame frame (with_reader RRead s) in
      Some (if waiter
            then with_outcomes [(wf_ID frame,
                   CallOutcome (wf_Result frame)
                     (if (wf_Error frame =? "")%string then None
                      else Some (ENew (wf_Error frame))))] s
            else s)
  | RFail e => Some (failLink e (with_reader RExit s))
  | _ => None
  end.

(** One step at the instant [now]; [None]: the event is not enabled. *)
Definition linkStep (now : time) (s : linkSystem) (ev : linkEvent) : option linkSystem :=
  let l := sys_link s in
  match ev with
  | EvNotify method params shutdown choice =>
      match notifyFrame method params l with
      | (Err _, l) => Some (with_link l s)
      | (Ok frame, l) =>
          match Notify shutdown frame choice l with
          | Some (_, l) => Some (with_link l s)
          | None => None
          end
      end
  | EvTryNotify method params preferStop => Some (with_link (TryNotify method params preferStop l).2 s)
  | EvCall method params waiter deadline preferStop =>
      match enqueueDeadline now method params waiter deadline preferStop l with
      | (Ok id, l) => Some (let s := with_link l s in if waiter then with_call id s else s)
      | (Err _, l) => Some (with_link l s)
      end
  | EvDetach id =>
      if bool_decide (id ∈ sys_calls s)
      then Some (with_detached id (with_link (detachWaiter id l) s)) else None
  | EvWriterPoll => writerPoll s
  | EvWriterTake case => writerTake case s
  | EvWriterMark => writerMark now s
  | EvWriterWrite failed => writerWrite failed s
  | EvRead frame => readerRead now frame s
  | EvReadFail e =>
      match sys_reader s with
      | RRead => Some (failLink e (with_reader RExit s))
      | _ => None
      end
  | EvReaderNext => readerNext s
  | EvFail e => Some (failLink e s)
  | EvFailNext => failNext s
  end.

(** Runs: events that are not enabled are skipped, so that every list of
    events is a schedule. *)
Definition linkNext (s : linkSystem) (e : time * linkEvent) : linkSystem :=
  default s (linkStep e.1 s e.2).

Definition linkRun (s : linkSystem) (es : list (time * linkEvent)) : linkSystem :=
  foldl linkNext s es.

(** ** The handshake

    The init reply is JSON; what the worker announced is the outcome of
    decoding it. *)

Definition rendererWorkerProtocolVersion : Z := 6.

Record rendererInitResult := InitResult {
  ir_Protocol : Z;
  ir_Ready : bool;
  ir_BuildID : string;
  ir_PartialRecovery : bool;
  ir_RestoredCheckpoint : bool;
}.

(** [verifyRendererProtocol]: whether the reply is refused as a protocol
    mismatch, which is permanent, or as not ready. *)
Inductive handshake :=
| Verified
| Mismatch (e : go_error)
| NotReady (e : go_error).

Definition errRendererProtocolMismatch : string := "renderer worker protocol version mismatch".

Definition verifyRendererProtocol (executable : string) (reply : result rendererInitResult)
    : handshake :=
  match reply with
  | Err e =>
      Mismatch (ENew (errRendererProtocolMismatch +:+ ": renderer worker " +:+ executable +:+
        " sent an init reply this binary cannot decode (" +:+ errorText e +:+
        "); it speaks a different protocol"))
  | Ok r =>
      if ir_Protocol r =? rendererWorkerProtocolVersion then
        if negb (ir_Ready r) then NotReady (ENew "renderer worker did not acknowledge readiness")
        else Verified
      else
        Mismatch (EFormat (errRendererProtocolMismatch +:+ ": renderer worker " +:+ executable +:+
          " announced " +:+
          (if ir_Protocol r =? 0
           then "no version at all (a worker built before the protocol was versioned)"
           else "version %d") +:+
          " but this binary speaks version %d; the codelima binary and the codelima-renderer-worker beside it are from different builds -- reinstall so both come from the same one")
          (if ir_Protocol r =? 0 then [rendererWorkerProtocolVersion]
           else [ir_Protocol r; rendererWorkerProtocolVersion]))
  end.
