(* ===== verification/RendererLinkCorrect.v ===== *)
(** * What the link promises

    Lemmas and theorems about [RendererLink]: the request that executes keeps
    the deadline it got when it started to execute, no caller waits without an
    answer or a supervised request, and output reaches the worker in order. *)

From S2P Require Import Prelude RendererLink.
Local Open Scope Z_scope.

(** ** The active request *)

(** [p] is the request that has been dispatched longest. *)
Definition isActive (m : gmap Z rendererPending) (id : Z) (p : rendererPending) : Prop :=
  m !! id = Some p /\ rp_DispatchOrder p <> 0 /\
  forall i q, m !! i = Some q -> rp_DispatchOrder q <> 0 -> rp_DispatchOrder p <= rp_DispatchOrder q.

(** The table: identities were issued, dispatch orders were counted and do not
    repeat. *)
Record table_ok (next order : Z) (m : gmap Z rendererPending) : Prop := {
  tk_next : 0 <= next;
  tk_order : 0 <= order;
  tk_ids : forall id p, m !! id = Some p -> 0 < id <= next;
  tk_orders : forall id p, m !! id = Some p -> 0 <= rp_DispatchOrder p <= order;
  tk_inj : forall i p j q, m !! i = Some p -> m !! j = Some q ->
    rp_DispatchOrder p <> 0 -> rp_DispatchOrder p = rp_DispatchOrder q -> i = j;
}.

Lemma earlier_fold l :
  (forall c, c ∈ l -> 0 < c.1) ->
  let a := foldl earlier (0, noPending) l in
  (a = (0, noPending) /\ forall c, c ∈ l -> rp_DispatchOrder c.2 = 0) \/
  (a ∈ l /\ rp_DispatchOrder a.2 <> 0 /\
   forall c, c ∈ l -> rp_DispatchOrder c.2 <> 0 -> rp_DispatchOrder a.2 <= rp_DispatchOrder c.2).
Proof.
  induction l as [|x l IH] using rev_ind; simpl; intros Hpos.
  { left. split; [done|]. intros c Hc. by apply not_elem_of_nil in Hc. }
  rewrite foldl_snoc. assert (0 < x.1) as Hx by (apply Hpos; set_solver).
  assert (Hmem : forall c, c ∈ l ++ [x] <-> c ∈ l \/ c = x) by (intros; set_solver).
  setoid_rewrite Hmem. clear Hmem.
  destruct IH as [[-> Hz]|(Ha & Ho & Hmin)]; [intros c Hc; apply Hpos, elem_of_app; by left| |].
  - unfold earlier. simpl. rewrite andb_true_r. case_match; bool_to_prop.
    + right. split; [by right|]. split; [done|].
      intros c [Hc| ->] Hco; [by apply Hz in Hc|lia].
    + left. split; [done|]. intros c [Hc| ->]; auto.
  - set (a := foldl _ _ _) in *. pose proof (Hpos a (proj2 (elem_of_app _ _ _) (or_introl Ha))) as Ha0.
    unfold earlier. rewrite (proj2 (Z.eqb_neq a.1 0)) by lia. rewrite orb_false_l.
    right. case_match; bool_to_prop.
    + split; [by right|]. split; [done|].
      intros c [Hc| ->] Hco; [specialize (Hmin c Hc Hco); lia|lia].
    + split; [by left|]. split; [done|]. intros c [Hc| ->] Hco; [auto|].
      apply andb_false_iff in H as [H|H]; bool_to_prop; [done|lia].
Qed.

Lemma active_cases n o m : table_ok n o m ->
  (activePendingLocked m = (0, noPending) /\
     forall id p, m !! id = Some p -> rp_DispatchOrder p = 0) \/
  (exists id p, activePendingLocked m = (id, p) /\ 0 < id /\ isActive m id p).
Proof.
  intros Hok. unfold activePendingLocked.
  destruct (earlier_fold (map_to_list m)) as [[-> Hz]|(Ha & Ho & Hmin)].
  - intros [id p] Hc%elem_of_map_to_list. simpl. apply (tk_ids _ _ _ Hok) in Hc. lia.
  - left. split; [done|]. intros id p Hp%elem_of_map_to_list. by apply (Hz (id, p)).
  - right. destruct (foldl _ _ _) as [id p]. exists id, p. split; [done|].
    apply elem_of_map_to_list in Ha. split; [apply (tk_ids _ _ _ Hok) in Ha; lia|].
    split; [done|]. split; [done|]. intros i q Hq%elem_of_map_to_list. by apply (Hmin (i, q)).
Qed.

Lemma active_unique n o m i p j q :
  table_ok n o m -> isActive m i p -> isActive m j q -> i = j /\ p = q.
Proof.
  intros Hok (Hp & Hpo & Hpm) (Hq & Hqo & Hqm).
  assert (i = j) as -> by (eapply (tk_inj _ _ _ Hok); [done..|];
    pose proof (Hpm _ _ Hq Hqo); pose proof (Hqm _ _ Hp Hpo); lia).
  split; [done|]. congruence.
Qed.

Lemma active_eq n o m id p :
  table_ok n o m -> isActive m id p -> activePendingLocked m = (id, p).
Proof.
  intros Hok Ha. destruct (active_cases _ _ _ Hok) as [[_ Hz]|(i & q & -> & _ & Hq)].
  - destruct Ha as (Hp & Ho & _). by apply Hz in Hp.
  - destruct (active_unique _ _ _ _ _ _ _ Hok Ha Hq) as [-> ->]. done.
Qed.

Lemma active_id n o m id :
  table_ok n o m -> id <> 0 -> (activePendingLocked m).1 = id -> exists p, isActive m id p.
Proof.
  intros Hok Hid Ha. destruct (active_cases _ _ _ Hok) as [[E _]|(i & q & E & _ & Hq)];
    rewrite E in Ha; simpl in Ha; [congruence|subst; eauto].
Qed.

(** ** What the operations do to the table *)

Lemma table_more n o m n' : table_ok n o m -> n <= n' -> table_ok n' o m.
Proof.
  intros [] Hn. split; [lia|done| |done|done].
  intros id p Hp. apply tk_ids0 in Hp. lia.
Qed.

Lemma table_empty n o : 0 <= n -> 0 <= o -> table_ok n o ∅.
Proof. intros. split; [done|done|..]; intros *; by rewrite lookup_empty. Qed.

Lemma table_insert n o m id p :
  table_ok n o m -> n < id -> rp_DispatchOrder p = 0 -> table_ok id o (<[id := p]> m).
Proof.
  intros [] Hid Hp. split; [lia|done|..].
  - intros i q [[<- <-]|[_ Hq]]%lookup_insert_Some; [lia|]. apply tk_ids0 in Hq. lia.
  - intros i q [[<- <-]|[_ Hq]]%lookup_insert_Some; [lia|eauto].
  - intros i q j r [[<- <-]|[_ Hq]]%lookup_insert_Some; [lia|].
    intros [[<- <-]|[_ Hr]]%lookup_insert_Some; [lia|eauto].
Qed.

Lemma table_delete n o m id : table_ok n o m -> table_ok n o (delete id m).
Proof.
  intros []. split; [done|done|..].
  - intros i q [_ Hq]%lookup_delete_Some. eauto.
  - intros i q [_ Hq]%lookup_delete_Some. eauto.
  - intros i q j r [_ Hq]%lookup_delete_Some [_ Hr]%lookup_delete_Some. eauto.
Qed.

Lemma table_deadline n o m id p t :
  table_ok n o m -> m !! id = Some p -> table_ok n o (<[id := with_Deadline t p]> m).
Proof.
  intros [] Hp.
  assert (Hr : forall i q, <[id := with_Deadline t p]> m !! i = Some q ->
            exists q', m !! i = Some q' /\ rp_DispatchOrder q = rp_DispatchOrder q').
  { intros i q [[<- <-]|[_ Hq]]%lookup_insert_Some; eauto. }
  split; [done|done|..].
  - intros i q (q' & Hq & _)%Hr. eauto.
  - intros i q (q' & Hq & ->)%Hr. eauto.
  - intros i q j r (q' & Hq & ->)%Hr (r' & Hr' & ->)%Hr. eauto.
Qed.

Lemma table_mark n o m id p :
  table_ok n o m -> m !! id = Some p -> rp_DispatchOrder p = 0 ->
  table_ok n (o + 1) (<[id := with_DispatchOrder (o + 1) p]> m).
Proof.
  intros [] Hp Hp0. split; [done|lia|..].
  - intros i q [[<- <-]|[_ Hq]]%lookup_insert_Some; [eauto|eauto].
  - intros i q [[<- <-]|[_ Hq]]%lookup_insert_Some; simpl; [lia|].
    apply tk_orders0 in Hq. lia.
  - intros i q j r [[<- <-]|[_ Hq]]%lookup_insert_Some
      [[<- <-]|[_ Hr]]%lookup_insert_Some; simpl; [done| | |eauto].
    + apply tk_orders0 in Hr. lia.
    + apply tk_orders0 in Hq. lia.
Qed.

(** The active request stays the active one under insertions of requests that
    are not dispatched or are dispatched later, and deletions of others. *)
Lemma active_insert m id p i q :
  isActive m id p -> i <> id ->
  (rp_DispatchOrder q = 0 \/ rp_DispatchOrder p <= rp_DispatchOrder q) ->
  isActive (<[i := q]> m) id p.
Proof.
  intros (Hp & Ho & Hm) Hne Hq. split; [by rewrite lookup_insert_ne|]. split; [done|].
  intros j r [[<- <-]|[_ Hr]]%lookup_insert_Some Hro; [lia|eauto].
Qed.

Lemma active_delete m id p i :
  isActive m id p -> i <> id -> isActive (delete i m) id p.
Proof.
  intros (Hp & Ho & Hm) Hne. split; [by rewrite lookup_delete_ne|]. split; [done|].
  intros j r [_ Hr]%lookup_delete_Some. eauto.
Qed.

(** ** Moves of the table

    Every step of the link moves its table (the last identity, the last
    dispatch order, the requests) in one of five ways. *)

Definition table : Type := Z * Z * gmap Z rendererPending.

Definition table_wf (t : table) : Prop := table_ok t.1.1 t.1.2 t.2.

Definition marked (now : time) (o : Z) (m : gmap Z rendererPending) (p : rendererPending)
    : rendererPending :=
  let p := with_DispatchOrder o p in
  if (activePendingLocked m).1 =? 0 then with_Deadline (now + rp_Budget p) p else p.

Definition completed (now : time) (id : Z) (m : gmap Z rendererPending)
    : gmap Z rendererPending :=
  let active := (activePendingLocked m).1 in
  let rest := delete id m in
  if negb (active =? 0) && (active =? id) then
    let '(nextID, next) := activePendingLocked rest in
    if negb (nextID =? 0)
    then <[nextID := with_Deadline (now + rp_Budget next) next]> rest else rest
  else rest.

Inductive move (now : time) : table -> table -> Prop :=
| MNext n o m n' : n <= n' -> move now (n, o, m) (n', o, m)
| MInsert n o m id p :
    n < id -> rp_DispatchOrder p = 0 -> move now (n, o, m) (id, o, <[id := p]> m)
| MMark n o m id p :
    m !! id = Some p -> rp_DispatchOrder p = 0 ->
    move now (n, o, m) (n, o + 1, <[id := marked now (o + 1) m p]> m)
| MComplete n o m id : move now (n, o, m) (n, o, completed now id m)
| MClear n o m : move now (n, o, m) (n, o, ∅).

Lemma completed_wf now n o m id : table_ok n o m -> table_ok n o (completed now id m).
Proof.
  intros Hok. pose proof (table_delete _ _ _ id Hok) as Hd. unfold completed.
  case_match; [|done].
  destruct (active_cases _ _ _ Hd) as [[-> _]|(i & p & -> & Hi & Hp & _)]; simpl; [done|].
  rewrite (proj2 (Z.eqb_neq i 0)) by lia. by apply table_deadline.
Qed.

Lemma move_wf now t t' : move now t t' -> table_wf t -> table_wf t'.
Proof.
  unfold table_wf. destruct 1; simpl; intros Hok.
  - by eapply table_more.
  - by eapply table_insert.
  - pose proof (table_mark _ _ _ _ _ Hok H H0) as Hm. unfold marked. case_match; [|done].
    pose proof (table_deadline _ _ _ id _ (now + rp_Budget (with_DispatchOrder (o + 1) p)) Hm
      (lookup_insert_eq _ _ _)) as Hd. by rewrite insert_insert_eq in Hd.
  - by apply completed_wf.
  - apply table_empty; [by apply (tk_next _ _ _ Hok)|by apply (tk_order _ _ _ Hok)].
Qed.

(** Completing a request that is not the active one only removes it; completing
    the active one starts the clock of the next. *)
Lemma completed_other now n o m id p i :
  table_ok n o m -> isActive m id p -> i <> id -> completed now i m = delete i m.
Proof.
  intros Hok Ha Hne. unfold completed. rewrite (active_eq _ _ _ _ _ Hok Ha). simpl.
  rewrite (proj2 (Z.eqb_neq id i)) by congruence. by rewrite andb_false_r.
Qed.

Lemma completed_none now n o m i :
  table_ok n o m -> activePendingLocked m = (0, noPending) -> completed now i m = delete i m.
Proof. intros Hok Ha. unfold completed. by rewrite Ha. Qed.

Definition rebased (now : time) (m : gmap Z rendererPending) : gmap Z rendererPending :=
  let '(id, next) := activePendingLocked m in
  if negb (id =? 0) then <[id := with_Deadline (now + rp_Budget next) next]> m else m.

Lemma completed_active now m i p :
  activePendingLocked m = (i, p) -> 0 < i -> completed now i m = rebased now (delete i m).
Proof.
  intros Ha Hi. unfold completed. rewrite Ha. simpl.
  by rewrite (proj2 (Z.eqb_neq i 0)), Z.eqb_refl by lia.
Qed.

Lemma rebased_deadline now n o m id p :
  table_ok n o m -> isActive (rebased now m) id p -> rp_Deadline p = now + rp_Budget p.
Proof.
  intros Hok. unfold rebased.
  destruct (active_cases _ _ _ Hok) as [[-> Hz]|(j & r & -> & Hj & Hr)]; simpl.
  - intros (Hp & Ho & _). by apply Hz in Hp.
  - rewrite (proj2 (Z.eqb_neq j 0)) by lia. simpl. destruct Hr as (Hr & Hro & Hmin).
    set (r' := with_Deadline (now + rp_Budget r) r). intros Ha.
    assert (isActive (<[j := r']> m) j r') as Hj'.
    { split; [apply lookup_insert_eq|]. split; [done|].
      intros i q [[<- <-]|[_ Hq]]%lookup_insert_Some; [done|]. by apply (Hmin i). }
    destruct (active_unique _ _ _ _ _ _ _ (table_deadline _ _ _ _ _ _ Hok Hr) Ha Hj') as [_ ->].
    done.
Qed.

(** The request keeps its deadline, budget and method while it is active, and
    once it has left the table it does not come back. *)
Lemma move_keeps now t t' id p :
  move now t t' -> table_wf t -> isActive t.2 id p ->
  isActive t'.2 id p \/ (t'.2 !! id = None /\ id <= t'.1.1).
Proof.
  unfold table_wf. intros Hm Hok Ha.
  assert (Hid : 0 < id <= t.1.1) by (apply (tk_ids _ _ _ Hok id p), Ha).
  assert (Ho : 0 <= rp_DispatchOrder p <= t.1.2) by (apply (tk_orders _ _ _ Hok id p), Ha).
  destruct Hm; simpl in *.
  - by left.
  - left. apply active_insert; [done|lia|by left].
  - left. apply active_insert; [done| |].
    + intros ->. destruct Ha as (Hp & Hpo & _). congruence.
    + right. unfold marked. case_match; simpl; lia.
  - destruct (decide (id0 = id)) as [->|Hne].
    + right. split; [|lia]. unfold completed. case_match; [|apply lookup_delete_eq].
      destruct (active_cases _ _ _ (table_delete _ _ _ id Hok)) as [[-> _]|(i & q & -> & Hi & Hq & _)];
        simpl; [apply lookup_delete_eq|].
      rewrite (proj2 (Z.eqb_neq i 0)) by lia. simpl.
      apply lookup_delete_Some in Hq as [? _].
      by rewrite lookup_insert_ne, lookup_delete_eq by congruence.
    + left. rewrite (completed_other _ _ _ _ _ _ _ Hok Ha) by done. by apply active_delete.
  - right. split; [apply lookup_empty|lia].
Qed.

Lemma move_gone now t t' id :
  move now t t' -> table_wf t -> t.2 !! id = None -> id <= t.1.1 ->
  t'.2 !! id = None /\ id <= t'.1.1.
Proof.
  unfold table_wf. intros Hm Hok Hn Hle. destruct Hm; simpl in *.
  - split; [done|lia].
  - split; [|lia]. rewrite lookup_insert_ne by lia. done.
  - split; [|done]. rewrite lookup_insert_ne; [done|congruence].
  - split; [|done]. unfold completed.
    assert (delete id0 m !! id = None) as Hd by (apply lookup_delete_None; by right).
    case_match; [|done].
    destruct (active_cases _ _ _ (table_delete _ _ _ id0 Hok)) as [[-> _]|(i & q & -> & Hi & Hq & _)];
      simpl; [done|].
    rewrite (proj2 (Z.eqb_neq i 0)) by lia. simpl. rewrite lookup_insert_ne; [done|congruence].
  - split; [apply lookup_empty|done].
Qed.

(** A request becomes active with its whole budget ahead of it. *)
Lemma move_activates now t t' id p :
  move now t t' -> table_wf t -> (forall q, ~ isActive t.2 id q) -> isActive t'.2 id p ->
  rp_Deadline p = now + rp_Budget p.
Proof.
  unfold table_wf. intros Hm Hok Hna Ha. pose proof (move_wf _ _ _ Hm Hok) as Hok'.
  unfold table_wf in Hok'. destruct Hm; simpl in *.
  - by apply Hna in Ha.
  - destruct (decide (id0 = id)) as [->|Hne].
    { destruct Ha as (Hp & Ho & _). rewrite lookup_insert_eq in Hp. congruence. }
    exfalso. apply (Hna p). destruct Ha as (Hp & Ho & Hmin).
    rewrite lookup_insert_ne in Hp by done. split; [done|]. split; [done|].
    intros i q Hq Hqo. apply (Hmin i q); [|done]. rewrite lookup_insert_ne; [done|].
    intros <-. apply (tk_ids _ _ _ Hok) in Hq. lia.
  - destruct (active_cases _ _ _ Hok) as [[Ea Hz]|(i & q & Ea & Hi & Hq)].
    + destruct (decide (id0 = id)) as [->|Hne].
      * destruct Ha as (Hp & _). rewrite lookup_insert_eq in Hp. injection Hp as <-.
        unfold marked. rewrite Ea. done.
      * destruct Ha as (Hp & Ho & _). rewrite lookup_insert_ne in Hp by done.
        by apply Hz in Hp.
    + exfalso. assert (isActive (<[id0:=marked now (o + 1) m p0]> m) i q) as Hq'.
      { apply active_insert; [done| |].
        - intros ->. destruct Hq as (Hp & Hpo & _). congruence.
        - right. destruct Hq as (Hp & _). apply (tk_orders _ _ _ Hok) in Hp.
          unfold marked. case_match; simpl; lia. }
      destruct (active_unique _ _ _ _ _ _ _ Hok' Ha Hq') as [-> ->]. by apply (Hna q).
  - destruct (active_cases _ _ _ Hok) as [[Ea Hz]|(i & q & Ea & Hi & Hq)].
    + rewrite (completed_none _ _ _ _ _ Hok Ea) in *. destruct Ha as (Hp & Ho & _).
      apply lookup_delete_Some in Hp as [_ Hp]. by apply Hz in Hp.
    + destruct (decide (id0 = i)) as [->|Hne].
      * rewrite (completed_active _ _ _ _ Ea) in * by lia.
        by apply (rebased_deadline _ _ _ _ _ _ (table_delete _ _ _ i Hok) Ha).
      * rewrite (completed_other _ _ _ _ _ _ _ Hok Hq Hne) in *.
        destruct (active_unique _ _ _ _ _ _ _ Hok' Ha (active_delete _ _ _ _ Hq Hne)) as [-> ->].
        by apply Hna in Hq.
  - destruct Ha as (Hp & _). by rewrite lookup_empty in Hp.
Qed.

(** ** The system's invariant *)

Definition tableOf (s : linkSystem) : table :=
  (rl_nextID (sys_link s), rl_dispatchOrder (sys_link s), rl_pending (sys_link s)).

(** The frame the writer has taken and not marked, then those it has not taken. *)
Definition held (s : linkSystem) : list rendererWorkerFrame :=
  match sys_writer s with WHold frame => [frame] | _ => [] end.

Definition unsent (s : linkSystem) : list Z :=
  map wf_ID (held s ++ rl_control (sys_link s) ++ rl_outbound (sys_link s)).

Record sys_ok (s : linkSystem) : Prop := {
  so_table : table_wf (tableOf s);
  so_unsent : NoDup (unsent s);
  so_fresh : forall id, id ∈ unsent s -> 0 < id <= rl_nextID (sys_link s) /\
    forall p, rl_pending (sys_link s) !! id = Some p -> rp_DispatchOrder p = 0;
  so_cap : 0 < rl_queueFrames (sys_link s);
  so_control : zlen (rl_control (sys_link s)) <= rl_queueFrames (sys_link s);
  so_outbound : zlen (rl_outbound (sys_link s)) <= rl_queueFrames (sys_link s);
  so_stop : rl_stop (sys_link s) = true <-> sys_fail s <> FailIdle;
  so_done : rl_done (sys_link s) = true <-> sys_fail s = FailDone;
}.

Definition counters_small (s : linkSystem) : Prop :=
  rl_nextID (sys_link s) + 1 < two64 /\ rl_dispatchOrder (sys_link s) + 1 < two64.

(** What a step does, as far as the table and the unsent frames go. *)
Record step_ok (now : time) (s s' : linkSystem) : Prop := {
  st_ok : sys_ok s';
  st_move : move now (tableOf s) (tableOf s');
  st_next : rl_nextID (sys_link s') <= rl_nextID (sys_link s) + 1;
  st_order : rl_dispatchOrder (sys_link s') <= rl_dispatchOrder (sys_link s) + 1;
}.

Lemma sys_next_nonneg s : sys_ok s -> 0 <= rl_nextID (sys_link s).
Proof. intros H. apply (tk_next _ _ _ (so_table _ H)). Qed.

Lemma sys_order_nonneg s : sys_ok s -> 0 <= rl_dispatchOrder (sys_link s).
Proof. intros H. apply (tk_order _ _ _ (so_table _ H)). Qed.

Lemma fresh_unsent s : sys_ok s -> rl_nextID (sys_link s) + 1 ∉ unsent s.
Proof. intros H Hin. apply (so_fresh _ H) in Hin. lia. Qed.

Lemma next_u64 s :
  sys_ok s -> counters_small s ->
  u64 (rl_nextID (sys_link s) + 1) = rl_nextID (sys_link s) + 1.
Proof. intros H [Hc _]. apply sys_next_nonneg in H. apply u64_small. lia. Qed.

(** Steps that change neither the table nor the unsent frames, except that
    frames may leave the queues. *)
Lemma same_table_step now s s' :
  sys_ok s -> tableOf s' = tableOf s ->
  sublist (unsent s') (unsent s) ->
  rl_queueFrames (sys_link s') = rl_queueFrames (sys_link s) ->
  zlen (rl_control (sys_link s')) <= zlen (rl_control (sys_link s)) ->
  zlen (rl_outbound (sys_link s')) <= zlen (rl_outbound (sys_link s)) ->
  (rl_stop (sys_link s') = true <-> sys_fail s' <> FailIdle) ->
  (rl_done (sys_link s') = true <-> sys_fail s' = FailDone) ->
  step_ok now s s'.
Proof.
  intros [] Ht Hu Hq Hc Ho Hs Hd. unfold tableOf in Ht. injection Ht as E1 E2 E3.
  split; [| |lia|lia].
  - split; [by unfold table_wf, tableOf in *; rewrite E1, E2, E3| | |lia|lia|lia|done|done].
    + by eapply sublist_NoDup.
    + intros id Hin. rewrite E1, E3. apply so_fresh0. by eapply elem_of_sublist.
  - unfold tableOf. rewrite E1, E2, E3. by constructor.
Qed.

(** Steps that add the next identity, to the queues or not, and to the table
    or not. *)
Lemma queued_step now s s' m' f :
  sys_ok s -> counters_small s ->
  let n := rl_nextID (sys_link s) + 1 in
  tableOf s' = (n, rl_dispatchOrder (sys_link s), m') ->
  (m' = rl_pending (sys_link s) \/
   exists p, rp_DispatchOrder p = 0 /\ m' = <[n := p]> (rl_pending (sys_link s))) ->
  (f = [] \/ f = [n]) ->
  Permutation (unsent s') (f ++ unsent s) ->
  rl_queueFrames (sys_link s') = rl_queueFrames (sys_link s) ->
  zlen (rl_control (sys_link s')) <= rl_queueFrames (sys_link s) ->
  zlen (rl_outbound (sys_link s')) <= rl_queueFrames (sys_link s) ->
  (rl_stop (sys_link s') = true <-> sys_fail s' <> FailIdle) ->
  (rl_done (sys_link s') = true <-> sys_fail s' = FailDone) ->
  step_ok now s s'.
Proof.
  intros Hok Hc n Ht Hm Hf Hu Hq Hco Hou Hs Hd. pose proof (fresh_unsent _ Hok) as Hfresh.
  pose proof (sys_next_nonneg _ Hok). unfold tableOf in Ht. injection Ht as E1 E2 E3.
  assert (Hmove : move now (tableOf s) (tableOf s')).
  { unfold tableOf. rewrite E1, E2, E3. destruct Hm as [->|(p & Hp & ->)];
      constructor; unfold n; lia. }
  split; [|done|unfold n in *; lia|lia].
  split; [exact (move_wf _ _ _ Hmove (so_table _ Hok))| | |rewrite Hq; apply (so_cap _ Hok)|lia|lia|done|done].
  - rewrite Hu. destruct Hf as [->| ->]; simpl; [apply Hok|].
    constructor; [done|apply Hok].
  - intros id Hin. rewrite E1, E3. rewrite Hu in Hin.
    assert (id = n \/ id ∈ unsent s) as [->|Hin']
      by (destruct Hf as [->| ->]; [by right|by apply elem_of_cons in Hin]).
    + split; [unfold n; lia|]. intros p. destruct Hm as [->|(q & Hq' & ->)].
      * intros Hp. apply (tk_ids _ _ _ (so_table _ Hok)) in Hp. simpl in Hp. unfold n in *. lia.
      * rewrite lookup_insert_eq. by intros [= <-].
    + apply (so_fresh _ Hok) in Hin' as [Hi Hp]. split; [unfold n; lia|].
      intros p. destruct Hm as [->|(q & Hq' & ->)]; [by apply Hp|].
      rewrite lookup_insert_ne by (unfold n; lia). by apply Hp.
Qed.

Lemma room_snoc l q f : room l q = true -> zlen (q ++ [f]) <= rl_queueFrames l.
Proof. unfold room. intros H. bool_to_prop. zlia. Qed.

(** A frame appended to either lane. *)
Lemma unsent_snoc s s' f :
  sys_writer s' = sys_writer s ->
  (rl_control (sys_link s') = rl_control (sys_link s) ++ [f] /\
   rl_outbound (sys_link s') = rl_outbound (sys_link s) \/
   rl_control (sys_link s') = rl_control (sys_link s) /\
   rl_outbound (sys_link s') = rl_outbound (sys_link s) ++ [f]) ->
  Permutation (unsent s') ([wf_ID f] ++ unsent s).
Proof.
  intros Hw Hq. unfold unsent, held. rewrite Hw.
  destruct Hq as [[-> ->]|[-> ->]]; 
    rewrite !map_app, ?app_assoc; symmetry; simpl;
    [rewrite <- !app_assoc|]; simpl.
  - rewrite !app_assoc. apply Permutation_middle.
  - apply Permutation_cons_append.
Qed.

(** ** Steps keep the invariant *)

Ltac sys_fields :=
  match goal with
  | H : sys_ok _ |- _ => first
      [ exact (so_control _ H) | exact (so_outbound _ H) | exact (so_stop _ H)
      | exact (so_done _ H) | exact eq_refl | done ]
  end.

Ltac unsent_snoc :=
  eapply (unsent_snoc _ _ (requestFrame _ _ _ _ _)); [done|];
  first [left; split; reflexivity | right; split; reflexivity].

Ltac same_table :=
  eapply same_table_step; simpl;
  [done|try done|try done|try done|try done|try done|try apply so_stop|try apply so_done]; try done.

Lemma refl_step now s : sys_ok s -> step_ok now s s.
Proof. intros H. same_table. Qed.

Lemma notify_step now s method params shutdown choice s' :
  sys_ok s -> counters_small s ->
  linkStep now s (EvNotify method params shutdown choice) = Some s' -> step_ok now s s'.
Proof.
  intros Hok Hc. simpl. destruct params as [raw|e]; simpl; [|intros [= <-]; destruct s; by apply refl_step].
  rewrite (next_u64 _ Hok Hc). destruct choice; simpl.
  - destruct (room _ _) eqn:E; simpl; [|done]. intros [= <-]. apply room_snoc with (f := requestFrame (sys_link s)
      (rl_nextID (sys_link s) + 1) true method raw) in E. simpl in E.
    eapply queued_step with (f := [_]); try done; simpl; [by left|by right| |sys_fields..].
    unsent_snoc.
  - destruct (rl_stop _); simpl; [|done]. intros [= <-].
    eapply queued_step with (f := []); try done; simpl; [by left|by left|sys_fields..].
  - destruct shutdown; simpl; [|done]. intros [= <-].
    eapply queued_step with (f := []); try done; simpl; [by left|by left|sys_fields..].
Qed.

Lemma tryNotify_step now s method params preferStop :
  sys_ok s -> counters_small s ->
  step_ok now s (with_link (TryNotify method params preferStop (sys_link s)).2 s).
Proof.
  intros Hok Hc. unfold TryNotify. destruct params as [raw|e]; simpl.
  2: { by destruct s; apply refl_step. }
  rewrite (next_u64 _ Hok Hc). case_match; simpl.
  { eapply queued_step with (f := []); try done; simpl; [by left|by left|sys_fields..]. }
  case_match eqn:E; simpl.
  - apply room_snoc with (f := requestFrame (sys_link s)
      (rl_nextID (sys_link s) + 1) true method raw) in E. simpl in E.
    eapply queued_step with (f := [_]); try done; simpl; [by left|by right| |sys_fields..].
    unsent_snoc.
  - eapply queued_step with (f := []); try done; simpl; [by left|by left|sys_fields..].
Qed.

(** The outcomes of [enqueueDeadline]: refused, or answered at once, with only
    the identity spent; or stored and queued. *)
Inductive enqueued (now : time) (method : string) (waiter : bool) (l : rendererLink)
    : result Z -> rendererLink -> Prop :=
| EnqRefused e : enqueued now method waiter l (Err e) l
| EnqSpent r :
    (r = Ok 0 /\ waiter = false \/ exists e, r = Err e) ->
    enqueued now method waiter l r (set_nextID (u64 (rl_nextID l + 1)) l)
| EnqStored deadline budget raw :
    let id := u64 (rl_nextID l + 1) in
    let queue := if priorityLane method then rl_control l else rl_outbound l in
    let set_queue := if priorityLane method then set_control else set_outbound in
    room l queue = true ->
    enqueued now method waiter l (Ok id)
      (set_queue (queue ++ [requestFrame l id false method raw])
        (set_table (rl_dispatchOrder l)
          (<[id := RPending now deadline budget 0 method]> (rl_pending l))
          (if waiter then {[id]} ∪ rl_waiters l else rl_waiters l) (set_nextID id l))).

Lemma enqueueDeadline_cases now method params waiter deadline preferStop l :
  let '(r, l') := enqueueDeadline now method params waiter deadline preferStop l in
  enqueued now method waiter l r l'.
Proof.
  unfold enqueueDeadline. destruct params as [raw|e]; [|by constructor].
  cbv zeta. set (id := u64 (rl_nextID l + 1)).
  assert (Hspent : forall r, (r = Ok 0 /\ waiter = false \/ exists e, r = Err e) ->
    enqueued now method waiter l r (set_nextID id l)) by (intros; by apply EnqSpent).
  destruct (_ && negb waiter && _) eqn:Eh.
  { apply Hspent. left. split; [done|]. bool_to_prop. by destruct waiter. }
  destruct (if negb (time_is_zero deadline) && _ then _ else _) as [dl budget].
  destruct (rl_stop _ && _); [apply Hspent; eauto|].
  destruct (room _ _) eqn:E; [|apply Hspent; eauto].
  pose proof (EnqStored now method waiter l dl budget raw) as Hs. cbv zeta in Hs.
  fold id in Hs. destruct (priorityLane method); apply Hs, E.
Qed.

Lemma call_step now s method params waiter deadline preferStop s' :
  sys_ok s -> counters_small s ->
  linkStep now s (EvCall method params waiter deadline preferStop) = Some s' -> step_ok now s s'.
Proof.
  intros Hok Hc. simpl.
  pose proof (enqueueDeadline_cases now method params waiter deadline preferStop (sys_link s)) as He.
  destruct (enqueueDeadline _ _ _ _ _ _ _) as [r l'].
  assert (Hs : forall x, step_ok now s (with_link l' s) ->
    step_ok now s (if waiter then with_call x (with_link l' s) else with_link l' s)).
  { intros x [[]]. destruct waiter; [|done]. by split; [split|..]. }
  intros Hs'. assert (step_ok now s (with_link l' s)) as Hl;
    [|destruct r; injection Hs' as <-; [by apply Hs|done]].
  clear Hs Hs'. destruct He as [e|r Hr|dl budget raw id queue set_queue Hroom].
  - destruct s. by apply refl_step.
  - rewrite (next_u64 _ Hok Hc).
    eapply queued_step with (f := []); try done; simpl; [by left|by left|sys_fields..].
  - unfold id, queue, set_queue in *. clear id queue set_queue. rewrite (next_u64 _ Hok Hc) in *.
    apply room_snoc with (f := requestFrame (sys_link s)
      (rl_nextID (sys_link s) + 1) false method raw) in Hroom.
    destruct (priorityLane method).
    all: eapply queued_step with (f := [_]); try done; simpl; [right|by right| |sys_fields..].
    all: try (by eexists; split; [|done]).
    + unsent_snoc.
    + unsent_snoc.
Qed.

(** Marking: the frame the writer holds leaves the unsent frames. *)
Lemma mark_step now s s' :
  sys_ok s -> counters_small s -> writerMark now s = Some s' -> step_ok now s s'.
Proof.
  intros Hok [_ Hc]. unfold writerMark.
  destruct (sys_writer s) as [| |frame| |] eqn:Ew; try done. intros [= <-].
  assert (Hun : unsent s = wf_ID frame ::
            map wf_ID (rl_control (sys_link s) ++ rl_outbound (sys_link s)))
    by (unfold unsent, held; by rewrite Ew).
  pose proof (sys_order_nonneg _ Hok) as Ho.
  unfold markDispatched. destruct (rl_pending (sys_link s) !! wf_ID frame) as [p|] eqn:Ep.
  2: { eapply same_table_step; simpl; [done|done| |done|lia|lia|sys_fields..].
       rewrite Hun. unfold unsent, held. simpl. by apply sublist_cons. }
  assert (rp_DispatchOrder p = 0) as Hp0.
  { apply (so_fresh _ Hok (wf_ID frame)); [rewrite Hun; by left|done]. }
  rewrite u64_small by lia.
  set (s' := with_writer _ _).
  assert (tableOf s' = (rl_nextID (sys_link s), rl_dispatchOrder (sys_link s) + 1,
    <[wf_ID frame := marked now (rl_dispatchOrder (sys_link s) + 1)
        (rl_pending (sys_link s)) p]> (rl_pending (sys_link s)))) as Ht by done.
  assert (Hmove : move now (tableOf s) (tableOf s')) by (rewrite Ht; by constructor).
  split; [|done|simpl; lia|simpl; lia].
  pose proof (so_unsent _ Hok) as Hnd. rewrite Hun in Hnd. apply NoDup_cons in Hnd as [Hni Hnd].
  split; [exact (move_wf _ _ _ Hmove (so_table _ Hok))|exact Hnd| |apply (so_cap _ Hok)|sys_fields..].
  intros id Hin. change (unsent s') with
    (map wf_ID (rl_control (sys_link s) ++ rl_outbound (sys_link s))) in Hin.
  destruct (so_fresh _ Hok id) as [Hi Hp]; [rewrite Hun; by right|]. split; [done|].
  intros q Hq. apply (Hp q). cbn in Hq. rewrite lookup_insert_ne in Hq; [done|congruence].
Qed.

Lemma poll_step now s s' : sys_ok s -> writerPoll s = Some s' -> step_ok now s s'.
Proof.
  intros Hok. unfold writerPoll. destruct (sys_writer s) eqn:Ew; try done.
  destruct (rl_control (sys_link s)) as [|f rest] eqn:Eq; intros [= <-];
    (eapply same_table_step; simpl;
      [done|done| |done|rewrite ?Eq; zlia|done|sys_fields..]).
  - unfold unsent, held. simpl. by rewrite Ew.
  - unfold unsent, held. simpl. by rewrite Ew, Eq.
Qed.

Lemma take_step now s case s' : sys_ok s -> writerTake case s = Some s' -> step_ok now s s'.
Proof.
  intros Hok. unfold writerTake. destruct (sys_writer s) eqn:Ew; try done. destruct case.
  - destruct (rl_control (sys_link s)) as [|f rest] eqn:Eq; intros [= <-].
    eapply same_table_step; simpl; [done|done| |done|rewrite ?Eq; zlia|done|sys_fields..].
    unfold unsent, held. simpl. by rewrite Ew, Eq.
  - destruct (rl_outbound (sys_link s)) as [|f rest] eqn:Eq; intros [= <-].
    (* the taken frame moves to the front: the invariant is up to order *)
    assert (Hp : Permutation (f :: rl_control (sys_link s) ++ rest)
                   (rl_control (sys_link s) ++ f :: rest)) by apply Permutation_middle.
    set (s1 := with_writer _ _).
    assert (Permutation (unsent s1) (unsent s)) as Hu.
    { unfold unsent, held, s1. simpl. rewrite Ew, Eq. simpl. by rewrite <- Hp. }
    pose proof (so_outbound _ Hok) as Hout. rewrite Eq in Hout.
    split; [|by apply (MNext now (rl_nextID (sys_link s)))|simpl; lia|simpl; lia].
    split; [apply (so_table _ Hok)| | |apply (so_cap _ Hok)|sys_fields|simpl; zlia|sys_fields..].
    + rewrite Hu. apply (so_unsent _ Hok).
    + intros id Hin. rewrite Hu in Hin. by apply (so_fresh _ Hok).
  - destruct (rl_stop (sys_link s)) eqn:Es; intros [= <-].
    eapply same_table_step; simpl; [done|done| |done|done|done|sys_fields..].
    unfold unsent, held. simpl. by rewrite Ew.
Qed.

(** The first step of [Fail]. *)
Lemma failLink_step now e s : sys_ok s -> step_ok now s (failLink e s).
Proof.
  intros Hok. unfold failLink. destruct (sys_fail s) eqn:Ef; try by apply refl_step.
  eapply same_table_step; simpl; [done|done|done|done|done|done|done|].
  pose proof (so_done _ Hok) as Hd. rewrite Ef in Hd. rewrite Hd. split; discriminate.
Qed.

(** A change of the goroutines and the records alone. *)
Lemma outside_step now s s' :
  sys_ok s -> sys_link s' = sys_link s -> sys_fail s' = sys_fail s ->
  sublist (held s') (held s) -> step_ok now s s'.
Proof.
  intros Hok El Ef Hh.
  eapply same_table_step; rewrite ?El, ?Ef; [done|unfold tableOf; by rewrite El| |done|done|done|sys_fields..].
  unfold unsent. rewrite El. rewrite !map_app. apply sublist_app; [|done].
  by apply (fmap_sublist wf_ID).
Qed.

Lemma step_trans_outside now s s1 s2 :
  step_ok now s s1 -> sys_link s2 = sys_link s1 -> sys_fail s2 = sys_fail s1 ->
  sublist (held s2) (held s1) -> step_ok now s s2.
Proof.
  intros [Hok Hm Hn Ho] El Ef Hh.
  destruct (outside_step now s1 s2 Hok El Ef Hh) as [Hok2 _ _ _].
  split; [done| |by rewrite El|by rewrite El].
  unfold tableOf in *. by rewrite El.
Qed.

Lemma write_step now s failed s' : sys_ok s -> writerWrite failed s = Some s' -> step_ok now s s'.
Proof.
  intros Hok. unfold writerWrite. destruct (sys_writer s) as [| | |f|] eqn:Ew; try done.
  destruct failed as [e|]; intros [= <-].
  - apply failLink_step with (now := now) (e := e) in Hok as Hf.
    eapply step_trans_outside; [exact Hf|..]; unfold failLink; simpl; destruct (sys_fail s); try done;
      unfold held; simpl; by apply sublist_nil_l.
  - apply outside_step; try done. unfold held. simpl. apply sublist_nil_l.
Qed.

Lemma completed_orders now n o m id i q :
  table_ok n o m -> completed now id m !! i = Some q ->
  exists p, m !! i = Some p /\ rp_DispatchOrder q = rp_DispatchOrder p.
Proof.
  intros Hok. assert (Hdel : forall q, delete id m !! i = Some q ->
    exists p, m !! i = Some p /\ rp_DispatchOrder q = rp_DispatchOrder p).
  { intros r [_ Hr]%lookup_delete_Some. eauto. }
  unfold completed. case_match; [|auto].
  destruct (active_cases _ _ _ (table_delete _ _ _ id Hok)) as [[-> _]|(j & r & -> & Hj & Hr & _)];
    simpl; [auto|].
  case_match; [|auto]. intros [[<- <-]|[_ Hq]]%lookup_insert_Some; [|auto].
  apply Hdel in Hr as (p & Hp & Ho). eauto.
Qed.

Lemma complete_step now s id :
  sys_ok s ->
  step_ok now s (with_link (detachWaiter id (completePendingLocked now id (sys_link s)).2) s).
Proof.
  intros Hok. set (s' := with_link _ _).
  assert (Ht : tableOf s' = (rl_nextID (sys_link s), rl_dispatchOrder (sys_link s),
                             completed now id (rl_pending (sys_link s)))) by done.
  assert (Hmove : move now (tableOf s) (tableOf s')) by (rewrite Ht; constructor).
  split; [|done|simpl; lia|simpl; lia].
  split; [exact (move_wf _ _ _ Hmove (so_table _ Hok))|apply (so_unsent _ Hok)| |
    apply (so_cap _ Hok)|sys_fields..].
  intros i Hin. destruct (so_fresh _ Hok i Hin) as [Hi Hp]. split; [done|].
  intros q Hq. change (completed now id (rl_pending (sys_link s)) !! i = Some q) in Hq.
  apply (completed_orders _ _ _ _ _ _ _ (so_table _ Hok)) in Hq as (p & Hq & ->). by apply Hp.
Qed.

Lemma read_step now s frame s' : sys_ok s -> readerRead now frame s = Some s' -> step_ok now s s'.
Proof.
  intros Hok. unfold readerRead. destruct (sys_reader s) eqn:Er; try done.
  case_match; [intros [= <-]; by apply refl_step|].
  case_match; [|intros [= <-]; by apply outside_step].
  intros Hs. eapply step_trans_outside; [by apply (complete_step now s (wf_ID frame))|..];
    destruct (completePendingLocked _ _ _) as [p l]; injection Hs as <-; done.
Qed.

Lemma readerNext_step now s s' : sys_ok s -> readerNext s = Some s' -> step_ok now s s'.
Proof.
  intros Hok. unfold readerNext. destruct (sys_reader s) as [|f w|e|] eqn:Er; try done; intros [= <-].
  - destruct w; by apply outside_step.
  - eapply step_trans_outside; [by apply (failLink_step now e s)|..]; unfold failLink; simpl;
      destruct (sys_fail s); done.
Qed.

Lemma failNext_step now s s' : sys_ok s -> failNext s = Some s' -> step_ok now s s'.
Proof.
  intros Hok. pose proof (so_stop _ Hok) as Hs. unfold failNext.
  destruct (sys_fail s) as [|e| |] eqn:Ef; try done; intros [= <-].
  - split; [|apply MClear|simpl; lia|simpl; lia].
    split; simpl; [|apply (so_unsent _ Hok)| |apply (so_cap _ Hok)|sys_fields|sys_fields| |].
    + exact (table_empty _ _ (sys_next_nonneg _ Hok) (sys_order_nonneg _ Hok)).
    + intros id Hin. destruct (so_fresh _ Hok id Hin) as [Hi _]. split; [done|].
      intros p. by rewrite lookup_empty.
    + rewrite Hs. split; discriminate.
    + rewrite (so_done _ Hok), Ef. split; discriminate.
  - eapply same_table_step; simpl; [done|done|done|done|done|done| |done].
    rewrite Hs. split; discriminate.
Qed.

Lemma linkStep_ok now s ev s' :
  sys_ok s -> counters_small s -> linkStep now s ev = Some s' -> step_ok now s s'.
Proof.
  intros Hok Hc Hs. destruct ev; simpl in Hs.
  - by eapply notify_step.
  - injection Hs as <-. by apply tryNotify_step.
  - by eapply call_step.
  - case_match; [|done]. injection Hs as <-. by apply same_table_step; try sys_fields.
  - by apply poll_step.
  - by eapply take_step.
  - by apply mark_step.
  - by eapply write_step.
  - by eapply read_step.
  - destruct (sys_reader s); try done. injection Hs as <-.
    eapply step_trans_outside; [by apply (failLink_step now e s)|..]; unfold failLink; simpl;
      destruct (sys_fail s); done.
  - by eapply readerNext_step.
  - injection Hs as <-. by apply failLink_step.
  - by apply failNext_step.
Qed.

(** ** Runs *)

Lemma newSystem_ok ct qf gen : 0 < qf -> sys_ok (newSystem ct qf gen).
Proof.
  intros Hq. split; simpl; [by apply table_empty|apply NoDup_nil_2| |done|unfold zlen; simpl; lia..|done|done].
  intros id Hin. by apply not_elem_of_nil in Hin.
Qed.

Definition short (s : linkSystem) (n : Z) : Prop :=
  rl_nextID (sys_link s) + n < two64 /\ rl_dispatchOrder (sys_link s) + n < two64.

Lemma linkNext_ok s e : sys_ok s -> counters_small s -> step_ok e.1 s (linkNext s e).
Proof.
  intros Hok Hc. unfold linkNext. destruct (linkStep e.1 s e.2) eqn:E; simpl.
  - by eapply linkStep_ok.
  - by apply refl_step.
Qed.

(** An assertion that holds at the start and survives every step of a run. *)
Lemma linkRun_ind (P : linkSystem -> Prop) es : forall s,
  sys_ok s -> short s (1 + zlen es) -> P s ->
  (forall s e, sys_ok s -> counters_small s -> P s -> P (linkNext s e)) ->
  P (linkRun s es) /\ sys_ok (linkRun s es) /\
  rl_nextID (sys_link (linkRun s es)) <= rl_nextID (sys_link s) + zlen es /\
  rl_dispatchOrder (sys_link (linkRun s es)) <= rl_dispatchOrder (sys_link s) + zlen es.
Proof.
  induction es as [|e es IH]; intros s Hok Hsh HP Hstep; simpl.
  { rewrite zlen_nil. split_and!; [done|done|lia|lia]. }
  destruct Hsh as [Hn Ho]. rewrite zlen_cons in *. pose proof (zlen_nonneg es).
  assert (Hc : counters_small s) by (split; lia).
  pose proof (linkNext_ok s e Hok Hc) as [Hok' _ Hn' Ho'].
  destruct (IH (linkNext s e)) as (H1 & H2 & H3 & H4);
    [done|split; lia|by apply Hstep|done|].
  split_and!; [done|done|lia|lia].
Qed.

Lemma newSystem_run ct qf gen es :
  0 < qf -> 1 + zlen es < two64 ->
  let s := linkRun (newSystem ct qf gen) es in
  sys_ok s /\ rl_nextID (sys_link s) <= zlen es /\ rl_dispatchOrder (sys_link s) <= zlen es.
Proof.
  intros Hq Hl. destruct (linkRun_ind (fun _ => True) es (newSystem ct qf gen))
    as (_ & H1 & H2 & H3); [by apply newSystem_ok|split; simpl; lia|done|done|].
  done.
Qed.

(** From the step on that made the request active it stays so until it leaves
    the table for good. *)
Lemma stays_active es s id p :
  sys_ok s -> short s (1 + zlen es) -> isActive (tableOf s).2 id p ->
  is_Some (rl_pending (sys_link (linkRun s es)) !! id) ->
  isActive (rl_pending (sys_link (linkRun s es))) id p.
Proof.
  intros Hok Hsh Ha [q Hq].
  destruct (linkRun_ind (fun s => isActive (tableOf s).2 id p \/
    ((tableOf s).2 !! id = None /\ id <= (tableOf s).1.1)) es s) as ([Ha'|[Hn _]] & _);
    [done|done|by left| |exact Ha'|cbn in Hn; congruence].
  intros s' e Hok' Hc [Ha'|[Hn Hle]]; destruct (linkNext_ok s' e Hok' Hc) as [_ Hm _ _].
  - by eapply move_keeps; [|apply (so_table _ Hok')|].
  - right. by eapply move_gone; [|apply (so_table _ Hok')| |].
Qed.

Lemma health_active n o t timeout l id p :
  table_ok n o (rl_pending l) -> 0 < id -> isActive (rl_pending l) id p ->
  HealthError t timeout l =
    if t <? rp_Deadline p then []
    else [EFormat ("renderer " +:+ rp_Method p +:+ " request %d exceeded execution budget %s")
            [id; rp_Budget p]].
Proof.
  intros Hok Hid Ha. unfold HealthError. rewrite (active_eq _ _ _ _ _ Hok Ha).
  by rewrite (proj2 (Z.eqb_neq id 0)) by lia.
Qed.

(** C9: a request has exactly its execution budget, counted from the moment the
    worker could start it.  In every interleaving of callers, writer, reader
    and worker, let a step make a request the active one (by dispatching it to
    an idle worker, or by taking the answer of the request before it).  From
    then on, as long as it is unanswered, the health check reports that request
    and no other, from the end of its budget on and never before: neither
    requests queued meanwhile, nor health probes, nor detached callers move the
    deadline. *)
Theorem execution_budget ct qf gen es0 e es id p t timeout :
  0 < qf -> zlen es0 + zlen es + 3 < two64 ->
  let s0 := linkRun (newSystem ct qf gen) es0 in
  let s1 := linkNext s0 e in
  let s2 := linkRun s1 es in
  (activePendingLocked (rl_pending (sys_link s0))).1 <> id -> id <> 0 ->
  activePendingLocked (rl_pending (sys_link s1)) = (id, p) ->
  is_Some (rl_pending (sys_link s2) !! id) ->
  HealthError t timeout (sys_link s2) =
    if t <? e.1 + rp_Budget p then []
    else [EFormat ("renderer " +:+ rp_Method p +:+ " request %d exceeded execution budget %s")
            [id; rp_Budget p]].
Proof.
  intros Hq Hl s0 s1 s2 Hne Hid Ha Hs.
  pose proof (zlen_nonneg es0). pose proof (zlen_nonneg es).
  destruct (newSystem_run ct qf gen es0) as (Hok0 & Hn0 & Ho0); [done|lia|]. fold s0 in Hok0, Hn0, Ho0.
  destruct (linkNext_ok s0 e) as [Hok1 Hm Hn1 Ho1]; [done|split; lia|].
  fold s1 in Hok1, Hm, Hn1, Ho1.
  destruct (active_id _ _ _ id (so_table _ Hok1) Hid) as [p' Hp'];
    [simpl; by rewrite Ha|]. simpl in Hp'.
  pose proof (active_eq _ _ _ _ _ (so_table _ Hok1) Hp') as E. simpl in E.
  rewrite Ha in E. injection E as <-.
  rewrite <- (move_activates _ _ _ id p Hm (so_table _ Hok0)).
  - assert (0 < id) as Hpos by (apply (tk_ids _ _ _ (so_table _ Hok1) id p), Hp').
    destruct (linkRun_ind (fun _ => True) es s1) as (_ & Hok2 & _); [done|split; lia|done|done|].
    eapply health_active; [exact (so_table _ Hok2)|done|].
    apply (stays_active es s1 id p); [done|split; lia|done|done].
  - intros q Hq'. apply Hne.
    pose proof (active_eq _ _ _ _ _ (so_table _ Hok0) Hq') as E. cbn in E. by rewrite E.
  - done.
Qed.

(** ** Callers *)

Record calls_ok (s : linkSystem) : Prop := {
  ca_ids : forall id, id ∈ sys_calls s -> 0 < id <= rl_nextID (sys_link s);
  ca_waiters : forall id, id ∈ rl_waiters (sys_link s) ->
    id ∈ sys_calls s /\ is_Some (rl_pending (sys_link s) !! id);
  ca_once : NoDup ((sys_outcomes s).*1);
  ca_outcomes : forall id, id ∈ ((sys_outcomes s).*1) ->
    id ∈ sys_calls s /\ id ∉ rl_waiters (sys_link s);
  ca_reader : forall f, sys_reader s = RFrame f true ->
    wf_ID f ∈ sys_calls s /\ (wf_ID f ∉ rl_waiters (sys_link s)) /\
    (wf_ID f ∉ (sys_outcomes s).*1);
  ca_cover : forall id, id ∈ sys_calls s -> id ∉ sys_detached s ->
    id ∈ rl_waiters (sys_link s) \/ id ∈ ((sys_outcomes s).*1) \/
    (exists f, sys_reader s = RFrame f true /\ wf_ID f = id) \/
    (exists e, sys_reader s = RFail e) \/ sys_fail s <> FailIdle;
}.

(** Steps that leave the callers' records alone. *)
Lemma calls_same s s' :
  calls_ok s -> sys_calls s' = sys_calls s -> sys_outcomes s' = sys_outcomes s ->
  sys_detached s' = sys_detached s ->
  rl_waiters (sys_link s') = rl_waiters (sys_link s) ->
  (forall id, is_Some (rl_pending (sys_link s) !! id) -> is_Some (rl_pending (sys_link s') !! id)) ->
  rl_nextID (sys_link s) <= rl_nextID (sys_link s') ->
  (sys_fail s <> FailIdle -> sys_fail s' <> FailIdle) ->
  (sys_reader s' = sys_reader s \/
   (forall f, sys_reader s' <> RFrame f true) /\ (forall f, sys_reader s <> RFrame f true) /\
   ((exists e, sys_reader s = RFail e) -> sys_fail s' <> FailIdle)) ->
  calls_ok s'.
Proof.
  intros [] Ec Eo Ed Ew Hp Hn Hf Hr.
  split; rewrite ?Ec, ?Eo, ?Ed, ?Ew; [|naive_solver|done|done| |].
  - intros id Hid. apply ca_ids0 in Hid. lia.
  - intros f Hrf. destruct Hr as [Hr|[Hr _]]; [rewrite Hr in Hrf; auto|by apply Hr in Hrf].
  - intros id Hid Hnd. destruct (ca_cover0 id Hid Hnd) as [?|[?|[(f & Hrf & <-)|[(e & He)|?]]]];
      [by left|by right; left| | |do 4 right; auto].
    + destruct Hr as [->|(_ & Hr & _)]; [eauto 6|]. by apply Hr in Hrf.
    + destruct Hr as [->|(_ & _ & Hr)]; [eauto 6|]. do 4 right. eauto.
Qed.

Lemma failLink_calls e s : calls_ok s -> calls_ok (failLink e s).
Proof.
  intros H. unfold failLink. destruct (sys_fail s) eqn:Ef; try done.
  eapply calls_same; simpl; try done; [by left].
Qed.

Lemma call_calls now s method params waiter deadline preferStop s' :
  sys_ok s -> counters_small s -> calls_ok s ->
  linkStep now s (EvCall method params waiter deadline preferStop) = Some s' -> calls_ok s'.
Proof.
  intros Hok Hc Hca. simpl.
  pose proof (enqueueDeadline_cases now method params waiter deadline preferStop (sys_link s)) as He.
  destruct (enqueueDeadline _ _ _ _ _ _ _) as [r l'].
  pose proof (next_u64 _ Hok Hc) as Hu.
  destruct He as [e|r Hr|dl budget raw id queue set_queue Hroom].
  - intros [= <-]. by destruct s.
  - assert (calls_ok (with_link (set_nextID (u64 (rl_nextID (sys_link s) + 1)) (sys_link s)) s)).
    { eapply calls_same; simpl; try done; [lia|by left]. }
    destruct Hr as [[-> ->]|[e ->]]; by intros [= <-].
  - assert (Hids : forall x, x ∈ sys_calls s -> x <> id).
    { intros x Hx. apply (ca_ids _ Hca) in Hx. unfold id. lia. }
    assert (Hpend : forall x, is_Some (rl_pending (sys_link s) !! x) \/ x = id ->
      is_Some (<[id:=RPending now dl budget 0 method]> (rl_pending (sys_link s)) !! x)).
    { intros x Hx. rewrite lookup_insert_is_Some'. naive_solver. }
    intros Hs. destruct waiter; injection Hs as <-.
    2: { destruct Hca; split; unfold set_queue; destruct (priorityLane method); simpl; try done.
         all: try (intros x Hx; apply ca_ids0 in Hx; unfold id; lia).
         all: intros x Hx; destruct (ca_waiters0 x Hx); split; [done|]; apply Hpend; by left. }
    assert (E1 : rl_waiters (set_queue (queue ++ [requestFrame (sys_link s) id false method raw])
        (set_table (rl_dispatchOrder (sys_link s))
          (<[id := RPending now dl budget 0 method]> (rl_pending (sys_link s)))
          ({[id]} ∪ rl_waiters (sys_link s)) (set_nextID id (sys_link s))))
        = {[id]} ∪ rl_waiters (sys_link s)) by (unfold set_queue; by destruct (priorityLane method)).
    assert (E2 : rl_pending (set_queue (queue ++ [requestFrame (sys_link s) id false method raw])
        (set_table (rl_dispatchOrder (sys_link s))
          (<[id := RPending now dl budget 0 method]> (rl_pending (sys_link s)))
          ({[id]} ∪ rl_waiters (sys_link s)) (set_nextID id (sys_link s))))
        = <[id := RPending now dl budget 0 method]> (rl_pending (sys_link s)))
      by (unfold set_queue; by destruct (priorityLane method)).
    assert (E3 : rl_nextID (set_queue (queue ++ [requestFrame (sys_link s) id false method raw])
        (set_table (rl_dispatchOrder (sys_link s))
          (<[id := RPending now dl budget 0 method]> (rl_pending (sys_link s)))
          ({[id]} ∪ rl_waiters (sys_link s)) (set_nextID id (sys_link s)))) = id)
      by (unfold set_queue; by destruct (priorityLane method)).
    pose proof (sys_next_nonneg _ Hok).
    destruct Hca; split; cbn [sys_link sys_calls sys_outcomes sys_detached sys_reader sys_fail
      with_call with_link]; rewrite ?E1, ?E2, ?E3.
    + intros x [->|Hx]%elem_of_cons; [unfold id; lia|]. apply ca_ids0 in Hx. unfold id. lia.
    + intros x [->%elem_of_singleton|Hx]%elem_of_union; (split; [|apply Hpend]).
      * by left.
      * by right.
      * right. by apply ca_waiters0.
      * left. by apply ca_waiters0.
    + done.
    + intros x Hx. apply ca_outcomes0 in Hx as [Hx Hw]. split; [by right|].
      apply Hids in Hx. set_solver.
    + intros f Hf. apply ca_reader0 in Hf as (Hx & Hw & Ho). split; [by right|].
      apply Hids in Hx. split; [set_solver|done].
    + intros x [->|Hx]%elem_of_cons Hd; [left; set_solver|].
      destruct (ca_cover0 x Hx Hd) as [?|?]; [left; set_solver|by right].
Qed.

Lemma completed_dom now n o m id i :
  table_ok n o m -> is_Some (completed now id m !! i) <-> i <> id /\ is_Some (m !! i).
Proof.
  intros Hok. assert (Hd : is_Some (delete id m !! i) <-> i <> id /\ is_Some (m !! i)).
  { rewrite lookup_delete_is_Some. naive_solver. }
  unfold completed. case_match; [|done].
  destruct (active_cases _ _ _ (table_delete _ _ _ id Hok)) as [[-> _]|(j & r & -> & Hj & Hr & _)];
    simpl; [done|].
  case_match; [|done]. rewrite lookup_insert_is_Some', Hd. split; [|naive_solver].
  intros [<-|?]; [|done]. apply Hd. eauto.
Qed.

Lemma read_calls now s frame s' :
  sys_ok s -> calls_ok s -> readerRead now frame s = Some s' -> calls_ok s'.
Proof.
  intros Hok Hca. unfold readerRead. destruct (sys_reader s) eqn:Er; try done.
  case_match; [by intros [= <-]|].
  case_match; [|intros [= <-]; eapply calls_same; simpl; try done; right; rewrite Er; naive_solver].
  set (id := wf_ID frame) in *.
  assert (Ec : (completePendingLocked now id (sys_link s)).2 =
    set_table (rl_dispatchOrder (sys_link s)) (completed now id (rl_pending (sys_link s)))
      (rl_waiters (sys_link s)) (sys_link s)) by done.
  destruct (completePendingLocked now id (sys_link s)) as [pd l] eqn:El. simpl in Ec. subst l.
  match goal with |- Some (with_reader ?n _) = _ -> _ => set (next := n) end. intros [= <-].
  assert (Hnext : (exists e, next = RFail e) \/
    next = RFrame frame (bool_decide (id ∈ rl_waiters (sys_link s))))
    by (unfold next; case_match; eauto).
  destruct Hca; split; simpl; try done.
  - intros x [Hx Hne]%elem_of_difference. destruct (ca_waiters0 x Hx). split; [done|].
    apply (completed_dom _ _ _ _ _ _ (so_table _ Hok)). split; [set_solver|done].
  - intros x Hx. apply ca_outcomes0 in Hx as [? ?]. split; [done|set_solver].
  - intros f Hf. destruct Hnext as [[e He]|He]; [congruence|]. rewrite He in Hf.
    injection Hf as <- Hb. bool_to_prop. split; [by apply ca_waiters0|]. split; [set_solver|].
    intros Ho. by apply ca_outcomes0 in Ho as [_ ?].
  - intros x Hx Hd. destruct (ca_cover0 x Hx Hd) as [Hw|[?|[(f & Hf & _)|[(e & He)|?]]]].
    + destruct (decide (x = id)) as [->|Hne]; [|left; set_solver]. right. right.
      destruct Hnext as [He|He]; [by right; left|]. left. exists frame. split; [|done].
      by rewrite He, bool_decide_eq_true_2.
    + by right; left.
    + congruence.
    + congruence.
    + by do 4 right.
Qed.

Lemma readerNext_calls s s' : calls_ok s -> readerNext s = Some s' -> calls_ok s'.
Proof.
  intros Hca. unfold readerNext. destruct (sys_reader s) as [|f w|e|] eqn:Er; try done; intros [= <-].
  - destruct w.
    + destruct (ca_reader _ Hca f Er) as (Hc & Hw & Ho).
      destruct Hca; split; simpl; try done.
      * by constructor.
      * intros x [->|Hx]%elem_of_cons; [done|auto].
      * intros x Hx Hd. destruct (ca_cover0 x Hx Hd) as [?|[?|[(g & Hg & <-)|[(e & He)|?]]]].
        -- by left.
        -- right; left. by right.
        -- right; left. rewrite Er in Hg. injection Hg as <-. by left.
        -- congruence.
        -- by do 4 right.
    + eapply calls_same; simpl; try done. right. rewrite Er. naive_solver.
  - assert (sys_fail (failLink e (with_reader RExit s)) <> FailIdle) as Hf.
    { unfold failLink. simpl. by destruct (sys_fail s) eqn:Ef; simpl; rewrite ?Ef. }
    eapply calls_same; [exact Hca|..]; try done; unfold failLink; simpl;
      try (destruct (sys_fail s); done).
    right. destruct (sys_fail s) eqn:Ef; simpl; rewrite Er, ?Ef; done.
Qed.

Lemma failNext_calls s s' : sys_ok s -> calls_ok s -> failNext s = Some s' -> calls_ok s'.
Proof.
  intros Hok Hca. unfold failNext. destruct (sys_fail s) as [|e| |] eqn:Ef; try done; intros [= <-].
  - assert (Hfst : (map (fun id : Z => (id, CallOutcome [] (Some e)))
      (elements (rl_waiters (sys_link s)))).*1 = elements (rl_waiters (sys_link s))).
    { rewrite <- list_fmap_compose. apply list_fmap_id. }
    destruct Hca; split; simpl; rewrite ?fmap_app, ?Hfst.
    + done.
    + intros x Hx. by apply not_elem_of_empty in Hx.
    + apply NoDup_app. split; [apply NoDup_elements|]. split; [|done].
      intros x Hx%elem_of_elements Ho. by apply ca_outcomes0 in Ho as [_ ?].
    + intros x [Hx%elem_of_elements|Hx]%elem_of_app; (split; [|apply not_elem_of_empty]).
      * by apply ca_waiters0.
      * by apply ca_outcomes0.
    + intros f Hf. destruct (ca_reader0 f Hf) as (? & ? & ?). split; [done|].
      split; [apply not_elem_of_empty|]. rewrite elem_of_app, elem_of_elements. tauto.
    + intros x Hx Hd. by do 4 right.
  - eapply calls_same; simpl; try done. by left.
Qed.

Lemma linkNext_calls s e :
  sys_ok s -> counters_small s -> calls_ok s -> calls_ok (linkNext s e).
Proof.
  intros Hok Hc Hca. unfold linkNext. destruct (linkStep e.1 s e.2) as [s'|] eqn:Hs; [|done].
  simpl. pose proof (next_u64 _ Hok Hc) as Hu.
  destruct e as [now ev]; simpl in Hs. destruct ev; simpl in Hs.
  - destruct params as [raw|err]; simpl in Hs; [|by injection Hs as <-; destruct s].
    destruct choice; simpl in Hs;
      [destruct (room _ _)|destruct (rl_stop _)|destruct shutdown]; simpl in Hs; try done;
      injection Hs as <-.
    all: eapply calls_same; simpl; try done; [lia|by left].
  - injection Hs as <-. unfold TryNotify. destruct params as [raw|err]; simpl; [|by destruct s].
    repeat case_match; simpl; eapply calls_same; simpl; try done; solve [lia|by left].
  - by eapply call_calls.
  - case_match; [|done]. injection Hs as <-. bool_to_prop. destruct Hca; split; simpl; try done.
    + set_solver.
    + intros x Hx. apply ca_outcomes0 in Hx as [? ?]. split; [done|set_solver].
    + intros f Hf. destruct (ca_reader0 f Hf) as (? & ? & ?). split; [done|]. split; [set_solver|done].
    + intros x Hx Hd. destruct (ca_cover0 x Hx) as [?|?]; [set_solver|left; set_solver|by right].
  - unfold writerPoll in Hs. destruct (sys_writer s); try done.
    destruct (rl_control (sys_link s)); try done; injection Hs as <-; eapply calls_same; simpl; try done; by left.
  - unfold writerTake in Hs. destruct (sys_writer s); try done. destruct case.
    + destruct (rl_control (sys_link s)); try done; injection Hs as <-; eapply calls_same; simpl; try done; by left.
    + destruct (rl_outbound (sys_link s)); try done; injection Hs as <-; eapply calls_same; simpl; try done; by left.
    + destruct (rl_stop (sys_link s)); try done; injection Hs as <-; eapply calls_same; simpl; try done; by left.
  - unfold writerMark in Hs. destruct (sys_writer s) as [| |f| |]; try done. injection Hs as <-.
    unfold markDispatched. destruct (rl_pending (sys_link s) !! wf_ID f) eqn:Ep;
      eapply calls_same; simpl; try done; try (by left).
    intros x Hx. rewrite lookup_insert_is_Some'. by right.
  - unfold writerWrite in Hs. destruct (sys_writer s) as [| | |f|]; try done.
    destruct failed; injection Hs as <-; [apply failLink_calls|]; eapply calls_same; simpl; try done; by left.
  - by eapply read_calls.
  - destruct (sys_reader s) eqn:Er; try done. injection Hs as <-. apply failLink_calls.
    eapply calls_same; simpl; try done. right. rewrite Er. naive_solver.
  - by eapply readerNext_calls.
  - injection Hs as <-. by apply failLink_calls.
  - by eapply failNext_calls.
Qed.

(** What the reader and [Fail] do on their own, whatever the other goroutines
    and the worker do: the reader hands over what it holds, [Fail] finishes. *)
Definition settle (s : linkSystem) : linkSystem :=
  linkRun s [(0, EvReaderNext); (0, EvFailNext); (0, EvFailNext)].

(** [CallResult]'s select has a ready case besides the caller's own deadline. *)
Definition answered (s : linkSystem) (id : Z) : Prop :=
  id ∈ ((sys_outcomes s).*1) \/ rl_done (sys_link s) = true.

(** What a move makes of one entry: a request that is not dispatched keeps its
    entry until it is dispatched; once dispatched it stays so until it leaves the
    table for good. *)
Definition entry_later (p : rendererPending) (id : Z) (t : table) : Prop :=
  t.2 !! id = Some p \/
  (exists q, t.2 !! id = Some q /\ rp_DispatchOrder q <> 0) \/
  (t.2 !! id = None /\ id <= t.1.1).

Lemma completed_entry now n o m id i p :
  table_ok n o m -> m !! i = Some p -> i <> id ->
  completed now id m !! i = Some p \/
  rp_DispatchOrder p <> 0 /\ exists q, completed now id m !! i = Some q /\ rp_DispatchOrder q <> 0.
Proof.
  intros Hok Hp Hne. assert (Hd : delete id m !! i = Some p) by (by rewrite lookup_delete_ne).
  unfold completed. case_match; [|by left].
  destruct (active_cases _ _ _ (table_delete _ _ _ id Hok)) as [[-> _]|(j & r & -> & Hj & Hr)];
    simpl; [by left|]. case_match; [|by left]. destruct (decide (j = i)) as [->|Hji].
  - destruct Hr as (Hr & Ho & _). replace r with p in * by congruence. right. split; [done|].
    eexists. by rewrite lookup_insert_eq.
  - left. by rewrite lookup_insert_ne.
Qed.

Lemma move_entry now t t' id p :
  rp_DispatchOrder p = 0 -> move now t t' -> table_wf t -> entry_later p id t -> entry_later p id t'.
Proof.
  unfold table_wf, entry_later. intros Hp0 Hm Hok He.
  destruct He as [Hp|[(q & Hq & Ho)|[Hn Hle]]].
  - pose proof (tk_ids _ _ _ Hok _ _ Hp). destruct Hm; simpl in *.
    + by left.
    + left. rewrite lookup_insert_ne; [done|lia].
    + pose proof (tk_order _ _ _ Hok). destruct (decide (id0 = id)) as [->|Hne].
      * right; left. eexists. split; [apply lookup_insert_eq|]. unfold marked. case_match; simpl; lia.
      * left. by rewrite lookup_insert_ne.
    + destruct (decide (id = id0)) as [->|Hne].
      * right; right. split; [|lia]. apply eq_None_not_Some.
        rewrite (completed_dom _ _ _ _ _ _ Hok). tauto.
      * destruct (completed_entry now _ _ _ id0 id p Hok Hp Hne) as [?|[? _]]; [by left|congruence].
    + right; right. split; [apply lookup_empty|lia].
  - pose proof (tk_ids _ _ _ Hok _ _ Hq). right. destruct Hm; simpl in *.
    + left. eauto.
    + left. exists q. rewrite lookup_insert_ne; [done|lia].
    + left. exists q. rewrite lookup_insert_ne; [done|congruence].
    + destruct (decide (id = id0)) as [->|Hne].
      * right. split; [|lia]. apply eq_None_not_Some.
        rewrite (completed_dom _ _ _ _ _ _ Hok). tauto.
      * left. destruct (completed_entry now _ _ _ id0 id q Hok Hq Hne) as [?|[_ ?]]; eauto.
    + right. split; [apply lookup_empty|lia].
  - right; right. by eapply move_gone.
Qed.

Lemma run_entry es s id p :
  sys_ok s -> short s (1 + zlen es) -> rp_DispatchOrder p = 0 ->
  rl_pending (sys_link s) !! id = Some p -> entry_later p id (tableOf (linkRun s es)).
Proof.
  intros Hok Hsh Hp0 Hp.
  apply (linkRun_ind (fun s => entry_later p id (tableOf s)) es s); [done|done|by left|].
  intros s' e Hok' Hc He. destruct (linkNext_ok s' e Hok' Hc) as [_ Hm _ _].
  by eapply move_entry; [| |apply (so_table _ Hok')|].
Qed.

(** From the instant the request that executes, or with none executing the
    request itself, is overdue, the health check reports an error as long as the
    request is unanswered and the worker has not gone on to another. *)
Lemma supervised n s id timeout :
  sys_ok s -> short s (1 + n) -> is_Some (rl_pending (sys_link s) !! id) ->
  exists T, forall es now, zlen es <= n -> T <= now ->
    is_Some (rl_pending (sys_link (linkRun s es)) !! id) ->
    (activePendingLocked (rl_pending (sys_link (linkRun s es)))).1 =
      (activePendingLocked (rl_pending (sys_link s))).1 ->
    HealthError now timeout (sys_link (linkRun s es)) <> [].
Proof.
  intros Hok Hsh [p Hp].
  assert (Hrun : forall es, zlen es <= n -> sys_ok (linkRun s es) /\ short s (1 + zlen es)).
  { intros es Hl. pose proof (zlen_nonneg es).
    assert (short s (1 + zlen es)) as Hs by (destruct Hsh; split; lia). split; [|done].
    by destruct (linkRun_ind (fun _ => True) es s) as (_ & ? & _). }
  destruct (active_cases _ _ _ (so_table _ Hok)) as [[Ea Hz]|(i & q & Ea & Hi & Ha)];
    simpl in Ea; rewrite Ea; simpl.
  - exists (admissionDeadline timeout p). intros es now Hl Hnow Hin Hact.
    destruct (Hrun es Hl) as [Hok' Hs'].
    destruct (active_cases _ _ _ (so_table _ Hok')) as [[Ea' Hz']|(j & r & Ea' & Hj & _)];
      simpl in Ea'; [|rewrite Ea' in Hact; simpl in Hact; lia].
    assert (rl_pending (sys_link (linkRun s es)) !! id = Some p) as Hp'.
    { destruct (run_entry es s id p Hok Hs' (Hz _ _ Hp) Hp) as [?|[(r & Hr & Ho)|[Hn _]]]; [done| |].
      - by apply Hz' in Hr.
      - destruct Hin as [x Hx]. simpl in Hn. congruence. }
    unfold HealthError. rewrite Ea'. simpl. intros Hnil.
    eapply not_elem_of_nil. rewrite <- Hnil. apply list_elem_of_omap.
    exists (id, p). split; [by apply elem_of_map_to_list|]. simpl.
    by rewrite (proj2 (Z.ltb_ge now (admissionDeadline timeout p))).
  - exists (rp_Deadline q). intros es now Hl Hnow _ Hact. destruct (Hrun es Hl) as [Hok' Hs'].
    destruct (active_id _ _ _ i (so_table _ Hok') ltac:(lia) Hact) as [r Hr].
    rewrite (health_active _ _ _ _ _ _ _ (so_table _ Hok') Hi
      (stays_active es s i q Hok Hs' Ha (mk_is_Some _ _ (proj1 Hr)))).
    by rewrite (proj2 (Z.ltb_ge now (rp_Deadline q))).
Qed.

Lemma fail_finishes s :
  sys_ok s -> sys_fail s <> FailIdle ->
  rl_done (sys_link (linkRun s [(0, EvFailNext); (0, EvFailNext)])) = true.
Proof.
  intros Hok Hf. unfold linkRun, linkNext; simpl. unfold failNext.
  destruct (sys_fail s) eqn:Ef; simpl; rewrite ?Ef; simpl; rewrite ?Ef; try done.
  by apply (so_done _ Hok).
Qed.

Lemma failNext_outcomes s id :
  id ∈ ((sys_outcomes s).*1) ->
  id ∈ ((sys_outcomes (linkRun s [(0, EvFailNext); (0, EvFailNext)])).*1).
Proof.
  intros Hid. unfold linkRun, linkNext; simpl. unfold failNext.
  destruct (sys_fail s) eqn:Ef; simpl; rewrite ?Ef; simpl; rewrite ?Ef; try done.
  rewrite fmap_app. apply elem_of_app. by right.
Qed.

Lemma newSystem_calls ct qf gen : calls_ok (newSystem ct qf gen).
Proof.
  split; simpl; try done; try (intros id Hid; by apply not_elem_of_nil in Hid). constructor.
Qed.

Lemma reader_failing s e :
  sys_ok s -> sys_reader s = RFail e ->
  sys_ok (linkNext s (0, EvReaderNext)) /\ sys_fail (linkNext s (0, EvReaderNext)) <> FailIdle.
Proof.
  intros Hok Er.
  assert (readerNext s = Some (failLink e (with_reader RExit s))) as Hn
    by (unfold readerNext; by rewrite Er).
  unfold linkNext. simpl. rewrite Hn. simpl. split.
  - by apply (readerNext_step 0 s).
  - unfold failLink. simpl. by destruct (sys_fail s) eqn:Ef; simpl; rewrite ?Ef.
Qed.

(** C8: no call hangs unnoticed and none is answered twice.  In every
    interleaving, the reply channels (of capacity one) receive at most one answer
    each, so neither the reader nor [Fail] ever blocks on one; and every call
    that still waits either has its answer, or gets one from the steps that the
    reader and [Fail] take on their own, or its request is in the table.  Then
    there is an instant from which on the health check reports an error,
    whatever else happens, for as long as the request is unanswered and the
    worker has not gone on to execute another request ([LinkSample.passed_over]:
    a queued request may outlast its own deadline unreported while the worker
    executes others in time). *)
Theorem no_call_hangs ct qf gen es id timeout n :
  0 < qf -> 0 <= n -> zlen es + n + 1 < two64 ->
  let s := linkRun (newSystem ct qf gen) es in
  id ∈ sys_calls s -> id ∉ sys_detached s ->
  NoDup ((sys_outcomes s).*1) /\
  (answered (settle s) id \/
   is_Some (rl_pending (sys_link s) !! id) /\
   exists T, forall es' now, zlen es' <= n -> T <= now ->
     let s' := linkRun s es' in
     is_Some (rl_pending (sys_link s') !! id) ->
     (activePendingLocked (rl_pending (sys_link s'))).1 =
       (activePendingLocked (rl_pending (sys_link s))).1 ->
     HealthError now timeout (sys_link s') <> []).
Proof.
  intros Hq Hn0 Hl s Hid Hd.
  destruct (linkRun_ind calls_ok es (newSystem ct qf gen)) as (Hca & Hok & Hnext & Horder);
    [by apply newSystem_ok|split; simpl; lia|apply newSystem_calls|auto using linkNext_calls|].
  fold s in Hca, Hok, Hnext, Horder. simpl in Hnext, Horder. split; [apply (ca_once _ Hca)|].
  change (settle s) with (linkRun (linkNext s (0, EvReaderNext)) [(0, EvFailNext); (0, EvFailNext)]).
  destruct (ca_cover _ Hca id Hid Hd) as [Hw|[Ho|[(f & Hf & <-)|[(e & He)|Hfail]]]].
  - right. apply (ca_waiters _ Hca) in Hw as [_ Hp]. split; [done|].
    apply supervised; [done|split; lia|done].
  - left; left. apply failNext_outcomes. unfold linkNext; simpl. unfold readerNext.
    destruct (sys_reader s) as [|f w|e|]; simpl; try done; [by destruct w; [right|]|].
    unfold failLink. simpl. by destruct (sys_fail s).
  - left; left. apply failNext_outcomes. unfold linkNext; simpl. unfold readerNext.
    rewrite Hf. simpl. by left.
  - left; right. destruct (reader_failing s e Hok He). by apply fail_finishes.
  - left; right. unfold linkNext; simpl.
    destruct (readerNext s) as [s'|] eqn:Er; simpl; [|by apply fail_finishes].
    apply fail_finishes; [by apply (readerNext_step 0 s)|].
    unfold readerNext in Er. destruct (sys_reader s) as [|f w|e|]; try done; injection Er as <-;
      [by destruct w|]. unfold failLink. simpl. by destruct (sys_fail s) eqn:Ef; simpl; rewrite ?Ef.
Qed.

(** ** Order on the wire *)

(** The frames whose order matters: journaled output and other notifications,
    checkpoint captures and pastes. *)
Definition outputLane (f : rendererWorkerFrame) : bool :=
  wf_NoReply f || existsb (String.eqb (wf_Method f)) ["checkpoint"; "paste"]%string.

(** The two lanes split the methods accordingly. *)
Lemma priorityLane_methods method :
  priorityLane method = negb (existsb (String.eqb method) ["checkpoint"; "paste"]%string).
Proof. unfold priorityLane. simpl. by rewrite orb_false_r. Qed.

Definition inHand (s : linkSystem) : list rendererWorkerFrame :=
  match sys_writer s with WHold f | WWrite f => [f] | _ => [] end.

(** The output lane from the wire to the back of its queue. *)
Definition outputStream (s : linkSystem) : list rendererWorkerFrame :=
  filter outputLane (sys_wire s ++ inHand s) ++ rl_outbound (sys_link s).

Definition lanes_ok (s : linkSystem) : Prop :=
  Forall (fun f => outputLane f = true) (rl_outbound (sys_link s)) /\
  Forall (fun f => outputLane f = false) (rl_control (sys_link s)).

Definition lanes_step (s s' : linkSystem) : Prop :=
  lanes_ok s' /\
  (sys_writer s' = WExit \/
   sys_writer s <> WExit /\ outputStream s `prefix_of` outputStream s').

Lemma lanes_quiet s s' :
  lanes_ok s -> sys_writer s' = sys_writer s -> sys_wire s' = sys_wire s ->
  rl_control (sys_link s') = rl_control (sys_link s) ->
  rl_outbound (sys_link s') = rl_outbound (sys_link s) -> lanes_step s s'.
Proof.
  intros Hl Ew Ewi Ec Eo. unfold lanes_step, lanes_ok, outputStream, inHand.
  rewrite Ew, Ewi, Ec, Eo. split; [done|].
  destruct (sys_writer s); solve [by left|by right; split].
Qed.

Lemma lanes_admit s s' f :
  lanes_ok s -> sys_writer s' = sys_writer s -> sys_wire s' = sys_wire s ->
  (rl_control (sys_link s') = rl_control (sys_link s) ++ [f] /\
   rl_outbound (sys_link s') = rl_outbound (sys_link s) /\ outputLane f = false \/
   rl_control (sys_link s') = rl_control (sys_link s) /\
   rl_outbound (sys_link s') = rl_outbound (sys_link s) ++ [f] /\ outputLane f = true) ->
  lanes_step s s'.
Proof.
  intros [Ho Hc] Ew Ewi Hq. unfold lanes_step, lanes_ok, outputStream, inHand. rewrite Ew, Ewi.
  destruct Hq as [(-> & -> & Hf)|(-> & -> & Hf)].
  - split; [split; [done|]|destruct (sys_writer s); solve [by left|by right; split]].
    apply Forall_app. split; [done|by constructor].
  - split; [split; [|done]|].
    { apply Forall_app. split; [done|by constructor]. }
    destruct (sys_writer s); [right..|by left]; (split; [done|]);
      rewrite app_assoc; by apply prefix_app_r.
Qed.

Lemma request_lane l id noReply method raw :
  outputLane (requestFrame l id noReply method raw) = noReply || negb (priorityLane method).
Proof. unfold outputLane. simpl wf_NoReply. simpl wf_Method. by rewrite priorityLane_methods, negb_involutive. Qed.

Lemma lanes_fail e s s0 : lanes_step s0 s -> lanes_step s0 (failLink e s).
Proof. unfold failLink. by destruct (sys_fail s). Qed.

Lemma lanes_next s e : lanes_ok s -> lanes_step s (linkNext s e).
Proof.
  intros Hl. unfold linkNext. destruct (linkStep e.1 s e.2) as [s'|] eqn:Hs;
    [|by apply lanes_quiet].
  simpl. destruct e as [now ev]; simpl in Hs. destruct ev; simpl in Hs.
  - destruct params as [raw|err]; simpl in Hs; [|injection Hs as <-; by apply lanes_quiet].
    destruct choice; simpl in Hs;
      [destruct (room _ _)|destruct (rl_stop _)|destruct shutdown]; simpl in Hs; try done;
      injection Hs as <-; [|by apply lanes_quiet..].
    eapply lanes_admit; [done|done|done|]. by right.
  - injection Hs as <-. unfold TryNotify. destruct params as [raw|err]; simpl;
      [|by apply lanes_quiet].
    destruct (rl_stop _ && _); simpl; [by apply lanes_quiet|].
    destruct (room _ _); simpl; [|by apply lanes_quiet].
    eapply lanes_admit; [done|done|done|]. by right.
  - pose proof (enqueueDeadline_cases now method params waiter deadline preferStop (sys_link s)) as He.
    destruct (enqueueDeadline _ _ _ _ _ _ _) as [r l'].
    assert (lanes_step s (with_link l' s)) as Hstep.
    { destruct He as [e|r Hr|dl budget raw id queue set_queue Hroom]; [by apply lanes_quiet..|].
      unfold set_queue, queue.
      destruct (priorityLane method) eqn:Ep; eapply lanes_admit; try done; [left|right];
        split_and!; try done; by rewrite request_lane, Ep. }
    destruct r; injection Hs as <-; [|done]. by destruct waiter.
  - case_match; [|done]. injection Hs as <-. by apply lanes_quiet.
  - unfold writerPoll in Hs. destruct (sys_writer s) eqn:Ew; try done. destruct Hl as [Ho Hc].
    destruct (rl_control (sys_link s)) as [|f rest] eqn:Eq; injection Hs as <-;
      unfold lanes_step, lanes_ok, outputStream, inHand; simpl; rewrite ?Ew, ?Eq.
    + by split; [|right].
    + apply Forall_cons in Hc as [Hf Hc]. split; [done|right]. split; [done|].
      rewrite app_nil_r, filter_app, (filter_cons_False _ f) by (rewrite Hf; by intros []). simpl.
      by rewrite filter_nil, app_nil_r.
  - unfold writerTake in Hs. destruct (sys_writer s) eqn:Ew; try done. destruct Hl as [Ho Hc].
    destruct case.
    + destruct (rl_control (sys_link s)) as [|f rest] eqn:Eq; [done|]. injection Hs as <-.
      unfold lanes_step, lanes_ok, outputStream, inHand; simpl. rewrite ?Ew.
      apply Forall_cons in Hc as [Hf Hc]. split; [done|right]. split; [done|].
      rewrite app_nil_r, filter_app, (filter_cons_False _ f) by (rewrite Hf; by intros []). simpl.
      by rewrite filter_nil, app_nil_r.
    + destruct (rl_outbound (sys_link s)) as [|f rest] eqn:Eq; [done|]. injection Hs as <-.
      unfold lanes_step, lanes_ok, outputStream, inHand; simpl. rewrite ?Ew, ?Eq.
      apply Forall_cons in Ho as [Hf Ho]. split; [done|right]. split; [done|].
      rewrite app_nil_r, filter_app, (filter_cons_True _ f) by (by rewrite Hf).
      by rewrite filter_nil, <- app_assoc.
    + destruct (rl_stop (sys_link s)); [|done]. injection Hs as <-. by split; [|left].
  - unfold writerMark in Hs. destruct (sys_writer s) as [| |f| |] eqn:Ew; try done.
    injection Hs as <-.
    unfold lanes_step, lanes_ok, outputStream, inHand, markDispatched; simpl. rewrite Ew.
    destruct (rl_pending (sys_link s) !! wf_ID f); by split; [|right].
  - unfold writerWrite in Hs. destruct (sys_writer s) as [| | |f|] eqn:Ew; try done.
    destruct failed; injection Hs as <-; [apply lanes_fail; by split; [|left]|].
    unfold lanes_step, lanes_ok, outputStream, inHand; simpl. rewrite Ew, app_nil_r.
    by split; [|right].
  - unfold readerRead in Hs. destruct (sys_reader s); try done.
    case_match; [injection Hs as <-; by apply lanes_quiet|].
    case_match; [|injection Hs as <-; by apply lanes_quiet].
    destruct (completePendingLocked now (wf_ID frame) (sys_link s)) as [pd l] eqn:El.
    injection El as _ <-. injection Hs as <-. by apply lanes_quiet.
  - destruct (sys_reader s); try done. injection Hs as <-. apply lanes_fail. by apply lanes_quiet.
  - unfold readerNext in Hs. destruct (sys_reader s) as [|f w|err|]; try done; injection Hs as <-.
    + destruct w; by apply lanes_quiet.
    + apply lanes_fail. by apply lanes_quiet.
  - injection Hs as <-. apply lanes_fail. by apply lanes_quiet.
  - unfold failNext in Hs. destruct (sys_fail s); try done; injection Hs as <-; by apply lanes_quiet.
Qed.

(** C24: output reaches the worker in the order it was admitted.  The output lane
    (journaled output, notifications, checkpoint captures, pastes), read from
    the wire through the writer's hand to the back of its queue, only ever grows
    at its end while the writer runs: no priority request, failure or
    interleaving reorders, repeats or drops a frame of it, and a capture or a
    paste never overtakes output queued before it. *)
Theorem output_in_order ct qf gen es0 es :
  0 < qf -> zlen es0 + zlen es + 2 < two64 ->
  let s1 := linkRun (newSystem ct qf gen) es0 in
  let s2 := linkRun s1 es in
  sys_writer s2 <> WExit -> outputStream s1 `prefix_of` outputStream s2.
Proof.
  intros Hq Hl s1 s2. pose proof (zlen_nonneg es0). pose proof (zlen_nonneg es).
  destruct (linkRun_ind lanes_ok es0 (newSystem ct qf gen)) as (Hlane & Hok & Hn & Ho);
    [by apply newSystem_ok|split; simpl; lia|split; by apply Forall_nil_2|intros; by apply lanes_next|].
  fold s1 in Hlane, Hok, Hn, Ho. simpl in Hn, Ho.
  apply (linkRun_ind (fun s => lanes_ok s /\
    (sys_writer s <> WExit -> outputStream s1 `prefix_of` outputStream s)) es s1);
    [done|split; lia|done|].
  intros s e _ _ [Hs Hp]. destruct (lanes_next s e Hs) as [Hs' [Hx|[Hw Hpre]]]; (split; [done|]).
  - done.
  - intros _. etrans; [by apply Hp|done].
Qed.

(** ** Concrete runs *)

Module LinkSample.

(** A read is admitted and taken by the writer; marking it makes it active. *)
Definition queued : list (time * linkEvent) :=
  [(5, EvCall "read" (Ok [1]) true time_zero false); (6, EvWriterPoll)].

Definition marked : time * linkEvent := (10, EvWriterMark).

(** Meanwhile another request, output and a health probe are admitted, and the
    caller stops waiting. *)
Definition meanwhile : list (time * linkEvent) :=
  [(20, EvCall "interact" (Ok []) true time_zero false);
   (21, EvNotify "output" (Ok [7]) false CaseSend);
   (22, EvDetach 1);
   (30, EvCall "health" (Ok []) false time_zero false);
   (31, EvWriterWrite None)].

Definition start : linkSystem := newSystem (2 * second) 4 1.

Definition read_pending : rendererPending :=
  RPending 5 (10 + 8 * second) (8 * second) 1 "read".

Lemma becomes_active :
  (activePendingLocked (rl_pending (sys_link (linkRun start queued)))).1 = 0 /\
  activePendingLocked (rl_pending (sys_link (linkNext (linkRun start queued) marked)))
    = (1, read_pending) /\
  rl_pending (sys_link (linkRun (linkNext (linkRun start queued) marked) meanwhile)) !! 1
    = Some read_pending.
Proof. vm_compute. done. Qed.

Lemma execution_budget_witness :
  HealthError (10 + 8 * second - 1) 0
    (sys_link (linkRun (linkNext (linkRun start queued) marked) meanwhile)) = [] /\
  HealthError (10 + 8 * second) 0
    (sys_link (linkRun (linkNext (linkRun start queued) marked) meanwhile)) =
    [EFormat "renderer read request %d exceeded execution budget %s" [1; 8 * second]].
Proof.
  destruct becomes_active as (H1 & H2 & H3). split.
  - rewrite (execution_budget (2 * second) 4 1 queued marked meanwhile 1 read_pending);
      [reflexivity|lia|vm_compute; reflexivity| |lia|exact H2|exact (mk_is_Some _ _ H3)].
    unfold start in H1. rewrite H1. lia.
  - rewrite (execution_budget (2 * second) 4 1 queued marked meanwhile 1 read_pending);
      [reflexivity|lia|vm_compute; reflexivity| |lia|exact H2|exact (mk_is_Some _ _ H3)].
    unfold start in H1. rewrite H1. lia.
Defined.

(** The worker dies while a call waits. *)
Definition dies : list (time * linkEvent) :=
  queued ++ [marked; (40, EvReadFail (ENew "EOF"))].

Lemma dying_call :
  let s := linkRun start dies in
  1 ∈ sys_calls s /\ (1 ∉ sys_detached s) /\
  sys_outcomes (settle s) = [(1, CallOutcome [] (Some (ENew "EOF")))].
Proof.
  cbv zeta. split; [|split].
  - apply (bool_decide_unpack _). vm_compute. exact I.
  - apply (bool_decide_unpack _). vm_compute. exact I.
  - vm_compute. reflexivity.
Qed.

Lemma no_call_hangs_witness :
  NoDup ((sys_outcomes (linkRun start dies)).*1) /\
  (answered (settle (linkRun start dies)) 1 \/
   is_Some (rl_pending (sys_link (linkRun start dies)) !! 1) /\
   exists T, forall es' now, zlen es' <= 9 -> T <= now ->
     let s' := linkRun (linkRun start dies) es' in
     is_Some (rl_pending (sys_link s') !! 1) ->
     (activePendingLocked (rl_pending (sys_link s'))).1 =
       (activePendingLocked (rl_pending (sys_link (linkRun start dies)))).1 ->
     HealthError now 0 (sys_link s') <> []).
Proof.
  destruct dying_call as (H1 & H2 & _).
  apply (no_call_hangs (2 * second) 4 1 dies 1 0 9); [lia|lia|vm_compute; reflexivity|exact H1|exact H2].
Defined.

(** A paste waits behind requests that the worker executes one after the other,
    each within its budget: the link is healthy at every step although the
    paste's own deadline has passed long ago. *)
Definition response (id : Z) : rendererWorkerFrame :=
  WFrame rendererFrameResponse id 1 false "" [] [] "" 0 0 "".

Definition serve (at_ : Z) : list (time * linkEvent) :=
  [(at_, EvCall "resize" (Ok []) true time_zero false); (at_, EvWriterPoll); (at_, EvWriterMark);
   (at_, EvWriterWrite None)].

Definition starving : list (time * linkEvent) :=
  (1, EvCall "paste" (Ok []) true time_zero false) :: serve second ++
  concat (map (fun k => serve (k * second) ++
    [(k * second, EvRead (response k)); (k * second, EvReaderNext)]) (seqZ 2 59)).

(** The check at the time of every event, of the state after it. *)
Definition healthyThroughout (es : list (time * linkEvent)) : bool :=
  forallb (fun k => match last (take k es) with
                    | Some (now, _) => bool_decide (HealthError now 0 (sys_link (linkRun start (take k es))) = [])
                    | None => true
                    end) (seq 0 (S (length es))).

Lemma passed_over :
  healthyThroughout starving = true /\ (fst <$> last starving) = Some (60 * second) /\
  rl_pending (sys_link (linkRun start starving)) !! 1 =
    Some (RPending 1 (1 + 2 * second) (2 * second) 0 "paste").
Proof. vm_compute. done. Qed.

(** Output is queued before a capture; a health probe then overtakes both. *)
Definition before : list (time * linkEvent) :=
  [(1, EvNotify "output" (Ok [7]) false CaseSend);
   (2, EvCall "checkpoint" (Ok []) true time_zero false)].

Definition after : list (time * linkEvent) :=
  [(3, EvCall "close" (Ok []) true time_zero false);
   (4, EvWriterPoll); (4, EvWriterMark); (4, EvWriterWrite None);
   (5, EvWriterPoll); (5, EvWriterTake TakeOutbound); (5, EvWriterMark); (5, EvWriterWrite None)].

Lemma wire_order :
  map wf_Method (sys_wire (linkRun (linkRun start before) after)) = ["close"; "output"] /\
  map wf_Method (outputStream (linkRun (linkRun start before) after)) = ["output"; "checkpoint"].
Proof. vm_compute. done. Qed.

Lemma output_in_order_witness :
  outputStream (linkRun start before) `prefix_of` outputStream (linkRun (linkRun start before) after).
Proof.
  apply (output_in_order (2 * second) 4 1 before after); [lia|vm_compute; reflexivity|].
  vm_compute. discriminate.
Defined.

End LinkSample.
