(* ===== verification/RendererCheckpoint.v ===== *)
(** * Checkpoints and the recovery bundle of a live update

    [internal/codelima/renderer_checkpoint.go], [renderer_checkpoint_handoff.go],
    [renderer_checkpoint_quota.go] and the colour policy of
    [internal/terminalstate/colors.go].  A checkpoint is the native terminal's
    state with the watermark of the journal it includes; the recovery bundle
    carries a checkpoint, the colour policy and the journal from one daemon to
    the next.

    JSON and SHA-256 are arguments ([RecoveryCoder]); the law relied on is that
    decoding inverts encoding.  What the native terminal observed beside its
    stream (the boundary tracker and the metadata) passes through unread and is
    one opaque field. *)

From S2P Require Import Prelude Journal JournalOrder SampleCodec.
Local Open Scope Z_scope.

(** ** Colours *)

Record TerminalColors := Colors {
  tc_Foreground : option Z;
  tc_Background : option Z;
  tc_Cursor : option Z;
  tc_Palette : list Z;
  tc_Theme : Z;
}.

#[export] Instance TerminalColors_eq_dec : EqDecision TerminalColors.
Proof. solve_decision. Defined.

Definition overRGB (c : Z) : bool := 16777215 <? c.

Definition ValidateColors (colors : option TerminalColors) : result unit :=
  match colors with
  | None => Ok tt
  | Some c =>
      if (negb (zlen (tc_Palette c) =? 0) && negb (zlen (tc_Palette c) =? 256)) ||
         (tc_Theme c <? 0) || (2 <? tc_Theme c)
      then Err (ENew "invalid terminal color policy")
      else if existsb (fun v => match v with Some v => overRGB v | None => false end)
                [tc_Foreground c; tc_Background c; tc_Cursor c]
      then Err (ENew "terminal color exceeds 24-bit RGB")
      else if existsb overRGB (tc_Palette c)
      then Err (ENew "terminal palette color exceeds 24-bit RGB")
      else Ok tt
  end.

(** ** Checkpoints *)

Definition rendererCheckpointVersion : Z := 2.
Definition rendererCheckpointMaxHeaderBytes : Z := 65536.
Definition rendererCheckpointMaxBytes : Z := 16777216.

Definition errRendererCheckpointBuild : go_error :=
  ENew "renderer checkpoint native build mismatch".

Record rendererCheckpointPolicy := CkPolicy {
  cp_WidthPolicy : string;
  cp_ScrollbackLines : Z;
}.

#[export] Instance rendererCheckpointPolicy_eq_dec : EqDecision rendererCheckpointPolicy.
Proof. solve_decision. Defined.

Definition currentRendererCheckpointPolicy : rendererCheckpointPolicy :=
  CkPolicy "ghostty-default" 10000.

(** [terminalstate.CheckpointState]; [cs_Observed] stands for the boundary and
    the metadata. *)
Record terminalCheckpointState := CkState {
  cs_CellWidth : Z;
  cs_CellHeight : Z;
  cs_Data : bytes;
  cs_Generation : Z;
  cs_Cols : Z;
  cs_Rows : Z;
  cs_ViewportOffset : Z;
  cs_Focused : bool;
  cs_Observed : bytes;
  cs_Colors : option TerminalColors;
}.

Record rendererCheckpoint := Checkpoint {
  ck_Version : Z;
  ck_BuildID : string;
  ck_TerminalID : string;
  ck_RendererGeneration : Z;
  ck_AppliedEventID : Z;
  ck_Partial : bool;
  ck_Policy : rendererCheckpointPolicy;
  ck_State : terminalCheckpointState;
  ck_SHA256 : string;
}.

#[export] Instance terminalCheckpointState_eq_dec : EqDecision terminalCheckpointState.
Proof. solve_decision. Defined.
#[export] Instance rendererCheckpoint_eq_dec : EqDecision rendererCheckpoint.
Proof. solve_decision. Defined.

Definition set_SHA256 (sum : string) (c : rendererCheckpoint) : rendererCheckpoint :=
  Checkpoint (ck_Version c) (ck_BuildID c) (ck_TerminalID c) (ck_RendererGeneration c)
    (ck_AppliedEventID c) (ck_Partial c) (ck_Policy c) (ck_State c) sum.

Definition without_Data (s : terminalCheckpointState) : terminalCheckpointState :=
  CkState (cs_CellWidth s) (cs_CellHeight s) [] (cs_Generation s) (cs_Cols s) (cs_Rows s)
    (cs_ViewportOffset s) (cs_Focused s) (cs_Observed s) (cs_Colors s).

Definition validateBounds (c : rendererCheckpoint) : result unit :=
  let state := ck_State c in
  if negb (ck_Version c =? rendererCheckpointVersion) || (ck_BuildID c =? "")%string ||
     (256 <? Z.of_nat (String.length (ck_BuildID c))) || (ck_TerminalID c =? "")%string ||
     (256 <? Z.of_nat (String.length (ck_TerminalID c))) ||
     (ck_RendererGeneration c =? 0) || (rendererInputEventBit <=? ck_AppliedEventID c)
  then Err (ENew "renderer checkpoint identity or version is invalid")
  else
    _ ← ValidateColors (cs_Colors state);
    if negb (rendererValidPixels (cs_CellWidth state) (cs_CellHeight state))
    then Err (ENew "renderer checkpoint pixel geometry is invalid")
    else if (zlen (cs_Data state) =? 0) || (rendererCheckpointMaxBytes <? zlen (cs_Data state))
    then Err (EFormat "renderer checkpoint size must be within 1..%d bytes"
                [rendererCheckpointMaxBytes])
    else if negb (rendererValidGeometry (cs_Cols state) (cs_Rows state))
    then Err (ENew "renderer checkpoint geometry is invalid")
    else if (cs_ViewportOffset state <? 0) ||
            (cp_ScrollbackLines currentRendererCheckpointPolicy + cs_Rows state
               <? cs_ViewportOffset state)
    then Err (ENew "renderer checkpoint viewport is invalid")
    else Ok tt.

(** ** The recovery bundle *)

Definition rendererRecoveryVersion : Z := 1.
Definition MaxHandoffRecoveryBytesPerTerminal : Z := 25165824.

Record rendererRecoveryBundle := Bundle {
  rb_Version : Z;
  rb_TerminalID : string;
  rb_Checkpoint : option rendererCheckpoint;
  rb_Colors : option TerminalColors;
  rb_Journal : rendererJournalSnapshot;
  rb_SHA256 : string;
}.

Definition seal (sum : string) (b : rendererRecoveryBundle) : rendererRecoveryBundle :=
  Bundle (rb_Version b) (rb_TerminalID b) (rb_Checkpoint b) (rb_Colors b) (rb_Journal b) sum.

(** JSON and SHA-256. *)
Class RecoveryCoder := {
  marshalCheckpoint : rendererCheckpoint -> bytes;
  marshalBundle : rendererRecoveryBundle -> bytes;
  unmarshalBundle : bytes -> result rendererRecoveryBundle;
  sha256 : bytes -> string;
}.

Class RecoveryLaws `{RecoveryCoder} : Prop := {
  unmarshal_marshal b : unmarshalBundle (marshalBundle b) = Ok b;
  marshal_nonempty b : marshalBundle b <> [];
}.

Section Recovery.
Context `{RecoveryCoder} (rendererNativeBuildIdentity : string).

Definition checkpointDigest (c : rendererCheckpoint) : result string :=
  let header :=
    Checkpoint (ck_Version c) (ck_BuildID c) (ck_TerminalID c) (ck_RendererGeneration c)
      (ck_AppliedEventID c) (ck_Partial c) (ck_Policy c) (without_Data (ck_State c)) "" in
  let metadata := marshalCheckpoint header in
  if rendererCheckpointMaxHeaderBytes <? zlen metadata
  then Err (ENew "renderer checkpoint metadata exceeds its bound")
  else Ok (sha256 (metadata ++ cs_Data (ck_State c))).

Definition newRendererCheckpoint (build terminal : string) (generation applied : Z)
    (partial : bool) (state : terminalCheckpointState) : result rendererCheckpoint :=
  let checkpoint :=
    Checkpoint rendererCheckpointVersion build terminal generation applied partial
      currentRendererCheckpointPolicy state "" in
  _ ← validateBounds checkpoint;
  digest ← checkpointDigest checkpoint;
  Ok (set_SHA256 digest checkpoint).

Definition validateIntegrity (terminal : string) (c : rendererCheckpoint) : result unit :=
  _ ← validateBounds c;
  if negb (ck_TerminalID c =? terminal)%string
  then Err (ENew "renderer checkpoint belongs to another terminal")
  else
    digest ← checkpointDigest c;
    if negb (digest =? ck_SHA256 c)%string
    then Err (ENew "renderer checkpoint integrity mismatch") else Ok tt.

Definition validate (build terminal : string) (c : rendererCheckpoint) : result unit :=
  _ ← validateIntegrity terminal c;
  if negb (ck_BuildID c =? build)%string then Err errRendererCheckpointBuild
  else if bool_decide (ck_Policy c = currentRendererCheckpointPolicy) then Ok tt
  else Err (ENew "renderer checkpoint policy mismatch").

Definition bundleDigest (b : rendererRecoveryBundle) : result string :=
  let data := marshalBundle (seal "" b) in
  if MaxHandoffRecoveryBytesPerTerminal <? zlen data
  then Err (ENew "renderer recovery bundle exceeds handoff size bound")
  else Ok (sha256 data).

Definition encodeRendererRecovery (terminalID : string) (checkpoint : option rendererCheckpoint)
    (journal : rendererJournalSnapshot) (colors : option TerminalColors) : result bytes :=
  let bundle := Bundle rendererRecoveryVersion terminalID checkpoint colors journal "" in
  _ ← ValidateColors colors;
  digest ← bundleDigest bundle;
  let data := marshalBundle (seal digest bundle) in
  if MaxHandoffRecoveryBytesPerTerminal <? zlen data
  then Err (ENew "renderer recovery bundle exceeds handoff size bound")
  else Ok data.

(** The loop of [validateRecoveryJournal]: the index, the previous identity and
    the bytes so far. *)
Fixpoint validateRecoveryEvents (partial : bool) (lastID index previous bytes : Z)
    (events : list rendererJournalEvent) : result (Z * Z) :=
  match events with
  | [] => Ok (previous, bytes)
  | event :: rest =>
      let first := ev_first event in
      let output := (ev_Type event =? "output")%string in
      let resize := (ev_Type event =? "resize")%string in
      if (ev_ID event =? 0) || (lastID <? ev_ID event) || (ev_ID event <=? previous) ||
         (ev_ID event <? first) || (negb output && negb resize) ||
         (output && negb (first =? ev_ID event))
      then Err (ENew "renderer recovery journal event is invalid")
      else if ((0 <? index) || negb partial) && (u64 (previous + 1) <? first)
      then Err (ENew "renderer recovery journal has an interior gap")
      else if resize && (negb (rendererValidGeometry (ev_Cols event) (ev_Rows event)) ||
                         negb (rendererValidPixels (ev_CellWidth event) (ev_CellHeight event)))
      then Err (ENew "renderer recovery journal geometry is invalid")
      else
        let bytes := bytes + rendererJournalEventBytes event in
        if defaultRendererJournalBytes <? bytes
        then Err (ENew "renderer recovery journal exceeds retention bound")
        else validateRecoveryEvents partial lastID (index + 1) (ev_ID event) bytes rest
  end.

Definition maxRecoveryEvents : Z := 65536.

Definition validateRecoveryJournal (journal : rendererJournalSnapshot) : result unit :=
  if negb (rendererValidPixels (js_CellWidth journal) (js_CellHeight journal))
  then Err (ENew "renderer recovery pixel geometry is invalid")
  else if (rendererInputEventBit <=? js_LastID journal) ||
          negb (rendererValidGeometry (js_Cols journal) (js_Rows journal)) ||
          (js_Bytes journal <? 0) || (defaultRendererJournalBytes <? js_Bytes journal) ||
          (maxRecoveryEvents <? zlen (js_Events journal))
  then Err (ENew "renderer recovery journal bounds are invalid")
  else
    '(previous, bytes) ←
      validateRecoveryEvents (js_Partial journal) (js_LastID journal) 0 0 0 (js_Events journal);
    if negb (bytes =? js_Bytes journal) ||
       ((0 <? zlen (js_Events journal)) && negb (previous =? js_LastID journal)) ||
       ((zlen (js_Events journal) =? 0) && negb (js_LastID journal =? 0) && negb (js_Partial journal))
    then Err (ENew "renderer recovery journal watermark or accounting is invalid")
    else Ok tt.

Definition with_Checkpoint c (b : rendererRecoveryBundle) : rendererRecoveryBundle :=
  Bundle (rb_Version b) (rb_TerminalID b) c (rb_Colors b) (rb_Journal b) (rb_SHA256 b).
Definition with_Colors c (b : rendererRecoveryBundle) : rendererRecoveryBundle :=
  Bundle (rb_Version b) (rb_TerminalID b) (rb_Checkpoint b) c (rb_Journal b) (rb_SHA256 b).

Definition decodeRendererRecovery (terminalID : string) (data : bytes)
    : result rendererRecoveryBundle :=
  if (zlen data =? 0) || (MaxHandoffRecoveryBytesPerTerminal <? zlen data)
  then Err (ENew "renderer recovery bundle has invalid size")
  else
    bundle ← unmarshalBundle data;
    if negb (rb_Version bundle =? rendererRecoveryVersion) ||
       negb (rb_TerminalID bundle =? terminalID)%string
    then Err (ENew "renderer recovery bundle identity or version mismatch")
    else
      digest ← bundleDigest bundle;
      if negb (digest =? rb_SHA256 bundle)%string
      then Err (ENew "renderer recovery bundle integrity mismatch")
      else
        _ ← validateRecoveryJournal (rb_Journal bundle);
        _ ← ValidateColors (rb_Colors bundle);
        match rb_Checkpoint bundle with
        | None => Ok bundle
        | Some checkpoint =>
            _ ← validateIntegrity terminalID checkpoint;
            if negb (tailAfter (rb_Journal bundle) (ck_AppliedEventID checkpoint)).2
            then Err (ENew "renderer recovery checkpoint tail is incomplete")
            else
              let bundle :=
                match rb_Colors bundle with
                | None => with_Colors (cs_Colors (ck_State checkpoint)) bundle
                | Some _ => bundle
                end in
              if negb (ck_BuildID checkpoint =? rendererNativeBuildIdentity)%string ||
                 negb (bool_decide (ck_Policy checkpoint = currentRendererCheckpointPolicy))
              then Ok (with_Checkpoint None bundle)
              else Ok bundle
        end.

Definition journalFromRendererRecovery (snapshot : rendererJournalSnapshot) : rendererJournal :=
  RJournal defaultRendererJournalBytes (js_LastID snapshot) (js_Events snapshot)
    (js_Bytes snapshot) (js_Partial snapshot) (js_Cols snapshot) (js_Rows snapshot)
    (js_CellWidth snapshot) (js_CellHeight snapshot).

(** [handoffRecovery] of the supervisor, whose retained checkpoint and colours
    are arguments. *)
Definition handoffRecovery (terminalID : string) (retained : option rendererCheckpoint)
    (colors : option TerminalColors) (journal : rendererJournalSnapshot)
    (includeCheckpoint : bool) : bytes :=
  let checkpoint := if includeCheckpoint then retained else None in
  let checkpoint :=
    match checkpoint with
    | Some c => if (tailAfter journal (ck_AppliedEventID c)).2 then Some c else None
    | None => None
    end in
  match encodeRendererRecovery terminalID checkpoint journal colors with
  | Ok data => data
  | Err _ =>
      match encodeRendererRecovery terminalID None journal colors with
      | Ok data => data
      | Err _ => []
      end
  end.

End Recovery.

(** ** The retention quota

    Owners are terminals; the mutex makes each operation one step. *)

Section Quota.
Context {owner : Type} `{Countable owner}.

Record rendererCheckpointQuota := Quota {
  qt_limit : Z;
  qt_used : Z;
  qt_owners : gmap owner Z;
}.

Definition newRendererCheckpointQuota (limit : Z) : rendererCheckpointQuota := Quota limit 0 ∅.

Definition reserve (o : owner) (size : Z) (q : rendererCheckpointQuota)
    : bool * rendererCheckpointQuota :=
  let previous := default 0 (qt_owners q !! o) in
  if (size <=? 0) || (qt_limit q - (qt_used q - previous) <? size) then (false, q)
  else (true, Quota (qt_limit q) (qt_used q + (size - previous)) (<[o := size]> (qt_owners q))).

Definition release (o : owner) (q : rendererCheckpointQuota) : rendererCheckpointQuota :=
  Quota (qt_limit q) (qt_used q - default 0 (qt_owners q !! o)) (delete o (qt_owners q)).

Inductive quotaOp := QReserve (o : owner) (size : Z) | QRelease (o : owner).

Definition quotaStep (q : rendererCheckpointQuota) (op : quotaOp) : rendererCheckpointQuota :=
  match op with QReserve o size => (reserve o size q).2 | QRelease o => release o q end.
End Quota.
