(* ===== verification/RendererRecovery.v ===== *)
(** * What a live update carries over

    Theorems about [RendererCheckpoint]: the recovery bundle of every journal the
    program can have retained is accepted by the next daemon and restores the
    journal exactly, unless the journal holds too many events; the retention
    quota is respected. *)

From S2P Require Import Prelude Journal JournalOrder RendererCheckpoint SampleCodec.
Local Open Scope Z_scope.

(** ** Reachable journals are valid *)

Definition resize_ok (e : rendererJournalEvent) : Prop :=
  ev_Type e = "resize"%string ->
  rendererValidGeometry (ev_Cols e) (ev_Rows e) = true /\
  rendererValidPixels (ev_CellWidth e) (ev_CellHeight e) = true.

Definition op_ok (op : journal_op) : Prop :=
  match op with
  | OpResize c r cw ch => rendererValidGeometry c r = true /\ rendererValidPixels cw ch = true
  | _ => True
  end.

Definition journal_valid (j : rendererJournal) : Prop :=
  Forall resize_ok (j_events j) /\
  rendererValidPixels (j_cellWidth j) (j_cellHeight j) = true.

Lemma trimLocked_keeps j :
  let j' := trimLocked j in
  (exists dropped, j_events j = dropped ++ j_events j') /\
  j_cols j' = j_cols j /\ j_rows j' = j_rows j /\
  j_cellWidth j' = j_cellWidth j /\ j_cellHeight j' = j_cellHeight j /\
  j_maxBytes j' = j_maxBytes j.
Proof.
  unfold trimLocked. destruct (trimEvents _ _ _ _) as [[evs b] p] eqn:E.
  apply trimEvents_spec in E as (dr & Hev & _). simpl. eauto 10.
Qed.

Lemma trim_valid j : journal_valid j -> journal_valid (trimLocked j).
Proof.
  intros [He Hp]. destruct (trimLocked_keeps j) as ((dr & Hd) & _ & _ & Hw & Hh & _).
  split; [|by rewrite Hw, Hh]. rewrite Hd in He. by apply Forall_app in He as [_ ?].
Qed.

Lemma pixels_choice j cw ch :
  rendererValidPixels cw ch = true ->
  rendererValidPixels (j_cellWidth j) (j_cellHeight j) = true ->
  let '(w, h) :=
    if (0 <? cw) && (0 <? ch) then (cw, ch) else (j_cellWidth j, j_cellHeight j) in
  rendererValidPixels w h = true.
Proof. intros. by destruct (_ && _). Qed.

Lemma step_valid j op : op_ok op -> journal_valid j -> journal_valid (journal_step j op).
Proof.
  intros Hop [He Hp]. destruct op as [data|c r cw ch|]; simpl.
  - unfold AppendOutput. simpl. apply trim_valid. split; [|done]. simpl.
    apply Forall_app. split; [done|]. apply Forall_singleton. by intros Ht.
  - destruct Hop as [Hg Hpx]. unfold AppendResizePixels.
    pose proof (pixels_choice j cw ch Hpx Hp) as Hch.
    destruct (if _ && _ then _ else _) as [w h].
    assert (Hev : forall f, resize_ok (JEvent (u64 (j_nextID j + 1)) f "resize" [] c r w h))
      by (by intros f _).
    destruct (last (j_events j)) as [prev|] eqn:El.
    + apply last_Some in El as [l' Hl]. rewrite Hl in *.
      destruct (String.eqb (ev_Type prev) "resize"); simpl;
        apply trim_valid; (split; [|done]); simpl; apply Forall_app;
        (split; [|by apply Forall_singleton]).
      * rewrite removelast_last. by apply Forall_app in He as [? _].
      * done.
    + simpl. apply trim_valid. split; [|done]. simpl. apply Forall_app.
      split; [done|by apply Forall_singleton].
  - unfold Reset. destruct (j_events j) eqn:E; [split; [by rewrite E|done]|].
    split; [by apply Forall_nil_2|done].
Qed.

Definition geometry_valid (j : rendererJournal) : Prop :=
  rendererValidGeometry (j_cols j) (j_rows j) = true.

Lemma trim_geometry x : geometry_valid x -> geometry_valid (trimLocked x).
Proof.
  unfold geometry_valid. by destruct (trimLocked_keeps x) as (_ & -> & -> & _).
Qed.

Lemma trim_max x : j_maxBytes (trimLocked x) = j_maxBytes x.
Proof. apply trimLocked_keeps. Qed.

Lemma step_geometry j op :
  op_ok op -> geometry_valid j -> geometry_valid (journal_step j op).
Proof.
  intros Hop Hg. destruct op as [data|c r cw ch|]; simpl.
  - by apply trim_geometry.
  - destruct Hop as [Hc _]. unfold AppendResizePixels.
    destruct (if _ && _ then _ else _) as [w h].
    destruct (match last _ with Some _ => _ | None => _ end) as [[ev evs] b]. by apply trim_geometry.
  - unfold Reset. by destruct (j_events j).
Qed.

Lemma step_max j op : j_maxBytes (journal_step j op) = j_maxBytes j.
Proof.
  destruct op as [data|c r cw ch|]; simpl.
  - by rewrite trim_max.
  - unfold AppendResizePixels. destruct (if _ && _ then _ else _) as [w h].
    destruct (match last _ with Some _ => _ | None => _ end) as [[ev evs] b]. simpl.
    by rewrite trim_max.
  - unfold Reset. by destruct (j_events j).
Qed.

(** The journals of the program: created with a valid geometry. *)
Definition terminalJournal (cols rows : Z) (ops : list journal_op) : rendererJournal :=
  journal_run defaultRendererJournalBytes (OpResize cols rows 0 0 :: ops).

Lemma terminalJournal_valid cols rows ops :
  rendererValidGeometry cols rows = true -> Forall op_ok ops ->
  let j := terminalJournal cols rows ops in
  journal_valid j /\ geometry_valid j /\ j_maxBytes j = defaultRendererJournalBytes.
Proof.
  intros Hg Hops. unfold terminalJournal, journal_run. cbn [foldl].
  set (j0 := journal_step _ _). assert (Hfirst : op_ok (OpResize cols rows 0 0)) by done.
  assert (journal_valid j0) as Hv by (by apply (step_valid _ _ Hfirst)).
  assert (geometry_valid j0) as Hgv by exact Hg.
  assert (j_maxBytes j0 = defaultRendererJournalBytes) as Hm
    by apply (step_max (newRendererJournal defaultRendererJournalBytes) (OpResize cols rows 0 0)).
  clearbody j0. revert j0 Hv Hgv Hm. induction Hops as [|op ops Hop _ IH]; intros j0 Hv Hgv Hm; [done|].
  simpl. apply IH; [by apply step_valid|by apply step_geometry|by rewrite step_max].
Qed.

Lemma validate_events partial hi evs : forall lo index prev bytes,
  covers lo evs hi -> hi < two63 -> 0 <= lo -> 0 <= index -> 0 <= prev <= lo ->
  (0 < index -> prev = lo) -> (index = 0 -> partial = false -> prev = lo) ->
  Forall ev_wf evs -> Forall resize_ok evs -> 0 <= bytes ->
  bytes + zsum rendererJournalEventBytes evs <= defaultRendererJournalBytes ->
  validateRecoveryEvents partial hi index prev bytes evs =
    Ok (if bool_decide (evs = []) then prev else hi, bytes + zsum rendererJournalEventBytes evs).
Proof.
  induction evs as [|e evs IH]; intros lo index prev bytes Hc Hhi Hlo Hidx Hprev H1 H0 Hwf Hrs Hb Hsum.
  { simpl. by rewrite Z.add_0_r. }
  destruct Hc as (Hf & Hl & Hc). pose proof (covers_le _ _ _ Hc) as Hle.
  apply Forall_cons in Hwf as [Hwe Hwf]. apply Forall_cons in Hrs as [Hre Hrs].
  cbn [zsum] in Hsum. pose proof (cost_nonneg e) as Hcost.
  pose proof (zsum_nonneg rendererJournalEventBytes evs ltac:(auto using cost_nonneg)) as Hrest.
  cbn [validateRecoveryEvents].
  match goal with |- context [if ?b then Err (ENew "renderer recovery journal event is invalid") else _] =>
    assert (b = false) as -> end.
  { rewrite (proj2 (Z.eqb_neq (ev_ID e) 0)), (proj2 (Z.ltb_ge hi (ev_ID e))),
      (proj2 (Z.leb_gt (ev_ID e) prev)), (proj2 (Z.ltb_ge (ev_ID e) (ev_first e))) by lia. simpl.
    destruct Hwe as [[-> Hfid]| ->]; [|done]. simpl.
    unfold ev_first. by rewrite Hfid, Z.eqb_refl. }
  match goal with |- context [if ?b then Err (ENew "renderer recovery journal has an interior gap") else _] =>
    assert (b = false) as -> end.
  { rewrite u64_small by lia. destruct ((0 <? index) || negb partial) eqn:Eg; [|done]. simpl.
    apply Z.ltb_ge. apply orb_true_iff in Eg as [Eg|Eg]; bool_to_prop; [rewrite H1; lia|].
    destruct (decide (index = 0)); [rewrite H0; [lia|done|done]|rewrite H1; lia]. }
  match goal with |- context [if ?b then Err (ENew "renderer recovery journal geometry is invalid") else _] =>
    assert (b = false) as -> end.
  { destruct (ev_Type e =? "resize")%string eqn:Et; [|done]. bool_to_prop.
    destruct (Hre Et) as [-> ->]. done. }
  cbv zeta. rewrite (proj2 (Z.ltb_ge defaultRendererJournalBytes _)) by lia.
  rewrite (IH (ev_ID e)) by (assumption || lia).
  f_equal. rewrite (bool_decide_eq_false_2 (e :: evs = [])) by done. f_equal; [|simpl; lia].
  case_bool_decide as Hn; [|done]. subst evs. simpl in Hc. done.
Qed.

Lemma reachable_validates cols rows ops :
  rendererValidGeometry cols rows = true -> Forall op_ok ops -> zlen ops + 2 < two63 ->
  let j := terminalJournal cols rows ops in
  zlen (j_events j) <= maxRecoveryEvents ->
  validateRecoveryJournal (Snapshot j) = Ok tt.
Proof.
  intros Hg Hops Hlen j Hev.
  destruct (terminalJournal_valid cols rows ops Hg Hops) as ([Hrs Hpx] & Hgeo & Hmax).
  fold j in Hrs, Hpx, Hgeo, Hmax.
  destruct (run_inv_aux (OpResize cols rows 0 0 :: ops) (newRendererJournal defaultRendererJournalBytes))
    as ([Hm Hwf Hsum Hbound (lo & Hlo & Hcov & Hpart)] & Hid);
    [apply new_inv|rewrite zlen_cons; simpl; lia|].
  rewrite zlen_cons in Hid. fold (journal_run defaultRendererJournalBytes (OpResize cols rows 0 0 :: ops)) in *.
  fold (terminalJournal cols rows ops) in *. fold j in Hm, Hwf, Hsum, Hbound, Hcov, Hpart, Hid.
  simpl in Hid. rewrite Hmax in Hbound.
  unfold validateRecoveryJournal, Snapshot; simpl. rewrite Hpx. simpl.
  unfold geometry_valid in Hgeo. rewrite Hgeo.
  pose proof (covers_le _ _ _ Hcov).
  assert (0 <= j_bytes j) as Hb0.
  { rewrite Hsum. apply zsum_nonneg. auto using cost_nonneg. }
  rewrite (proj2 (Z.leb_gt _ _)), (proj2 (Z.ltb_ge (j_bytes j) 0)),
    (proj2 (Z.ltb_ge _ (j_bytes j))), (proj2 (Z.ltb_ge maxRecoveryEvents _)) by (unfold rendererInputEventBit; lia).
  simpl. rewrite (validate_events _ _ _ lo 0 0 0) by
    (assumption || lia || (intros; lia) || (intros _ Hp; by rewrite Hpart)).
  simpl. rewrite Z.add_0_l, <- Hsum, Z.eqb_refl. simpl.
  case_bool_decide as Hn.
  - rewrite Hn in *. simpl in *. subst lo.
    destruct (j_nextID j =? 0) eqn:E0; [done|]. bool_to_prop. simpl.
    destruct (j_partial j); [done|]. rewrite Hpart in E0; [done|done].
  - rewrite Z.eqb_refl, andb_false_r. simpl.
    rewrite (proj2 (Z.eqb_neq (zlen (j_events j)) 0)); [done|].
    intros Hz. by apply zlen_zero_inv in Hz.
Qed.

(** ** The bundle *)

Section RoundTrip.
Context `{RecoveryLaws} (build terminalID : string).

Definition currentBuild (c : rendererCheckpoint) : bool :=
  (ck_BuildID c =? build)%string &&
  bool_decide (ck_Policy c = currentRendererCheckpointPolicy).

(** What the next daemon reads of a checkpoint and colours. *)
Definition received_checkpoint (sent : option rendererCheckpoint) : option rendererCheckpoint :=
  match sent with Some c => if currentBuild c then Some c else None | None => None end.

Definition received_colors (colors : option TerminalColors) (sent : option rendererCheckpoint)
    : option TerminalColors :=
  match colors, sent with
  | None, Some c => cs_Colors (ck_State c)
  | _, _ => colors
  end.

Lemma decode_encode checkpoint journal colors data :
  validateRecoveryJournal journal = Ok tt ->
  (forall c, checkpoint = Some c ->
     validateIntegrity terminalID c = Ok tt /\ (tailAfter journal (ck_AppliedEventID c)).2 = true) ->
  encodeRendererRecovery terminalID checkpoint journal colors = Ok data ->
  exists b, decodeRendererRecovery build terminalID data = Ok b /\ rb_Journal b = journal /\
    rb_Checkpoint b = received_checkpoint checkpoint /\
    rb_Colors b = received_colors colors checkpoint.
Proof.
  intros Hj Hck. unfold encodeRendererRecovery.
  destruct (ValidateColors colors) as [[]|] eqn:Ec; [|done]. simpl.
  set (raw := Bundle rendererRecoveryVersion terminalID checkpoint colors journal "").
  destruct (bundleDigest raw) as [digest|] eqn:Ed; [|done]. simpl.
  destruct (_ <? _) eqn:Esz; [done|]. intros [= <-].
  unfold decodeRendererRecovery. rewrite Esz.
  rewrite (proj2 (Z.eqb_neq _ 0)) by
    (intros Hz; apply zlen_zero_inv in Hz; by apply marshal_nonempty in Hz).
  simpl. rewrite unmarshal_marshal. simpl.
  rewrite String.eqb_refl. simpl.
  assert (bundleDigest (seal digest raw) = bundleDigest raw) as Es by done.
  rewrite Es, Ed. simpl. rewrite String.eqb_refl. simpl. rewrite Hj. simpl. rewrite Ec. simpl.
  destruct checkpoint as [c|]; [|eexists; split; [done|]; by destruct colors].
  destruct (Hck c eq_refl) as [Hi Ht]. rewrite Hi. simpl. rewrite Ht. simpl.
  unfold currentBuild. rewrite <- negb_andb.
  destruct (_ && bool_decide _) eqn:Eb; simpl; eexists; (split; [done|]); by destruct colors.
Qed.

(** C7: a live update carries every terminal's journal over intact.  Take any
    journal the program can have built (created with a valid geometry, appended
    to, resized, trimmed, reset) with at most 65536 retained events, any colour
    policy, and a retained checkpoint that is intact.  If [handoffRecovery]
    produces a bundle, the next daemon decodes it without error, the journal
    rebuilt from it is the same journal, the colours are the policy sent (or the
    checkpoint's), and a checkpoint arrives exactly if one was sent that belongs
    to the next daemon's native build and policy; it is sent only when the
    journal still holds its whole tail. *)
Theorem recovery_round_trip cols rows ops retained colors includeCheckpoint :
  rendererValidGeometry cols rows = true -> Forall op_ok ops -> zlen ops + 2 < two63 ->
  let j := terminalJournal cols rows ops in
  zlen (j_events j) <= maxRecoveryEvents ->
  (forall c, retained = Some c -> validateIntegrity terminalID c = Ok tt) ->
  let data := handoffRecovery terminalID retained colors (Snapshot j) includeCheckpoint in
  data <> [] ->
  exists sent b,
    decodeRendererRecovery build terminalID data = Ok b /\
    journalFromRendererRecovery (rb_Journal b) = j /\
    rb_Colors b = received_colors colors sent /\
    rb_Checkpoint b = received_checkpoint sent /\
    (sent = None \/
     sent = retained /\ includeCheckpoint = true /\
     forall c, sent = Some c -> (journalTailAfter j (ck_AppliedEventID c)).2 = true).
Proof.
  intros Hg Hops Hlen j Hev Hret data Hdata.
  pose proof (reachable_validates cols rows ops Hg Hops Hlen Hev) as Hval. fold j in Hval.
  destruct (terminalJournal_valid cols rows ops Hg Hops) as (_ & _ & Hmax). fold j in Hmax.
  assert (Hj : journalFromRendererRecovery (Snapshot j) = j)
    by (destruct j; simpl in Hmax; by subst).
  assert (Hgo : forall sent d, encodeRendererRecovery terminalID sent (Snapshot j) colors = Ok d ->
    (sent = None \/ sent = retained /\ includeCheckpoint = true /\
       forall c, sent = Some c -> (tailAfter (Snapshot j) (ck_AppliedEventID c)).2 = true) ->
    exists b, decodeRendererRecovery build terminalID d = Ok b /\
      journalFromRendererRecovery (rb_Journal b) = j /\
      rb_Colors b = received_colors colors sent /\ rb_Checkpoint b = received_checkpoint sent).
  { intros sent d He Hs. destruct (decode_encode sent (Snapshot j) colors d Hval) as (b & Hd & Hjb & Hc & Hco);
      [|done|].
    - intros c ->. destruct Hs as [|(<- & _ & Ht)]; [done|]. auto.
    - exists b. by rewrite Hjb. }
  unfold data, handoffRecovery in *.
  set (offered := match (if includeCheckpoint then retained else None) with Some _ => _ | None => _ end) in *.
  assert (Hoff : offered = None \/ offered = retained /\ includeCheckpoint = true /\
    forall c, offered = Some c -> (tailAfter (Snapshot j) (ck_AppliedEventID c)).2 = true).
  { unfold offered. destruct includeCheckpoint; [|by left]. destruct retained as [c|]; [|by left].
    destruct (tailAfter _ _).2 eqn:Et; [right|by left]. split; [done|]. split; [done|].
    by intros c' [= <-]. }
  destruct (encodeRendererRecovery terminalID offered _ _) as [d|] eqn:E1.
  - destruct (Hgo offered d E1 Hoff) as (b & Hb). exists offered, b. tauto.
  - destruct (encodeRendererRecovery terminalID None _ _) as [d|] eqn:E2; [|done].
    destruct (Hgo None d E2) as (b & Hb); [by left|]. exists None, b. split_and!; try tauto.
Qed.

Lemma decode_refuses journal data b e :
  unmarshalBundle data = Ok b -> rb_Journal b = journal ->
  validateRecoveryJournal journal = Err e ->
  exists e', decodeRendererRecovery build terminalID data = Err e'.
Proof.
  intros Hu <- Hv. unfold decodeRendererRecovery.
  destruct (_ || _); [eauto|]. rewrite Hu. simpl. destruct (_ || _); [eauto|].
  destruct (bundleDigest b); simpl; [|eauto]. destruct (negb _); [eauto|].
  rewrite Hv. simpl. eauto.
Qed.
End RoundTrip.

(** ** Many small outputs *)

Definition small_outputs (n : nat) : list journal_op := repeat (OpOutput [0]) n.

Lemma small_outputs_journal n : Z.of_nat n + 64 <= defaultRendererJournalBytes ->
  let j := terminalJournal 80 24 (small_outputs n) in
  zlen (j_events j) = Z.of_nat n + 1 /\ j_bytes j = Z.of_nat n + 64 /\
  j_maxBytes j = defaultRendererJournalBytes /\ j_cols j = 80 /\ j_rows j = 24 /\
  j_cellWidth j = 0 /\ j_cellHeight j = 0.
Proof.
  unfold terminalJournal, journal_run, small_outputs. cbn [foldl].
  induction n as [|n IH]; intros Hn; [done|].
  replace (repeat (OpOutput [0]) (S n)) with (repeat (OpOutput [0]) n ++ [OpOutput [0]])
    by (symmetry; apply repeat_cons).
  rewrite foldl_snoc.
  destruct IH as (He & Hb & Hm & Hc & Hr & Hw & Hh); [lia|]. set (j := foldl _ _ _) in *.
  simpl. unfold AppendOutput. simpl. unfold trimLocked. simpl. rewrite Hm, Hb.
  destruct (j_events j ++ _) as [|x l] eqn:E; [by destruct (j_events j)|].
  simpl. rewrite (proj2 (Z.ltb_ge _ _)) by (unfold rendererJournalEventBytes; simpl; unfold zlen; simpl; lia).
  simpl. rewrite <- E. rewrite zlen_app, He. unfold rendererJournalEventBytes; simpl.
  unfold zlen; simpl. repeat split; try done; lia.
Qed.

(** A journal of many small outputs cannot be carried over.  A terminal that
    received at least 65536 one-byte outputs (and little enough for its journal
    to retain them all) has a journal well inside its byte bound, but its
    recovery bundle is refused by every next daemon, whatever the encoding: the
    validation bounds the number of events at 65536 and the journal does not. *)
Theorem small_outputs_refused n :
  65536 <= Z.of_nat n -> Z.of_nat n + 64 <= defaultRendererJournalBytes ->
  let j := terminalJournal 80 24 (small_outputs n) in
  j_bytes j <= j_maxBytes j /\
  validateRecoveryJournal (Snapshot j) =
    Err (ENew "renderer recovery journal bounds are invalid") /\
  forall (C : RecoveryCoder) build terminalID data b,
    unmarshalBundle data = Ok b -> rb_Journal b = Snapshot j ->
    exists e, decodeRendererRecovery build terminalID data = Err e.
Proof.
  intros Hn Hb j. destruct (small_outputs_journal n Hb) as (He & Hby & Hm & Hc & Hr & Hw & Hh).
  fold j in He, Hby, Hm, Hc, Hr, Hw, Hh.
  assert (validateRecoveryJournal (Snapshot j) =
    Err (ENew "renderer recovery journal bounds are invalid")) as Hv.
  { unfold validateRecoveryJournal, Snapshot; simpl. rewrite Hw, Hh. simpl.
    rewrite He, (proj2 (Z.ltb_lt maxRecoveryEvents _)) by (unfold maxRecoveryEvents; lia).
    by rewrite orb_true_r. }
  split; [lia|]. split; [done|]. intros C build terminalID data b Hu Hjb.
  by eapply decode_refuses.
Qed.

Lemma small_outputs_refused_witness :
  validateRecoveryJournal (Snapshot (terminalJournal 80 24 (small_outputs (Z.to_nat 65536)))) =
    Err (ENew "renderer recovery journal bounds are invalid").
Proof. apply (small_outputs_refused (Z.to_nat 65536)); unfold defaultRendererJournalBytes; lia. Defined.

(** ** The quota *)

Section QuotaLaws.
Context {owner : Type} `{Countable owner}.

Definition quota_ok (q : rendererCheckpointQuota (owner := owner)) : Prop :=
  qt_used q = map_zsum (fun z => z) (qt_owners q) /\ qt_used q <= qt_limit q /\
  map_Forall (fun _ size => 0 < size) (qt_owners q).

Lemma owner_sum (m : gmap owner Z) o :
  map_zsum (fun z => z) m = default 0 (m !! o) + map_zsum (fun z => z) (delete o m).
Proof.
  destruct (m !! o) as [x|] eqn:E; simpl; [by apply (map_zsum_delete (fun z => z))|by rewrite delete_id].
Qed.

Lemma quotaStep_ok q op : quota_ok q -> quota_ok (quotaStep q op).
Proof.
  intros (Hu & Hl & Hp). destruct op as [o size|o]; simpl.
  - unfold reserve. destruct (_ || _) eqn:E; [done|]. simpl. bool_to_prop.
    split; simpl; [|split; [lia|]].
    + rewrite <- insert_delete_eq, map_zsum_insert by apply lookup_delete_eq.
      rewrite Hu, (owner_sum (qt_owners q) o). lia.
    + by apply map_Forall_insert_2.
  - unfold release. split; simpl; [|split].
    + rewrite Hu, (owner_sum (qt_owners q) o). lia.
    + destruct (qt_owners q !! o) as [x|] eqn:E; simpl; [apply Hp in E; lia|lia].
    + by apply map_Forall_delete.
Qed.

(** The checkpoints retained by all terminals of a daemon stay within the
    quota.  After any sequence of reservations and releases of any owners the
    accounted bytes are the sum of what the owners hold and within the limit; a
    reservation succeeds exactly when the bytes fit beside the other owners'
    (its own earlier reservation being replaced), and a refused one changes
    nothing. *)
Theorem quota_bounded limit (ops : list (quotaOp (owner := owner))) o size :
  0 <= limit ->
  let q := foldl quotaStep (newRendererCheckpointQuota limit) ops in
  qt_used q = map_zsum (fun z => z) (qt_owners q) /\ qt_used q <= limit /\
  ((reserve o size q).1 = true <->
     0 < size /\ map_zsum (fun z => z) (delete o (qt_owners q)) + size <= limit) /\
  ((reserve o size q).1 = false -> (reserve o size q).2 = q).
Proof.
  intros Hlim q.
  assert (quota_ok q /\ qt_limit q = limit) as [(Hu & Hl & Hp) Hlimit].
  { unfold q. induction ops as [|op ops IH] using rev_ind.
    - split; [|done]. split; [by simpl; rewrite map_zsum_empty|]. split; [done|]. apply map_Forall_empty.
    - rewrite foldl_snoc. destruct IH as [IH1 IH2]. split; [by apply quotaStep_ok|].
      destruct op; simpl; [|done]. unfold reserve. by destruct (_ || _). }
  rewrite Hlimit in Hl. split; [done|]. split; [done|]. unfold reserve. rewrite Hlimit.
  pose proof (owner_sum (qt_owners q) o) as Hs. rewrite <- Hu in Hs.
  destruct (_ || _) eqn:E; simpl.
  - split; [|done]. split; [done|]. apply orb_true_iff in E as [E|E]; bool_to_prop; lia.
  - split; [|done]. bool_to_prop. split; [intros _; lia|done].
Qed.
End QuotaLaws.

Lemma quota_bounded_witness :
  (reserve "b"%string 60 (foldl quotaStep (newRendererCheckpointQuota 100)
     [QReserve "a"%string 70; QReserve "b"%string 31; QReserve "a"%string 40])).1 = true.
Proof.
  apply (quota_bounded 100
    [QReserve "a"%string 70; QReserve "b"%string 31; QReserve "a"%string 40] "b"%string 60); [lia|].
  split; [lia|]. vm_compute. discriminate.
Defined.

(** ** A concrete transfer *)

Module RecoverySample.

#[local] Instance flat_event : Flat rendererJournalEvent :=
  flat_inj (fun e => (ev_ID e, ev_FirstID e, ev_Type e, ev_Data e, ev_Cols e, ev_Rows e,
      ev_CellWidth e, ev_CellHeight e))
    (fun t => let '(a, b, c, d, e, f, g, h) := t in JEvent a b c d e f g h)
    ltac:(by intros []).

#[local] Instance flat_snapshot : Flat rendererJournalSnapshot :=
  flat_inj (fun s => (js_CellWidth s, js_CellHeight s, js_Events s, js_Partial s, js_Bytes s,
      js_Cols s, js_Rows s, js_LastID s))
    (fun t => let '(a, b, c, d, e, f, g, h) := t in JSnapshot a b c d e f g h)
    ltac:(by intros []).

#[local] Instance flat_colors : Flat TerminalColors :=
  flat_inj (fun c => (tc_Foreground c, tc_Background c, tc_Cursor c, tc_Palette c, tc_Theme c))
    (fun t => let '(a, b, c, d, e) := t in Colors a b c d e) ltac:(by intros []).

#[local] Instance flat_state : Flat terminalCheckpointState :=
  flat_inj (fun s => (cs_CellWidth s, cs_CellHeight s, cs_Data s, cs_Generation s, cs_Cols s,
      cs_Rows s, cs_ViewportOffset s, cs_Focused s, cs_Observed s, cs_Colors s))
    (fun t => let '(a, b, c, d, e, f, g, h, i, j) := t in CkState a b c d e f g h i j)
    ltac:(by intros []).

#[local] Instance flat_checkpoint : Flat rendererCheckpoint :=
  flat_inj (fun c => (ck_Version c, ck_BuildID c, ck_TerminalID c, ck_RendererGeneration c,
      ck_AppliedEventID c, ck_Partial c, (cp_WidthPolicy (ck_Policy c), cp_ScrollbackLines (ck_Policy c)),
      ck_State c, ck_SHA256 c))
    (fun t => let '(a, b, c, d, e, f, (p, q), g, h) := t in Checkpoint a b c d e f (CkPolicy p q) g h)
    ltac:(by intros [?????? [] ??]).

#[local] Instance flat_bundle : Flat rendererRecoveryBundle :=
  flat_inj (fun b => (rb_Version b, rb_TerminalID b, rb_Checkpoint b, rb_Colors b,
      rb_Journal b, rb_SHA256 b))
    (fun t => let '(a, b, c, d, e, f) := t in Bundle a b c d e f) ltac:(by intros []).

#[local] Instance coder : RecoveryCoder := {
  marshalCheckpoint := message;
  marshalBundle := message;
  unmarshalBundle data :=
    match read_message data with Some b => Ok b | None => Err (ENew "invalid JSON") end;
  sha256 data := String (Ascii.ascii_of_nat (Z.to_nat (zlen data mod 256))) EmptyString;
}.

#[local] Instance laws : RecoveryLaws.
Proof.
  split; [|done]. intros b. unfold unmarshalBundle, marshalBundle, coder.
  by rewrite read_message_inverse.
Qed.

Definition ops : list journal_op :=
  [OpOutput [104; 105]; OpResize 100 30 8 16; OpResize 120 40 8 16; OpOutput [33]].

Definition state : terminalCheckpointState :=
  CkState 8 16 [1; 2; 3] 1 120 40 0 true [] None.

(** A checkpoint that includes the events up to the resizes. *)
Definition retained : option rendererCheckpoint :=
  match newRendererCheckpoint "b1" "t1" 1 4 false state with Ok c => Some c | Err _ => None end.

Lemma retained_checked :
  match retained with Some c => validateIntegrity "t1" c = Ok tt | None => True end.
Proof. vm_compute. reflexivity. Qed.

Lemma retained_intact c : retained = Some c -> validateIntegrity "t1" c = Ok tt.
Proof. intros Hc. pose proof retained_checked as H. by rewrite Hc in H. Qed.

Lemma data_sent :
  (handoffRecovery "t1" retained None (Snapshot (terminalJournal 80 24 ops)) true <> []) /\
  (is_ok (decodeRendererRecovery "b1" "t1"
      (handoffRecovery "t1" retained None (Snapshot (terminalJournal 80 24 ops)) true)) = true).
Proof.
  split; [|vm_compute; reflexivity].
  intros E. apply (f_equal (fun l => zlen l =? 0)) in E. vm_compute in E. done.
Qed.

Lemma recovery_round_trip_witness :
  exists sent b,
    decodeRendererRecovery "b1" "t1"
      (handoffRecovery "t1" retained None (Snapshot (terminalJournal 80 24 ops)) true) = Ok b /\
    journalFromRendererRecovery (rb_Journal b) = terminalJournal 80 24 ops /\
    rb_Colors b = received_colors None sent /\
    rb_Checkpoint b = received_checkpoint "b1" sent /\
    (sent = None \/
     sent = retained /\ true = true /\
     forall c, sent = Some c ->
       (journalTailAfter (terminalJournal 80 24 ops) (ck_AppliedEventID c)).2 = true).
Proof.
  apply (recovery_round_trip "b1" "t1" 80 24 ops retained None true).
  - reflexivity.
  - repeat (apply Forall_cons_2; [by vm_compute|]). apply Forall_nil_2.
  - vm_compute. reflexivity.
  - vm_compute. discriminate.
  - exact retained_intact.
  - exact (proj1 data_sent).
Defined.

End RecoverySample.
