(* ===== verification/RendererSupervisor.v ===== *)
(** * The renderer supervisor

    The first half of [internal/codelima/renderer_supervisor.go] and
    [renderer_checkpoint_supervisor.go].  One supervisor per terminal starts a
    renderer worker, publishes what it renders, replaces it when it fails,
    spends a restart budget and degrades, and retains checkpoints.

    The goroutines are the run loop, the calls of [startRenderer] (from [Start]
    and from the run loop), the link readers that deliver frames, and the
    callers of the other methods.  [step] performs one critical section of the
    supervisor's mutexes, or one operation on a link, of one goroutine, so that
    a list of events is an interleaving.  Two critical sections are merged only
    where the publication mutex is held across both.  What a link answers is
    part of the event: the theorems hold whatever it answers, and [RendererLink]
    shows what it does.  The retention quota is in [RendererCheckpoint]. *)

From S2P Require Import Prelude Journal JournalOrder RendererLink RendererCheckpoint.
Local Open Scope Z_scope.

(** ** Policy *)

Definition maxRendererRestarts : Z := 5.
Definition rendererRestartWindow : duration := minute.
Definition rendererRestartCooldown : duration := 30 * second.
Definition rendererHealthyResetPeriod : duration := minute.
Definition rendererRestartBackoffStep : duration := 25 * millisecond.
Definition rendererDegradedNoticeEvery : duration := second.
Definition rendererSupervisorTick : duration := 100 * millisecond.
Definition defaultRendererHealthInterval : duration := second.
Definition rendererInitDeadlinePerByte : duration := 2000.
Definition maxRendererInitDeadline : duration := 15 * second.

Definition rendererStateStarting : string := "starting".
Definition rendererStateReady : string := "ready".
Definition rendererStateRestarting : string := "restarting".
Definition rendererStateDegraded : string := "degraded".
Definition rendererStateClosed : string := "closed".

Definition errRendererDegraded : go_error := ENew "renderer is degraded and will be retried".
Definition errRendererUnavailable : go_error := ENew "renderer is being replaced".

Record rendererRestartPolicy := Policy {
  po_MaxRestarts : Z;
  po_Window : duration;
  po_Cooldown : duration;
  po_HealthyReset : duration;
  po_BackoffStep : duration;
  po_DegradedNotice : duration;
  po_SendGrace : duration;
}.

Definition defaultRendererRestartPolicy : rendererRestartPolicy :=
  Policy maxRendererRestarts rendererRestartWindow rendererRestartCooldown
    rendererHealthyResetPeriod rendererRestartBackoffStep rendererDegradedNoticeEvery
    defaultRendererCommandTimeout.

Definition normalized (p : rendererRestartPolicy) (commandTimeout : duration)
    : rendererRestartPolicy :=
  let d := defaultRendererRestartPolicy in
  let pick x y := if x <=? 0 then y else x in
  Policy (pick (po_MaxRestarts p) (po_MaxRestarts d)) (pick (po_Window p) (po_Window d))
    (pick (po_Cooldown p) (po_Cooldown d)) (pick (po_HealthyReset p) (po_HealthyReset d))
    (if po_BackoffStep p <? 0 then po_BackoffStep d else po_BackoffStep p)
    (pick (po_DegradedNotice p) (po_DegradedNotice d)) (pick (po_SendGrace p) commandTimeout).

Definition rendererInitDeadline (base : duration) (journalBytes : Z) : duration :=
  let base := if base <=? 0 then defaultRendererCommandTimeout else base in
  let journalBytes := if journalBytes <? 0 then 0 else journalBytes in
  let deadline := i64 (base + i64 (journalBytes * rendererInitDeadlinePerByte)) in
  if maxRendererInitDeadline <? deadline then maxRendererInitDeadline else deadline.

Definition tickInterval (p : rendererRestartPolicy) : duration :=
  if po_Cooldown p <? rendererSupervisorTick then Z.max (po_Cooldown p) millisecond
  else rendererSupervisorTick.

(** ** State

    The fields of the Go struct in groups that change together.  A link is known
    by the generation it was started for; [k_state] counts the broadcasts of
    [wakeLocked], [k_restart] is the token of the restart channel, and the
    shutdown channel is closed exactly when [c_closed] is set. *)

Record supCore := Core {
  c_link : option Z;
  c_generation : Z;
  c_replayThrough : Z;
  c_acceptFrames : bool;
  c_closed : bool;
  c_degraded : bool;
  c_degradedAt : time;
  c_recoveryPartial : bool;
  c_publishedRevision : Z;
}.

Record supBudget := Budget {
  b_restarts : list time;
  b_cleanStarted : bool;
  b_forceRestart : bool;
  b_protocolMismatch : bool;
  b_healthySince : time;
}.

Record supNotes := Notes {
  n_lastError : string;
  n_lastNotice : time;
  n_lastProbe : time;
}.

Record supRecovery := Recovery {
  r_checkpoint : option rendererCheckpoint;
  r_checkpointBusy : bool;
  r_lastCheckpoint : time;
  r_checkpointDirty : bool;
  r_colors : option TerminalColors;
  r_colorsRevision : Z;
}.

Record supWakes := Wakes { k_state : Z; k_restart : bool }.

Record rendererSupervisorStatus := Status {
  st_Generation : Z;
  st_State : string;
  st_LastProgressAt : time;
  st_RestartCount : Z;
  st_JournalBytes : Z;
  st_PartialRecovery : bool;
  st_LastError : string;
}.

Record rendererSupervisor := Sup {
  s_terminalID : string;
  s_policy : rendererRestartPolicy;
  s_commandTimeout : duration;
  s_journal : rendererJournal;
  s_core : supCore;
  s_budget : supBudget;
  s_notes : supNotes;
  s_recovery : supRecovery;
  s_wakes : supWakes;
  s_status : rendererSupervisorStatus;
}.

Definition set_journal j s := Sup (s_terminalID s) (s_policy s) (s_commandTimeout s) j (s_core s)
  (s_budget s) (s_notes s) (s_recovery s) (s_wakes s) (s_status s).
Definition set_core c s := Sup (s_terminalID s) (s_policy s) (s_commandTimeout s) (s_journal s) c
  (s_budget s) (s_notes s) (s_recovery s) (s_wakes s) (s_status s).
Definition set_budget b s := Sup (s_terminalID s) (s_policy s) (s_commandTimeout s) (s_journal s)
  (s_core s) b (s_notes s) (s_recovery s) (s_wakes s) (s_status s).
Definition set_notes n s := Sup (s_terminalID s) (s_policy s) (s_commandTimeout s) (s_journal s)
  (s_core s) (s_budget s) n (s_recovery s) (s_wakes s) (s_status s).
Definition set_recovery r s := Sup (s_terminalID s) (s_policy s) (s_commandTimeout s) (s_journal s)
  (s_core s) (s_budget s) (s_notes s) r (s_wakes s) (s_status s).
Definition set_wakes k s := Sup (s_terminalID s) (s_policy s) (s_commandTimeout s) (s_journal s)
  (s_core s) (s_budget s) (s_notes s) (s_recovery s) k (s_status s).
Definition set_status t s := Sup (s_terminalID s) (s_policy s) (s_commandTimeout s) (s_journal s)
  (s_core s) (s_budget s) (s_notes s) (s_recovery s) (s_wakes s) t.

Definition with_generation g c := Core (c_link c) g (c_replayThrough c) (c_acceptFrames c)
  (c_closed c) (c_degraded c) (c_degradedAt c) (c_recoveryPartial c) (c_publishedRevision c).
Definition with_accept a c := Core (c_link c) (c_generation c) (c_replayThrough c) a (c_closed c)
  (c_degraded c) (c_degradedAt c) (c_recoveryPartial c) (c_publishedRevision c).
Definition with_revision r c := Core (c_link c) (c_generation c) (c_replayThrough c)
  (c_acceptFrames c) (c_closed c) (c_degraded c) (c_degradedAt c) (c_recoveryPartial c) r.
Definition with_lastError e n := Notes e (n_lastNotice n) (n_lastProbe n).
Definition with_checkpoint c r := Recovery c (r_checkpointBusy r) (r_lastCheckpoint r)
  (r_checkpointDirty r) (r_colors r) (r_colorsRevision r).
Definition with_dirty d r := Recovery (r_checkpoint r) (r_checkpointBusy r) (r_lastCheckpoint r)
  d (r_colors r) (r_colorsRevision r).
Definition with_busy b r := Recovery (r_checkpoint r) b (r_lastCheckpoint r)
  (r_checkpointDirty r) (r_colors r) (r_colorsRevision r).

(** [publishStatusLocked], without the process and queue statistics. *)
Definition publishStatusLocked (now : time) (state : string) (s : rendererSupervisor)
    : rendererSupervisor :=
  set_status (Status (c_generation (s_core s)) state now (zlen (b_restarts (s_budget s)))
    (jt_Bytes (Stats (s_journal s))) (c_recoveryPartial (s_core s)) (n_lastError (s_notes s))) s.

Definition wakeLocked (s : rendererSupervisor) : rendererSupervisor :=
  set_wakes (Wakes (k_state (s_wakes s) + 1) (k_restart (s_wakes s))) s.

(** The non-blocking send on the restart channel. *)
Definition signalRestart (s : rendererSupervisor) : rendererSupervisor :=
  set_wakes (Wakes (k_state (s_wakes s)) true) s.

Definition newRendererSupervisor (now : time) (terminalID : string) (journal : rendererJournal)
    (commandTimeout : duration) (policy : rendererRestartPolicy) : rendererSupervisor :=
  let commandTimeout :=
    if commandTimeout <=? 0 then defaultRendererCommandTimeout else commandTimeout in
  publishStatusLocked now rendererStateStarting
    (Sup terminalID (normalized policy commandTimeout) commandTimeout journal
      (Core None 0 0 false false false time_zero false 0)
      (Budget [] false false false time_zero)
      (Notes "" time_zero time_zero)
      (Recovery None false time_zero false None 0)
      (Wakes 0 false)
      (Status 0 "" time_zero 0 0 false "")).

Definition describeLocked (cause : go_error) (s : rendererSupervisor) : go_error :=
  if (n_lastError (s_notes s) =? "")%string then cause
  else ENew (errorText cause +:+ ": " +:+ n_lastError (s_notes s)).

(** [noticeLocked]: [None] is a throttled notice. *)
Definition noticeLocked (now : time) (cause : go_error) (s : rendererSupervisor)
    : option go_error * rendererSupervisor :=
  if time_sub now (n_lastNotice (s_notes s)) <? po_DegradedNotice (s_policy s) then (None, s)
  else
    let s := set_notes (Notes (n_lastError (s_notes s)) now (n_lastProbe (s_notes s))) s in
    (Some (describeLocked cause s), s).

(** ** The restart budget *)

Record rendererRestartPlan := Plan {
  pl_allowed : bool;
  pl_charge : bool;
  pl_clean : bool;
}.

Definition planRestartLocked (now : time) (s : rendererSupervisor)
    : rendererRestartPlan * supBudget :=
  let b := s_budget s in
  let cutoff := now - po_Window (s_policy s) in
  let kept := List.filter (fun at_ => cutoff <? at_) (b_restarts b) in
  let forced := b_forceRestart b in
  let b := Budget kept (b_cleanStarted b) false (b_protocolMismatch b) (b_healthySince b) in
  let plan :=
    if b_protocolMismatch b then
      if negb forced then Plan false false false else Plan true false false
    else
      let exhausted := po_MaxRestarts (s_policy s) <=? zlen kept in
      let retained :=
        (0 <? jt_Events (Stats (s_journal s))) ||
        match r_checkpoint (s_recovery s) with Some _ => true | None => false end in
      let poisonEscape := exhausted && retained && negb (b_cleanStarted b) in
      if poisonEscape then Plan true false true
      else if forced then Plan true false false
      else if exhausted then Plan false false false
      else Plan true true false in
  (plan, b).

(** ** Starting a renderer *)

Record rendererInitParams := InitParams {
  ip_TerminalID : string;
  ip_Cols : Z;
  ip_Rows : Z;
  ip_CellWidth : Z;
  ip_CellHeight : Z;
  ip_Journal : list rendererJournalEvent;
  ip_JournalWatermark : Z;
  ip_JournalPartial : bool;
  ip_Checkpoint : option rendererCheckpoint;
  ip_CheckpointTail : list rendererJournalEvent;
  ip_CommandTimeoutMillis : Z;
  ip_Colors : option TerminalColors;
}.

(** Where a call of [startRenderer] is; [snap] is its journal snapshot,
    [applied] the revision of the colours it has given the worker. *)
Inductive startPhase :=
| StartSpawn
| StartCheck
| StartSnapshot
| StartLoad (snap : rendererJournalSnapshot)
| StartInit (snap : rendererJournalSnapshot) (params : rendererInitParams) (applied : Z)
| StartColors (snap : rendererJournalSnapshot) (init : rendererInitResult) (applied : Z)
| StartInteract (snap : rendererJournalSnapshot) (init : rendererInitResult) (revision : Z)
| StartInstall (snap : rendererJournalSnapshot) (init : rendererInitResult) (applied : Z)
| StartNotify.

Record startCall := StartCall {
  sc_byRun : bool;   (* called by the run loop, not by [Start] *)
  sc_cols : Z;
  sc_rows : Z;
  sc_phase : startPhase;
}.

(** ** The run loop *)

Inductive runState :=
| RunSelect
| RunRestart                                 (* took the token, about to [restart] *)
| RunRearm                                   (* the cooldown is over: [Restart] *)
| RunProbe (g : Z) (due : bool) (now : time)
| RunHealth (g : Z) (now : time)
| RunDone (g : Z) (now : time)
| RunRequest (e : go_error)                  (* about to call [requestRestart] *)
| RunReplaced (old : option Z) (clean : bool) (attempt : Z)
| RunBackoff (until : time)
| RunSpawn
| RunStarting (g : Z)
| RunExit.

(** ** Callers *)

Inductive sendOutcome :=
| OutSent (g : Z)          (* queued on that link *)
| OutReplayed              (* part of the replay of the renderer in place *)
| OutThrottled             (* refused, the notice suppressed *)
| OutError (e : go_error).

Inductive thread :=
(* [SendOutput] *)
| SendCheck (id : Z) (deadline : time)
| SendNotify (id : Z) (deadline : time) (g : Z) (wake : Z)
| SendRemain (id : Z) (deadline : time) (wake : Z)
| SendPark (id : Z) (deadline : time) (wake : Z)
| SendDone (id : Z) (outcome : sendOutcome)
(* [trySend] and its variants; [mutation]: [trySendCheckpointMutation] *)
| TryCheck (mutation : bool)
| TryPush (mutation : bool) (g : Z)
| TryDirty
| TryDone (e : option go_error)
(* [call] *)
| CallCheck
| CallLink (g : Z)
| CallDone (e : option go_error)
(* [captureCheckpoint]; [periodic]: started by [maybeCheckpoint] *)
| CapRead (periodic : bool)
| CapThrough (periodic : bool) (g : option Z) (generation : Z)
| CapCall (periodic : bool) (g : option Z) (generation through : Z)
| CapStore (periodic : bool) (g : option Z) (generation : Z) (checkpoint : rendererCheckpoint)
| CapDone (periodic : bool) (e : option go_error).

(** ** The world *)

Inductive publication :=
| PubSnapshot (g : Z) (partial : bool)
| PubPTYWrite (g : Z)
| PubEvent (g : Z)
| PubStale.

(** The supervisor with its goroutines, and the history the theorems speak of:
    what was published, the instants of the restarts charged to the budget, the
    links that were started and those that were failed, whether a restart was
    decided while a call of [Start] was still under way, and the parameters of
    the init call of each generation. *)
Record world := World {
  w_sup : rendererSupervisor;
  w_starts : gmap Z startCall;
  w_run : runState;
  w_frames : list (rendererWorkerFrame * Z);
  w_threads : gmap Z thread;
  w_closing : option Z;
  w_log : list publication;
  w_charges : list time;
  w_spawned : gset Z;
  w_failed : gset Z;
  w_overlap : bool;
  w_inits : gmap Z rendererInitParams;
}.

Definition w_set_sup s w := World s (w_starts w) (w_run w) (w_frames w) (w_threads w) (w_closing w)
  (w_log w) (w_charges w) (w_spawned w) (w_failed w) (w_overlap w) (w_inits w).
Definition w_set_starts x w := World (w_sup w) x (w_run w) (w_frames w) (w_threads w) (w_closing w)
  (w_log w) (w_charges w) (w_spawned w) (w_failed w) (w_overlap w) (w_inits w).
Definition w_set_run x w := World (w_sup w) (w_starts w) x (w_frames w) (w_threads w) (w_closing w)
  (w_log w) (w_charges w) (w_spawned w) (w_failed w) (w_overlap w) (w_inits w).
Definition w_set_frames x w := World (w_sup w) (w_starts w) (w_run w) x (w_threads w) (w_closing w)
  (w_log w) (w_charges w) (w_spawned w) (w_failed w) (w_overlap w) (w_inits w).
Definition w_set_threads x w := World (w_sup w) (w_starts w) (w_run w) (w_frames w) x (w_closing w)
  (w_log w) (w_charges w) (w_spawned w) (w_failed w) (w_overlap w) (w_inits w).
Definition w_set_closing x w := World (w_sup w) (w_starts w) (w_run w) (w_frames w) (w_threads w) x
  (w_log w) (w_charges w) (w_spawned w) (w_failed w) (w_overlap w) (w_inits w).
Definition w_publish p w := World (w_sup w) (w_starts w) (w_run w) (w_frames w) (w_threads w)
  (w_closing w) (w_log w ++ [p]) (w_charges w) (w_spawned w) (w_failed w) (w_overlap w) (w_inits w).
Definition w_charge t w := World (w_sup w) (w_starts w) (w_run w) (w_frames w) (w_threads w)
  (w_closing w) (w_log w) (t :: w_charges w) (w_spawned w) (w_failed w) (w_overlap w) (w_inits w).
Definition w_spawn g w := World (w_sup w) (w_starts w) (w_run w) (w_frames w) (w_threads w)
  (w_closing w) (w_log w) (w_charges w) ({[g]} ∪ w_spawned w) (w_failed w) (w_overlap w) (w_inits w).
Definition w_fail g w := World (w_sup w) (w_starts w) (w_run w) (w_frames w) (w_threads w)
  (w_closing w) (w_log w) (w_charges w) (w_spawned w) ({[g]} ∪ w_failed w) (w_overlap w) (w_inits w).
Definition w_overlapped o w := World (w_sup w) (w_starts w) (w_run w) (w_frames w) (w_threads w)
  (w_closing w) (w_log w) (w_charges w) (w_spawned w) (w_failed w) (w_overlap w || o) (w_inits w).

Definition w_init g params w := World (w_sup w) (w_starts w) (w_run w) (w_frames w) (w_threads w)
  (w_closing w) (w_log w) (w_charges w) (w_spawned w) (w_failed w) (w_overlap w)
  (<[g := params]> (w_inits w)).

Definition newWorld (s : rendererSupervisor) : world :=
  World s ∅ RunSelect [] ∅ None [] [] ∅ ∅ false ∅.

Definition failOption (g : option Z) (w : world) : world :=
  match g with Some g => w_fail g w | None => w end.

(** ** Operations

    [startRenderer], from its first critical section to its return. *)

Definition superseded (during : string) : go_error :=
  ENew ("renderer generation superseded " +:+ during +:+ " startup").

(** The call returns to [Start] or to the run loop, which retries. *)
Definition startReturn (g : Z) (sc : startCall) (err : option go_error) (w : world) : world :=
  let w := w_set_starts (delete g (w_starts w)) w in
  if sc_byRun sc then
    let w := w_set_run RunSelect w in
    match err with
    | Some _ => w_set_sup (signalRestart (w_sup w)) w
    | None => w
    end
  else w.

Definition startPhaseIs (g : Z) (sc : startCall) (p : startPhase) (w : world) : world :=
  w_set_starts (<[g := StartCall (sc_byRun sc) (sc_cols sc) (sc_rows sc) p]> (w_starts w)) w.

Definition startBegin (byRun : bool) (cols rows : Z) (w : world) : world :=
  let s := w_sup w in
  if c_closed (s_core s) then
    if byRun then w_set_sup (signalRestart s) (w_set_run RunSelect w) else w
  else
    let g := u64 (c_generation (s_core s) + 1) in
    let w := w_set_sup (set_core (with_accept false (with_generation g (s_core s))) s) w in
    let w := w_set_starts (<[g := StartCall byRun cols rows StartSpawn]> (w_starts w)) w in
    if byRun then w_set_run (RunStarting g) w else w.

(** The outcome of [startRendererLink]. *)
Definition startSpawned (now : time) (g : Z) (sc : startCall) (failed : option go_error) (w : world)
    : world :=
  match failed with
  | Some e =>
      let s := set_notes (with_lastError (errorText e) (s_notes (w_sup w))) (w_sup w) in
      startReturn g sc (Some e)
        (w_set_sup (publishStatusLocked now rendererStateRestarting s) w)
  | None => startPhaseIs g sc StartCheck (w_spawn g w)
  end.

Definition current (g : Z) (s : rendererSupervisor) : bool :=
  negb (c_closed (s_core s)) && (g =? c_generation (s_core s)).

Definition startChecked (g : Z) (sc : startCall) (w : world) : world :=
  if negb (current g (w_sup w))
  then startReturn g sc (Some (superseded "before")) (w_fail g w)
  else startPhaseIs g sc StartSnapshot w.

Definition startSnapshot (g : Z) (sc : startCall) (w : world) : world :=
  startPhaseIs g sc (StartLoad (Snapshot (s_journal (w_sup w)))) w.

(** The section that reads the checkpoint and the colours, and the parameters
    that follow from them. *)
Section Recover.
Context `{RecoveryCoder} (rendererNativeBuildIdentity : string).

Definition usableCheckpoint (s : rendererSupervisor) (snap : rendererJournalSnapshot)
    : option (rendererCheckpoint * list rendererJournalEvent) :=
  match r_checkpoint (s_recovery s) with
  | Some c =>
      if is_ok (validate rendererNativeBuildIdentity (s_terminalID s) c) then
        let '(tail, complete) := tailAfter snap (ck_AppliedEventID c) in
        if complete : bool then Some (c, js_Events tail) else None
      else None
  | None => None
  end.

Definition initParams (cols rows : Z) (snap : rendererJournalSnapshot) (s : rendererSupervisor)
    : rendererInitParams :=
  let usable := usableCheckpoint s snap in
  InitParams (s_terminalID s) cols rows (js_CellWidth snap) (js_CellHeight snap)
    (js_Events snap) (js_LastID snap) (js_Partial snap)
    (fst <$> usable) (match usable with Some u => u.2 | None => [] end)
    (Z.quot (s_commandTimeout s) millisecond) (r_colors (s_recovery s)).

Definition startLoad (g : Z) (sc : startCall) (snap : rendererJournalSnapshot) (w : world) : world :=
  let s := w_sup w in
  startPhaseIs g sc (StartInit snap (initParams (sc_cols sc) (sc_rows sc) snap s)
                       (r_colorsRevision (s_recovery s))) w.

(** The failure of the init call or of the handshake. *)
Definition startRefused (now : time) (g : Z) (sc : startCall) (mismatch : bool) (e : go_error)
    (w : world) : world :=
  let w := w_fail g w in
  let s := w_sup w in
  let s :=
    if g =? c_generation (s_core s) then set_core (with_accept false (s_core s)) s else s in
  let b := s_budget s in
  let s :=
    if mismatch
    then set_budget (Budget (b_restarts b) (b_cleanStarted b) (b_forceRestart b) true
                       (b_healthySince b)) s
    else s in
  let s := set_notes (with_lastError (errorText e) (s_notes s)) s in
  startReturn g sc (Some e)
    (w_set_sup (wakeLocked (publishStatusLocked now rendererStateRestarting s)) w).

(** The answer to "init": an error of the call, or the decoded reply. *)
Definition startInitialized (now : time) (g : Z) (sc : startCall) (executable : string)
    (snap : rendererJournalSnapshot) (applied : Z)
    (reply : result (result rendererInitResult)) (w : world) : world :=
  match reply with
  | Err e => startRefused now g sc false e w
  | Ok raw =>
      match verifyRendererProtocol executable raw with
      | Mismatch e => startRefused now g sc true e w
      | NotReady e => startRefused now g sc false e w
      | Verified =>
          match raw with
          | Ok init => startPhaseIs g sc (StartColors snap init applied) w
          | Err _ => w
          end
      end
  end.

(** The colours loop: it reads the colours, gives them to the worker if they
    are newer than what it has, and leaves when the install section finds
    nothing newer. *)
Definition startColors (g : Z) (sc : startCall) (snap : rendererJournalSnapshot)
    (init : rendererInitResult) (applied : Z) (w : world) : world :=
  let r := s_recovery (w_sup w) in
  if negb (r_colorsRevision r =? applied) &&
     match r_colors r with Some _ => true | None => false end
  then startPhaseIs g sc (StartInteract snap init (r_colorsRevision r)) w
  else startPhaseIs g sc (StartInstall snap init applied) w.

Definition startInteracted (g : Z) (sc : startCall) (snap : rendererJournalSnapshot)
    (init : rendererInitResult) (revision : Z) (failed : option go_error) (w : world) : world :=
  match failed with
  | Some e => startReturn g sc (Some e) (w_fail g w)
  | None => startPhaseIs g sc (StartInstall snap init revision) w
  end.

Definition installed (now : time) (g : Z) (snap : rendererJournalSnapshot)
    (init : rendererInitResult) (s : rendererSupervisor) : rendererSupervisor :=
  let c := s_core s in
  let b := s_budget s in
  let r := s_recovery s in
  let s := set_core (Core (Some g) (c_generation c) (js_LastID snap) true (c_closed c) false
    (c_degradedAt c)
    (ir_PartialRecovery init || (js_Partial snap && negb (ir_RestoredCheckpoint init))) 0) s in
  let s := set_budget (Budget (b_restarts b) (b_cleanStarted b) (b_forceRestart b) false now) s in
  let s := set_notes (Notes "" (n_lastNotice (s_notes s)) now) s in
  let s := set_recovery (Recovery (r_checkpoint r) (r_checkpointBusy r) now false (r_colors r)
    (r_colorsRevision r)) s in
  wakeLocked (publishStatusLocked now rendererStateReady s).

Definition startInstall (now : time) (g : Z) (sc : startCall) (snap : rendererJournalSnapshot)
    (init : rendererInitResult) (applied : Z) (w : world) : world :=
  let s := w_sup w in
  if negb (r_colorsRevision (s_recovery s) =? applied)
  then startPhaseIs g sc (StartColors snap init applied) w
  else if negb (current g s)
  then startReturn g sc (Some (superseded "during")) (w_fail g w)
  else startPhaseIs g sc StartNotify (w_set_sup (installed now g snap init s) w).

(** [requestRestart]: one section of both mutexes, then the stale mark under
    the publication mutex. *)
Definition requestRestart (now : time) (err : option go_error) (w : world) : world :=
  let s := w_sup w in
  if c_closed (s_core s) || negb (c_acceptFrames (s_core s)) then w
  else
    let s :=
      match err with
      | Some e => set_notes (with_lastError (errorText e) (s_notes s)) s
      | None => s
      end in
    let s := set_core (with_accept false (s_core s)) s in
    let s := wakeLocked (publishStatusLocked now rendererStateRestarting s) in
    w_publish PubStale (w_set_sup (signalRestart s) w).

(** The request for the first snapshot; [failed] is [TryNotify]'s answer. *)
Definition startNotified (now : time) (g : Z) (sc : startCall) (failed : option go_error) (w : world)
    : world :=
  match failed with
  | Some e => startReturn g sc (Some e) (requestRestart now (Some e) w)
  | None => startReturn g sc None w
  end.

(** *** Frames *)

Definition frameAdmitted (frame : rendererWorkerFrame) (s : rendererSupervisor) : bool :=
  (wf_Generation frame =? c_generation (s_core s)) && c_acceptFrames (s_core s) &&
  negb (c_closed (s_core s)).

(** [handleFrame], before and after decoding; [revision] is the decoded
    snapshot's. *)
Definition frameArrives (frame : rendererWorkerFrame) (revision : Z) (decodes : bool) (w : world)
    : world :=
  if frameAdmitted frame (w_sup w) && decodes
  then w_set_frames (w_frames w ++ [(frame, revision)]) w else w.

Definition framePublication (frame : rendererWorkerFrame) (partial : bool) : option publication :=
  if (wf_Type frame =? rendererFrameSnapshot)%string
  then Some (PubSnapshot (wf_Generation frame) partial)
  else if (wf_Type frame =? rendererFramePTYWrite)%string
  then Some (PubPTYWrite (wf_Generation frame))
  else if (wf_Type frame =? rendererFrameEvent)%string
  then Some (PubEvent (wf_Generation frame))
  else None.

Definition framePublishes (now : time) (frame : rendererWorkerFrame) (revision : Z) (w : world)
    : world :=
  let s := w_sup w in
  if negb (frameAdmitted frame s) then w
  else
    let s :=
      if (wf_Type frame =? rendererFrameSnapshot)%string
      then set_core (with_revision revision (s_core s)) s else s in
    let w := w_set_sup (publishStatusLocked now rendererStateReady s) w in
    match framePublication frame (c_recoveryPartial (s_core s)) with
    | Some p => w_publish p w
    | None => w
    end.

(** *** Restarts *)

(** [Restart], by the operator or by the run loop after the cooldown. *)
Definition Restart (s : rendererSupervisor) : rendererSupervisor :=
  if c_closed (s_core s) then s
  else
    let b := s_budget s in
    signalRestart (set_budget (Budget (b_restarts b) (b_cleanStarted b) true
      (b_protocolMismatch b) (b_healthySince b)) s).

Definition enterDegradedLocked (now : time) (w : world) : world :=
  let w := failOption (c_link (s_core (w_sup w))) w in
  let s := w_sup w in
  let c := s_core s in
  let s := set_core (Core None (c_generation c) (c_replayThrough c) false (c_closed c) true now
    (c_recoveryPartial c) (c_publishedRevision c)) s in
  let lastError :=
    if (n_lastError (s_notes s) =? "")%string then "renderer restart budget exhausted"
    else n_lastError (s_notes s) in
  let s := set_notes (Notes lastError time_zero (n_lastProbe (s_notes s))) s in
  w_set_sup (wakeLocked (publishStatusLocked now rendererStateDegraded s)) w.

(** A call of [Start] is under way. *)
Definition starterActive (w : world) : bool :=
  existsb (fun c => negb (sc_byRun c)) (map snd (map_to_list (w_starts w))).

(** [restart] up to the stale mark. *)
Definition restart (now : time) (w : world) : world :=
  let s := w_sup w in
  if c_closed (s_core s) then w_set_run RunSelect w
  else
    let '(plan, b) := planRestartLocked now s in
    let w := w_overlapped (starterActive w) (w_set_sup (set_budget b s) w) in
    if negb (pl_allowed plan)
    then w_set_run RunSelect (w_publish PubStale (enterDegradedLocked now w))
    else
      let s := w_sup w in
      let b := s_budget s in
      let '(b, w) :=
        if pl_charge plan
        then (Budget (b_restarts b ++ [now]) (b_cleanStarted b) (b_forceRestart b)
                (b_protocolMismatch b) (b_healthySince b), w_charge now w)
        else (b, w) in
      let '(b, r) :=
        if pl_clean plan
        then (Budget (b_restarts b) true (b_forceRestart b) (b_protocolMismatch b)
                (b_healthySince b), with_checkpoint None (s_recovery s))
        else (b, s_recovery s) in
      let c := s_core s in
      let s := set_core (Core None (c_generation c) (c_replayThrough c) false (c_closed c) false
        (c_degradedAt c) (c_recoveryPartial c) (c_publishedRevision c)) s in
      let s := set_recovery r (set_budget b s) in
      let s := wakeLocked (publishStatusLocked now rendererStateRestarting s) in
      w_set_run (RunReplaced (c_link c) (pl_clean plan) (zlen (b_restarts b)))
        (w_publish PubStale (w_set_sup s w)).

(** [restart] after the stale mark: the old link fails, a poisoned journal is
    dropped, the backoff runs. *)
Definition restartReplaced (now : time) (old : option Z) (clean : bool) (attempt : Z) (w : world)
    : world :=
  let w := failOption old w in
  let s := w_sup w in
  let w := if clean then w_set_sup (set_journal (Reset (s_journal s)) s) w else w in
  let backoff := i64 ((attempt - 1) * po_BackoffStep (s_policy s)) in
  if 0 <? backoff then w_set_run (RunBackoff (now + backoff)) w else w_set_run RunSpawn w.

Definition restartSpawn (w : world) : world :=
  let s := w_sup w in
  if c_closed (s_core s) then w_set_run RunSelect w
  else
    let stats := Stats (s_journal s) in
    let '(cols, rows) :=
      if (jt_Cols stats <=? 0) || (jt_Rows stats <=? 0) then (80, 24)
      else (jt_Cols stats, jt_Rows stats) in
    startBegin true cols rows w.

(** [tick]'s critical section. *)
Definition tick (now : time) (w : world) : world :=
  let s := w_sup w in
  let c := s_core s in
  if c_closed c then w_set_run RunExit w
  else
    let due :=
      match c_link c with
      | Some _ => defaultRendererHealthInterval <=? time_sub now (n_lastProbe (s_notes s))
      | None => false
      end in
    let s :=
      if due
      then set_notes (Notes (n_lastError (s_notes s)) (n_lastNotice (s_notes s)) now) s else s in
    let b := s_budget s in
    let s :=
      if match c_link c with Some _ => true | None => false end && c_acceptFrames c &&
         (0 <? zlen (b_restarts b)) &&
         (po_HealthyReset (s_policy s) <=? time_sub now (b_healthySince b))
      then publishStatusLocked now rendererStateReady
             (set_budget (Budget [] false (b_forceRestart b) (b_protocolMismatch b)
                (b_healthySince b)) s)
      else s in
    let w := w_set_sup s w in
    if c_degraded c && (po_Cooldown (s_policy s) <=? time_sub now (c_degradedAt c))
    then w_set_run RunRearm w
    else
      match c_link c with
      | None => w_set_run RunSelect w
      | Some g => w_set_run (RunProbe g due now) w
      end.

(** [maybeCheckpoint]'s critical section; [tid] is the new goroutine. *)
Definition maybeCheckpoint (now : time) (tid : Z) (w : world) : world :=
  let s := w_sup w in
  let c := s_core s in
  let r := s_recovery s in
  let due :=
    negb (c_closed c) && c_acceptFrames c && negb (r_checkpointBusy r) &&
    (second <=? time_sub now (r_lastCheckpoint r)) &&
    match r_checkpoint r with
    | None => true
    | Some ck =>
        negb (jt_LastID (Stats (s_journal s)) =? ck_AppliedEventID ck) || r_checkpointDirty r ||
        (cs_Generation (ck_State ck) <? c_publishedRevision c)
    end in
  if due then
    w_set_threads (<[tid := CapRead true]> (w_threads w))
      (w_set_sup (set_recovery (Recovery (r_checkpoint r) true now (r_checkpointDirty r)
         (r_colors r) (r_colorsRevision r)) s) w)
  else w.

(** *** Closing *)

Definition Close (now : time) (w : world) : world :=
  let s := w_sup w in
  let c := s_core s in
  if c_closed c then w
  else
    let s := set_core (Core None (c_generation c) (c_replayThrough c) false true false
      (c_degradedAt c) (c_recoveryPartial c) (c_publishedRevision c)) s in
    let s := set_recovery (with_checkpoint None (s_recovery s)) s in
    w_set_closing (c_link c)
      (w_set_sup (wakeLocked (publishStatusLocked now rendererStateClosed s)) w).

(** *** Colours and checkpoints from outside *)

Definition restoreColors (colors : option TerminalColors) (s : rendererSupervisor)
    : rendererSupervisor :=
  match colors with
  | None => s
  | Some _ =>
      if c_closed (s_core s) then s
      else
        let r := s_recovery s in
        set_recovery (Recovery (r_checkpoint r) (r_checkpointBusy r) (r_lastCheckpoint r) true
          colors (u64 (r_colorsRevision r + 1))) s
  end.

(** [reserved]: the quota's answer. *)
Definition restoreCheckpoint (checkpoint : option rendererCheckpoint) (reserved : bool)
    (s : rendererSupervisor) : bool * rendererSupervisor :=
  match checkpoint with
  | None => (false, s)
  | Some c =>
      if negb (is_ok (validate rendererNativeBuildIdentity (s_terminalID s) c)) then (false, s)
      else if c_closed (s_core s) || negb reserved then (false, s)
      else (true, set_recovery (with_checkpoint (Some c) (s_recovery s)) s)
  end.

(** *** Threads *)

(** What the operation a thread is about to do on a link answers, or which
    case of a select it takes. *)
Inductive answer :=
| AnsOk
| AnsErr (e : go_error)
| AnsClosed              (* the link is closed *)
| AnsCheckpoint (c : rendererCheckpoint)
| AnsWake
| AnsTimer
| AnsShutdown.

Definition setThread (tid : Z) (t : thread) (w : world) : world :=
  w_set_threads (<[tid := t]> (w_threads w)) w.

(** [SendOutput]. *)
Definition sendCheck (now : time) (tid id : Z) (deadline : time) (w : world) : world :=
  let s := w_sup w in
  let c := s_core s in
  if c_closed c then setThread tid (SendDone id (OutError errTerminalClosed)) w
  else if id <=? c_replayThrough c then setThread tid (SendDone id OutReplayed) w
  else if c_degraded c then
    let '(err, s) := noticeLocked now errRendererDegraded s in
    setThread tid (SendDone id (match err with Some e => OutError e | None => OutThrottled end))
      (w_set_sup s w)
  else
    match c_link c with
    | Some g =>
        if c_acceptFrames c then setThread tid (SendNotify id deadline g (k_state (s_wakes s))) w
        else setThread tid (SendRemain id deadline (k_state (s_wakes s))) w
    | None => setThread tid (SendRemain id deadline (k_state (s_wakes s))) w
    end.

Definition sendNotify (tid id : Z) (deadline : time) (g wake : Z) (ans : answer) (w : world)
    : option world :=
  match ans with
  | AnsOk => Some (setThread tid (SendDone id (OutSent g)) w)
  | AnsClosed => Some (setThread tid (SendRemain id deadline wake) w)
  | AnsErr e => Some (setThread tid (SendDone id (OutError e)) w)
  | AnsShutdown =>
      if c_closed (s_core (w_sup w))
      then Some (setThread tid (SendDone id (OutError errTerminalClosed)) w) else None
  | _ => None
  end.

Definition sendRemain (now : time) (tid id : Z) (deadline wake : Z) (w : world) : world :=
  if time_sub deadline now <=? 0 then
    let '(err, s) := noticeLocked now errRendererUnavailable (w_sup w) in
    setThread tid (SendDone id (match err with Some e => OutError e | None => OutThrottled end))
      (w_set_sup s w)
  else setThread tid (SendPark id deadline wake) w.

Definition sendPark (now : time) (tid id : Z) (deadline wake : Z) (ans : answer) (w : world)
    : option world :=
  match ans with
  | AnsWake =>
      if negb (k_state (s_wakes (w_sup w)) =? wake)
      then Some (setThread tid (SendCheck id deadline) w) else None
  | AnsTimer => if deadline <=? now then Some (setThread tid (SendCheck id deadline) w) else None
  | AnsShutdown =>
      if c_closed (s_core (w_sup w))
      then Some (setThread tid (SendDone id (OutError errTerminalClosed)) w) else None
  | _ => None
  end.

(** The reasons [trySend] and [call] refuse for; [call] also refuses while the
    link is not accepted. *)
Definition refusal (needsAccept : bool) (s : rendererSupervisor) : option go_error :=
  let c := s_core s in
  if c_closed c then Some errTerminalClosed
  else if c_degraded c then Some (describeLocked errRendererDegraded s)
  else
    match c_link c with
    | None => Some (describeLocked errRendererUnavailable s)
    | Some _ =>
        if needsAccept && negb (c_acceptFrames c)
        then Some (describeLocked errRendererUnavailable s) else None
    end.

Definition trySend (tid : Z) (mutation : bool) (w : world) : world :=
  match refusal false (w_sup w), c_link (s_core (w_sup w)) with
  | None, Some g => setThread tid (TryPush mutation g) w
  | e, _ => setThread tid (TryDone e) w
  end.

Definition tryPush (tid : Z) (mutation : bool) (ans : answer) (w : world) : option world :=
  match ans with
  | AnsOk => Some (setThread tid (if mutation then TryDirty else TryDone None) w)
  | AnsClosed => Some (setThread tid (TryDone (Some errRendererLinkClosed)) w)
  | AnsErr e => Some (setThread tid (TryDone (Some e)) w)
  | _ => None
  end.

Definition markDirty (tid : Z) (w : world) : world :=
  let s := w_sup w in
  setThread tid (TryDone None) (w_set_sup (set_recovery (with_dirty true (s_recovery s)) s) w).

Definition call (tid : Z) (w : world) : world :=
  match refusal true (w_sup w), c_link (s_core (w_sup w)) with
  | None, Some g => setThread tid (CallLink g) w
  | e, _ => setThread tid (CallDone e) w
  end.

Definition callLink (tid : Z) (ans : answer) (w : world) : option world :=
  match ans with
  | AnsOk => Some (setThread tid (CallDone None) w)
  | AnsErr e => Some (setThread tid (CallDone (Some e)) w)
  | _ => None
  end.

(** [captureCheckpoint], its two critical sections and the call between, and
    the end of the goroutine of [maybeCheckpoint]. *)
Definition captureRead (tid : Z) (periodic : bool) (w : world) : world :=
  let s := w_sup w in
  let c := s_core s in
  let w := w_set_sup (set_recovery (with_dirty false (s_recovery s)) s) w in
  if negb (c_closed c) && c_acceptFrames c &&
     match c_link c with Some _ => true | None => false end
  then setThread tid (CapThrough periodic (c_link c) (c_generation c)) w
  else setThread tid (CapDone periodic (Some errRendererUnavailable)) w.

Definition captureThrough (tid : Z) (periodic : bool) (g : option Z) (generation : Z) (w : world)
    : world :=
  setThread tid (CapCall periodic g generation (jt_LastID (Stats (s_journal (w_sup w))))) w.

Definition captureCall (tid : Z) (periodic : bool) (g : option Z) (generation through : Z)
    (ans : answer) (w : world) : option world :=
  let fails e := Some (setThread tid (CapDone periodic (Some e)) w) in
  match ans with
  | AnsErr e => fails e
  | AnsCheckpoint ck =>
      match validate rendererNativeBuildIdentity (s_terminalID (w_sup w)) ck with
      | Err e => fails e
      | Ok _ =>
          if negb (ck_RendererGeneration ck =? generation) || (ck_AppliedEventID ck <? through)
          then fails (ENew "renderer checkpoint generation or applied watermark is invalid")
          else Some (setThread tid (CapStore periodic g generation ck) w)
      end
  | _ => None
  end.

Definition captureStore (tid : Z) (periodic : bool) (g : option Z) (generation : Z)
    (ck : rendererCheckpoint) (reserved : bool) (w : world) : world :=
  let s := w_sup w in
  let c := s_core s in
  let r := s_recovery s in
  if c_closed c || negb (c_acceptFrames c) || negb (bool_decide (c_link c = g)) ||
     negb (c_generation c =? generation)
  then setThread tid (CapDone periodic (Some errRendererUnavailable)) w
  else if jt_LastID (Stats (s_journal s)) <? ck_AppliedEventID ck
  then setThread tid (CapDone periodic
         (Some (ENew "renderer checkpoint watermark is ahead of journal"))) w
  else if match r_checkpoint r with
          | None => true
          | Some old => ck_AppliedEventID old <=? ck_AppliedEventID ck
          end
  then
    if negb reserved
    then setThread tid (CapDone periodic
           (Some (ENew "daemon retained checkpoint memory quota is full"))) w
    else setThread tid (CapDone periodic None)
           (w_set_sup (set_recovery (with_checkpoint (Some ck) r) s) w)
  else setThread tid (CapDone periodic None) w.

Definition captureDone (tid : Z) (periodic : bool) (err : option go_error) (w : world) : world :=
  let w := w_set_threads (delete tid (w_threads w)) w in
  if periodic then
    let s := w_sup w in
    let r := match err with Some _ => with_dirty true (s_recovery s) | None => s_recovery s end in
    w_set_sup (set_recovery (with_busy false r) s) w
  else w.

Definition threadStep (now : time) (tid : Z) (ans : answer) (w : world) : option world :=
  match w_threads w !! tid with
  | Some (SendCheck id deadline) => Some (sendCheck now tid id deadline w)
  | Some (SendNotify id deadline g wake) => sendNotify tid id deadline g wake ans w
  | Some (SendRemain id deadline wake) => Some (sendRemain now tid id deadline wake w)
  | Some (SendPark id deadline wake) => sendPark now tid id deadline wake ans w
  | Some (TryCheck mutation) => Some (trySend tid mutation w)
  | Some (TryPush mutation g) => tryPush tid mutation ans w
  | Some TryDirty => Some (markDirty tid w)
  | Some CallCheck => Some (call tid w)
  | Some (CallLink g) => callLink tid ans w
  | Some (CapRead periodic) => Some (captureRead tid periodic w)
  | Some (CapThrough periodic g generation) => Some (captureThrough tid periodic g generation w)
  | Some (CapCall periodic g generation through) =>
      captureCall tid periodic g generation through ans w
  | Some (CapStore periodic g generation ck) =>
      Some (captureStore tid periodic g generation ck
              (match ans with AnsOk => true | _ => false end) w)
  | Some (CapDone periodic e) => Some (captureDone tid periodic e w)
  | _ => None
  end.

(** ** Steps *)

Inductive startAnswer :=
| SAOk
| SAErr (e : go_error)
| SAReply (executable : string) (reply : result (result rendererInitResult)).

Definition startStep (now : time) (g : Z) (ans : startAnswer) (w : world) : option world :=
  match w_starts w !! g with
  | None => None
  | Some sc =>
      match sc_phase sc, ans with
      | StartSpawn, SAOk => Some (startSpawned now g sc None w)
      | StartSpawn, SAErr e => Some (startSpawned now g sc (Some e) w)
      | StartCheck, _ => Some (startChecked g sc w)
      | StartSnapshot, _ => Some (startSnapshot g sc w)
      | StartLoad snap, _ => Some (startLoad g sc snap w)
      | StartInit snap params applied, SAReply executable reply =>
          Some (startInitialized now g sc executable snap applied reply (w_init g params w))
      | StartColors snap init applied, _ => Some (startColors g sc snap init applied w)
      | StartInteract snap init revision, SAOk =>
          Some (startInteracted g sc snap init revision None w)
      | StartInteract snap init revision, SAErr e =>
          Some (startInteracted g sc snap init revision (Some e) w)
      | StartInstall snap init applied, _ => Some (startInstall now g sc snap init applied w)
      | StartNotify, SAOk => Some (startNotified now g sc None w)
      | StartNotify, SAErr e => Some (startNotified now g sc (Some e) w)
      | _, _ => None
      end
  end.

(** The run loop between its critical sections; [err] is what the link answers
    to the health probe, to the health check, or the failure of a dead link. *)
Definition runStep (now : time) (err : option go_error) (tid : Z) (w : world) : option world :=
  match w_run w with
  | RunSelect => if c_closed (s_core (w_sup w)) then Some (w_set_run RunExit w) else None
  | RunRestart => Some (restart now w)
  | RunRearm => Some (w_set_run RunSelect (w_set_sup (Restart (w_sup w)) w))
  | RunProbe g due at_ =>
      match err with
      | Some e => if due then Some (w_set_run (RunRequest e) w) else None
      | None => Some (w_set_run (RunHealth g at_) w)
      end
  | RunHealth g at_ =>
      match err with
      | Some e => Some (w_set_run (RunRequest e) w)
      | None => Some (w_set_run (RunDone g at_) w)
      end
  | RunDone g at_ =>
      match err with
      | Some e => Some (w_set_run (RunRequest e) w)
      | None =>
          match w_threads w !! tid with
          | None => Some (w_set_run RunSelect (maybeCheckpoint at_ tid w))
          | Some _ => None
          end
      end
  | RunRequest e => Some (w_set_run RunSelect (requestRestart now (Some e) w))
  | RunReplaced old clean attempt => Some (restartReplaced now old clean attempt w)
  | RunBackoff until =>
      if until <=? now then Some (w_set_run RunSpawn w)
      else if c_closed (s_core (w_sup w)) then Some (w_set_run RunSelect w) else None
  | RunSpawn => Some (restartSpawn w)
  | RunStarting _ | RunExit => None
  end.

Inductive event :=
| EvAppend (op : journal_op)          (* the terminal journals output or a resize *)
| EvStart (cols rows : Z)
| EvStartStep (g : Z) (ans : startAnswer)
| EvFrame (frame : rendererWorkerFrame) (revision : Z) (decodes : bool)
| EvFramePublish (index : nat)
| EvWake                              (* the run loop takes the restart token *)
| EvTick
| EvRun (err : option go_error) (tid : Z)
| EvRestart
| EvClose
| EvCloseFail
| EvColors (colors : option TerminalColors)
| EvCheckpoint (checkpoint : option rendererCheckpoint) (reserved : bool)
| EvThread (tid : Z) (ans : answer)
| EvSend (tid id : Z)                 (* [SendOutput] of a journaled event *)
| EvTry (tid : Z) (mutation : bool)
| EvQuery (tid : Z)
| EvCapture (tid : Z).

Definition newThread (tid : Z) (t : thread) (w : world) : option world :=
  match w_threads w !! tid with None => Some (setThread tid t w) | Some _ => None end.

Definition onSup (f : rendererSupervisor -> rendererSupervisor) (w : world) : world :=
  w_set_sup (f (w_sup w)) w.

(** One step at the instant [now]; [None]: the event is not enabled. *)
Definition step (now : time) (w : world) (ev : event) : option world :=
  match ev with
  | EvAppend op =>
      match op with
      | OpReset => None
      | _ => Some (onSup (fun s => set_journal (journal_step (s_journal s) op) s) w)
      end
  | EvStart cols rows => Some (startBegin false cols rows w)
  | EvStartStep g ans => startStep now g ans w
  | EvFrame frame revision decodes => Some (frameArrives frame revision decodes w)
  | EvFramePublish i =>
      match w_frames w !! i with
      | Some (frame, revision) =>
          Some (framePublishes now frame revision
                  (w_set_frames (take i (w_frames w) ++ drop (S i) (w_frames w)) w))
      | None => None
      end
  | EvWake =>
      match w_run w, k_restart (s_wakes (w_sup w)) with
      | RunSelect, true =>
          Some (w_set_run RunRestart
                  (onSup (fun s => set_wakes (Wakes (k_state (s_wakes s)) false) s) w))
      | _, _ => None
      end
  | EvTick => match w_run w with RunSelect => Some (tick now w) | _ => None end
  | EvRun err tid => runStep now err tid w
  | EvRestart => Some (onSup Restart w)
  | EvClose => Some (Close now w)
  | EvCloseFail =>
      match w_closing w with
      | Some g => Some (w_set_closing None (w_fail g w))
      | None => None
      end
  | EvColors colors => Some (onSup (restoreColors colors) w)
  | EvCheckpoint checkpoint reserved =>
      Some (onSup (fun s => (restoreCheckpoint checkpoint reserved s).2) w)
  | EvThread tid ans => threadStep now tid ans w
  | EvSend tid id =>
      if (0 <? id) && (id <=? j_nextID (s_journal (w_sup w)))
      then newThread tid (SendCheck id (now + po_SendGrace (s_policy (w_sup w)))) w else None
  | EvTry tid mutation => newThread tid (TryCheck mutation) w
  | EvQuery tid => newThread tid CallCheck w
  | EvCapture tid => newThread tid (CapRead false) w
  end.

(** Schedules: events that are not enabled are skipped. *)
Definition next (w : world) (e : time * event) : world := default w (step e.1 w e.2).

Definition run (w : world) (es : list (time * event)) : world := foldl next w es.

(** The instants of a schedule do not decrease and start after the zero time. *)
Fixpoint clocked (t : time) (es : list (time * event)) : Prop :=
  match es with [] => True | e :: rest => t <= e.1 /\ clocked e.1 rest end.

End Recover.
