(* ===== verification/RendererSupervisorSafe.v ===== *)
(** * What the supervisor promises

    Invariants and theorems about [RendererSupervisor]: what may be published,
    the restart budget, the output a renderer has seen, recovery from the
    degraded state, and the worker processes. *)

From S2P Require Import Prelude Journal JournalOrder RendererLink RendererCheckpoint.
From S2P Require Import RendererRecovery RendererSupervisor.
Local Open Scope Z_scope.

(** ** Steps by component

    A step changes the parts of the world the theorems look at in few ways; the
    rest of it is invisible. *)

Ltac sup_simpl := cbn [w_sup w_starts w_run w_frames w_threads w_closing w_log w_charges w_spawned
  w_failed w_overlap w_inits w_init w_set_sup w_set_starts w_set_run w_set_frames w_set_threads w_set_closing
  w_publish w_charge w_spawn w_fail w_overlapped
  set_journal set_core set_budget set_notes set_recovery set_wakes set_status
  s_terminalID s_policy s_commandTimeout s_journal s_core s_budget s_notes s_recovery s_wakes s_status
  with_generation with_accept with_revision publishStatusLocked wakeLocked signalRestart
  c_link c_generation c_replayThrough c_acceptFrames c_closed c_degraded c_degradedAt
  c_recoveryPartial c_publishedRevision startPhaseIs setThread onSup
  b_restarts b_cleanStarted b_forceRestart b_protocolMismatch b_healthySince sc_phase sc_byRun] in *.

(** Which phases of a start precede the installation of its link. *)
Definition preInstall (p : startPhase) : bool :=
  match p with StartNotify => false | _ => true end.

Definition phaseSnap (p : startPhase) : option rendererJournalSnapshot :=
  match p with
  | StartLoad snap | StartInit snap _ _ | StartColors snap _ _ | StartInteract snap _ _
  | StartInstall snap _ _ => Some snap
  | _ => None
  end.

(** The handshake is behind the call. *)
Definition pastHandshake (p : startPhase) : bool :=
  match p with
  | StartColors _ _ _ | StartInteract _ _ _ | StartInstall _ _ _ | StartNotify => true
  | _ => false
  end.

(** *** Moves

    [move V w w']: what a step may do to the core, the starts in flight, the
    log and the journal's last identity; [V] are the generations whose reply
    the step verifies. *)
Record view := View {
  v_core : supCore;
  v_starts : gmap Z startPhase;
  v_log : list publication;
  v_last : Z;
}.

Definition viewOf (w : world) : view :=
  View (s_core (w_sup w)) (sc_phase <$> w_starts w) (w_log w) (j_nextID (s_journal (w_sup w))).

(** The core may change in fields no theorem mentions. *)
Definition core_same (c c' : supCore) : Prop :=
  c_link c' = c_link c /\ c_generation c' = c_generation c /\
  c_replayThrough c' = c_replayThrough c /\ c_acceptFrames c' = c_acceptFrames c /\
  c_closed c' = c_closed c.

Inductive move (V : Z -> Prop) : view -> view -> Prop :=
(* nothing visible; a start may advance without installing, or end *)
| MQuiet c c' st st' log last :
    core_same c c' ->
    (forall g p', st' !! g = Some p' ->
       exists p, st !! g = Some p /\
         (preInstall p' = true -> preInstall p = true) /\
         (phaseSnap p' = phaseSnap p \/ p' = StartCheck \/ p' = StartSnapshot \/
            exists snap, p' = StartLoad snap /\ js_LastID snap = last) /\
         (pastHandshake p' = true -> pastHandshake p = true \/ V g)) ->
    move V (View c st log last) (View c' st' log last)
(* the journal grows *)
| MAppend c st log last last' :
    last <= last' <= last + 1 -> move V (View c st log last) (View c st log last')
(* a new start *)
| MBegin c c' st log last p :
    c_closed c = false -> c_generation c' = c_generation c + 1 -> c_acceptFrames c' = false ->
    c_link c' = c_link c -> c_replayThrough c' = c_replayThrough c -> c_closed c' = c_closed c ->
    p = StartSpawn ->
    move V (View c st log last) (View c' (<[c_generation c' := p]> st) log last)
(* the current start installs its link *)
| MInstall c c' st log last snap :
    let g := c_generation c in
    (exists p, st !! g = Some p /\ preInstall p = true /\ pastHandshake p = true /\
       phaseSnap p = Some snap) ->
    c_closed c = false -> c_closed c' = false ->
    c_generation c' = g -> c_link c' = Some g -> c_acceptFrames c' = true ->
    c_replayThrough c' = js_LastID snap ->
    move V (View c st log last) (View c' (<[g := StartNotify]> st) log last)
(* frames are refused from now on, with a stale mark or without; the journal
   may be dropped by then, a start may end *)
| MRefuse c c' st st' log log' last :
    c_acceptFrames c' = false -> c_generation c' = c_generation c ->
    c_replayThrough c' = c_replayThrough c -> (c_closed c = true -> c_closed c' = true) ->
    (log' = log \/ log' = log ++ [PubStale] /\ c_closed c = false) ->
    (forall g p', st' !! g = Some p' -> st !! g = Some p') ->
    move V (View c st log last) (View c' st' log' last)
(* a frame of the current renderer is published *)
| MPublish c c' st log last p :
    core_same c c' -> c_acceptFrames c = true -> c_closed c = false ->
    match p with
    | PubSnapshot g _ | PubPTYWrite g | PubEvent g => g = c_generation c
    | PubStale => False
    end ->
    move V (View c st log last) (View c' st (log ++ [p]) last).

Lemma core_same_refl c : core_same c c.
Proof. done. Qed.
#[local] Hint Resolve core_same_refl : core.

(** Nothing visible but the core's other fields. *)
Lemma quiet_move V w w' :
  core_same (s_core (w_sup w)) (s_core (w_sup w')) ->
  w_starts w' = w_starts w -> w_log w' = w_log w ->
  j_nextID (s_journal (w_sup w')) = j_nextID (s_journal (w_sup w)) ->
  move V (viewOf w) (viewOf w').
Proof.
  intros Hc Hs Hl Hj. unfold viewOf. rewrite Hs, Hl, Hj. apply MQuiet; [done|].
  intros g p Hp. exists p. auto.
Qed.

(** A start advances. *)
Lemma phase_move V w g sc p' w' :
  w_starts w !! g = Some sc ->
  (preInstall p' = true -> preInstall (sc_phase sc) = true) ->
  (phaseSnap p' = phaseSnap (sc_phase sc) \/ p' = StartCheck \/ p' = StartSnapshot \/
     exists snap, p' = StartLoad snap /\ js_LastID snap = j_nextID (s_journal (w_sup w))) ->
  (pastHandshake p' = true -> pastHandshake (sc_phase sc) = true \/ V g) ->
  w_sup w' = w_sup w -> w_log w' = w_log w ->
  w_starts w' = <[g := StartCall (sc_byRun sc) (sc_cols sc) (sc_rows sc) p']> (w_starts w) ->
  move V (viewOf w) (viewOf w').
Proof.
  intros Hg Hpre Hsnap Hpast Hs Hl Hst. unfold viewOf. rewrite Hs, Hl, Hst.
  apply MQuiet; [done|]. intros h q Hq. rewrite fmap_insert in Hq.
  apply lookup_insert_Some in Hq as [[<- <-]|[Hne Hq]].
  - exists (sc_phase sc). rewrite lookup_fmap, Hg. split; [done|]. auto.
  - exists q. auto.
Qed.

(** A start returns; the supervisor may be marked besides. *)
Lemma startReturn_view g sc err w :
  viewOf (startReturn g sc err w) =
    View (s_core (w_sup w)) (delete g (sc_phase <$> w_starts w)) (w_log w)
      (j_nextID (s_journal (w_sup w))).
Proof.
  unfold startReturn, viewOf. destruct (sc_byRun sc); [destruct err|]; sup_simpl;
    by rewrite fmap_delete.
Qed.

Lemma return_move V w w' g sc err :
  core_same (s_core (w_sup w)) (s_core (w_sup w')) ->
  w_starts w' = w_starts w -> w_log w' = w_log w ->
  s_journal (w_sup w') = s_journal (w_sup w) ->
  move V (viewOf w) (viewOf (startReturn g sc err w')).
Proof.
  intros Hc Hs Hl Hj. rewrite startReturn_view, Hs, Hl, Hj. unfold viewOf.
  apply MQuiet; [done|]. intros h p [_ Hp]%lookup_delete_Some. exists p. auto.
Qed.

(** Frames are refused, and a start may return. *)
Lemma refuse_move V w c' st' log' last :
  c_acceptFrames c' = false -> c_generation c' = c_generation (s_core (w_sup w)) ->
  c_replayThrough c' = c_replayThrough (s_core (w_sup w)) ->
  (c_closed (s_core (w_sup w)) = true -> c_closed c' = true) ->
  (log' = w_log w \/ log' = w_log w ++ [PubStale] /\ c_closed (s_core (w_sup w)) = false) ->
  (st' = (sc_phase <$> w_starts w) \/ exists g, st' = delete g (sc_phase <$> w_starts w)) ->
  last = j_nextID (s_journal (w_sup w)) ->
  move V (viewOf w) (View c' st' log' last).
Proof.
  intros Ha Hg Hr Hc Hl Hst ->. unfold viewOf. apply MRefuse; try done.
  intros g p' Hp. destruct Hst as [->|[h ->]]; [done|]. by apply lookup_delete_Some in Hp as [_ ?].
Qed.

Ltac phase w g sc Hp :=
  eapply (phase_move _ w g sc); rewrite ?Hp; simpl; try done; eauto 7.

Section Steps.
Context `{RecoveryCoder} (build : string).
Implicit Types (w : world) (g : Z).

(** The generations whose init reply the event verifies. *)
Definition verifies (ev : event) (g : Z) : Prop :=
  exists executable r, ev = EvStartStep g (SAReply executable (Ok (Ok r))) /\
    ir_Protocol r = rendererWorkerProtocolVersion /\ ir_Ready r = true.

Definition small w : Prop :=
  0 <= c_generation (s_core (w_sup w)) < two64 - 1 /\
  0 <= j_nextID (s_journal (w_sup w)) < two64 - 1.

Lemma begin_move V byRun cols rows w :
  small w -> move V (viewOf w) (viewOf (startBegin byRun cols rows w)).
Proof.
  intros [Hg _]. unfold startBegin. destruct (c_closed _) eqn:Ec.
  { destruct byRun; by apply quiet_move. }
  rewrite u64_small by lia.
  assert (forall w', s_core (w_sup w') = with_accept false
      (with_generation (c_generation (s_core (w_sup w)) + 1) (s_core (w_sup w))) ->
    w_starts w' = <[c_generation (s_core (w_sup w)) + 1 := StartCall byRun cols rows StartSpawn]> (w_starts w) ->
    w_log w' = w_log w -> s_journal (w_sup w') = s_journal (w_sup w) ->
    move V (viewOf w) (viewOf w')) as Hm.
  { intros w' E1 E2 E3 E4. unfold viewOf. rewrite E1, E2, E3, E4, fmap_insert.
    apply (MBegin V _ (with_accept false (with_generation (c_generation (s_core (w_sup w)) + 1)
      (s_core (w_sup w))))); done. }
  destruct byRun; by apply Hm.
Qed.

Lemma request_cases now err w :
  requestRestart now err w = w \/
  c_closed (s_core (w_sup w)) = false /\
  s_core (w_sup (requestRestart now err w)) = with_accept false (s_core (w_sup w)) /\
  w_starts (requestRestart now err w) = w_starts w /\
  w_log (requestRestart now err w) = w_log w ++ [PubStale] /\
  s_journal (w_sup (requestRestart now err w)) = s_journal (w_sup w).
Proof.
  unfold requestRestart. case_match eqn:E; [by left|right]. bool_to_prop. by destruct err.
Qed.

Lemma request_move V now err w : move V (viewOf w) (viewOf (requestRestart now err w)).
Proof.
  destruct (request_cases now err w) as [->|(Hc & E1 & E2 & E3 & E4)]; [by apply quiet_move|].
  unfold viewOf at 2. rewrite E1, E2, E3, E4. apply refuse_move; try done; [by right|by left].
Qed.

Lemma refused_move V now g sc mismatch e w :
  move V (viewOf w) (viewOf (startRefused now g sc mismatch e w)).
Proof.
  unfold startRefused. rewrite startReturn_view. sup_simpl. destruct (g =? _) eqn:E.
  - destruct mismatch; sup_simpl; apply refuse_move; try done; try (by left); right; by eexists.
  - destruct mismatch; sup_simpl; apply MQuiet; try done;
      intros h p [_ Hh]%lookup_delete_Some; exists p; auto.
Qed.

Lemma initialized_move V now g sc executable snap applied reply w params :
  w_starts w !! g = Some sc -> sc_phase sc = StartInit snap params applied ->
  (forall r, reply = Ok (Ok r) -> ir_Protocol r = rendererWorkerProtocolVersion ->
     ir_Ready r = true -> V g) ->
  move V (viewOf w) (viewOf (startInitialized now g sc executable snap applied reply w)).
Proof.
  intros Hg Hp HV. unfold startInitialized.
  destruct reply as [raw|e]; [|apply refused_move].
  destruct (verifyRendererProtocol executable raw) as [|e|e] eqn:Ev; [|apply refused_move..].
  destruct raw as [init|e]; [|by apply quiet_move].
  eapply (phase_move V w g sc); rewrite ?Hp; simpl; try done; [by left|].
  - intros _. right. unfold verifyRendererProtocol in Ev.
    destruct (_ =? _) eqn:E1; [|done]. destruct (negb _) eqn:E2; [done|]. bool_to_prop.
    by apply (HV init).
Qed.

Lemma install_move V now g sc snap init applied w :
  w_starts w !! g = Some sc -> sc_phase sc = StartInstall snap init applied ->
  move V (viewOf w) (viewOf (startInstall now g sc snap init applied w)).
Proof.
  intros Hg Hp. unfold startInstall.
  case_match.
  { phase w g sc Hp. }
  destruct (current g (w_sup w)) eqn:Ecur; simpl.
  2: { by apply return_move. }
  unfold current in Ecur. bool_to_prop. subst g.
  unfold viewOf. sup_simpl. rewrite fmap_insert. unfold installed. sup_simpl.
  eapply MInstall with (snap := snap); sup_simpl; try done.
  exists (StartInstall snap init applied). rewrite lookup_fmap, Hg. simpl. by rewrite Hp.
Qed.

Lemma start_move now g ans w w' :
  small w -> startStep build now g ans w = Some w' ->
  move (verifies (EvStartStep g ans)) (viewOf w) (viewOf w').
Proof.
  intros Hsm. unfold startStep. destruct (w_starts w !! g) as [sc|] eqn:Hg; [|done].
  destruct (sc_phase sc) eqn:Hp; intros Hs.
  - destruct ans; try done; injection Hs as <-; unfold startSpawned.
    + phase w g sc Hp.
    + by apply return_move.
  - assert (w' = startChecked g sc w) as -> by (by destruct ans; injection Hs).
    unfold startChecked. destruct (current g (w_sup w)); simpl; [phase w g sc Hp|by apply return_move].
  - assert (w' = startSnapshot g sc w) as -> by (by destruct ans; injection Hs).
    unfold startSnapshot. phase w g sc Hp.
  - assert (w' = startLoad build g sc snap w) as -> by (by destruct ans; injection Hs).
    unfold startLoad. phase w g sc Hp.
  - destruct ans; try done; injection Hs as <-.
    change (viewOf w) with (viewOf (w_init g params w)).
    eapply (initialized_move _ now g sc _ snap applied _ (w_init g params w)); try done. intros r -> ? ?. by eexists _, _.
  - assert (w' = startColors g sc snap init applied w) as -> by (by destruct ans; injection Hs).
    unfold startColors. destruct (_ && _); phase w g sc Hp.
  - destruct ans; try done; injection Hs as <-; unfold startInteracted.
    + phase w g sc Hp.
    + by apply return_move.
  - assert (w' = startInstall now g sc snap init applied w) as -> by (by destruct ans; injection Hs).
    by apply install_move.
  - destruct ans; try done; injection Hs as <-; unfold startNotified; [by apply return_move|].
    rewrite startReturn_view.
    destruct (request_cases now (Some e) w) as [->|(Hc & E1 & E2 & E3 & E4)].
    + rewrite <- startReturn_view with (sc := sc) (err := None). by apply return_move.
    + rewrite E1, E2, E3, E4. apply refuse_move; try done; [by right|right; by eexists].
Qed.

Lemma failOption_view (o : option Z) w :
  w_sup (failOption o w) = w_sup w /\ w_starts (failOption o w) = w_starts w /\
  w_log (failOption o w) = w_log w.
Proof. by destruct o. Qed.

Lemma restart_move V now w : move V (viewOf w) (viewOf (restart now w)).
Proof.
  unfold restart. destruct (c_closed _) eqn:Ec; [by apply quiet_move|].
  destruct (planRestartLocked now (w_sup w)) as [plan b].
  destruct (pl_allowed plan); simpl negb; cbv iota.
  - destruct (pl_charge plan), (pl_clean plan); unfold viewOf at 2; sup_simpl;
      apply refuse_move; sup_simpl; try done; solve [by right|by left].
  - unfold enterDegradedLocked. sup_simpl.
    set (w1 := w_overlapped _ _). destruct (failOption_view (c_link (s_core (w_sup w))) w1) as (E1 & E2 & E3).
    unfold viewOf at 2. sup_simpl. rewrite E1, E2, E3.
    apply refuse_move; sup_simpl; try done; solve [by right|by left].
Qed.

Lemma replaced_move V now old clean attempt w :
  move V (viewOf w) (viewOf (restartReplaced now old clean attempt w)).
Proof.
  unfold restartReplaced. destruct (failOption_view old w) as (E1 & E2 & E3).
  assert (Hj : forall j, j_nextID (Reset j) = j_nextID j)
    by (intros j; unfold Reset; by destruct (j_events j)).
  destruct clean, (0 <? _); apply quiet_move; sup_simpl; rewrite ?E1, ?E2, ?E3, ?Hj; done.
Qed.

Lemma tick_move V now w : move V (viewOf w) (viewOf (tick now w)).
Proof.
  unfold tick. destruct (c_closed _); [by apply quiet_move|]. cbv zeta.
  match goal with |- context [c_degraded _ && ?x] => generalize x; intros cool end.
  match goal with |- context [if ?b then publishStatusLocked _ _ _ else _] => generalize b; intros healthy end.
  destruct (c_link (s_core (w_sup w))) as [g|]; [destruct (_ <=? _)|];
    destruct healthy, (_ && cool); by apply quiet_move.
Qed.

Lemma publishes_move V now frame revision w :
  move V (viewOf w) (viewOf (framePublishes now frame revision w)).
Proof.
  unfold framePublishes. destruct (frameAdmitted frame (w_sup w)) eqn:Ea; simpl; [|by apply quiet_move].
  unfold frameAdmitted in Ea. bool_to_prop.
  set (c := c_recoveryPartial _). unfold framePublication.
  destruct (_ =? rendererFrameSnapshot)%string; simpl.
  { unfold viewOf at 2. sup_simpl. by eapply MPublish. }
  destruct (_ =? rendererFramePTYWrite)%string; simpl.
  { unfold viewOf at 2. sup_simpl. by eapply MPublish. }
  destruct (_ =? rendererFrameEvent)%string; simpl.
  { unfold viewOf at 2. sup_simpl. by eapply MPublish. }
  by apply quiet_move.
Qed.

Lemma close_move V now w : move V (viewOf w) (viewOf (Close now w)).
Proof.
  unfold Close. destruct (c_closed _) eqn:E; [by apply quiet_move|].
  unfold viewOf at 2. sup_simpl. apply refuse_move; try done; by left.
Qed.

Lemma notice_same now e s :
  s_core (noticeLocked now e s).2 = s_core s /\ s_journal (noticeLocked now e s).2 = s_journal s.
Proof. unfold noticeLocked. by case_match. Qed.

Lemma thread_move V now tid ans w w' :
  threadStep build now tid ans w = Some w' -> move V (viewOf w) (viewOf w').
Proof.
  unfold threadStep. destruct (w_threads w !! tid) as [t|]; [|done].
  destruct t; intros Hs; try done.
  - injection Hs as <-. unfold sendCheck.
    destruct (c_closed _); [by apply quiet_move|]. destruct (_ <=? _); [by apply quiet_move|].
    destruct (c_degraded _).
    + pose proof (notice_same now errRendererDegraded (w_sup w)) as [E1 E2].
      destruct (noticeLocked _ _ _) as [err s]. simpl in *.
      apply quiet_move; sup_simpl; rewrite ?E1, ?E2; done.
    + destruct (c_link _); [destruct (c_acceptFrames _)|]; by apply quiet_move.
  - unfold sendNotify in Hs. destruct ans; try done; try (injection Hs as <-; by apply quiet_move).
    destruct (c_closed _); [|done]. injection Hs as <-. by apply quiet_move.
  - injection Hs as <-. unfold sendRemain. destruct (_ <=? _); [|by apply quiet_move].
    pose proof (notice_same now errRendererUnavailable (w_sup w)) as [E1 E2].
    destruct (noticeLocked _ _ _) as [err s]. simpl in *.
    apply quiet_move; sup_simpl; rewrite ?E1, ?E2; done.
  - unfold sendPark in Hs. destruct ans; try done.
    + destruct (negb _); [|done]. injection Hs as <-. by apply quiet_move.
    + destruct (_ <=? _); [|done]. injection Hs as <-. by apply quiet_move.
    + destruct (c_closed _); [|done]. injection Hs as <-. by apply quiet_move.
  - injection Hs as <-. unfold trySend.
    destruct (refusal _ _); [by apply quiet_move|]; destruct (c_link _); by apply quiet_move.
  - unfold tryPush in Hs. destruct ans; try done; injection Hs as <-; by apply quiet_move.
  - injection Hs as <-. by apply quiet_move.
  - injection Hs as <-. unfold call. destruct (refusal _ _); [by apply quiet_move|]; destruct (c_link _); by apply quiet_move.
  - unfold callLink in Hs. destruct ans; try done; injection Hs as <-; by apply quiet_move.
  - injection Hs as <-. unfold captureRead. sup_simpl. destruct (_ && _); by apply quiet_move.
  - injection Hs as <-. by apply quiet_move.
  - unfold captureCall in Hs. destruct ans; try done; [injection Hs as <-; by apply quiet_move|].
    destruct (validate _ _ _); [|injection Hs as <-; by apply quiet_move].
    destruct (_ || _); injection Hs as <-; by apply quiet_move.
  - injection Hs as <-. unfold captureStore.
    destruct (_ || _); [by apply quiet_move|]. destruct (_ <? _); [by apply quiet_move|].
    destruct (match r_checkpoint _ with Some _ => _ | None => _ end); [|by apply quiet_move].
    destruct (negb _); by apply quiet_move.
  - injection Hs as <-. unfold captureDone. destruct periodic; by apply quiet_move.
Qed.

Lemma run_move V now err tid w w' :
  small w -> runStep now err tid w = Some w' -> move V (viewOf w) (viewOf w').
Proof.
  intros Hsm. unfold runStep. destruct (w_run w); intros Hs; try done.
  - destruct (c_closed _); [|done]. injection Hs as <-. by apply quiet_move.
  - injection Hs as <-. apply restart_move.
  - injection Hs as <-. unfold Restart. destruct (c_closed _); by apply quiet_move.
  - destruct err; [destruct due; [|done]|]; injection Hs as <-; by apply quiet_move.
  - destruct err; injection Hs as <-; by apply quiet_move.
  - destruct err; [injection Hs as <-; by apply quiet_move|].
    destruct (w_threads w !! tid); [done|]. injection Hs as <-.
    unfold maybeCheckpoint. destruct (_ && _); by apply quiet_move.
  - injection Hs as <-. apply (request_move V now (Some e) w).
  - injection Hs as <-. apply replaced_move.
  - destruct (_ <=? _); [|destruct (c_closed _); [|done]]; injection Hs as <-; by apply quiet_move.
  - injection Hs as <-. unfold restartSpawn. destruct (c_closed _); [by apply quiet_move|].
    destruct (if _ || _ then _ else _) as [cols rows]. by apply begin_move.
Qed.

Lemma step_move now w ev w' :
  small w -> step build now w ev = Some w' -> move (verifies ev) (viewOf w) (viewOf w').
Proof.
  intros Hsm Hs. pose proof Hsm as [_ Hj]. destruct ev; simpl in Hs.
  - pose proof (step_nextID (s_journal (w_sup w)) op Hj) as Hle.
    destruct op; try done; injection Hs as <-; unfold viewOf; sup_simpl; by apply MAppend.
  - injection Hs as <-. by apply begin_move.
  - by apply (start_move now).
  - injection Hs as <-. unfold frameArrives. destruct (_ && _); by apply quiet_move.
  - destruct (w_frames w !! index) as [[frame revision]|]; [|done]. injection Hs as <-.
    set (w1 := w_set_frames _ _). by apply (publishes_move _ now frame revision w1).
  - destruct (w_run w); try done. destruct (k_restart _); [|done]. injection Hs as <-.
    by apply quiet_move.
  - destruct (w_run w); try done. injection Hs as <-. apply tick_move.
  - by eapply run_move.
  - injection Hs as <-. unfold Restart. sup_simpl. apply quiet_move; sup_simpl; try done;
      by destruct (c_closed _).
  - injection Hs as <-. apply close_move.
  - destruct (w_closing w); [|done]. injection Hs as <-. by apply quiet_move.
  - injection Hs as <-. unfold restoreColors. apply quiet_move; sup_simpl; try done;
      destruct colors; try done; by destruct (c_closed _).
  - injection Hs as <-. unfold restoreCheckpoint. apply quiet_move; sup_simpl; try done;
      (destruct checkpoint; [|done]); (destruct (negb _); [done|]); by destruct (_ || _).
  - by eapply thread_move.
  - destruct (_ && _); [|done]. unfold newThread in Hs.
    destruct (w_threads w !! tid); [done|]. injection Hs as <-. by apply quiet_move.
  - unfold newThread in Hs. destruct (w_threads w !! tid); [done|]. injection Hs as <-. by apply quiet_move.
  - unfold newThread in Hs. destruct (w_threads w !! tid); [done|]. injection Hs as <-. by apply quiet_move.
  - unfold newThread in Hs. destruct (w_threads w !! tid); [done|]. injection Hs as <-. by apply quiet_move.
Qed.
End Steps.

(** ** Publication *)

Definition pubGen (p : publication) : option Z :=
  match p with PubSnapshot g _ | PubPTYWrite g | PubEvent g => Some g | PubStale => None end.

(** Generations never go back, and between two publications with a stale mark
    in between they advance. *)
Definition fenced (log : list publication) : Prop :=
  forall l1 p l2 q l3 g h,
    log = l1 ++ p :: l2 ++ q :: l3 -> pubGen p = Some g -> pubGen q = Some h ->
    g <= h /\ (PubStale ∈ l2 -> g < h).

(** A renderer of generation [h] may publish after [log]. *)
Definition mayFollow (log : list publication) (h : Z) : Prop :=
  forall l1 p l2 g, log = l1 ++ p :: l2 -> pubGen p = Some g ->
    g <= h /\ (PubStale ∈ l2 -> g < h).

Lemma fenced_nil : fenced [].
Proof. intros l1 p l2 q l3 g h E. by destruct l1. Qed.

Lemma snoc_split {A} (l : list A) x l1 y l2 :
  l ++ [x] = l1 ++ y :: l2 ->
  (l2 = [] /\ l1 = l /\ y = x) \/ exists l2', l2 = l2' ++ [x] /\ l = l1 ++ y :: l2'.
Proof.
  destruct l2 as [|z l2 _] using rev_ind.
  - intros E. apply app_inj_tail in E as [-> ->]. by left.
  - intros E. rewrite app_comm_cons, app_assoc in E. apply app_inj_tail in E as [-> ->].
    right. by exists l2.
Qed.

Lemma fenced_snoc log q :
  fenced log -> (forall h, pubGen q = Some h -> mayFollow log h) -> fenced (log ++ [q]).
Proof.
  intros Hf Hq l1 p l2 r l3 g h E Hp Hr.
  assert (log ++ [q] = (l1 ++ p :: l2) ++ r :: l3) as E' by (by rewrite <- app_assoc).
  apply snoc_split in E' as [(-> & <- & ->)|(l3' & -> & ->)].
  - by apply (Hq h Hr l1 p l2).
  - apply (Hf l1 p l2 r l3'); [by rewrite <- app_assoc|done|done].
Qed.

Lemma mayFollow_snoc log q h :
  mayFollow log h -> q <> PubStale -> (forall g, pubGen q = Some g -> g = h) ->
  mayFollow (log ++ [q]) h.
Proof.
  intros Hm Hq Hg l1 p l2 g E Hp. apply snoc_split in E as [(-> & -> & ->)|(l2' & -> & ->)].
  - apply Hg in Hp as ->. split; [lia|]. intros Hin. by apply not_elem_of_nil in Hin.
  - destruct (Hm l1 p l2' g eq_refl Hp) as [Hle Hlt]. split; [done|].
    intros [Hin|Hin]%elem_of_app; [auto|]. by apply list_elem_of_singleton in Hin as <-.
Qed.

Record pub_inv (U : Z -> Prop) (v : view) : Prop := {
  pi_accept : c_acceptFrames (v_core v) = true ->
    c_link (v_core v) = Some (c_generation (v_core v)) /\ c_closed (v_core v) = false /\
    U (c_generation (v_core v)) /\ mayFollow (v_log v) (c_generation (v_core v)) /\
    forall p, v_starts v !! c_generation (v_core v) = Some p -> preInstall p = false;
  pi_starts : forall g p, v_starts v !! g = Some p ->
    0 < g <= c_generation (v_core v) /\ (pastHandshake p = true -> U g);
  pi_fresh : forall p, v_starts v !! c_generation (v_core v) = Some p -> preInstall p = true ->
    forall q h, q ∈ v_log v -> pubGen q = Some h -> h < c_generation (v_core v);
  pi_log : forall p g, p ∈ v_log v -> pubGen p = Some g -> U g /\ g <= c_generation (v_core v);
  pi_fenced : fenced (v_log v);
  pi_gen : 0 <= c_generation (v_core v);
}.

Lemma pub_move V U v v' :
  (forall g, V g -> U g) -> move V v v' -> pub_inv U v -> pub_inv U v'.
Proof.
  intros HV Hm [Ha Hs Hf Hl Hfe Hgen]. destruct Hm; simpl in *.
  - destruct H as (E1 & E2 & E3 & E4 & E5).
    split; simpl; rewrite ?E1, ?E2, ?E3, ?E4, ?E5; try done.
    + intros Hacc. destruct (Ha Hacc) as (A1 & A2 & A3 & A4 & A5). split_and!; try done.
      intros p' Hp'. destruct (H0 _ _ Hp') as (p & Hp & Hpre & _). apply A5 in Hp.
      destruct (preInstall p'); [|done]. rewrite Hpre in Hp; done.
    + intros g p' Hp'. destruct (H0 _ _ Hp') as (p & Hp & Hpre & _ & Hpast).
      destruct (Hs _ _ Hp) as [? HU]. split; [done|]. intros Hp2.
      destruct (Hpast Hp2); auto.
    + intros p' Hp' Hpre'. destruct (H0 _ _ Hp') as (p & Hp & Hpre & _). eauto.
  - by split.
  - split; simpl; try congruence.
    + intros g q [[<- <-]|[Hne Hq]]%lookup_insert_Some; [split; [lia|by subst p]|].
      apply Hs in Hq. rewrite H0. split; [lia|tauto].
    + intros q _ _ r h Hr Hh. destruct (Hl r h Hr Hh). lia.
    + intros r g Hr Hg. destruct (Hl r g Hr Hg). split; [done|lia].
    + done.
    + lia.
  - destruct H as (p & Hp & Hpre & Hpast & Hsnap).
    destruct (Hs _ _ Hp) as [Hg HU].
    split; simpl; rewrite ?H2; try done.
    + intros _. split_and!; try done; [auto| |].
      * intros l1 q l2 h -> Hq. assert (h < c_generation c) by (eapply Hf; eauto; set_solver).
        unfold g. split; [lia|lia].
      * intros q. rewrite lookup_insert_eq. by intros [= <-].
    + intros h q [[<- <-]|[_ Hq]]%lookup_insert_Some; [split; [done|]|by apply Hs].
      intros _. auto.
    + intros q. rewrite lookup_insert_eq. by intros [= <-].
  - split; simpl; rewrite ?H0; try congruence.
    + intros g p Hp. apply H4 in Hp. auto.
    + intros p Hp Hpre q h Hq Hh. apply H4 in Hp. destruct H3 as [->|[-> _]]; [eauto|].
      apply elem_of_app in Hq as [Hq|Hq]; [eauto|]. by apply list_elem_of_singleton in Hq as ->.
    + intros p g Hp Hg. destruct H3 as [->|[-> _]]; [by eapply Hl|].
      apply elem_of_app in Hp as [Hp|Hp]; [by eapply Hl|]. by apply list_elem_of_singleton in Hp as ->.
    + destruct H3 as [->|[-> _]]; [done|]. by apply fenced_snoc.
  - destruct H as (E1 & E2 & E3 & E4 & E5). destruct (Ha H0) as (A1 & A2 & A3 & A4 & A5).
    assert (Hpg : pubGen p = Some (c_generation c)) by (destruct p; simpl in *; [congruence..|done]).
    split; simpl; rewrite ?E1, ?E2, ?E3, ?E4, ?E5; try done.
    + intros _. split_and!; try done. apply mayFollow_snoc; [done| |].
      * by intros ->.
      * intros g. rewrite Hpg. by intros [= <-].
    + intros q Hq Hpre. rewrite (A5 q Hq) in Hpre. done.
    + intros q g Hq Hg. apply elem_of_app in Hq as [Hq|Hq]; [by eapply Hl|].
      apply list_elem_of_singleton in Hq as ->. rewrite Hpg in Hg. injection Hg as <-. split; [done|lia].
    + apply fenced_snoc; [done|]. intros h. rewrite Hpg. by intros [= <-].
Qed.

(** Once closed, nothing is published. *)
Lemma closed_move V v v' :
  move V v v' -> c_closed (v_core v) = true ->
  c_closed (v_core v') = true /\ v_log v' = v_log v.
Proof.
  intros Hm Hc. destruct Hm; simpl in *; try congruence.
  - destruct H as (_ & _ & _ & _ & E5). by rewrite E5.
  - done.
  - split; [auto|]. destruct H3 as [?|[_ ?]]; [done|congruence].
Qed.

Lemma move_counters V v v' :
  move V v v' ->
  c_generation (v_core v) <= c_generation (v_core v') <= c_generation (v_core v) + 1 /\
  v_last v <= v_last v' <= v_last v + 1.
Proof. intros []; simpl in *; unfold core_same in *; try lia; destruct_and?; lia. Qed.

(** ** Runs *)

Section Runs.
Context `{RecoveryCoder} (build : string).
Implicit Types (w : world) (es : list (time * event)).

(** The counters do not wrap around in [n] more steps. *)
Definition smallFor (n : Z) w : Prop :=
  0 <= c_generation (s_core (w_sup w)) /\ c_generation (s_core (w_sup w)) + n < two64 /\
  0 <= j_nextID (s_journal (w_sup w)) /\ j_nextID (s_journal (w_sup w)) + n < two64.

Lemma next_small n w e : 0 <= n -> smallFor (n + 1) w -> smallFor n (next build w e).
Proof.
  intros Hn (H1 & H2 & H3 & H4). unfold next. destruct (step _ _ _ _) as [w'|] eqn:E; simpl.
  2: { split_and!; lia. }
  apply step_move in E; [|split; lia]. apply move_counters in E. simpl in E. split_and!; lia.
Qed.

(** Rule induction over a schedule. *)
Lemma run_induction (P : world -> Prop) es w :
  (forall now ev w w', (now, ev) ∈ es -> small w -> P w -> step build now w ev = Some w' -> P w') ->
  smallFor (zlen es) w -> P w -> P (run build w es).
Proof.
  revert w. induction es as [|[now ev] es IH]; intros w Hstep Hsm HP; [done|].
  unfold run. cbn [foldl]. unfold zlen in Hsm. cbn [length] in Hsm.
  apply IH.
  - intros t e v v' Hin. apply Hstep. by right.
  - apply next_small; [unfold zlen; lia|].
    replace (zlen es + 1) with (Z.of_nat (S (length es))) by (unfold zlen; lia). done.
  - unfold next. destruct (step build _ _ _) as [w'|] eqn:E; simpl; [|done].
    eapply Hstep; [by left| |done|done]. destruct Hsm as (? & ? & ? & ?). split; lia.
Qed.
End Runs.

(** ** What may be published *)

Definition verifiedBy (es : list (time * event)) (g : Z) : Prop :=
  exists e, e ∈ es /\ verifies e.2 g.

Lemma supervised_small now terminalID journal timeout policy n :
  0 <= n -> 0 <= j_nextID journal -> j_nextID journal + n < two64 ->
  smallFor n (newWorld (newRendererSupervisor now terminalID journal timeout policy)).
Proof. intros ???. unfold smallFor. simpl. split_and!; lia. Qed.

Section Publication.
Context `{RecoveryCoder} (build : string).

Lemma run_pub_inv es w :
  smallFor (zlen es) w -> pub_inv (verifiedBy es) (viewOf w) ->
  pub_inv (verifiedBy es) (viewOf (run build w es)).
Proof.
  intros Hsm Hp. apply (run_induction build (fun w => pub_inv (verifiedBy es) (viewOf w))); [|done|done].
  intros now ev v v' Hin Hv Hi Hstep. eapply pub_move; [|by eapply step_move|done].
  intros g Hg. by exists (now, ev).
Qed.

Lemma run_closed es w :
  smallFor (zlen es) w -> c_closed (s_core (w_sup w)) = true ->
  w_log (run build w es) = w_log w.
Proof.
  intros Hsm Hc.
  enough (c_closed (s_core (w_sup (run build w es))) = true /\ w_log (run build w es) = w_log w)
    as [_ ?] by done.
  apply (run_induction build (fun v => c_closed (s_core (w_sup v)) = true /\ w_log v = w_log w));
    [|done|done].
  intros now ev v v' _ Hv [Hcl Hl] Hstep. apply step_move in Hstep; [|done].
  apply closed_move in Hstep as [? E]; [|done]. split; [done|]. simpl in E. congruence.
Qed.

Lemma run_small (es es' : list (time * event)) w :
  smallFor (zlen es + zlen es') w -> smallFor (zlen es') (run build w es).
Proof.
  revert w. induction es as [|e es IH]; intros w Hsm; [done|].
  unfold run. cbn [foldl]. apply IH. apply next_small; [unfold zlen; lia|].
  by replace (zlen es + zlen es' + 1) with (zlen (e :: es) + zlen es') by (unfold zlen; simpl; lia).
Qed.

(** C3: what reaches the attached clients comes from renderers whose handshake
    succeeded, in order, and never from one that was given up.  For every
    interleaving: each published frame is of a generation whose init reply was
    verified; generations never go back; after a stale mark only a newer
    generation publishes, however late the frames of an older one arrive; and
    after [Close] nothing is published any more. *)
Theorem publications_fenced now terminalID journal timeout policy es1 es2 :
  0 <= j_nextID journal -> j_nextID journal + zlen (es1 ++ es2) < two64 ->
  let w0 := newWorld (newRendererSupervisor now terminalID journal timeout policy) in
  let w1 := run build w0 es1 in
  fenced (w_log w1) /\
  (forall p g, p ∈ w_log w1 -> pubGen p = Some g -> verifiedBy es1 g) /\
  (c_closed (s_core (w_sup w1)) = true -> w_log (run build w0 (es1 ++ es2)) = w_log w1).
Proof.
  intros Hj Hn w0 w1.
  assert (zlen (es1 ++ es2) = zlen es1 + zlen es2) as Hlen by (unfold zlen; rewrite length_app; lia).
  assert (smallFor (zlen es1 + zlen es2) w0) as Hsm.
  { rewrite <- Hlen. apply supervised_small; [unfold zlen; lia|done|done]. }
  assert (pub_inv (verifiedBy es1) (viewOf w1)) as [].
  { apply run_pub_inv.
    - destruct Hsm as (? & ? & ? & ?). assert (0 <= zlen es2) by (unfold zlen; lia). split_and!; lia.
    - split; simpl; try done; [by intros ?? ?%not_elem_of_nil|apply fenced_nil]. }
  split; [done|]. split; [intros p g Hp Hg; by eapply pi_log0|].
  intros Hc. unfold run at 1. rewrite foldl_app. apply run_closed; [|done].
  by apply run_small.
Qed.
End Publication.

(** ** A schedule

    A renderer starts, renders, stops answering and is replaced. *)
Module SupervisorSample.

#[local] Existing Instance RecoverySample.coder.

Definition sec (n : Z) : time := 100 * second + n * second.

Definition journal : rendererJournal :=
  journal_run 1000 [OpResize 80 24 8 16; OpOutput [104; 105]].

Definition reply : startAnswer :=
  SAReply "codelima" (Ok (Ok (InitResult rendererWorkerProtocolVersion true "b1" false false))).

Definition policy : rendererRestartPolicy := Policy 0 0 0 0 0 0 0.

(** The steps of a call of [startRenderer] that succeeds. *)
Definition starts (at_ g : Z) : list (time * event) :=
  [(at_, EvStartStep g SAOk); (at_, EvStartStep g SAOk); (at_, EvStartStep g SAOk);
   (at_, EvStartStep g SAOk); (at_, EvStartStep g reply); (at_, EvStartStep g SAOk);
   (at_, EvStartStep g SAOk); (at_, EvStartStep g SAOk)].

Definition snapshotOf (g id : Z) : rendererWorkerFrame :=
  WFrame rendererFrameSnapshot id g true "" [] [] "" 0 id "".

(** The health probe fails. *)
Definition stalls (at_ : time) : list (time * event) :=
  [(at_, EvTick); (at_, EvRun (Some errRendererUnavailable) 0); (at_, EvRun None 0)].

(** The run loop replaces the renderer, up to the new call of [startRenderer]. *)
Definition replaces (at_ : time) : list (time * event) :=
  [(at_, EvWake); (at_, EvRun None 0); (at_, EvRun None 0); (at_, EvRun None 0)].

Definition schedule : list (time * event) :=
  (sec 0, EvStart 80 24) :: starts (sec 0) 1 ++
  [(sec 0, EvFrame (snapshotOf 1 1) 1 true); (sec 0, EvFramePublish 0);
   (sec 1, EvFrame (snapshotOf 1 2) 2 true)] ++
  stalls (sec 3) ++ [(sec 3, EvFramePublish 0)] ++ replaces (sec 3) ++ starts (sec 3) 2 ++
  [(sec 4, EvFrame (snapshotOf 1 3) 3 true); (sec 4, EvFrame (snapshotOf 2 1) 1 true);
   (sec 4, EvFramePublish 0)].

Definition closing : list (time * event) :=
  [(sec 5, EvClose); (sec 5, EvFrame (snapshotOf 2 2) 2 true); (sec 5, EvFramePublish 0)].

Definition initial : world :=
  newWorld (newRendererSupervisor (sec 0) "t1" journal 0 policy).

Example schedule_log :
  w_log (run "b1" initial (schedule ++ closing)) =
    [PubSnapshot 1 false; PubStale; PubStale; PubSnapshot 2 false].
Proof. vm_compute. reflexivity. Qed.

Lemma publications_fenced_witness :
  let w1 := run "b1" initial (schedule ++ [(sec 5, EvClose)]) in
  fenced (w_log w1) /\
  (forall p g, p ∈ w_log w1 -> pubGen p = Some g -> verifiedBy (schedule ++ [(sec 5, EvClose)]) g) /\
  (c_closed (s_core (w_sup w1)) = true ->
     w_log (run "b1" initial ((schedule ++ [(sec 5, EvClose)]) ++ skipn 1 closing)) = w_log w1).
Proof.
  apply (publications_fenced "b1" (sec 0) "t1" journal 0 policy).
  - vm_compute. discriminate.
  - vm_compute. reflexivity.
Defined.
End SupervisorSample.
