(* ===== verification/RendererSupervisorBudget.v ===== *)
(** * The restart budget

    Over [RendererSupervisor]: however the goroutines interleave, the restarts
    that are charged to the budget within one window never exceed it. *)

From S2P Require Import Prelude Journal JournalOrder RendererLink RendererCheckpoint.
From S2P Require Import RendererRecovery RendererSupervisor RendererSupervisorSafe.
Local Open Scope Z_scope.

(** ** Counting the instants in a window *)

(** How many of [l] lie in the window of length [d] that ends at [t]. *)
Definition within (d : duration) (t : time) (l : list time) : Z :=
  zlen (List.filter (fun x => (t - d <? x) && (x <=? t)) l).

(** How many are newer than the cutoff. *)
Definition newer (cutoff : time) (l : list time) : list time :=
  List.filter (fun x => cutoff <? x) l.

#[local] Arguments newer : simpl never.

Lemma newer_snoc cutoff l x :
  zlen (newer cutoff (l ++ [x])) = zlen (newer cutoff l) + (if cutoff <? x then 1 else 0).
Proof.
  unfold newer, zlen. rewrite List.filter_app, length_app. simpl.
  destruct (_ <? _); simpl; lia.
Qed.

Lemma newer_cons cutoff l x :
  zlen (newer cutoff (x :: l)) = zlen (newer cutoff l) + (if cutoff <? x then 1 else 0).
Proof. unfold newer, zlen. simpl. destruct (_ <? _); simpl; lia. Qed.

Lemma newer_newer c c' l : c <= c' -> newer c' (newer c l) = newer c' l.
Proof.
  intros Hc. unfold newer. induction l as [|x l IH]; [done|]. simpl.
  destruct (c <? x) eqn:E; simpl; [by rewrite IH|].
  rewrite IH. destruct (c' <? x) eqn:E'; [lia|done].
Qed.

Lemma newer_none cutoff l : Forall (fun x => x <= cutoff) l -> newer cutoff l = [].
Proof.
  induction 1 as [|x l Hx _ IH]; [done|]. unfold newer in *. simpl.
  destruct (cutoff <? x) eqn:E; [lia|done].
Qed.

Lemma newer_mono c c' l : c <= c' -> zlen (newer c' l) <= zlen (newer c l).
Proof.
  intros Hc. induction l as [|x l IH]; [done|]. rewrite !newer_cons.
  destruct (c <? x) eqn:E, (c' <? x) eqn:E'; lia.
Qed.

(** Newest first, and at each instant the window that ends there holds at most
    [m]. *)
Fixpoint budgeted (d : duration) (m : Z) (l : list time) : Prop :=
  match l with
  | [] => True
  | x :: rest =>
      Forall (fun y => y <= x) rest /\ zlen (newer (x - d) l) <= m /\ budgeted d m rest
  end.

Lemma budgeted_within d m l t : 0 <= m -> budgeted d m l -> within d t l <= m.
Proof.
  intros Hm. induction l as [|x l IH]; [done|]. intros (Hx & Hn & Hb).
  destruct (decide (x <= t)) as [Hle|Hgt].
  - transitivity (zlen (newer (x - d) (x :: l))); [|done].
    transitivity (zlen (newer (t - d) (x :: l))); [|by apply newer_mono; lia].
    clear. unfold within, newer. induction (x :: l) as [|y l' IH]; [done|].
    unfold zlen in *. simpl. destruct (t - d <? y), (y <=? t); simpl; lia.
  - unfold within in *. simpl. destruct (x <=? t) eqn:E; [lia|].
    rewrite andb_false_r. by apply IH.
Qed.

(** ** What a step does to the budget *)

Record bview := BView {
  bv_policy : rendererRestartPolicy;
  bv_restarts : list time;
  bv_healthySince : time;
  bv_accept : bool;
  bv_charges : list time;
}.

Definition bviewOf (w : world) : bview :=
  BView (s_policy (w_sup w)) (b_restarts (s_budget (w_sup w))) (b_healthySince (s_budget (w_sup w)))
    (c_acceptFrames (s_core (w_sup w))) (w_charges w).

Inductive bmove (now : time) : bview -> bview -> Prop :=
| BQuiet p r h a a' ch :
    (a' = true -> a = true) -> bmove now (BView p r h a ch) (BView p r h a' ch)
| BInstall p r h a ch :
    bmove now (BView p r h a ch) (BView p r now true ch)
| BReset p r h ch :
    po_HealthyReset p <= time_sub now h ->
    bmove now (BView p r h true ch) (BView p [] h true ch)
| BKept p r h a ch :
    bmove now (BView p r h a ch) (BView p (newer (now - po_Window p) r) h false ch)
| BCharge p r h a ch :
    zlen (newer (now - po_Window p) r) < po_MaxRestarts p ->
    bmove now (BView p r h a ch)
      (BView p (newer (now - po_Window p) r ++ [now]) h false (now :: ch)).

(** A step that leaves the budget alone. *)
Ltac quiet := unfold bviewOf; sup_simpl; by apply BQuiet.
Ltac quiets := repeat (case_match; try done); simplify_eq/=; quiet.

Section Steps.
Context `{RecoveryCoder} (build : string).
Implicit Types (w : world) (g : Z).

Lemma plan_budget now s plan b :
  planRestartLocked now s = (plan, b) ->
  b_restarts b = newer (now - po_Window (s_policy s)) (b_restarts (s_budget s)) /\
  b_healthySince b = b_healthySince (s_budget s) /\
  (pl_charge plan = true -> zlen (b_restarts b) < po_MaxRestarts (s_policy s)).
Proof.
  unfold planRestartLocked, newer. intros [= <- <-]. simpl. split_and!; [done|done|].
  repeat case_match; simpl; intros; try done; bool_to_prop; lia.
Qed.

Lemma restart_bmove now w : bmove now (bviewOf w) (bviewOf (restart now w)).
Proof.
  unfold restart. destruct (c_closed _) eqn:Ec; [quiet|].
  destruct (planRestartLocked now (w_sup w)) as [plan b] eqn:Ep.
  apply plan_budget in Ep as (E1 & E2 & E3).
  destruct (pl_allowed plan); simpl negb; cbv iota.
  - destruct (pl_charge plan), (pl_clean plan); unfold bviewOf; sup_simpl; rewrite ?E2, ?E1;
      try (apply BKept); apply BCharge; rewrite <- E1; auto.
  - unfold enterDegradedLocked. sup_simpl.
    destruct (c_link (s_core (w_sup w))); unfold bviewOf; simpl; rewrite E1, E2; apply BKept.
Qed.

Lemma tick_bmove now w : bmove now (bviewOf w) (bviewOf (tick now w)).
Proof.
  unfold tick. destruct (c_closed _); [quiet|]. cbv zeta.
  match goal with |- context [if ?b then set_notes ?n ?s else _] =>
    set (s1 := if b then set_notes n s else s) end.
  assert (s_policy s1 = s_policy (w_sup w) /\ s_budget s1 = s_budget (w_sup w) /\
    s_core s1 = s_core (w_sup w)) as (E1 & E2 & E3)
    by (subst s1; by destruct (match c_link _ with Some _ => _ | None => _ end)).
  clearbody s1. rewrite !E1, !E2.
  match goal with |- context [if ?b then publishStatusLocked _ _ _ else _] => destruct b eqn:Eh end.
  - assert (bmove now (bviewOf w) (BView (s_policy (w_sup w)) [] (b_healthySince (s_budget (w_sup w)))
      (c_acceptFrames (s_core (w_sup w))) (w_charges w))) as Hm.
    { unfold bviewOf. bool_to_prop. destruct (c_acceptFrames _); [|done].
      apply BReset. lia. }
    repeat case_match; unfold bviewOf at 2; simpl; rewrite E1, E3; exact Hm.
  - repeat case_match; unfold bviewOf; simpl; rewrite E1, E2, E3; by apply BQuiet.
Qed.

Lemma start_bmove now g ans w w' :
  startStep build now g ans w = Some w' -> bmove now (bviewOf w) (bviewOf w').
Proof.
  unfold startStep. destruct (w_starts w !! g) as [sc|]; [|done].
  destruct (sc_phase sc) eqn:Hp; intros Hs; destruct ans; try done; injection Hs as <-;
    unfold startSpawned, startChecked, startSnapshot, startLoad, startInitialized, startRefused,
      startColors, startInteracted, startInstall, startNotified, requestRestart, startReturn;
    repeat case_match; simplify_eq/=; unfold bviewOf; simpl; try apply BInstall; by apply BQuiet.
Qed.

Lemma thread_bmove now tid ans w w' :
  threadStep build now tid ans w = Some w' -> bmove now (bviewOf w) (bviewOf w').
Proof.
  unfold threadStep. destruct (w_threads w !! tid) as [t|]; [|done].
  destruct t; intros Hs; try done; unfold sendNotify, sendPark, tryPush, callLink, captureCall in Hs;
    repeat (case_match; try done); simplify_eq/=;
    unfold sendCheck, sendRemain, trySend, markDirty, call, captureRead, captureThrough,
      captureStore, captureDone, noticeLocked;
    repeat case_match; simplify_eq/=; quiet.
Qed.
Lemma run_bmove now err tid w w' :
  runStep now err tid w = Some w' -> bmove now (bviewOf w) (bviewOf w').
Proof.
  unfold runStep. intros Hs. destruct (w_run w); try (injection Hs as <-; apply restart_bmove);
    repeat (case_match; try done); simplify_eq/=;
    unfold Restart, maybeCheckpoint, requestRestart, restartReplaced, restartSpawn, startBegin,
      failOption, Reset;
    repeat case_match; simplify_eq/=; quiet.
Qed.

Lemma step_bmove now w ev w' :
  step build now w ev = Some w' -> bmove now (bviewOf w) (bviewOf w').
Proof.
  destruct ev; simpl; intros Hs;
    try (by eapply start_bmove); try (by eapply run_bmove); try (by eapply thread_bmove).
  all: unfold newThread in *; repeat (case_match; try done); simplify_eq/=; try apply tick_bmove;
    unfold startBegin, frameArrives, framePublishes, Restart, Close, restoreColors,
      restoreCheckpoint, onSup; cbv beta; repeat case_match; simplify_eq/=; quiet.
Qed.
End Steps.

(** ** The invariant *)

Record budget_inv (now : time) (v : bview) : Prop := {
  bi_count : forall t, now <= t ->
    zlen (newer (t - po_Window (bv_policy v)) (bv_charges v)) <=
    zlen (newer (t - po_Window (bv_policy v)) (bv_restarts v));
  bi_past : Forall (fun c => c <= now) (bv_charges v);
  bi_healthy : bv_accept v = true -> Forall (fun c => c <= bv_healthySince v) (bv_charges v);
  bi_budgeted : budgeted (po_Window (bv_policy v)) (po_MaxRestarts (bv_policy v)) (bv_charges v);
}.

Lemma budget_later now now' v : now <= now' -> budget_inv now v -> budget_inv now' v.
Proof.
  intros Ht [Hc Hp Hh Hb]. split; try done.
  - intros t ?. apply Hc. lia.
  - eapply Forall_impl; [exact Hp|]. simpl. lia.
Qed.

Lemma budget_move now v v' :
  0 < po_HealthyReset (bv_policy v) -> po_Window (bv_policy v) <= po_HealthyReset (bv_policy v) ->
  bmove now v v' -> budget_inv now v -> budget_inv now v' /\ bv_policy v' = bv_policy v.
Proof.
  intros H0 Hw Hm [Hc Hp Hh Hb]. split; [|by destruct Hm].
  destruct Hm as [p r h a a' ch Ha|p r h a ch|p r h ch Hr|p r h a ch|p r h a ch Hn]; simpl in *.
  - split; simpl; auto.
  - split; simpl; auto.
  - assert (po_HealthyReset p <= now - h) as Hold.
    { unfold time_sub, clamp63 in Hr. lia. }
    split; simpl; auto. intros t Ht. rewrite (newer_none _ ch); [done|].
    eapply Forall_impl; [by apply Hh|]. simpl. lia.
  - split; simpl; auto; [|done]. intros t Ht. rewrite newer_newer by lia. auto.
  - split; simpl.
    + intros t Ht. rewrite newer_cons, newer_snoc, newer_newer by lia. specialize (Hc t Ht). lia.
    + by constructor.
    + done.
    + split_and!; [done| |done]. rewrite newer_cons. specialize (Hc now ltac:(lia)).
      destruct (_ <? _); lia.
Qed.

Lemma normalized_positive p d : 0 < po_HealthyReset (normalized p d) /\ 0 < po_MaxRestarts (normalized p d).
Proof.
  unfold normalized. simpl. split.
  - by destruct (po_HealthyReset p <=? 0) eqn:E; [vm_compute|lia].
  - by destruct (po_MaxRestarts p <=? 0) eqn:E; [vm_compute|lia].
Qed.

Section Budget.
Context `{RecoveryCoder} (build : string).

Lemma run_budget es t w :
  let p := s_policy (w_sup w) in
  0 < po_HealthyReset p -> po_Window p <= po_HealthyReset p ->
  clocked t es -> budget_inv t (bviewOf w) ->
  budgeted (po_Window p) (po_MaxRestarts p) (w_charges (run build w es)).
Proof.
  revert t w. induction es as [|[now ev] es IH]; intros t w p H0 Hw Hc Hi; [apply Hi|].
  destruct Hc as [Ht Hc]. simpl in *. apply (budget_later _ now) in Hi; [|done].
  unfold next. simpl. destruct (step build now w ev) as [w'|] eqn:E; simpl; [|by apply (IH now)].
  apply step_bmove in E. apply budget_move in E as [Hi' Hp]; [|done..]. simpl in Hp.
  unfold p in *. rewrite <- Hp in *. by apply (IH now).
Qed.

(** C5: a renderer that cannot be kept running is not restarted for ever.  For
    every interleaving along a clock that does not run backwards, and every
    policy whose healthy period is at least its window, such as the default: at
    every instant, at most [MaxRestarts] restarts were charged within the window
    that ends there, although a renderer that stays healthy earns the whole
    budget back and forced restarts come in between. *)
Theorem restart_budget now0 terminalID journal timeout policy es :
  let s0 := newRendererSupervisor now0 terminalID journal timeout policy in
  let p := s_policy s0 in
  po_Window p <= po_HealthyReset p -> clocked now0 es ->
  forall t, within (po_Window p) t (w_charges (run build (newWorld s0) es)) <= po_MaxRestarts p.
Proof.
  intros s0 p Hw Hc t.
  destruct (normalized_positive policy (if timeout <=? 0 then defaultRendererCommandTimeout else timeout))
    as [H1 H2].
  apply budgeted_within; [by apply Z.lt_le_incl|].
  by apply (run_budget es now0 (newWorld s0)).
Qed.
End Budget.

Module BudgetSample.
Import SupervisorSample.

#[local] Existing Instance RecoverySample.coder.

(** One charged restart a minute. *)
Definition strict : rendererRestartPolicy := Policy 1 0 0 0 0 0 0.

(** The renderer stalls three times: a charged restart, one without the journal
    and the checkpoint, and the degraded state. *)
Definition failing : list (time * event) :=
  (sec 0, EvStart 80 24) :: starts (sec 0) 1 ++
  stalls (sec 2) ++ replaces (sec 2) ++ starts (sec 2) 2 ++
  stalls (sec 4) ++ replaces (sec 4) ++ starts (sec 4) 3 ++
  stalls (sec 6) ++ replaces (sec 6).

Definition before : world := newWorld (newRendererSupervisor (sec 0) "t1" journal 0 strict).

Example failing_outcome :
  let w := run "b1" before failing in
  w_charges w = [sec 2] /\ st_State (s_status (w_sup w)) = rendererStateDegraded /\
  j_events (s_journal (w_sup w)) = [] /\ b_cleanStarted (s_budget (w_sup w)) = true.
Proof. vm_compute. done. Qed.

Lemma restart_budget_witness :
  within (po_Window (normalized strict defaultRendererCommandTimeout)) (sec 30)
    (w_charges (run "b1" before failing)) <= 1.
Proof.
  apply (restart_budget "b1" (sec 0) "t1" journal 0 strict failing).
  - vm_compute. discriminate.
  - vm_compute. repeat (split; [discriminate|]). exact I.
Defined.
End BudgetSample.
