(* ===== verification/RendererSupervisorOutput.v ===== *)
(** * What a renderer has seen

    Over [RendererSupervisor]: output that [SendOutput] reported as delivered is
    known to the renderer in place, whatever replacements came in between; and
    what happens to output that is refused while a renderer starts. *)

From S2P Require Import Prelude Journal JournalOrder RendererLink RendererCheckpoint.
From S2P Require Import RendererRecovery RendererSupervisor RendererSupervisorSafe.
Local Open Scope Z_scope.

(** ** Calls of [SendOutput] *)

(** The journaled event a call delivers. *)
Definition threadId (t : thread) : option Z :=
  match t with
  | SendCheck id _ | SendNotify id _ _ _ | SendRemain id _ _ | SendPark id _ _ | SendDone id _ =>
      Some id
  | _ => None
  end.

(** An event that is on its way to a link, or was found in the replay. *)
Definition delivery (t : thread) : option (Z * option Z) :=
  match t with
  | SendNotify id _ g _ => Some (id, Some g)
  | SendDone id (OutSent g) => Some (id, Some g)
  | SendDone id OutReplayed => Some (id, None)
  | _ => None
  end.

(** What a step may do to the threads: one of them advances. *)
Definition tadvance (w w' : world) : Prop :=
  w_threads w' = w_threads w \/
  (viewOf w' = viewOf w /\
   exists tid,
     (exists t', w_threads w' = <[tid := t']> (w_threads w) /\
       (forall id, threadId t' = Some id ->
          id <= j_nextID (s_journal (w_sup w)) \/
          exists t, w_threads w !! tid = Some t /\ threadId t = Some id) /\
       (forall id x, delivery t' = Some (id, x) ->
          (exists t, w_threads w !! tid = Some t /\ delivery t = Some (id, x)) \/
          (c_acceptFrames (s_core (w_sup w)) = true /\
           x = c_link (s_core (w_sup w)) /\ x <> None) \/
          (x = None /\ id <= c_replayThrough (s_core (w_sup w))))) \/
     w_threads w' = delete tid (w_threads w)).

(** The core as a whole is the same, so the view is. *)
Lemma viewOf_eq w w' :
  s_core (w_sup w') = s_core (w_sup w) -> w_starts w' = w_starts w -> w_log w' = w_log w ->
  j_nextID (s_journal (w_sup w')) = j_nextID (s_journal (w_sup w)) -> viewOf w' = viewOf w.
Proof. unfold viewOf. by intros -> -> -> ->. Qed.

(** A thread that is neither a call of [SendOutput] nor becomes one. *)
Lemma tadvance_other w w' tid t' :
  viewOf w' = viewOf w -> w_threads w' = <[tid := t']> (w_threads w) -> threadId t' = None ->
  tadvance w w'.
Proof.
  intros Hv Ht Hid. right. split; [done|]. exists tid. left. exists t'. split; [done|]. split.
  - intros id E. congruence.
  - intros id x E. by destruct t'.
Qed.

Lemma tadvance_send w w' tid t t' :
  viewOf w' = viewOf w -> w_threads w !! tid = Some t ->
  w_threads w' = <[tid := t']> (w_threads w) ->
  threadId t' = threadId t ->
  (forall id x, delivery t' = Some (id, x) ->
     delivery t = Some (id, x) \/
     (c_acceptFrames (s_core (w_sup w)) = true /\ x = c_link (s_core (w_sup w)) /\ x <> None) \/
     (x = None /\ id <= c_replayThrough (s_core (w_sup w)))) ->
  tadvance w w'.
Proof.
  intros Hv Ht Ht' Hid Hd. right. split; [done|]. exists tid. left. exists t'. split; [done|]. split.
  - intros id E. right. exists t. by rewrite <- Hid.
  - intros id x E. destruct (Hd id x E) as [?|?]; [left; by exists t|by right].
Qed.

Section Steps.
Context `{RecoveryCoder} (build : string).
Implicit Types (w : world) (g : Z).

Ltac same := left; by repeat case_match.
Ltac other tid := eapply (tadvance_other _ _ tid); [by apply viewOf_eq|reflexivity|reflexivity].
Ltac send Ht := eapply (tadvance_send _ _ _ _ _ _ Ht); [reflexivity|reflexivity|].

Lemma notice_sup now e s :
  exists n, (noticeLocked now e s).2 = set_notes n s.
Proof.
  unfold noticeLocked. case_match; simpl; [|by eexists]. exists (s_notes s). by destruct s.
Qed.

Lemma thread_tadvance now tid ans w w' :
  threadStep build now tid ans w = Some w' -> tadvance w w'.
Proof.
  unfold threadStep. destruct (w_threads w !! tid) as [t|] eqn:Ht; [|done].
  destruct t; intros Hs; try done;
    unfold sendNotify, sendPark, tryPush, callLink, captureCall in Hs.
  - injection Hs as <-. unfold sendCheck.
    pose proof (notice_sup now errRendererDegraded (w_sup w)) as [n En].
    destruct (noticeLocked _ _ _) as [err s']. simpl in En. subst s'.
    repeat case_match; bool_to_prop;
      (eapply (tadvance_send w _ tid _ _); [by apply viewOf_eq|exact Ht|reflexivity|reflexivity|]);
      simpl; intros i x; try done; intros [= <- <-]; auto.
  - repeat (case_match; try done); injection Hs as <-;
      (eapply (tadvance_send w _ tid _ _); [by apply viewOf_eq|exact Ht|reflexivity|reflexivity|]);
      simpl; auto; done.
  - injection Hs as <-. unfold sendRemain.
    pose proof (notice_sup now errRendererUnavailable (w_sup w)) as [n En].
    destruct (noticeLocked _ _ _) as [err s']. simpl in En. subst s'.
    repeat case_match;
      (eapply (tadvance_send w _ tid _ _); [by apply viewOf_eq|exact Ht|reflexivity|reflexivity|]);
      done.
  - repeat (case_match; try done); injection Hs as <-;
      (eapply (tadvance_send w _ tid _ _); [by apply viewOf_eq|exact Ht|reflexivity|reflexivity|]);
      done.
  - injection Hs as <-. unfold trySend. repeat case_match; other tid.
  - repeat (case_match; try done); injection Hs as <-; other tid.
  - injection Hs as <-. other tid.
  - injection Hs as <-. unfold call. repeat case_match; other tid.
  - repeat (case_match; try done); injection Hs as <-; other tid.
  - injection Hs as <-. unfold captureRead. repeat case_match; other tid.
  - injection Hs as <-. other tid.
  - repeat (case_match; try done); injection Hs as <-; other tid.
  - injection Hs as <-. unfold captureStore. repeat case_match; other tid.
  - injection Hs as <-. right. split.
    + unfold captureDone. destruct periodic; by apply viewOf_eq.
    + exists tid. right. unfold captureDone. by destruct periodic.
Qed.

Lemma step_tadvance now w ev w' : step build now w ev = Some w' -> tadvance w w'.
Proof.
  destruct ev; simpl; intros Hs; try (by eapply thread_tadvance);
    unfold newThread in Hs; try (repeat (case_match; try done); injection Hs as <-; same).
  - left. injection Hs as <-. unfold startBegin. by repeat case_match.
  - left. unfold startStep in Hs. destruct (w_starts w !! g) as [sc|]; [|done].
    destruct (sc_phase sc); destruct ans; try done; injection Hs as <-;
      unfold startSpawned, startChecked, startSnapshot, startLoad, startInitialized, startRefused,
        startColors, startInteracted, startInstall, startNotified, requestRestart, startReturn;
      by repeat case_match.
  - left. injection Hs as <-. unfold frameArrives. by repeat case_match.
  - left. repeat (case_match; try done); injection Hs as <-. unfold framePublishes.
    by repeat case_match.
  - left. repeat (case_match; try done); injection Hs as <-. unfold tick. by repeat case_match.
  - unfold runStep in Hs.
    destruct (w_run w); try done; repeat (case_match; try done); injection Hs as <-.
    + same.
    + left. unfold restart. destruct (planRestartLocked _ _). unfold enterDegradedLocked, failOption.
      by repeat case_match; simplify_eq.
    + same.
    + same.
    + same.
    + same.
    + same.
    + same.
    + unfold maybeCheckpoint. case_match; [other tid|same].
    + left. unfold requestRestart. by repeat case_match.
    + left. unfold restartReplaced, failOption. by repeat case_match.
    + same.
    + same.
    + left. unfold restartSpawn, startBegin. by repeat case_match.
  - left. injection Hs as <-. unfold Close. by repeat case_match.
  - repeat (case_match; try done); injection Hs as <-. bool_to_prop.
    right. split; [done|]. exists tid. left. eexists. split; [reflexivity|]. split; [|done].
    intros i [= <-]. left. lia.
  - repeat (case_match; try done); injection Hs as <-. other tid.
  - repeat (case_match; try done); injection Hs as <-. other tid.
  - repeat (case_match; try done); injection Hs as <-. other tid.
Qed.
End Steps.

(** ** The invariant *)

Record cover_inv (v : view) (ts : gmap Z thread) : Prop := {
  ci_last : c_replayThrough (v_core v) <= v_last v;
  ci_ids : forall tid t id, ts !! tid = Some t -> threadId t = Some id -> id <= v_last v;
  ci_snap : forall g p snap, v_starts v !! g = Some p -> phaseSnap p = Some snap ->
    js_LastID snap <= v_last v;
  ci_start : forall p snap, v_starts v !! c_generation (v_core v) = Some p ->
    phaseSnap p = Some snap ->
    c_replayThrough (v_core v) <= js_LastID snap /\
    forall tid t id x, ts !! tid = Some t -> delivery t = Some (id, x) -> id <= js_LastID snap;
  ci_sent : c_acceptFrames (v_core v) = true ->
    forall tid t id g, ts !! tid = Some t -> delivery t = Some (id, Some g) ->
    g = c_generation (v_core v) \/ id <= c_replayThrough (v_core v);
  ci_replayed : forall tid t id, ts !! tid = Some t -> delivery t = Some (id, None) ->
    id <= c_replayThrough (v_core v);
}.

Lemma delivery_id t id x : delivery t = Some (id, x) -> threadId t = Some id.
Proof. by destruct t as [| | | |? []| | | | | | | | | | | |]; simpl; intros; simplify_eq. Qed.

Lemma snap_preInstall p snap : phaseSnap p = Some snap -> preInstall p = true.
Proof. by destruct p. Qed.

Lemma cover_move V U v v' ts :
  pub_inv U v -> move V v v' -> cover_inv v ts -> cover_inv v' ts.
Proof.
  intros Hpub Hm [Hl Hi Hsn Hst Hse Hre]. destruct Hm; simpl in *.
  - destruct H as (E1 & E2 & E3 & E4 & E5).
    split; simpl; rewrite ?E1, ?E2, ?E3, ?E4, ?E5; try done.
    + intros g p' snap Hp Hs. destruct (H0 _ _ Hp) as (p & Hp0 & _ & [Es|[->|[->|(sn & -> & Es)]]] & _);
        try done; [rewrite Es in Hs; by eapply Hsn|]. injection Hs as <-. lia.
    + intros p' snap Hp Hs. destruct (H0 _ _ Hp) as (p & Hp0 & _ & [Es|[->|[->|(sn & -> & Es)]]] & _);
        try done; [rewrite Es in Hs; by eapply Hst|]. injection Hs as <-. rewrite Es.
      split; [done|]. intros tid t id x Ht Hd. eapply Hi; [done|by eapply delivery_id].
  - split; simpl; try done; try lia.
    + intros tid t id Ht Hd. specialize (Hi tid t id Ht Hd). lia.
    + intros g p snap Hp Hs. specialize (Hsn g p snap Hp Hs). lia.
  - split; simpl; rewrite ?H3; try done.
    + intros h q snap [[_ <-]|[_ Hq]]%lookup_insert_Some Hs; [by subst p|by eapply Hsn].
    + intros q snap. rewrite lookup_insert_eq. intros [= <-] Hs. by subst p.
    + by rewrite H1.
  - destruct H as (p & Hp & Hpre & Hpast & Hsnap). destruct (Hst _ _ Hp Hsnap) as [Hr Hd].
    split; simpl; rewrite ?H2, ?H5; try done.
    + by eapply Hsn.
    + intros h q sn [[_ <-]|[_ Hq]]%lookup_insert_Some Hs; [done|by eapply Hsn].
    + intros q sn. rewrite lookup_insert_eq. by intros [= <-].
    + intros _ tid t id h Ht Hx. right. by eapply Hd.
    + intros tid t id Ht Hx. by eapply Hd.
  - split; simpl; rewrite ?H0, ?H1; try done.
    + intros g p snap Hp Hs. apply H4 in Hp. by eapply Hsn.
    + intros p snap Hp Hs. apply H4 in Hp. by eapply Hst.
    + by rewrite H.
  - destruct H as (E1 & E2 & E3 & E4 & E5).
    split; simpl; rewrite ?E1, ?E2, ?E3, ?E4, ?E5; done.
Qed.

Lemma cover_delete v ts tid : cover_inv v ts -> cover_inv v (delete tid ts).
Proof.
  intros [Hl Hi Hsn Hst Hse Hre].
  assert (forall k t, delete tid ts !! k = Some t -> ts !! k = Some t) as Hd
    by (intros k t [_ ?]%lookup_delete_Some; done).
  split; try done; eauto.
  intros p snap Hp Hs. destruct (Hst p snap Hp Hs). split; [done|]. eauto.
Qed.

Lemma cover_advance U w w' :
  pub_inv U (viewOf w) -> tadvance w w' -> cover_inv (viewOf w) (w_threads w) ->
  cover_inv (viewOf w) (w_threads w').
Proof.
  intros Hpub [->|[_ (tid & [(t' & -> & Hids & Hdel)| ->])]] Hc; [done| |by apply cover_delete].
  destruct Hc as [Hl Hi Hsn Hst Hse Hre]. simpl in *.
  assert (forall id, threadId t' = Some id -> id <= j_nextID (s_journal (w_sup w))) as Hid.
  { intros id [?|(t & Ht & E)]%Hids; [done|by eapply Hi]. }
  split; simpl; try done.
  - intros k t id [[_ <-]|[_ Hk]]%lookup_insert_Some E; [auto|by eapply Hi].
  - intros p snap Hp Hs. destruct (Hst p snap Hp Hs) as [Hr Hd]. split; [done|].
    intros k t id x [[_ <-]|[_ Hk]]%lookup_insert_Some E; [|by eapply Hd].
    destruct (Hdel id x E) as [(t & Ht & E')|[(Ha & _)|[_ ?]]]; [by eapply Hd| |lia].
    destruct (pi_accept _ _ Hpub Ha) as (_ & _ & _ & _ & Hpre). apply snap_preInstall in Hs.
    by rewrite (Hpre p Hp) in Hs.
  - intros Ha k t id g [[_ <-]|[_ Hk]]%lookup_insert_Some E; [|by eapply Hse].
    destruct (Hdel id _ E) as [(t & Ht & E')|[(_ & Hx & _)|[? _]]]; [by eapply Hse| |done].
    destruct (pi_accept _ _ Hpub Ha) as (Hk & _). simpl in Hk. left. congruence.
  - intros k t id [[_ <-]|[_ Hk]]%lookup_insert_Some E; [|by eapply Hre].
    destruct (Hdel id _ E) as [(t & Ht & E')|[(_ & _ & Hx)|[_ ?]]]; [by eapply Hre|done|done].
Qed.

Section Output.
Context `{RecoveryCoder} (build : string).

Lemma run_cover es w :
  smallFor (zlen es) w -> pub_inv (verifiedBy es) (viewOf w) -> cover_inv (viewOf w) (w_threads w) ->
  let w' := run build w es in
  pub_inv (verifiedBy es) (viewOf w') /\ cover_inv (viewOf w') (w_threads w').
Proof.
  intros Hsm Hp Hc.
  apply (run_induction build
    (fun w => pub_inv (verifiedBy es) (viewOf w) /\ cover_inv (viewOf w) (w_threads w)));
    [|done|done].
  intros now ev v v' Hin Hv [Hi Hci] Hstep. pose proof (step_tadvance build _ _ _ _ Hstep) as Ht.
  apply step_move in Hstep; [|done]. split.
  - eapply pub_move; [|done|done]. intros g Hg. by exists (now, ev).
  - eapply cover_move; [done|done|]. by eapply cover_advance.
Qed.

End Output.

(** ** What a renderer was given

    [R snap] is that [snap] was the journal in some state of the run. *)

Definition sentWith (params : rendererInitParams) (snap : rendererJournalSnapshot) : Prop :=
  ip_Journal params = js_Events snap /\ ip_JournalWatermark params = js_LastID snap /\
  ip_JournalPartial params = js_Partial snap.

Definition given (R : rendererJournalSnapshot -> Prop) (init : option rendererInitParams)
    (snap : rendererJournalSnapshot) : Prop :=
  exists params, init = Some params /\ sentWith params snap /\ R snap.

Definition phase_given (R : rendererJournalSnapshot -> Prop) (init : option rendererInitParams)
    (p : startPhase) : Prop :=
  match p with
  | StartLoad snap => R snap
  | StartInit snap params _ => sentWith params snap /\ R snap
  | StartColors snap _ _ | StartInteract snap _ _ | StartInstall snap _ _ => given R init snap
  | _ => True
  end.

Record given_inv (R : rendererJournalSnapshot -> Prop) (w : world) : Prop := {
  gi_starts : forall g sc, w_starts w !! g = Some sc -> phase_given R (w_inits w !! g) (sc_phase sc);
  gi_core : c_acceptFrames (s_core (w_sup w)) = true ->
    exists snap, given R (w_inits w !! c_generation (s_core (w_sup w))) snap /\
      c_replayThrough (s_core (w_sup w)) = js_LastID snap;
}.

Lemma given_mono (R R' : rendererJournalSnapshot -> Prop) init snap :
  (forall x, R x -> R' x) -> given R init snap -> given R' init snap.
Proof. intros HR (params & ? & ? & ?). exists params. auto. Qed.

Lemma given_inv_mono (R R' : rendererJournalSnapshot -> Prop) w :
  (forall x, R x -> R' x) -> given_inv R w -> given_inv R' w.
Proof.
  intros HR [Hs Hc]. split.
  - intros g sc Hg. specialize (Hs g sc Hg). destruct (sc_phase sc); simpl in *; try done; auto.
    + destruct Hs. auto.
    + by eapply given_mono.
    + by eapply given_mono.
    + by eapply given_mono.
  - intros Ha. destruct (Hc Ha) as (snap & Hg & E). exists snap. split; [|done]. by eapply given_mono.
Qed.

Section Given.
Context `{RecoveryCoder} (build : string).

(** Steps that are not of a start leave the starts, but for new ones, and what
    they were given. *)
Lemma step_starts now w ev w' :
  step build now w ev = Some w' -> (forall g ans, ev <> EvStartStep g ans) ->
  w_inits w' = w_inits w /\
  forall g sc, w_starts w' !! g = Some sc -> w_starts w !! g = Some sc \/ sc_phase sc = StartSpawn.
Proof.
  assert (Hbegin : forall b cols rows, w_inits (startBegin b cols rows w) = w_inits w /\
    forall g sc, w_starts (startBegin b cols rows w) !! g = Some sc ->
      w_starts w !! g = Some sc \/ sc_phase sc = StartSpawn).
  { intros b cols rows. unfold startBegin. destruct (c_closed _); [destruct b; (split; [done|]); intros; by left|].
    assert (forall g sc, <[u64 (c_generation (s_core (w_sup w)) + 1) :=
        StartCall b cols rows StartSpawn]> (w_starts w) !! g = Some sc ->
      w_starts w !! g = Some sc \/ sc_phase sc = StartSpawn)
      by (intros g sc [[_ <-]|[_ ?]]%lookup_insert_Some; by auto).
    by destruct b. }
  assert (Hsame : forall x, w_inits x = w_inits w -> w_starts x = w_starts w ->
    w_inits x = w_inits w /\ forall g sc, w_starts x !! g = Some sc ->
      w_starts w !! g = Some sc \/ sc_phase sc = StartSpawn).
  { intros x E1 E2. split; [done|]. rewrite E2. auto. }
  intros Hs Hne. destruct ev; simpl in Hs; unfold newThread, onSup in Hs.
  all: try (repeat (case_match; try done); injection Hs as <-; by apply Hsame).
  - injection Hs as <-. apply Hbegin.
  - by destruct (Hne g ans).
  - injection Hs as <-. unfold frameArrives. by case_match; apply Hsame.
  - repeat (case_match; try done); injection Hs as <-. unfold framePublishes.
    by repeat case_match; apply Hsame.
  - repeat (case_match; try done); injection Hs as <-. unfold tick. by repeat case_match; apply Hsame.
  - unfold runStep in Hs. destruct (w_run w); try done; repeat (case_match; try done); injection Hs as <-.
    all: try (by apply Hsame).
    + apply Hsame; unfold restart, enterDegradedLocked, failOption; by repeat (case_match; simplify_eq/=).
    + apply Hsame; unfold maybeCheckpoint; by case_match.
    + apply Hsame; unfold requestRestart; by repeat case_match.
    + apply Hsame; unfold restartReplaced, failOption; by repeat case_match.
    + unfold restartSpawn. destruct (c_closed _); [by apply Hsame|].
      match goal with |- context [let '(_, _) := ?x in _] => destruct x end. apply Hbegin.
  - injection Hs as <-. unfold Close. by case_match; apply Hsame.
  - unfold threadStep in Hs. destruct (w_threads w !! tid) as [t|]; [|done].
    destruct t; try done; unfold sendNotify, sendPark, tryPush, callLink, captureCall in Hs;
      repeat (case_match; try done); simplify_eq/=; apply Hsame;
      unfold sendCheck, sendRemain, trySend, markDirty, call, captureRead, captureThrough,
        captureStore, captureDone; by repeat case_match.
Qed.

(** A step of a start. *)
Lemma start_given R now g ans w w' :
  R (Snapshot (s_journal (w_sup w))) ->
  (forall h sc, w_starts w !! h = Some sc -> phase_given R (w_inits w !! h) (sc_phase sc)) ->
  startStep build now g ans w = Some w' ->
  forall h sc, w_starts w' !! h = Some sc -> phase_given R (w_inits w' !! h) (sc_phase sc).
Proof.
  intros Hsnap Hst. unfold startStep. destruct (w_starts w !! g) as [sc|] eqn:Hg; [|done].
  pose proof (Hst g sc Hg) as Hp.
  (* the call returns *)
  assert (Hret : forall x err, w_starts x = w_starts w -> w_inits x = w_inits w ->
    forall h y, w_starts (startReturn g sc err x) !! h = Some y ->
    phase_given R (w_inits (startReturn g sc err x) !! h) (sc_phase y)).
  { intros x err E1 E2 h y. assert (w_starts (startReturn g sc err x) = delete g (w_starts w) /\
      w_inits (startReturn g sc err x) = w_inits w) as [-> ->].
    { unfold startReturn. destruct (sc_byRun sc); [destruct err|]; simpl; by rewrite E1, E2. }
    intros [_ ?]%lookup_delete_Some. by apply Hst. }
  (* or reaches a phase *)
  assert (Hto : forall x p, w_starts x = w_starts w -> w_inits x = w_inits w ->
    phase_given R (w_inits w !! g) p ->
    forall h y, w_starts (startPhaseIs g sc p x) !! h = Some y ->
    phase_given R (w_inits (startPhaseIs g sc p x) !! h) (sc_phase y)).
  { intros x p E1 E2 Hph h y. simpl. rewrite E1, E2.
    intros [[<- <-]|[_ ?]]%lookup_insert_Some; [done|by apply Hst]. }
  destruct (sc_phase sc) eqn:Ep; simpl in Hp; intros Hs.
  - destruct ans; try done; injection Hs as <-; [by apply Hto|by apply Hret].
  - assert (w' = startChecked g sc w) as -> by (by destruct ans; injection Hs).
    unfold startChecked. destruct (negb _); [by apply Hret|by apply Hto].
  - assert (w' = startSnapshot g sc w) as -> by (by destruct ans; injection Hs). by apply Hto.
  - assert (w' = startLoad build g sc snap w) as -> by (by destruct ans; injection Hs). by apply Hto.
  - destruct ans as [|e|executable reply]; try done; injection Hs as <-. destruct Hp as [Hsent HR].
    assert (Hother : forall h y, delete g (w_starts w) !! h = Some y ->
      phase_given R (<[g := params]> (w_inits w) !! h) (sc_phase y)).
    { intros h y [Hne Hy]%lookup_delete_Some. rewrite lookup_insert_ne by done. by apply Hst. }
    assert (Href : forall mismatch e h y,
      w_starts (startRefused now g sc mismatch e (w_init g params w)) !! h = Some y ->
      phase_given R (w_inits (startRefused now g sc mismatch e (w_init g params w)) !! h) (sc_phase y)).
    { intros mismatch e h y.
      assert (w_starts (startRefused now g sc mismatch e (w_init g params w)) = delete g (w_starts w) /\
        w_inits (startRefused now g sc mismatch e (w_init g params w)) = <[g := params]> (w_inits w))
        as [-> ->] by (unfold startRefused, startReturn; by destruct (sc_byRun sc)).
      apply Hother. }
    unfold startInitialized. destruct reply as [raw|e]; [|apply Href].
    destruct (verifyRendererProtocol executable raw) as [|e|e] eqn:Ev; [|apply Href..].
    destruct raw as [init|e]; simpl.
    + intros h y [[<- <-]|[Hne Hy]]%lookup_insert_Some.
      * simpl. exists params. by rewrite lookup_insert_eq.
      * rewrite lookup_insert_ne by done. by apply Hst.
    + unfold verifyRendererProtocol in Ev. done.
  - assert (w' = startColors g sc snap init applied w) as -> by (by destruct ans; injection Hs).
    unfold startColors. destruct (_ && _); by apply Hto.
  - destruct ans; try done; injection Hs as <-; [by apply Hto|by apply Hret].
  - assert (w' = startInstall now g sc snap init applied w) as -> by (by destruct ans; injection Hs).
    unfold startInstall. destruct (negb _); [by apply Hto|]. destruct (negb _); [by apply Hret|by apply Hto].
  - destruct ans as [|e|]; try done; injection Hs as <-; unfold startNotified; [by apply Hret|].
    apply Hret; unfold requestRestart; by repeat case_match.
Qed.

(** What the worker of a generation was given changes only while its start is
    before the installation. *)
Lemma step_inits now w ev w' g :
  step build now w ev = Some w' -> w_inits w' !! g = w_inits w !! g \/
  exists sc snap params applied, w_starts w !! g = Some sc /\ sc_phase sc = StartInit snap params applied.
Proof.
  intros Hs. assert ((exists h ans, ev = EvStartStep h ans) \/ forall h ans, ev <> EvStartStep h ans)
    as [(h & ans & ->)|Hne] by (destruct ev; eauto; by right).
  2: { left. by rewrite (proj1 (step_starts _ _ _ _ Hs Hne)). }
  simpl in Hs. unfold startStep in Hs. destruct (w_starts w !! h) as [sc|] eqn:Hh; [|done].
  destruct (decide (h = g)) as [->|Hne].
  - destruct (sc_phase sc) eqn:Ep; try (right; by eexists _, _, _, _); left; destruct ans; try done;
      injection Hs as <-; unfold startSpawned, startChecked, startColors, startInteracted, startInstall,
        startNotified, requestRestart, startReturn; by repeat case_match.
  - left. destruct (sc_phase sc) eqn:Ep; destruct ans; try done; injection Hs as <-;
      unfold startSpawned, startChecked, startColors, startInteracted, startInstall,
        startNotified, requestRestart, startInitialized, startRefused, startReturn;
      repeat case_match; simpl; by rewrite ?lookup_insert_ne by done.
Qed.

Lemma step_given R U now w ev w' :
  R (Snapshot (s_journal (w_sup w))) -> small w -> pub_inv U (viewOf w) -> given_inv R w ->
  step build now w ev = Some w' -> given_inv R w'.
Proof.
  intros Hsnap Hsm Hpub [Hst Hco] Hstep. split.
  - assert ((exists h ans, ev = EvStartStep h ans) \/ forall h ans, ev <> EvStartStep h ans)
      as [(h & ans & ->)|Hne] by (destruct ev; eauto; by right); [by eapply start_given|].
    destruct (step_starts _ _ _ _ Hstep Hne) as [-> Hs]. intros g sc [Hg|Hg]%Hs; [by apply Hst|].
    by rewrite Hg.
  - intros Ha. pose proof (step_move build _ _ _ _ Hsm Hstep) as Hm.
    assert (Hkeep : core_same (s_core (w_sup w)) (s_core (w_sup w')) ->
      exists snap, given R (w_inits w' !! c_generation (s_core (w_sup w'))) snap /\
        c_replayThrough (s_core (w_sup w')) = js_LastID snap).
    { intros (_ & Eg & Er & Ea & _). rewrite Eg, Er. rewrite Ea in Ha.
      destruct (step_inits _ _ _ _ (c_generation (s_core (w_sup w))) Hstep)
        as [->|(sc & snap & params & applied & Hg & Hp)]; [by apply Hco|].
      destruct (pi_accept _ _ Hpub Ha) as (_ & _ & _ & _ & Hpre).
      assert (preInstall (sc_phase sc) = false) as Hx by (apply Hpre; simpl; by rewrite lookup_fmap, Hg).
      by rewrite Hp in Hx. }
    unfold viewOf in Hm. inversion Hm as [c c' st st' log last Hc Hq|c st log last last' Hl
      |c c' st log last p _ _ Hn|c c' st log last snap g (p & Hp & Hpre & Hpast & Hps) _ _ Eg _ _ Er
      |c c' st st' log log' last Hn|c c' st log last p Hc]; subst.
    + by apply Hkeep.
    + match goal with E : s_core (w_sup w) = s_core (w_sup w') |- _ => rewrite <- E in * end. by apply Hkeep.
    + congruence.
    + clear Hkeep. subst g. exists snap. split; [|done]. rewrite Eg.
      rewrite lookup_fmap in Hp. destruct (w_starts w !! _) as [sc|] eqn:Hg; [|done].
      simpl in Hp. injection Hp as <-. pose proof (Hst _ _ Hg) as Hgiven.
      destruct (step_inits _ _ _ _ (c_generation (s_core (w_sup w))) Hstep)
        as [->|(sc' & snap' & params & applied & Hg' & Hp')].
      * destruct (sc_phase sc); simpl in Hps, Hpast, Hgiven; simplify_eq; done.
      * rewrite Hg in Hg'. injection Hg' as <-. by rewrite Hp' in Hpast.
    + congruence.
    + by apply Hkeep.
Qed.

(** The journal was [snap] after some prefix of the run. *)
Definition journalAt (w0 : world) (es : list (time * event)) (snap : rendererJournalSnapshot) : Prop :=
  exists es0, es0 `prefix_of` es /\ snap = Snapshot (s_journal (w_sup (run build w0 es0))).

Lemma run_snoc es e w : run build w (es ++ [e]) = next build (run build w es) e.
Proof. unfold run. by rewrite foldl_app. Qed.

Lemma run_given w0 es :
  (forall es0 e, es0 ++ [e] `prefix_of` es ->
     small (run build w0 es0) /\ exists U, pub_inv U (viewOf (run build w0 es0))) ->
  given_inv (fun _ => False) w0 -> given_inv (journalAt w0 es) (run build w0 es).
Proof.
  intros Hall H0. induction es as [|e es IH] using rev_ind.
  { by apply (given_inv_mono (fun _ => False)). }
  destruct (Hall es e ltac:(done)) as (Hsm & U & Hpub). rewrite run_snoc.
  assert (given_inv (journalAt w0 (es ++ [e])) (run build w0 es)) as Hgi.
  { apply (given_inv_mono (journalAt w0 es)).
    - intros snap (es0 & Hp & ->). exists es0. split; [by apply prefix_app_r|done].
    - apply IH. intros es0 x Hp. apply (Hall es0 x). by apply prefix_app_r. }
  unfold next. destruct (step build e.1 (run build w0 es) e.2) as [w'|] eqn:E; [|done].
  eapply step_given; [|done..]. exists es. split; [by apply prefix_app_r|done].
Qed.

(** C2: output that was delivered is known to the renderer in place.  Whenever
    frames are accepted, in every interleaving, the worker of the current
    generation was initialised from the journal as it stood at some instant of
    the run (with exactly the events it retained, whether it had lost earlier
    ones, and as watermark the identity of its last event).  For every call of
    [SendOutput] that queued its event on a link, that link is the current
    generation's, or that watermark reaches up to the event - however many links
    have failed in between; and a call that found its event covered by a replay
    is right about it: the watermark reaches up to the event. *)
Theorem accepted_output_covered now terminalID journal timeout policy es :
  0 <= j_nextID journal -> j_nextID journal + zlen es < two64 ->
  let w0 := newWorld (newRendererSupervisor now terminalID journal timeout policy) in
  let w := run build w0 es in
  let c := s_core (w_sup w) in
  c_acceptFrames c = true ->
  c_link c = Some (c_generation c) /\
  exists params es0, w_inits w !! c_generation c = Some params /\ es0 `prefix_of` es /\
    let j := s_journal (w_sup (run build w0 es0)) in
    ip_Journal params = j_events j /\ ip_JournalPartial params = j_partial j /\
    ip_JournalWatermark params = j_nextID j /\
    forall tid id out, w_threads w !! tid = Some (SendDone id out) ->
      (forall g, out = OutSent g -> g = c_generation c \/ id <= ip_JournalWatermark params) /\
      (out = OutReplayed -> id <= ip_JournalWatermark params).
Proof.
  intros Hj Hn w0 w c Ha.
  assert (Hsmall : smallFor (zlen es) w0) by (apply supervised_small; [unfold zlen; lia|done|done]).
  assert (Hp0 : pub_inv (verifiedBy es) (viewOf w0)).
  { split; simpl; try done; [by intros ?? ?%not_elem_of_nil|apply fenced_nil]. }
  destruct (run_cover build es w0 Hsmall Hp0) as [Hp Hc]; [by split|].
  destruct (run_given w0 es) as [_ Hco].
  - intros es0 e [k ->]. assert (Hsm : smallFor (zlen es0 + zlen (e :: k)) w0).
    { replace (zlen es0 + zlen (e :: k)) with (zlen ((es0 ++ [e]) ++ k)); [done|].
      unfold zlen. rewrite !length_app. simpl. lia. }
    split.
    + destruct (run_small build es0 (e :: k) w0 Hsm) as (? & ? & ? & ?). unfold zlen in *. simpl in *.
      split; lia.
    + exists (verifiedBy es0). apply run_pub_inv.
      * destruct Hsm as (? & ? & ? & ?). rewrite zlen_cons in *. pose proof (zlen_nonneg k). by split_and!; try lia.
      * split; simpl; try done; [by intros ?? ?%not_elem_of_nil|apply fenced_nil].
  - split; [by intros g sc|done].
  - split; [by apply (pi_accept _ _ Hp)|].
    destruct (Hco Ha) as (snap & (params & Hin & (E1 & E2 & E3) & (es0 & Hpre & ->)) & Er).
    exists params, es0. split; [done|]. split; [done|]. cbv zeta. simpl in E1, E2, E3, Er.
    split_and!; [done|done|done|]. rewrite E2. fold c in Er. rewrite <- Er.
    intros tid id out Ht. split.
    + intros g ->. by apply (ci_sent _ _ Hc Ha tid _ id g Ht).
    + intros ->. by apply (ci_replayed _ _ Hc tid _ id Ht).
Qed.
End Given.

Module OutputSample.
Import SupervisorSample.

#[local] Existing Instance RecoverySample.coder.

(** Output is sent to the first renderer, which then stalls and is replaced. *)
Definition delivered : list (time * event) :=
  (sec 0, EvStart 80 24) :: starts (sec 0) 1 ++
  [(sec 1, EvAppend (OpOutput [33])); (sec 1, EvSend 1 3); (sec 1, EvThread 1 AnsOk);
   (sec 1, EvThread 1 AnsOk)] ++
  stalls (sec 3) ++ replaces (sec 3) ++ starts (sec 3) 2 ++
  [(sec 4, EvSend 2 3); (sec 4, EvThread 2 AnsOk)].

Lemma delivered_outcome :
  let w := run "b1" initial delivered in
  w_threads w !! 1 = Some (SendDone 3 (OutSent 1)) /\
  w_threads w !! 2 = Some (SendDone 3 OutReplayed) /\
  c_acceptFrames (s_core (w_sup w)) = true.
Proof. vm_compute. done. Qed.

Lemma accepted_output_covered_witness :
  let w := run "b1" initial delivered in
  let c := s_core (w_sup w) in
  c_link c = Some (c_generation c) /\
  exists params es0, w_inits w !! c_generation c = Some params /\ es0 `prefix_of` delivered /\
    let j := s_journal (w_sup (run "b1" initial es0)) in
    ip_Journal params = j_events j /\ ip_JournalPartial params = j_partial j /\
    ip_JournalWatermark params = j_nextID j /\
    forall tid id out, w_threads w !! tid = Some (SendDone id out) ->
      (forall g, out = OutSent g -> g = c_generation c \/ id <= ip_JournalWatermark params) /\
      (out = OutReplayed -> id <= ip_JournalWatermark params).
Proof.
  apply (accepted_output_covered "b1" (sec 0) "t1" journal 0 policy delivered).
  - vm_compute. discriminate.
  - vm_compute. reflexivity.
  - exact (proj2 (proj2 delivered_outcome)).
Defined.

(** Output that arrives after the journal snapshot of a start, and is refused
    before the start ends, reaches neither the link nor the replay of the
    renderer that is installed. *)
Definition slowStart : list (time * event) :=
  [(sec 0, EvStart 80 24); (sec 0, EvStartStep 1 SAOk); (sec 0, EvStartStep 1 SAOk);
   (sec 0, EvStartStep 1 SAOk); (sec 0, EvStartStep 1 SAOk);
   (sec 0, EvAppend (OpOutput [33])); (sec 0, EvSend 1 3); (sec 0, EvThread 1 AnsOk);
   (sec 0, EvThread 1 AnsOk); (sec 2, EvThread 1 AnsTimer); (sec 2, EvThread 1 AnsOk);
   (sec 2, EvThread 1 AnsOk);
   (sec 3, EvStartStep 1 reply); (sec 3, EvStartStep 1 SAOk); (sec 3, EvStartStep 1 SAOk);
   (sec 3, EvStartStep 1 SAOk)].

Theorem refused_output_missing :
  let w := run "b1" initial slowStart in
  let c := s_core (w_sup w) in
  c_acceptFrames c = true /\ w_starts w = ∅ /\ w_run w = RunSelect /\
  k_restart (s_wakes (w_sup w)) = false /\
  w_threads w !! 1 = Some (SendDone 3 (OutError errRendererUnavailable)) /\
  c_replayThrough c = 2.
Proof. vm_compute. done. Qed.
End OutputSample.
