(* ===== verification/RendererSupervisorWorkers.v ===== *)
(** * Worker processes

    Over [RendererSupervisor]: who is responsible for stopping each renderer
    worker that was started. *)

From S2P Require Import Prelude Journal JournalOrder RendererLink RendererCheckpoint.
From S2P Require Import RendererRecovery RendererSupervisor RendererSupervisorSafe.
Local Open Scope Z_scope.

(** ** What a step does to the workers *)

Record kview := KView {
  kv_link : option Z;
  kv_closed : bool;
  kv_starts : gmap Z (bool * startPhase);
  kv_run : runState;
  kv_closing : option Z;
  kv_spawned : gset Z;
  kv_failed : gset Z;
  kv_overlap : bool;
}.

Definition startOf (sc : startCall) : bool * startPhase := (sc_byRun sc, sc_phase sc).

Definition kviewOf (w : world) : kview :=
  KView (c_link (s_core (w_sup w))) (c_closed (s_core (w_sup w))) (startOf <$> w_starts w) (w_run w)
    (w_closing w) (w_spawned w) (w_failed w) (w_overlap w).

(** Where the run loop is between restarts. *)
Definition idle (r : runState) : Prop :=
  match r with
  | RunSelect | RunRestart | RunRearm | RunProbe _ _ _ | RunHealth _ _ | RunDone _ _
  | RunRequest _ | RunExit => True
  | _ => False
  end.

(** Where it is between giving up a link and starting a renderer. *)
Definition replacing (r : runState) : Prop :=
  match r with RunReplaced _ _ _ | RunBackoff _ | RunSpawn => True | _ => False end.

Definition withFailed (o : option Z) (s : gset Z) : gset Z :=
  match o with Some g => {[g]} ∪ s | None => s end.

(** A worker process may be running for the call. *)
Definition spawnedPhase (p : startPhase) : bool :=
  match p with StartSpawn | StartNotify => false | _ => true end.

Inductive kmove : kview -> kview -> Prop :=
| KQuiet l c (st : gmap Z (bool * startPhase)) r r' cl sp f o :
    (r' = r \/ idle r /\ idle r') ->
    kmove (KView l c st r cl sp f o) (KView l c st r' cl sp f o)
| KBeginRun l (st : gmap Z (bool * startPhase)) cl sp f o (g : Z) :
    kmove (KView l false st RunSpawn cl sp f o)
      (KView l false (<[g := (true, StartSpawn)]> st) (RunStarting g) cl sp f o)
| KSpawned l c (st : gmap Z (bool * startPhase)) r cl sp f o b (g : Z) :
    st !! g = Some (b, StartSpawn) ->
    kmove (KView l c st r cl sp f o)
      (KView l c (<[g := (b, StartCheck)]> st) r cl ({[g]} ∪ sp) f o)
| KPhase l c (st : gmap Z (bool * startPhase)) r cl sp f o b (g : Z) p p' :
    st !! g = Some (b, p) -> spawnedPhase p = true -> spawnedPhase p' = true ->
    kmove (KView l c st r cl sp f o) (KView l c (<[g := (b, p')]> st) r cl sp f o)
| KInstall l (st : gmap Z (bool * startPhase)) r cl sp f o b (g : Z) p :
    st !! g = Some (b, p) -> spawnedPhase p = true ->
    kmove (KView l false st r cl sp f o)
      (KView (Some g) false (<[g := (b, StartNotify)]> st) r cl sp f o)
(* a call returns; its worker fails if there is one that is not installed *)
| KEnd l c (st : gmap Z (bool * startPhase)) r cl sp (f f' : gset Z) o (b : bool) (g : Z) p :
    st !! g = Some (b, p) -> (f' = {[g]} ∪ f \/ f' = f /\ spawnedPhase p = false) ->
    kmove (KView l c st r cl sp f o)
      (KView l c (delete g st) (if b then RunSelect else r) cl sp f' o)
| KRestart l (st : gmap Z (bool * startPhase)) cl sp f o o' clean attempt :
    (o' = false -> o = false /\ forall g b p, st !! g = Some (b, p) -> b = true) ->
    kmove (KView l false st RunRestart cl sp f o)
      (KView None false st (RunReplaced l clean attempt) cl sp f o')
| KDegrade l (st : gmap Z (bool * startPhase)) cl sp f o o' :
    (o' = false -> o = false) ->
    kmove (KView l false st RunRestart cl sp f o)
      (KView None false st RunSelect cl sp (withFailed l f) o')
| KReplaced l c (st : gmap Z (bool * startPhase)) old clean attempt r' cl sp f o :
    replacing r' -> (forall g cl at_, r' <> RunReplaced g cl at_) ->
    kmove (KView l c st (RunReplaced old clean attempt) cl sp f o)
      (KView l c st r' cl sp (withFailed old f) o)
| KBackoff l c (st : gmap Z (bool * startPhase)) r r' cl sp f o :
    replacing r -> (forall g cl at_, r <> RunReplaced g cl at_) -> r' = RunSpawn \/ r' = RunSelect ->
    kmove (KView l c st r cl sp f o) (KView l c st r' cl sp f o)
| KClose l (st : gmap Z (bool * startPhase)) r cl sp f o :
    kmove (KView l false st r cl sp f o) (KView None true st r l sp f o)
| KCloseFail l c (st : gmap Z (bool * startPhase)) r (g : Z) sp f o :
    kmove (KView l c st r (Some g) sp f o) (KView l c st r None sp ({[g]} ∪ f) o).

(** ** The invariant *)

(** Somebody will stop the worker, has stopped it, or has it in use. *)
Definition owned (v : kview) (g : Z) : Prop :=
  g ∈ kv_failed v \/ kv_link v = Some g \/
  (exists b p, kv_starts v !! g = Some (b, p) /\ spawnedPhase p = true) \/
  (exists clean attempt, kv_run v = RunReplaced (Some g) clean attempt) \/
  kv_closing v = Some g.

Record worker_inv (v : kview) : Prop := {
  wi_owned : forall g, g ∈ kv_spawned v -> owned v g;
  wi_one : forall g h x y, kv_starts v !! g = Some x -> kv_starts v !! h = Some y -> g = h;
  wi_pre : forall g b p, kv_starts v !! g = Some (b, p) -> preInstall p = true -> kv_link v = None;
  wi_idle : idle (kv_run v) -> forall g b p, kv_starts v !! g = Some (b, p) -> b = false;
  wi_replacing : replacing (kv_run v) -> kv_starts v = ∅ /\ kv_link v = None;
  wi_starting : forall g, kv_run v = RunStarting g ->
    forall h b p, kv_starts v !! h = Some (b, p) -> b = true;
}.

Definition closed_inv (v : kview) : Prop :=
  (kv_closed v = true -> kv_link v = None) /\ (kv_closed v = false -> kv_closing v = None).

Lemma run_cases r : idle r \/ replacing r \/ exists g, r = RunStarting g.
Proof. destruct r; simpl; eauto. Qed.

Lemma closed_kmove v v' : kmove v v' -> closed_inv v -> closed_inv v'.
Proof.
  intros Hm [H1 H2]. destruct Hm; split; simpl in *; try done; auto.
Qed.

Lemma overlap_kmove v v' : kmove v v' -> kv_overlap v' = false -> kv_overlap v = false.
Proof. intros []; simpl; try done; naive_solver. Qed.

(** Ownership only needs to be shown for workers that are not failed. *)
Lemma owned_mono v v' g :
  owned v g ->
  (g ∈ kv_failed v -> g ∈ kv_failed v') ->
  (kv_link v = Some g -> owned v' g) ->
  (forall b p, kv_starts v !! g = Some (b, p) -> spawnedPhase p = true -> owned v' g) ->
  (forall cl at_, kv_run v = RunReplaced (Some g) cl at_ -> owned v' g) ->
  (kv_closing v = Some g -> owned v' g) -> owned v' g.
Proof.
  intros [?|[?|[(b & p & ? & ?)|[(cl & at_ & ?)|?]]]] Hf Hl Hs Hr Hc; eauto. left. auto.
Qed.

(** [own]: the invariant's ownership carries over, case by case. *)
Ltac own g :=
  eapply (owned_mono _ _ g); [by eauto|..]; unfold owned; simpl;
  [try (intros; assumption); try (intros ?; apply elem_of_union; by right)
  |intros; simplify_eq; eauto 9..].

(** A call that advances keeps its place and its caller. *)
Lemma advanced (st : gmap Z (bool * startPhase)) g b p p' h x :
  st !! g = Some (b, p) -> <[g := (b, p')]> st !! h = Some x ->
  exists q, st !! h = Some (x.1, q) /\ (h = g /\ x.2 = p' \/ h <> g /\ q = x.2).
Proof.
  intros Hg [[<- <-]|[? Hh]]%lookup_insert_Some; [exists p; auto|]. destruct x. eauto.
Qed.

(** Facts about starts, pulled back to before the call advanced. *)
Ltac back Hadv := repeat match goal with
  | Hh : <[_ := _]> _ !! _ = Some _ |- _ => apply Hadv in Hh as (? & Hh & ?); simpl in Hh
  end.

Section Advance.
Context (l : option Z) (c : bool) (st : gmap Z (bool * startPhase)) (r : runState) (cl : option Z).
Context (sp f : gset Z) (o : bool) (b : bool) (g : Z).

Lemma worker_spawned :
  st !! g = Some (b, StartSpawn) -> worker_inv (KView l c st r cl sp f o) ->
  worker_inv (KView l c (<[g := (b, StartCheck)]> st) r cl ({[g]} ∪ sp) f o).
Proof.
  intros H [Hown Hone Hpre Hid Hrep Hst]; simpl in *.
  pose proof (fun h x => advanced st g b _ StartCheck h x H) as Hadv.
  split; simpl.
  - intros h [->%elem_of_singleton|Hh]%elem_of_union.
    { right; right; left. simpl. rewrite lookup_insert_eq. eauto. }
    own h. destruct (decide (h = g)) as [->|Hne]; [simplify_eq|].
    right; right; left. rewrite lookup_insert_ne by done. eauto.
  - intros h k x y Hx Hy. back Hadv. eauto.
  - intros h b' p Hx Hp. back Hadv. destruct H0 as [_|[_ ->]]; [by apply (Hpre g b StartSpawn)|eauto].
  - intros Hi h b' p Hx. back Hadv. eauto.
  - intros Hr. destruct (Hrep Hr) as [-> _]. done.
  - intros k Hk h b' p Hx. back Hadv. eauto.
Qed.

Lemma worker_phase p p' :
  st !! g = Some (b, p) -> spawnedPhase p = true -> spawnedPhase p' = true ->
  worker_inv (KView l c st r cl sp f o) ->
  worker_inv (KView l c (<[g := (b, p')]> st) r cl sp f o).
Proof.
  intros H H0 H1 [Hown Hone Hpre Hid Hrep Hst]; simpl in *.
  pose proof (fun h x => advanced st g b _ p' h x H) as Hadv.
  split; simpl.
  - intros h Hh. own h. right; right; left.
    destruct (decide (h = g)) as [->|Hne];
      [rewrite lookup_insert_eq|rewrite lookup_insert_ne by done]; eauto.
  - intros h k x y Hx Hy. back Hadv. eauto.
  - intros h b' q Hx Hp. back Hadv. destruct H2 as [_|[_ ->]]; [|eauto].
    eapply Hpre; [exact H|by destruct p].
  - intros Hi h b' q Hx. back Hadv. eauto.
  - intros Hr. destruct (Hrep Hr) as [-> _]. done.
  - intros k Hk h b' q Hx. back Hadv. eauto.
Qed.

Lemma worker_install p :
  st !! g = Some (b, p) -> spawnedPhase p = true ->
  worker_inv (KView l c st r cl sp f o) ->
  worker_inv (KView (Some g) c (<[g := (b, StartNotify)]> st) r cl sp f o).
Proof.
  intros H H0 [Hown Hone Hpre Hid Hrep Hst]; simpl in *.
  pose proof (fun h x => advanced st g b _ StartNotify h x H) as Hadv.
  assert (l = None) as -> by (eapply Hpre; [exact H|by destruct p]).
  split; simpl.
  - intros h Hh. own h. right; left. f_equal. eauto.
  - intros h k x y Hx Hy. back Hadv. eauto.
  - intros h b' q Hx Hp. back Hadv. simpl in *. destruct H1 as [[-> ->]|[Hne _]]; [done|].
    exfalso. apply Hne. eauto.
  - intros Hi h b' q Hx. back Hadv. eauto.
  - intros Hr. destruct (Hrep Hr) as [-> _]. done.
  - intros k Hk h b' q Hx. back Hadv. eauto.
Qed.

Lemma worker_end p f' :
  st !! g = Some (b, p) -> (f' = {[g]} ∪ f \/ f' = f /\ spawnedPhase p = false) ->
  worker_inv (KView l c st r cl sp f o) ->
  worker_inv (KView l c (delete g st) (if b then RunSelect else r) cl sp f' o).
Proof.
  intros H H0 [Hown Hone Hpre Hid Hrep Hst]; simpl in *.
  assert (forall h x, delete g st !! h = Some x -> False) as Hnone.
  { intros h x [Hne Hh]%lookup_delete_Some. apply Hne. eauto. }
  split; simpl; try (by intros; exfalso; eauto).
  - intros h Hh. eapply (owned_mono _ _ h); [by eauto|..]; unfold owned; simpl; intros; simplify_eq;
      eauto 9.
    + destruct H0 as [->|[-> _]]; [apply elem_of_union; by right|done].
    + assert (h = g) as -> by eauto. simplify_eq. left.
      destruct H0 as [->|[-> ?]]; [set_solver|congruence].
    + destruct b; [|eauto 9]. destruct (Hrep I) as [-> _]. done.
  - intros Hr. destruct b; [done|]. destruct (Hrep Hr) as [-> ?]. done.
Qed.
End Advance.

Lemma worker_kmove v v' : kmove v v' -> kv_overlap v' = false -> closed_inv v -> worker_inv v -> worker_inv v'.
Proof.
  intros Hm Ho [_ Hcl] Hw. pose proof Hw as [Hown Hone Hpre Hid Hrep Hst]. destruct Hm; simpl in *.
  - (* quiet *)
    assert (forall x, idle x -> replacing x -> False) as Hx by (by intros []).
    split; simpl; try done; destruct H as [->|[Hi Hi']]; try done; try (by intros ?; exfalso; eauto).
    + intros g Hg. own g; done.
    + by eauto.
    + intros g ->. done.
  - (* begin *)
    destruct (Hrep I) as [-> ->]. rewrite insert_empty.
    split; simpl; try done.
    + intros h Hh. own h; done.
    + intros h k x y [<- _]%lookup_singleton_Some [<- _]%lookup_singleton_Some. done.
    + intros h [= <-] k b p [_ [= <- <-]]%lookup_singleton_Some. done.
  - by apply worker_spawned.
  - by eapply worker_phase.
  - by eapply worker_install.
  - by eapply worker_end.
  - (* restart *)
    destruct (H Ho) as [_ Hby]. 
    split; simpl; try done.
    + intros h Hh. own h; done.
    + intros _. split; [|done]. apply map_eq. intros h. rewrite lookup_empty.
      destruct (st !! h) as [[b p]|] eqn:E; [|done].
      pose proof (Hby _ _ _ E). pose proof (Hid I _ _ _ E). congruence.
  - (* degrade *)
    split; simpl; try done.
    + intros h Hh. destruct l as [x|]; own h; left; set_solver.
  - (* replaced *)
    destruct (Hrep I) as [-> ->]. split; simpl; try done.
    + intros h Hh. destruct old as [x|]; own h; left; set_solver.
  - (* backoff *)
    destruct (Hrep H) as [-> ->]. split; simpl; try done.
    + intros h Hh. own h; try done. by edestruct H0.
  - (* close *)
    split; simpl; try done.
    + intros h Hh. own h. by specialize (Hcl eq_refl).
    + intros Hr. by destruct (Hrep Hr) as [-> _].
  - (* closing *)
    split; simpl; try done. intros h Hh. own h. left. set_solver.
Qed.

(** ** Steps *)

Ltac kquiet := unfold kviewOf; sup_simpl; apply KQuiet; by auto.

Lemma starter_none w :
  starterActive w = false -> forall g b p, (startOf <$> w_starts w) !! g = Some (b, p) -> b = true.
Proof.
  unfold starterActive. intros Hs g b p Hg. rewrite lookup_fmap in Hg.
  destruct (w_starts w !! g) as [sc|] eqn:E; [|done]. injection Hg as <- <-.
  destruct (sc_byRun sc) eqn:Eb; [done|]. exfalso.
  assert (existsb (fun c => negb (sc_byRun c)) (map snd (map_to_list (w_starts w))) = true) as Ht.
  { apply existsb_exists. exists sc. split; [|by rewrite Eb].
    apply (in_map snd _ (g, sc)). by apply list_elem_of_In, elem_of_map_to_list. }
  congruence.
Qed.

Lemma startReturn_kview g sc err w :
  kviewOf (startReturn g sc err w) =
    KView (c_link (s_core (w_sup w))) (c_closed (s_core (w_sup w)))
      (delete g (startOf <$> w_starts w)) (if sc_byRun sc then RunSelect else w_run w)
      (w_closing w) (w_spawned w) (w_failed w) (w_overlap w).
Proof.
  unfold startReturn, kviewOf. destruct (sc_byRun sc); [destruct err|]; sup_simpl;
    by rewrite fmap_delete.
Qed.

Section Steps.
Context `{RecoveryCoder} (build : string).
Implicit Types (w : world) (g : Z).

(** A call of [startRenderer] advances. *)
Lemma kphase w g sc p' :
  w_starts w !! g = Some sc -> spawnedPhase (sc_phase sc) = true -> spawnedPhase p' = true ->
  kmove (kviewOf w) (kviewOf (startPhaseIs g sc p' w)).
Proof.
  intros Hg Hp Hp'. unfold kviewOf at 2. sup_simpl. rewrite fmap_insert.
  apply (KPhase _ _ _ _ _ _ _ _ (sc_byRun sc) g (sc_phase sc)); try done.
  by rewrite lookup_fmap, Hg.
Qed.

(** The call returns, its worker failed or already in place. *)
Lemma kend w g sc err w' :
  w_starts w !! g = Some sc ->
  c_link (s_core (w_sup w')) = c_link (s_core (w_sup w)) ->
  c_closed (s_core (w_sup w')) = c_closed (s_core (w_sup w)) ->
  w_starts w' = w_starts w -> w_run w' = w_run w -> w_closing w' = w_closing w ->
  w_spawned w' = w_spawned w -> w_overlap w' = w_overlap w ->
  (w_failed w' = {[g]} ∪ w_failed w \/ w_failed w' = w_failed w /\ spawnedPhase (sc_phase sc) = false) ->
  kmove (kviewOf w) (kviewOf (startReturn g sc err w')).
Proof.
  intros Hg E1 E2 E3 E4 E5 E6 E7 Hf. rewrite startReturn_kview, E1, E2, E3, E4, E5, E6, E7.
  apply (KEnd _ _ _ _ _ _ _ _ _ (sc_byRun sc) g (sc_phase sc)); [by rewrite lookup_fmap, Hg|done].
Qed.

Ltac kphases g sc Hg Hp := apply (kphase _ g sc _ Hg); rewrite ?Hp; done.
Ltac kends g sc Hg Hp := apply (kend _ g sc _ _ Hg); rewrite ?Hp; auto; done.

Lemma kinstall now w g sc snap init applied :
  w_starts w !! g = Some sc -> sc_phase sc = StartInstall snap init applied ->
  negb (current g (w_sup w)) = false ->
  kmove (kviewOf w) (kviewOf (startPhaseIs g sc StartNotify
    (w_set_sup (installed now g snap init (w_sup w)) w))).
Proof.
  intros Hg Hp Hc. unfold current in Hc. bool_to_prop.
  unfold kviewOf, installed. sup_simpl. rewrite fmap_insert. rewrite H0.
  apply (KInstall _ _ _ _ _ _ _ (sc_byRun sc) g (sc_phase sc)); [by rewrite lookup_fmap, Hg|by rewrite Hp].
Qed.

Lemma request_rest now err w :
  let w' := requestRestart now err w in
  w_run w' = w_run w /\ w_closing w' = w_closing w /\ w_spawned w' = w_spawned w /\
  w_overlap w' = w_overlap w /\ w_failed w' = w_failed w.
Proof. unfold requestRestart. case_match; [done|]. by destruct err. Qed.

Lemma start_kmove now g ans w w' :
  startStep build now g ans w = Some w' -> kmove (kviewOf w) (kviewOf w').
Proof.
  unfold startStep. destruct (w_starts w !! g) as [sc|] eqn:Hg; [|done].
  destruct (sc_phase sc) eqn:Hp; destruct ans; intros Hs; try done; injection Hs as <-;
    unfold startSpawned, startChecked, startSnapshot, startLoad, startInitialized, startRefused,
      startColors, startInteracted, startInstall, startNotified.
  all: repeat case_match; simplify_eq; try (kphases g sc Hg Hp); try (kends g sc Hg Hp).
  - unfold kviewOf. sup_simpl. rewrite fmap_insert. apply KSpawned. rewrite lookup_fmap, Hg. simpl. unfold startOf. by rewrite Hp.
  - by eapply kinstall.
  - by eapply kinstall.
  - by eapply kinstall.
  - destruct (request_cases now (Some e) w) as [->|(_ & E1 & E2 & _)]; [kends g sc Hg Hp|].
    destruct (request_rest now (Some e) w) as (E3 & E4 & E5 & E6 & E7).
    apply (kend _ g sc _ _ Hg); rewrite ?E1, ?E2, ?E3, ?E4, ?E5, ?E6, ?E7, ?Hp; auto.
Qed.

Lemma restart_kmove now w :
  w_run w = RunRestart -> kmove (kviewOf w) (kviewOf (restart now w)).
Proof.
  intros Hr. unfold restart. destruct (c_closed _) eqn:Ec.
  { unfold kviewOf. sup_simpl. apply KQuiet. right. by rewrite Hr. }
  assert (forall s : bool, w_overlap w || s = false -> w_overlap w = false) as Ho
    by (intros s [? _]%orb_false_iff; done).
  destruct (planRestartLocked now (w_sup w)) as [plan b].
  destruct (pl_allowed plan); simpl negb; cbv iota.
  - destruct (pl_charge plan), (pl_clean plan); unfold kviewOf; sup_simpl; rewrite Hr, Ec;
      apply KRestart; intros [? ?]%orb_false_iff; (split; [done|by apply starter_none]).
  - unfold enterDegradedLocked. sup_simpl.
    destruct (c_link (s_core (w_sup w))) as [l|] eqn:El; unfold kviewOf; simpl; rewrite Hr, Ec, El;
      [apply (KDegrade (Some l))|apply (KDegrade None)]; apply Ho.
Qed.

Lemma replaced_kmove now old clean attempt w :
  w_run w = RunReplaced old clean attempt ->
  kmove (kviewOf w) (kviewOf (restartReplaced now old clean attempt w)).
Proof.
  intros Hr. unfold restartReplaced.
  destruct old as [g|]; simpl failOption; destruct clean, (0 <? _); unfold kviewOf; sup_simpl; rewrite Hr;
    solve [by apply (KReplaced _ _ _ (Some g))|by apply (KReplaced _ _ _ None)].
Qed.

Lemma thread_kview now tid ans w w' :
  threadStep build now tid ans w = Some w' -> kviewOf w' = kviewOf w.
Proof.
  unfold threadStep. destruct (w_threads w !! tid) as [t|]; [|done].
  destruct t; intros Hs; try done; unfold sendNotify, sendPark, tryPush, callLink, captureCall in Hs;
    repeat (case_match; try done); simplify_eq/=;
    unfold sendCheck, sendRemain, trySend, markDirty, call, captureRead, captureThrough,
      captureStore, captureDone, noticeLocked;
    by repeat case_match; simplify_eq/=.
Qed.

(** Only the run loop moves, if anything. *)
Lemma kquiet w w' :
  kviewOf w' = kviewOf (w_set_run (w_run w') w) ->
  w_run w' = w_run w \/ idle (w_run w) /\ idle (w_run w') -> kmove (kviewOf w) (kviewOf w').
Proof. intros -> Hr. by apply KQuiet. Qed.

Lemma run_kmove now err tid w w' :
  runStep now err tid w = Some w' -> kmove (kviewOf w) (kviewOf w').
Proof.
  unfold runStep. intros Hs. destruct (w_run w) eqn:Er; try done;
    try (injection Hs as <-; by apply restart_kmove);
    try (injection Hs as <-; by apply replaced_kmove).
  all: repeat (case_match; try done); simplify_eq/=.
  all: try (apply kquiet; [|by right; rewrite Er]; unfold Restart, maybeCheckpoint, requestRestart;
    by repeat case_match).
  all: unfold kviewOf.
  - sup_simpl. rewrite Er. apply KBackoff; auto; done.
  - sup_simpl. rewrite Er. apply KBackoff; auto; done.
  - unfold restartSpawn. destruct (c_closed _) eqn:Ec; sup_simpl.
    { rewrite Er, Ec. apply KBackoff; auto; done. }
    destruct (if _ || _ then _ else _) as [cols rows]. unfold startBegin. sup_simpl. rewrite Ec.
    sup_simpl. rewrite fmap_insert, Er, Ec. apply KBeginRun.
Qed.

Lemma step_kmove now w ev w' :
  (forall cols rows, ev <> EvStart cols rows) ->
  step build now w ev = Some w' -> kmove (kviewOf w) (kviewOf w').
Proof.
  assert (kmove (kviewOf w) (kviewOf w)) as Hsame by (apply KQuiet; by left).
  intros Hev. destruct ev; simpl; intros Hs; try (by edestruct Hev);
    try (by eapply start_kmove); try (by eapply run_kmove);
    try (apply thread_kview in Hs; rewrite Hs; exact Hsame).
  all: unfold newThread, frameArrives, framePublishes, restoreColors, restoreCheckpoint, Restart, onSup in Hs;
    repeat (case_match; try done); simplify_eq/=; try exact Hsame.
  - apply kquiet; [done|]. right. sup_simpl. by rewrite H0.
  - apply kquiet; [unfold tick; by repeat case_match|]. right. rewrite H0.
    unfold tick. by repeat case_match.
  - unfold Close. case_match; [done|]. unfold kviewOf. sup_simpl. rewrite H0. apply KClose.
  - unfold kviewOf. sup_simpl. rewrite H0. apply KCloseFail.
Qed.
End Steps.

(** ** The theorem *)

Definition notStart (e : time * event) : Prop :=
  match e.2 with EvStart _ _ => False | _ => True end.

Section Workers.
Context `{RecoveryCoder} (build : string).

Lemma run_workers es w :
  Forall notStart es -> closed_inv (kviewOf w) -> (w_overlap w = false -> worker_inv (kviewOf w)) ->
  let w' := run build w es in
  closed_inv (kviewOf w') /\ (w_overlap w' = false -> worker_inv (kviewOf w')).
Proof.
  revert w. induction es as [|[now ev] es IH]; intros w Hes Hc Hw; [done|].
  apply Forall_cons in Hes as [Hev Hes]. unfold run. cbn [foldl]. apply IH; [done|..];
    unfold next; simpl; destruct (step build now w ev) as [w'|] eqn:E; simpl; try done;
    (apply step_kmove in E; [|by intros c r ->]).
  - by eapply closed_kmove.
  - intros Ho. eapply worker_kmove; [done|done|done|]. apply Hw. by apply (overlap_kmove _ _ E).
Qed.

(** C10: no worker process is forgotten.  A terminal is started once; then, in
    every interleaving in which no restart is decided while that first start is
    still under way: each worker that was ever started has been told to stop, or
    is the renderer in place, or belongs to a call of [startRenderer] that has
    yet to install it, or to the run loop or a closer that is about to stop it.
    Once the supervisor is closed and its goroutines have returned, all workers
    have been stopped. *)
Theorem no_leaked_worker now0 terminalID journal timeout policy at_ cols rows es :
  Forall notStart es ->
  let w := run build (newWorld (newRendererSupervisor now0 terminalID journal timeout policy))
             ((at_, EvStart cols rows) :: es) in
  w_overlap w = false ->
  (forall g, g ∈ w_spawned w -> owned (kviewOf w) g) /\
  (c_closed (s_core (w_sup w)) = true -> w_starts w = ∅ -> w_run w = RunExit ->
     w_closing w = None -> w_spawned w ⊆ w_failed w).
Proof.
  intros Hes w. set (w0 := startBegin false cols rows
    (newWorld (newRendererSupervisor now0 terminalID journal timeout policy))).
  assert (w = run build w0 es) as -> by done. intros Ho.
  destruct (run_workers es w0) as [Hc Hw].
  - done.
  - done.
  - intros _. unfold kviewOf. simpl. rewrite fmap_insert, fmap_empty, insert_empty.
    split; simpl; try done.
    + intros g h x y [<- _]%lookup_singleton_Some [<- _]%lookup_singleton_Some. done.
    + intros _ g b p [_ [= <- <-]]%lookup_singleton_Some. done.
  - specialize (Hw Ho). split; [apply Hw|].
    intros Hcl Hst Hr Hcg g Hg. apply (wi_owned _ Hw) in Hg.
    destruct Hg as [?|[Hl|[(b & p & Hp & _)|[(cl & a & Ha)|Ha]]]]; [done|..]; simpl in *.
    + destruct Hc as [Hc _]. simpl in Hc. by rewrite Hc in Hl.
    + by rewrite Hst, fmap_empty in Hp.
    + congruence.
    + congruence.
Qed.
End Workers.

Module WorkersSample.
Import SupervisorSample.

#[local] Existing Instance RecoverySample.coder.

(** The first renderer stalls and is replaced, the second is closed. *)
Definition rest : list (time * event) :=
  starts (sec 0) 1 ++ stalls (sec 3) ++ replaces (sec 3) ++ starts (sec 3) 2 ++
  [(sec 5, EvClose); (sec 5, EvCloseFail); (sec 5, EvRun None 0)].

Lemma rest_outcome :
  let w := run "b1" initial ((sec 0, EvStart 80 24) :: rest) in
  w_overlap w = false /\ w_spawned w = {[2; 1]} /\ c_closed (s_core (w_sup w)) = true /\
  w_starts w = ∅ /\ w_run w = RunExit /\ w_closing w = None.
Proof. vm_compute. done. Qed.

Lemma no_leaked_worker_witness :
  let w := run "b1" initial ((sec 0, EvStart 80 24) :: rest) in
  (forall g, g ∈ w_spawned w -> owned (kviewOf w) g) /\
  (c_closed (s_core (w_sup w)) = true -> w_starts w = ∅ -> w_run w = RunExit ->
     w_closing w = None -> w_spawned w ⊆ w_failed w).
Proof.
  apply (no_leaked_worker "b1" (sec 0) "t1" journal 0 policy (sec 0) 80 24 rest).
  - repeat (apply Forall_cons_2; [exact I|]). apply Forall_nil_2.
  - exact (proj1 rest_outcome).
Defined.

(** A restart that is decided while the first start is under way: the run loop
    has let go of no link, the first start still installs its own, and the
    restart's renderer replaces it without anybody stopping the first worker,
    not even when the supervisor is closed. *)
Definition overlapping : list (time * event) :=
  [(sec 0, EvStart 80 24); (sec 0, EvRestart); (sec 0, EvWake); (sec 0, EvRun None 0)] ++
  starts (sec 0) 1 ++ [(sec 0, EvRun None 0); (sec 0, EvRun None 0)] ++ starts (sec 1) 2 ++
  [(sec 5, EvClose); (sec 5, EvCloseFail); (sec 5, EvRun None 0)].

Theorem overlapping_restart_leaks :
  let w := run "b1" initial overlapping in
  c_closed (s_core (w_sup w)) = true /\ w_starts w = ∅ /\ w_run w = RunExit /\
  w_closing w = None /\ w_spawned w = {[2; 1]} /\ w_failed w = {[2]}.
Proof. vm_compute. done. Qed.
End WorkersSample.
