(* ===== verification/RendererSupervisorLive.v ===== *)
(** * Recovery from the degraded state

    Over [RendererSupervisor]: a supervisor that has given up tries again after
    its cooldown, and a renderer that works by then is installed. *)

From S2P Require Import Prelude Journal JournalOrder RendererLink RendererCheckpoint.
From S2P Require Import RendererRecovery RendererSupervisor RendererSupervisorSafe RendererSupervisorBudget.
Local Open Scope Z_scope.

(** ** A degraded supervisor has no renderer *)

Definition degraded_inv (w : world) : Prop :=
  c_degraded (s_core (w_sup w)) = true -> c_link (s_core (w_sup w)) = None.

(** What the steps may do to the two fields. *)
Definition dkeeps (w w' : world) : Prop :=
  c_degraded (s_core (w_sup w')) = false \/ c_link (s_core (w_sup w')) = None \/
  (c_degraded (s_core (w_sup w')) = c_degraded (s_core (w_sup w)) /\
   c_link (s_core (w_sup w')) = c_link (s_core (w_sup w))).

Ltac dkeep := unfold dkeeps; repeat case_match; simplify_eq/=; by auto.

Section Invariant.
Context `{RecoveryCoder} (build : string).

Lemma start_dkeeps now g ans w w' : startStep build now g ans w = Some w' -> dkeeps w w'.
Proof.
  unfold startStep. destruct (w_starts w !! g) as [sc|]; [|done].
  destruct (sc_phase sc); intros Hs; destruct ans; try done; injection Hs as <-;
    unfold startSpawned, startChecked, startSnapshot, startLoad, startInitialized, startRefused,
      startColors, startInteracted, startInstall, startNotified, requestRestart, startReturn; dkeep.
Qed.

Lemma thread_dkeeps now tid ans w w' : threadStep build now tid ans w = Some w' -> dkeeps w w'.
Proof.
  unfold threadStep. destruct (w_threads w !! tid) as [t|]; [|done].
  destruct t; intros Hs; try done; unfold sendNotify, sendPark, tryPush, callLink, captureCall in Hs;
    repeat (case_match; try done); simplify_eq/=;
    unfold sendCheck, sendRemain, trySend, markDirty, call, captureRead, captureThrough,
      captureStore, captureDone, noticeLocked; dkeep.
Qed.

Lemma run_dkeeps now err tid w w' : runStep now err tid w = Some w' -> dkeeps w w'.
Proof.
  unfold runStep. intros Hs. destruct (w_run w); try done;
    repeat (case_match; try done); simplify_eq/=;
    unfold Restart, maybeCheckpoint, requestRestart, restartReplaced, restartSpawn, startBegin,
      failOption, Reset, restart, enterDegradedLocked; try dkeep.
Qed.

Lemma step_dkeeps now w ev w' : step build now w ev = Some w' -> dkeeps w w'.
Proof.
  destruct ev; simpl; intros Hs;
    try (by eapply start_dkeeps); try (by eapply run_dkeeps); try (by eapply thread_dkeeps).
  all: unfold newThread, onSup in *; repeat (case_match; try done); simplify_eq/=;
    unfold startBegin, frameArrives, framePublishes, Restart, Close, restoreColors,
      restoreCheckpoint, tick; try dkeep.
Qed.

Lemma run_degraded es w : degraded_inv w -> degraded_inv (run build w es).
Proof.
  revert w. induction es as [|[now ev] es IH]; intros w Hw; [done|].
  unfold run. cbn [foldl]. apply IH. unfold next. simpl.
  destruct (step build now w ev) as [w'|] eqn:E; simpl; [|done].
  apply step_dkeeps in E. unfold dkeeps, degraded_inv in *.
  destruct E as [E|[E|[E1 E2]]]; intros Hd; [congruence|done|]. rewrite E2. apply Hw. congruence.
Qed.
End Invariant.

(** ** A start that succeeds *)

Section Live.
Context `{RecoveryCoder} (build : string).
Context (executable : string) (init : rendererInitResult).
Hypothesis ready : ir_Protocol init = rendererWorkerProtocolVersion /\ ir_Ready init = true.

(** The steps of [startRenderer] when the worker answers. *)
Definition answers (now : time) (g : Z) : list (time * event) :=
  map (pair now) [EvStartStep g SAOk; EvStartStep g SAOk; EvStartStep g SAOk; EvStartStep g SAOk;
    EvStartStep g (SAReply executable (Ok (Ok init)));
    EvStartStep g SAOk; EvStartStep g SAOk; EvStartStep g SAOk].

Lemma next_start now g ans w w' :
  startStep build now g ans w = Some w' -> next build w (now, EvStartStep g ans) = w'.
Proof. unfold next. simpl. by intros ->. Qed.

Lemma verified_reply : verifyRendererProtocol executable (Ok init) = Verified.
Proof. unfold verifyRendererProtocol. destruct ready as [-> ->]. by rewrite Z.eqb_refl. Qed.

Section Start.
Context (now g : Z) (byRun : bool) (cols rows : Z).

(** The call is in phase [p]. *)
Definition inPhase (p : startPhase) (w : world) : world :=
  w_set_starts (<[g := StartCall byRun cols rows p]> (w_starts w)) w.

Lemma phase_step p p' w : startPhaseIs g (StartCall byRun cols rows p) p' (inPhase p w) = inPhase p' w.
Proof. unfold startPhaseIs, inPhase, w_set_starts. simpl. by rewrite insert_insert_eq. Qed.


Lemma inPhase_lookup p w : w_starts (inPhase p w) !! g = Some (StartCall byRun cols rows p).
Proof. apply lookup_insert_eq. Qed.

Lemma inPhase_sup p w : w_sup (inPhase p w) = w_sup w.
Proof. done. Qed.

Lemma start_succeeds w :
  w_starts w !! g = Some (StartCall byRun cols rows StartSpawn) -> current g (w_sup w) = true ->
  run build w (answers now g) =
    startReturn g (StartCall byRun cols rows StartNotify) None
      (inPhase StartNotify
         (w_set_sup (installed now g (Snapshot (s_journal (w_sup w))) init (w_sup w))
            (w_init g (initParams build cols rows (Snapshot (s_journal (w_sup w))) (w_sup w)) (w_spawn g w)))).
Proof.
  intros Hg Hc. unfold answers, run. cbn [map foldl].
  set (w1 := w_spawn g w). set (snap := Snapshot (s_journal (w_sup w))).
  set (rev := r_colorsRevision (s_recovery (w_sup w))).
  rewrite (next_start now g SAOk w (inPhase StartCheck w1))
    by (unfold startStep; rewrite Hg; reflexivity).
  rewrite (next_start now g SAOk (inPhase StartCheck w1) (inPhase StartSnapshot w1)).
  2: { unfold startStep. rewrite inPhase_lookup. cbn [sc_phase]. unfold startChecked. rewrite inPhase_sup. change (w_sup w1) with (w_sup w). rewrite Hc. cbn [negb].
       rewrite phase_step. reflexivity. }
  rewrite (next_start now g SAOk (inPhase StartSnapshot w1) (inPhase (StartLoad snap) w1)).
  2: { unfold startStep. rewrite inPhase_lookup. cbn [sc_phase]. unfold startSnapshot.
       rewrite phase_step. reflexivity. }
  set (params := initParams build cols rows snap (w_sup w)). set (w2 := w_init g params w1).
  rewrite (next_start now g SAOk (inPhase (StartLoad snap) w1) (inPhase (StartInit snap params rev) w1)).
  2: { unfold startStep. rewrite inPhase_lookup. cbn [sc_phase]. unfold startLoad. rewrite phase_step.
       reflexivity. }
  rewrite (next_start now g _ (inPhase (StartInit snap params rev) w1) (inPhase (StartColors snap init rev) w2)).
  2: { unfold startStep. rewrite inPhase_lookup. cbn [sc_phase]. unfold startInitialized.
       rewrite verified_reply.
       change (w_init g params (inPhase (StartInit snap params rev) w1))
         with (inPhase (StartInit snap params rev) w2).
       rewrite phase_step. reflexivity. }
  rewrite (next_start now g SAOk (inPhase (StartColors snap init rev) w2) (inPhase (StartInstall snap init rev) w2)).
  2: { unfold startStep. rewrite inPhase_lookup. cbn [sc_phase]. unfold startColors.
       rewrite inPhase_sup. change (r_colorsRevision (s_recovery (w_sup w2))) with rev.
       rewrite Z.eqb_refl. cbn [negb andb]. rewrite phase_step. reflexivity. }
  rewrite (next_start now g SAOk (inPhase (StartInstall snap init rev) w2) (inPhase StartNotify (w_set_sup (installed now g snap init (w_sup w)) w2))).
  2: { unfold startStep. rewrite inPhase_lookup. cbn [sc_phase]. unfold startInstall.
       rewrite inPhase_sup. change (w_sup w2) with (w_sup w).
       change (r_colorsRevision (s_recovery (w_sup w))) with rev.
       rewrite Z.eqb_refl, Hc. cbn [negb]. f_equal.
       unfold startPhaseIs, inPhase. sup_simpl. rewrite insert_insert_eq. reflexivity. }
  apply next_start. unfold startStep. simpl. rewrite lookup_insert_eq. reflexivity.
Qed.
End Start.

(** ** From degraded to ready *)

(** The backoff before the attempt: by the restarts still in the window. *)
Definition backoffAt (now : time) (s : rendererSupervisor) : duration :=
  let kept := List.filter (fun at_ => now - po_Window (s_policy s) <? at_) (b_restarts (s_budget s)) in
  i64 ((zlen kept - 1) * po_BackoffStep (s_policy s)).

(** The restart takes the poison escape: it drops the journal and the
    checkpoint. *)
Definition poisoned (now : time) (s : rendererSupervisor) : bool :=
  let kept := List.filter (fun at_ => now - po_Window (s_policy s) <? at_) (b_restarts (s_budget s)) in
  negb (b_protocolMismatch (s_budget s)) && (po_MaxRestarts (s_policy s) <=? zlen kept) &&
  (negb (bool_decide (j_events (s_journal s) = [])) || bool_decide (is_Some (r_checkpoint (s_recovery s)))) &&
  negb (b_cleanStarted (s_budget s)).

(** The journal the restart leaves to be replayed. *)
Definition journalAfter (now : time) (s : rendererSupervisor) : rendererJournal :=
  if poisoned now s then Reset (s_journal s) else s_journal s.

Lemma plan_poisoned now s : pl_clean (planRestartLocked now s).1 = poisoned now s.
Proof.
  unfold planRestartLocked, poisoned. simpl.
  assert ((0 <? zlen (j_events (s_journal s))) = negb (bool_decide (j_events (s_journal s) = []))) as ->.
  { destruct (j_events (s_journal s)) as [|x l]; [done|].
    rewrite bool_decide_eq_false_2 by done. apply Z.ltb_lt. unfold zlen. simpl. lia. }
  assert (match r_checkpoint (s_recovery s) with Some _ => true | None => false end =
    bool_decide (is_Some (r_checkpoint (s_recovery s)))) as ->.
  { destruct (r_checkpoint (s_recovery s)); [by rewrite bool_decide_eq_true_2|].
    by rewrite bool_decide_eq_false_2 by (by intros [? ?]). }
  repeat (case_match; simplify_eq/=); unfold is_true in *; bool_to_prop; try done;
    repeat case_match; simplify_eq/=; try congruence; try (by destruct (negb _), (bool_decide _)).
Qed.

(** The cooldown is over: the tick, the forced restart, the backoff, the start. *)
Definition retries (now later : time) (g : Z) : list (time * event) :=
  [(now, EvTick); (now, EvRun None 0); (now, EvWake); (now, EvRun None 0); (now, EvRun None 0);
   (later, EvRun None 0); (later, EvRun None 0)] ++ answers later g.

(** What stays the same until the renderer is started. *)
Record waiting (w0 w : world) : Prop := {
  wa_starts : w_starts w = ∅;
  wa_closed : c_closed (s_core (w_sup w)) = false;
  wa_generation : c_generation (s_core (w_sup w)) = c_generation (s_core (w_sup w0));
  wa_nextID : j_nextID (s_journal (w_sup w)) = j_nextID (s_journal (w_sup w0));
  wa_charges : w_charges w = w_charges w0;
  wa_policy : s_policy (w_sup w) = s_policy (w_sup w0);
}.

Lemma tick_rearms now w :
  c_closed (s_core (w_sup w)) = false -> c_link (s_core (w_sup w)) = None ->
  c_degraded (s_core (w_sup w)) = true -> w_run w = RunSelect ->
  po_Cooldown (s_policy (w_sup w)) <= time_sub now (c_degradedAt (s_core (w_sup w))) ->
  next build w (now, EvTick) = w_set_run RunRearm (w_set_sup (w_sup w) w).
Proof.
  intros Hc Hl Hd Hr Hcool. unfold next. simpl. rewrite Hr. unfold tick. rewrite Hc, Hl, Hd. simpl.
  by rewrite (proj2 (Z.leb_le _ _) Hcool).
Qed.

Lemma forced_restart now w :
  w_run w = RunRestart -> w_starts w = ∅ -> c_closed (s_core (w_sup w)) = false ->
  c_link (s_core (w_sup w)) = None -> b_forceRestart (s_budget (w_sup w)) = true ->
  let w' := next build w (now, EvRun None 0) in
  w_run w' = RunReplaced None (poisoned now (w_sup w))
    (zlen (List.filter (fun at_ => now - po_Window (s_policy (w_sup w)) <? at_)
             (b_restarts (s_budget (w_sup w))))) /\
  waiting w w' /\ s_journal (w_sup w') = s_journal (w_sup w) /\
  (poisoned now (w_sup w) = true -> r_checkpoint (s_recovery (w_sup w')) = None).
Proof.
  intros Hr Hs Hc Hl Hf. unfold next. simpl. unfold runStep. rewrite Hr. simpl. unfold restart. rewrite Hc.
  rewrite <- plan_poisoned. assert (exists clean b, planRestartLocked now (w_sup w) = (Plan true false clean, b) /\
    b_restarts b = List.filter (fun at_ => now - po_Window (s_policy (w_sup w)) <? at_)
      (b_restarts (s_budget (w_sup w)))) as (clean & b & -> & Hb).
  { unfold planRestartLocked. rewrite Hf. simpl. destruct (b_protocolMismatch _); [by eexists _, _|].
    destruct (_ && _); by eexists _, _. }
  simpl. destruct clean; simpl; rewrite Hl, Hb; (split; [done|]); (split; [by split|done]).
Qed.

Lemma replaced_waits now w clean attempt :
  w_run w = RunReplaced None clean attempt -> w_starts w = ∅ ->
  c_closed (s_core (w_sup w)) = false ->
  let w' := next build w (now, EvRun None 0) in
  let backoff := i64 ((attempt - 1) * po_BackoffStep (s_policy (w_sup w))) in
  (w_run w' = RunBackoff (now + backoff) \/ w_run w' = RunSpawn) /\ waiting w w' /\
  s_journal (w_sup w') = (if clean then Reset (s_journal (w_sup w)) else s_journal (w_sup w)) /\
  s_recovery (w_sup w') = s_recovery (w_sup w).
Proof.
  intros Hr Hs Hc. unfold next. simpl. unfold runStep. rewrite Hr. simpl. unfold restartReplaced. simpl.
  assert (j_nextID (Reset (s_journal (w_sup w))) = j_nextID (s_journal (w_sup w))) as Hj
    by (unfold Reset; by destruct (j_events _)).
  destruct clean; simpl; destruct (0 <? _); simpl; (split; [auto|]); (split; [by split|done]).
Qed.

Lemma spawns later w :
  w_run w = RunSpawn -> w_starts w = ∅ -> c_closed (s_core (w_sup w)) = false ->
  0 <= c_generation (s_core (w_sup w)) < two64 - 1 ->
  let g := c_generation (s_core (w_sup w)) + 1 in
  exists cols rows,
    next build w (later, EvRun None 0) = next build (next build w (later, EvRun None 0)) (later, EvRun None 0) /\
    let w' := next build w (later, EvRun None 0) in
    w_starts w' = {[g := StartCall true cols rows StartSpawn]} /\
    current g (w_sup w') = true /\
    s_journal (w_sup w') = s_journal (w_sup w) /\ s_recovery (w_sup w') = s_recovery (w_sup w) /\
    w_charges w' = w_charges w.
Proof.
  intros Hr Hs Hc Hg g.
  assert (exists cols rows, runStep later None 0 w = Some (startBegin true cols rows w)) as (cols & rows & Hrun).
  { unfold runStep. rewrite Hr. unfold restartSpawn. rewrite Hc.
    destruct (if _ || _ then _ else _) as [cols rows]. by eexists _, _. }
  exists cols, rows. unfold next. simpl. rewrite Hrun. simpl. unfold startBegin. rewrite Hc.
  rewrite u64_small by lia. unfold runStep. simpl. rewrite Hs, insert_empty. split_and!; try done.
  unfold current. simpl. rewrite Hc. simpl. apply Z.eqb_refl.
Qed.
(** The world once the renderer is in place. *)
Lemma installed_world later g cols rows w :
  w_starts w = {[g := StartCall true cols rows StartSpawn]} -> current g (w_sup w) = true ->
  let w' := run build w (answers later g) in
  s_core (w_sup w') = s_core (installed later g (Snapshot (s_journal (w_sup w))) init (w_sup w)) /\
  st_State (s_status (w_sup w')) = rendererStateReady /\
  w_run w' = RunSelect /\ w_starts w' = ∅ /\ w_charges w' = w_charges w /\
  w_inits w' !! g = Some (initParams build cols rows (Snapshot (s_journal (w_sup w))) (w_sup w)).
Proof.
  intros Hs Hc. rewrite (start_succeeds later g true cols rows w).
  - unfold startReturn, inPhase. cbn [sc_byRun]. sup_simpl. split_and!; try done.
    + rewrite Hs. by rewrite insert_singleton_eq, delete_singleton_eq.
    + apply lookup_insert_eq.
  - rewrite Hs. apply lookup_singleton_eq.
  - done.
Qed.

(** The tick and the run loop's own call of [Restart] leave a forced restart. *)
Lemma rearmed now w :
  let c := s_core (w_sup w) in
  c_link c = None -> c_degraded c = true -> c_closed c = false -> w_run w = RunSelect ->
  w_starts w = ∅ -> po_Cooldown (s_policy (w_sup w)) <= time_sub now (c_degradedAt c) ->
  exists w3, run build w [(now, EvTick); (now, EvRun None 0); (now, EvWake)] = w3 /\
    waiting w w3 /\ w_run w3 = RunRestart /\ c_link (s_core (w_sup w3)) = None /\
    b_forceRestart (s_budget (w_sup w3)) = true /\
    b_restarts (s_budget (w_sup w3)) = b_restarts (s_budget (w_sup w)) /\
    poisoned now (w_sup w3) = poisoned now (w_sup w) /\
    s_journal (w_sup w3) = s_journal (w_sup w).
Proof.
  intros c Hl Hd Hc Hr Hs Hcool. eexists. split; [reflexivity|].
  unfold run. cbn [foldl]. rewrite tick_rearms by done.
  unfold next, step, runStep. sup_simpl. unfold Restart, c in *. rewrite Hc. simpl.
  split; [by split|done].
Qed.

(** The backoff elapses. *)
Lemma backoff_over later until w :
  w_run w = RunBackoff until \/ w_run w = RunSpawn -> until <= later ->
  w_starts w = ∅ -> c_closed (s_core (w_sup w)) = false ->
  0 <= c_generation (s_core (w_sup w)) < two64 - 1 ->
  exists w', waiting w w' /\ w_run w' = RunSpawn /\
    s_journal (w_sup w') = s_journal (w_sup w) /\ s_recovery (w_sup w') = s_recovery (w_sup w) /\
    run build w [(later, EvRun None 0); (later, EvRun None 0)] = next build w' (later, EvRun None 0).
Proof.
  intros Hr Hu Hs Hc Hg. assert (waiting w w) as Hw by (by split). unfold run. cbn [foldl].
  destruct Hr as [Hr|Hr].
  - exists (w_set_run RunSpawn w). split; [by split|]. do 3 (split; [done|]). f_equal.
    unfold next, step, runStep. cbn [fst snd]. rewrite Hr. by rewrite (proj2 (Z.leb_le _ _) Hu).
  - exists w. do 4 (split; [done|]).
    destruct (spawns later w Hr Hs Hc Hg) as (cols & rows & <- & _). done.
Qed.

Lemma run_concat es es' w : run build w (es ++ es') = run build (run build w es) es'.
Proof. apply foldl_app. Qed.

Lemma retry_to_spawn now later w :
  let c := s_core (w_sup w) in
  degraded_inv w -> c_degraded c = true -> c_closed c = false -> w_run w = RunSelect ->
  w_starts w = ∅ -> po_Cooldown (s_policy (w_sup w)) <= time_sub now (c_degradedAt c) ->
  now + backoffAt now (w_sup w) <= later -> 0 <= c_generation c < two64 - 1 ->
  exists w1 cols rows,
    run build w (retries now later (c_generation c + 1)) =
      run build w1 (answers later (c_generation c + 1)) /\
    w_starts w1 = {[c_generation c + 1 := StartCall true cols rows StartSpawn]} /\
    current (c_generation c + 1) (w_sup w1) = true /\
    s_journal (w_sup w1) = journalAfter now (w_sup w) /\
    (poisoned now (w_sup w) = true -> r_checkpoint (s_recovery (w_sup w1)) = None) /\
    w_charges w1 = w_charges w.
Proof.
  intros c Hdi Hd Hc Hr Hs Hcool Hlater Hg. specialize (Hdi Hd).
  destruct (rearmed now w Hdi Hd Hc Hr Hs Hcool) as (w3 & E3 & [B1 B2 B3 B4 B5 B6] & B7 & B8 & B9 & B10 & B11 & B12).
  destruct (forced_restart now w3 B7 B1 B2 B8 B9) as (D7 & D & D8 & D9).
  rewrite B6, B10, B11 in D7. rewrite B11 in D9. remember (next build w3 (now, EvRun None 0)) as w4 eqn:E4.
  destruct D as [D1 D2 D3 D4 D5 D6].
  destruct (replaced_waits now w4 _ _ D7 D1 D2) as (F7 & [F1 F2 F3 F4 F5 F6] & F8 & F9).
  rewrite D6, B6 in F7. fold (backoffAt now (w_sup w)) in F7.
  remember (next build w4 (now, EvRun None 0)) as w5 eqn:E5.
  destruct (backoff_over later (now + backoffAt now (w_sup w)) w5 F7) as (w6 & [G1 G2 G3 G4 G5 G6] & G7 & G8 & G9 & E6);
    [done|done|done|unfold c in *; lia|].
  destruct (spawns later w6 G7 G1 G2) as (cols & rows & _ & H1 & H2 & H3 & H5 & H4); [unfold c in *; lia|].
  assert (c_generation (s_core (w_sup w6)) = c_generation c) as Eg by (unfold c; congruence).
  rewrite Eg in H1, H2. remember (next build w6 (later, EvRun None 0)) as w7 eqn:E7.
  exists w7, cols, rows. split; [|split_and!; [done|done| | |congruence]].
  2: { rewrite H3, G8, F8, D8, B12. done. }
  2: { rewrite H5, G9, F9. exact D9. }
  change (retries now later (c_generation c + 1)) with
    (([(now, EvTick); (now, EvRun None 0); (now, EvWake)] ++
      [(now, EvRun None 0); (now, EvRun None 0)]) ++
     [(later, EvRun None 0); (later, EvRun None 0)] ++ answers later (c_generation c + 1)).
  rewrite (run_concat (_ ++ _)), (run_concat [_; _; _]), E3, (run_concat [_; _]).
  change (run build w3 [(now, EvRun None 0); (now, EvRun None 0)])
    with (next build (next build w3 (now, EvRun None 0)) (now, EvRun None 0)).
  rewrite <- E4, <- E5, E6. by rewrite E7.
Qed.

(** C6: degraded is not the end.  From every reachable degraded state with the
    run loop at rest and no start under way: once the cooldown is over, one tick
    leads, through a restart that costs nothing of the budget and its backoff, to
    a new call of [startRenderer]; if the worker it starts answers, that renderer
    is in place, of the next generation, accepts frames and is ready.  It was
    given every event the journal retains, under the journal's last id - unless
    the restart takes the poison escape (budget exhausted, something retained,
    no clean start tried yet): then it was given no event and no checkpoint,
    and the marker that its recovery is partial if an event was dropped.  Either
    way output up to the journal's last id counts as replayed, and no further. *)
Theorem degraded_recovers now0 terminalID journal timeout policy es now later :
  0 <= j_nextID journal -> j_nextID journal + zlen es + 1 < two64 ->
  let w := run build (newWorld (newRendererSupervisor now0 terminalID journal timeout policy)) es in
  let c := s_core (w_sup w) in
  let j := s_journal (w_sup w) in
  c_degraded c = true -> c_closed c = false -> w_run w = RunSelect -> w_starts w = ∅ ->
  po_Cooldown (s_policy (w_sup w)) <= time_sub now (c_degradedAt c) ->
  now + backoffAt now (w_sup w) <= later ->
  let g := c_generation c + 1 in
  let w' := run build w (retries now later g) in
  let c' := s_core (w_sup w') in
  c_link c' = Some g /\ c_acceptFrames c' = true /\ c_degraded c' = false /\ c_generation c' = g /\
  c_replayThrough c' = j_nextID j /\
  st_State (s_status (w_sup w')) = rendererStateReady /\
  w_run w' = RunSelect /\ w_starts w' = ∅ /\ w_charges w' = w_charges w /\
  exists params, w_inits w' !! g = Some params /\ ip_JournalWatermark params = j_nextID j /\
    if poisoned now (w_sup w)
    then ip_Journal params = [] /\ ip_Checkpoint params = None /\
         ip_JournalPartial params = negb (bool_decide (j_events j = [])) || j_partial j
    else ip_Journal params = j_events j /\ ip_JournalPartial params = j_partial j.
Proof.
  intros Hj Hn w c j Hd Hc Hr Hs Hcool Hlater g w' c'.
  assert (degraded_inv w) as Hdi by (by apply run_degraded).
  assert (smallFor 1 w) as (S1 & S2 & _ & _).
  { apply (run_small build es [(now, EvTick)]). apply supervised_small; unfold zlen in *; simpl; lia. }
  clearbody w. subst c' w' g c j.
  destruct (retry_to_spawn now later w) as (w1 & cols & rows & Ew & E1 & E2 & E3 & E4 & E5); try done.
  { lia. }
  destruct (installed_world later _ cols rows w1 E1 E2) as (I1 & I2 & I3 & I4 & I5 & I6).
  assert (j_nextID (s_journal (w_sup w1)) = j_nextID (s_journal (w_sup w))) as Hid.
  { rewrite E3. unfold journalAfter, Reset. by repeat case_match. }
  rewrite Ew, I1. unfold current in E2. bool_to_prop.
  split_and!; try done; try congruence.
  eexists. split; [exact I6|]. split; [exact Hid|].
  unfold journalAfter in E3. destruct (poisoned now (w_sup w)); simpl; rewrite E3; [|done].
  unfold usableCheckpoint. rewrite E4 by done. unfold Reset. by destruct (j_events (s_journal (w_sup w))) eqn:Ee; rewrite ?Ee.
Qed.
End Live.

Module LiveSample.
Import SupervisorSample BudgetSample.

#[local] Existing Instance RecoverySample.coder.

Definition init : rendererInitResult := InitResult rendererWorkerProtocolVersion true "b1" false false.

(** Output arrives while the supervisor is degraded. *)
Definition given_up : list (time * event) := failing ++ [(sec 7, EvAppend (OpOutput [104]))].

#[local] Abbreviation degraded :=
  (run "b1" (newWorld (newRendererSupervisor (sec 0) "t1" journal 0 strict)) given_up).

Lemma degraded_state :
  c_degraded (s_core (w_sup degraded)) = true /\ c_closed (s_core (w_sup degraded)) = false /\
  w_run degraded = RunSelect /\ w_starts degraded = ∅ /\
  c_degradedAt (s_core (w_sup degraded)) = sec 6 /\
  s_policy (w_sup degraded) = normalized strict defaultRendererCommandTimeout /\
  backoffAt (sec 40) (w_sup degraded) = 0.
Proof. vm_compute. done. Qed.

(** What the retry gives the worker: how many events. *)
Definition given (j : rendererJournal) (es : list (time * event)) : option nat :=
  let w := run "b1" (newWorld (newRendererSupervisor (sec 0) "t1" j 0 strict)) es in
  let g := c_generation (s_core (w_sup w)) + 1 in
  let w' := run "b1" w (retries "codelima" init (sec 40) (sec 41) g) in
  length ∘ ip_Journal <$> w_inits w' !! g.

Example output_replayed : given journal given_up = Some 1%nat.
Proof. vm_compute. done. Qed.

(** The budget runs out with nothing retained, then output arrives: the retry's
    poison escape drops it. *)
Example output_dropped :
  given (newRendererJournal 100)
    ((sec 0, EvStart 80 24) :: starts (sec 0) 1 ++ stalls (sec 2) ++ replaces (sec 2) ++
     starts (sec 2) 2 ++ stalls (sec 4) ++ replaces (sec 4) ++
     [(sec 5, EvAppend (OpOutput [104]))]) = Some 0%nat.
Proof. vm_compute. done. Qed.

Lemma degraded_recovers_witness :
  let w := degraded in
  let c := s_core (w_sup w) in
  let j := s_journal (w_sup w) in
  let g := c_generation c + 1 in
  let w' := run "b1" w (retries "codelima" init (sec 40) (sec 41) g) in
  let c' := s_core (w_sup w') in
  c_link c' = Some g /\ c_acceptFrames c' = true /\ c_degraded c' = false /\ c_generation c' = g /\
  c_replayThrough c' = j_nextID j /\
  st_State (s_status (w_sup w')) = rendererStateReady /\
  w_run w' = RunSelect /\ w_starts w' = ∅ /\ w_charges w' = w_charges w /\
  exists params, w_inits w' !! g = Some params /\ ip_JournalWatermark params = j_nextID j /\
    if poisoned (sec 40) (w_sup w)
    then ip_Journal params = [] /\ ip_Checkpoint params = None /\
         ip_JournalPartial params = negb (bool_decide (j_events j = [])) || j_partial j
    else ip_Journal params = j_events j /\ ip_JournalPartial params = j_partial j.
Proof.
  destruct degraded_state as (H1 & H2 & H3 & H4 & H5 & H6 & H7).
  apply (degraded_recovers "b1" "codelima" init (conj eq_refl eq_refl) (sec 0) "t1" journal 0 strict
    given_up (sec 40) (sec 41)).
  - vm_compute. discriminate.
  - vm_compute. reflexivity.
  - exact H1.
  - exact H2.
  - exact H3.
  - exact H4.
  - rewrite H5, H6. vm_compute. discriminate.
  - rewrite H7. vm_compute. discriminate.
Defined.
End LiveSample.
