(* ===== verification/RendererGraphics.v ===== *)
(** * Images of a terminal

    [internal/codelima/renderer_graphics.go], [terminal_graphics_isolated.go] and
    the reading loop of [tui_terminal_graphics.go], over the types of
    [internal/terminalgraphics] and [daemon/graphics.go].  The worker keeps the
    pixels of the scene it published last; a client fetches them in chunks,
    through the daemon, which keeps metadata only. *)

From S2P Require Import Prelude.
Local Open Scope Z_scope.

(** ** Data *)

Definition MaxBytes : Z := Z.shiftl 16 20.
Definition MaxPixels : Z := Z.shiftl 4 20.
Definition MaxAssets : Z := 256.
Definition MaxPlacements : Z := 1024.
Definition MaxChunkBytes : Z := Z.shiftl 64 10.

(** The widths of the unsigned fields, and of [RendererGeneration] and
    [Generation], bound the integers: [uint32] and [uint64]. *)
Record graphicsAsset := Asset {
  ga_ImageID : Z;
  ga_Generation : Z;
  ga_Width : Z;
  ga_Height : Z;
  ga_ByteLength : Z;
  ga_RGBA : bytes;
}.

Record graphicsPlacement := Placement {
  gp_ImageID : Z;
  gp_PlacementID : Z;
  gp_AssetGeneration : Z;
  gp_Z : Z;
  gp_OffsetX : Z;
  gp_OffsetY : Z;
  gp_PixelWidth : Z;
  gp_PixelHeight : Z;
  gp_GridCols : Z;
  gp_GridRows : Z;
  gp_ViewportCol : Z;
  gp_ViewportRow : Z;
  gp_SourceX : Z;
  gp_SourceY : Z;
  gp_SourceWidth : Z;
  gp_SourceHeight : Z;
}.

Record graphicsFrame := Frame {
  gf_RendererGeneration : Z;
  gf_Generation : Z;
  gf_Assets : list graphicsAsset;
  gf_Placements : list graphicsPlacement;
}.

Definition noFrame : graphicsFrame := Frame 0 0 [] [].

Record TerminalGraphicsParams := GraphicsParams {
  gq_RendererGeneration : Z;
  gq_ImageID : Z;
  gq_Generation : Z;
  gq_Offset : Z;
  gq_Length : Z;
}.

Record TerminalGraphicsChunk := GraphicsChunk {
  gc_RendererGeneration : Z;
  gc_ImageID : Z;
  gc_Generation : Z;
  gc_Offset : Z;
  gc_Total : Z;
  gc_Data : bytes;
}.

Record rendererGraphicsAssets := GraphicsAssets {
  gs_generation : Z;
  gs_assets : gmap Z graphicsAsset;
}.

Definition noAssets : rendererGraphicsAssets := GraphicsAssets 0 ∅.

(** ** The worker's cache *)

(** The loop over the assets: those so far and their total. *)
Fixpoint validateAssets (pixels : bool) (assets : gmap Z graphicsAsset) (total : Z)
    (rest : list graphicsAsset) : result (gmap Z graphicsAsset) :=
  match rest with
  | [] => Ok assets
  | asset :: rest =>
      if (ga_Width asset =? 0) || (ga_Height asset =? 0) ||
         (Z.quot MaxPixels (ga_Height asset) <? ga_Width asset)
      then Err (ENew "graphics asset dimensions exceed the pixel bound")
      else
        let length := u64 (ga_Width asset * ga_Height asset * 4) in
        if (ga_ImageID asset =? 0) || (ga_Width asset =? 0) || (ga_Height asset =? 0) ||
           (MaxBytes <? length) || negb (length =? ga_ByteLength asset) ||
           (pixels && negb (zlen (ga_RGBA asset) =? length))
        then Err (ENew "graphics asset bounds are invalid")
        else
          match assets !! ga_ImageID asset with
          | Some _ => Err (ENew "graphics scene contains a duplicate asset")
          | None =>
              let total := u64 (total + length) in
              if MaxBytes <? total
              then Err (ENew "graphics scene exceeds aggregate pixel bound")
              else validateAssets pixels (<[ga_ImageID asset := asset]> assets) total rest
          end
  end.

Definition zeroAsset : graphicsAsset := Asset 0 0 0 0 0 [].

Definition validPlacement (assets : gmap Z graphicsAsset) (p : graphicsPlacement) : result unit :=
  match assets !! gp_ImageID p with
  | None => Err (ENew "graphics placement references an unavailable asset generation")
  | Some asset =>
      if negb (gp_AssetGeneration p =? ga_Generation asset)
      then Err (ENew "graphics placement references an unavailable asset generation")
      else if (ga_Width asset <? gp_SourceX p) || (ga_Height asset <? gp_SourceY p) ||
              (ga_Width asset - gp_SourceX p <? gp_SourceWidth p) ||
              (ga_Height asset - gp_SourceY p <? gp_SourceHeight p)
      then Err (ENew "graphics placement source bounds are invalid")
      else Ok tt
  end.

Fixpoint validatePlacements (assets : gmap Z graphicsAsset) (rest : list graphicsPlacement)
    : result unit :=
  match rest with
  | [] => Ok tt
  | p :: rest => _ ← validPlacement assets p; validatePlacements assets rest
  end.

Definition validateRendererGraphics (frame : graphicsFrame) (pixels : bool) : result unit :=
  if (MaxAssets <? zlen (gf_Assets frame)) || (MaxPlacements <? zlen (gf_Placements frame))
  then Err (ENew "graphics scene exceeds its asset or placement bound")
  else
    assets ← validateAssets pixels ∅ 0 (gf_Assets frame);
    validatePlacements assets (gf_Placements frame).

Definition withoutPixels (a : graphicsAsset) : graphicsAsset :=
  Asset (ga_ImageID a) (ga_Generation a) (ga_Width a) (ga_Height a) (ga_ByteLength a) [].

Definition cloneGraphicsMetadata (frame : graphicsFrame) : graphicsFrame :=
  Frame (gf_RendererGeneration frame) (gf_Generation frame)
    (map withoutPixels (gf_Assets frame)) (gf_Placements frame).

Definition byImage (assets : list graphicsAsset) : gmap Z graphicsAsset :=
  foldl (fun m a => <[ga_ImageID a := a]> m) ∅ assets.

Definition installOwned (frame : graphicsFrame) (c : rendererGraphicsAssets)
    : result graphicsFrame * rendererGraphicsAssets :=
  match validateRendererGraphics frame true with
  | Err e => (Err e, c)
  | Ok _ =>
      (Ok (cloneGraphicsMetadata frame),
       GraphicsAssets (gf_RendererGeneration frame) (byImage (gf_Assets frame)))
  end.

Definition validateGraphicsRequest (request : TerminalGraphicsParams) (total : Z) : result Z :=
  if (gq_Offset request <? 0) || (total <? gq_Offset request) || (gq_Length request <=? 0) ||
     (MaxChunkBytes <? gq_Length request)
  then Err (ENew "graphics chunk offset or length is outside its bound")
  else Ok (Z.min (gq_Length request) (total - gq_Offset request)).

(** [read]: the slice of the pixels. *)
Definition readAsset (request : TerminalGraphicsParams) (c : rendererGraphicsAssets)
    : result TerminalGraphicsChunk :=
  let unavailable := Err (ENew "graphics asset generation is no longer available") in
  match gs_assets c !! gq_ImageID request with
  | None => unavailable
  | Some asset =>
      if negb (gq_RendererGeneration request =? gs_generation c) ||
         negb (gq_Generation request =? ga_Generation asset)
      then unavailable
      else
        length ← validateGraphicsRequest request (zlen (ga_RGBA asset));
        Ok (GraphicsChunk (gs_generation c) (ga_ImageID asset) (ga_Generation asset)
              (gq_Offset request) (zlen (ga_RGBA asset))
              (take (Z.to_nat length) (drop (Z.to_nat (gq_Offset request)) (ga_RGBA asset))))
  end.

(** ** The daemon *)

(** The published screen the daemon holds: whether it is stale, and its scene. *)
Record publishedScene := Scene { sn_Stale : bool; sn_Graphics : graphicsFrame }.

Definition graphicsAssetMetadata (cache : option publishedScene) (request : TerminalGraphicsParams)
    : result graphicsAsset :=
  match cache with
  | None => Err (ENew "graphics renderer generation is no longer available")
  | Some scene =>
      if sn_Stale scene ||
         negb (gf_RendererGeneration (sn_Graphics scene) =? gq_RendererGeneration request)
      then Err (ENew "graphics renderer generation is no longer available")
      else
        match List.find (fun a => (ga_ImageID a =? gq_ImageID request) &&
                                  (ga_Generation a =? gq_Generation request))
                (gf_Assets (sn_Graphics scene)) with
        | Some asset => _ ← validateGraphicsRequest request (ga_ByteLength asset); Ok asset
        | None => Err (ENew "graphics asset generation is no longer available")
        end
  end.

(** What a fetch meets: the daemon's screen before and after the call, and the
    renderer's cache, or the error the call gets instead. *)
Record graphicsMoment := Moment {
  gm_before : option publishedScene;
  gm_cache : result rendererGraphicsAssets;
  gm_after : option publishedScene;
}.

Definition GraphicsAsset (m : graphicsMoment) (request : TerminalGraphicsParams)
    : result TerminalGraphicsChunk :=
  _ ← graphicsAssetMetadata (gm_before m) request;
  cache ← gm_cache m;
  chunk ← readAsset request cache;
  asset ← graphicsAssetMetadata (gm_after m) request;
  let length :=
    match validateGraphicsRequest request (ga_ByteLength asset) with Ok n => n | Err _ => 0 end in
  if negb (gc_RendererGeneration chunk =? gq_RendererGeneration request) ||
     negb (gc_ImageID chunk =? gq_ImageID request) ||
     negb (gc_Generation chunk =? gq_Generation request) ||
     negb (gc_Offset chunk =? gq_Offset request) ||
     negb (gc_Total chunk =? ga_ByteLength asset) || negb (zlen (gc_Data chunk) =? length)
  then Err (ENew "renderer returned an invalid graphics chunk")
  else Ok chunk.

(** ** The client *)

Definition validTUIGraphicsAsset (a : graphicsAsset) : bool :=
  (0 <? ga_Width a) && (0 <? ga_Height a) && (ga_Width a <=? Z.quot MaxPixels (ga_Height a)) &&
  (u64 (ga_Width a * ga_Height a * 4) =? ga_ByteLength a) && (ga_ByteLength a <=? MaxBytes).

Definition chunkRequest (rendererGeneration : Z) (asset : graphicsAsset) (have : Z)
    : TerminalGraphicsParams :=
  GraphicsParams rendererGeneration (ga_ImageID asset) (ga_Generation asset) have
    (Z.min MaxChunkBytes (ga_ByteLength asset - have)).

(** The loop, over the moments its calls meet; when they run out the context
    has ended. *)
Fixpoint fetchChunks (rendererGeneration : Z) (asset : graphicsAsset) (moments : list graphicsMoment)
    (data : bytes) : result bytes :=
  if zlen data <? ga_ByteLength asset then
    match moments with
    | [] => Err (ENew "context deadline exceeded")
    | m :: rest =>
        let params := chunkRequest rendererGeneration asset (zlen data) in
        chunk ← GraphicsAsset m params;
        if negb (gc_RendererGeneration chunk =? gq_RendererGeneration params) ||
           negb (gc_ImageID chunk =? gq_ImageID params) ||
           negb (gc_Generation chunk =? gq_Generation params) ||
           negb (gc_Offset chunk =? gq_Offset params) ||
           negb (gc_Total chunk =? ga_ByteLength asset) ||
           negb (zlen (gc_Data chunk) =? gq_Length params)
        then Err (ENew "graphics chunk identity or bounds mismatch")
        else fetchChunks rendererGeneration asset rest (data ++ gc_Data chunk)
    end
  else Ok data.

Definition fetchTUIGraphicsAsset (frame : graphicsFrame) (asset : graphicsAsset)
    (moments : list graphicsMoment) : result bytes :=
  if negb (validTUIGraphicsAsset asset) then Err (ENew "invalid graphics asset dimensions")
  else fetchChunks (gf_RendererGeneration frame) asset moments [].

(** ** Lemmas *)

(** A chunk that [readAsset] answers is the slice asked for. *)
Lemma readAsset_ok request c chunk :
  readAsset request c = Ok chunk ->
  exists asset, gs_assets c !! gq_ImageID request = Some asset /\
    gs_generation c = gq_RendererGeneration request /\
    ga_Generation asset = gq_Generation request /\
    0 <= gq_Offset request <= zlen (ga_RGBA asset) /\ gc_Total chunk = zlen (ga_RGBA asset) /\
    gc_Data chunk = take (Z.to_nat (Z.min (gq_Length request) (zlen (ga_RGBA asset) - gq_Offset request)))
      (drop (Z.to_nat (gq_Offset request)) (ga_RGBA asset)).
Proof.
  unfold readAsset. destruct (gs_assets c !! _) as [asset|]; [|done].
  destruct (_ || _) eqn:E; [done|]. bool_to_prop. unfold validateGraphicsRequest.
  destruct (_ || _ || _ || _) eqn:Er; [done|]. bool_to_prop. simpl. intros [= <-]. simpl.
  exists asset. split_and!; try done; lia.
Qed.

Lemma GraphicsAsset_ok m request chunk :
  GraphicsAsset m request = Ok chunk ->
  exists c, gm_cache m = Ok c /\ readAsset request c = Ok chunk.
Proof.
  unfold GraphicsAsset. intros E.
  destruct (graphicsAssetMetadata (gm_before m) request); [|done]. simpl in E.
  destruct (gm_cache m) as [c|]; [|done]. simpl in E. exists c. split; [done|].
  destruct (readAsset request c) as [k|]; [|done]. simpl in E.
  destruct (graphicsAssetMetadata (gm_after m) request); [|done]. simpl in E.
  by destruct (_ || _ || _ || _ || _ || _); simplify_eq.
Qed.

(** The slices in sequence are the pixels. *)
Lemma take_slice {A} (r : list A) (k n : nat) :
  take k r ++ take n (drop k r) = take (k + n) r.
Proof. by rewrite take_take_drop. Qed.

Section Fetch.
Context (G : Z) (asset : graphicsAsset) (pixels : bytes).

(** Every cache that has the asset has these pixels. *)
Definition immutable (m : graphicsMoment) : Prop :=
  forall c a, gm_cache m = Ok c -> gs_generation c = G ->
    gs_assets c !! ga_ImageID asset = Some a -> ga_Generation a = ga_Generation asset ->
    ga_RGBA a = pixels.

Lemma fetchChunks_exact moments data out :
  0 < ga_ByteLength asset -> Forall immutable moments ->
  fetchChunks G asset moments data = Ok out ->
  (data = [] \/ zlen pixels = ga_ByteLength asset) -> data = take (length data) pixels ->
  zlen data <= ga_ByteLength asset ->
  out = pixels.
Proof.
  intros Hpos Hm. revert data. induction Hm as [|m moments Him _ IH]; intros data; simpl.
  - destruct (zlen data <? _) eqn:E; [done|]. bool_to_prop. intros [= <-] Hl Hd Hle.
    destruct Hl as [->|Hl]; [unfold zlen in *; simpl in *; lia|].
    rewrite Hd. apply take_ge. unfold zlen in *. lia.
  - destruct (zlen data <? _) eqn:E; bool_to_prop.
    2: { intros [= <-] Hl Hd Hle. destruct Hl as [->|Hl]; [unfold zlen in *; simpl in *; lia|].
         rewrite Hd. apply take_ge. unfold zlen in *. lia. }
    destruct (GraphicsAsset m _) as [chunk|] eqn:Eg; [|done]. simpl.
    destruct (_ || _ || _ || _ || _ || _) eqn:Ec; [done|]. bool_to_prop. intros Hf Hl Hd Hle.
    apply GraphicsAsset_ok in Eg as (c & Hc & Hr).
    apply readAsset_ok in Hr as (a & Ha & Hgen & Hag & Hoff & Htot & Hdata). simpl in *.
    pose proof (Him c a Hc Hgen Ha Hag) as Hpix. rewrite Hpix in *.
    apply (IH _ Hf); [right; congruence| |].
    + rewrite length_app. rewrite Hd at 1. replace (Z.to_nat (zlen data)) with (length data) in Hdata by (unfold zlen; lia).
      rewrite Hdata, take_slice, length_take, length_drop.
      apply (f_equal (fun k => take k pixels)). unfold zlen in *. lia.
    + unfold zlen in *. rewrite length_app. lia.
Qed.
End Fetch.

(** *** Installed scenes *)

(** The bounds as numbers, for [lia]. *)
Ltac bounds := change MaxPixels with 4194304 in *; change MaxBytes with 16777216 in *;
  change MaxChunkBytes with 65536 in *.

(** The unsigned fields are not negative. *)
Definition asset_uint (a : graphicsAsset) : Prop := 0 <= ga_Width a /\ 0 <= ga_Height a.

Definition asset_ok (a : graphicsAsset) : Prop :=
  0 < ga_Width a /\ 0 < ga_Height a /\ ga_Width a * ga_Height a <= MaxPixels /\
  ga_Width a <= Z.quot MaxPixels (ga_Height a) /\
  ga_ByteLength a = ga_Width a * ga_Height a * 4 /\ ga_ByteLength a <= MaxBytes /\
  zlen (ga_RGBA a) = ga_ByteLength a.

Lemma validateAssets_ok l m total m' :
  Forall asset_uint l -> 0 <= total <= MaxBytes -> validateAssets true m total l = Ok m' ->
  Forall asset_ok l /\ total + zsum (fun a => zlen (ga_RGBA a)) l <= MaxBytes /\
  NoDup (map ga_ImageID l) /\ Forall (fun a => m !! ga_ImageID a = None) l.
Proof.
  revert m total. induction l as [|a l IH]; intros m total Hu Ht; simpl.
  { intros _. split_and!; [constructor|lia|constructor|constructor]. }
  apply Forall_cons in Hu as [[Hw Hh] Hu].
  destruct (_ || _ || _) eqn:E1; [done|]. bool_to_prop.
  assert (ga_Width a * ga_Height a <= MaxPixels) as Hpix.
  { transitivity (Z.quot MaxPixels (ga_Height a) * ga_Height a); [nia|].
    rewrite Z.mul_comm. apply Z.mul_quot_le; [done|lia]. }
  rewrite (u64_small (ga_Width a * ga_Height a * 4)).
  2: { pose proof (Z.mul_nonneg_nonneg _ _ Hw Hh). bounds. lia. }
  destruct (_ || _ || _ || _ || _ || _) eqn:E2; [done|]. bool_to_prop.
  destruct (m !! ga_ImageID a) eqn:Em; [done|].
  rewrite u64_small by (bounds; lia).
  destruct (MaxBytes <? _) eqn:E3; [done|]. bool_to_prop. intros Hv.
  apply IH in Hv as (I1 & I2 & I3 & I4); [|done|bounds; lia].
  assert (zlen (ga_RGBA a) = ga_Width a * ga_Height a * 4) as Hlen by lia.
  split_and!.
  - constructor; [|done]. unfold asset_ok. split_and!; lia.
  - lia.
  - simpl. constructor; [|done]. intros Hin.
    apply list_elem_of_fmap in Hin as (b & Hb & Hin). rewrite Forall_forall in I4.
    specialize (I4 b Hin). rewrite <- Hb, lookup_insert_eq in I4. done.
  - constructor; [done|]. rewrite Forall_forall in *. intros b Hb. specialize (I4 b Hb).
    by apply lookup_insert_None in I4 as [? _].
Qed.

Lemma byImage_lookup l a (m : gmap Z graphicsAsset) :
  NoDup (map ga_ImageID l) -> a ∈ l ->
  foldl (fun m a => <[ga_ImageID a := a]> m) m l !! ga_ImageID a = Some a.
Proof.
  assert (forall (k : list graphicsAsset) (m : gmap Z graphicsAsset), (ga_ImageID a ∉ map ga_ImageID k) ->
    foldl (fun m a => <[ga_ImageID a := a]> m) m k !! ga_ImageID a = m !! ga_ImageID a) as Hk.
  { induction k as [|b k IH]; intros m' Hn; simpl; [done|].
    apply not_elem_of_cons in Hn as [Hn1 Hn2]. rewrite IH by done. by rewrite lookup_insert_ne. }
  revert m. induction l as [|b l IH]; intros m Hnd Ha; [by apply not_elem_of_nil in Ha|].
  apply NoDup_cons in Hnd as [Hn Hnd]. apply elem_of_cons in Ha as [<-|Ha]; simpl.
  - rewrite Hk by done. apply lookup_insert_eq.
  - by apply IH.
Qed.

Lemma find_metadata l a :
  NoDup (map ga_ImageID l) -> a ∈ l ->
  List.find (fun b => (ga_ImageID b =? ga_ImageID a) && (ga_Generation b =? ga_Generation a))
    (map withoutPixels l) = Some (withoutPixels a).
Proof.
  induction l as [|b l IH]; intros Hnd Ha; [by apply not_elem_of_nil in Ha|].
  apply NoDup_cons in Hnd as [Hn Hnd]. apply elem_of_cons in Ha as [<-|Ha]; simpl.
  - by rewrite !Z.eqb_refl.
  - destruct (ga_ImageID b =? ga_ImageID a) eqn:E; simpl; [|by apply IH].
    bool_to_prop. exfalso. apply Hn. rewrite E. by apply list_elem_of_fmap_2.
Qed.

Section Installed.
Context (frame : graphicsFrame) (asset : graphicsAsset).
Hypothesis distinct : NoDup (map ga_ImageID (gf_Assets frame)).
Hypothesis member : asset ∈ gf_Assets frame.
Hypothesis valid : asset_ok asset.

Let G := gf_RendererGeneration frame.
Let meta := cloneGraphicsMetadata frame.
Let cache := GraphicsAssets G (byImage (gf_Assets frame)).

(** Nothing changes during the fetch. *)
Definition undisturbed : graphicsMoment :=
  Moment (Some (Scene false meta)) (Ok cache) (Some (Scene false meta)).

Lemma request_ok have :
  0 <= have < ga_ByteLength asset ->
  validateGraphicsRequest (chunkRequest G (withoutPixels asset) have) (ga_ByteLength asset) =
    Ok (Z.min MaxChunkBytes (ga_ByteLength asset - have)).
Proof.
  intros Hh. unfold validateGraphicsRequest, chunkRequest. simpl.
  destruct (_ || _ || _ || _) eqn:E; bool_to_prop; [bounds; lia|].
  f_equal. lia.
Qed.

Lemma metadata_found have :
  0 <= have < ga_ByteLength asset ->
  graphicsAssetMetadata (Some (Scene false meta)) (chunkRequest G (withoutPixels asset) have) =
    Ok (withoutPixels asset).
Proof.
  intros Hh. unfold graphicsAssetMetadata. simpl. rewrite Z.eqb_refl. simpl.
  rewrite find_metadata by done. simpl. by rewrite request_ok.
Qed.

Lemma chunk_answer have :
  0 <= have < ga_ByteLength asset ->
  GraphicsAsset undisturbed (chunkRequest G (withoutPixels asset) have) =
    Ok (GraphicsChunk G (ga_ImageID asset) (ga_Generation asset) have (ga_ByteLength asset)
      (take (Z.to_nat (Z.min MaxChunkBytes (ga_ByteLength asset - have)))
         (drop (Z.to_nat have) (ga_RGBA asset)))).
Proof.
  intros Hh. destruct valid as (_ & _ & _ & _ & _ & _ & Hlen).
  unfold GraphicsAsset, undisturbed. cbn [gm_before gm_cache gm_after].
  rewrite metadata_found by done. cbn [mbind result_bind].
  assert (readAsset (chunkRequest G (withoutPixels asset) have) cache =
    Ok (GraphicsChunk G (ga_ImageID asset) (ga_Generation asset) have (ga_ByteLength asset)
      (take (Z.to_nat (Z.min MaxChunkBytes (ga_ByteLength asset - have)))
         (drop (Z.to_nat have) (ga_RGBA asset))))) as ->.
  { unfold readAsset. simpl. unfold byImage. rewrite byImage_lookup by done.
    rewrite !Z.eqb_refl. cbn [negb orb]. rewrite Hlen, request_ok by done. done. }
  cbn [mbind result_bind withoutPixels ga_ByteLength]. rewrite request_ok by done.
  cbn [chunkRequest gc_RendererGeneration gq_RendererGeneration gc_ImageID gq_ImageID gc_Generation
    gq_Generation gc_Offset gq_Offset gc_Total gc_Data withoutPixels ga_ImageID ga_Generation].
  rewrite !Z.eqb_refl. cbn [negb orb].
  destruct (_ =? _) eqn:E; [done|]. bool_to_prop. exfalso. apply E. unfold zlen in *.
  rewrite length_take, length_drop. bounds. lia.
Qed.

Lemma fetchChunks_complete n data :
  data = take (length data) (ga_RGBA asset) -> zlen data <= ga_ByteLength asset ->
  ga_ByteLength asset - zlen data <= MaxChunkBytes * Z.of_nat n ->
  fetchChunks G (withoutPixels asset) (replicate n undisturbed) data = Ok (ga_RGBA asset).
Proof.
  pose proof valid as (_ & _ & _ & _ & _ & _ & Hlen).
  revert data. induction n as [|n IH]; intros data Hd Hle Hn; cbn [replicate fetchChunks];
    cbn [withoutPixels ga_ByteLength]; destruct (zlen data <? _) eqn:E; bool_to_prop;
    try (f_equal; rewrite Hd; apply take_ge; unfold zlen in *; lia).
  - bounds. lia.
  - pose proof (zlen_nonneg data). rewrite chunk_answer by lia. cbn [mbind result_bind].
    set (piece := take _ _).
    assert (zlen piece = Z.min MaxChunkBytes (ga_ByteLength asset - zlen data)) as Hpiece.
    { unfold piece, zlen in *. rewrite length_take, length_drop. bounds. lia. }
    cbn [chunkRequest gc_RendererGeneration gq_RendererGeneration gc_ImageID gq_ImageID gc_Generation
      gq_Generation gc_Offset gq_Offset gc_Total gc_Data gq_Length withoutPixels ga_ImageID
      ga_Generation ga_ByteLength].
    rewrite Hpiece, !Z.eqb_refl. cbn [negb orb]. apply IH.
    + rewrite length_app. rewrite Hd at 1. unfold piece.
      replace (Z.to_nat (zlen data)) with (length data) by (unfold zlen; lia).
      rewrite take_slice, length_take, length_drop. apply (f_equal (fun k => take k (ga_RGBA asset))).
      unfold zlen in *. lia.
    + rewrite zlen_app. lia.
    + rewrite zlen_app, Hpiece. bounds. lia.
Qed.
End Installed.

(** ** The theorem *)

(** C25: an image that was published reaches every client that manages to fetch
    it, exactly, although the pixels cross in pieces of 64 KiB between which the
    worker may install other scenes.  Of an installed scene (whose pixels are
    within 16 MiB, with no wrap-around in the arithmetic of the bounds, and whose
    published form has none): a fetch that succeeds, whatever scenes, renderers
    and failures its calls meet, returns the pixels of the asset, provided that
    an asset's identity determines its pixels; and undisturbed, it succeeds in as
    many calls as there are pieces. *)
Theorem graphics_fetched frame old meta cache asset :
  Forall asset_uint (gf_Assets frame) ->
  installOwned frame old = (Ok meta, cache) -> asset ∈ gf_Assets frame ->
  zsum (fun a => zlen (ga_RGBA a)) (gf_Assets frame) <= MaxBytes /\
  Forall (fun a => ga_RGBA a = []) (gf_Assets meta) /\
  (forall moments data,
     Forall (immutable (gf_RendererGeneration frame) (withoutPixels asset) (ga_RGBA asset)) moments ->
     fetchTUIGraphicsAsset meta (withoutPixels asset) moments = Ok data -> data = ga_RGBA asset) /\
  (forall n, ga_ByteLength asset <= MaxChunkBytes * Z.of_nat n ->
     fetchTUIGraphicsAsset meta (withoutPixels asset)
       (replicate n (Moment (Some (Scene false meta)) (Ok cache) (Some (Scene false meta)))) =
     Ok (ga_RGBA asset)).
Proof.
  intros Hu. unfold installOwned, validateRendererGraphics.
  destruct (_ || _); [done|]. destruct (validateAssets true ∅ 0 _) as [m|] eqn:Ev; [|done]. simpl.
  apply validateAssets_ok in Ev as (Hok & Hsum & Hnd & _); [|done|bounds; lia].
  destruct (validatePlacements _ _); [|done]. intros [= <- <-] Ha.
  rewrite Forall_forall in Hok. pose proof (Hok asset Ha) as Hv.
  pose proof Hv as (Hw & Hh & Hp & Hq & Hb & Hmax & Hlen).
  assert (validTUIGraphicsAsset (withoutPixels asset) = true) as Hval.
  { unfold validTUIGraphicsAsset. simpl. rewrite u64_small by (bounds; nia).
    rewrite Hb, Z.eqb_refl. rewrite !andb_true_iff. repeat split; lia. }
  unfold fetchTUIGraphicsAsset. rewrite Hval. simpl. split_and!; [lia| | |].
  - apply Forall_forall. intros x Hin. apply list_elem_of_fmap in Hin as (b & -> & _). done.
  - intros moments data Him Hf. eapply fetchChunks_exact; [|exact Him|exact Hf| | |]; simpl; try lia; auto.
    unfold zlen. simpl. lia.
  - intros n Hn. apply fetchChunks_complete; try done; unfold zlen; simpl; lia.
Qed.

Module GraphicsSample.

(** Two images, of which the first needs two pieces. *)
Definition large : graphicsAsset := Asset 7 3 20000 1 80000 (concat (repeat (repeat 9 400) 200)).
Definition small : graphicsAsset := Asset 8 1 1 2 8 [1; 2; 3; 4; 5; 6; 7; 8].
Definition scene : graphicsFrame :=
  Frame 2 5 [large; small] [Placement 8 1 1 0 0 0 1 2 1 1 0 0 0 1 1 1].

Lemma scene_installed :
  installOwned scene noAssets =
    (Ok (cloneGraphicsMetadata scene), GraphicsAssets 2 (byImage [large; small])).
Proof.
  unfold installOwned. replace (validateRendererGraphics scene true) with (@Ok unit tt); [done|].
  vm_compute. done.
Qed.

Lemma graphics_fetched_witness :
  zsum (fun a => zlen (ga_RGBA a)) (gf_Assets scene) <= MaxBytes /\
  Forall (fun a => ga_RGBA a = []) (gf_Assets (cloneGraphicsMetadata scene)) /\
  (forall moments data,
     Forall (immutable 2 (withoutPixels small) (ga_RGBA small)) moments ->
     fetchTUIGraphicsAsset (cloneGraphicsMetadata scene) (withoutPixels small) moments = Ok data ->
     data = ga_RGBA small) /\
  (forall n, ga_ByteLength small <= MaxChunkBytes * Z.of_nat n ->
     fetchTUIGraphicsAsset (cloneGraphicsMetadata scene) (withoutPixels small)
       (replicate n (Moment (Some (Scene false (cloneGraphicsMetadata scene)))
          (Ok (GraphicsAssets 2 (byImage [large; small])))
          (Some (Scene false (cloneGraphicsMetadata scene))))) = Ok (ga_RGBA small)).
Proof.
  apply (graphics_fetched scene noAssets (cloneGraphicsMetadata scene)
    (GraphicsAssets 2 (byImage [large; small])) small).
  - repeat (apply Forall_cons_2; [split; discriminate|]). apply Forall_nil_2.
  - exact scene_installed.
  - apply elem_of_cons. right. apply elem_of_cons. left. reflexivity.
Defined.
End GraphicsSample.
